(* ===== verification/_CoqProject ===== *)
-Q . S2P
Prelude.v
StdMap.v
Memory.v
RemoteMemory.v
DwarfMemory.v
DwarfEncode.v
DwarfStructs.v
Regs.v
DwarfOpTable.v
DwarfOp.v
DwarfOpSafety.v
DwarfOpExpr.v
DwarfCfaTable.v
DwarfCfa.v
DwarfCfaRows.v
DwarfSection.v
DwarfSectionEntries.v
DwarfSectionFdes.v
DwarfOpFrame.v
DwarfSectionEval.v
DwarfSectionStep.v
DwarfFrames.v
DwarfSectionScan.v
DwarfEhFrameWithHdr.v
DwarfEhFrameSearch.v
DwarfEhFrameStep.v
ElfTypes.v
Symbols.v
ArmExidx.v
ArmExidxEval.v
ElfInterface.v
ElfHeaders.v
ElfInterfaceArm.v
ElfArmUnwind.v
RegsArch.v
RegsSignal.v
RegsNames.v
Maps.v
MapsFind.v
MapsReparse.v
Elf.v
MapInfo.v
Global.v
JitDebug.v
DexFiles.v
Unwinder.v
UnwinderLoop.v
ElfSteps.v
UnwinderChain.v
UnwinderFormat.v
Log.v
ArmExidxLog.v
DwarfLog.v
LocalUnwinder.v
MapInfoElf.v
DexMethods.v
MapInfoCache.v
ElfObject.v
ElfFresh.v
ThreadEntry.v
ThreadUnwind.v
BacktraceMap.v
Backtrace.v
UnwindStack.v
