(* ===== verification/Prelude.v ===== *)
(** Verification of libunwindstack, the Android stack unwinder ([src/libunwindstack]), and of
    libbacktrace, the library through which most clients use it ([src/libbacktrace]).

    * The program

    An unwind goes from a frame to its caller. [Unwinder] finds the map of the program counter, the
    map's ELF object gives the pc relative to the object, and the object's DWARF sections, or its ARM
    exception tables, give the rules that restore the caller's registers. The parts, from the bytes
    to the main loop, each of which calls only those before it:

    - the memory objects through which everything is read ([Memory.cpp]);
    - the cursor that decodes DWARF values ([DwarfMemory.cpp]);
    - the DWARF expression machine ([DwarfOp.cpp]);
    - the call frame instructions, which yield the row of an address ([DwarfCfa.cpp]);
    - the sections of common information and frame description entries, with their caches, and the
      evaluation of a row into the caller's registers ([DwarfSection.cpp], [DwarfEhFrame.h],
      [DwarfDebugFrame.h]), and the binary search table of [.eh_frame_hdr]
      ([DwarfEhFrameWithHdr.cpp]);
    - the ARM exception tables ([ArmExidx.cpp]) and the ARM interface that searches them
      ([ElfInterfaceArm.cpp]);
    - the symbol tables ([Symbols.cpp]) and the headers of an ELF file ([ElfInterface.cpp]);
    - the registers of the architectures and their signal frames ([Regs.cpp], [RegsArm.cpp] and so
      on);
    - the ELF object ([Elf.cpp]) and the cache of objects;
    - the maps of a process ([Maps.cpp]) and the object of a map ([MapInfo.cpp]);
    - the objects of compiled code and of interpreted code ([Global.cpp], [JitDebug.cpp],
      [DexFiles.cpp], [DexFile.cpp]);
    - the main loop ([Unwinder.cpp]), and the quick one for the own process ([LocalUnwinder.cpp]);
    - libbacktrace: maps in its own types ([BacktraceMap.cpp], [UnwindStackMap.cpp]), the object of a
      thread, its reads and its frames ([Backtrace.cpp], [BacktracePtrace.cpp], [UnwindStack.cpp]),
      and the unwind of another thread of the process by a signal ([BacktraceCurrent.cpp],
      [ThreadEntry.cpp]).

    * Files

    - [Prelude]: machine integers with their wrap-around, bytes, the outcomes of C++ code, the state
      monad [M] of all models, its weakest precondition [wp] and the tactics for it.
    - [StdMap]: [std::map] as a sorted list of entries: [operator[]], [emplace], [upper_bound].
    - [Memory]: a module per class of [Memory.cpp]. A [Memory] is the function [Read]; a class has a
      record [t] and its methods. [ByteMemory m bm] is the interface that the clients use: reads of
      [m] return the longest readable prefix of the bytes of the map [bm]. [RemoteMemory]: the reads
      of a process, with classes for what the system calls promise ([ProcessVm], [Ptrace]).
    - [DwarfMemory]: the cursor; [DwarfEncode]: encoders of operands, and the lemmas that the cursor
      reads them back.
    - [DwarfStructs], [Regs]: the records of [DwarfError.h], [DwarfLocation.h], [DwarfStructs.h],
      [Regs.h], [RegsInfo.h].
    - [DwarfOpTable], [DwarfOp]: the opcode table, the handlers, [Decode] and [Eval];
      [DwarfOpSafety], [DwarfOpExpr], [DwarfOpFrame]: their theorems.
    - [DwarfCfaTable], [DwarfCfa]: the table and the interpreter of the call frame instructions;
      [DwarfCfaRows]: the abstract unwind table and the refinement.
    - [DwarfSection]: the entries, the caches, [Eval] and [Step]; [DwarfSectionEntries]: the format of
      the entries; [DwarfSectionFdes]: the search map; [DwarfSectionEval]: the evaluation of a frame;
      [DwarfSectionStep]: steps with their caches, over the class [FdeSearch] of the search;
      [DwarfFrames]: the unwind tables of the FDEs of a section; [DwarfSectionScan]: the instance of
      [FdeSearch] for a section without a header, which reads its entries one after the other.
    - [DwarfEhFrameWithHdr], [DwarfEhFrameSearch]: the header section and its search;
      [DwarfEhFrameStep]: the instance of [FdeSearch] for it, and the composition of all of these.
    - [ElfTypes]: the structures of [elf.h]. [Symbols]: the symbol tables and their cache.
    - [ArmExidx]: the extraction of an entry and the unwind instructions; [ArmExidxEval]: the
      semantics that the ABI gives to them.
    - [ElfInterface]: the headers, [Step], the build identifier, names and [.gnu_debugdata];
      [ElfHeaders]: its theorems. [ElfInterfaceArm]: the index of exception tables; [ElfArmUnwind]:
      its theorems.
    - [RegsArch]: a module per architecture; [RegsSignal]: the signal frames.
    - [Maps]: the maps and [LocalUpdatableMaps]; [MapsFind]: search and links; [MapsReparse]:
      [Reparse] for any number of maps.
    - [Elf]: the choice of the interface and the requests; [ElfObject]: the states of an object;
      [ElfFresh]: the state in which [Elf::Init] leaves it. [ElfSteps]: steps of an object over what
      its sections promise (the class [SectionSteps], with an instance per kind of section).
    - [MapInfo]: where the bytes of an object come from, [GetElf], and the cache; [MapInfoElf]: the
      bytes at a relative pc; [MapInfoCache]: the invariant of the objects and of the cache.
    - [Global]: what [JitDebug] and [DexFiles] share, over the class [GlobalClass] of the virtual
      methods; [JitDebug], [DexFiles]: the lists of the runtime; [DexMethods]: the theorem on methods.
    - [Unwinder]: the frames; [UnwinderLoop]: the loop; [UnwinderFormat]: the text of a frame, the
      setters and [UnwinderFromPid]; [RegsNames]: the names of the registers. [UnwinderChain]: the
      chain of callers as a function, and the main loop over the steps of [ElfSteps].
      [Log]: the lines of the log; [DwarfLog]: the listings of call frame instructions and of
      expressions; [ArmExidxLog]: the ARM instructions with their log, by text or by register.
      [LocalUnwinder]: the unwinder of the own process.
    - [ThreadEntry]: the list of entries; [ThreadUnwind]: the two threads that meet in an entry, as
      steps of a state. [BacktraceMap]: the base class over [BacktraceMapClass], and the maps over
      those of [Maps]. [Backtrace]: the object, its texts and its reads. [UnwindStack]: the unwind and
      the derived classes.

    * How the models read

    A class is a record of its members, a method a computation of [M] over that record with the
    method's name; a method that returns [false] without a value returns [None], or the boolean where
    it has both. [zoom] runs a method of a member object. A result is [Done (value, state)] or a
    [Fault]: [Undef] where C++ leaves the behaviour undefined (a shift by the width or more, an index
    outside of a vector or deque, a null pointer), [Aborted] for a failed [CHECK], and [OutOfFuel].
    Integers are [Z]; every operation that can leave its type wraps explicitly ([u8], [u32], [u64],
    [addr] for the template parameter [AddressType]). The host is 64-bit and little-endian.

    A pointer to an object that several others share is a key: that of the section's map for a CIE
    or an FDE, that of a heap for a [MapInfo] or an [Elf]. The heap of maps shows when a pointer
    dangles, the [World] of [MapInfo] holds the maps, the objects and the global cache. Memory is
    never exhausted, but a vector cannot grow beyond [max_size()]. The locks order the threads that
    share an object; the models are those of one thread, except for [ThreadUnwind], where every
    interleaving of the two threads is a sequence of events.

    What the code takes from outside is a parameter: the order in which an unordered map of locations
    is iterated (the theorem on [Eval] holds for every order), [std::sort] with its documented
    result, the XZ decoder, the contents of files and the success of [mmap], the entries that
    libprocinfo reads from a maps file, [process_vm_readv] and [ptrace], the calls of libdexfile, the
    demangler, and the value of storage that has no initializer.

    * Fuel

    [leb_fuel] is 11, since the eleventh byte of a LEB128 already shifts out of range; [eval_fuel] is
    the limit of 1000 iterations that [DwarfOp::Eval] has itself; [search_fuel] is 66, since the
    interval of a binary search halves; the searches of [Symbols] and [Maps] take the length of the
    vector. The loops over a memory ([location_loop], the augmentation string, the scans of a
    section, of notes, of symbols, of JIT entries) take their fuel as an argument: they are bounded
    by the bytes of the memory, and the theorems give the number that is enough
    ([cfa_refines_row_table], [symbols_lookups], [elf_build_id]), hold for every number
    ([cfa_location_info_safe]) or show that none is ([cfa_block_wrap_diverges],
    [symbols_entry_size_zero_diverges]). The loop over the frames has its own fuel: [unwind_frames_bounded]
    gives the number for it, and a relation of its runs without that fuel, [static_unwind_bounded] and
    [local_unwind_bounded] do the same for libbacktrace and the quick unwinder; [unwind_skip_never_ends]
    and [local_unwind_no_limit] show where none is enough. These three bound the number of iterations
    only: an iteration that is reached can fault, also because a loop over the memory of the process inside of it
    runs out of fuel, whatever the fuel, and the theorems say which iteration it is.

    * Theorems

    - Main loop: from the bytes of the unwind sections, an unwind yields the chain of callers
      ([unwind_computes_callers], which composes the maps, the objects, their sections, the rows and
      their evaluation); [Elf::Init] leaves objects in the state that this theorem asks for
      ([elf_init_dwarf_object]). The loop over the frames of an unwind has at most [max_frames] iterations and frames, the first of
      which is that of the registers; with maps to skip it need not end. That of the quick unwinder is bounded
      when its vector has room, and need not be otherwise.
    - libbacktrace: the two threads of a request meet as intended in every interleaving, and the action of the
      signal is put back; without timeouts a request ends, and after a timeout the next one may unwind an old context; the
      list of entries refines an association list; an unwind has at most 256 frames, those of
      the unwinder behind the ignored ones; the client's maps and the unwinder's agree; a read of
      the own process ends with the map, and one of a traced process goes on behind it.
    - Maps and objects: maps that are added and sorted are found and linked; [Reparse] of a file that
      did not change keeps the maps; with a new map above the old ones that are left, behind the first old
      ones in the file, it loses maps, dereferences null or aborts; the memory of an object has at a relative pc the bytes
      of the map, up to the end of the object when it is found through the map before; [GetElf] keeps the
      invariant of the objects; what the cache confuses; an object stays well formed under all
      requests; the method of a dex pc is the one of the dex file that contains it.
    - Architectures: a step through a signal handler restores the saved context.
    - ELF files: valid pcs (of the executable segments, the last one for each file offset), load bias and build
      identifier agree with the headers; name lookups with
      their cache are answered by the symbol table alone.
    - ARM: the entry of a pc is found, its instructions are extracted, [Eval] computes what the ABI
      defines, and a step returns the caller's registers; safety on arbitrary bytes.
    - Sections: any sequence of steps returns what the unwind tables of the FDEs give, whatever the
      four caches hold, from the bytes of [.eh_frame_hdr] and [.eh_frame] ([eh_frame_steps]) and from
      those of a section without a header, however much of it was read ([section_scan_steps]); both
      compose the search, the entries, the instructions and the evaluation. Reading inverts the format
      of the entries, and which relative addresses come out wrong; the search map is sound for every
      set of FDEs and complete for separated ones; an FDE that it loses; [Eval] computes the caller's
      registers; the search of the header table is correct, and [Init] establishes what it needs.
    - Listings: what [Log] prints for an FDE are its instructions ([fde_log_listing]), and where the
      addresses that it prints are not those of the rows. The log of the ARM instructions does not
      change what they do ([arm_log_transparent]), prints them as the ABI writes them
      ([arm_log_listing]), or shows the places where a run of them finds the registers
      ([arm_log_by_reg]), and where the places are wrong.
    - Call frame instructions: [GetLocationInfo] refines the row table that DWARF defines; it is safe
      on arbitrary bytes; where it differs from the row table.
    - Expressions: [Decode] and [Eval] are safe and end on arbitrary bytes; decoding inverts encoding;
      the code of an expression tree evaluates to the tree's value; [DW_OP_bra] and [DW_OP_pick].
    - Cursor: LEB128 values are read back, on which encodings the shifts are undefined, safety of
      [ReadEncodedValue] on arbitrary bytes, and its size.
    - Memory: reads of a process return its bytes, and where they join what a hole separates; the page
      cache is transparent; ranges dispatch to the memory that holds an address;
      [ReadString] returns exactly the terminated string; an offline dump serves its bytes at their
      addresses; a file memory is left inconsistent by a failed second [Init].

    A theorem that describes bytes which a memory holds states them with an encoder ([uleb],
    [encode_operand], [encode_table], [encode_fields]) and the predicate [holds]; the theorems on
    arbitrary bytes have no such hypothesis.

    * Not modelled

    Whether [log] sends a line to the log or to the standard output. The parsers of maps files and dex files, the XZ decoder and the demangler belong to other libraries.
    [UnwindMap.cpp] is written for libunwind and is in no build file. The command line tools, the
    benchmarks and the build for macOS are left out, and so is the mutex of the cache of objects. *)
From Stdlib Require Import ZArith Lia Bool Strings.Byte Sorting.Sorted.
From stdpp Require Import base numbers list gmap.
#[local] Open Scope Z_scope.

(** * Machine integers *)

Definition wrap (w x : Z) : Z := x mod 2 ^ w.

Definition sgn (w x : Z) : Z :=
  let y := wrap w x in if y <? 2 ^ (w - 1) then y else y - 2 ^ w.

Abbreviation u8 := (wrap 8).
Abbreviation u16 := (wrap 16).
Abbreviation u32 := (wrap 32).
Abbreviation u64 := (wrap 64).

(** [UINT64_MAX], and [static_cast<uint64_t>(-1)]. *)
Abbreviation UINT64_MAX := 18446744073709551615.

(** [in_u w x]: [x] is a value of the unsigned [w]-bit type. *)
Definition in_u (w x : Z) : Prop := 0 <= x < 2 ^ w.

#[export] Instance in_u_dec w x : Decision (in_u w x).
Proof. unfold in_u. apply _. Defined.

(** The template parameter [AddressType] of the DWARF classes. *)
Inductive addr_type : Set := U32 | U64.

Definition bits (A : addr_type) : Z := match A with U32 => 32 | U64 => 64 end.
Definition size_of (A : addr_type) : Z := match A with U32 => 4 | U64 => 8 end.

#[export] Instance addr_type_eq_dec : EqDecision addr_type.
Proof. solve_decision. Defined.

(** Conversion to [AddressType] and to its signed counterpart. *)
Definition addr (A : addr_type) (x : Z) : Z := wrap (bits A) x.
Definition saddr (A : addr_type) (x : Z) : Z := sgn (bits A) x.

(** * Bytes *)

Definition byte_val (b : byte) : Z := Z.of_N (Byte.to_N b).

#[export] Instance byte_eq_dec : EqDecision byte := Byte.byte_eq_dec.
#[export] Program Instance byte_countable : Countable byte := inj_countable Byte.to_N Byte.of_N _.
Next Obligation. apply Byte.of_to_N. Qed.

Definition byte_of (z : Z) : byte :=
  match Byte.of_N (Z.to_N (z mod 256)) with Some b => b | None => x00 end.

(** The little-endian value of a byte sequence: what a [memcpy] into an integer yields. *)
Fixpoint le_val (bs : list byte) : Z :=
  match bs with
  | [] => 0
  | b :: t => byte_val b + 256 * le_val t
  end.

Fixpoint le_bytes (n : nat) (z : Z) : list byte :=
  match n with
  | O => []
  | S m => byte_of z :: le_bytes m (z / 256)
  end.

(** What an integer of [size] bytes holds after [bs] were copied over its low bytes: the effect of a
    read into it, also of a partial one. *)
Definition overlay (size : Z) (old : Z) (bs : list byte) : Z :=
  le_val (bs ++ drop (length bs) (le_bytes (Z.to_nat size) old)).

(** * Outcomes of C++ code *)

(** The ways in which the modelled code can leave the C++ abstract machine. *)
Inductive ub : Set :=
| UbShift            (* shift count not smaller than the width *)
| UbOverflow         (* signed integer overflow *)
| UbStackIndex       (* DWARF expression stack accessed out of range *)
| UbOperandIndex     (* operand vector accessed out of range *)
| UbRegIndex         (* register vector accessed out of range *)
| UbNull             (* null or dangling pointer dereferenced *)
| UbUninit           (* uninitialized storage read *)
| UbStringEnd.       (* the terminator of a string overwritten *)

Inductive fault : Set :=
| Undef (u : ub)
| Aborted            (* [abort()], or a failed [CHECK] *)
| OutOfFuel.         (* the bound on the number of loop iterations was reached *)

#[export] Instance ub_eq_dec : EqDecision ub.
Proof. solve_decision. Defined.
#[export] Instance fault_eq_dec : EqDecision fault.
Proof. solve_decision. Defined.

Inductive outcome (A : Type) : Type :=
| Done (a : A)
| Fault (f : fault).
Arguments Done {A} _.
Arguments Fault {A} _.

(** * A state monad with faults *)

Definition M (S A : Type) : Type := S -> outcome (A * S).

Definition ret {S A} (a : A) : M S A := fun s => Done (a, s).

Definition bind {S A B} (m : M S A) (k : A -> M S B) : M S B :=
  fun s => match m s with
           | Done (a, s') => k a s'
           | Fault f => Fault f
           end.

Definition get {S} : M S S := fun s => Done (s, s).
Definition gets {S A} (f : S -> A) : M S A := fun s => Done (f s, s).
Definition modify {S} (f : S -> S) : M S unit := fun s => Done (tt, f s).
Definition fail {S A} (f : fault) : M S A := fun _ => Fault f.

Definition some_or {S A} (f : fault) (o : option A) : M S A :=
  match o with Some a => ret a | None => fail f end.

(** Run a read-only method that may fault. *)
Definition lift {S A} (o : outcome A) : M S A :=
  fun s => match o with Done a => Done (a, s) | Fault f => Fault f end.

(** Run a computation on a component [T] of the state [S]: a method call on a member object. *)
Definition zoom {S T A} (prj : S -> T) (upd : T -> S -> S) (m : M T A) : M S A :=
  fun s => match m (prj s) with
           | Done (a, t) => Done (a, upd t s)
           | Fault f => Fault f
           end.

Lemma bind_get {S B} (k : S -> M S B) s : bind get k s = k s s.
Proof. reflexivity. Qed.

Lemma bind_modify {S B} (f : S -> S) (k : unit -> M S B) s : bind (modify f) k s = k tt (f s).
Proof. reflexivity. Qed.

(** The result of the first part of a computed run. *)
Lemma bind_run {S A B} (m : M S A) (k : A -> M S B) a s s' : m s = Done (a, s') -> bind m k s = k a s'.
Proof. unfold bind. by intros ->. Qed.

Declare Scope cpp_scope.
Delimit Scope cpp_scope with cpp.
Notation "x <- m ;; k" := (bind m (fun x => k))
  (at level 100, m at next level, right associativity, only parsing) : cpp_scope.
Notation "m ;; k" := (bind m (fun _ => k))
  (at level 100, k at level 200, right associativity, only parsing) : cpp_scope.
#[global] Open Scope cpp_scope.

(** * A weakest precondition for the monad *)

(** [wp F m Q s]: run from [s], [m] ends in a value and a state that satisfy [Q], or in a fault
    that [F] allows. With [F := no_fault] it states total correctness, with [any_fault] the partial
    correctness of code that calls what may have any fault. *)
Definition wp {S A} (F : fault -> Prop) (m : M S A) (Q : A -> S -> Prop) (s : S) : Prop :=
  match m s with
  | Done (a, s') => Q a s'
  | Fault f => F f
  end.

Definition no_fault (_ : fault) : Prop := False.
Definition any_fault (_ : fault) : Prop := True.

Section WpRules.
Context {S : Type}.
Implicit Types (F : fault -> Prop) (s : S).

Lemma wp_bind {A B} F (m : M S A) (k : A -> M S B) Q s :
  wp F (bind m k) Q s = wp F m (fun a s' => wp F (k a) Q s') s.
Proof. unfold wp, bind. by destruct (m s) as [[a s']|f]. Qed.

Lemma wp_ret {A} F (a : A) Q s : wp F (ret a) Q s = Q a s.
Proof. reflexivity. Qed.

Lemma wp_get F Q s : wp F get Q s = Q s s.
Proof. reflexivity. Qed.

Lemma wp_gets {A} F (f : S -> A) Q s : wp F (gets f) Q s = Q (f s) s.
Proof. reflexivity. Qed.

Lemma wp_modify F (f : S -> S) Q s : wp F (modify f) Q s = Q tt (f s).
Proof. reflexivity. Qed.

Lemma wp_fail {A} F f (Q : A -> S -> Prop) s : wp F (fail f) Q s = F f.
Proof. reflexivity. Qed.

Lemma wp_some_or {A} F f (o : option A) Q s :
  wp F (some_or f o) Q s = match o with Some a => Q a s | None => F f end.
Proof. by destruct o. Qed.

Lemma wp_lift {A} F (o : outcome A) Q s :
  wp F (lift o) Q s = match o with Done a => Q a s | Fault f => F f end.
Proof. by destruct o. Qed.

Lemma wp_zoom {T A} F (prj : S -> T) upd (m : M T A) Q s :
  wp F (zoom prj upd m) Q s = wp F m (fun a t => Q a (upd t s)) (prj s).
Proof. unfold wp, zoom. by destruct (m (prj s)) as [[a t]|f]. Qed.

Lemma wp_if {A} F (b : bool) (m1 m2 : M S A) Q s :
  wp F (if b then m1 else m2) Q s = if b then wp F m1 Q s else wp F m2 Q s.
Proof. by destruct b. Qed.

Lemma wp_mono {A} F F' (m : M S A) (Q Q' : A -> S -> Prop) s :
  wp F m Q s -> (forall f, F f -> F' f) -> (forall a s', Q a s' -> Q' a s') -> wp F' m Q' s.
Proof. unfold wp. destruct (m s) as [[a s']|f]; auto. Qed.

(** A computed run is a postcondition, and total correctness gives back the run. *)
Lemma wp_done {A} F (m : M S A) Q s a s' : m s = Done (a, s') -> wp F m Q s = Q a s'.
Proof. unfold wp. by intros ->. Qed.

Lemma wp_run {A} (m : M S A) a s s' :
  wp no_fault m (fun x t => x = a /\ t = s') s -> m s = Done (a, s').
Proof. unfold wp. destruct (m s) as [[x t]|f]; [by intros [-> ->]|done]. Qed.

Lemma wp_elim {A} (m : M S A) Q s :
  wp no_fault m Q s -> exists a s', m s = Done (a, s') /\ Q a s'.
Proof. unfold wp. destruct (m s) as [[x t]|f]; [eauto|done]. Qed.
End WpRules.

Create HintDb cpp.
Create Rewrite HintDb wp.
#[export] Hint Rewrite @wp_bind @wp_ret @wp_get @wp_gets @wp_modify @wp_fail @wp_some_or @wp_lift @wp_zoom
  @wp_if : wp.

(** Reduce the [wp] of a composed computation to the [wp]s of its primitive calls. *)
Ltac wp_simpl := repeat (autorewrite with wp; cbn [fst snd]).

(** Case analysis on the scrutinee of the first conditional or match of the goal. *)
Ltac case_goal :=
  match goal with
  | |- context [if ?b then _ else _] => let E := fresh "E" in destruct b eqn:E
  | |- context [match ?x with _ => _ end] => let E := fresh "E" in destruct x eqn:E
  end.

(** * Lemmas on machine integers *)

Section Integers.
Implicit Types (w x y : Z).

Lemma pow2_pos w : 0 <= w -> 0 < 2 ^ w.
Proof. intros; apply Z.pow_pos_nonneg; lia. Qed.

Lemma wrap_range w x : 0 <= w -> in_u w (wrap w x).
Proof. intros. apply Z.mod_pos_bound. by apply pow2_pos. Qed.

Lemma wrap_small w x : in_u w x -> wrap w x = x.
Proof. intros. by apply Z.mod_small. Qed.

Lemma wrap_idemp w x : 0 <= w -> wrap w (wrap w x) = wrap w x.
Proof. intros. apply wrap_small. by apply wrap_range. Qed.
Lemma wrap_add_l w x y : 0 <= w -> wrap w (wrap w x + y) = wrap w (x + y).
Proof. intros. unfold wrap. apply Z.add_mod_idemp_l, Z.pow_nonzero; lia. Qed.

Lemma wrap_add_r w x y : 0 <= w -> wrap w (x + wrap w y) = wrap w (x + y).
Proof. intros. unfold wrap. apply Z.add_mod_idemp_r, Z.pow_nonzero; lia. Qed.

Lemma wrap_sub_l w x y : 0 <= w -> wrap w (wrap w x - y) = wrap w (x - y).
Proof. intros. unfold wrap. apply Zminus_mod_idemp_l. Qed.

Lemma wrap_sub_r w x y : 0 <= w -> wrap w (x - wrap w y) = wrap w (x - y).
Proof. intros. unfold wrap. apply Zminus_mod_idemp_r. Qed.

Lemma wrap_mul_l w x y : 0 <= w -> wrap w (wrap w x * y) = wrap w (x * y).
Proof. intros. unfold wrap. apply Z.mul_mod_idemp_l, Z.pow_nonzero; lia. Qed.

Lemma wrap_mul_r w x y : 0 <= w -> wrap w (x * wrap w y) = wrap w (x * y).
Proof. intros. unfold wrap. apply Z.mul_mod_idemp_r, Z.pow_nonzero; lia. Qed.

(** Truncation to a narrower type forgets an earlier truncation to a wider one. *)
Lemma wrap_narrow w w' x : 0 <= w <= w' -> wrap w (wrap w' x) = wrap w x.
Proof.
  intros. unfold wrap. apply Z.mod_mod_divide.
  exists (2 ^ (w' - w)). rewrite <- Z.pow_add_r by lia. f_equal; lia.
Qed.

Lemma sgn_range w x : 0 < w -> - 2 ^ (w - 1) <= sgn w x < 2 ^ (w - 1).
Proof.
  intros. unfold sgn. pose proof (wrap_range w x ltac:(lia)) as [? ?].
  assert (2 ^ w = 2 * 2 ^ (w - 1)) as E by (rewrite <- Z.pow_succ_r by lia; f_equal; lia).
  destruct (Z.ltb_spec (wrap w x) (2 ^ (w - 1))); lia.
Qed.

(** A signed value survives the trip through the unsigned type of its width. *)
Lemma sgn_wrap w x : 0 < w -> - 2 ^ (w - 1) <= x < 2 ^ (w - 1) -> sgn w (wrap w x) = x.
Proof.
  intros Hw Hx. unfold sgn. rewrite wrap_idemp by lia.
  assert (2 ^ w = 2 * 2 ^ (w - 1)) as E by (rewrite <- Z.pow_succ_r by lia; f_equal; lia).
  destruct (Z.neg_nonneg_cases x).
  - replace (wrap w x) with (x + 2 ^ w).
    + destruct (Z.ltb_spec (x + 2 ^ w) (2 ^ (w - 1))); lia.
    + unfold wrap. replace (x mod 2 ^ w) with ((x + 1 * 2 ^ w) mod 2 ^ w).
      * rewrite Z.mod_small; lia.
      * apply Z.mod_add, Z.pow_nonzero; lia.
  - rewrite wrap_small by (unfold in_u; lia).
    destruct (Z.ltb_spec x (2 ^ (w - 1))); lia.
Qed.

Lemma sgn_small w x : 0 < w -> 0 <= x < 2 ^ (w - 1) -> sgn w x = x.
Proof.
  intros Hw Hx. rewrite <- (sgn_wrap w x) at 2 by (pose proof (pow2_pos (w - 1)); lia).
  unfold sgn. by rewrite wrap_idemp by lia.
Qed.

Lemma wrap_sgn w x : 0 < w -> wrap w (sgn w x) = wrap w x.
Proof.
  intros Hw. unfold sgn. destruct (Z.ltb_spec (wrap w x) (2 ^ (w - 1))).
  - apply wrap_idemp; lia.
  - unfold wrap at 1. replace (wrap w x - 2 ^ w) with (wrap w x + (-1) * 2 ^ w) by lia.
    rewrite Z.mod_add by (apply Z.pow_nonzero; lia). apply wrap_idemp; lia.
Qed.

Lemma in_u_mono w w' x : 0 <= w <= w' -> in_u w x -> in_u w' x.
Proof. unfold in_u. intros ? [? ?]. pose proof (Z.pow_le_mono_r 2 w w'). lia. Qed.

(** Bitwise operations stay within an unsigned type. *)
Lemma in_u_bits w x : 0 <= w -> in_u w x <-> 0 <= x /\ Z.shiftr x w = 0.
Proof.
  intros Hw. unfold in_u. rewrite Z.shiftr_div_pow2 by lia. pose proof (pow2_pos w Hw) as Hp.
  split; [intros [? ?]; split; [done|]; apply Z.div_small; lia|].
  intros [? Hd]. split; [done|]. apply Z.div_small_iff in Hd; lia.
Qed.

Lemma in_u_land w x y : 0 <= w -> in_u w x -> in_u w y -> in_u w (Z.land x y).
Proof.
  intros Hw. rewrite !in_u_bits by done. intros [? Hx] [? Hy].
  split; [by apply Z.land_nonneg; left|]. by rewrite Z.shiftr_land, Hx, Hy.
Qed.

Lemma in_u_lor w x y : 0 <= w -> in_u w x -> in_u w y -> in_u w (Z.lor x y).
Proof.
  intros Hw. rewrite !in_u_bits by done. intros [? Hx] [? Hy].
  split; [by apply Z.lor_nonneg|]. by rewrite Z.shiftr_lor, Hx, Hy.
Qed.

Lemma in_u_lxor w x y : 0 <= w -> in_u w x -> in_u w y -> in_u w (Z.lxor x y).
Proof.
  intros Hw. rewrite !in_u_bits by done. intros [? Hx] [? Hy].
  split; [by apply Z.lxor_nonneg; split|]. by rewrite Z.shiftr_lxor, Hx, Hy.
Qed.

(** Assembling a number from its high and its low bits. *)
Lemma lor_shiftl_add x y n : 0 <= n -> in_u n y -> Z.lor (Z.shiftl x n) y = x * 2 ^ n + y.
Proof.
  intros Hn Hy. assert (Z.land (Z.shiftl x n) y = 0) as Hdis.
  { apply Z.bits_inj'. intros k Hk. rewrite Z.land_spec, Z.bits_0.
    destruct (Z.ltb_spec k n); [by rewrite Z.shiftl_spec_low by lia|].
    by rewrite <- (Z.mod_small y (2 ^ n)), Z.mod_pow2_bits_high, andb_false_r by (exact Hy || lia). }
  rewrite <- (Z.lxor_lor _ _ Hdis), <- Z.add_nocarry_lxor by exact Hdis. by rewrite Z.shiftl_mul_pow2.
Qed.

Lemma bits_pos A : 0 < bits A.
Proof. destruct A; simpl; lia. Qed.

Lemma bits_le_64 A : bits A <= 64.
Proof. destruct A; simpl; lia. Qed.

Lemma addr_range A x : in_u (bits A) (addr A x).
Proof. apply wrap_range. pose proof (bits_pos A); lia. Qed.

Lemma addr_small A x : in_u (bits A) x -> addr A x = x.
Proof. apply wrap_small. Qed.

Lemma addr_u64 A x : addr A (u64 x) = addr A x.
Proof. apply wrap_narrow. pose proof (bits_pos A). pose proof (bits_le_64 A). lia. Qed.
End Integers.

(** * Lemmas on sorted lists *)

Lemma strongly_sorted_lookup {A} (R : A -> A -> Prop) l (i j : nat) x y :
  StronglySorted R l -> l !! i = Some x -> l !! j = Some y -> (i < j)%nat -> R x y.
Proof.
  intros Hs. revert i j. induction Hs as [|z l _ IH Hz]; intros i j Hi Hj Hlt; [done|].
  destruct j as [|j]; [lia|]. destruct i as [|i]; cbn in Hi, Hj; [|apply (IH i j); (done || lia)].
  injection Hi as <-. by eapply (proj1 (Forall_forall _ _) Hz), list_elem_of_lookup_2.
Qed.

(** * Lemmas on bytes *)

Section Bytes.
Implicit Types (b : byte) (bs : list byte).

Lemma byte_val_range b : 0 <= byte_val b < 256.
Proof. unfold byte_val. pose proof (Byte.to_N_bounded b). lia. Qed.

(** A decidable property of all byte values, by enumeration. *)
Lemma byte_values (P : Z -> bool) :
  forallb (fun n => P (Z.of_nat n)) (seq 0 256) = true -> forall x, 0 <= x < 256 -> P x = true.
Proof.
  intros Hall x Hx. rewrite forallb_forall in Hall. specialize (Hall (Z.to_nat x)).
  rewrite Z2Nat.id in Hall by lia. apply Hall, in_seq. lia.
Qed.

Lemma byte_of_val b : byte_of (byte_val b) = b.
Proof. unfold byte_of. rewrite Z.mod_small by apply byte_val_range.
  unfold byte_val. rewrite N2Z.id. by rewrite Byte.of_to_N. Qed.

Lemma byte_val_of z : byte_val (byte_of z) = z mod 256.
Proof.
  unfold byte_of, byte_val. pose proof (Z.mod_pos_bound z 256 ltac:(lia)) as Hz.
  destruct (Byte.of_N (Z.to_N (z mod 256))) as [b|] eqn:E.
  - apply Byte.to_of_N in E. rewrite E. lia.
  - apply Byte.of_N_None_iff in E. lia.
Qed.

Lemma le_val_range bs : 0 <= le_val bs < 2 ^ (8 * Z.of_nat (length bs)).
Proof.
  induction bs as [|b bs IH]; simpl length; [simpl; lia|].
  cbn [le_val]. pose proof (byte_val_range b).
  replace (8 * Z.of_nat (Datatypes.S (length bs))) with (8 + 8 * Z.of_nat (length bs)) by lia.
  rewrite Z.pow_add_r by lia. change (2 ^ 8) with 256. lia.
Qed.

Lemma le_bytes_length n z : length (le_bytes n z) = n.
Proof. revert z; induction n; intros; simpl; auto. Qed.

Lemma le_val_bytes n z : le_val (le_bytes n z) = z mod 2 ^ (8 * Z.of_nat n).
Proof.
  revert z; induction n as [|n IH]; intros z; [simpl; by rewrite Z.mod_1_r|].
  cbn [le_bytes le_val]. rewrite IH, byte_val_of.
  replace (8 * Z.of_nat (Datatypes.S n)) with (8 + 8 * Z.of_nat n) by lia.
  rewrite Z.pow_add_r by lia. change (2 ^ 8) with 256.
  rewrite Z.rem_mul_r; [done|lia|]. apply pow2_pos; lia.
Qed.
End Bytes.

#[export] Hint Resolve wrap_range addr_range byte_val_range in_u_land in_u_lor in_u_lxor bits_pos
  bits_le_64 : cpp.
