(* ===== verification/StdMap.v ===== *)
(** [std::map<uint64_t, V>]: an ordered map as a list of entries with strictly increasing keys.

    The DWARF sections ([fdes_], [loc_regs_]) and [MemoryRanges] ([maps_]) search such a map with
    [upper_bound]; [operator[]=] overwrites an entry and [emplace] keeps an existing one. *)
From Stdlib Require Import ZArith Lia Bool.
From stdpp Require Import base numbers list.
From S2P Require Import Prelude.
#[local] Open Scope Z_scope.

Section StdMap.
Context {V : Type}.
Implicit Types (m : list (Z * V)) (k : Z) (v : V).

(** [m[k] = v]. *)
Fixpoint map_set (k : Z) (v : V) (m : list (Z * V)) : list (Z * V) :=
  match m with
  | [] => [(k, v)]
  | (k', v') :: t =>
      if k <? k' then (k, v) :: m
      else if k =? k' then (k, v) :: t
      else (k', v') :: map_set k v t
  end.

Fixpoint map_find (k : Z) (m : list (Z * V)) : option V :=
  match m with
  | [] => None
  | (k', v') :: t => if k =? k' then Some v' else map_find k t
  end.

(** [m.emplace(k, v)]: no effect when [k] is present. *)
Definition map_emplace (k : Z) (v : V) (m : list (Z * V)) : list (Z * V) :=
  match map_find k m with Some _ => m | None => map_set k v m end.

(** The entries from [m.upper_bound(k)] on: the iterator and everything after it. *)
Fixpoint upper_bound (k : Z) (m : list (Z * V)) : list (Z * V) :=
  match m with
  | [] => []
  | (k', _) :: t => if k <? k' then m else upper_bound k t
  end.

(** The keys increase strictly, and all of them are greater than [lo]. *)
Fixpoint sorted_from (lo : Z) (m : list (Z * V)) : Prop :=
  match m with
  | [] => True
  | (k, _) :: t => lo < k /\ sorted_from k t
  end.

Lemma sorted_from_le lo lo' m : lo' <= lo -> sorted_from lo m -> sorted_from lo' m.
Proof. destruct m as [|[k v] m]; simpl; [done|]. intros ? [? ?]. split; [lia|done]. Qed.

Lemma map_find_below lo k m : sorted_from lo m -> k <= lo -> map_find k m = None.
Proof.
  revert lo. induction m as [|[k' v'] m IH]; simpl; [done|]. intros lo [? Hs] ?.
  destruct (Z.eqb_spec k k'); [lia|]. apply (IH k'); [done|lia].
Qed.

Lemma sorted_from_set lo k v m : lo < k -> sorted_from lo m -> sorted_from lo (map_set k v m).
Proof.
  revert lo. induction m as [|[k' v'] m IH]; simpl; [done|]. intros lo ? [? Hs].
  destruct (Z.ltb_spec k k'); [simpl; auto with lia|].
  destruct (Z.eqb_spec k k'); [subst; simpl; auto|]. simpl. split; [lia|]. apply IH; [lia|done].
Qed.

Lemma sorted_from_set_any lo k v m : sorted_from lo m -> exists lo', sorted_from lo' (map_set k v m).
Proof.
  intros Hs. exists (Z.min lo (k - 1)). apply sorted_from_set; [lia|]. by apply (sorted_from_le lo); [lia|].
Qed.

Lemma map_find_set lo k k' v m :
  sorted_from lo m -> map_find k' (map_set k v m) = if k' =? k then Some v else map_find k' m.
Proof.
  revert lo. induction m as [|[k1 v1] m IH]; simpl; [done|]. intros lo [? Hs].
  destruct (Z.ltb_spec k k1); [done|].
  destruct (Z.eqb_spec k k1) as [->|]; simpl; [by destruct (k' =? k1)|].
  destruct (Z.eqb_spec k' k1) as [->|]; [destruct (Z.eqb_spec k1 k); [lia|done]|].
  by apply (IH k1).
Qed.

Lemma sorted_from_emplace lo k v m :
  lo < k -> sorted_from lo m -> sorted_from lo (map_emplace k v m).
Proof. unfold map_emplace. destruct (map_find k m); [done|]. apply sorted_from_set. Qed.

(** [upper_bound] returns the entry with the smallest key above [k]. *)
Lemma upper_bound_spec lo k m :
  sorted_from lo m ->
  match upper_bound k m with
  | [] => forall k' v', map_find k' m = Some v' -> k' <= k
  | (k1, v1) :: _ => k < k1 /\ map_find k1 m = Some v1 /\
                     forall k' v', map_find k' m = Some v' -> k < k' -> k1 <= k'
  end.
Proof.
  revert lo. induction m as [|[k1 v1] m IH]; simpl; [done|]. intros lo [? Hs].
  destruct (Z.ltb_spec k k1).
  - rewrite Z.eqb_refl. split_and!; [done|done|]. intros k' v' Hf ?.
    destruct (Z.eqb_spec k' k1); [lia|]. destruct (decide (k' <= k1)); [|lia].
    rewrite (map_find_below k1) in Hf by (done || lia). done.
  - specialize (IH _ Hs). destruct (upper_bound k m) as [|[k2 v2] rest].
    + intros k' v'. destruct (Z.eqb_spec k' k1); [lia|]. eauto.
    + destruct IH as (? & ? & Hmin). destruct (Z.eqb_spec k2 k1); [lia|].
      split_and!; [done|done|]. intros k' v'. destruct (Z.eqb_spec k' k1); [lia|]. eauto.
Qed.

Lemma map_find_In lo k v m : sorted_from lo m -> (k, v) ∈ m <-> map_find k m = Some v.
Proof.
  revert lo. induction m as [|[k' v'] m IH]; simpl.
  { intros ? _. split; [by intros ?%not_elem_of_nil|done]. }
  intros lo [? Hs]. rewrite elem_of_cons, (IH k') by done.
  destruct (Z.eqb_spec k k') as [->|].
  - rewrite (map_find_below k') by (done || lia). split; [intros [[=]|]; congruence|].
    intros [= ->]. by left.
  - split; [intros [[=]|]; congruence|by right].
Qed.
End StdMap.

#[export] Hint Resolve sorted_from_set sorted_from_emplace : cpp.
