(* ===== verification/Memory.v ===== *)
(** [Memory.cpp] and [Memory.h]: the memory objects an unwind reads from.

    [Memory] is the interface class: a pure read function, [Read addr size], returning the bytes
    that were read (at most [size] of them). [ByteMemory m bm] is the contract the other components
    rely on: [m] returns the longest readable prefix of a byte map [bm]. The concrete classes
    follow ([MemoryBuffer], [MemoryFileAtOffset], [MemoryRange], [MemoryRanges], [MemoryOffline],
    [MemoryOfflineBuffer], [MemoryOfflineParts], [MemoryCache]), then the theorems that they keep
    the contract. *)
From Stdlib Require Import ZArith Lia Bool Strings.Byte.
From stdpp Require Import base numbers list gmap.
From S2P Require Import Prelude StdMap.
#[local] Open Scope Z_scope.

(** * The interface *)

Record Memory := mkMemory { Read : Z -> Z -> list byte }.

(** [size_t] length of a byte sequence. *)
Definition len (bs : list byte) : Z := Z.of_nat (length bs).

Lemma len_nonneg (bs : list byte) : 0 <= len bs.
Proof. unfold len. lia. Qed.

Lemma len_app (bs cs : list byte) : len (bs ++ cs) = len bs + len cs.
Proof. unfold len. rewrite length_app. lia. Qed.

(** [data + off], [n] bytes of it. *)
Definition slice (off n : Z) (bs : list byte) : list byte :=
  take (Z.to_nat n) (drop (Z.to_nat off) bs).

Definition ReadFully (m : Memory) (addr size : Z) : option (list byte) :=
  let bs := Read m addr size in if len bs =? size then Some bs else None.

Definition Read32 (m : Memory) (addr : Z) : option Z := le_val <$> ReadFully m addr 4.
Definition Read64 (m : Memory) (addr : Z) : option Z := le_val <$> ReadFully m addr 8.

(** The loop of [Memory::ReadString]: the string so far, the address and the count of bytes. *)
Fixpoint ReadString_loop (fuel : nat) (m : Memory) (addr : Z) (str : list byte)
    (bytes_read max_read : Z) : outcome (bool * list byte) :=
  match fuel with
  | O => Fault OutOfFuel
  | S fuel' =>
      if bytes_read <? max_read then
        match ReadFully m addr 1 with
        | None => Done (false, str)
        | Some bs =>
            if le_val bs =? 0 then Done (true, str)
            else ReadString_loop fuel' m (u64 (addr + 1)) (str ++ bs) (u64 (bytes_read + 1)) max_read
        end
      else Done (false, str)
  end.

(** [max_read] iterations and the final test of the loop condition are enough. *)
Definition ReadString (m : Memory) (addr max_read : Z) : outcome (bool * list byte) :=
  ReadString_loop (S (Z.to_nat max_read)) m addr [] 0 max_read.

(** * [MemoryBuffer] *)

Module MemoryBuffer.

Record t := mk { raw_ : list byte }.

Definition read (b : t) (addr size : Z) : list byte :=
  if len (raw_ b) <=? addr then []
  else
    let bytes_left := len (raw_ b) - addr in
    let actual_len := Z.min bytes_left size in
    slice addr actual_len (raw_ b).

(** The bytes from [&raw_[offset]] on, when the offset is valid. *)
Definition GetPtr (b : t) (offset : Z) : option (list byte) :=
  if offset <? len (raw_ b) then Some (drop (Z.to_nat offset) (raw_ b)) else None.

Definition Resize (b : t) (size : Z) : t :=
  mk (take (Z.to_nat size) (raw_ b ++ replicate (Z.to_nat (size - len (raw_ b))) x00)).

Definition Size (b : t) : Z := len (raw_ b).

Definition memory (b : t) : Memory := mkMemory (read b).

End MemoryBuffer.

(** * [MemoryFileAtOffset] *)

Module MemoryFileAtOffset.

(** [data_] holds the mapping from [data_] on, [offset_] the distance from the mapping's start. *)
Record t := mk { size_ : Z; offset_ : Z; data_ : option (list byte) }.

Definition init_state : t := mk 0 0 None.

Definition Clear (f : t) : t :=
  match data_ f with
  | Some _ => mk (size_ f) (offset_ f) None
  | None => f
  end.

Section Init.
(** The operating system: the page size, the file's contents ([None]: [open] or [fstat] failed),
    and whether [mmap] succeeds. *)
Variables (pagesize : Z) (contents : option (list byte)) (mmap_ok : bool).

Definition Init (f : t) (offset size : Z) : bool * t :=
  let f := Clear f in
  match contents with
  | None => (false, f)
  | Some file =>
      let st_size := len file in
      if st_size <=? offset then (false, f)
      else
        let offset' := Z.land offset (pagesize - 1) in
        let aligned_offset := Z.land offset (u64 (Z.lnot (pagesize - 1))) in
        let f := mk (size_ f) offset' (data_ f) in
        if (st_size <? aligned_offset) || (st_size <? offset) then (false, f)
        else
          let size0 := st_size - aligned_offset in
          let max_size := size + offset' in
          let size1 := if (max_size <? 2 ^ 64) && (max_size <? size0) then max_size else size0 in
          if mmap_ok then
            let map := slice aligned_offset size1 file in
            (true, mk (size1 - offset') offset' (Some (drop (Z.to_nat offset') map)))
          else (false, mk size1 offset' None)
  end.
End Init.

(** A read below [size_] through a null [data_] has no defined behaviour. *)
Definition read (f : t) (addr size : Z) : outcome (list byte) :=
  if size_ f <=? addr then Done []
  else
    let bytes_left := size_ f - addr in
    let actual_len := Z.min bytes_left size in
    match data_ f with
    | Some data => Done (slice addr actual_len data)
    | None => Fault (Undef UbNull)
    end.

Definition Size (f : t) : Z := size_ f.

Definition memory (f : t) : Memory :=
  mkMemory (fun a n => match read f a n with Done bs => bs | Fault _ => [] end).

End MemoryFileAtOffset.

(** * [MemoryRange] and [MemoryRanges] *)

Module MemoryRange.

Record t := mk { memory_ : Memory; begin_ : Z; length_ : Z; offset_ : Z }.

Definition read (r : t) (addr size : Z) : list byte :=
  if addr <? offset_ r then []
  else
    let read_offset := addr - offset_ r in
    if length_ r <=? read_offset then []
    else
      let read_length := Z.min size (length_ r - read_offset) in
      let read_addr := read_offset + begin_ r in
      if 2 ^ 64 <=? read_addr then [] else Read (memory_ r) read_addr read_length.

Definition memory (r : t) : Memory := mkMemory (read r).

End MemoryRange.

Module MemoryRanges.

Record t := mk { maps_ : list (Z * MemoryRange.t) }.

Definition empty : t := mk [].

Definition Insert (rs : t) (r : MemoryRange.t) : t :=
  mk (map_emplace (u64 (MemoryRange.offset_ r + MemoryRange.length_ r)) r (maps_ rs)).

Definition read (rs : t) (addr size : Z) : list byte :=
  match upper_bound addr (maps_ rs) with
  | (_, r) :: _ => MemoryRange.read r addr size
  | [] => []
  end.

Definition memory (rs : t) : Memory := mkMemory (read rs).

End MemoryRanges.

(** * [MemoryOffline], [MemoryOfflineBuffer] and [MemoryOfflineParts] *)

Module MemoryOffline.

Record t := mk { memory_ : option MemoryRange.t }.

Definition Init (pagesize : Z) (contents : option (list byte)) (mmap_ok : bool) (offset : Z)
    (m : t) : bool * t :=
  let '(ok, file) := MemoryFileAtOffset.Init pagesize contents mmap_ok
                       MemoryFileAtOffset.init_state offset UINT64_MAX in
  if ok then
    match ReadFully (MemoryFileAtOffset.memory file) 0 8 with
    | None => (false, m)
    | Some bs =>
        let start := le_val bs in
        let size := MemoryFileAtOffset.Size file in
        if size <? 8 then (false, m)
        else (true, mk (Some (MemoryRange.mk (MemoryFileAtOffset.memory file) 8 (size - 8) start)))
    end
  else (false, m).

Definition read (m : t) (addr size : Z) : list byte :=
  match memory_ m with
  | None => []
  | Some r => MemoryRange.read r addr size
  end.

End MemoryOffline.

Module MemoryOfflineBuffer.

Record t := mk { data_ : list byte; start_ : Z; end_ : Z }.

Definition Reset (_ : t) (data : list byte) (start fin : Z) : t := mk data start fin.

Definition read (b : t) (addr size : Z) : list byte :=
  if (addr <? start_ b) || (end_ b <=? addr) then []
  else
    let read_length := Z.min size (end_ b - addr) in
    slice (addr - start_ b) read_length (data_ b).

Definition memory (b : t) : Memory := mkMemory (read b).

End MemoryOfflineBuffer.

Module MemoryOfflineParts.

Record t := mk { memories_ : list MemoryOffline.t }.

Definition Add (p : t) (m : MemoryOffline.t) : t := mk (memories_ p ++ [m]).

Fixpoint read_parts (ms : list MemoryOffline.t) (addr size : Z) : list byte :=
  match ms with
  | [] => []
  | m :: rest =>
      let bs := MemoryOffline.read m addr size in
      if negb (len bs =? 0) then bs else read_parts rest addr size
  end.

Definition read (p : t) (addr size : Z) : list byte := read_parts (memories_ p) addr size.

End MemoryOfflineParts.

(** * [MemoryCache] *)

Module MemoryCache.

Definition kCacheBits : Z := 12.
Definition kCacheMask : Z := 4095.
Definition kCacheSize : Z := 4096.

(** The map from page numbers to page contents. *)
Record t := mk { impl_ : Memory; cache_ : gmap Z (list byte) }.

Definition Clear (c : t) : t := mk (impl_ c) ∅.

(** [cache_.find(page)], or the attempt to fill a new entry, erased again when the page cannot be
    read fully. *)
Definition lookup_page (c : t) (page : Z) : option (list byte) * t :=
  match cache_ c !! page with
  | Some bs => (Some bs, c)
  | None =>
      match ReadFully (impl_ c) (u64 (Z.shiftl page kCacheBits)) kCacheSize with
      | Some bs => (Some bs, mk (impl_ c) (<[page := bs]> (cache_ c)))
      | None => (None, c)
      end
  end.

Definition read (c : t) (addr size : Z) : list byte * t :=
  if 64 <? size then (Read (impl_ c) addr size, c)
  else
    let addr_page := Z.shiftr addr kCacheBits in
    match lookup_page c addr_page with
    | (None, c) => (Read (impl_ c) addr size, c)
    | (Some cache_dst, c) =>
        let max_read := u64 (u64 (Z.shiftl (addr_page + 1) kCacheBits) - addr) in
        if size <=? max_read then (slice (Z.land addr kCacheMask) size cache_dst, c)
        else
          let dst := slice (Z.land addr kCacheMask) max_read cache_dst in
          let addr_page := u64 (addr_page + 1) in
          match lookup_page c addr_page with
          | (None, c) =>
              (dst ++ Read (impl_ c) (u64 (Z.shiftl addr_page kCacheBits)) (size - max_read), c)
          | (Some cache_dst, c) => (dst ++ slice 0 (size - max_read) cache_dst, c)
          end
    end.

End MemoryCache.

(** * The contract of a memory *)

(** The longest readable prefix, at most [n] bytes, of the byte map [bm] from [a] on. *)
Fixpoint read_bytes (bm : Z -> option byte) (a : Z) (n : nat) : list byte :=
  match n with
  | O => []
  | S n' => match bm a with
            | Some b => b :: read_bytes bm (a + 1) n'
            | None => []
            end
  end.

(** [m] is the memory whose readable bytes are those of [bm]. *)
Class ByteMemory (m : Memory) (bm : Z -> option byte) : Prop := {
  bm_range : forall a b, bm a = Some b -> in_u 64 a;
  bm_read : forall a n, in_u 64 a -> 0 <= n -> Read m a n = read_bytes bm a (Z.to_nat n)
}.

(** [bm] holds the bytes [bs] from address [a] on. *)
Definition holds (bm : Z -> option byte) (a : Z) (bs : list byte) : Prop :=
  read_bytes bm a (length bs) = bs.

(** The byte maps of the concrete memories. *)
Definition buffer_bytes (raw : list byte) (a : Z) : option byte :=
  if 0 <=? a then raw !! Z.to_nat a else None.

Definition range_bytes (bm : Z -> option byte) (begin length offset a : Z) : option byte :=
  if (offset <=? a) && (a - offset <? length) then bm (a - offset + begin) else None.

Section ReadBytes.
Context (bm : Z -> option byte).

Lemma read_bytes_length a n : (length (read_bytes bm a n) <= n)%nat.
Proof. revert a; induction n; intros; simpl; [lia|]. destruct (bm a); simpl; [|lia]. specialize (IHn (a + 1)). lia. Qed.

Lemma read_bytes_app a n k :
  length (read_bytes bm a n) = n ->
  read_bytes bm a (n + k) = read_bytes bm a n ++ read_bytes bm (a + Z.of_nat n) k.
Proof.
  revert a; induction n as [|n IH]; intros a; simpl; [by rewrite Z.add_0_r|].
  destruct (bm a); simpl; [|done]. intros [= Hl]. rewrite IH by done. do 3 f_equal. lia.
Qed.

Lemma read_bytes_short a n k :
  (length (read_bytes bm a n) < n)%nat -> read_bytes bm a (n + k) = read_bytes bm a n.
Proof.
  revert a; induction n as [|n IH]; intros a; simpl; [lia|].
  destruct (bm a); simpl; [|done]. intros. f_equal. apply IH. lia.
Qed.

(** An unreadable byte ends the prefix. *)
Lemma read_bytes_stop a n k :
  (k <= n)%nat -> bm (a + Z.of_nat k) = None -> read_bytes bm a n = read_bytes bm a k.
Proof.
  revert a n; induction k as [|k IH]; intros a n ? Hk.
  - rewrite Z.add_0_r in Hk. destruct n; [done|]. simpl. by rewrite Hk.
  - destruct n as [|n]; [lia|]. simpl. destruct (bm a); [|done]. f_equal.
    apply IH; [lia|]. rewrite <- Hk. f_equal. lia.
Qed.

Lemma read_bytes_take a n k : (k <= n)%nat -> take k (read_bytes bm a n) = read_bytes bm a k.
Proof.
  revert a n; induction k as [|k IH]; intros a n ?; [done|].
  destruct n as [|n]; [lia|]. simpl. destruct (bm a); simpl; [|done]. f_equal. apply IH. lia.
Qed.

Lemma read_bytes_drop a n k :
  length (read_bytes bm a n) = n -> (k <= n)%nat ->
  drop k (read_bytes bm a n) = read_bytes bm (a + Z.of_nat k) (n - k).
Proof.
  intros Hl Hk. replace n with (k + (n - k))%nat in Hl |- * at 1 by lia.
  rewrite read_bytes_app.
  - apply drop_app_length'. rewrite <- (read_bytes_take _ n) by done.
    rewrite length_take. replace (k + (n - k))%nat with n in Hl by lia. lia.
  - rewrite <- (read_bytes_take _ n) by done. rewrite length_take.
    replace (k + (n - k))%nat with n in Hl by lia. lia.
Qed.

(** A slice of a full read is the read of the slice. *)
Lemma read_bytes_slice a n off k :
  length (read_bytes bm a n) = n -> (off + k <= n)%nat ->
  take k (drop off (read_bytes bm a n)) = read_bytes bm (a + Z.of_nat off) k.
Proof. intros. rewrite read_bytes_drop by (done || lia). apply read_bytes_take. lia. Qed.

Lemma read_bytes_ext (bm' : Z -> option byte) a a' n :
  (forall i, (i < n)%nat -> bm (a + Z.of_nat i) = bm' (a' + Z.of_nat i)) ->
  read_bytes bm a n = read_bytes bm' a' n.
Proof.
  revert a a'; induction n as [|n IH]; intros a a' H; [done|]. simpl.
  pose proof (H 0%nat ltac:(lia)) as H0. rewrite !Z.add_0_r in H0. rewrite H0.
  destruct (bm' a'); [|done]. f_equal. apply IH. intros i ?.
  specialize (H (S i) ltac:(lia)). rewrite !Nat2Z.inj_succ in H.
  rewrite <- !Z.add_assoc, !(Z.add_comm 1), !Z.add_1_r. done.
Qed.

Lemma holds_app a bs1 bs2 :
  holds bm a (bs1 ++ bs2) <-> holds bm a bs1 /\ holds bm (a + len bs1) bs2.
Proof.
  unfold holds, len. rewrite length_app. split.
  - intros H. assert (read_bytes bm a (length bs1) = bs1) as H1.
    { rewrite <- (read_bytes_take a (length bs1 + length bs2)) by lia.
      rewrite H. apply take_app_length. }
    split; [done|]. rewrite read_bytes_app in H by by rewrite H1. rewrite H1 in H.
    by apply app_inv_head in H.
  - intros [H1 H2]. rewrite read_bytes_app by by rewrite H1. by rewrite H1, H2.
Qed.

Lemma holds_cons a b bs : holds bm a (b :: bs) <-> bm a = Some b /\ holds bm (a + 1) bs.
Proof.
  unfold holds. simpl. destruct (bm a) as [b'|].
  - split; [by intros [= -> ->]|]. by intros [[= ->] ->].
  - split; [done|]. by intros [? ?].
Qed.

Lemma read_bytes_lookup a n i :
  (i < length (read_bytes bm a n))%nat -> read_bytes bm a n !! i = bm (a + Z.of_nat i).
Proof.
  revert a i; induction n as [|n IH]; intros a i; simpl; [lia|].
  destruct (bm a) eqn:E; simpl; [|lia]. intros. destruct i; simpl; [by rewrite Z.add_0_r|].
  rewrite IH by lia. f_equal. lia.
Qed.

(** Reading through [ReadFully]. *)
Context {m : Memory} {Hm : ByteMemory m bm}.

Lemma ReadFully_holds a bs : in_u 64 a -> holds bm a bs -> ReadFully m a (len bs) = Some bs.
Proof.
  unfold ReadFully, holds, len. intros Ha H. rewrite (bm_read (bm := bm)) by (done || lia).
  rewrite Nat2Z.id, H. by rewrite Z.eqb_refl.
Qed.

Lemma ReadFully_Some a n bs :
  in_u 64 a -> 0 <= n -> ReadFully m a n = Some bs -> holds bm a bs /\ len bs = n.
Proof.
  unfold ReadFully, holds, len. intros Ha Hn. rewrite (bm_read (bm := bm)) by (done || lia).
  destruct (Z.eqb_spec (Z.of_nat (length (read_bytes bm a (Z.to_nat n)))) n) as [E|]; [|done].
  intros [= <-]. split; [|done].
  replace (length (read_bytes bm a (Z.to_nat n))) with (Z.to_nat n) by lia. done.
Qed.

Lemma ReadFully_1 a : in_u 64 a -> ReadFully m a 1 = (fun b => [b]) <$> bm a.
Proof.
  intros Ha. unfold ReadFully. rewrite (bm_read (bm := bm)) by (done || lia). simpl.
  by destruct (bm a).
Qed.
End ReadBytes.

(** A memory never returns more bytes than asked for. *)
Lemma byte_memory_len (m : Memory) bm {Hm : ByteMemory m bm} a n :
  in_u 64 a -> 0 <= n -> len (Read m a n) <= n.
Proof.
  intros. rewrite (bm_read (bm := bm)) by done. unfold len.
  pose proof (read_bytes_length bm a (Z.to_nat n)). lia.
Qed.

(** * The concrete memories keep the contract *)

Lemma take_drop_buffer raw a n :
  0 <= a -> take n (drop (Z.to_nat a) raw) = read_bytes (buffer_bytes raw) a n.
Proof.
  revert a. induction n as [|n IH]; intros a Ha; [done|]. simpl. unfold buffer_bytes at 1.
  rewrite (proj2 (Z.leb_le 0 a)) by done. destruct (raw !! Z.to_nat a) as [x|] eqn:E.
  - rewrite (drop_S _ x) by done. simpl. f_equal. rewrite <- IH by lia. do 2 f_equal. lia.
  - apply lookup_ge_None in E. by rewrite drop_ge by lia.
Qed.

(** A buffer is the memory of its bytes. *)
#[export] Instance MemoryBuffer_bytes b :
  len (MemoryBuffer.raw_ b) <= 2 ^ 64 ->
  ByteMemory (MemoryBuffer.memory b) (buffer_bytes (MemoryBuffer.raw_ b)).
Proof.
  intros Hl. destruct b as [raw]; simpl in *. split.
  - intros a x. unfold buffer_bytes. destruct (Z.leb_spec 0 a); [|done].
    intros ?%lookup_lt_Some. unfold in_u, len in *. lia.
  - intros a n [Ha _] Hn. unfold MemoryBuffer.memory, MemoryBuffer.read, slice, len; simpl.
    destruct (Z.leb_spec (Z.of_nat (length raw)) a).
    + destruct (Z.to_nat n); [done|]. simpl. unfold buffer_bytes.
      rewrite (proj2 (Z.leb_le 0 a)) by done.
      by rewrite (proj2 (lookup_ge_None raw (Z.to_nat a))) by lia.
    + rewrite <- take_drop_buffer by lia.
      destruct (Z.min_spec (Z.of_nat (length raw) - a) n) as [[? ->]|[? ->]]; [|done].
      rewrite !take_ge by (rewrite length_drop; lia). done.
Qed.

(** A range maps its addresses onto those of the memory underneath. *)
#[export] Instance MemoryRange_bytes r bm :
  ByteMemory (MemoryRange.memory_ r) bm ->
  0 <= MemoryRange.offset_ r -> 0 <= MemoryRange.begin_ r ->
  MemoryRange.offset_ r + MemoryRange.length_ r <= 2 ^ 64 ->
  ByteMemory (MemoryRange.memory r)
    (range_bytes bm (MemoryRange.begin_ r) (MemoryRange.length_ r) (MemoryRange.offset_ r)).
Proof.
  destruct r as [m bg ln off]; simpl. intros Hm Ho Hb Hw. split.
  - intros a b. unfold range_bytes, in_u. case_match; [|done]. lia.
  - intros a n Ha Hn. unfold MemoryRange.memory, MemoryRange.read; simpl.
    destruct (Z.ltb_spec a off).
    { destruct (Z.to_nat n); [done|]. simpl. unfold range_bytes. by rewrite (proj2 (Z.leb_gt _ _)). }
    destruct (Z.leb_spec ln (a - off)).
    { destruct (Z.to_nat n); [done|]. simpl. unfold range_bytes.
      by rewrite (proj2 (Z.leb_le _ _)), (proj2 (Z.ltb_ge _ _)). }
    destruct (Z.leb_spec (2 ^ 64) (a - off + bg)).
    { destruct (Z.to_nat n); [done|]. simpl. unfold range_bytes.
      rewrite (proj2 (Z.leb_le _ _)), (proj2 (Z.ltb_lt _ _)) by done. simpl.
      destruct (bm (a - off + bg)) as [x|] eqn:E; [|done].
      apply (bm_range (ByteMemory := Hm)) in E. unfold in_u in E. lia. }
    rewrite (bm_read (bm := bm)) by (unfold in_u in *; lia).
    transitivity (read_bytes (range_bytes bm bg ln off) a (Z.to_nat (Z.min n (ln - (a - off))))).
    + apply read_bytes_ext. intros i Hi. unfold range_bytes.
      rewrite (proj2 (Z.leb_le _ _)), (proj2 (Z.ltb_lt _ _)) by lia. simpl. f_equal. lia.
    + destruct (Z.min_spec n (ln - (a - off))) as [[? ->]|[? ->]]; [done|].
      symmetry. apply read_bytes_stop; [lia|]. unfold range_bytes.
      by rewrite (proj2 (Z.ltb_ge _ ln)), andb_false_r by lia.
Qed.

(** * [MemoryCache] is transparent *)

Section Cache.
Context (bm : Z -> option byte).

(** Every cached page holds what the memory underneath holds there. *)
Definition cache_ok (c : MemoryCache.t) : Prop :=
  map_Forall (fun page bs => holds bm (page * 4096) bs /\ len bs = 4096) (MemoryCache.cache_ c).

Lemma cache_ok_clear c : cache_ok (MemoryCache.Clear c).
Proof. apply map_Forall_empty. Qed.

Lemma lookup_page_ok c page :
  ByteMemory (MemoryCache.impl_ c) bm -> cache_ok c -> 0 <= page < 2 ^ 52 ->
  let '(o, c') := MemoryCache.lookup_page c page in
  MemoryCache.impl_ c' = MemoryCache.impl_ c /\ cache_ok c' /\
  match o with
  | Some bs => bs = read_bytes bm (page * 4096) (Z.to_nat 4096) /\ length bs = Z.to_nat 4096
  | None => True
  end.
Proof.
  intros Hm Hc Hp. unfold MemoryCache.lookup_page.
  destruct (MemoryCache.cache_ c !! page) as [bs|] eqn:E.
  - destruct (Hc _ _ E) as [Hh Hl]. split_and!; [done|done| |unfold len in Hl; lia].
    unfold holds in Hh. rewrite <- Hh at 1. f_equal. unfold len in Hl. lia.
  - change (u64 (Z.shiftl page MemoryCache.kCacheBits)) with (u64 (Z.shiftl page 12)).
    rewrite Z.shiftl_mul_pow2, wrap_small by (unfold in_u; lia).
    destruct (ReadFully _ _ _) as [bs|] eqn:R; [|done].
    apply (ReadFully_Some bm) in R as [Hh Hl]; [|unfold in_u; lia|by unfold MemoryCache.kCacheSize].
    unfold MemoryCache.kCacheSize in Hl. change (2 ^ 12) with 4096 in Hh. split_and!.
    + done.
    + apply map_Forall_insert_2; [split; assumption|exact Hc].
    + unfold holds in Hh. rewrite <- Hh at 1. f_equal. unfold len in Hl. lia.
    + unfold len in Hl. lia.
Qed.

(** A slice within one page. *)
Lemma page_slice page off n :
  length (read_bytes bm (page * 4096) (Z.to_nat 4096)) = Z.to_nat 4096 -> 0 <= off -> 0 <= n -> off + n <= 4096 ->
  slice off n (read_bytes bm (page * 4096) (Z.to_nat 4096))
  = read_bytes bm (page * 4096 + off) (Z.to_nat n).
Proof. intros. unfold slice. rewrite read_bytes_slice by lia. f_equal. lia. Qed.

Lemma page_full page off n :
  length (read_bytes bm (page * 4096) (Z.to_nat 4096)) = Z.to_nat 4096 ->
  0 <= off -> 0 <= n -> off + n <= 4096 ->
  length (read_bytes bm (page * 4096 + off) (Z.to_nat n)) = Z.to_nat n.
Proof.
  intros Hl ? ? ?. rewrite <- page_slice by (done || lia). unfold slice.
  rewrite length_take, length_drop, Hl. lia.
Qed.

(** The bytes left in the page of [a], as the code computes them. *)
Lemma max_read_eq a :
  in_u 64 a ->
  u64 (u64 (Z.shiftl (a / 4096 + 1) MemoryCache.kCacheBits) - a) = 4096 - a mod 4096.
Proof.
  unfold in_u, MemoryCache.kCacheBits. intros Ha.
  rewrite Z.shiftl_mul_pow2, wrap_sub_l by lia.
  replace ((a / 4096 + 1) * 2 ^ 12 - a) with (4096 - a mod 4096) by (rewrite Z.mod_eq; lia).
  apply wrap_small. unfold in_u. pose proof (Z.mod_pos_bound a 4096). lia.
Qed.

Lemma read_transparent c a n :
  ByteMemory (MemoryCache.impl_ c) bm -> cache_ok c -> in_u 64 a -> 0 <= n -> a + n <= 2 ^ 64 ->
  let '(bs, c') := MemoryCache.read c a n in
  bs = Read (MemoryCache.impl_ c) a n /\
  cache_ok c' /\ MemoryCache.impl_ c' = MemoryCache.impl_ c.
Proof.
  intros Hm Hc Ha Hn Hw. unfold MemoryCache.read. destruct (Z.ltb_spec 64 n); [done|].
  change (Z.shiftr a MemoryCache.kCacheBits) with (Z.shiftr a 12).
  rewrite Z.shiftr_div_pow2 by lia. change (2 ^ 12) with 4096.
  pose proof (Z.div_mod a 4096 ltac:(lia)) as Hdm. pose proof (Z.mod_pos_bound a 4096 ltac:(lia)).
  set (p := a / 4096) in *. set (o := a mod 4096) in *.
  assert (0 <= p < 2 ^ 52) as Hp by (unfold in_u in Ha; lia).
  pose proof (lookup_page_ok c p Hm Hc Hp) as L1.
  destruct (MemoryCache.lookup_page c p) as [[page|] c1]; destruct L1 as (Hi1 & Hc1 & L1);
    [|by rewrite Hi1].
  destruct L1 as [-> Hl1]. unfold p. rewrite max_read_eq by done. fold p o.
  assert (Z.land a MemoryCache.kCacheMask = o) as Hmask.
  { unfold MemoryCache.kCacheMask. change 4095 with (Z.ones 12). by rewrite Z.land_ones by lia. }
  rewrite Hmask. rewrite (bm_read (bm := bm)) by done.
  destruct (Z.leb_spec n (4096 - o)).
  { rewrite page_slice by (done || lia). split_and!; [f_equal; lia|done|done]. }
  rewrite (wrap_small 64 (p + 1)) by (unfold in_u; lia).
  assert (0 <= p + 1 < 2 ^ 52) as Hp2 by lia.
  pose proof (lookup_page_ok c1 (p + 1) ltac:(by rewrite Hi1) Hc1 Hp2) as L2.
  rewrite page_slice by (done || lia).
  replace (Z.to_nat n) with (Z.to_nat (4096 - o) + Z.to_nat (n - (4096 - o)))%nat by lia.
  replace a with (p * 4096 + o) by lia.
  rewrite read_bytes_app by (apply page_full; done || lia).
  replace (p * 4096 + o + Z.of_nat (Z.to_nat (4096 - o))) with ((p + 1) * 4096) by lia.
  destruct (MemoryCache.lookup_page c1 (p + 1)) as [[page2|] c2]; destruct L2 as (Hi2 & Hc2 & L2).
  - destruct L2 as [-> Hl2]. split_and!; [|done|congruence]. f_equal.
    rewrite page_slice by (done || lia). f_equal; lia.
  - split_and!; [|done|congruence]. f_equal. rewrite Hi2, Hi1.
    change MemoryCache.kCacheBits with 12.
    rewrite Z.shiftl_mul_pow2, wrap_small by (unfold in_u; lia). change (2 ^ 12) with 4096.
    rewrite (bm_read (bm := bm)) by (unfold in_u; lia). done.
Qed.
End Cache.

(** * [MemoryRanges]: dispatch to the range that holds the address *)

Section Ranges.
Implicit Types (r : MemoryRange.t) (l : list MemoryRange.t).

Definition range_end r : Z := MemoryRange.offset_ r + MemoryRange.length_ r.

(** A nonempty range whose end is an address. *)
Definition range_wf r : Prop :=
  0 <= MemoryRange.offset_ r /\ 0 < MemoryRange.length_ r /\ range_end r < 2 ^ 64.

Definition disjoint_ranges l : Prop :=
  forall r1 r2, r1 ∈ l -> r2 ∈ l ->
  r1 = r2 \/ range_end r1 <= MemoryRange.offset_ r2 \/ range_end r2 <= MemoryRange.offset_ r1.

Lemma disjoint_pair r1 r2 : range_end r1 <= MemoryRange.offset_ r2 -> disjoint_ranges [r1; r2].
Proof. intros ? x y. rewrite !elem_of_cons, !elem_of_nil.
  intros [->|[->|[]]] [->|[->|[]]]; auto. Qed.

Definition insert_all l : MemoryRanges.t := foldr (fun r rs => MemoryRanges.Insert rs r) MemoryRanges.empty l.

Definition ranges_ok l (rs : MemoryRanges.t) : Prop :=
  sorted_from (-1) (MemoryRanges.maps_ rs) /\
  (forall k r, map_find k (MemoryRanges.maps_ rs) = Some r -> r ∈ l /\ k = range_end r) /\
  (forall r, r ∈ l -> map_find (range_end r) (MemoryRanges.maps_ rs) = Some r).

Lemma insert_all_ok l : Forall range_wf l -> disjoint_ranges l -> ranges_ok l (insert_all l).
Proof.
  induction l as [|r l IH]; intros Hwf Hd.
  { split_and!; [done|done|]. by intros ? ?%not_elem_of_nil. }
  apply Forall_cons in Hwf as [Hr Hwf].
  destruct IH as (Hs & Hin & Hfind); [done|intros r1 r2 ? ?; apply Hd; by right|].
  destruct Hr as (? & ? & ?). simpl. unfold MemoryRanges.Insert, map_emplace.
  fold (range_end r). rewrite wrap_small by (unfold in_u; unfold range_end in *; lia).
  destruct (map_find (range_end r) (MemoryRanges.maps_ (insert_all l))) as [r'|] eqn:E; simpl.
  - destruct (Hin _ _ E) as [Hr' He]. assert (r' = r) as ->.
    { destruct (Hd r' r) as [|[?|?]]; [by right|by left|done| |]; [unfold range_end in *; lia|].
      pose proof (proj1 (Forall_forall _ _) Hwf r' Hr') as (? & ? & ?).
      unfold range_end in *. lia. }
    split_and!; [done| |].
    + intros k r0 Hf. destruct (Hin _ _ Hf). split; [by right|done].
    + intros r0 [->|?]%elem_of_cons; [done|]. by apply Hfind.
  - split_and!; simpl.
    + apply sorted_from_set; [unfold range_end in *; lia|done].
    + intros k r0. rewrite (map_find_set (-1)) by done. destruct (Z.eqb_spec k (range_end r)) as [->|].
      * intros [= <-]. split; [by left|done].
      * intros Hf. destruct (Hin _ _ Hf). split; [by right|done].
    + intros r0 Hr0. rewrite (map_find_set (-1)) by done.
      destruct (Z.eqb_spec (range_end r0) (range_end r)) as [He|He];
        apply elem_of_cons in Hr0 as [->|Hr0]; try done; [|by apply Hfind].
      apply Hfind in Hr0. congruence.
Qed.

Lemma ranges_read l rs r a n :
  Forall range_wf l -> disjoint_ranges l -> ranges_ok l rs -> r ∈ l ->
  MemoryRange.offset_ r <= a < range_end r -> MemoryRanges.read rs a n = MemoryRange.read r a n.
Proof.
  intros Hwf Hd (Hs & Hin & Hfind) Hr Ha. unfold MemoryRanges.read.
  pose proof (upper_bound_spec (-1) a _ Hs) as Hub.
  destruct (upper_bound a (MemoryRanges.maps_ rs)) as [|[k1 r1] rest].
  - specialize (Hub _ _ (Hfind _ Hr)). lia.
  - destruct Hub as (Hk & Hf & Hmin). specialize (Hmin _ _ (Hfind _ Hr) ltac:(lia)).
    destruct (Hin _ _ Hf) as [Hr1 ->]. destruct (Hd r1 r Hr1 Hr) as [->|[?|?]]; [done|lia|].
    pose proof (proj1 (Forall_forall _ _) Hwf r1 Hr1) as (? & ? & ?).
    unfold range_end in *. lia.
Qed.

Lemma ranges_read_outside l rs a n :
  ranges_ok l rs -> (forall r, r ∈ l -> a < MemoryRange.offset_ r \/ range_end r <= a) ->
  MemoryRanges.read rs a n = [].
Proof.
  intros (Hs & Hin & Hfind) Ha. unfold MemoryRanges.read.
  pose proof (upper_bound_spec (-1) a _ Hs) as Hub.
  destruct (upper_bound a (MemoryRanges.maps_ rs)) as [|[k1 r1] rest]; [done|].
  destruct Hub as (Hk & Hf & _). destruct (Hin _ _ Hf) as [Hr1 ->].
  destruct (Ha _ Hr1); [|lia]. unfold MemoryRange.read. by rewrite (proj2 (Z.ltb_lt _ _)).
Qed.
End Ranges.

(** * [MemoryFileAtOffset] maps the file from the requested offset *)

Section File.
Context (k : Z) (file : list byte).
Hypothesis Hk : 0 <= k < 31.

Lemma land_pagemask offset : Z.land offset (2 ^ k - 1) = offset mod 2 ^ k.
Proof. rewrite <- Z.land_ones by lia. f_equal. rewrite Z.ones_equiv. lia. Qed.

Lemma land_pagealign offset :
  in_u 64 offset -> Z.land offset (u64 (Z.lnot (2 ^ k - 1))) = offset - offset mod 2 ^ k.
Proof.
  intros Ho. unfold wrap. rewrite <- Z.land_ones by lia.
  rewrite (Z.land_comm (Z.lnot _)), Z.land_assoc, (Z.land_ones offset) by lia.
  rewrite Z.mod_small by done. rewrite <- Z.ldiff_land.
  replace (2 ^ k - 1) with (Z.ones k) by (rewrite Z.ones_equiv; lia).
  rewrite Z.ldiff_ones_r, Z.shiftl_mul_pow2, Z.shiftr_div_pow2 by lia.
  pose proof (Z.div_mod offset (2 ^ k) ltac:(apply Z.pow_nonzero; lia)). lia.
Qed.

(** The object serves the bytes of the file from [offset] on, [size] of them at most. *)
Lemma Init_ok f offset size :
  len file < 2 ^ 64 -> 0 <= offset < len file -> in_u 64 size ->
  exists o,
  MemoryFileAtOffset.Init (2 ^ k) (Some file) true f offset size
  = (true, MemoryFileAtOffset.mk (Z.min size (len file - offset)) o
             (Some (slice offset (Z.min size (len file - offset)) file))).
Proof.
  intros Hlen Ho Hs. unfold MemoryFileAtOffset.Init.
  rewrite (proj2 (Z.leb_gt _ _)) by lia. rewrite land_pagealign, land_pagemask by (unfold in_u; lia).
  pose proof (Z.mod_pos_bound offset (2 ^ k) (pow2_pos k ltac:(lia))) as Hm.
  assert (offset mod 2 ^ k <= offset) by (apply Z.mod_le; [lia|apply pow2_pos; lia]).
  set (o := offset mod 2 ^ k) in *.
  rewrite (proj2 (Z.ltb_ge _ _)), (proj2 (Z.ltb_ge (len file) offset)) by lia. simpl.
  exists o. do 2 f_equal.
  - unfold in_u in Hs. repeat case_match; try lia.
    all: rewrite ?andb_true_iff, ?andb_false_iff, ?Z.ltb_lt, ?Z.ltb_ge in *; lia.
  - f_equal. unfold slice. rewrite skipn_firstn_comm, drop_drop. f_equal; [|f_equal; lia].
    unfold in_u in Hs. case_match.
    all: rewrite ?andb_true_iff, ?andb_false_iff, ?Z.ltb_lt, ?Z.ltb_ge in *; lia.
Qed.
End File.

(** * [ReadString] *)

(** [ReadString] ends in every memory. *)
Lemma ReadString_loop_ends fuel m a str br mx :
  0 <= br -> mx < 2 ^ 64 -> (Z.to_nat (mx - br) < fuel)%nat -> exists r, ReadString_loop fuel m a str br mx = Done r.
Proof.
  intros Hbr Hmx. revert a str br Hbr. induction fuel as [|fuel IH]; intros a str br Hbr Hf; [lia|]. simpl.
  destruct (Z.ltb_spec br mx); [|eauto]. destruct (ReadFully m a 1) as [bs|]; [|eauto].
  destruct (le_val bs =? 0); [eauto|]. rewrite (wrap_small 64 (br + 1)) by (unfold in_u; lia). apply IH; lia.
Qed.

Lemma ReadString_ends m a mx : in_u 64 mx -> exists r, ReadString m a mx = Done r.
Proof. unfold in_u. intros. apply ReadString_loop_ends; lia. Qed.

Section String.
Context (bm : Z -> option byte) (m : Memory).
Context {Hm : ByteMemory m bm}.

Lemma byte_val_0 b : byte_val b = 0 <-> b = x00.
Proof. split; [|by intros ->]. intros E. by rewrite <- (byte_of_val b), E. Qed.

(** The loop extends the string by nonzero bytes until a zero byte, the limit, or an unreadable
    address. *)
Lemma ReadString_loop_spec fuel a str br mx :
  bm UINT64_MAX = None -> in_u 64 a -> 0 <= br -> mx < 2 ^ 64 -> (Z.to_nat (mx - br) < fuel)%nat ->
  exists b t, ReadString_loop fuel m a str br mx = Done (b, str ++ t) /\
    holds bm a t /\ Forall (fun c => c <> x00) t /\
    if b then bm (a + len t) = Some x00 /\ len t < mx - br
    else mx - br <= len t \/ bm (a + len t) = None.
Proof.
  intros Htop. revert a str br. induction fuel as [|fuel IH]; intros a str br Ha Hbr Hmx Hf; [lia|].
  assert (forall a', a' + len [] = a') as Hlen by (unfold len; simpl; lia).
  simpl. destruct (Z.ltb_spec br mx).
  2:{ exists false, []. rewrite app_nil_r. split_and!; [done|done|done|]. left. unfold len; simpl. lia. }
  rewrite (ReadFully_1 bm) by done. destruct (bm a) as [c|] eqn:E; simpl.
  2:{ exists false, []. rewrite app_nil_r, Hlen. split_and!; [done|done|done|]. by right. }
  rewrite Z.mul_0_r, Z.add_0_r. destruct (Z.eqb_spec (byte_val c) 0) as [E0|E0].
  { apply byte_val_0 in E0 as ->. exists true, []. rewrite app_nil_r, Hlen.
    split_and!; [done|done|done|done|]. unfold len; simpl. lia. }
  assert (a <> UINT64_MAX) by congruence.
  unfold in_u in Ha. rewrite !wrap_small by (unfold in_u; lia).
  destruct (IH (a + 1) (str ++ [c]) (br + 1)) as (b & t & Hr & Hh & Hnz & Hb);
    [unfold in_u; lia|lia|lia|lia|].
  exists b, (c :: t). rewrite Hr, <- app_assoc. split_and!; [done| | |].
  - by apply holds_cons.
  - constructor; [|done]. intros ->. by apply E0.
  - replace (a + len (c :: t)) with (a + 1 + len t) by (unfold len; simpl; lia).
    replace (len (c :: t)) with (1 + len t) by (unfold len; simpl; lia).
    destruct b; [|destruct Hb; [left; lia|by right]]. destruct Hb. split; [done|lia].
Qed.
End String.

(** * Properties *)

(** A sequence of reads through a cache. *)
Fixpoint cache_reads (c : MemoryCache.t) (reqs : list (Z * Z)) : list (list byte) * MemoryCache.t :=
  match reqs with
  | [] => ([], c)
  | (a, n) :: rest =>
      let '(bs, c') := MemoryCache.read c a n in
      let '(out, c'') := cache_reads c' rest in
      (bs :: out, c'')
  end.

Lemma cache_reads_transparent bm c reqs :
  ByteMemory (MemoryCache.impl_ c) bm -> cache_ok bm c ->
  Forall (fun '(a, n) => in_u 64 a /\ 0 <= n /\ a + n <= 2 ^ 64) reqs ->
  fst (cache_reads c reqs) = map (fun '(a, n) => Read (MemoryCache.impl_ c) a n) reqs.
Proof.
  revert c. induction reqs as [|[a n] reqs IH]; intros c Hm Hc Hr; [done|].
  apply Forall_cons in Hr as [(Ha & Hn & Hw) Hr]. simpl.
  pose proof (read_transparent bm c a n Hm Hc Ha Hn Hw) as Ht.
  destruct (MemoryCache.read c a n) as [bs c']. destruct Ht as (-> & Hc' & Hi).
  rewrite <- Hi. rewrite <- Hi in Hm. specialize (IH c' Hm Hc' Hr).
  destruct (cache_reads c' reqs) as [out c'']. simpl in *. by rewrite IH.
Qed.

(** C18. [MemoryCache] is transparent: whatever sequence of reads is made through a cache that
    starts empty (as after construction or [Clear]), each read returns exactly the bytes that a
    direct read of the underlying memory returns, short reads at unreadable bytes included, as
    long as the underlying memory does not change and no read passes the top of the address
    space. *)
Theorem memory_cache_transparent bm c reqs
  (Hm : ByteMemory (MemoryCache.impl_ c) bm)
  (Hr : Forall (fun '(a, n) => in_u 64 a /\ 0 <= n /\ a + n <= 2 ^ 64) reqs) :
  fst (cache_reads (MemoryCache.Clear c) reqs)
  = map (fun '(a, n) => Read (MemoryCache.impl_ c) a n) reqs.
Proof. apply (cache_reads_transparent bm (MemoryCache.Clear c)); [done|apply cache_ok_clear|done]. Qed.

(** [MemoryRanges] dispatches correctly: after inserting any list of nonempty, pairwise
    disjoint ranges that end below 2^64, a read at an address of one of them is a read of that
    range, and a read at an address of none of them returns nothing. *)
Theorem memory_ranges_dispatch l a n
  (Hwf : Forall range_wf l) (Hd : disjoint_ranges l) :
  (forall r, r ∈ l -> MemoryRange.offset_ r <= a < range_end r ->
     MemoryRanges.read (insert_all l) a n = MemoryRange.read r a n) /\
  ((forall r, r ∈ l -> a < MemoryRange.offset_ r \/ range_end r <= a) ->
     MemoryRanges.read (insert_all l) a n = []).
Proof.
  pose proof (insert_all_ok l Hwf Hd). split.
  - intros r Hr Ha. by apply (ranges_read l).
  - intros. by apply (ranges_read_outside l).
Qed.

(** [Memory::ReadString] always ends, and is exact: it succeeds precisely when a string of
    nonzero bytes shorter than [max_read] and its terminating zero byte are readable at the
    address, and then returns that string without the terminator. (The byte at the very top of
    the address space is taken to be unreadable, as the address would wrap past it.) *)
Theorem memory_read_string_exact bm m a mx
  (Hm : ByteMemory m bm) (Htop : bm UINT64_MAX = None) (Ha : in_u 64 a) (Hmx : in_u 64 mx) :
  exists b str, ReadString m a mx = Done (b, str) /\
    (b = true <-> exists t, holds bm a (t ++ [x00]) /\ Forall (fun c => c <> x00) t /\ len t < mx) /\
    (b = true -> holds bm a (str ++ [x00]) /\ Forall (fun c => c <> x00) str).
Proof.
  unfold in_u in Hmx. unfold ReadString.
  destruct (ReadString_loop_spec bm m (S (Z.to_nat mx)) a [] 0 mx)
    as (b & t & -> & Hh & Hnz & Hb);
    [done|done|lia|lia|lia|].
  exists b, t. split; [done|].
  assert (b = true -> holds bm a (t ++ [x00])) as Hz.
  { intros ->. destruct Hb. apply holds_app. split; [done|]. by apply holds_cons. }
  split; [|auto]. split.
  - intros ->. exists t. destruct Hb. split_and!; [auto|done|lia].
  - intros (u & Hu & Hnu & Hlu). destruct b; [done|]. exfalso.
    apply holds_app in Hu as [Hu Hz']. apply holds_cons in Hz' as [Hz' _].
    assert (forall i, (i < length t)%nat -> exists c, bm (a + Z.of_nat i) = Some c /\ c <> x00) as Ht.
    { intros i Hi. destruct (lookup_lt_is_Some_2 t i Hi) as [c Hc]. exists c.
      split; [|by apply (proj1 (Forall_lookup _ _) Hnz i)].
      rewrite <- Hc. unfold holds in Hh. rewrite <- Hh. rewrite read_bytes_lookup; [done|].
      by rewrite Hh. }
    assert (length t <= length u)%nat as Hle.
    { destruct (decide (length t <= length u)%nat) as [|n]; [done|].
      destruct (Ht (length u) ltac:(lia)) as (c & Hc & Hne). unfold len in Hz'. congruence. }
    destruct Hb as [Hb|Hb]; [unfold len in *; lia|].
    destruct (decide (length t = length u)) as [E|E]; [unfold len in *; rewrite E in Hb; congruence|].
    unfold len in Hb. rewrite <- (read_bytes_lookup bm a (length u)) in Hb; unfold holds in Hu.
    + rewrite Hu in Hb. apply lookup_ge_None in Hb. lia.
    + rewrite Hu. lia.
Qed.

(** [MemoryOffline] serves a dump file: for a file whose first eight bytes hold the start
    address and whose remaining bytes are the memory contents, [Init] succeeds and a read at any
    address from the start on returns the contents at that distance, cut at the end of the dump;
    a read below the start returns nothing. *)
Theorem memory_offline_serves_dump k start data m0 a n
  (Hk : 0 <= k < 31) (Hs : in_u 64 start) (Hd : 0 < len data < 2 ^ 63) (Ha : in_u 64 a) (Hn : 0 <= n) :
  exists m, MemoryOffline.Init (2 ^ k) (Some (le_bytes 8 start ++ data)) true 0 m0 = (true, m) /\
    MemoryOffline.read m a n
    = if a <? start then [] else take (Z.to_nat n) (drop (Z.to_nat (a - start)) data).
Proof.
  set (file := le_bytes 8 start ++ data).
  assert (len file = 8 + len data) as Hl.
  { unfold len, file. rewrite length_app, le_bytes_length. lia. }
  destruct (Init_ok k file Hk MemoryFileAtOffset.init_state 0 UINT64_MAX) as [o Hi];
    [lia|lia|unfold in_u; lia|].
  rewrite Z.sub_0_r, Z.min_r in Hi by lia. unfold MemoryOffline.Init. rewrite Hi.
  assert (slice 0 (len file) file = file) as Hsl.
  { unfold slice, len. by rewrite Nat2Z.id, firstn_all. }
  rewrite Hsl. set (f := MemoryFileAtOffset.mk (len file) o (Some file)).
  assert (forall b j, 0 <= b < len file -> 0 <= j ->
          Read (MemoryFileAtOffset.memory f) b j = take (Z.to_nat j) (drop (Z.to_nat b) file)) as Hread.
  { intros b j Hb Hj. unfold MemoryFileAtOffset.memory, MemoryFileAtOffset.read, f, slice; simpl.
    rewrite (proj2 (Z.leb_gt _ _)) by lia.
    destruct (Z.min_spec (len file - b) j) as [[? ->]|[? ->]]; [|done].
    rewrite !take_ge by (rewrite length_drop; unfold len in *; lia). done. }
  assert (ReadFully (MemoryFileAtOffset.memory f) 0 8 = Some (le_bytes 8 start)) as ->.
  { unfold ReadFully. rewrite Hread by lia. unfold file.
    change (Z.to_nat 0) with 0%nat. rewrite drop_0, take_app_length' by by rewrite le_bytes_length.
    done. }
  rewrite le_val_bytes. change (8 * Z.of_nat 8) with 64. rewrite (Z.mod_small start) by done.
  change (MemoryFileAtOffset.Size f) with (len file). rewrite (proj2 (Z.ltb_ge _ _)) by lia.
  eexists. split; [done|]. unfold MemoryOffline.read, MemoryRange.read.
  cbn [MemoryOffline.memory_ MemoryRange.memory_ MemoryRange.begin_ MemoryRange.length_
       MemoryRange.offset_].
  destruct (Z.ltb_spec a start); [done|]. unfold in_u in *.
  destruct (Z.leb_spec (len file - 8) (a - start)).
  { rewrite drop_ge; [by rewrite firstn_nil|]. unfold len in *. lia. }
  rewrite (proj2 (Z.leb_gt _ _)) by lia. rewrite Hread by lia.
  assert (drop (Z.to_nat (a - start + 8)) file = drop (Z.to_nat (a - start)) data) as ->.
  { unfold file. rewrite <- (drop_app_add (le_bytes 8 start) data).
    f_equal. rewrite le_bytes_length. lia. }
  destruct (Z.min_spec n (len file - 8 - (a - start))) as [[? ->]|[? ->]]; [done|].
  rewrite !take_ge by (rewrite length_drop; unfold len in *; lia). done.
Qed.

(** A failed [MemoryFileAtOffset::Init] on an object that was initialized before leaves the
    old size behind a null data pointer: any later read below that size dereferences null. *)
Theorem memory_file_failed_reinit_read_null pagesize mmap_ok f data offset size a n
  (Hd : MemoryFileAtOffset.data_ f = Some data) (Ha : 0 <= a < MemoryFileAtOffset.size_ f) :
  exists f', MemoryFileAtOffset.Init pagesize None mmap_ok f offset size = (false, f') /\
    MemoryFileAtOffset.read f' a n = Fault (Undef UbNull).
Proof.
  eexists. split; [reflexivity|]. unfold MemoryFileAtOffset.Clear. rewrite Hd.
  unfold MemoryFileAtOffset.read. simpl. by rewrite (proj2 (Z.leb_gt _ _)) by lia.
Qed.

(** * Witnesses *)

Lemma memory_cache_transparent_witness :
  fst (cache_reads
         (MemoryCache.Clear (MemoryCache.mk (MemoryBuffer.memory (MemoryBuffer.mk (replicate (Z.to_nat 9000) x41))) ∅))
         [(4090, 16); (8190, 20); (8990, 32); (20000, 8); (0, 100)])
  = map (fun '(a, n) => Read (MemoryBuffer.memory (MemoryBuffer.mk (replicate (Z.to_nat 9000) x41))) a n)
      [(4090, 16); (8190, 20); (8990, 32); (20000, 8); (0, 100)].
Proof.
  apply (memory_cache_transparent (buffer_bytes (replicate (Z.to_nat 9000) x41))
           (MemoryCache.mk (MemoryBuffer.memory (MemoryBuffer.mk (replicate (Z.to_nat 9000) x41))) ∅)).
  - apply (MemoryBuffer_bytes (MemoryBuffer.mk (replicate (Z.to_nat 9000) x41))). vm_compute. discriminate.
  - repeat constructor; vm_compute; discriminate.
Defined.

Lemma memory_ranges_dispatch_witness :
  let m := MemoryBuffer.memory (MemoryBuffer.mk [x01; x02; x03; x04]) in
  let r1 := MemoryRange.mk m 0 2 100 in
  let r2 := MemoryRange.mk m 2 2 102 in
  MemoryRanges.read (insert_all [r1; r2]) 102 1 = MemoryRange.read r2 102 1 /\
  MemoryRange.read r2 102 1 = [x03].
Proof.
  intros m r1 r2. split; [|reflexivity].
  apply (proj1 (memory_ranges_dispatch [r1; r2] 102 1
    ltac:(repeat constructor; vm_compute; (discriminate || reflexivity))
    ltac:(apply disjoint_pair; vm_compute; discriminate))).
  - by right; left.
  - vm_compute. split; [discriminate|reflexivity].
Defined.

Lemma memory_read_string_exact_witness :
  let m := MemoryBuffer.memory (MemoryBuffer.mk [x61; x62; x00; x63]) in
  exists b str, ReadString m 0 8 = Done (b, str) /\
    (b = true <-> exists t, holds (buffer_bytes [x61; x62; x00; x63]) 0 (t ++ [x00]) /\
                            Forall (fun c => c <> x00) t /\ len t < 8) /\
    (b = true -> holds (buffer_bytes [x61; x62; x00; x63]) 0 (str ++ [x00]) /\
                 Forall (fun c => c <> x00) str).
Proof.
  intros m. apply (memory_read_string_exact (buffer_bytes [x61; x62; x00; x63]) m).
  - apply (MemoryBuffer_bytes (MemoryBuffer.mk [x61; x62; x00; x63])). vm_compute. discriminate.
  - reflexivity.
  - unfold in_u; lia.
  - unfold in_u; lia.
Defined.

Lemma memory_offline_serves_dump_witness :
  exists m, MemoryOffline.Init (2 ^ 12) (Some (le_bytes 8 4096 ++ [x01; x02; x03])) true 0
              (MemoryOffline.mk None) = (true, m) /\
    MemoryOffline.read m 4097 8 = [x02; x03].
Proof.
  apply (memory_offline_serves_dump 12 4096 [x01; x02; x03] (MemoryOffline.mk None) 4097 8);
    unfold in_u, len; simpl length; lia.
Defined.

Lemma memory_file_failed_reinit_read_null_witness :
  let f := MemoryFileAtOffset.mk 4 0 (Some [x01; x02; x03; x04]) in
  exists f', MemoryFileAtOffset.Init 4096 None true f 0 UINT64_MAX = (false, f') /\
    MemoryFileAtOffset.read f' 0 4 = Fault (Undef UbNull).
Proof.
  intros f. apply (memory_file_failed_reinit_read_null 4096 true f [x01; x02; x03; x04]).
  - reflexivity.
  - cbn. lia.
Defined.
