(* ===== verification/RemoteMemory.v ===== *)
(** The memory of a process in [Memory.cpp]: [ProcessVmRead], [PtraceRead], [MemoryRemote],
    [MemoryLocal] and the functions that create them.

    The system calls are parameters. What their manual pages promise is stated against a byte map of
    the process whose pages are readable as a whole ([ProcessVm], [Ptrace], [page_mapped]); the
    theorems then relate the reads to that byte map. *)
From Stdlib Require Import ZArith Lia Bool Strings.Byte.
From stdpp Require Import base numbers list.
From S2P Require Import Prelude Memory.
#[local] Open Scope Z_scope.

(** The system calls on one process: [process_vm_readv] on the remote vector of pairs of base and
    length, [None] for -1, otherwise the bytes that it transfers; the value of [ptrace(PTRACE_PEEKTEXT)]
    at an address, a [long], with [errno] after the call. *)
Record syscalls := mkSyscalls {
  getpagesize : Z;
  process_vm_readv : list (Z * Z) -> option (list byte);
  ptrace_peektext : Z -> Z * Z
}.

(** * [ProcessVmRead] *)

Definition kMaxIovecs : nat := 64.

Section Calls.
Context (sys : syscalls).

(** The inner loop: [room] more elements fit into [src_iovs]. The result is [cur], [len] and the
    elements; [None] is the return with [EFAULT]. *)
Fixpoint gather (room : nat) (cur len : Z) (src_iovs : list (Z * Z)) : option (Z * Z * list (Z * Z)) :=
  match room with
  | O => Some (cur, len, src_iovs)
  | S room' =>
      if 0 <? len then
        if UINT64_MAX <=? cur then None
        else
          let misalignment := Z.land cur (getpagesize sys - 1) in
          let iov_len := Z.min (getpagesize sys - misalignment) len in
          if 2 ^ 64 <=? cur + iov_len then None
          else gather room' (cur + iov_len) (len - iov_len) (src_iovs ++ [(cur, iov_len)])
      else Some (cur, len, src_iovs)
  end.

(** [dst] holds the [total_read] bytes that were read so far. *)
Fixpoint ProcessVmRead_loop (fuel : nat) (cur len : Z) (dst : list byte) : outcome (list byte) :=
  match fuel with
  | O => Fault OutOfFuel
  | S fuel' =>
      if 0 <? len then
        match gather kMaxIovecs cur len [] with
        | None => Done dst
        | Some (cur, len, src_iovs) =>
            match process_vm_readv sys src_iovs with
            | None => Done dst
            | Some bs => ProcessVmRead_loop fuel' cur len (dst ++ bs)
            end
        end
      else Done dst
  end.

(** Each iteration of the outer loop asks for at least one byte. *)
Definition ProcessVmRead (remote_src len : Z) : outcome (list byte) :=
  ProcessVmRead_loop (S (Z.to_nat len)) remote_src len [].

(** * [PtraceRead] *)

Definition PtraceReadLong (addr : Z) : option Z :=
  let '(value, errno) := ptrace_peektext sys addr in
  if (value =? -1) && negb (errno =? 0) then None else Some value.

(** The whole words: [count] of them are left. The result is whether all could be read, and [dst]. *)
Fixpoint ptrace_words (count : nat) (addr : Z) (dst : list byte) : bool * list byte :=
  match count with
  | O => (true, dst)
  | S count' =>
      match PtraceReadLong addr with
      | None => (false, dst)
      | Some data => ptrace_words count' (u64 (addr + 8)) (dst ++ le_bytes 8 data)
      end
  end.

(** Without the check for an overflow. *)
Definition ptrace_copy (addr bytes : Z) : list byte :=
  let align_bytes := Z.land addr 7 in
  let words addr bytes dst :=
    let '(ok, dst) := ptrace_words (Z.to_nat (bytes / 8)) addr dst in
    if negb ok then dst
    else
      let left_over := Z.land bytes 7 in
      if left_over =? 0 then dst
      else match PtraceReadLong (u64 (addr + 8 * (bytes / 8))) with
           | None => dst
           | Some data => dst ++ slice 0 left_over (le_bytes 8 data)
           end in
  if align_bytes =? 0 then words addr bytes []
  else
    match PtraceReadLong (Z.land addr (u64 (Z.lnot 7))) with
    | None => []
    | Some data =>
        let copy_bytes := Z.min (8 - align_bytes) bytes in
        words (u64 (addr + copy_bytes)) (bytes - copy_bytes) (slice align_bytes copy_bytes (le_bytes 8 data))
    end.

Definition PtraceRead (addr bytes : Z) : list byte :=
  if 2 ^ 64 <=? addr + bytes then [] else ptrace_copy addr bytes.

(** * [MemoryRemote] *)

(** [read_redirect_func_]: [None] is the null pointer. *)
Inductive read_func : Set := ProcessVmRead_func | PtraceRead_func.

Record MemoryRemote := mkRemote { read_redirect_func_ : option read_func }.

Definition new_MemoryRemote : MemoryRemote := mkRemote None.

Definition call_read (f : read_func) (addr size : Z) : outcome (list byte) :=
  match f with ProcessVmRead_func => ProcessVmRead addr size | PtraceRead_func => Done (PtraceRead addr size) end.

Definition remote_Read (addr size : Z) : M MemoryRemote (list byte) :=
  r <- get ;;
  match read_redirect_func_ r with
  | Some f => lift (call_read f addr size)
  | None =>
      bytes <- lift (ProcessVmRead addr size) ;;
      if 0 <? len bytes then modify (fun _ => mkRemote (Some ProcessVmRead_func)) ;; ret bytes
      else
        let bytes := PtraceRead addr size in
        (if 0 <? len bytes then modify (fun _ => mkRemote (Some PtraceRead_func)) else ret tt) ;;
        ret bytes
  end.

(** Any sequence of reads *)
Fixpoint remote_reads (reqs : list (Z * Z)) : M MemoryRemote (list (list byte)) :=
  match reqs with
  | [] => ret []
  | (a, n) :: reqs' => bs <- remote_Read a n ;; rest <- remote_reads reqs' ;; ret (bs :: rest)
  end.
End Calls.

(** * [CreateProcessMemory] *)

(** [local] are the calls on the own process. *)
Inductive ProcessMemory := MemoryLocal (local : syscalls) | Remote (sys : syscalls) (r : MemoryRemote).

Definition CreateProcessMemory (local : syscalls) (remote : Z -> syscalls) (own pid : Z) : ProcessMemory :=
  if pid =? own then MemoryLocal local else Remote (remote pid) new_MemoryRemote.

Definition process_Read (addr size : Z) : M ProcessMemory (list byte) := fun m =>
  match m with
  | MemoryLocal local => match ProcessVmRead local addr size with Done bs => Done (bs, m) | Fault f => Fault f end
  | Remote sys r =>
      match remote_Read sys addr size r with Done (bs, r) => Done (bs, Remote sys r) | Fault f => Fault f end
  end.

(** * What the calls promise *)

(** The bytes of the longest prefix of elements that are readable as a whole. *)
Fixpoint readv_prefix (bm : Z -> option byte) (iovs : list (Z * Z)) : list byte :=
  match iovs with
  | [] => []
  | (base, n) :: iovs' =>
      let bs := read_bytes bm base (Z.to_nat n) in
      if len bs =? n then bs ++ readv_prefix bm iovs' else []
  end.

(** process_vm_readv(2): a partial transfer does not split an element; an error when nothing can
    be transferred. *)
Class ProcessVm (sys : syscalls) (bm : Z -> option byte) : Prop := {
  vm_readv : forall iovs, iovs <> [] ->
    process_vm_readv sys iovs = match readv_prefix bm iovs with [] => None | bs => Some bs end
}.

(** The call is not permitted, or not there. *)
Class NoProcessVm (sys : syscalls) : Prop := { no_readv : forall iovs, process_vm_readv sys iovs = None }.

(** ptrace(2): the word at an aligned address, or -1 with [errno] set. *)
Class Ptrace (sys : syscalls) (bm : Z -> option byte) : Prop := {
  peek_word : forall a, 0 <= a -> a mod 8 = 0 -> length (read_bytes bm a 8) = 8%nat ->
    ptrace_peektext sys a = (sgn 64 (le_val (read_bytes bm a 8)), 0);
  peek_fails : forall a, 0 <= a -> a mod 8 = 0 -> length (read_bytes bm a 8) <> 8%nat ->
    exists e, ptrace_peektext sys a = (-1, e) /\ e <> 0
}.

(** The pages of [2 ^ k] bytes are readable as a whole. *)
Definition page_mapped (k : Z) (bm : Z -> option byte) : Prop :=
  forall a b, a / 2 ^ k = b / 2 ^ k -> bm a = None -> bm b = None.

(** * Pages *)

Lemma land_low x k : 0 <= k -> Z.land x (2 ^ k - 1) = x mod 2 ^ k.
Proof. intros. rewrite Z.sub_1_r, <- Z.ones_equiv. by apply Z.land_ones. Qed.

Section Pages.
Context (k : Z) (bm : Z -> option byte) (Hk : 3 <= k) (Hpages : page_mapped k bm).

(** A chunk inside of a page is readable as a whole or not at all. *)
Lemma read_bytes_chunk a m :
  0 < m <= 2 ^ k - a mod 2 ^ k ->
  (bm a <> None /\ len (read_bytes bm a (Z.to_nat m)) = m) \/ (bm a = None /\ forall n, read_bytes bm a n = []).
Proof.
  intros Hm. destruct (bm a) as [b|] eqn:Ha; [left|right].
  2:{ split; [done|]. intros [|n]; [done|]. simpl. by rewrite Ha. }
  split; [done|]. assert (forall n x, (forall i, (i < n)%nat -> bm (x + Z.of_nat i) <> None) -> length (read_bytes bm x n) = n) as Hall.
  { induction n as [|n IH]; intros x Hx; [done|]. simpl. specialize (Hx O ltac:(lia)) as H0. rewrite Z.add_0_r in H0.
    destruct (bm x); [|done]. simpl. f_equal. apply IH. intros i Hi. specialize (Hx (S i) ltac:(lia)).
    by replace (x + 1 + Z.of_nat i) with (x + Z.of_nat (S i)) by lia. }
  unfold len. rewrite Hall; [lia|]. intros i Hi Hn. apply (Hpages (a + Z.of_nat i) a) in Hn; [congruence|].
  pose proof (Z.div_mod a (2 ^ k)). pose proof (Z.mod_pos_bound a (2 ^ k)).
  assert (0 < 2 ^ k) by lia. symmetry. apply Z.div_unique with (a mod 2 ^ k + Z.of_nat i); lia.
Qed.

Lemma read_bytes_app_Z a m n :
  0 <= m -> 0 <= n -> len (read_bytes bm a (Z.to_nat m)) = m ->
  read_bytes bm a (Z.to_nat (m + n)) = read_bytes bm a (Z.to_nat m) ++ read_bytes bm (a + m) (Z.to_nat n).
Proof.
  unfold len. intros Hm Hn Hl. rewrite Z2Nat.inj_add, read_bytes_app by lia. by rewrite Z2Nat.id.
Qed.

Lemma read_bytes_none a n : bm a = None -> read_bytes bm a n = [].
Proof. intros Ha. destruct n; [done|]. simpl. by rewrite Ha. Qed.

(** * [ProcessVmRead] *)

Context (sys : syscalls) (Hps : getpagesize sys = 2 ^ k).

(** The first page of a read of [n] bytes *)
Definition first_chunk (a n : Z) : Z := Z.min (2 ^ k - a mod 2 ^ k) n.

Lemma first_chunk_range a n : 0 < n -> 0 < first_chunk a n <= n /\ first_chunk a n <= 2 ^ k - a mod 2 ^ k.
Proof. intros. unfold first_chunk. pose proof (Z.mod_pos_bound a (2 ^ k)). lia. Qed.

(** Behind a chunk that does not end the read a page begins. *)
Lemma first_chunk_aligned a n : first_chunk a n < n -> (a + first_chunk a n) mod 2 ^ k = 0.
Proof.
  intros. unfold first_chunk in *. rewrite Z.min_l by lia. pose proof (Z.div_mod a (2 ^ k)).
  replace (a + (2 ^ k - a mod 2 ^ k)) with ((a / 2 ^ k + 1) * 2 ^ k) by lia. apply Z.mod_mul. lia.
Qed.

(** What fits into the vector *)
Definition batch (room : nat) (a n : Z) : Z := Z.min n (Z.of_nat room * 2 ^ k - a mod 2 ^ k).

Lemma gather_spec room a n iovs :
  0 <= a -> 0 <= n -> a + n < 2 ^ 64 -> (0 < room)%nat ->
  exists l, gather sys room a n iovs = Some (a + batch room a n, n - batch room a n, iovs ++ l) /\
    readv_prefix bm l = read_bytes bm a (Z.to_nat (batch room a n)) /\ (0 < n -> l <> []).
Proof.
  revert a n iovs. induction room as [|room IH]; intros a n iovs Ha Hn Han Hroom; [lia|]. cbn [gather].
  pose proof (Z.mod_pos_bound a (2 ^ k)) as Hmod.
  assert (2 ^ 64 = 18446744073709551616) as H64 by reflexivity.
  destruct (Z.ltb_spec 0 n) as [Hpos|].
  2:{ exists []. unfold batch. rewrite Z.min_l by nia. rewrite app_nil_r. split_and!; [do 3 f_equal; lia|by replace (Z.to_nat n) with O by lia|lia]. }
  destruct (Z.leb_spec UINT64_MAX a); [lia|]. rewrite Hps, land_low by lia. fold (first_chunk a n).
  pose proof (first_chunk_range a n Hpos) as [Hc Hc'].
  destruct (Z.leb_spec (2 ^ 64) (a + first_chunk a n)); [lia|].
  assert (exists l, gather sys room (a + first_chunk a n) (n - first_chunk a n) (iovs ++ [(a, first_chunk a n)])
      = Some (a + batch (S room) a n, n - batch (S room) a n, (iovs ++ [(a, first_chunk a n)]) ++ l) /\
      readv_prefix bm l = read_bytes bm (a + first_chunk a n) (Z.to_nat (batch (S room) a n - first_chunk a n)) /\
      first_chunk a n <= batch (S room) a n) as (l & Hg & Hl & Hb).
  { destruct (decide (first_chunk a n = n)) as [E|E].
    - exists []. assert (batch (S room) a n = n) as Hbn by (unfold batch, first_chunk in *; nia).
      rewrite Hbn, !E, app_nil_r, Z.sub_diag. split_and!; [|done|lia]. destruct room; done.
    - pose proof (first_chunk_aligned a n ltac:(lia)) as Hal. destruct room as [|room].
      + exists []. assert (batch 1 a n = first_chunk a n) as -> by (unfold batch, first_chunk in *; lia).
        rewrite app_nil_r, Z.sub_diag. cbn. split_and!; done || lia.
      + destruct (IH (a + first_chunk a n) (n - first_chunk a n) (iovs ++ [(a, first_chunk a n)])) as (l & Hg & Hl & _); [lia..|].
        exists l. assert (batch (S (S room)) a n = first_chunk a n + batch (S room) (a + first_chunk a n) (n - first_chunk a n)) as Hb.
        { unfold batch. rewrite Hal. assert (first_chunk a n = 2 ^ k - a mod 2 ^ k) as -> by (unfold first_chunk in *; lia). lia. }
        rewrite Hg, Hb. split_and!; [do 3 f_equal; lia|rewrite Hl; do 2 f_equal; lia|].
        unfold batch. rewrite Hal. lia. }
  exists ((a, first_chunk a n) :: l). rewrite Hg, <- app_assoc. split_and!; [done| |done]. cbn [readv_prefix].
  destruct (read_bytes_chunk a (first_chunk a n)) as [[_ Hfull]|[Hno Hnil]]; [lia|..].
  - rewrite Hfull, Z.eqb_refl, Hl. replace (batch (S room) a n) with (first_chunk a n + (batch (S room) a n - first_chunk a n)) at 2 by lia.
    by rewrite read_bytes_app_Z by lia.
  - rewrite !Hnil. destruct (Z.eqb_spec (len []) (first_chunk a n)) as [E|]; [|done]. unfold len in E. simpl in E. lia.
Qed.

Context {Hvm : ProcessVm sys bm}.

Lemma batch_range a n : 0 < n -> 0 < batch kMaxIovecs a n <= n.
Proof. intros. unfold batch, kMaxIovecs. pose proof (Z.mod_pos_bound a (2 ^ k)). lia. Qed.

(** One iteration of the outer loop *)
Lemma ProcessVmRead_batch fuel a n dst :
  0 <= a -> 0 < n -> a + n < 2 ^ 64 ->
  let b := batch kMaxIovecs a n in
  let bs := read_bytes bm a (Z.to_nat b) in
  ProcessVmRead_loop sys (S fuel) a n dst =
    match bs with [] => Done dst | _ => ProcessVmRead_loop sys fuel (a + b) (n - b) (dst ++ bs) end.
Proof.
  intros Ha Hn Han b bs. cbn [ProcessVmRead_loop]. destruct (Z.ltb_spec 0 n); [|lia].
  destruct (gather_spec kMaxIovecs a n []) as (l & Hg & Hl & Hne); [unfold kMaxIovecs; lia..|].
  rewrite Hg, app_nil_l. rewrite (vm_readv (bm := bm)) by by apply Hne. rewrite Hl. fold b bs. by destruct bs.
Qed.

Lemma ProcessVmRead_loop_end fuel a dst : (0 < fuel)%nat -> ProcessVmRead_loop sys fuel a 0 dst = Done dst.
Proof. destruct fuel; [lia|done]. Qed.

(** Exact within one vector, and where all bytes are readable. *)
Definition vm_covers (a n : Z) : Prop := a mod 2 ^ k + n <= 64 * 2 ^ k \/ len (read_bytes bm a (Z.to_nat n)) = n.

Lemma ProcessVmRead_loop_exact fuel a n dst :
  (Z.to_nat n < fuel)%nat -> 0 <= a -> 0 <= n -> a + n < 2 ^ 64 -> vm_covers a n ->
  ProcessVmRead_loop sys fuel a n dst = Done (dst ++ read_bytes bm a (Z.to_nat n)).
Proof.
  revert a n dst. induction fuel as [|fuel IH]; intros a n dst Hf Ha Hn Han Hc; [lia|].
  destruct (Z.eq_dec n 0) as [->|]; [by rewrite ProcessVmRead_loop_end, app_nil_r by lia|].
  rewrite ProcessVmRead_batch by lia. pose proof (batch_range a n ltac:(lia)) as Hb.
  remember (batch kMaxIovecs a n) as b eqn:Eb.
  assert (b = n \/ len (read_bytes bm a (Z.to_nat b)) = b /\ len (read_bytes bm (a + b) (Z.to_nat (n - b))) = n - b) as [->|[H1 H2]].
  { destruct Hc as [Hc|Hc]; [left; subst b; unfold batch, kMaxIovecs; lia|right].
    assert (len (read_bytes bm a (Z.to_nat b)) = b) as H1.
    { rewrite <- (read_bytes_take bm a (Z.to_nat n)) by lia. unfold len in *. rewrite length_take. lia. }
    split; [done|]. replace n with (b + (n - b)) in Hc at 1 by lia. rewrite read_bytes_app_Z, len_app in Hc by lia. lia. }
  - rewrite Z.sub_diag. rewrite ProcessVmRead_loop_end by lia. destruct (read_bytes bm a (Z.to_nat n)); [|done]. by rewrite app_nil_r.
  - rewrite IH by (done || lia || by right). rewrite <- app_assoc, <- read_bytes_app_Z by lia.
    replace (b + (n - b)) with n by lia. destruct (read_bytes bm a (Z.to_nat b)) eqn:E; [|done]. unfold len in H1. simpl in H1. lia.
Qed.

Lemma ProcessVmRead_exact a n :
  0 <= a -> 0 <= n -> a + n < 2 ^ 64 -> vm_covers a n -> ProcessVmRead sys a n = Done (read_bytes bm a (Z.to_nat n)).
Proof. intros. unfold ProcessVmRead. by rewrite ProcessVmRead_loop_exact by (done || lia). Qed.
End Pages.

(** Without the call nothing is read. *)
Lemma ProcessVmRead_none sys `{NoProcessVm sys} a n : 0 < getpagesize sys -> 0 <= n -> ProcessVmRead sys a n = Done [].
Proof.
  intros. unfold ProcessVmRead. cbn [ProcessVmRead_loop]. case_match; [|done]. destruct (gather sys kMaxIovecs a n []) as [[[cur l] iovs]|]; [|done].
  by rewrite no_readv.
Qed.

(** * [PtraceRead] *)

Lemma le_bytes_val bs : le_bytes (length bs) (le_val bs) = bs.
Proof.
  induction bs as [|b bs IH]; [done|]. cbn [length le_bytes le_val]. pose proof (byte_val_range b). f_equal.
  - rewrite <- (byte_of_val b) at 2. unfold byte_of. do 3 f_equal. rewrite Z.mul_comm, Z.mod_add by lia. done.
  - rewrite Z.mul_comm, Z.div_add by lia. rewrite Z.div_small by lia. by rewrite Z.add_0_l.
Qed.

Lemma le_bytes_wrap n z : le_bytes n (z mod 2 ^ (8 * Z.of_nat n)) = le_bytes n z.
Proof. rewrite <- le_val_bytes. rewrite <- (le_bytes_length n z) at 1. apply le_bytes_val. Qed.

(** A [long] with the bytes of a word has them. *)
Lemma le_bytes_sgn bs : length bs = 8%nat -> le_bytes 8 (sgn 64 (le_val bs)) = bs.
Proof.
  intros Hl. rewrite <- le_bytes_wrap. change (2 ^ (8 * Z.of_nat 8)) with (2 ^ 64).
  fold (wrap 64 (sgn 64 (le_val bs))). rewrite wrap_sgn by lia. unfold wrap. change (2 ^ 64) with (2 ^ (8 * Z.of_nat 8)).
  rewrite le_bytes_wrap, <- Hl. apply le_bytes_val.
Qed.

Section PtraceRead.
Context (k : Z) (bm : Z -> option byte) (Hk : 3 <= k) (Hpages : page_mapped k bm) (sys : syscalls) {Hpt : Ptrace sys bm}.

(** Words do not cross pages. *)
Lemma words_mapped : page_mapped 3 bm.
Proof.
  intros a b Hab. apply Hpages. replace k with (3 + (k - 3)) by lia. rewrite !Z.pow_add_r by lia.
  rewrite <- !Z.div_div by lia. by rewrite Hab.
Qed.

Lemma PtraceReadLong_word a :
  0 <= a -> a mod 8 = 0 ->
  match PtraceReadLong sys a with
  | Some data => le_bytes 8 data = read_bytes bm a 8 /\ length (read_bytes bm a 8) = 8%nat
  | None => bm a = None
  end.
Proof.
  intros Ha Hal. unfold PtraceReadLong. destruct (read_bytes_chunk 3 bm ltac:(lia) words_mapped a 8) as [[Hs Hl]|[Hn Hr]].
  - change (2 ^ 3) with 8. lia.
  - assert (length (read_bytes bm a 8) = 8%nat) as Hl' by (unfold len in Hl; change (Z.to_nat 8) with 8%nat in Hl; lia).
    rewrite (peek_word (bm := bm)) by done. rewrite andb_false_r. split; [|done]. by apply le_bytes_sgn.
  - destruct (peek_fails (bm := bm) a) as (e & -> & He); [done..|by rewrite Hr|]. destruct (Z.eqb_spec e 0); done.
Qed.

Lemma ptrace_words_spec c a dst :
  0 <= a -> a mod 8 = 0 -> a + 8 * Z.of_nat c < 2 ^ 64 ->
  ptrace_words sys c a dst =
    (len (read_bytes bm a (8 * c)) =? 8 * Z.of_nat c, dst ++ read_bytes bm a (8 * c)).
Proof.
  revert a dst. induction c as [|c IH]; intros a dst Ha Hal Hlt; [by rewrite app_nil_r|]. cbn [ptrace_words].
  pose proof (PtraceReadLong_word a Ha Hal) as Hw. destruct (PtraceReadLong sys a) as [data|].
  - destruct Hw as [Hd Hl]. rewrite wrap_small by (unfold in_u; lia).
    rewrite IH by first [lia|replace (a + 8) with (a + 1 * 8) by lia; by rewrite Z.mod_add by lia].
    replace (8 * S c)%nat with (8 + 8 * c)%nat by lia. rewrite (read_bytes_app bm a 8) by done. rewrite Hd, app_assoc.
    unfold len. rewrite length_app, Hl. f_equal. change (Z.of_nat 8) with 8.
    destruct (Z.eqb_spec (Z.of_nat (length (read_bytes bm (a + 8) (8 * c)))) (8 * Z.of_nat c)), (Z.eqb_spec (Z.of_nat (8 + length (read_bytes bm (a + 8) (8 * c)))) (8 * Z.of_nat (S c))); lia.
  - rewrite (read_bytes_none bm) by done. rewrite app_nil_r. destruct (Z.eqb_spec (len []) (8 * Z.of_nat (S c))) as [E|]; [|done].
    unfold len in E. simpl in E. lia.
Qed.

(** From an aligned address on: the whole words and what is left. *)
Lemma ptrace_tail a n dst :
  0 <= a -> 0 <= n -> a + n < 2 ^ 64 -> (0 < n -> a mod 8 = 0) ->
  (let '(ok, dst) := ptrace_words sys (Z.to_nat (n / 8)) a dst in
   if negb ok then dst
   else if Z.land n 7 =? 0 then dst
   else match PtraceReadLong sys (u64 (a + 8 * (n / 8))) with
        | None => dst
        | Some data => dst ++ slice 0 (Z.land n 7) (le_bytes 8 data)
        end) = dst ++ read_bytes bm a (Z.to_nat n).
Proof.
  intros Ha Hn Hlt Hal. destruct (Z.eq_dec n 0) as [->|]; [by rewrite app_nil_r|]. specialize (Hal ltac:(lia)).
  change 7 with (2 ^ 3 - 1). rewrite land_low by lia. change (2 ^ 3) with 8.
  pose proof (Z.div_mod n 8 ltac:(lia)). pose proof (Z.mod_pos_bound n 8 ltac:(lia)). pose proof (Z.div_pos n 8).
  rewrite ptrace_words_spec by lia. set (c := Z.to_nat (n / 8)). assert (Z.of_nat c = n / 8) as Hc by lia. rewrite Hc.
  replace (Z.to_nat n) with (8 * c + Z.to_nat (n mod 8))%nat by lia.
  destruct (Z.eqb_spec (len (read_bytes bm a (8 * c))) (8 * (n / 8))) as [E|E]; cbn [negb].
  2:{ rewrite read_bytes_short; [done|]. unfold len in E. pose proof (read_bytes_length bm a (8 * c)). lia. }
  rewrite read_bytes_app by (unfold len in E; lia). replace (a + Z.of_nat (8 * c)) with (a + 8 * (n / 8)) by lia.
  destruct (Z.eqb_spec (n mod 8) 0) as [->|]; [by rewrite app_nil_r|].
  assert ((a + 8 * (n / 8)) mod 8 = 0) as Hal' by by rewrite Z.mul_comm, Z.mod_add by lia.
  rewrite wrap_small by (unfold in_u; lia). pose proof (PtraceReadLong_word (a + 8 * (n / 8)) ltac:(lia) Hal') as Hw.
  rewrite app_assoc. destruct (PtraceReadLong sys (a + 8 * (n / 8))) as [data|].
  - destruct Hw as [-> Hl]. unfold slice. rewrite drop_0, read_bytes_take by lia. done.
  - rewrite (read_bytes_none bm (a + 8 * (n / 8))) by done. by rewrite app_nil_r.
Qed.

Lemma ptrace_copy_exact a n :
  0 <= a -> 0 <= n -> a + n < 2 ^ 64 -> ptrace_copy sys a n = read_bytes bm a (Z.to_nat n).
Proof.
  intros Ha Hn Hlt. unfold ptrace_copy.
  replace (Z.land a 7) with (a mod 8) by (change 7 with (2 ^ 3 - 1); by rewrite land_low by lia).
  pose proof (Z.mod_pos_bound a 8 ltac:(lia)). pose proof (Z.div_mod a 8 ltac:(lia)).
  destruct (Z.eqb_spec (a mod 8) 0) as [E|E]; [by rewrite ptrace_tail|].
  replace (Z.land a (u64 (Z.lnot 7))) with (8 * (a / 8)).
  2:{ symmetry. transitivity (Z.ldiff a 7).
      - apply Z.bits_inj'. intros i Hi. rewrite Z.land_spec, Z.ldiff_spec. unfold wrap. destruct (Z.ltb_spec i 64).
        + by rewrite Z.mod_pow2_bits_low, Z.lnot_spec by lia.
        + assert (Z.testbit a i = false) as -> by (rewrite <- (Z.mod_small a (2 ^ 64)) by lia; apply Z.mod_pow2_bits_high; lia). done.
      - change 7 with (Z.ones 3). rewrite Z.ldiff_ones_r, Z.shiftr_div_pow2, Z.shiftl_mul_pow2 by lia. change (2 ^ 3) with 8. lia. }
  assert ((8 * (a / 8)) mod 8 = 0) as Hal by (by rewrite Z.mul_comm, Z.mod_mul by lia).
  pose proof (PtraceReadLong_word (8 * (a / 8)) ltac:(lia) Hal) as Hw.
  destruct (PtraceReadLong sys (8 * (a / 8))) as [data|].
  2:{ assert (bm a = None) as Hna. { eapply words_mapped; [|exact Hw]. change (2 ^ 3) with 8. rewrite Z.mul_comm, Z.div_mul by lia. done. }
      by rewrite read_bytes_none. }
  destruct Hw as [-> Hl]. set (c := Z.min (8 - a mod 8) n). unfold slice.
  rewrite read_bytes_slice by lia. replace (8 * (a / 8) + Z.of_nat (Z.to_nat (a mod 8))) with a by lia.
  assert (len (read_bytes bm a (Z.to_nat c)) = c) as Hfull.
  { replace (read_bytes bm a (Z.to_nat c)) with (take (Z.to_nat c) (drop (Z.to_nat (a mod 8)) (read_bytes bm (8 * (a / 8)) 8))).
    - unfold len. rewrite length_take, length_drop, Hl. lia.
    - rewrite read_bytes_slice by lia. f_equal. lia. }
  destruct (Z.eq_dec c 0) as [Hc0|]. { replace n with 0 by lia. replace c with 0 by lia. by rewrite Z.add_0_r, wrap_small by (unfold in_u; lia). }
  rewrite wrap_small by (unfold in_u; lia). rewrite ptrace_tail; [|lia..|].
  - replace (Z.to_nat n) with (Z.to_nat (c + (n - c))) by lia. by rewrite read_bytes_app_Z by lia.
  - intros. replace (a + c) with ((a / 8 + 1) * 8) by lia. by rewrite Z.mod_mul by lia.
Qed.

Lemma PtraceRead_exact a n :
  0 <= a -> 0 <= n -> a + n < 2 ^ 64 -> PtraceRead sys a n = read_bytes bm a (Z.to_nat n).
Proof. intros. unfold PtraceRead. destruct (Z.leb_spec (2 ^ 64) (a + n)); [lia|]. by apply ptrace_copy_exact. Qed.
End PtraceRead.

(** * Any sequence of reads *)

Fixpoint process_reads (reqs : list (Z * Z)) : M ProcessMemory (list (list byte)) :=
  match reqs with
  | [] => ret []
  | (a, n) :: reqs' => bs <- process_Read a n ;; rest <- process_reads reqs' ;; ret (bs :: rest)
  end.

(** A read of at most 64 pages below the top of the address space *)
Definition request_ok (k : Z) (req : Z * Z) : Prop :=
  let '(a, n) := req in 0 <= a /\ 0 <= n /\ a + n < 2 ^ 64 /\ a mod 2 ^ k + n <= 64 * 2 ^ k.

(** What reads of a process with the bytes [bm] return *)
Definition read_all (bm : Z -> option byte) (reqs : list (Z * Z)) : list (list byte) :=
  map (fun req => read_bytes bm (fst req) (Z.to_nat (snd req))) reqs.

(** The calls on another process: [process_vm_readv] may not be permitted. *)
Class RemoteCalls (k : Z) (sys : syscalls) (bm : Z -> option byte) : Prop := {
  rc_page : getpagesize sys = 2 ^ k;
  rc_ptrace :: Ptrace sys bm;
  rc_vm : ProcessVm sys bm \/ NoProcessVm sys
}.

Section Remote.
Context (k : Z) (bm : Z -> option byte) (Hk : 3 <= k) (Hpages : page_mapped k bm).

(** The function that a remote memory has settled on works. *)
Definition remote_ok (sys : syscalls) (r : MemoryRemote) : Prop :=
  read_redirect_func_ r = Some ProcessVmRead_func -> ProcessVm sys bm.

Lemma remote_Read_exact sys `{!RemoteCalls k sys bm} a n r :
  request_ok k (a, n) -> remote_ok sys r ->
  wp no_fault (remote_Read sys a n) (fun bs r' => bs = read_bytes bm a (Z.to_nat n) /\ remote_ok sys r') r.
Proof.
  intros (Ha & Hn & Hlt & Hc) Hr. pose proof rc_page as Hps.
  assert (ProcessVm sys bm -> ProcessVmRead sys a n = Done (read_bytes bm a (Z.to_nat n))) as Hvm.
  { intros. apply (ProcessVmRead_exact k bm); try done. by left. }
  assert (PtraceRead sys a n = read_bytes bm a (Z.to_nat n)) as Hpt by exact (PtraceRead_exact k bm Hk Hpages sys a n Ha Hn Hlt).
  unfold remote_Read. wp_simpl. destruct (read_redirect_func_ r) as [[|]|] eqn:E.
  - wp_simpl. cbn [call_read]. by rewrite Hvm by by apply Hr.
  - wp_simpl. cbn [call_read]. rewrite Hpt. split; [done|]. unfold remote_ok. by rewrite E.
  - wp_simpl. destruct (rc_vm (sys := sys) (bm := bm)) as [Hv|Hv].
    + rewrite Hvm, Hpt by done. destruct (0 <? len (read_bytes bm a (Z.to_nat n))); wp_simpl; (split; [done|intros ?; done]).
    + assert (0 < getpagesize sys) by (rewrite Hps; lia). rewrite ProcessVmRead_none by done. cbn [len length Z.of_nat Z.ltb Z.compare].
      wp_simpl. rewrite Hpt. destruct (0 <? len (read_bytes bm a (Z.to_nat n))); wp_simpl; (split; [done|]); unfold remote_ok; cbn; congruence.
Qed.

(** The memory of a process, and the calls behind it *)
Definition process_ok (m : ProcessMemory) : Prop :=
  match m with
  | MemoryLocal local => getpagesize local = 2 ^ k /\ ProcessVm local bm
  | Remote sys r => RemoteCalls k sys bm /\ remote_ok sys r
  end.

Lemma process_Read_exact a n m :
  request_ok k (a, n) -> process_ok m ->
  wp no_fault (process_Read a n) (fun bs m' => bs = read_bytes bm a (Z.to_nat n) /\ process_ok m') m.
Proof.
  intros Hreq Hm. unfold wp, process_Read. destruct m as [local|sys r]; destruct Hm as [H1 H2].
  - destruct Hreq as (Ha & Hn & Hlt & Hc). erewrite ProcessVmRead_exact; try done. by left.
  - pose proof (remote_Read_exact sys a n r Hreq H2) as Hw. unfold wp in Hw. destruct (remote_Read sys a n r) as [[bs r']|]; [|done].
    by destruct Hw.
Qed.

Lemma process_reads_exact reqs m :
  Forall (request_ok k) reqs -> process_ok m ->
  wp no_fault (process_reads reqs) (fun bss m' => bss = read_all bm reqs /\ process_ok m') m.
Proof.
  intros Hreqs. revert m. induction Hreqs as [|[a n] reqs Hreq _ IH]; intros m Hm; cbn [process_reads]; wp_simpl; [done|].
  eapply wp_mono; [by apply process_Read_exact|done|]. cbn beta. intros bs m' [-> Hm']. wp_simpl.
  eapply wp_mono; [by apply IH|done|]. cbn beta. intros bss m2 [-> Hm2]. by wp_simpl.
Qed.
End Remote.

(** C21. Whatever [CreateProcessMemory] creates, with [process_vm_readv] permitted or not, and with
    whatever function its first reads settle on: any sequence of reads of at most 64 pages returns
    exactly the bytes of the process, up to the first one that cannot be read. *)
Theorem process_memory_refines k bm local remote own pid reqs
  (Hk : 3 <= k) (Hpages : page_mapped k bm)
  (Hlocal : pid = own -> getpagesize local = 2 ^ k /\ ProcessVm local bm)
  (Hremote : pid <> own -> RemoteCalls k (remote pid) bm)
  (Hreqs : Forall (request_ok k) reqs) :
  exists m, process_reads reqs (CreateProcessMemory local remote own pid) = Done (read_all bm reqs, m).
Proof.
  assert (process_ok k bm (CreateProcessMemory local remote own pid)) as Hm.
  { unfold CreateProcessMemory. destruct (Z.eqb_spec pid own) as [E|E]; [by apply Hlocal|]. split; [by apply Hremote|done]. }
  destruct (wp_elim _ _ _ (process_reads_exact k bm Hk Hpages reqs _ Hreqs Hm)) as (bss & m & Hrun & -> & _). by exists m.
Qed.

(** A read of more than 64 pages with a hole of pages inside of the first 64 goes on behind the
    64th page: the bytes from there are returned as if they followed those before the hole. *)
Theorem process_vm_read_joins_hole k bm sys a h n
  (Hk : 3 <= k) (Hpages : page_mapped k bm) (Hps : getpagesize sys = 2 ^ k) (Hvm : ProcessVm sys bm)
  (Ha : 0 <= a) (Hal : a mod 2 ^ k = 0) (Han : a + n < 2 ^ 64)
  (Hh : 0 < h < 64) (Hbefore : len (read_bytes bm a (Z.to_nat (h * 2 ^ k))) = h * 2 ^ k)
  (Hhole : bm (a + h * 2 ^ k) = None) (Hn : 64 * 2 ^ k < n <= 128 * 2 ^ k) :
  ProcessVmRead sys a n =
    Done (read_bytes bm a (Z.to_nat (h * 2 ^ k)) ++ read_bytes bm (a + 64 * 2 ^ k) (Z.to_nat (n - 64 * 2 ^ k))).
Proof.
  assert (0 < 2 ^ k) by lia. unfold ProcessVmRead. rewrite (ProcessVmRead_batch k bm) by (done || lia).
  replace (batch k kMaxIovecs a n) with (64 * 2 ^ k) by (unfold batch, kMaxIovecs; lia).
  rewrite (read_bytes_stop bm a (Z.to_nat (64 * 2 ^ k)) (Z.to_nat (h * 2 ^ k))) by first [nia|rewrite Z2Nat.id by nia; done].
  destruct (read_bytes bm a (Z.to_nat (h * 2 ^ k))) as [|b bs] eqn:E; [unfold len in Hbefore; simpl in Hbefore; nia|].
  rewrite (ProcessVmRead_loop_exact k bm) by first [done|lia|left; rewrite Z.add_mod, Z.mod_mul, Hal by lia; rewrite Z.mod_0_l by lia; lia].
  done.
Qed.

(** * Concrete calls *)

(** The calls on a process with the bytes [bm], as their manual pages describe them. *)
Definition calls_of (pagesize : Z) (bm : Z -> option byte) : syscalls :=
  mkSyscalls pagesize
    (fun iovs => match readv_prefix bm iovs with [] => None | bs => Some bs end)
    (fun a => let bs := read_bytes bm a 8 in if len bs =? 8 then (sgn 64 (le_val bs), 0) else (-1, 5)).

#[export] Instance calls_of_vm pagesize bm : ProcessVm (calls_of pagesize bm) bm.
Proof. by split. Qed.

#[export] Instance calls_of_ptrace pagesize bm : Ptrace (calls_of pagesize bm) bm.
Proof.
  split; intros a _ _ Hl; cbn [calls_of ptrace_peektext].
  - unfold len. by rewrite Hl.
  - destruct (Z.eqb_spec (len (read_bytes bm a 8)) 8) as [E|]; [unfold len in E; lia|by exists 5].
Qed.

#[export] Instance calls_of_remote k bm : RemoteCalls k (calls_of (2 ^ k) bm) bm.
Proof. split; [done|apply _|left; apply _]. Qed.

(** Pages of 8 bytes from 64 on: the first one, not the second one, and all others below 1024. *)
Definition holey (a : Z) : option byte :=
  if (64 <=? a) && (a <? 1024) && negb ((72 <=? a) && (a <? 80)) then Some (byte_of a) else None.

Lemma holey_mapped : page_mapped 3 holey.
Proof.
  intros a b. change (2 ^ 3) with 8. pose proof (Z.div_mod a 8 ltac:(lia)). pose proof (Z.mod_pos_bound a 8 ltac:(lia)).
  pose proof (Z.div_mod b 8 ltac:(lia)). pose proof (Z.mod_pos_bound b 8 ltac:(lia)). unfold holey.
  intros Hd. repeat match goal with |- context [?x <=? ?y] => destruct (Z.leb_spec x y) | |- context [?x <? ?y] => destruct (Z.ltb_spec x y) end;
    cbn; intros; (done || lia).
Qed.

Lemma process_memory_refines_witness :
  exists m, process_reads [(66, 4); (60, 4); (66, 20); (80, 33)] (CreateProcessMemory (calls_of 8 holey) (fun _ => calls_of 8 holey) 1 2)
    = Done (read_all holey [(66, 4); (60, 4); (66, 20); (80, 33)], m).
Proof.
  apply (process_memory_refines 3).
  - lia.
  - apply holey_mapped.
  - done.
  - intros _. apply (calls_of_remote 3).
  - repeat constructor; vm_compute; done.
Defined.

Lemma process_vm_read_joins_hole_witness :
  ProcessVmRead (calls_of 8 holey) 64 520 = Done (read_bytes holey 64 8 ++ read_bytes holey 576 8).
Proof.
  apply (process_vm_read_joins_hole 3 holey (calls_of 8 holey) 64 1 520).
  - lia.
  - apply holey_mapped.
  - done.
  - apply calls_of_vm.
  - lia.
  - done.
  - lia.
  - lia.
  - done.
  - done.
  - lia.
Defined.
