(* ===== verification/DwarfMemory.v ===== *)
(** [DwarfMemory.cpp], [DwarfMemory.h], [DwarfEncoding.h]: the cursor through which DWARF data is
    read.

    The record [DwarfMemory] is the class's state; its methods are computations of the monad [M]
    over it. A method that returns [false] without a value returns [None]; the value it writes
    through its pointer argument otherwise is returned as [Some v]. Shifts whose count reaches the
    width of the type are undefined behaviour and make the computation fault. *)
From Stdlib Require Import ZArith Lia Bool Strings.Byte.
From stdpp Require Import base numbers list gmap.
From S2P Require Import Prelude Memory.
#[local] Open Scope Z_scope.

(** * Data *)

(** [enum DwarfEncoding] *)
Definition DW_EH_PE_omit : Z := 0xff.
Definition DW_EH_PE_absptr : Z := 0x00.
Definition DW_EH_PE_uleb128 : Z := 0x01.
Definition DW_EH_PE_udata2 : Z := 0x02.
Definition DW_EH_PE_udata4 : Z := 0x03.
Definition DW_EH_PE_udata8 : Z := 0x04.
Definition DW_EH_PE_sleb128 : Z := 0x09.
Definition DW_EH_PE_sdata2 : Z := 0x0a.
Definition DW_EH_PE_sdata4 : Z := 0x0b.
Definition DW_EH_PE_sdata8 : Z := 0x0c.
Definition DW_EH_PE_pcrel : Z := 0x10.
Definition DW_EH_PE_textrel : Z := 0x20.
Definition DW_EH_PE_datarel : Z := 0x30.
Definition DW_EH_PE_funcrel : Z := 0x40.
Definition DW_EH_PE_aligned : Z := 0x50.
Definition DW_EH_PE_udata1 : Z := 0x0d.
Definition DW_EH_PE_sdata1 : Z := 0x0e.
Definition DW_EH_PE_block : Z := 0x0f.

Record DwarfMemory := mkDwarfMemory {
  memory_ : Memory;
  cur_offset_ : Z;
  pc_offset_ : Z;
  data_offset_ : Z;
  func_offset_ : Z;
  text_offset_ : Z
}.

(** The constructor's state, with the member initializers of the class. *)
Definition new_DwarfMemory (m : Memory) : DwarfMemory :=
  mkDwarfMemory m 0 UINT64_MAX UINT64_MAX UINT64_MAX UINT64_MAX.

Definition put_cur (o : Z) (d : DwarfMemory) : DwarfMemory :=
  mkDwarfMemory (memory_ d) o (pc_offset_ d) (data_offset_ d) (func_offset_ d) (text_offset_ d).
Definition put_pc (o : Z) (d : DwarfMemory) : DwarfMemory :=
  mkDwarfMemory (memory_ d) (cur_offset_ d) o (data_offset_ d) (func_offset_ d) (text_offset_ d).
Definition put_data (o : Z) (d : DwarfMemory) : DwarfMemory :=
  mkDwarfMemory (memory_ d) (cur_offset_ d) (pc_offset_ d) o (func_offset_ d) (text_offset_ d).
Definition put_func (o : Z) (d : DwarfMemory) : DwarfMemory :=
  mkDwarfMemory (memory_ d) (cur_offset_ d) (pc_offset_ d) (data_offset_ d) o (text_offset_ d).
Definition put_text (o : Z) (d : DwarfMemory) : DwarfMemory :=
  mkDwarfMemory (memory_ d) (cur_offset_ d) (pc_offset_ d) (data_offset_ d) (func_offset_ d) o.

(** * Operations *)

Abbreviation DM := (M DwarfMemory).

Definition cur_offset : DM Z := gets cur_offset_.
Definition set_cur_offset (o : Z) : DM unit := modify (put_cur o).
Definition set_pc_offset (o : Z) : DM unit := modify (put_pc o).
Definition clear_pc_offset : DM unit := modify (put_pc UINT64_MAX).
Definition set_data_offset (o : Z) : DM unit := modify (put_data o).
Definition clear_data_offset : DM unit := modify (put_data UINT64_MAX).
Definition set_func_offset (o : Z) : DM unit := modify (put_func o).
Definition clear_func_offset : DM unit := modify (put_func UINT64_MAX).
Definition set_text_offset (o : Z) : DM unit := modify (put_text o).
Definition clear_text_offset : DM unit := modify (put_text UINT64_MAX).

(** Sequencing of calls that may return [false]: the first failure is the result. *)
Definition obind {S A B} (m : M S (option A)) (k : A -> M S (option B)) : M S (option B) :=
  o <- m ;; match o with Some a => k a | None => ret None end.
Notation "x <-? m ;; k" := (obind m (fun x => k))
  (at level 100, m at next level, right associativity, only parsing) : cpp_scope.

Definition ReadBytes (num_bytes : Z) : DM (option (list byte)) :=
  d <- get ;;
  match ReadFully (memory_ d) (cur_offset_ d) num_bytes with
  | None => ret None
  | Some bs =>
      set_cur_offset (u64 (cur_offset_ d + num_bytes)) ;;
      ret (Some bs)
  end.

(** An unsigned integer of [n] bytes, little-endian as the targets are. *)
Definition ReadUnsigned (n : Z) : DM (option Z) :=
  bs <-? ReadBytes n ;; ret (Some (le_val bs)).

(** [ReadSigned<SignedType>] with [sizeof(SignedType) = n]. *)
Definition ReadSigned (n : Z) : DM (option Z) :=
  bs <-? ReadBytes n ;; ret (Some (u64 (sgn (8 * n) (le_val bs)))).

(** The [do ... while] loop that [ReadULEB128] and [ReadSLEB128] share: it ends with the value,
    the shift, and the last byte read. *)
Fixpoint leb_loop (fuel : nat) (cur_value shift : Z) : DM (option (Z * Z * Z)) :=
  match fuel with
  | O => fail OutOfFuel
  | S fuel' =>
      byte <-? ReadUnsigned 1 ;;
      if 64 <=? shift then fail (Undef UbShift)
      else
        let cur_value := u64 (cur_value + u64 (Z.shiftl (Z.land byte 0x7f) shift)) in
        let shift := u64 (shift + 7) in
        if Z.land byte 0x80 =? 0 then ret (Some (cur_value, shift, byte))
        else leb_loop fuel' cur_value shift
  end.

(** The eleventh byte already shifts by 70: more iterations are never needed. *)
Definition leb_fuel : nat := 11.

Definition ReadULEB128 : DM (option Z) :=
  r <-? leb_loop leb_fuel 0 0 ;;
  let '(cur_value, _, _) := r in ret (Some cur_value).

Definition ReadSLEB128 : DM (option Z) :=
  r <-? leb_loop leb_fuel 0 0 ;;
  let '(cur_value, shift, byte) := r in
  if negb (Z.land byte 0x40 =? 0) then
    if 64 <=? shift then fail (Undef UbShift)
    else ret (Some (sgn 64 (Z.lor cur_value (u64 (Z.shiftl UINT64_MAX shift)))))
  else ret (Some (sgn 64 cur_value)).

Definition GetEncodedSize (A : addr_type) (encoding : Z) : Z :=
  let e := Z.land encoding 0x0f in
  if e =? DW_EH_PE_absptr then size_of A
  else if (e =? DW_EH_PE_udata1) || (e =? DW_EH_PE_sdata1) then 1
  else if (e =? DW_EH_PE_udata2) || (e =? DW_EH_PE_sdata2) then 2
  else if (e =? DW_EH_PE_udata4) || (e =? DW_EH_PE_sdata4) then 4
  else if (e =? DW_EH_PE_udata8) || (e =? DW_EH_PE_sdata8) then 8
  else 0.

Definition AdjustEncodedValue (encoding value : Z) : DM (option Z) :=
  if negb (Z.land encoding 0x0f =? 0) then fail Aborted
  else
    d <- get ;;
    let add_base (base : Z) : DM (option Z) :=
      if base =? UINT64_MAX then ret None else ret (Some (u64 (value + base))) in
    if encoding =? DW_EH_PE_absptr then ret (Some value)
    else if encoding =? DW_EH_PE_pcrel then add_base (pc_offset_ d)
    else if encoding =? DW_EH_PE_textrel then add_base (text_offset_ d)
    else if encoding =? DW_EH_PE_datarel then add_base (data_offset_ d)
    else if encoding =? DW_EH_PE_funcrel then add_base (func_offset_ d)
    else ret None.

(** The [switch] of [ReadEncodedValue] that gets the data. *)
Definition ReadEncodedData (A : addr_type) (encoding : Z) : DM (option Z) :=
  let e := Z.land encoding 0x0f in
  if e =? DW_EH_PE_absptr then ReadUnsigned (size_of A)
  else if e =? DW_EH_PE_uleb128 then ReadULEB128
  else if e =? DW_EH_PE_sleb128 then v <-? ReadSLEB128 ;; ret (Some (u64 v))
  else if e =? DW_EH_PE_udata1 then ReadUnsigned 1
  else if e =? DW_EH_PE_sdata1 then ReadSigned 1
  else if e =? DW_EH_PE_udata2 then ReadUnsigned 2
  else if e =? DW_EH_PE_sdata2 then ReadSigned 2
  else if e =? DW_EH_PE_udata4 then ReadUnsigned 4
  else if e =? DW_EH_PE_sdata4 then ReadSigned 4
  else if e =? DW_EH_PE_udata8 then ReadUnsigned 8
  else if e =? DW_EH_PE_sdata8 then ReadSigned 8
  else ret None.

(** [__builtin_add_overflow] stores the wrapped sum also when it reports the overflow. *)
Definition ReadEncodedValue (A : addr_type) (encoding : Z) : DM (option Z) :=
  if encoding =? DW_EH_PE_omit then ret (Some 0)
  else if encoding =? DW_EH_PE_aligned then
    o <- cur_offset ;;
    let sum := o + (size_of A - 1) in
    set_cur_offset (u64 sum) ;;
    if 2 ^ 64 <=? sum then ret None
    else
      set_cur_offset (Z.land sum (u64 (- size_of A))) ;;
      ReadUnsigned (size_of A)
  else
    value <-? ReadEncodedData A encoding ;;
    AdjustEncodedValue (Z.land encoding 0x70) value.

(** * Reference encodings *)

(** A LEB128 byte sequence: every byte but the last has its high bit set. *)
Fixpoint leb_shape (bs : list byte) : Prop :=
  match bs with
  | [] => False
  | [b] => byte_val b < 128
  | b :: t => 128 <= byte_val b /\ leb_shape t
  end.

(** The number whose base-128 digits, least significant first, the bytes hold. *)
Fixpoint leb_val (bs : list byte) : Z :=
  match bs with
  | [] => 0
  | b :: t => byte_val b mod 128 + 128 * leb_val t
  end.

(** Its two's-complement reading on [7 * length] bits. *)
Definition sleb_val (bs : list byte) : Z := sgn (7 * len bs) (leb_val bs).

Fixpoint uleb_encode (fuel : nat) (v : Z) : list byte :=
  match fuel with
  | O => []
  | S f => if v <? 128 then [byte_of v] else byte_of (v mod 128 + 128) :: uleb_encode f (v / 128)
  end.

(** The canonical encodings of [uint64_t] and [int64_t] values: ten bytes at most. *)
Definition uleb (v : Z) : list byte := uleb_encode 10 v.

Fixpoint sleb_encode (fuel : nat) (v : Z) : list byte :=
  match fuel with
  | O => []
  | S f => if (-64 <=? v) && (v <? 64) then [byte_of (v mod 128)]
           else byte_of (v mod 128 + 128) :: sleb_encode f (v / 128)
  end.

Definition sleb (v : Z) : list byte := sleb_encode 10 v.

(** * Lemmas *)

Lemma wp_obind {S A B} F (m : M S (option A)) (k : A -> M S (option B)) Q s :
  wp F (obind m k) Q s
  = wp F m (fun o s' => match o with Some a => wp F (k a) Q s' | None => Q None s' end) s.
Proof.
  unfold obind. rewrite wp_bind. unfold wp. by destruct (m s) as [[[a|] s']|f].
Qed.

Lemma wp_ReadBytes F n Q d :
  wp F (ReadBytes n) Q d
  = match ReadFully (memory_ d) (cur_offset_ d) n with
    | None => Q None d
    | Some bs => Q (Some bs) (put_cur (u64 (cur_offset_ d + n)) d)
    end.
Proof. unfold ReadBytes. wp_simpl. by destruct (ReadFully _ _ _). Qed.

Lemma wp_set_cur_offset F o Q d : wp F (set_cur_offset o) Q d = Q tt (put_cur o d).
Proof. reflexivity. Qed.

Lemma wp_cur_offset F Q d : wp F cur_offset Q d = Q (cur_offset_ d) d.
Proof. reflexivity. Qed.

#[export] Hint Rewrite @wp_obind wp_ReadBytes wp_set_cur_offset wp_cur_offset : wp.

Lemma put_cur_cur o o' d : put_cur o (put_cur o' d) = put_cur o d.
Proof. reflexivity. Qed.

Lemma put_cur_id d : put_cur (cur_offset_ d) d = d.
Proof. by destruct d. Qed.

(** Runs compose through [obind]. *)
Lemma obind_run {S A B} (m : M S (option A)) (k : A -> M S (option B)) s a s' :
  m s = Done (Some a, s') -> obind m k s = k a s'.
Proof. unfold obind, bind. by intros ->. Qed.

Section Runs.
Context (bm : Z -> option byte).
Implicit Types (d : DwarfMemory) (bs : list byte).

(** The cursor is on an address, over a memory whose bytes are [bm]. *)
Definition at_bytes d bs : Prop :=
  ByteMemory (memory_ d) bm /\ in_u 64 (cur_offset_ d) /\ holds bm (cur_offset_ d) bs.

(** The state after [n] bytes were consumed. *)
Definition skip (n : Z) d : DwarfMemory := put_cur (u64 (cur_offset_ d + n)) d.

Lemma skip_skip n k d : skip n (skip k d) = skip (k + n) d.
Proof. unfold skip. rewrite put_cur_cur. simpl. rewrite wrap_add_l by lia. do 2 f_equal. lia. Qed.

Lemma at_bytes_app d bs1 bs2 :
  at_bytes d (bs1 ++ bs2) -> at_bytes d bs1 /\ (bs2 <> [] -> at_bytes (skip (len bs1) d) bs2).
Proof.
  intros (Hm & Hc & Hh). apply holds_app in Hh as [H1 H2]. split; [done|].
  intros Hne. destruct bs2 as [|b bs2]; [done|]. pose proof H2 as H2'.
  apply holds_cons in H2' as [Hb _]. apply (bm_range (ByteMemory := Hm)) in Hb.
  unfold at_bytes, skip. simpl. rewrite wrap_small by done. done.
Qed.

Lemma ReadBytes_run d bs :
  at_bytes d bs -> ReadBytes (len bs) d = Done (Some bs, skip (len bs) d).
Proof.
  intros (Hm & Hc & Hh). unfold ReadBytes, bind, get.
  by rewrite (ReadFully_holds bm _ _ Hc Hh).
Qed.

Lemma ReadUnsigned_run d bs :
  at_bytes d bs -> ReadUnsigned (len bs) d = Done (Some (le_val bs), skip (len bs) d).
Proof. intros. unfold ReadUnsigned. by rewrite (obind_run _ _ _ _ _ (ReadBytes_run _ _ H)). Qed.

Lemma ReadSigned_run d bs :
  at_bytes d bs ->
  ReadSigned (len bs) d = Done (Some (u64 (sgn (8 * len bs) (le_val bs))), skip (len bs) d).
Proof. intros. unfold ReadSigned. by rewrite (obind_run _ _ _ _ _ (ReadBytes_run _ _ H)). Qed.

Lemma ReadUnsigned_1_run d b :
  at_bytes d [b] -> ReadUnsigned 1 d = Done (Some (byte_val b), skip 1 d).
Proof.
  intros H. pose proof (ReadUnsigned_run _ _ H) as Hr. simpl in Hr.
  by rewrite Z.add_0_r in Hr.
Qed.

(** ** LEB128 *)

Lemma land_127 x : Z.land x 0x7f = x mod 128.
Proof. change 0x7f with (Z.ones 7). by rewrite Z.land_ones. Qed.

Lemma land_128 x : 0 <= x < 256 -> (Z.land x 0x80 =? 0) = (x <? 128).
Proof.
  intros Hx. apply eqb_prop. revert x Hx.
  refine (byte_values (fun x => Bool.eqb (Z.land x 0x80 =? 0) (x <? 128)) _). by vm_compute.
Qed.

Lemma land_64 x : 0 <= x < 256 -> (Z.land x 0x40 =? 0) = (x mod 128 <? 64).
Proof.
  intros Hx. apply eqb_prop. revert x Hx.
  refine (byte_values (fun x => Bool.eqb (Z.land x 0x40 =? 0) (x mod 128 <? 64)) _). by vm_compute.
Qed.

Lemma leb_val_range bs : 0 <= leb_val bs < 2 ^ (7 * len bs).
Proof.
  induction bs as [|b bs IH]; [simpl; unfold len; simpl; lia|].
  cbn [leb_val]. pose proof (Z.mod_pos_bound (byte_val b) 128 ltac:(lia)).
  replace (7 * len (b :: bs)) with (7 + 7 * len bs) by (unfold len; simpl length; lia).
  rewrite Z.pow_add_r by (unfold len; lia). change (2 ^ 7) with 128. lia.
Qed.

(** The loop accumulates the digits at their weights. *)
Lemma leb_loop_run fuel bs v sh d :
  leb_shape bs -> at_bytes d bs -> (length bs <= fuel)%nat ->
  0 <= sh -> sh + 7 * (len bs - 1) < 64 ->
  leb_loop fuel v sh d
  = Done (Some (u64 (v + 2 ^ sh * leb_val bs), sh + 7 * len bs, byte_val (List.last bs x00)),
          skip (len bs) d).
Proof.
  revert fuel v sh d. induction bs as [|b bs IH]; intros fuel v sh d Hs Ha Hf Hsh Hub; [done|].
  destruct fuel as [|fuel]; [simpl in Hf; lia|]. cbn [leb_loop].
  destruct (at_bytes_app d [b] bs Ha) as [H1 H2]. change (len [b]) with 1 in H2.
  rewrite (obind_run _ _ _ _ _ (ReadUnsigned_1_run d b H1)).
  assert (len (b :: bs) = 1 + len bs) as Hlen by (unfold len; simpl length; lia).
  assert (0 <= len bs) by (unfold len; lia).
  rewrite (proj2 (Z.leb_gt _ _)) by lia. rewrite land_127, land_128 by apply byte_val_range.
  rewrite Z.shiftl_mul_pow2, wrap_add_r by lia. rewrite (wrap_small 64 (sh + 7)) by (unfold in_u; lia).
  destruct bs as [|b' bs].
  - rewrite (proj2 (Z.ltb_lt _ _)) by exact Hs. unfold ret. cbn [leb_val List.last].
    change (len [b]) with 1. rewrite Z.mul_0_r, Z.add_0_r, Z.mul_1_r, Z.mul_comm. done.
  - destruct Hs as [Hb Hs]. rewrite (proj2 (Z.ltb_ge _ _)) by lia.
    rewrite (IH fuel _ _ _ Hs (H2 ltac:(done))) by (simpl in *; lia).
    rewrite skip_skip, <- Hlen, wrap_add_l, Z.pow_add_r by lia. change (2 ^ 7) with 128.
    set (n := len (b' :: bs)) in *. set (l := leb_val (b' :: bs)).
    change (leb_val (b :: b' :: bs)) with (byte_val b mod 128 + 128 * l).
    replace (sh + 7 + 7 * n) with (sh + 7 * len (b :: b' :: bs)) by lia.
    replace (v + byte_val b mod 128 * 2 ^ sh + 2 ^ sh * 128 * l)
      with (v + 2 ^ sh * (byte_val b mod 128 + 128 * l)) by ring. done.
Qed.

Lemma ReadULEB128_run d bs :
  leb_shape bs -> len bs <= 10 -> at_bytes d bs ->
  ReadULEB128 d = Done (Some (u64 (leb_val bs)), skip (len bs) d).
Proof.
  intros Hs Hl Ha. unfold ReadULEB128.
  erewrite obind_run; [|apply leb_loop_run; [done|done|unfold leb_fuel, len in *; lia|lia|lia]].
  by rewrite Z.pow_0_r, Z.mul_1_l.
Qed.

(** The sign bit of the last digit decides the sign of the whole. *)
Lemma leb_val_sign bs :
  leb_shape bs ->
  (byte_val (List.last bs x00) mod 128 <? 64) = (leb_val bs <? 2 ^ (7 * len bs - 1)).
Proof.
  induction bs as [|b bs IH]; [done|]. intros Hs. destruct bs as [|b' bs].
  - simpl. change (len [b]) with 1. rewrite Z.add_0_r. done.
  - destruct Hs as [_ Hs]. specialize (IH Hs). cbn [List.last] in *. rewrite IH.
    change (leb_val (b :: b' :: bs)) with (byte_val b mod 128 + 128 * leb_val (b' :: bs)).
    set (l := leb_val (b' :: bs)).
    replace (7 * len (b :: b' :: bs) - 1) with (7 + (7 * len (b' :: bs) - 1))
      by (unfold len; simpl length; lia).
    rewrite Z.pow_add_r by (unfold len; simpl length; lia). change (2 ^ 7) with 128.
    pose proof (Z.mod_pos_bound (byte_val b) 128 ltac:(lia)).
    destruct (Z.ltb_spec l (2 ^ (7 * len (b' :: bs) - 1))), (Z.ltb_spec
      (byte_val b mod 128 + 128 * l) (128 * 2 ^ (7 * len (b' :: bs) - 1))); lia.
Qed.

(** Sign extension by [|= -1 << shift]. *)
Lemma sign_extend v sh :
  0 <= sh < 64 -> 0 <= v < 2 ^ sh -> Z.lor v (u64 (Z.shiftl UINT64_MAX sh)) = u64 (v - 2 ^ sh).
Proof.
  intros Hs Hv. change UINT64_MAX with (Z.ones 64).
  assert (u64 (Z.shiftl (Z.ones 64) sh) = Z.shiftl (Z.ones (64 - sh)) sh) as ->.
  { unfold wrap. rewrite <- Z.land_ones by lia. apply Z.bits_inj'. intros n Hn.
    rewrite Z.land_spec, Z.testbit_ones_nonneg by lia.
    destruct (Z.ltb_spec n sh).
    - rewrite !Z.shiftl_spec_low by lia. done.
    - rewrite !Z.shiftl_spec_high by lia. rewrite !Z.testbit_ones_nonneg by lia.
      destruct (Z.ltb_spec (n - sh) 64), (Z.ltb_spec n 64), (Z.ltb_spec (n - sh) (64 - sh)); lia || done. }
  assert (Z.land v (Z.shiftl (Z.ones (64 - sh)) sh) = 0) as Hdis.
  { apply Z.bits_inj'. intros n Hn. rewrite Z.land_spec, Z.bits_0.
    destruct (Z.ltb_spec n sh); [by rewrite Z.shiftl_spec_low, andb_false_r by lia|].
    by rewrite <- (Z.mod_small v (2 ^ sh)), Z.mod_pow2_bits_high by lia. }
  rewrite <- (Z.lxor_lor _ _ Hdis), <- Z.add_nocarry_lxor by exact Hdis.
  rewrite Z.shiftl_mul_pow2, Z.ones_equiv by lia. unfold wrap.
  rewrite <- (Z.mod_small (v + _) (2 ^ 64)).
  2:{ assert (2 ^ 64 = 2 ^ (64 - sh) * 2 ^ sh) by (rewrite <- Z.pow_add_r by lia; f_equal; lia).
      pose proof (pow2_pos (64 - sh)). nia. }
  rewrite <- (Z.mod_add (v - 2 ^ sh) 1) by lia. f_equal.
  assert (2 ^ 64 = 2 ^ (64 - sh) * 2 ^ sh) by (rewrite <- Z.pow_add_r by lia; f_equal; lia). lia.
Qed.

Lemma ReadSLEB128_run d bs :
  leb_shape bs -> len bs <= 9 -> at_bytes d bs ->
  ReadSLEB128 d = Done (Some (sleb_val bs), skip (len bs) d).
Proof.
  intros Hs Hl Ha. unfold ReadSLEB128.
  erewrite obind_run; [|apply leb_loop_run; [done|done|unfold leb_fuel, len in *; lia|lia|lia]].
  rewrite Z.pow_0_r, Z.mul_1_l, !Z.add_0_l. rewrite land_64 by apply byte_val_range.
  rewrite leb_val_sign by done. pose proof (leb_val_range bs) as Hr. pose proof (len_nonneg bs).
  assert (0 < len bs) by (destruct bs; [done|unfold len; simpl length; lia]).
  pose proof (Z.pow_le_mono_r 2 (7 * len bs) 63 ltac:(lia) ltac:(lia)).
  rewrite (wrap_small 64 (leb_val bs)) by (unfold in_u; lia). unfold sleb_val, ret.
  unfold sgn at 3. rewrite (wrap_small (7 * len bs)) by done. cbv zeta.
  destruct (Z.ltb_spec (leb_val bs) (2 ^ (7 * len bs - 1))); cbn [negb].
  - by rewrite sgn_small by lia.
  - rewrite (proj2 (Z.leb_gt _ _)) by lia. rewrite sign_extend, sgn_wrap by lia. done.
Qed.

(** Ten bytes whose last has its sign bit set: the shift count is 70. *)
Lemma ReadSLEB128_undef d bs :
  leb_shape bs -> len bs = 10 -> 64 <= byte_val (List.last bs x00) -> at_bytes d bs ->
  ReadSLEB128 d = Fault (Undef UbShift).
Proof.
  intros Hs Hl Hlast Ha. unfold ReadSLEB128.
  erewrite obind_run; [|apply leb_loop_run; [done|done|unfold leb_fuel, len in *; lia|lia|lia]].
  cbv beta iota. rewrite land_64 by apply byte_val_range.
  assert (byte_val (List.last bs x00) < 128) as Hb.
  { clear - Hs. induction bs as [|b [|b' bs] IH]; [done|done|]. apply IH, Hs. }
  rewrite Z.mod_small by lia. rewrite (proj2 (Z.ltb_ge _ _)) by lia. by rewrite Hl.
Qed.
End Runs.

(** ** Canonical encodings *)

Section Encodings.
Implicit Types (v : Z) (fuel n : nat).

Lemma uleb_encode_ok fuel v :
  0 <= v < 128 ^ Z.of_nat (S fuel) ->
  let bs := uleb_encode (S fuel) v in
  leb_shape bs /\ leb_val bs = v /\ (0 < length bs <= S fuel)%nat.
Proof.
  revert v. induction fuel as [|fuel IH]; intros v Hv.
  - change (128 ^ Z.of_nat 1) with 128 in Hv. simpl. rewrite (proj2 (Z.ltb_lt v 128)) by lia.
    simpl. rewrite byte_val_of, (Z.mod_small v 256), (Z.mod_small v 128) by lia. lia.
  - set (k := S fuel) in *. cbn [uleb_encode]. destruct (Z.ltb_spec v 128).
    + simpl. rewrite byte_val_of, (Z.mod_small v 256), (Z.mod_small v 128) by lia. lia.
    + rewrite Nat2Z.inj_succ, Z.pow_succ_r in Hv by lia.
      destruct (IH (v / 128)) as (Hs & Hval & Hl).
      { split; [apply Z.div_pos; lia|apply Z.div_lt_upper_bound; lia]. }
      pose proof (Z.mod_pos_bound v 128 ltac:(lia)) as Hm.
      assert (byte_val (byte_of (v mod 128 + 128)) = v mod 128 + 128) as Hb
        by (rewrite byte_val_of, Z.mod_small; lia).
      destruct (uleb_encode k (v / 128)) as [|b t] eqn:E; [done|]. split_and!.
      * cbn [leb_shape]. rewrite Hb. split; [lia|done].
      * change (byte_val (byte_of (v mod 128 + 128)) mod 128 + 128 * leb_val (b :: t) = v).
        rewrite Hb, Hval. replace (v mod 128 + 128) with (v mod 128 + 1 * 128) by lia.
        rewrite Z.mod_add, Z.mod_mod by lia. pose proof (Z.div_mod v 128). lia.
      * simpl in *. lia.
      * simpl in *. lia.
Qed.

Lemma uleb_ok v :
  in_u 64 v -> leb_shape (uleb v) /\ leb_val (uleb v) = v /\ 0 < len (uleb v) <= 10.
Proof.
  unfold in_u. intros Hv. destruct (uleb_encode_ok 9 v) as (? & ? & ?); [simpl; lia|].
  unfold uleb, len. split_and!; [done|done|lia|lia].
Qed.

(** A value that fits [n] signed digits takes at most [n] bytes. *)
Lemma sleb_encode_ok fuel v n :
  - 2 ^ (7 * Z.of_nat (S n) - 1) <= v < 2 ^ (7 * Z.of_nat (S n) - 1) -> (n < fuel)%nat ->
  let bs := sleb_encode fuel v in
  leb_shape bs /\ leb_val bs = v mod 2 ^ (7 * len bs) /\ (0 < length bs <= S n)%nat /\
  - 2 ^ (7 * len bs - 1) <= v < 2 ^ (7 * len bs - 1).
Proof.
  revert v n. induction fuel as [|fuel IH]; intros v n Hv Hn; [lia|]. cbn [sleb_encode].
  pose proof (Z.mod_pos_bound v 128 ltac:(lia)) as Hm.
  destruct (Z.leb_spec (-64) v), (Z.ltb_spec v 64); cbn [andb].
  1: { change (len [byte_of (v mod 128)]) with 1. cbn [leb_shape leb_val length].
    rewrite byte_val_of, (Z.mod_small (v mod 128) 256), Z.mod_mod by lia.
    change (2 ^ (7 * 1)) with 128. change (2 ^ (7 * 1 - 1)) with 64. lia. }
  all: destruct n as [|n]; [change (2 ^ (7 * Z.of_nat 1 - 1)) with 64 in Hv; lia|].
  all: destruct (IH (v / 128) n) as (Hs & Hval & Hl & Hr); [|lia|].
  all: try (rewrite !(Nat2Z.inj_succ (S n)) in Hv;
    replace (7 * Z.succ (Z.of_nat (S n)) - 1) with (7 + (7 * Z.of_nat (S n) - 1)) in Hv by lia;
    rewrite Z.pow_add_r in Hv by lia; change (2 ^ 7) with 128 in Hv;
    split; [apply Z.div_le_lower_bound; lia|apply Z.div_lt_upper_bound; lia]).
  all: assert (byte_val (byte_of (v mod 128 + 128)) = v mod 128 + 128) as Hb
        by (rewrite byte_val_of, Z.mod_small; lia).
  all: destruct (sleb_encode fuel (v / 128)) as [|b t] eqn:E; [done|].
  all: assert (7 * len (byte_of (v mod 128 + 128) :: b :: t) = 7 + 7 * len (b :: t)) as ->
      by (unfold len; simpl length; lia).
  all: assert (0 < 7 * len (b :: t)) by (unfold len; simpl length; lia).
  all: replace (7 + 7 * len (b :: t) - 1) with (7 + (7 * len (b :: t) - 1)) by lia.
  all: rewrite !Z.pow_add_r by lia; change (2 ^ 7) with 128.
  all: split_and!; [cbn [leb_shape]; rewrite Hb; split; [lia|done]| |simpl in *; lia|simpl in *; lia| |].
  all: pose proof (Z.div_mod v 128 ltac:(lia)); try lia.
  all: change (byte_val (byte_of (v mod 128 + 128)) mod 128 + 128 * leb_val (b :: t)
               = v mod (128 * 2 ^ (7 * len (b :: t)))).
  all: rewrite Hb, Hval; replace (v mod 128 + 128) with (v mod 128 + 1 * 128) by lia.
  all: rewrite Z.mod_add, Z.mod_mod by lia; rewrite Z.rem_mul_r; [done|lia|apply pow2_pos; lia].
Qed.

Lemma sleb_ok v n :
  - 2 ^ (7 * Z.of_nat (S n) - 1) <= v < 2 ^ (7 * Z.of_nat (S n) - 1) -> (n < 10)%nat ->
  leb_shape (sleb v) /\ sleb_val (sleb v) = v /\ 0 < len (sleb v) <= Z.of_nat (S n).
Proof.
  intros Hv Hn. destruct (sleb_encode_ok 10 v n Hv Hn) as (Hs & Hval & Hl & Hr).
  fold (sleb v) in *. split_and!; [done| |unfold len in *; lia|unfold len in *; lia].
  unfold sleb_val. rewrite Hval. apply sgn_wrap; [unfold len in *; lia|done].
Qed.
End Encodings.

(** ** Every read is safe up to the shift count *)

(** What a reading method never changes: the memory and the base offsets. *)
Definition same_bases (d d' : DwarfMemory) : Prop :=
  memory_ d' = memory_ d /\ pc_offset_ d' = pc_offset_ d /\ data_offset_ d' = data_offset_ d /\
  func_offset_ d' = func_offset_ d /\ text_offset_ d' = text_offset_ d.

#[export] Instance same_bases_preorder : PreOrder same_bases.
Proof. split; [by intros d|]. intros d1 d2 d3 (?&?&?&?&?) (?&?&?&?&?). repeat split; congruence. Qed.

Lemma same_bases_cur o d : same_bases d (put_cur o d).
Proof. by repeat split. Qed.

#[export] Hint Resolve same_bases_cur : cpp.

(** Close the postcondition of a read that moved the cursor at most. *)
Ltac done_read :=
  split; [first [done | apply same_bases_cur | reflexivity]|split; [first [tauto | intros _; apply wrap_range; lia]|]];
  simpl in *; first [done | tauto | apply wrap_range; lia | idtac].

Definition shift_fault (f : fault) : Prop := f = Undef UbShift.

(** The result of a read that started in [d]: the cursor is an offset again, the rest of the
    object is unchanged, and a value that was read is a [uint64_t]. *)
Definition read_post (d : DwarfMemory) (r : option Z) (d' : DwarfMemory) : Prop :=
  same_bases d d' /\ (in_u 64 (cur_offset_ d) -> in_u 64 (cur_offset_ d')) /\
  from_option (in_u 64) True r.

Lemma ReadFully_len m a n bs : ReadFully m a n = Some bs -> len bs = n.
Proof. unfold ReadFully. destruct (Z.eqb_spec (len (Read m a n)) n); [|done]. by intros [= <-]. Qed.

Lemma wp_ReadUnsigned F n Q d :
  wp F (ReadUnsigned n) Q d
  = match ReadFully (memory_ d) (cur_offset_ d) n with
    | None => Q None d
    | Some bs => Q (Some (le_val bs)) (put_cur (u64 (cur_offset_ d + n)) d)
    end.
Proof. unfold ReadUnsigned. wp_simpl. by destruct (ReadFully _ _ _). Qed.

Lemma wp_ReadSigned F n Q d :
  wp F (ReadSigned n) Q d
  = match ReadFully (memory_ d) (cur_offset_ d) n with
    | None => Q None d
    | Some bs => Q (Some (u64 (sgn (8 * n) (le_val bs)))) (put_cur (u64 (cur_offset_ d + n)) d)
    end.
Proof. unfold ReadSigned. wp_simpl. by destruct (ReadFully _ _ _). Qed.

#[export] Hint Rewrite wp_ReadUnsigned wp_ReadSigned : wp.

Lemma ReadUnsigned_post F n d : 0 <= n <= 8 -> wp F (ReadUnsigned n) (read_post d) d.
Proof.
  intros Hn. wp_simpl. destruct (ReadFully _ _ _) as [bs|] eqn:E; [|done_read].
  apply ReadFully_len in E. split; [auto with cpp|]. split; [intros _; apply wrap_range; lia|].
  simpl. pose proof (le_val_range bs). fold (len bs) in H. rewrite E in H.
  apply (in_u_mono (8 * n)); [lia|done].
Qed.

Lemma ReadSigned_post F n d : wp F (ReadSigned n) (read_post d) d.
Proof.
  wp_simpl. destruct (ReadFully _ _ _) as [bs|] eqn:E; [|done_read].
  split; [auto with cpp|]. split; [intros _|]; apply wrap_range; lia.
Qed.

Lemma leb_loop_post fuel v sh d :
  0 <= sh -> 70 <= sh + 7 * (Z.of_nat fuel - 1) -> sh < 71 ->
  wp shift_fault (leb_loop fuel v sh)
    (fun r d' => same_bases d d' /\ (in_u 64 (cur_offset_ d) -> in_u 64 (cur_offset_ d')) /\
                 from_option (fun '(v', sh', b) => in_u 64 v' /\ 0 <= b < 256) True r) d.
Proof.
  revert v sh d. induction fuel as [|fuel IH]; intros v sh d Hsh Hf Hs; [lia|].
  cbn [leb_loop]. wp_simpl. destruct (ReadFully _ _ _) as [bs|] eqn:E; [|done_read].
  apply ReadFully_len in E. pose proof (le_val_range bs) as Hb. fold (len bs) in Hb. rewrite E in Hb.
  change (2 ^ (8 * 1)) with 256 in Hb.
  destruct (Z.leb_spec 64 sh); wp_simpl; [done|]. rewrite (wrap_small 64 (sh + 7)) by (unfold in_u; lia).
  destruct (Z.land (le_val bs) 0x80 =? 0); wp_simpl.
  - done_read. split; [apply wrap_range; lia|lia].
  - eapply wp_mono; [apply IH; lia|done|]. intros r d' (Hb' & Hc & Hr). split; [|split; [|done]].
    + etransitivity; [|exact Hb']. apply same_bases_cur.
    + intros _. apply Hc. simpl. apply wrap_range; lia.
Qed.

Lemma ReadULEB128_post d : wp shift_fault ReadULEB128 (read_post d) d.
Proof.
  unfold ReadULEB128. wp_simpl. eapply wp_mono; [apply (leb_loop_post leb_fuel 0 0); unfold leb_fuel; lia|done|].
  intros [[[v sh] b]|] d' (? & ? & Hr); wp_simpl; done_read.
Qed.

(** The signed value is an [int64_t]. *)
Lemma ReadSLEB128_post d :
  wp shift_fault ReadSLEB128
    (fun r d' => same_bases d d' /\ (in_u 64 (cur_offset_ d) -> in_u 64 (cur_offset_ d')) /\
                 from_option (fun v => - 2 ^ 63 <= v < 2 ^ 63) True r) d.
Proof.
  unfold ReadSLEB128. wp_simpl. eapply wp_mono; [apply (leb_loop_post leb_fuel 0 0); unfold leb_fuel; lia|done|].
  intros [[[v sh] b]|] d' (? & ? & Hr); [|done_read].
  repeat (case_goal; wp_simpl); try done; done_read; apply (sgn_range 64); lia.
Qed.

Lemma read_post_trans d d1 r1 r d2 :
  read_post d r1 d1 -> read_post d1 r d2 -> read_post d r d2.
Proof.
  intros (? & Hc1 & _) (? & Hc2 & ?). split; [by etransitivity|]. split; [auto|done].
Qed.

Lemma AdjustEncodedValue_post F e v d :
  Z.land e 0x0f = 0 -> in_u 64 v -> wp F (AdjustEncodedValue e v) (read_post d) d.
Proof.
  intros He Hv. unfold AdjustEncodedValue. rewrite He. simpl. wp_simpl.
  repeat (case_goal; wp_simpl); done_read.
Qed.

Lemma ReadEncodedData_post A e d : wp shift_fault (ReadEncodedData A e) (read_post d) d.
Proof.
  unfold ReadEncodedData. cbv zeta.
  repeat match goal with
  | |- wp _ (if ?b then _ else _) _ _ => destruct b
  | |- wp _ (ReadUnsigned _) _ _ => apply ReadUnsigned_post; destruct A; simpl; lia
  | |- wp _ (ReadSigned _) _ _ => apply ReadSigned_post
  | |- wp _ ReadULEB128 _ _ => apply ReadULEB128_post
  | |- wp _ (ret None) _ _ => done_read
  end.
  wp_simpl. eapply wp_mono; [apply ReadSLEB128_post|done|].
  intros [v|] d' (? & ? & Hr); [|done_read]. wp_simpl. split; [done|split; [done|]].
  apply wrap_range; lia.
Qed.

Lemma land_f0_70 e : Z.land (Z.land e 0x70) 0x0f = 0.
Proof. rewrite <- Z.land_assoc. apply Z.land_0_r. Qed.

Lemma ReadEncodedValue_post A e d : wp shift_fault (ReadEncodedValue A e) (read_post d) d.
Proof.
  unfold ReadEncodedValue. repeat match goal with
  | |- wp _ (if ?b then _ else _) _ _ => destruct b
  end.
  - done_read.
  - rewrite wp_bind, wp_cur_offset. cbv zeta. rewrite wp_bind, wp_set_cur_offset, wp_if.
    destruct (Z.leb_spec (2 ^ 64) (cur_offset_ d + (size_of A - 1))).
    + done_read.
    + rewrite wp_bind, wp_set_cur_offset, put_cur_cur.
      eapply wp_mono; [apply ReadUnsigned_post; destruct A; simpl; lia|done|].
      intros r d' (Hs & Hc & Hr). split; [|split; [|done]].
      * etransitivity; [|exact Hs]. apply same_bases_cur.
      * intros Hd. apply Hc. simpl. apply in_u_land; [lia| |apply wrap_range; lia].
        unfold in_u in *. destruct A; simpl in *; lia.
  - rewrite wp_obind. eapply wp_mono; [apply ReadEncodedData_post|done|].
    intros [v|] d' Hp; [|done].
    eapply wp_mono; [apply AdjustEncodedValue_post; [apply land_f0_70|apply Hp]|done|].
    intros r d'' Hp'. by eapply read_post_trans.
Qed.

(** * Properties *)

(** A [uint64_t] survives the ULEB128 round trip: over a memory that holds its canonical
    encoding at the cursor, [ReadULEB128] returns the value and leaves the cursor just after it. *)
Theorem uleb128_roundtrip bm d v (Hv : in_u 64 v) (Ha : at_bytes bm d (uleb v)) :
  ReadULEB128 d = Done (Some v, skip (len (uleb v)) d).
Proof.
  destruct (uleb_ok v Hv) as (Hs & Hval & _ & Hl).
  by rewrite (ReadULEB128_run bm d _ Hs Hl Ha), Hval, wrap_small.
Qed.

(** [ReadULEB128] decodes every LEB128 byte sequence of at most ten bytes, canonical or not, to
    the number of its base-128 digits reduced to 64 bits. *)
Theorem uleb128_decodes_digits bm d bs
  (Hs : leb_shape bs) (Hl : len bs <= 10) (Ha : at_bytes bm d bs) :
  ReadULEB128 d = Done (Some (u64 (leb_val bs)), skip (len bs) d).
Proof. by apply (ReadULEB128_run bm). Qed.

(** A signed value that fits 63 bits survives the SLEB128 round trip. *)
Theorem sleb128_roundtrip bm d v (Hv : - 2 ^ 62 <= v < 2 ^ 62) (Ha : at_bytes bm d (sleb v)) :
  ReadSLEB128 d = Done (Some v, skip (len (sleb v)) d).
Proof.
  destruct (sleb_ok v 8) as (Hs & Hval & _ & Hl); [done|lia|].
  rewrite (ReadSLEB128_run bm d _ Hs); [by rewrite Hval|lia|done].
Qed.

(** The limit of [sleb128_roundtrip] is sharp below: for the remaining negative [int64_t] values the canonical
    encoding has ten bytes, and the sign extension of [ReadSLEB128] shifts a 64-bit value by 70,
    which C++ leaves undefined. *)
Theorem sleb128_ten_bytes_undefined bm d v
  (Hv : - 2 ^ 63 <= v < - 2 ^ 62) (Ha : at_bytes bm d (sleb v)) :
  ReadSLEB128 d = Fault (Undef UbShift).
Proof.
  destruct (sleb_encode_ok 10 v 9) as (Hs & Hval & Hl & Hr); [lia|lia|]. fold (sleb v) in *.
  assert (len (sleb v) = 10) as Hlen.
  { unfold len in *. destruct (decide (length (sleb v) = 10%nat)) as [->|]; [done|]. exfalso.
    pose proof (Z.pow_le_mono_r 2 (7 * Z.of_nat (length (sleb v)) - 1) 62 ltac:(lia) ltac:(lia)). lia. }
  eapply (ReadSLEB128_undef bm); [done|done| |done].
  pose proof (leb_val_sign _ Hs) as Hsign. rewrite Hval, Hlen in Hsign.
  assert (v mod 2 ^ (7 * 10) = v + 2 ^ 70) as Hm.
  { rewrite <- (Z.mod_add v 1) by lia. rewrite Z.mod_small; lia. }
  rewrite Hm, (proj2 (Z.ltb_ge _ (2 ^ (7 * 10 - 1)))) in Hsign by lia.
  apply Z.ltb_ge in Hsign. pose proof (byte_val_range (List.last (sleb v) x00)).
  pose proof (Z.mod_le (byte_val (List.last (sleb v) x00)) 128). lia.
Qed.

(** [ReadEncodedValue] is safe for every encoding byte, memory and cursor: it never fails the
    [CHECK] of [AdjustEncodedValue] and its loops end; the one possible fault is the LEB128 shift
    count. It changes nothing but the cursor, and a value it returns is a [uint64_t]. *)
Theorem read_encoded_value_safe A e d :
  wp (fun f => f = Undef UbShift) (ReadEncodedValue A e)
    (fun r d' => same_bases d d' /\ (in_u 64 (cur_offset_ d) -> in_u 64 (cur_offset_ d')) /\
                 from_option (in_u 64) True r) d.
Proof. exact (ReadEncodedValue_post A e d). Qed.

(** Fixed-size formats move the cursor by their size. *)
Lemma ReadEncodedData_fixed A e d v d' :
  GetEncodedSize A e <> 0 -> ReadEncodedData A e d = Done (Some v, d') ->
  d' = skip (GetEncodedSize A e) d.
Proof.
  unfold GetEncodedSize, ReadEncodedData. cbv zeta.
  assert (forall n v' e', ReadUnsigned n e' = Done (Some v', d') -> d' = skip n e') as HU.
  { intros n v' e'. unfold ReadUnsigned, ReadBytes, obind, bind, get, ret.
    destruct (ReadFully _ _ _); [|done]. by intros [= _ <-]. }
  assert (forall n v' e', ReadSigned n e' = Done (Some v', d') -> d' = skip n e') as HS.
  { intros n v' e'. unfold ReadSigned, ReadBytes, obind, bind, get, ret.
    destruct (ReadFully _ _ _); [|done]. by intros [= _ <-]. }
  generalize (Z.land e 15). intros x.
  unfold DW_EH_PE_absptr, DW_EH_PE_uleb128, DW_EH_PE_sleb128, DW_EH_PE_udata1, DW_EH_PE_sdata1,
    DW_EH_PE_udata2, DW_EH_PE_sdata2, DW_EH_PE_udata4, DW_EH_PE_sdata4, DW_EH_PE_udata8,
    DW_EH_PE_sdata8.
  repeat match goal with
  | |- context [x =? ?b] => destruct (Z.eqb_spec x b) as [->|]; cbn [orb Z.eqb Pos.eqb]
  end; (done || eauto).
Qed.

(** For the encodings with a fixed size, a successful [ReadEncodedValue] consumes exactly
    [GetEncodedSize] bytes: the index arithmetic of the binary search table relies on it. *)
Theorem read_encoded_value_size A e d v d'
  (He : e <> DW_EH_PE_omit) (Hal : e <> DW_EH_PE_aligned) (Hsz : GetEncodedSize A e <> 0)
  (Hr : ReadEncodedValue A e d = Done (Some v, d')) :
  d' = skip (GetEncodedSize A e) d.
Proof.
  revert Hr. unfold ReadEncodedValue. rewrite (proj2 (Z.eqb_neq _ _) He), (proj2 (Z.eqb_neq _ _) Hal).
  unfold obind, bind. destruct (ReadEncodedData A e d) as [[[w|] d1]|] eqn:E; try done.
  apply ReadEncodedData_fixed in E; [|done]. subst d1. unfold AdjustEncodedValue.
  rewrite land_f0_70. simpl. unfold bind, get, ret.
  repeat case_match; congruence.
Qed.

(** * Witnesses *)

(** A cursor at the start of a buffer. *)
Definition buffer_dm (bs : list byte) : DwarfMemory :=
  new_DwarfMemory (MemoryBuffer.memory (MemoryBuffer.mk bs)).

Lemma holds_buffer bs : holds (buffer_bytes bs) 0 bs.
Proof.
  unfold holds. rewrite <- take_drop_buffer by lia. change (Z.to_nat 0) with 0%nat.
  by rewrite drop_0, firstn_all.
Qed.

Lemma buffer_at_bytes bs : len bs <= 2 ^ 64 -> at_bytes (buffer_bytes bs) (buffer_dm bs) bs.
Proof.
  intros Hl. split; [by apply (MemoryBuffer_bytes (MemoryBuffer.mk bs))|].
  split; [simpl; unfold in_u; lia|]. apply holds_buffer.
Qed.

Lemma uleb128_roundtrip_witness :
  ReadULEB128 (buffer_dm (uleb 624485)) = Done (Some 624485, skip 3 (buffer_dm (uleb 624485))).
Proof.
  apply (uleb128_roundtrip (buffer_bytes (uleb 624485))).
  - unfold in_u; lia.
  - apply buffer_at_bytes. vm_compute. discriminate.
Defined.

Lemma uleb128_decodes_digits_witness :
  ReadULEB128 (buffer_dm [x82; x80; x00]) = Done (Some 2, skip 3 (buffer_dm [x82; x80; x00])).
Proof.
  apply (uleb128_decodes_digits (buffer_bytes [x82; x80; x00]) _ [x82; x80; x00]).
  - vm_compute. repeat split; discriminate.
  - vm_compute. discriminate.
  - apply buffer_at_bytes. vm_compute. discriminate.
Defined.

Lemma sleb128_roundtrip_witness :
  ReadSLEB128 (buffer_dm (sleb (-123456)))
  = Done (Some (-123456), skip 3 (buffer_dm (sleb (-123456)))).
Proof.
  apply (sleb128_roundtrip (buffer_bytes (sleb (-123456)))).
  - lia.
  - apply buffer_at_bytes. vm_compute. discriminate.
Defined.

Lemma sleb128_ten_bytes_undefined_witness :
  ReadSLEB128 (buffer_dm (sleb (- 2 ^ 63))) = Fault (Undef UbShift).
Proof.
  apply (sleb128_ten_bytes_undefined (buffer_bytes (sleb (- 2 ^ 63))) _ (- 2 ^ 63)).
  - lia.
  - apply buffer_at_bytes. vm_compute. discriminate.
Defined.

Lemma read_encoded_value_size_witness :
  let d := put_data 4096 (buffer_dm [xfe; xff; xff; xff]) in
  skip 4 d = skip (GetEncodedSize U64 0x3b) d.
Proof.
  intros d. apply (read_encoded_value_size U64 0x3b d 4094 (skip 4 d)).
  - discriminate.
  - discriminate.
  - discriminate.
  - vm_compute. reflexivity.
Defined.
