(* ===== verification/DwarfEncode.v ===== *)
(** Encoding of DWARF operands, and the lemma that [ReadEncodedValue] reads back what was encoded:
    shared by the expression ([DwarfOp.cpp]) and the call frame ([DwarfCfa.cpp]) instructions. *)
From Stdlib Require Import ZArith Lia Bool Strings.Byte.
From stdpp Require Import base numbers list gmap.
From S2P Require Import Prelude Memory DwarfMemory.
#[local] Open Scope Z_scope.

(** * Encoding *)

Section Encoding.
Context (A : addr_type).

(** The bytes of one operand in the encoding [e] of the table. *)
Definition encode_operand (e v : Z) : list byte :=
  if e =? DW_EH_PE_absptr then le_bytes (Z.to_nat (size_of A)) v
  else if (e =? DW_EH_PE_udata1) || (e =? DW_EH_PE_sdata1) then le_bytes 1 v
  else if (e =? DW_EH_PE_udata2) || (e =? DW_EH_PE_sdata2) then le_bytes 2 v
  else if (e =? DW_EH_PE_udata4) || (e =? DW_EH_PE_sdata4) then le_bytes 4 v
  else if (e =? DW_EH_PE_udata8) || (e =? DW_EH_PE_sdata8) then le_bytes 8 v
  else if e =? DW_EH_PE_uleb128 then uleb v
  else sleb v.

Definition in_s (w x : Z) : Prop := - 2 ^ (w - 1) <= x < 2 ^ (w - 1).

(** The values an encoding can represent. *)
Definition operand_ok (e v : Z) : Prop :=
  if e =? DW_EH_PE_absptr then in_u (bits A) v
  else if e =? DW_EH_PE_udata1 then in_u 8 v
  else if e =? DW_EH_PE_sdata1 then in_s 8 v
  else if e =? DW_EH_PE_udata2 then in_u 16 v
  else if e =? DW_EH_PE_sdata2 then in_s 16 v
  else if e =? DW_EH_PE_udata4 then in_u 32 v
  else if e =? DW_EH_PE_sdata4 then in_s 32 v
  else if e =? DW_EH_PE_udata8 then in_u 64 v
  else if e =? DW_EH_PE_sdata8 then in_s 64 v
  else if e =? DW_EH_PE_uleb128 then in_u 64 v
  else if e =? DW_EH_PE_sleb128 then in_s 63 v
  else False.
End Encoding.

(** * Reading back *)

Section Decoding.
Context (A : addr_type) (bm : Z -> option byte).
Implicit Types (d : DwarfMemory).

Lemma len_cons b (l : list byte) : len (b :: l) = 1 + len l.
Proof. unfold len. simpl length. lia. Qed.

Lemma at_bytes_split d bs1 bs2 :
  at_bytes bm d (bs1 ++ bs2) -> at_bytes bm d bs1 /\ at_bytes bm (skip (len bs1) d) bs2.
Proof.
  intros H. pose proof (at_bytes_app bm _ _ _ H) as [H1 H2]. split; [done|].
  destruct bs2; [|by apply H2]. destruct H as (Hm & _). split; [done|]. split; [|done].
  simpl. apply wrap_range. lia.
Qed.

Lemma skip_0 d : in_u 64 (cur_offset_ d) -> skip 0 d = d.
Proof. intros. unfold skip. rewrite Z.add_0_r, wrap_small by done. apply put_cur_id. Qed.

Lemma len_le_bytes n v : len (le_bytes n v) = Z.of_nat n.
Proof. unfold len. by rewrite le_bytes_length. Qed.

Lemma in_s_63_64 v : in_s 63 v -> in_s 64 v.
Proof. unfold in_s. simpl. lia. Qed.

(** Reading back an integer of [n] bytes, unsigned and signed. *)
Lemma ReadUnsigned_le d n v :
  in_u (8 * Z.of_nat n) v -> (n <= 8)%nat -> at_bytes bm d (le_bytes n v) ->
  ReadUnsigned (Z.of_nat n) d = Done (Some (u64 v), skip (Z.of_nat n) d).
Proof.
  intros Hv Hn Ha. pose proof (ReadUnsigned_run bm _ _ Ha) as Hr.
  rewrite len_le_bytes, le_val_bytes in Hr. rewrite Hr.
  change (v mod _) with (wrap (8 * Z.of_nat n) v). rewrite !wrap_small; [done| |done].
  apply (in_u_mono (8 * Z.of_nat n)); [lia|done].
Qed.

Lemma ReadSigned_le d n v :
  in_s (8 * Z.of_nat n) v -> (0 < n)%nat -> at_bytes bm d (le_bytes n v) ->
  ReadSigned (Z.of_nat n) d = Done (Some (u64 v), skip (Z.of_nat n) d).
Proof.
  intros Hv Hn Ha. pose proof (ReadSigned_run bm _ _ Ha) as Hr.
  rewrite len_le_bytes, le_val_bytes in Hr. rewrite Hr.
  change (v mod _) with (wrap (8 * Z.of_nat n) v). rewrite sgn_wrap; [done|lia|done].
Qed.

Lemma ReadULEB128_u d v :
  in_u 64 v -> at_bytes bm d (uleb v) -> ReadULEB128 d = Done (Some (u64 v), skip (len (uleb v)) d).
Proof.
  intros Hv Ha. destruct (uleb_ok v Hv) as (Hs & Hval & _ & Hl).
  by rewrite (ReadULEB128_run bm d _ Hs Hl Ha), Hval.
Qed.

Lemma ReadSLEB128_s d v :
  in_s 63 v -> at_bytes bm d (sleb v) -> ReadSLEB128 d = Done (Some v, skip (len (sleb v)) d).
Proof.
  intros Hv Ha. destruct (sleb_ok v 8) as (Hs & Hval & _ & Hl); [exact Hv|lia|].
  rewrite (ReadSLEB128_run bm d _ Hs); [by rewrite Hval|lia|done].
Qed.

(** An encoding without a base: the value is what was read. *)
Lemma ReadEncodedValue_plain e d v d' :
  (e =? DW_EH_PE_omit) || (e =? DW_EH_PE_aligned) = false -> Z.land e 0x70 = 0 ->
  ReadEncodedData A e d = Done (Some v, d') -> ReadEncodedValue A e d = Done (Some v, d').
Proof.
  intros [He1 He2]%orb_false_iff Hl Hr. unfold ReadEncodedValue. rewrite He1, He2.
  by rewrite (obind_run _ _ _ _ _ Hr), Hl.
Qed.

(** The format of an operand is the low half of its encoding. *)
Lemma ReadEncodedData_run e v d :
  operand_ok A e v -> at_bytes bm d (encode_operand A e v) ->
  ReadEncodedData A e d = Done (Some (u64 v), skip (len (encode_operand A e v)) d).
Proof.
  unfold operand_ok.
  repeat match goal with
  | |- context [if e =? ?c then _ else _] => destruct (Z.eqb_spec e c) as [->|_]
  end; intros Hv Ha; try done.
  - change (encode_operand A _ v) with (le_bytes (Z.to_nat (size_of A)) v) in *. rewrite len_le_bytes.
    change (ReadEncodedData A _ d) with (ReadUnsigned (size_of A) d).
    replace (size_of A) with (Z.of_nat (Z.to_nat (size_of A))) at 1 by (destruct A; done).
    apply ReadUnsigned_le; [destruct A; done|destruct A; simpl; lia|done].
  - exact (ReadUnsigned_le d 1 v Hv ltac:(lia) Ha).
  - exact (ReadSigned_le d 1 v Hv ltac:(lia) Ha).
  - exact (ReadUnsigned_le d 2 v Hv ltac:(lia) Ha).
  - exact (ReadSigned_le d 2 v Hv ltac:(lia) Ha).
  - exact (ReadUnsigned_le d 4 v Hv ltac:(lia) Ha).
  - exact (ReadSigned_le d 4 v Hv ltac:(lia) Ha).
  - exact (ReadUnsigned_le d 8 v Hv ltac:(lia) Ha).
  - exact (ReadSigned_le d 8 v Hv ltac:(lia) Ha).
  - exact (ReadULEB128_u d v Hv Ha).
  - change (ReadEncodedData A DW_EH_PE_sleb128 d)
      with (obind ReadSLEB128 (fun w => ret (Some (u64 w))) d).
    by rewrite (obind_run _ _ _ _ _ (ReadSLEB128_s d v Hv Ha)).
Qed.

(** The formats are encodings without a base. *)
Lemma operand_ok_plain e v :
  operand_ok A e v -> (e =? DW_EH_PE_omit) || (e =? DW_EH_PE_aligned) = false /\ Z.land e 0x70 = 0.
Proof.
  unfold operand_ok.
  repeat match goal with
  | |- context [if e =? ?c then _ else _] => destruct (Z.eqb_spec e c) as [->|_]
  end; done.
Qed.

Lemma ReadEncodedValue_run e v d :
  operand_ok A e v -> at_bytes bm d (encode_operand A e v) ->
  ReadEncodedValue A e d = Done (Some (u64 v), skip (len (encode_operand A e v)) d).
Proof.
  intros Hv Ha. destruct (operand_ok_plain e v Hv) as [H1 H2].
  apply ReadEncodedValue_plain; [done|done|]. by apply ReadEncodedData_run.
Qed.

(** An encoding with a base: the value is relative to it. *)
Definition base_of (e : Z) (d : DwarfMemory) : Z :=
  let b := Z.land e 0x70 in
  if b =? DW_EH_PE_absptr then 0
  else if b =? DW_EH_PE_pcrel then pc_offset_ d
  else if b =? DW_EH_PE_textrel then text_offset_ d
  else if b =? DW_EH_PE_datarel then data_offset_ d
  else if b =? DW_EH_PE_funcrel then func_offset_ d
  else UINT64_MAX.

Lemma ReadEncodedValue_based e v d :
  e <> DW_EH_PE_omit -> e <> DW_EH_PE_aligned -> base_of e d <> UINT64_MAX ->
  operand_ok A (Z.land e 0x0f) v -> at_bytes bm d (encode_operand A (Z.land e 0x0f) v) ->
  ReadEncodedValue A e d
  = Done (Some (u64 (v + base_of e d)), skip (len (encode_operand A (Z.land e 0x0f) v)) d).
Proof.
  intros He1 He2 Hb Hv Ha. unfold ReadEncodedValue.
  rewrite (proj2 (Z.eqb_neq _ _) He1), (proj2 (Z.eqb_neq _ _) He2).
  assert (ReadEncodedData A e = ReadEncodedData A (Z.land e 0x0f)) as ->.
  { unfold ReadEncodedData. rewrite <- Z.land_assoc. change (Z.land 15 15) with 15. done. }
  rewrite (obind_run _ _ _ _ _ (ReadEncodedData_run _ _ _ Hv Ha)).
  unfold AdjustEncodedValue. rewrite land_f0_70. cbn [negb Z.eqb]. unfold bind, get. cbv zeta.
  set (b := Z.land e 0x70) in *. unfold base_of in *. fold b in Hb |- *. cbv zeta in Hb |- *.
  repeat match goal with
  | |- context [if b =? ?c then _ else _] => destruct (b =? c)
  end; cbn [pc_offset_ text_offset_ data_offset_ func_offset_ skip put_cur]; try done;
  rewrite ?(proj2 (Z.eqb_neq _ _) Hb), ?Z.add_0_r, ?wrap_add_l by lia; done.
Qed.

(** The encodings of a fixed size. *)
Lemma encode_operand_size e v :
  GetEncodedSize A e <> 0 -> len (encode_operand A (Z.land e 0x0f) v) = GetEncodedSize A e.
Proof.
  unfold GetEncodedSize, encode_operand. cbv zeta. generalize (Z.land e 0x0f). intros x Hsz. revert Hsz.
  repeat match goal with
  | |- context [if x =? ?c then _ else _] => destruct (x =? c)
  | |- context [if ?a || ?b then _ else _] => destruct (a || b)
  end; rewrite ?len_le_bytes; try done. destruct A; done.
Qed.
End Decoding.
