(* ===== verification/DwarfStructs.v ===== *)
(** [DwarfStructs.h], [DwarfLocation.h], [DwarfError.h]: the data that the DWARF components
    exchange. *)
From Stdlib Require Import ZArith Lia Bool Strings.Byte.
From stdpp Require Import base numbers list gmap.
From S2P Require Import Prelude.
#[local] Open Scope Z_scope.

(** * Errors *)

Inductive DwarfErrorCode : Set :=
| DWARF_ERROR_NONE
| DWARF_ERROR_MEMORY_INVALID
| DWARF_ERROR_ILLEGAL_VALUE
| DWARF_ERROR_ILLEGAL_STATE
| DWARF_ERROR_STACK_INDEX_NOT_VALID
| DWARF_ERROR_NOT_IMPLEMENTED
| DWARF_ERROR_TOO_MANY_ITERATIONS
| DWARF_ERROR_CFA_NOT_DEFINED
| DWARF_ERROR_UNSUPPORTED_VERSION
| DWARF_ERROR_NO_FDES.

#[export] Instance DwarfErrorCode_eq_dec : EqDecision DwarfErrorCode.
Proof. solve_decision. Defined.

Record DwarfErrorData := mkError { code : DwarfErrorCode; address : Z }.

Definition no_error : DwarfErrorData := mkError DWARF_ERROR_NONE 0.

(** Assigning only the code keeps the address of an earlier error. *)
Definition with_code (c : DwarfErrorCode) (e : DwarfErrorData) : DwarfErrorData :=
  mkError c (address e).

(** * Register locations *)

Inductive DwarfLocationEnum : Set :=
| DWARF_LOCATION_INVALID
| DWARF_LOCATION_UNDEFINED
| DWARF_LOCATION_OFFSET
| DWARF_LOCATION_VAL_OFFSET
| DWARF_LOCATION_REGISTER
| DWARF_LOCATION_EXPRESSION
| DWARF_LOCATION_VAL_EXPRESSION.

#[export] Instance DwarfLocationEnum_eq_dec : EqDecision DwarfLocationEnum.
Proof. solve_decision. Defined.

(** [values] holds two [uint64_t]; aggregate initialization zeroes what it does not name. *)
Record DwarfLocation := mkLoc { loc_type : DwarfLocationEnum; value0 : Z; value1 : Z }.

#[export] Instance DwarfLocation_eq_dec : EqDecision DwarfLocation.
Proof. solve_decision. Defined.

(** [dwarf_loc_regs_t]: an unordered map from [uint32_t] register numbers, with the range of PCs
    for which it is valid. The [cie] pointer is the key of the entry in [cie_entries_]. *)
Record DwarfLocations := mkLocs {
  locs : gmap Z DwarfLocation;
  locs_cie : option Z;
  locs_pc_start : Z;
  locs_pc_end : Z
}.

Definition empty_locs : DwarfLocations := mkLocs ∅ None 0 0.

Definition put_locs (m : gmap Z DwarfLocation) (l : DwarfLocations) : DwarfLocations :=
  mkLocs m (locs_cie l) (locs_pc_start l) (locs_pc_end l).
Definition put_locs_cie (c : option Z) (l : DwarfLocations) : DwarfLocations :=
  mkLocs (locs l) c (locs_pc_start l) (locs_pc_end l).
Definition put_pc_start (p : Z) (l : DwarfLocations) : DwarfLocations :=
  mkLocs (locs l) (locs_cie l) p (locs_pc_end l).
Definition put_pc_end (p : Z) (l : DwarfLocations) : DwarfLocations :=
  mkLocs (locs l) (locs_cie l) (locs_pc_start l) p.

(** * Common information entries and frame description entries *)

Record DwarfCie := mkCie {
  version : Z;
  fde_address_encoding : Z;
  lsda_encoding : Z;
  segment_size : Z;
  augmentation_string : list Z;
  personality_handler : Z;
  cie_cfa_instructions_offset : Z;
  cie_cfa_instructions_end : Z;
  code_alignment_factor : Z;
  data_alignment_factor : Z;
  return_address_register : Z
}.

Definition new_cie : DwarfCie := mkCie 0 0 0 0 [] 0 0 0 0 0 0.

(** [cie] points into [cie_entries_]: the key of the entry, when set. *)
Record DwarfFde := mkFde {
  cie_offset : Z;
  cfa_instructions_offset : Z;
  cfa_instructions_end : Z;
  pc_start : Z;
  pc_end : Z;
  lsda_address : Z;
  fde_cie : option Z
}.

Definition new_fde : DwarfFde := mkFde 0 0 0 0 0 0 None.

Definition CFA_REG : Z := 0xffff.
