(* ===== verification/Regs.v ===== *)
(** [Regs.h] and [RegsInfo.h]: the register set of a thread, and the view of it that keeps the
    values from before an unwind step while the step overwrites them. *)
From Stdlib Require Import ZArith Lia Bool.
From stdpp Require Import base numbers list gmap.
From S2P Require Import Prelude.
#[local] Open Scope Z_scope.

(** * [Regs] and [RegsImpl<AddressType>] *)

(** [pc_reg] and [sp_reg] are the indices the architecture's [pc]/[set_pc] and [sp]/[set_sp]
    overrides use. *)
Record Regs := mkRegs {
  total_regs_ : Z;
  regs_ : list Z;
  dex_pc_ : Z;
  pc_reg : Z;
  sp_reg : Z
}.

Definition total_regs (r : Regs) : Z := total_regs_ r.

(** [regs_[i]]: out of range is undefined. *)
Definition reg_at (i : Z) (r : Regs) : option Z :=
  if 0 <=? i then regs_ r !! Z.to_nat i else None.

Definition put_reg (i v : Z) (r : Regs) : Regs :=
  mkRegs (total_regs_ r) (<[Z.to_nat i := v]> (regs_ r)) (dex_pc_ r) (pc_reg r) (sp_reg r).

Definition set_dex_pc (v : Z) (r : Regs) : Regs :=
  mkRegs (total_regs_ r) (regs_ r) v (pc_reg r) (sp_reg r).

Definition read_reg {S} (i : Z) (r : Regs) : M S Z := some_or (Undef UbRegIndex) (reg_at i r).

(** The constructor [RegsImpl(total_regs, return_loc)]: zero-initialized registers. *)
Definition new_regs (total pc sp : Z) : Regs :=
  mkRegs total (replicate (Z.to_nat total) 0) 0 pc sp.

(** * [RegsInfo<AddressType>] *)

Definition MAX_REGISTERS : Z := 64.

(** [saved_regs] is an uninitialized array. *)
Record RegsInfo := mkRegsInfo {
  info_regs : Regs;
  saved_reg_map : Z;
  saved_regs : list (option Z)
}.

Definition new_regs_info (r : Regs) : RegsInfo := mkRegsInfo r 0 (replicate 64 None).

Definition put_info_regs (r : Regs) (i : RegsInfo) : RegsInfo :=
  mkRegsInfo r (saved_reg_map i) (saved_regs i).

Definition IsSaved (reg : Z) : M RegsInfo bool :=
  if MAX_REGISTERS <? reg then fail Aborted
  else if 64 <=? reg then fail (Undef UbShift)
  else gets (fun i => negb (Z.land (saved_reg_map i) (Z.shiftl 1 reg) =? 0)).

Definition Get (reg : Z) : M RegsInfo Z :=
  saved <- IsSaved reg ;;
  i <- get ;;
  if (saved : bool) then
    o <- some_or (Undef UbRegIndex) (saved_regs i !! Z.to_nat reg) ;;
    some_or (Undef UbUninit) o
  else read_reg reg (info_regs i).

(** The returned pointer [&( *regs)[reg]] is the register itself. *)
Definition Save (reg : Z) : M RegsInfo unit :=
  if MAX_REGISTERS <=? reg then fail Aborted
  else
    i <- get ;;
    v <- read_reg reg (info_regs i) ;;
    modify (fun i => mkRegsInfo (info_regs i) (Z.lor (saved_reg_map i) (Z.shiftl 1 reg))
                       (<[Z.to_nat reg := Some v]> (saved_regs i))).

Definition Total (i : RegsInfo) : Z := total_regs (info_regs i).

(** * Invariants *)

(** A register set as every constructor builds it: all registers present, at most 64 of them, of
    the width of the architecture, with valid PC and SP indices. *)
Definition regs_wf (A : addr_type) (r : Regs) : Prop :=
  total_regs_ r = Z.of_nat (length (regs_ r)) /\ total_regs_ r <= 64 /\
  Forall (in_u (bits A)) (regs_ r) /\
  0 <= pc_reg r < total_regs_ r /\ 0 <= sp_reg r < total_regs_ r.

#[export] Instance regs_wf_dec A r : Decision (regs_wf A r).
Proof. unfold regs_wf. apply _. Defined.

(** [info] still shows the register values [orig]: what [Get] returns does not depend on which
    registers were saved and overwritten. *)
Definition info_shows (orig : list Z) (i : RegsInfo) : Prop :=
  total_regs_ (info_regs i) = Z.of_nat (length orig) /\ Z.of_nat (length orig) <= 64 /\
  length (regs_ (info_regs i)) = length orig /\ length (saved_regs i) = 64%nat /\
  0 <= saved_reg_map i /\
  forall (k : nat) v, orig !! k = Some v ->
    if Z.testbit (saved_reg_map i) (Z.of_nat k) then saved_regs i !! k = Some (Some v)
    else regs_ (info_regs i) !! k = Some v.

Section Lemmas.
Implicit Types (i : RegsInfo) (orig : list Z).

Lemma land_bit x n : 0 <= n -> (Z.land x (Z.shiftl 1 n) =? 0) = negb (Z.testbit x n).
Proof.
  intros Hn. destruct (Z.testbit x n) eqn:E; simpl.
  - apply Z.eqb_neq. intros H0. apply (f_equal (fun z => Z.testbit z n)) in H0.
    rewrite Z.land_spec, E, Z.shiftl_spec, Z.sub_diag in H0 by done. by rewrite Z.bits_0 in H0.
  - apply Z.eqb_eq, Z.bits_inj'. intros k Hk. rewrite Z.land_spec, Z.bits_0, Z.shiftl_spec by done.
    destruct (Z.eq_dec k n) as [->|]; [by rewrite E|].
    change 1 with (2 ^ 0). rewrite Z.pow2_bits_false by lia. apply andb_false_r.
Qed.

Lemma wp_IsSaved F reg Q i :
  0 <= reg < 64 -> wp F (IsSaved reg) Q i = Q (Z.testbit (saved_reg_map i) reg) i.
Proof.
  intros Hr. unfold IsSaved, MAX_REGISTERS. rewrite (proj2 (Z.ltb_ge _ _)), (proj2 (Z.leb_gt _ _)) by lia.
  rewrite wp_gets, land_bit by lia. by rewrite negb_involutive.
Qed.

(** [Get] shows the original value of every register. *)
Lemma Get_shows F orig reg v i Q :
  info_shows orig i -> 0 <= reg -> orig !! Z.to_nat reg = Some v -> Q v i -> wp F (Get reg) Q i.
Proof.
  intros (Ht & Hm & Hl & Hs & _ & H) Hr Hv HQ. pose proof (lookup_lt_Some _ _ _ Hv).
  unfold Get. rewrite wp_bind, wp_IsSaved by lia. specialize (H _ _ Hv).
  rewrite Z2Nat.id in H by lia. wp_simpl. destruct (Z.testbit (saved_reg_map i) reg); wp_simpl.
  - by rewrite H.
  - unfold read_reg, reg_at. wp_simpl. by rewrite (proj2 (Z.leb_le 0 reg)), H by lia.
Qed.

(** [Save] keeps the view, and so does overwriting a saved register. *)
Lemma Save_shows F orig reg i Q :
  info_shows orig i -> 0 <= reg < Z.of_nat (length orig) ->
  Z.testbit (saved_reg_map i) reg = false ->
  (forall i', info_shows orig i' -> info_regs i' = info_regs i ->
     (forall k, 0 <= k -> Z.testbit (saved_reg_map i') k = Z.testbit (saved_reg_map i) k || (k =? reg)) ->
     Q tt i') ->
  wp F (Save reg) Q i.
Proof.
  intros (Ht & Hm & Hl & Hs & Hmap & H) Hr Hns HQ. unfold Save, MAX_REGISTERS.
  rewrite (proj2 (Z.leb_gt _ _)) by lia. unfold read_reg, reg_at. wp_simpl.
  rewrite (proj2 (Z.leb_le 0 reg)) by lia.
  destruct (lookup_lt_is_Some_2 orig (Z.to_nat reg) ltac:(lia)) as [v Hv].
  pose proof (H _ _ Hv) as Hreg. rewrite Z2Nat.id, Hns in Hreg by lia. rewrite Hreg.
  assert (forall k, 0 <= k -> Z.testbit (Z.lor (saved_reg_map i) (Z.shiftl 1 reg)) k
          = Z.testbit (saved_reg_map i) k || (k =? reg)) as Hbit.
  { intros k Hk. rewrite Z.lor_spec, Z.shiftl_spec by lia. f_equal. change 1 with (2 ^ 0).
    destruct (Z.eqb_spec k reg) as [->|]; [by rewrite Z.sub_diag|].
    rewrite Z.pow2_bits_false by lia. done. }
  apply HQ; [|done|exact Hbit]. repeat split; try done; simpl.
  - by rewrite length_insert.
  - rewrite Z.lor_nonneg, Z.shiftl_nonneg. lia.
  - intros k w Hw. rewrite Hbit by lia. specialize (H _ _ Hw).
    destruct (Z.eqb_spec (Z.of_nat k) reg) as [<-|].
    + rewrite orb_true_r, Nat2Z.id. rewrite Nat2Z.id in Hv. rewrite list_lookup_insert_eq by lia.
      congruence.
    + rewrite orb_false_r. destruct (Z.testbit _ _); [|done]. rewrite list_lookup_insert_ne by lia. done.
Qed.

Lemma put_reg_shows orig reg v i :
  info_shows orig i -> 0 <= reg -> Z.testbit (saved_reg_map i) reg = true ->
  info_shows orig (put_info_regs (put_reg reg v (info_regs i)) i).
Proof.
  intros (Ht & Hm & Hl & Hs & Hmap & H) Hr Hsv. repeat split; try done; simpl.
  - by rewrite length_insert.
  - intros k w Hw. specialize (H _ _ Hw). destruct (Z.testbit _ (Z.of_nat k)) eqn:E; [done|].
    rewrite list_lookup_insert_ne; [done|]. intros <-. rewrite Z2Nat.id in E by lia. congruence.
Qed.

Lemma new_regs_info_shows A r : regs_wf A r -> info_shows (regs_ r) (new_regs_info r).
Proof.
  intros (Ht & Hm & Hf & _). repeat split; try done; simpl; [lia|]. intros k v Hv.
  by rewrite Z.bits_0.
Qed.
End Lemmas.
