(* ===== verification/DwarfOpTable.v ===== *)
(** The static tables of [DwarfOp.cpp]: the handler enumeration, and for each of the 256 opcodes
    its name, handler, number of required stack values, and operand encodings. *)
From Stdlib Require Import ZArith String.
From stdpp Require Import base numbers list.
From S2P Require Import Prelude DwarfMemory.
#[local] Open Scope Z_scope.
#[local] Open Scope string_scope.

Inductive DwarfOpHandleFunc : Set :=
| OP_ILLEGAL | OP_DEREF | OP_DEREF_SIZE | OP_PUSH | OP_DUP | OP_DROP | OP_OVER | OP_PICK | OP_SWAP
| OP_ROT | OP_ABS | OP_AND | OP_DIV | OP_MINUS | OP_MOD | OP_MUL | OP_NEG | OP_NOT | OP_OR | OP_PLUS
| OP_PLUS_UCONST | OP_SHL | OP_SHR | OP_SHRA | OP_XOR | OP_BRA | OP_EQ | OP_GE | OP_GT | OP_LE
| OP_LT | OP_NE | OP_SKIP | OP_LIT | OP_REG | OP_REGX | OP_BREG | OP_BREGX | OP_NOP
| OP_NOT_IMPLEMENTED.

#[export] Instance DwarfOpHandleFunc_eq_dec : EqDecision DwarfOpHandleFunc.
Proof. solve_decision. Defined.

(** [operands] is an array of two bytes: what the initializer leaves out is zero. *)
Record OpCallback := mkOpCallback {
  op_name : string;
  handle_func : DwarfOpHandleFunc;
  num_required_stack_values : Z;
  num_operands : Z;
  operands : list Z
}.

Definition operand_encoding (op : OpCallback) (i : nat) : Z := nth i (operands op) 0.

(** Entries [0x00] to [0x16]. *)
Definition kCallbackTable_00 : list OpCallback := [
  mkOpCallback "" OP_ILLEGAL 0 0 [];
  mkOpCallback "" OP_ILLEGAL 0 0 [];
  mkOpCallback "" OP_ILLEGAL 0 0 [];
  mkOpCallback "DW_OP_addr" OP_PUSH 0 1 [DW_EH_PE_absptr];
  mkOpCallback "" OP_ILLEGAL 0 0 [];
  mkOpCallback "" OP_ILLEGAL 0 0 [];
  mkOpCallback "DW_OP_deref" OP_DEREF 1 0 [];
  mkOpCallback "" OP_ILLEGAL 0 0 [];
  mkOpCallback "DW_OP_const1u" OP_PUSH 0 1 [DW_EH_PE_udata1];
  mkOpCallback "DW_OP_const1s" OP_PUSH 0 1 [DW_EH_PE_sdata1];
  mkOpCallback "DW_OP_const2u" OP_PUSH 0 1 [DW_EH_PE_udata2];
  mkOpCallback "DW_OP_const2s" OP_PUSH 0 1 [DW_EH_PE_sdata2];
  mkOpCallback "DW_OP_const4u" OP_PUSH 0 1 [DW_EH_PE_udata4];
  mkOpCallback "DW_OP_const4s" OP_PUSH 0 1 [DW_EH_PE_sdata4];
  mkOpCallback "DW_OP_const8u" OP_PUSH 0 1 [DW_EH_PE_udata8];
  mkOpCallback "DW_OP_const8s" OP_PUSH 0 1 [DW_EH_PE_sdata8];
  mkOpCallback "DW_OP_constu" OP_PUSH 0 1 [DW_EH_PE_uleb128];
  mkOpCallback "DW_OP_consts" OP_PUSH 0 1 [DW_EH_PE_sleb128];
  mkOpCallback "DW_OP_dup" OP_DUP 1 0 [];
  mkOpCallback "DW_OP_drop" OP_DROP 1 0 [];
  mkOpCallback "DW_OP_over" OP_OVER 2 0 [];
  mkOpCallback "DW_OP_pick" OP_PICK 0 1 [DW_EH_PE_udata1];
  mkOpCallback "DW_OP_swap" OP_SWAP 2 0 []
].

(** Entries [0x17] to [0x28]. *)
Definition kCallbackTable_17 : list OpCallback := [
  mkOpCallback "DW_OP_rot" OP_ROT 3 0 [];
  mkOpCallback "DW_OP_xderef" OP_NOT_IMPLEMENTED 2 0 [];
  mkOpCallback "DW_OP_abs" OP_ABS 1 0 [];
  mkOpCallback "DW_OP_and" OP_AND 2 0 [];
  mkOpCallback "DW_OP_div" OP_DIV 2 0 [];
  mkOpCallback "DW_OP_minus" OP_MINUS 2 0 [];
  mkOpCallback "DW_OP_mod" OP_MOD 2 0 [];
  mkOpCallback "DW_OP_mul" OP_MUL 2 0 [];
  mkOpCallback "DW_OP_neg" OP_NEG 1 0 [];
  mkOpCallback "DW_OP_not" OP_NOT 1 0 [];
  mkOpCallback "DW_OP_or" OP_OR 2 0 [];
  mkOpCallback "DW_OP_plus" OP_PLUS 2 0 [];
  mkOpCallback "DW_OP_plus_uconst" OP_PLUS_UCONST 1 1 [DW_EH_PE_uleb128];
  mkOpCallback "DW_OP_shl" OP_SHL 2 0 [];
  mkOpCallback "DW_OP_shr" OP_SHR 2 0 [];
  mkOpCallback "DW_OP_shra" OP_SHRA 2 0 [];
  mkOpCallback "DW_OP_xor" OP_XOR 2 0 [];
  mkOpCallback "DW_OP_bra" OP_BRA 1 1 [DW_EH_PE_sdata2]
].

(** Entries [0x29] to [0x3a]. *)
Definition kCallbackTable_29 : list OpCallback := [
  mkOpCallback "DW_OP_eq" OP_EQ 2 0 [];
  mkOpCallback "DW_OP_ge" OP_GE 2 0 [];
  mkOpCallback "DW_OP_gt" OP_GT 2 0 [];
  mkOpCallback "DW_OP_le" OP_LE 2 0 [];
  mkOpCallback "DW_OP_lt" OP_LT 2 0 [];
  mkOpCallback "DW_OP_ne" OP_NE 2 0 [];
  mkOpCallback "DW_OP_skip" OP_SKIP 0 1 [DW_EH_PE_sdata2];
  mkOpCallback "DW_OP_lit0" OP_LIT 0 0 [];
  mkOpCallback "DW_OP_lit1" OP_LIT 0 0 [];
  mkOpCallback "DW_OP_lit2" OP_LIT 0 0 [];
  mkOpCallback "DW_OP_lit3" OP_LIT 0 0 [];
  mkOpCallback "DW_OP_lit4" OP_LIT 0 0 [];
  mkOpCallback "DW_OP_lit5" OP_LIT 0 0 [];
  mkOpCallback "DW_OP_lit6" OP_LIT 0 0 [];
  mkOpCallback "DW_OP_lit7" OP_LIT 0 0 [];
  mkOpCallback "DW_OP_lit8" OP_LIT 0 0 [];
  mkOpCallback "DW_OP_lit9" OP_LIT 0 0 [];
  mkOpCallback "DW_OP_lit10" OP_LIT 0 0 []
].

(** Entries [0x3b] to [0x4c]. *)
Definition kCallbackTable_3b : list OpCallback := [
  mkOpCallback "DW_OP_lit11" OP_LIT 0 0 [];
  mkOpCallback "DW_OP_lit12" OP_LIT 0 0 [];
  mkOpCallback "DW_OP_lit13" OP_LIT 0 0 [];
  mkOpCallback "DW_OP_lit14" OP_LIT 0 0 [];
  mkOpCallback "DW_OP_lit15" OP_LIT 0 0 [];
  mkOpCallback "DW_OP_lit16" OP_LIT 0 0 [];
  mkOpCallback "DW_OP_lit17" OP_LIT 0 0 [];
  mkOpCallback "DW_OP_lit18" OP_LIT 0 0 [];
  mkOpCallback "DW_OP_lit19" OP_LIT 0 0 [];
  mkOpCallback "DW_OP_lit20" OP_LIT 0 0 [];
  mkOpCallback "DW_OP_lit21" OP_LIT 0 0 [];
  mkOpCallback "DW_OP_lit22" OP_LIT 0 0 [];
  mkOpCallback "DW_OP_lit23" OP_LIT 0 0 [];
  mkOpCallback "DW_OP_lit24" OP_LIT 0 0 [];
  mkOpCallback "DW_OP_lit25" OP_LIT 0 0 [];
  mkOpCallback "DW_OP_lit26" OP_LIT 0 0 [];
  mkOpCallback "DW_OP_lit27" OP_LIT 0 0 [];
  mkOpCallback "DW_OP_lit28" OP_LIT 0 0 []
].

(** Entries [0x4d] to [0x5e]. *)
Definition kCallbackTable_4d : list OpCallback := [
  mkOpCallback "DW_OP_lit29" OP_LIT 0 0 [];
  mkOpCallback "DW_OP_lit30" OP_LIT 0 0 [];
  mkOpCallback "DW_OP_lit31" OP_LIT 0 0 [];
  mkOpCallback "DW_OP_reg0" OP_REG 0 0 [];
  mkOpCallback "DW_OP_reg1" OP_REG 0 0 [];
  mkOpCallback "DW_OP_reg2" OP_REG 0 0 [];
  mkOpCallback "DW_OP_reg3" OP_REG 0 0 [];
  mkOpCallback "DW_OP_reg4" OP_REG 0 0 [];
  mkOpCallback "DW_OP_reg5" OP_REG 0 0 [];
  mkOpCallback "DW_OP_reg6" OP_REG 0 0 [];
  mkOpCallback "DW_OP_reg7" OP_REG 0 0 [];
  mkOpCallback "DW_OP_reg8" OP_REG 0 0 [];
  mkOpCallback "DW_OP_reg9" OP_REG 0 0 [];
  mkOpCallback "DW_OP_reg10" OP_REG 0 0 [];
  mkOpCallback "DW_OP_reg11" OP_REG 0 0 [];
  mkOpCallback "DW_OP_reg12" OP_REG 0 0 [];
  mkOpCallback "DW_OP_reg13" OP_REG 0 0 [];
  mkOpCallback "DW_OP_reg14" OP_REG 0 0 []
].

(** Entries [0x5f] to [0x70]. *)
Definition kCallbackTable_5f : list OpCallback := [
  mkOpCallback "DW_OP_reg15" OP_REG 0 0 [];
  mkOpCallback "DW_OP_reg16" OP_REG 0 0 [];
  mkOpCallback "DW_OP_reg17" OP_REG 0 0 [];
  mkOpCallback "DW_OP_reg18" OP_REG 0 0 [];
  mkOpCallback "DW_OP_reg19" OP_REG 0 0 [];
  mkOpCallback "DW_OP_reg20" OP_REG 0 0 [];
  mkOpCallback "DW_OP_reg21" OP_REG 0 0 [];
  mkOpCallback "DW_OP_reg22" OP_REG 0 0 [];
  mkOpCallback "DW_OP_reg23" OP_REG 0 0 [];
  mkOpCallback "DW_OP_reg24" OP_REG 0 0 [];
  mkOpCallback "DW_OP_reg25" OP_REG 0 0 [];
  mkOpCallback "DW_OP_reg26" OP_REG 0 0 [];
  mkOpCallback "DW_OP_reg27" OP_REG 0 0 [];
  mkOpCallback "DW_OP_reg28" OP_REG 0 0 [];
  mkOpCallback "DW_OP_reg29" OP_REG 0 0 [];
  mkOpCallback "DW_OP_reg30" OP_REG 0 0 [];
  mkOpCallback "DW_OP_reg31" OP_REG 0 0 [];
  mkOpCallback "DW_OP_breg0" OP_BREG 0 1 [DW_EH_PE_sleb128]
].

(** Entries [0x71] to [0x82]. *)
Definition kCallbackTable_71 : list OpCallback := [
  mkOpCallback "DW_OP_breg1" OP_BREG 0 1 [DW_EH_PE_sleb128];
  mkOpCallback "DW_OP_breg2" OP_BREG 0 1 [DW_EH_PE_sleb128];
  mkOpCallback "DW_OP_breg3" OP_BREG 0 1 [DW_EH_PE_sleb128];
  mkOpCallback "DW_OP_breg4" OP_BREG 0 1 [DW_EH_PE_sleb128];
  mkOpCallback "DW_OP_breg5" OP_BREG 0 1 [DW_EH_PE_sleb128];
  mkOpCallback "DW_OP_breg6" OP_BREG 0 1 [DW_EH_PE_sleb128];
  mkOpCallback "DW_OP_breg7" OP_BREG 0 1 [DW_EH_PE_sleb128];
  mkOpCallback "DW_OP_breg8" OP_BREG 0 1 [DW_EH_PE_sleb128];
  mkOpCallback "DW_OP_breg9" OP_BREG 0 1 [DW_EH_PE_sleb128];
  mkOpCallback "DW_OP_breg10" OP_BREG 0 1 [DW_EH_PE_sleb128];
  mkOpCallback "DW_OP_breg11" OP_BREG 0 1 [DW_EH_PE_sleb128];
  mkOpCallback "DW_OP_breg12" OP_BREG 0 1 [DW_EH_PE_sleb128];
  mkOpCallback "DW_OP_breg13" OP_BREG 0 1 [DW_EH_PE_sleb128];
  mkOpCallback "DW_OP_breg14" OP_BREG 0 1 [DW_EH_PE_sleb128];
  mkOpCallback "DW_OP_breg15" OP_BREG 0 1 [DW_EH_PE_sleb128];
  mkOpCallback "DW_OP_breg16" OP_BREG 0 1 [DW_EH_PE_sleb128];
  mkOpCallback "DW_OP_breg17" OP_BREG 0 1 [DW_EH_PE_sleb128];
  mkOpCallback "DW_OP_breg18" OP_BREG 0 1 [DW_EH_PE_sleb128]
].

(** Entries [0x83] to [0x94]. *)
Definition kCallbackTable_83 : list OpCallback := [
  mkOpCallback "DW_OP_breg19" OP_BREG 0 1 [DW_EH_PE_sleb128];
  mkOpCallback "DW_OP_breg20" OP_BREG 0 1 [DW_EH_PE_sleb128];
  mkOpCallback "DW_OP_breg21" OP_BREG 0 1 [DW_EH_PE_sleb128];
  mkOpCallback "DW_OP_breg22" OP_BREG 0 1 [DW_EH_PE_sleb128];
  mkOpCallback "DW_OP_breg23" OP_BREG 0 1 [DW_EH_PE_sleb128];
  mkOpCallback "DW_OP_breg24" OP_BREG 0 1 [DW_EH_PE_sleb128];
  mkOpCallback "DW_OP_breg25" OP_BREG 0 1 [DW_EH_PE_sleb128];
  mkOpCallback "DW_OP_breg26" OP_BREG 0 1 [DW_EH_PE_sleb128];
  mkOpCallback "DW_OP_breg27" OP_BREG 0 1 [DW_EH_PE_sleb128];
  mkOpCallback "DW_OP_breg28" OP_BREG 0 1 [DW_EH_PE_sleb128];
  mkOpCallback "DW_OP_breg29" OP_BREG 0 1 [DW_EH_PE_sleb128];
  mkOpCallback "DW_OP_breg30" OP_BREG 0 1 [DW_EH_PE_sleb128];
  mkOpCallback "DW_OP_breg31" OP_BREG 0 1 [DW_EH_PE_sleb128];
  mkOpCallback "DW_OP_regx" OP_REGX 0 1 [DW_EH_PE_uleb128];
  mkOpCallback "DW_OP_fbreg" OP_NOT_IMPLEMENTED 0 1 [DW_EH_PE_sleb128];
  mkOpCallback "DW_OP_bregx" OP_BREGX 0 2 [DW_EH_PE_uleb128; DW_EH_PE_sleb128];
  mkOpCallback "DW_OP_piece" OP_NOT_IMPLEMENTED 0 1 [DW_EH_PE_uleb128];
  mkOpCallback "DW_OP_deref_size" OP_DEREF_SIZE 1 1 [DW_EH_PE_udata1]
].

(** Entries [0x95] to [0xdb]. *)
Definition kCallbackTable_95 : list OpCallback := [
  mkOpCallback "DW_OP_xderef_size" OP_NOT_IMPLEMENTED 0 1 [DW_EH_PE_udata1];
  mkOpCallback "DW_OP_nop" OP_NOP 0 0 [];
  mkOpCallback "DW_OP_push_object_address" OP_NOT_IMPLEMENTED 0 0 [];
  mkOpCallback "DW_OP_call2" OP_NOT_IMPLEMENTED 0 1 [DW_EH_PE_udata2];
  mkOpCallback "DW_OP_call4" OP_NOT_IMPLEMENTED 0 1 [DW_EH_PE_udata4];
  mkOpCallback "DW_OP_call_ref" OP_NOT_IMPLEMENTED 0 0 [];
  mkOpCallback "DW_OP_form_tls_address" OP_NOT_IMPLEMENTED 0 0 [];
  mkOpCallback "DW_OP_call_frame_cfa" OP_NOT_IMPLEMENTED 0 0 [];
  mkOpCallback "DW_OP_bit_piece" OP_NOT_IMPLEMENTED 0 2 [DW_EH_PE_uleb128; DW_EH_PE_uleb128];
  mkOpCallback "DW_OP_implicit_value" OP_NOT_IMPLEMENTED 0 1 [DW_EH_PE_uleb128];
  mkOpCallback "DW_OP_stack_value" OP_NOT_IMPLEMENTED 1 0 [];
  mkOpCallback "" OP_ILLEGAL 0 0 [];
  mkOpCallback "" OP_ILLEGAL 0 0 [];
  mkOpCallback "" OP_ILLEGAL 0 0 [];
  mkOpCallback "" OP_ILLEGAL 0 0 [];
  mkOpCallback "" OP_ILLEGAL 0 0 [];
  mkOpCallback "" OP_ILLEGAL 0 0 [];
  mkOpCallback "" OP_ILLEGAL 0 0 [];
  mkOpCallback "" OP_ILLEGAL 0 0 [];
  mkOpCallback "" OP_ILLEGAL 0 0 [];
  mkOpCallback "" OP_ILLEGAL 0 0 [];
  mkOpCallback "" OP_ILLEGAL 0 0 [];
  mkOpCallback "" OP_ILLEGAL 0 0 [];
  mkOpCallback "" OP_ILLEGAL 0 0 [];
  mkOpCallback "" OP_ILLEGAL 0 0 [];
  mkOpCallback "" OP_ILLEGAL 0 0 [];
  mkOpCallback "" OP_ILLEGAL 0 0 [];
  mkOpCallback "" OP_ILLEGAL 0 0 [];
  mkOpCallback "" OP_ILLEGAL 0 0 [];
  mkOpCallback "" OP_ILLEGAL 0 0 [];
  mkOpCallback "" OP_ILLEGAL 0 0 [];
  mkOpCallback "" OP_ILLEGAL 0 0 [];
  mkOpCallback "" OP_ILLEGAL 0 0 [];
  mkOpCallback "" OP_ILLEGAL 0 0 [];
  mkOpCallback "" OP_ILLEGAL 0 0 [];
  mkOpCallback "" OP_ILLEGAL 0 0 [];
  mkOpCallback "" OP_ILLEGAL 0 0 [];
  mkOpCallback "" OP_ILLEGAL 0 0 [];
  mkOpCallback "" OP_ILLEGAL 0 0 [];
  mkOpCallback "" OP_ILLEGAL 0 0 [];
  mkOpCallback "" OP_ILLEGAL 0 0 [];
  mkOpCallback "" OP_ILLEGAL 0 0 [];
  mkOpCallback "" OP_ILLEGAL 0 0 [];
  mkOpCallback "" OP_ILLEGAL 0 0 [];
  mkOpCallback "" OP_ILLEGAL 0 0 [];
  mkOpCallback "" OP_ILLEGAL 0 0 [];
  mkOpCallback "" OP_ILLEGAL 0 0 [];
  mkOpCallback "" OP_ILLEGAL 0 0 [];
  mkOpCallback "" OP_ILLEGAL 0 0 [];
  mkOpCallback "" OP_ILLEGAL 0 0 [];
  mkOpCallback "" OP_ILLEGAL 0 0 [];
  mkOpCallback "" OP_ILLEGAL 0 0 [];
  mkOpCallback "" OP_ILLEGAL 0 0 [];
  mkOpCallback "" OP_ILLEGAL 0 0 [];
  mkOpCallback "" OP_ILLEGAL 0 0 [];
  mkOpCallback "" OP_ILLEGAL 0 0 [];
  mkOpCallback "" OP_ILLEGAL 0 0 [];
  mkOpCallback "" OP_ILLEGAL 0 0 [];
  mkOpCallback "" OP_ILLEGAL 0 0 [];
  mkOpCallback "" OP_ILLEGAL 0 0 [];
  mkOpCallback "" OP_ILLEGAL 0 0 [];
  mkOpCallback "" OP_ILLEGAL 0 0 [];
  mkOpCallback "" OP_ILLEGAL 0 0 [];
  mkOpCallback "" OP_ILLEGAL 0 0 [];
  mkOpCallback "" OP_ILLEGAL 0 0 [];
  mkOpCallback "" OP_ILLEGAL 0 0 [];
  mkOpCallback "" OP_ILLEGAL 0 0 [];
  mkOpCallback "" OP_ILLEGAL 0 0 [];
  mkOpCallback "" OP_ILLEGAL 0 0 [];
  mkOpCallback "" OP_ILLEGAL 0 0 [];
  mkOpCallback "" OP_ILLEGAL 0 0 []
].

(** Entries [0xdc] to [0xff]. *)
Definition kCallbackTable_dc : list OpCallback := [
  mkOpCallback "" OP_ILLEGAL 0 0 [];
  mkOpCallback "" OP_ILLEGAL 0 0 [];
  mkOpCallback "" OP_ILLEGAL 0 0 [];
  mkOpCallback "" OP_ILLEGAL 0 0 [];
  mkOpCallback "" OP_ILLEGAL 0 0 [];
  mkOpCallback "" OP_ILLEGAL 0 0 [];
  mkOpCallback "" OP_ILLEGAL 0 0 [];
  mkOpCallback "" OP_ILLEGAL 0 0 [];
  mkOpCallback "" OP_ILLEGAL 0 0 [];
  mkOpCallback "" OP_ILLEGAL 0 0 [];
  mkOpCallback "" OP_ILLEGAL 0 0 [];
  mkOpCallback "" OP_ILLEGAL 0 0 [];
  mkOpCallback "" OP_ILLEGAL 0 0 [];
  mkOpCallback "" OP_ILLEGAL 0 0 [];
  mkOpCallback "" OP_ILLEGAL 0 0 [];
  mkOpCallback "" OP_ILLEGAL 0 0 [];
  mkOpCallback "" OP_ILLEGAL 0 0 [];
  mkOpCallback "" OP_ILLEGAL 0 0 [];
  mkOpCallback "" OP_ILLEGAL 0 0 [];
  mkOpCallback "" OP_ILLEGAL 0 0 [];
  mkOpCallback "" OP_ILLEGAL 0 0 [];
  mkOpCallback "" OP_ILLEGAL 0 0 [];
  mkOpCallback "" OP_ILLEGAL 0 0 [];
  mkOpCallback "" OP_ILLEGAL 0 0 [];
  mkOpCallback "" OP_ILLEGAL 0 0 [];
  mkOpCallback "" OP_ILLEGAL 0 0 [];
  mkOpCallback "" OP_ILLEGAL 0 0 [];
  mkOpCallback "" OP_ILLEGAL 0 0 [];
  mkOpCallback "" OP_ILLEGAL 0 0 [];
  mkOpCallback "" OP_ILLEGAL 0 0 [];
  mkOpCallback "" OP_ILLEGAL 0 0 [];
  mkOpCallback "" OP_ILLEGAL 0 0 [];
  mkOpCallback "" OP_ILLEGAL 0 0 [];
  mkOpCallback "" OP_ILLEGAL 0 0 [];
  mkOpCallback "" OP_ILLEGAL 0 0 [];
  mkOpCallback "" OP_ILLEGAL 0 0 []
].

Definition kCallbackTable : list OpCallback :=
  kCallbackTable_00 ++ kCallbackTable_17 ++ kCallbackTable_29 ++ kCallbackTable_3b ++ kCallbackTable_4d ++ kCallbackTable_5f ++ kCallbackTable_71 ++ kCallbackTable_83 ++ kCallbackTable_95 ++ kCallbackTable_dc.

Definition op_callback (op : Z) : OpCallback :=
  nth (Z.to_nat op) kCallbackTable (mkOpCallback "" OP_ILLEGAL 0 0 []).

Lemma kCallbackTable_length : length kCallbackTable = 256%nat.
Proof. by vm_compute. Qed.
