(* ===== verification/DwarfOp.v ===== *)
(** [DwarfOp.cpp] and [DwarfOp.h]: the DWARF expression evaluator.

    The record [DwarfOp] is the evaluator object; it owns the state of the [DwarfMemory] cursor it
    was built on and of the [RegsInfo] it was given. Each handler is one computation; a handler
    returns the [bool] the code returns. Accesses of the expression stack out of range, shifts by
    the width or more, and signed overflow are faults. *)
From Stdlib Require Import ZArith Lia Bool Strings.Byte.
From stdpp Require Import base numbers list gmap.
From S2P Require Import Prelude Memory DwarfMemory DwarfStructs Regs DwarfOpTable.
#[local] Open Scope Z_scope.

(** * The evaluator object *)

Record DwarfOp := mkDwarfOp {
  op_memory : DwarfMemory;
  op_regs_info : option RegsInfo;
  dex_pc_set_ : bool;
  is_register_ : bool;
  last_error_ : DwarfErrorData;
  cur_op_ : Z;
  operands_ : list Z;
  stack_ : list Z
}.

(** The constructor, with [set_regs_info]. *)
Definition new_DwarfOp (d : DwarfMemory) (r : option RegsInfo) : DwarfOp :=
  mkDwarfOp d r false false no_error 0 [] [].

Definition put_memory (d : DwarfMemory) (s : DwarfOp) : DwarfOp :=
  mkDwarfOp d (op_regs_info s) (dex_pc_set_ s) (is_register_ s) (last_error_ s) (cur_op_ s)
    (operands_ s) (stack_ s).
Definition put_regs_info (r : option RegsInfo) (s : DwarfOp) : DwarfOp :=
  mkDwarfOp (op_memory s) r (dex_pc_set_ s) (is_register_ s) (last_error_ s) (cur_op_ s)
    (operands_ s) (stack_ s).
Definition put_dex_pc_set (b : bool) (s : DwarfOp) : DwarfOp :=
  mkDwarfOp (op_memory s) (op_regs_info s) b (is_register_ s) (last_error_ s) (cur_op_ s)
    (operands_ s) (stack_ s).
Definition put_is_register (b : bool) (s : DwarfOp) : DwarfOp :=
  mkDwarfOp (op_memory s) (op_regs_info s) (dex_pc_set_ s) b (last_error_ s) (cur_op_ s)
    (operands_ s) (stack_ s).
Definition put_error (e : DwarfErrorData) (s : DwarfOp) : DwarfOp :=
  mkDwarfOp (op_memory s) (op_regs_info s) (dex_pc_set_ s) (is_register_ s) e (cur_op_ s)
    (operands_ s) (stack_ s).
Definition put_cur_op (o : Z) (s : DwarfOp) : DwarfOp :=
  mkDwarfOp (op_memory s) (op_regs_info s) (dex_pc_set_ s) (is_register_ s) (last_error_ s) o
    (operands_ s) (stack_ s).
Definition put_operands (l : list Z) (s : DwarfOp) : DwarfOp :=
  mkDwarfOp (op_memory s) (op_regs_info s) (dex_pc_set_ s) (is_register_ s) (last_error_ s) (cur_op_ s)
    l (stack_ s).
Definition put_stack (l : list Z) (s : DwarfOp) : DwarfOp :=
  mkDwarfOp (op_memory s) (op_regs_info s) (dex_pc_set_ s) (is_register_ s) (last_error_ s) (cur_op_ s)
    (operands_ s) l.

Abbreviation OP := (M DwarfOp).

(** Calls on [memory_] and on [regs_info_]. *)
Definition on_memory {B} (m : DM B) : OP B := zoom op_memory put_memory m.

Definition on_regs_info {B} (m : M RegsInfo B) : OP B :=
  s <- get ;;
  i <- some_or (Undef UbNull) (op_regs_info s) ;;
  zoom (fun _ => i) (fun i' => put_regs_info (Some i')) m.

(** [last_error_.code = c; return false;], without and with an address. *)
Definition op_error (c : DwarfErrorCode) : OP bool :=
  modify (fun s => put_error (with_code c (last_error_ s)) s) ;; ret false.
Definition op_error_at (c : DwarfErrorCode) (a : Z) : OP bool :=
  modify (put_error (mkError c a)) ;; ret false.

(** * The expression stack *)

Definition StackAt (index : Z) : OP Z :=
  s <- get ;; some_or (Undef UbStackIndex) (stack_ s !! Z.to_nat index).

Definition StackSize : OP Z := gets (fun s => Z.of_nat (length (stack_ s))).

Definition StackPop : OP Z :=
  s <- get ;;
  match stack_ s with
  | v :: t => modify (put_stack t) ;; ret v
  | [] => fail (Undef UbStackIndex)
  end.

Definition push_front (v : Z) : OP unit := modify (fun s => put_stack (v :: stack_ s) s).

(** [stack_[i] = v]. *)
Definition set_stack (i : nat) (v : Z) : OP unit :=
  s <- get ;;
  if (i <? length (stack_ s))%nat then modify (put_stack (<[i := v]> (stack_ s)))
  else fail (Undef UbStackIndex).

Definition OperandAt (index : nat) : OP Z :=
  s <- get ;; some_or (Undef UbOperandIndex) (operands_ s !! index).

Definition bool_to_dwarf_bool (b : bool) : Z := if b then 1 else 0.

Section Ops.
Variables (A : addr_type) (regular_memory : Memory).

(** * Handlers *)

Definition op_deref : OP bool :=
  addr <- StackPop ;;
  match ReadFully regular_memory addr (size_of A) with
  | None => op_error_at DWARF_ERROR_MEMORY_INVALID addr
  | Some bs => push_front (le_val bs) ;; ret true
  end.

Definition op_deref_size : OP bool :=
  bytes_to_read <- OperandAt 0 ;;
  if (size_of A <? bytes_to_read) || (bytes_to_read =? 0) then op_error DWARF_ERROR_ILLEGAL_VALUE
  else
    addr <- StackPop ;;
    match ReadFully regular_memory addr bytes_to_read with
    | None => op_error_at DWARF_ERROR_MEMORY_INVALID addr
    | Some bs => push_front (le_val bs) ;; ret true
    end.

Definition op_push : OP bool :=
  s <- get ;;
  modify (put_stack (fold_left (fun st operand => operand :: st) (operands_ s) (stack_ s))) ;;
  ret true.

Definition op_dup : OP bool := v <- StackAt 0 ;; push_front v ;; ret true.

Definition op_drop : OP bool := StackPop ;; ret true.

Definition op_over : OP bool := v <- StackAt 1 ;; push_front v ;; ret true.

Definition op_pick : OP bool :=
  index <- OperandAt 0 ;;
  size <- StackSize ;;
  if size <? index then op_error DWARF_ERROR_STACK_INDEX_NOT_VALID
  else v <- StackAt index ;; push_front v ;; ret true.

Definition op_swap : OP bool :=
  old_value <- StackAt 0 ;;
  v1 <- StackAt 1 ;;
  set_stack 0 v1 ;;
  set_stack 1 old_value ;;
  ret true.

Definition op_rot : OP bool :=
  top <- StackAt 0 ;;
  v1 <- StackAt 1 ;;
  set_stack 0 v1 ;;
  v2 <- StackAt 2 ;;
  set_stack 1 v2 ;;
  set_stack 2 top ;;
  ret true.

(** Negation of a [SignedType] value. *)
Definition signed_neg (v : Z) : OP Z :=
  if v =? - 2 ^ (bits A - 1) then fail (Undef UbOverflow) else ret (- v).

Definition op_abs : OP bool :=
  v <- StackAt 0 ;;
  let signed_value := saddr A v in
  w <- (if signed_value <? 0 then signed_neg signed_value else ret signed_value) ;;
  set_stack 0 (addr A w) ;;
  ret true.

Definition op_and : OP bool :=
  top <- StackPop ;; v <- StackAt 0 ;; set_stack 0 (Z.land v top) ;; ret true.

Definition op_div : OP bool :=
  top <- StackPop ;;
  if top =? 0 then op_error DWARF_ERROR_ILLEGAL_VALUE
  else
    let signed_divisor := saddr A top in
    v <- StackAt 0 ;;
    let signed_dividend := saddr A v in
    if (signed_dividend =? - 2 ^ (bits A - 1)) && (signed_divisor =? -1) then fail (Undef UbOverflow)
    else
      set_stack 0 (addr A (Z.quot signed_dividend signed_divisor)) ;;
      ret true.

Definition op_minus : OP bool :=
  top <- StackPop ;; v <- StackAt 0 ;; set_stack 0 (addr A (v - top)) ;; ret true.

Definition op_mod : OP bool :=
  top <- StackPop ;;
  if top =? 0 then op_error DWARF_ERROR_ILLEGAL_VALUE
  else v <- StackAt 0 ;; set_stack 0 (v mod top) ;; ret true.

Definition op_mul : OP bool :=
  top <- StackPop ;; v <- StackAt 0 ;; set_stack 0 (addr A (v * top)) ;; ret true.

Definition op_neg : OP bool :=
  v <- StackAt 0 ;; w <- signed_neg (saddr A v) ;; set_stack 0 (addr A w) ;; ret true.

Definition op_not : OP bool :=
  v <- StackAt 0 ;; set_stack 0 (addr A (Z.lnot v)) ;; ret true.

Definition op_or : OP bool :=
  top <- StackPop ;; v <- StackAt 0 ;; set_stack 0 (Z.lor v top) ;; ret true.

Definition op_plus : OP bool :=
  top <- StackPop ;; v <- StackAt 0 ;; set_stack 0 (addr A (v + top)) ;; ret true.

Definition op_plus_uconst : OP bool :=
  c <- OperandAt 0 ;; v <- StackAt 0 ;; set_stack 0 (addr A (v + c)) ;; ret true.

Definition op_shl : OP bool :=
  top <- StackPop ;;
  v <- StackAt 0 ;;
  if bits A <=? top then fail (Undef UbShift)
  else set_stack 0 (addr A (Z.shiftl v top)) ;; ret true.

Definition op_shr : OP bool :=
  top <- StackPop ;;
  v <- StackAt 0 ;;
  if bits A <=? top then fail (Undef UbShift)
  else set_stack 0 (Z.shiftr v top) ;; ret true.

Definition op_shra : OP bool :=
  top <- StackPop ;;
  v <- StackAt 0 ;;
  if bits A <=? top then fail (Undef UbShift)
  else
    let signed_value := Z.shiftr (saddr A v) top in
    set_stack 0 (addr A signed_value) ;;
    ret true.

Definition op_xor : OP bool :=
  top <- StackPop ;; v <- StackAt 0 ;; set_stack 0 (Z.lxor v top) ;; ret true.

Definition op_bra : OP bool :=
  top <- StackPop ;;
  operand <- OperandAt 0 ;;
  let offset := sgn 16 operand in
  cur <- on_memory cur_offset ;;
  let cur_offset := if negb (top =? 0) then u64 (cur + offset) else u64 (cur - offset) in
  on_memory (set_cur_offset cur_offset) ;;
  ret true.

(** The six comparisons, unsigned as the stack's element type is. *)
Definition op_compare (cmp : Z -> Z -> bool) : OP bool :=
  top <- StackPop ;; v <- StackAt 0 ;; set_stack 0 (bool_to_dwarf_bool (cmp v top)) ;; ret true.

Definition op_eq : OP bool := op_compare Z.eqb.
Definition op_ge : OP bool := op_compare Z.geb.
Definition op_gt : OP bool := op_compare Z.gtb.
Definition op_le : OP bool := op_compare Z.leb.
Definition op_lt : OP bool := op_compare Z.ltb.
Definition op_ne : OP bool := op_compare (fun x y => negb (x =? y)).

Definition op_skip : OP bool :=
  operand <- OperandAt 0 ;;
  let offset := sgn 16 operand in
  cur <- on_memory cur_offset ;;
  on_memory (set_cur_offset (u64 (cur + offset))) ;;
  ret true.

Definition op_lit : OP bool := s <- get ;; push_front (addr A (cur_op_ s - 0x30)) ;; ret true.

Definition op_reg : OP bool :=
  modify (put_is_register true) ;;
  s <- get ;;
  push_front (addr A (cur_op_ s - 0x50)) ;;
  ret true.

Definition op_regx : OP bool :=
  modify (put_is_register true) ;;
  v <- OperandAt 0 ;;
  push_front v ;;
  ret true.

(** [regs_info_->Get(reg) + offset], after the bounds check against [Total()]. *)
Definition push_reg (reg : Z) (operand : nat) : OP bool :=
  total <- on_regs_info (gets Total) ;;
  if total <=? reg then op_error DWARF_ERROR_ILLEGAL_VALUE
  else
    v <- on_regs_info (Get reg) ;;
    offset <- OperandAt operand ;;
    push_front (addr A (v + offset)) ;;
    ret true.

Definition op_breg : OP bool := s <- get ;; push_reg (u16 (cur_op_ s - 0x70)) 0.

Definition op_bregx : OP bool := reg <- OperandAt 0 ;; push_reg reg 1.

Definition op_nop : OP bool := ret true.

Definition op_not_implemented : OP bool := op_error DWARF_ERROR_NOT_IMPLEMENTED.

(** [kOpHandleFuncList] *)
Definition kOpHandleFuncList (h : DwarfOpHandleFunc) : option (OP bool) :=
  match h with
  | OP_ILLEGAL => None
  | OP_DEREF => Some op_deref
  | OP_DEREF_SIZE => Some op_deref_size
  | OP_PUSH => Some op_push
  | OP_DUP => Some op_dup
  | OP_DROP => Some op_drop
  | OP_OVER => Some op_over
  | OP_PICK => Some op_pick
  | OP_SWAP => Some op_swap
  | OP_ROT => Some op_rot
  | OP_ABS => Some op_abs
  | OP_AND => Some op_and
  | OP_DIV => Some op_div
  | OP_MINUS => Some op_minus
  | OP_MOD => Some op_mod
  | OP_MUL => Some op_mul
  | OP_NEG => Some op_neg
  | OP_NOT => Some op_not
  | OP_OR => Some op_or
  | OP_PLUS => Some op_plus
  | OP_PLUS_UCONST => Some op_plus_uconst
  | OP_SHL => Some op_shl
  | OP_SHR => Some op_shr
  | OP_SHRA => Some op_shra
  | OP_XOR => Some op_xor
  | OP_BRA => Some op_bra
  | OP_EQ => Some op_eq
  | OP_GE => Some op_ge
  | OP_GT => Some op_gt
  | OP_LE => Some op_le
  | OP_LT => Some op_lt
  | OP_NE => Some op_ne
  | OP_SKIP => Some op_skip
  | OP_LIT => Some op_lit
  | OP_REG => Some op_reg
  | OP_REGX => Some op_regx
  | OP_BREG => Some op_breg
  | OP_BREGX => Some op_bregx
  | OP_NOP => Some op_nop
  | OP_NOT_IMPLEMENTED => Some op_not_implemented
  end.

(** * Decoding and evaluation *)

(** The loop of [Decode] over the operands, [n] of them left from index [i] on. *)
Fixpoint read_operands (op : OpCallback) (n i : nat) : OP bool :=
  match n with
  | O => ret true
  | S n' =>
      value <- on_memory (ReadEncodedValue A (operand_encoding op i)) ;;
      match value with
      | None =>
          cur <- on_memory cur_offset ;;
          op_error_at DWARF_ERROR_MEMORY_INVALID cur
      | Some v =>
          modify (fun s => put_operands (operands_ s ++ [addr A v]) s) ;;
          read_operands op n' (S i)
      end
  end.

Definition Decode : OP bool :=
  modify (fun s => put_error (with_code DWARF_ERROR_NONE (last_error_ s)) s) ;;
  opcode <- on_memory (ReadUnsigned 1) ;;
  match opcode with
  | None =>
      cur <- on_memory cur_offset ;;
      op_error_at DWARF_ERROR_MEMORY_INVALID cur
  | Some cur_op =>
      modify (put_cur_op cur_op) ;;
      let op := op_callback cur_op in
      match kOpHandleFuncList (handle_func op) with
      | None => op_error DWARF_ERROR_ILLEGAL_VALUE
      | Some handle_func =>
          size <- StackSize ;;
          if size <? num_required_stack_values op then op_error DWARF_ERROR_STACK_INDEX_NOT_VALID
          else
            modify (put_operands []) ;;
            ok <- read_operands op (Z.to_nat (num_operands op)) 0 ;;
            if (ok : bool) then handle_func else ret false
      end
  end.

(** The main loop of [Eval]. *)
Fixpoint eval_loop (fuel : nat) (fin iterations : Z) : OP bool :=
  match fuel with
  | O => fail OutOfFuel
  | S fuel' =>
      cur <- on_memory cur_offset ;;
      if cur <? fin then
        ok <- Decode ;;
        if (ok : bool) then
          if iterations =? 1000 then op_error DWARF_ERROR_TOO_MANY_ITERATIONS
          else eval_loop fuel' fin (u32 (iterations + 1))
        else ret false
      else ret true
  end.

(** From 2 to 1000 iterations, and the last test of the condition. *)
Definition eval_fuel : nat := 1000.

(** Whether the first instruction was [OP_const4u 'DEX1']. *)
Definition is_dex_const : OP bool :=
  s <- get ;;
  if cur_op_ s =? 0x0c then
    v <- some_or (Undef UbOperandIndex) (last (operands_ s)) ;;
    ret (v =? 0x31584544)
  else ret false.

Definition Eval (start fin : Z) : OP bool :=
  modify (fun s => put_stack [] (put_is_register false s)) ;;
  on_memory (set_cur_offset start) ;;
  modify (put_dex_pc_set false) ;;
  cur <- on_memory cur_offset ;;
  if cur <? fin then
    ok <- Decode ;;
    if (ok : bool) then
      check_for_drop <- is_dex_const ;;
      cur <- on_memory cur_offset ;;
      if cur <? fin then
        ok <- Decode ;;
        if (ok : bool) then
          s <- get ;;
          (if check_for_drop && (cur_op_ s =? 0x13) then modify (put_dex_pc_set true) else ret tt) ;;
          eval_loop eval_fuel fin 2
        else ret false
      else ret true
    else ret false
  else ret true.
End Ops.

(** * Rules for the primitives *)

Section Rules.
Implicit Types (s : DwarfOp) (F : fault -> Prop).

Lemma wp_on_memory {B} F (m : DM B) Q s :
  wp F (on_memory m) Q s = wp F m (fun b d => Q b (put_memory d s)) (op_memory s).
Proof. apply wp_zoom. Qed.

Lemma wp_on_regs_info {B} F (m : M RegsInfo B) Q s :
  wp F (on_regs_info m) Q s
  = match op_regs_info s with
    | Some i => wp F m (fun b i' => Q b (put_regs_info (Some i') s)) i
    | None => F (Undef UbNull)
    end.
Proof. unfold on_regs_info. wp_simpl. by destruct (op_regs_info s); wp_simpl. Qed.

Lemma wp_op_error F c Q s :
  wp F (op_error c) Q s = Q false (put_error (with_code c (last_error_ s)) s).
Proof. reflexivity. Qed.

Lemma wp_op_error_at F c a Q s : wp F (op_error_at c a) Q s = Q false (put_error (mkError c a) s).
Proof. reflexivity. Qed.

Lemma wp_StackAt F i Q s :
  wp F (StackAt i) Q s
  = match stack_ s !! Z.to_nat i with Some v => Q v s | None => F (Undef UbStackIndex) end.
Proof. unfold StackAt. by wp_simpl. Qed.

Lemma wp_StackSize F Q s : wp F StackSize Q s = Q (Z.of_nat (length (stack_ s))) s.
Proof. reflexivity. Qed.

Lemma wp_StackPop F Q s :
  wp F StackPop Q s
  = match stack_ s with v :: t => Q v (put_stack t s) | [] => F (Undef UbStackIndex) end.
Proof. unfold StackPop. wp_simpl. by destruct (stack_ s). Qed.

Lemma wp_push_front F v Q s : wp F (push_front v) Q s = Q tt (put_stack (v :: stack_ s) s).
Proof. reflexivity. Qed.

Lemma wp_set_stack F i v Q s :
  wp F (set_stack i v) Q s
  = if (i <? length (stack_ s))%nat then Q tt (put_stack (<[i := v]> (stack_ s)) s)
    else F (Undef UbStackIndex).
Proof. unfold set_stack. by wp_simpl. Qed.

Lemma wp_OperandAt F i Q s :
  wp F (OperandAt i) Q s
  = match operands_ s !! i with Some v => Q v s | None => F (Undef UbOperandIndex) end.
Proof. unfold OperandAt. by wp_simpl. Qed.

Lemma put_memory_id s : put_memory (op_memory s) s = s.
Proof. by destruct s. Qed.

Lemma put_regs_info_id s i : op_regs_info s = Some i -> put_regs_info (Some i) s = s.
Proof. destruct s; simpl. by intros ->. Qed.
End Rules.

#[export] Hint Rewrite @wp_on_memory @wp_on_regs_info wp_op_error wp_op_error_at wp_StackAt
  wp_StackSize wp_StackPop wp_push_front wp_set_stack wp_OperandAt put_memory_id : wp.

(** Run a handler symbolically on a state given by its fields. *)
Ltac op_simpl :=
  repeat (progress (autorewrite with wp;
    change (Z.to_nat 0) with 0%nat; change (Z.to_nat 1) with 1%nat; change (Z.to_nat 2) with 2%nat;
    cbn [op_memory op_regs_info dex_pc_set_ is_register_ last_error_ cur_op_ operands_ stack_
      put_memory put_regs_info put_dex_pc_set put_is_register put_error put_cur_op put_operands
      put_stack lookup list_lookup insert list_insert length
      Nat.ltb Nat.leb])).
