(* ===== verification/DwarfOpSafety.v ===== *)
(** Safety of the DWARF expression evaluator ([DwarfOp.cpp]): the [num_required_stack_values]
    column of the opcode table covers what each handler accesses, so that evaluation stays within
    the stack and the operands (with the exception of [DW_OP_pick]), keeps every stack entry a
    value of [AddressType], reports an error exactly when it fails, and ends. *)
From Stdlib Require Import ZArith Lia Bool Strings.Byte.
From stdpp Require Import base numbers list gmap.
From S2P Require Import Prelude Memory DwarfMemory DwarfStructs Regs DwarfOpTable DwarfOp.
#[local] Open Scope Z_scope.

(** * The invariant of the evaluator *)

Section Invariant.
Context (A : addr_type) (regular_memory : Memory) (orig : list Z).
Hypothesis Horig : Forall (in_u (bits A)) orig.

(** Stack entries and operands are [AddressType] values, the cursor is an offset, and the
    registers show their original values. *)
Definition op_inv (s : DwarfOp) : Prop :=
  Forall (in_u (bits A)) (stack_ s) /\ Forall (in_u (bits A)) (operands_ s) /\
  in_u 64 (cur_offset_ (op_memory s)) /\ 0 <= cur_op_ s < 256 /\
  exists i, op_regs_info s = Some i /\ info_shows orig i.

(** The number of stack values a handler accesses, and of operands. *)
Definition stack_need (h : DwarfOpHandleFunc) : Z :=
  match h with
  | OP_ILLEGAL | OP_PUSH | OP_PICK | OP_SKIP | OP_LIT | OP_REG | OP_REGX | OP_BREG | OP_BREGX
  | OP_NOP | OP_NOT_IMPLEMENTED => 0
  | OP_DEREF | OP_DEREF_SIZE | OP_DUP | OP_DROP | OP_ABS | OP_NEG | OP_NOT | OP_PLUS_UCONST
  | OP_BRA => 1
  | OP_ROT => 3
  | _ => 2
  end.

Definition operand_need (h : DwarfOpHandleFunc) : Z :=
  match h with
  | OP_DEREF_SIZE | OP_PICK | OP_PLUS_UCONST | OP_BRA | OP_SKIP | OP_REGX | OP_BREG => 1
  | OP_BREGX => 2
  | _ => 0
  end.

(** Every entry of the table requires what its handler accesses, and [0x15] is the only opcode
    that picks. *)
Definition entry_adequate (n : nat) : bool :=
  let op := op_callback (Z.of_nat n) in
  (stack_need (handle_func op) <=? num_required_stack_values op) &&
  (operand_need (handle_func op) <=? num_operands op) && (num_operands op <=? 2) &&
  (Bool.eqb (bool_decide (handle_func op = OP_PICK)) (n =? 0x15)%nat).

Lemma table_adequate : forallb entry_adequate (seq 0 256) = true.
Proof. by vm_compute. Qed.

(** The faults a handler may raise: an out-of-range shift count or signed overflow; [OP_PICK]
    also an index out of the stack. *)
Definition handler_fault (h : DwarfOpHandleFunc) (f : fault) : Prop :=
  f = Undef UbShift \/ f = Undef UbOverflow \/ (f = Undef UbStackIndex /\ h = OP_PICK).

(** Success leaves the error code alone, failure sets one; opcode and operands stay. *)
Definition handler_post (s : DwarfOp) (b : bool) (s' : DwarfOp) : Prop :=
  op_inv s' /\ operands_ s' = operands_ s /\ cur_op_ s' = cur_op_ s /\
  (if b then last_error_ s' = last_error_ s else code (last_error_ s') <> DWARF_ERROR_NONE).

Lemma in_u_mod v t : in_u (bits A) v -> in_u (bits A) t -> t <> 0 -> in_u (bits A) (v mod t).
Proof. unfold in_u. intros ? ? ?. pose proof (Z.mod_pos_bound v t). lia. Qed.

Lemma in_u_shiftr v t : in_u (bits A) v -> 0 <= t -> in_u (bits A) (Z.shiftr v t).
Proof.
  unfold in_u. intros [? ?] ?. rewrite Z.shiftr_div_pow2 by done. split.
  - apply Z.div_pos; [done|]. by apply pow2_pos.
  - apply Z.le_lt_trans with v; [|done]. apply Z.div_le_upper_bound; [by apply pow2_pos|].
    pose proof (pow2_pos t). nia.
Qed.

Lemma in_u_bool b : in_u (bits A) (bool_to_dwarf_bool b).
Proof. unfold in_u. destruct b, A; simpl; lia. Qed.

Lemma in_u_le_val n bs : len bs = n -> 8 * n <= bits A -> in_u (bits A) (le_val bs).
Proof.
  intros Hl Hn. pose proof (le_val_range bs) as Hr. fold (len bs) in Hr. rewrite Hl in Hr.
  apply (in_u_mono (8 * n)); [unfold len in Hl; lia|done].
Qed.

Lemma fold_push_range l st :
  Forall (in_u (bits A)) l -> Forall (in_u (bits A)) st ->
  Forall (in_u (bits A)) (fold_left (fun st o => o :: st) l st).
Proof. revert st. induction l; intros st Hl Hs; [done|]. apply Forall_cons in Hl as [? ?]. simpl. auto. Qed.

(** Close the invariant of a handler's final state. *)
Ltac solve_u :=
  first
    [ done
    | lia
    | apply addr_range
    | apply in_u_bool
    | apply in_u_land; (lia || assumption)
    | apply in_u_lor; (lia || assumption)
    | apply in_u_lxor; (lia || assumption)
    | apply in_u_mod; assumption
    | apply in_u_shiftr; [assumption|unfold in_u in *; lia]
    | apply wrap_range; lia
    | (eapply in_u_le_val; [eapply ReadFully_len; eassumption|])
    | idtac ].

Ltac solve_op_inv :=
  split;
  [ unfold op_inv; cbn [stack_ operands_ op_memory cur_op_ op_regs_info cur_offset_ put_stack
      put_memory put_error put_is_register put_regs_info put_operands put_cur_op put_dex_pc_set put_cur];
    split_and?; rewrite ?Forall_cons, ?Forall_nil; split_and?; eauto; solve_u
  | first [done | discriminate | reflexivity] ].

Lemma push_reg_safe h s reg (n : nat) :
  op_inv s -> 0 <= reg -> (n < length (operands_ s))%nat ->
  wp (handler_fault h) (push_reg A reg n) (handler_post s) s.
Proof.
  intros (Hst & Hop & Hc & Hcur & i & Hi & Hsh) Hr Hn. unfold push_reg. wp_simpl. rewrite Hi.
  wp_simpl. destruct (Z.leb_spec (Total i) reg); wp_simpl.
  { solve_op_inv.
  }
  pose proof Hsh as (Ht & Hm & _). unfold Total, total_regs in *.
  destruct (lookup_lt_is_Some_2 orig (Z.to_nat reg) ltac:(lia)) as [v Hv].
  cbn [op_regs_info put_regs_info]. eapply (Get_shows _ orig); [done|done|done|].
  destruct (lookup_lt_is_Some_2 (operands_ s) n ltac:(lia)) as [o Ho]. wp_simpl.
  cbn [operands_ put_regs_info]. rewrite Ho. wp_simpl. solve_op_inv.
Qed.

(** Open a handler on a state whose stack and operands have the needed lengths. *)
Ltac open_handler s :=
  let mem := fresh "mem" in let ri := fresh "ri" in let dex := fresh "dex" in
  let isr := fresh "isr" in let err := fresh "err" in let cur := fresh "cur" in
  let ops := fresh "ops" in let st := fresh "st" in
  pose proof (bits_pos A) as Hbits;
  intros (Hst & Hop & Hc & Hcur & i & Hi & Hsh) Hs Ho;
  destruct s as [mem ri dex isr err cur ops st]; simpl in Hst, Hop, Hc, Hcur, Hi, Hs, Ho;
  lazymatch type of Hs with
  | 1 <= _ => destruct st as [|x st]
  | 2 <= _ => destruct st as [|x [|y st]]
  | 3 <= _ => destruct st as [|x [|y [|z st]]]
  | _ => idtac
  end; simpl in Hs; try lia;
  lazymatch type of Ho with 1 <= _ => destruct ops as [|o1 ops] | _ => idtac end;
  simpl in Ho; try lia;
  repeat match goal with H : Forall _ (_ :: _) |- _ => apply Forall_cons in H as [? H] end;
  op_simpl.

Definition safe_handler (h : DwarfOpHandleFunc) (m : OP bool) : Prop :=
  forall s, op_inv s ->
  stack_need h <= Z.of_nat (length (stack_ s)) -> operand_need h <= Z.of_nat (length (operands_ s)) ->
  wp (handler_fault h) m (handler_post s) s.

Lemma safe_dup : safe_handler OP_DUP (op_dup).
Proof. intros s. unfold op_dup. open_handler s; solve_op_inv. Qed.
Lemma safe_drop : safe_handler OP_DROP (op_drop).
Proof. intros s. unfold op_drop. open_handler s; solve_op_inv. Qed.
Lemma safe_over : safe_handler OP_OVER (op_over).
Proof. intros s. unfold op_over. open_handler s; solve_op_inv. Qed.
Lemma safe_swap : safe_handler OP_SWAP (op_swap).
Proof. intros s. unfold op_swap. open_handler s; solve_op_inv. Qed.
Lemma safe_rot : safe_handler OP_ROT (op_rot).
Proof. intros s. unfold op_rot. open_handler s; solve_op_inv. Qed.
Lemma safe_and : safe_handler OP_AND (op_and).
Proof. intros s. unfold op_and. open_handler s; solve_op_inv. Qed.
Lemma safe_minus : safe_handler OP_MINUS (op_minus A).
Proof. intros s. unfold op_minus. open_handler s; solve_op_inv. Qed.
Lemma safe_mul : safe_handler OP_MUL (op_mul A).
Proof. intros s. unfold op_mul. open_handler s; solve_op_inv. Qed.
Lemma safe_not : safe_handler OP_NOT (op_not A).
Proof. intros s. unfold op_not. open_handler s; solve_op_inv. Qed.
Lemma safe_or : safe_handler OP_OR (op_or).
Proof. intros s. unfold op_or. open_handler s; solve_op_inv. Qed.
Lemma safe_plus : safe_handler OP_PLUS (op_plus A).
Proof. intros s. unfold op_plus. open_handler s; solve_op_inv. Qed.
Lemma safe_plus_uconst : safe_handler OP_PLUS_UCONST (op_plus_uconst A).
Proof. intros s. unfold op_plus_uconst. open_handler s; solve_op_inv. Qed.
Lemma safe_xor : safe_handler OP_XOR (op_xor).
Proof. intros s. unfold op_xor. open_handler s; solve_op_inv. Qed.
Lemma safe_lit : safe_handler OP_LIT (op_lit A).
Proof. intros s. unfold op_lit. open_handler s; solve_op_inv. Qed.
Lemma safe_reg : safe_handler OP_REG (op_reg A).
Proof. intros s. unfold op_reg. open_handler s; solve_op_inv. Qed.
Lemma safe_regx : safe_handler OP_REGX (op_regx).
Proof. intros s. unfold op_regx. open_handler s; solve_op_inv. Qed.
Lemma safe_nop : safe_handler OP_NOP (op_nop).
Proof. intros s. unfold op_nop. open_handler s; solve_op_inv. Qed.
Lemma safe_not_implemented : safe_handler OP_NOT_IMPLEMENTED (op_not_implemented).
Proof. intros s. unfold op_not_implemented. open_handler s; solve_op_inv. Qed.

Lemma safe_compare h cmp : stack_need h = 2 -> safe_handler h (op_compare cmp).
Proof. intros E s. unfold op_compare. rewrite E. open_handler s; solve_op_inv. Qed.

Lemma safe_push : safe_handler OP_PUSH op_push.
Proof.
  intros s (Hst & Hop & Hc & Hcur & Hi) _ _. unfold op_push. wp_simpl. split; [|done].
  split; [by apply fold_push_range|]. done.
Qed.

Lemma size_of_bits : 8 * size_of A = bits A.
Proof. by destruct A. Qed.

Lemma safe_deref : safe_handler OP_DEREF (op_deref A regular_memory).
Proof.
  intros s. unfold op_deref. pose proof size_of_bits. open_handler s.
  all: destruct (ReadFully _ _ _) as [bs|] eqn:E; op_simpl; solve_op_inv; lia.
Qed.

Lemma safe_deref_size : safe_handler OP_DEREF_SIZE (op_deref_size A regular_memory).
Proof.
  intros s. unfold op_deref_size. pose proof size_of_bits. open_handler s.
  all: destruct (Z.ltb_spec (size_of A) o1), (Z.eqb_spec o1 0); cbn [orb]; op_simpl; try solve_op_inv.
  all: destruct (ReadFully _ _ _) as [bs|] eqn:E; op_simpl; solve_op_inv; lia.
Qed.

Lemma safe_pick : safe_handler OP_PICK op_pick.
Proof.
  intros s Hinv _ Ho. pose proof Hinv as (Hst & Hop & Hc & Hcur & Hi). unfold op_pick. wp_simpl.
  destruct (operands_ s) as [|o ops] eqn:Eo; [simpl in Ho; lia|]. simpl. wp_simpl.
  destruct (_ <? _); wp_simpl.
  - split; [|done]. by rewrite <- Eo in Hop.
  - destruct (stack_ s !! Z.to_nat o) as [v|] eqn:Ev; [|right; right; done]. wp_simpl.
    split; [|done]. split; [|by rewrite <- Eo in Hop]. cbn. apply Forall_cons. split; [|done].
    by apply (proj1 (Forall_lookup _ _) Hst (Z.to_nat o)).
Qed.

Lemma wp_signed_neg h v Q s :
  (v <> - 2 ^ (bits A - 1) -> Q (- v) s) -> wp (handler_fault h) (signed_neg A v) Q s.
Proof.
  intros H. unfold signed_neg. destruct (Z.eqb_spec v (- 2 ^ (bits A - 1))); wp_simpl; [|auto].
  right. by left.
Qed.

Lemma safe_abs : safe_handler OP_ABS (op_abs A).
Proof.
  intros s. unfold op_abs. open_handler s.
  all: destruct (_ <? 0); [apply wp_signed_neg; intros _|]; op_simpl; solve_op_inv.
Qed.

Lemma safe_neg : safe_handler OP_NEG (op_neg A).
Proof.
  intros s. unfold op_neg. open_handler s.
  all: apply wp_signed_neg; intros _; op_simpl; solve_op_inv.
Qed.

Lemma safe_div : safe_handler OP_DIV (op_div A).
Proof.
  intros s. unfold op_div. open_handler s.
  all: destruct (x =? 0); op_simpl; [solve_op_inv|].
  all: destruct (_ && _); op_simpl; [right; by left|solve_op_inv].
Qed.

Lemma safe_mod : safe_handler OP_MOD op_mod.
Proof.
  intros s. unfold op_mod. open_handler s.
  all: destruct (Z.eqb_spec x 0); op_simpl; solve_op_inv.
Qed.

Lemma safe_shl : safe_handler OP_SHL (op_shl A).
Proof. intros s. unfold op_shl. open_handler s. all: destruct (_ <=? _); op_simpl; [by left|solve_op_inv]. Qed.
Lemma safe_shr : safe_handler OP_SHR (op_shr A).
Proof. intros s. unfold op_shr. open_handler s. all: destruct (_ <=? _); op_simpl; [by left|solve_op_inv]. Qed.
Lemma safe_shra : safe_handler OP_SHRA (op_shra A).
Proof. intros s. unfold op_shra. open_handler s. all: destruct (_ <=? _); op_simpl; [by left|solve_op_inv]. Qed.

Lemma safe_bra : safe_handler OP_BRA op_bra.
Proof.
  intros s. unfold op_bra. open_handler s.
  all: destruct (negb _); op_simpl; solve_op_inv.
Qed.

Lemma safe_skip : safe_handler OP_SKIP op_skip.
Proof. intros s. unfold op_skip. open_handler s; op_simpl; solve_op_inv. Qed.

Lemma safe_bregx : safe_handler OP_BREGX (op_bregx A).
Proof.
  intros s Hinv _ Ho. unfold op_bregx. wp_simpl.
  destruct (operands_ s) as [|o ops] eqn:Eo; [simpl in Ho; lia|]. simpl in Ho |- *.
  apply push_reg_safe; [done| |rewrite Eo; simpl; lia].
  destruct Hinv as (_ & Hop & _). rewrite Eo in Hop. apply Forall_cons in Hop as [[? _] _]. done.
Qed.

Lemma safe_breg s :
  op_inv s -> 1 <= Z.of_nat (length (operands_ s)) -> wp (handler_fault OP_BREG) (op_breg A) (handler_post s) s.
Proof.
  intros Hinv Ho. unfold op_breg. wp_simpl. apply push_reg_safe; [done| |lia].
  apply wrap_range; lia.
Qed.

(** Every handler is safe on the stack and operands its table entry guarantees. *)
Lemma handler_safe h m : kOpHandleFuncList A regular_memory h = Some m -> safe_handler h m.
Proof.
  destruct h; simpl; intros E; inversion E; subst;
    first [apply safe_compare; reflexivity | solve [eauto using safe_dup, safe_drop, safe_over, safe_swap,
      safe_rot, safe_and, safe_minus, safe_mul, safe_not, safe_or, safe_plus, safe_plus_uconst, safe_xor,
      safe_lit, safe_reg, safe_regx, safe_nop, safe_not_implemented, safe_push, safe_deref,
      safe_deref_size, safe_pick, safe_abs, safe_neg, safe_div, safe_mod, safe_shl, safe_shr, safe_shra,
      safe_bra, safe_skip, safe_bregx] | intros s ? _ ?; by apply safe_breg].
Qed.

(** ** Decoding *)

(** The opcode at the cursor. *)
Definition next_op (s : DwarfOp) : option Z :=
  le_val <$> ReadFully (memory_ (op_memory s)) (cur_offset_ (op_memory s)) 1.

(** The faults of one [Decode]: a shift count or signed overflow in the handler (or the shift
    count of a LEB128 operand); a stack access out of range only for [DW_OP_pick]. *)
Definition decode_fault (op : option Z) (f : fault) : Prop :=
  f = Undef UbShift \/ f = Undef UbOverflow \/ (f = Undef UbStackIndex /\ op = Some 0x15).

Definition decode_post (b : bool) (s : DwarfOp) : Prop :=
  op_inv s /\ (b = true <-> code (last_error_ s) = DWARF_ERROR_NONE) /\
  (b = true -> Z.of_nat (length (operands_ s)) = Z.max 0 (num_operands (op_callback (cur_op_ s)))).

Lemma op_inv_memory s d' r :
  op_inv s -> read_post (op_memory s) r d' -> op_inv (put_memory d' s).
Proof. intros (? & ? & Hc & ? & ?) (_ & Hc' & _).
  split; [done|split; [done|split; [apply Hc', Hc|split; done]]]. Qed.

(** The operands are read one by one, [n] of them. *)
Lemma read_operands_post op n i s :
  op_inv s -> code (last_error_ s) = DWARF_ERROR_NONE ->
  wp (fun f => f = Undef UbShift) (read_operands A op n i)
    (fun b s' => op_inv s' /\ stack_ s' = stack_ s /\ cur_op_ s' = cur_op_ s /\
       if b then last_error_ s' = last_error_ s /\
                 length (operands_ s') = (length (operands_ s) + n)%nat
       else code (last_error_ s') <> DWARF_ERROR_NONE) s.
Proof.
  revert i s. induction n as [|n IH]; intros i s Hinv He; cbn [read_operands]; wp_simpl.
  { rewrite Nat.add_0_r. done. }
  eapply wp_mono; [apply ReadEncodedValue_post|done|]. intros [v|] d' Hp; wp_simpl.
  - pose proof (op_inv_memory _ _ _ Hinv Hp) as Hinv'.
    eapply wp_mono; [apply IH|done|].
    + destruct Hinv' as (? & Hop & ?). split; [done|]. split; [|done]. cbn [operands_ put_operands].
      apply Forall_app. split; [done|]. apply Forall_cons. split; [apply addr_range|done].
    + done.
    + intros b s' (? & ? & ? & Hb). split; [done|split; [done|split; [done|]]]. destruct b; [|done].
      destruct Hb as [? Hl]. split; [done|]. rewrite Hl. cbn. rewrite length_app. simpl. lia.
  - split; [exact (op_inv_memory _ _ _ Hinv Hp)|done].
Qed.

Lemma entry_adequate_all o :
  0 <= o < 256 ->
  stack_need (handle_func (op_callback o)) <= num_required_stack_values (op_callback o) /\
  operand_need (handle_func (op_callback o)) <= num_operands (op_callback o) /\
  (handle_func (op_callback o) = OP_PICK -> o = 0x15).
Proof.
  intros Ho. pose proof table_adequate as Ht. rewrite forallb_forall in Ht.
  specialize (Ht (Z.to_nat o)). unfold entry_adequate in Ht. rewrite Z2Nat.id in Ht by lia.
  specialize (Ht ltac:(apply in_seq; lia)). rewrite !andb_true_iff, !Z.leb_le in Ht.
  destruct Ht as [[[? ?] _] He]. split_and!; [done|done|]. intros Hp.
  apply eqb_prop in He. rewrite bool_decide_true in He by done. symmetry in He.
  apply Nat.eqb_eq in He. lia.
Qed.

Lemma Decode_safe s :
  op_inv s -> wp (decode_fault (next_op s)) (Decode A regular_memory) decode_post s.
Proof.
  intros Hinv. unfold Decode. wp_simpl. cbn [op_memory put_error].
  unfold next_op. destruct (ReadFully _ _ _) as [bs|] eqn:R; wp_simpl; simpl fmap.
  2:{ split; [exact Hinv|done]. }
  apply ReadFully_len in R. pose proof (le_val_range bs) as Hb. fold (len bs) in Hb. rewrite R in Hb.
  change (2 ^ (8 * 1)) with 256 in Hb. set (o := le_val bs) in *.
  destruct (entry_adequate_all o Hb) as (Hst & Hop & Hpick).
  set (s1 := put_cur_op _ _).
  assert (op_inv s1) as Hinv1.
  { destruct Hinv as (?&?&?&?&?).
    split; [done|split; [done|split; [simpl; apply wrap_range; lia|split; done]]]. }
  destruct (kOpHandleFuncList A regular_memory (handle_func (op_callback o))) as [m|] eqn:Em; wp_simpl; [|done].
  destruct (Z.ltb_spec (Z.of_nat (length (stack_ s1))) (num_required_stack_values (op_callback o))); wp_simpl.
  { split; [exact Hinv1|done]. }
  eapply wp_mono; [apply read_operands_post|by left|].
  { destruct Hinv1 as (?&?&?&?&?). split; [done|split; [done|split; [done|split; done]]]. }
  { done. }
  intros [] s2 (Hinv2 & Hst2 & Hcur2 & Hb2); wp_simpl;
    [|split; [done|split; [split; [done|intros ?; contradiction]|done]]].
  destruct Hb2 as [He2 Hl2].
  eapply wp_mono; [apply (handler_safe _ _ Em); [done| |]| |].
  - rewrite Hst2. change (stack_ (put_operands [] s1)) with (stack_ s1). lia.
  - rewrite Hl2. change (operands_ (put_operands [] s1)) with (@nil Z). simpl length. lia.
  - intros f [->|[->|[-> Hpk]]]; [by left|by right; left|right; right]. split; [done|].
    f_equal. by apply Hpick.
  - intros b s3 (Hinv3 & Ho3 & Hc3 & He3). split; [done|]. split.
    + destruct b; [rewrite He3, He2; done|split; [done|intros ?; contradiction]].
    + intros _. rewrite Ho3, Hl2, Hc3, Hcur2. change (cur_op_ (put_operands [] s1)) with o.
      change (operands_ (put_operands [] s1)) with (@nil Z). simpl length. lia.
Qed.

(** ** Evaluation *)

(** The faults of an evaluation. *)
Definition eval_fault (f : fault) : Prop :=
  f = Undef UbShift \/ f = Undef UbOverflow \/ f = Undef UbStackIndex.

Definition eval_post (b : bool) (s : DwarfOp) : Prop :=
  op_inv s /\ (b = true <-> code (last_error_ s) = DWARF_ERROR_NONE).

Lemma decode_fault_eval o f : decode_fault o f -> eval_fault f.
Proof. intros [?|[?|[? _]]]; [by left|by right; left|by right; right]. Qed.

Lemma Decode_eval_safe s : op_inv s -> wp eval_fault (Decode A regular_memory) decode_post s.
Proof. intros. eapply wp_mono; [by apply Decode_safe|apply decode_fault_eval|done]. Qed.

Lemma eval_loop_safe fuel fin it s :
  op_inv s -> code (last_error_ s) = DWARF_ERROR_NONE -> 2 <= it <= 1000 -> 1001 - it < Z.of_nat fuel ->
  wp eval_fault (eval_loop A regular_memory fuel fin it) eval_post s.
Proof.
  revert it s. induction fuel as [|fuel IH]; intros it s Hinv He Hit Hf; [lia|].
  cbn [eval_loop]. wp_simpl. destruct (_ <? fin); wp_simpl; [|done].
  eapply wp_mono; [by apply Decode_eval_safe|done|]. intros [] s1 (Hinv1 & He1 & Hn1); wp_simpl; [|done].
  destruct (Z.eqb_spec it 1000); wp_simpl; [done|].
  rewrite wrap_small by (unfold in_u; lia). apply IH; [done|by apply He1|lia|lia].
Qed.

Lemma is_dex_const_safe (Q : bool -> DwarfOp -> Prop) s :
  op_inv s -> Z.of_nat (length (operands_ s)) = Z.max 0 (num_operands (op_callback (cur_op_ s))) ->
  (forall b, Q b s) -> wp eval_fault is_dex_const Q s.
Proof.
  intros Hinv Hn HQ. unfold is_dex_const. wp_simpl.
  destruct (Z.eqb_spec (cur_op_ s) 12) as [E|]; wp_simpl; [|done].
  rewrite E in Hn. change (Z.max 0 _) with 1 in Hn.
  destruct (operands_ s) as [|x [|]] eqn:Eo; simpl in Hn; try lia. apply HQ.
Qed.

Lemma Eval_safe start fin s :
  op_inv s -> code (last_error_ s) = DWARF_ERROR_NONE -> in_u 64 start ->
  wp eval_fault (Eval A regular_memory start fin) eval_post s.
Proof.
  intros (Hst & Hop & Hc & Hcur & Hi) He Hstart. unfold Eval. wp_simpl.
  set (s1 := put_dex_pc_set false _).
  assert (op_inv s1) as Hinv1 by (split; [done|split; [done|split; [done|split; done]]]).
  assert (code (last_error_ s1) = DWARF_ERROR_NONE) as He1 by done.
  destruct (_ <? fin); wp_simpl; [|done].
  eapply wp_mono; [by apply Decode_eval_safe|done|].
  intros [] s2 (Hinv2 & He2 & Hn2); wp_simpl; [|done].
  eapply is_dex_const_safe; [done|by apply Hn2|]. intros drop. wp_simpl. destruct (_ <? fin); wp_simpl; [|done].
  eapply wp_mono; [by apply Decode_eval_safe|done|].
  intros [] s3 (Hinv3 & He3 & Hn3); wp_simpl; [|done].
  destruct (drop && (cur_op_ s3 =? 19)); wp_simpl; (apply eval_loop_safe; [exact Hinv3|by apply He3|lia|unfold eval_fuel; lia]).
Qed.
End Invariant.

(** * Properties *)

(** One [Decode] from any well-formed state: the stack and operand accesses of every handler
    stay in range (only [DW_OP_pick], opcode 0x15, can index past the stack), no register access
    goes out of range, nothing aborts; the only other faults are shift counts and signed overflow.
    The invariant is kept, and the error code is set exactly when [Decode] returns [false]. *)
Theorem dwarf_op_decode_safe A regular_memory orig s
  (Horig : Forall (in_u (bits A)) orig) (Hs : op_inv A orig s) :
  wp (fun f => f = Undef UbShift \/ f = Undef UbOverflow \/
               (f = Undef UbStackIndex /\ next_op s = Some 0x15))
    (Decode A regular_memory)
    (fun b s' => op_inv A orig s' /\ (b = true <-> code (last_error_ s') = DWARF_ERROR_NONE)) s.
Proof.
  eapply wp_mono; [by apply Decode_safe|done|]. intros b s' (? & ? & _). done.
Qed.

(** C29. [Eval] ends on every expression, terminating or not by itself: the bound of 1000
    iterations makes the loop total (the fault [OutOfFuel] is impossible), the registers are never
    accessed out of range, and [Eval] returns [true] exactly when no error was recorded. *)
Theorem dwarf_op_eval_total A regular_memory orig start fin s
  (Horig : Forall (in_u (bits A)) orig) (Hs : op_inv A orig s)
  (He : code (last_error_ s) = DWARF_ERROR_NONE) (Hstart : in_u 64 start) :
  wp (fun f => f = Undef UbShift \/ f = Undef UbOverflow \/ f = Undef UbStackIndex)
    (Eval A regular_memory start fin)
    (fun b s' => op_inv A orig s' /\ (b = true <-> code (last_error_ s') = DWARF_ERROR_NONE)) s.
Proof. by apply Eval_safe. Qed.

(** * Witnesses *)

(** Sixteen registers, and an expression that branches to itself for ever: [DW_OP_skip -3]. *)
Definition demo_regs : Regs := new_regs 16 15 13.

Definition demo_op (code : list byte) : DwarfOp :=
  new_DwarfOp (buffer_dm code) (Some (new_regs_info demo_regs)).

Lemma demo_op_inv code : op_inv U64 (replicate 16 0) (demo_op code).
Proof.
  split; [constructor|]. split; [constructor|]. split; [unfold in_u; simpl; lia|].
  split; [simpl; lia|]. eexists. split; [reflexivity|].
  apply (new_regs_info_shows U64 demo_regs). split_and!; try done.
  by apply Forall_replicate.
Qed.

Lemma dwarf_op_decode_safe_witness :
  wp (fun f => f = Undef UbShift \/ f = Undef UbOverflow \/
               (f = Undef UbStackIndex /\ next_op (demo_op [x22]) = Some 0x15))
    (Decode U64 (mkMemory (fun _ _ => [])))
    (fun b s' => op_inv U64 (replicate 16 0) s' /\
                 (b = true <-> code (last_error_ s') = DWARF_ERROR_NONE)) (demo_op [x22]).
Proof.
  apply (dwarf_op_decode_safe U64 (mkMemory (fun _ _ => [])) (replicate 16 0)).
  - by apply Forall_replicate.
  - apply demo_op_inv.
Defined.

Lemma dwarf_op_eval_total_witness :
  wp (fun f => f = Undef UbShift \/ f = Undef UbOverflow \/ f = Undef UbStackIndex)
    (Eval U64 (mkMemory (fun _ _ => [])) 0 3)
    (fun b s' => op_inv U64 (replicate 16 0) s' /\
                 (b = true <-> code (last_error_ s') = DWARF_ERROR_NONE)) (demo_op [x2f; xfd; xff]).
Proof.
  apply (dwarf_op_eval_total U64 (mkMemory (fun _ _ => [])) (replicate 16 0)).
  - by apply Forall_replicate.
  - apply demo_op_inv.
  - reflexivity.
  - unfold in_u; lia.
Defined.

(** The looping expression runs into the bound. *)
Example eval_skip_loop :
  match Eval U64 (mkMemory (fun _ _ => [])) 0 3 (demo_op [x2f; xfd; xff]) with
  | Done (b, s) => b = false /\ code (last_error_ s) = DWARF_ERROR_TOO_MANY_ITERATIONS
  | Fault _ => False
  end.
Proof. vm_compute. split; reflexivity. Qed.
