(* ===== verification/DwarfOpExpr.v ===== *)
(** Functional correctness of the DWARF expression evaluator ([DwarfOp.cpp]): decoding inverts the
    encoding that the opcode table prescribes, expression trees compiled to DWARF evaluate to their
    meaning, and the branch and pick instructions behave as stated. *)
From Stdlib Require Import ZArith Lia Bool Strings.Byte.
From stdpp Require Import base numbers list gmap.
From S2P Require Import Prelude Memory DwarfMemory DwarfEncode DwarfStructs Regs DwarfOpTable DwarfOp DwarfOpSafety.
#[local] Open Scope Z_scope.

(** * Encoding of instructions *)

Section Encoding.
Context (A : addr_type).

Fixpoint encode_operands (op : OpCallback) (vals : list Z) (i : nat) : list byte :=
  match vals with
  | [] => []
  | v :: vs => encode_operand A (operand_encoding op i) v ++ encode_operands op vs (S i)
  end.

Fixpoint operands_ok (op : OpCallback) (vals : list Z) (i : nat) : Prop :=
  match vals with
  | [] => True
  | v :: vs => operand_ok A (operand_encoding op i) v /\ operands_ok op vs (S i)
  end.

(** An instruction: an opcode and its operands. *)
Definition instr : Type := Z * list Z.

Definition encode (i : instr) : list byte :=
  byte_of (fst i) :: encode_operands (op_callback (fst i)) (snd i) 0.

Definition instr_ok (i : instr) : Prop :=
  0 <= fst i < 256 /\ Z.of_nat (length (snd i)) = num_operands (op_callback (fst i)) /\
  operands_ok (op_callback (fst i)) (snd i) 0.

Definition encode_all (l : list instr) : list byte := concat (map encode l).

Lemma encode_all_app l1 l2 : encode_all (l1 ++ l2) = encode_all l1 ++ encode_all l2.
Proof. unfold encode_all. by rewrite map_app, concat_app. Qed.
End Encoding.

(** * Decoding inverts encoding *)

Section Decoding.
Context (A : addr_type) (regular_memory : Memory) (bm : Z -> option byte).
Implicit Types (s : DwarfOp) (d : DwarfMemory).

Lemma on_memory_run {B} (m : DM B) s b d' :
  m (op_memory s) = Done (b, d') -> on_memory m s = Done (b, put_memory d' s).
Proof. unfold on_memory, zoom. by intros ->. Qed.

Lemma read_operands_run op vals i s :
  operands_ok A op vals i -> at_bytes bm (op_memory s) (encode_operands A op vals i) ->
  read_operands A op (length vals) i s
  = Done (true, put_operands (operands_ s ++ map (addr A) vals)
                  (put_memory (skip (len (encode_operands A op vals i)) (op_memory s)) s)).
Proof.
  revert i s. induction vals as [|v vals IH]; intros i s Hok Ha.
  - destruct Ha as (_ & Hc & _). change (len (encode_operands A op [] i)) with 0. rewrite skip_0 by done.
    cbn. rewrite app_nil_r. by destruct s.
  - destruct Hok as [Hv Hok]. cbn [encode_operands] in *. apply (at_bytes_split bm) in Ha as [Hb Ha].
    cbn [read_operands length]. unfold bind at 1.
    rewrite (on_memory_run _ _ _ _ (ReadEncodedValue_run A bm _ _ _ Hv Hb)).
    cbn [bind modify]. unfold bind, modify. rewrite IH; [|done|done].
    cbn. rewrite skip_skip, <- app_assoc, addr_u64, len_app. done.
Qed.

(** The state in which the handler of [i] starts. *)
Definition ready (i : instr) s : DwarfOp :=
  put_operands (map (addr A) (snd i))
    (put_memory (skip (len (encode A i)) (op_memory s))
      (put_cur_op (fst i) (put_error (with_code DWARF_ERROR_NONE (last_error_ s)) s))).

Lemma Decode_run i h s :
  instr_ok A i -> kOpHandleFuncList A regular_memory (handle_func (op_callback (fst i))) = Some h ->
  num_required_stack_values (op_callback (fst i)) <= Z.of_nat (length (stack_ s)) ->
  at_bytes bm (op_memory s) (encode A i) ->
  Decode A regular_memory s = h (ready i s).
Proof.
  intros (Hop & Hn & Hok) Hh Hst Ha. unfold Decode, bind at 1, modify at 1.
  change (encode A i) with ([byte_of (fst i)] ++ encode_operands A (op_callback (fst i)) (snd i) 0) in Ha.
  apply (at_bytes_split bm) in Ha as [Hb Ha]. unfold bind at 1.
  erewrite on_memory_run; [|exact (ReadUnsigned_1_run bm _ _ Hb)].
  rewrite byte_val_of, Z.mod_small by lia. unfold bind at 1, modify at 1. rewrite Hh.
  unfold bind at 1. cbn [StackSize gets]. unfold StackSize, gets. cbn [stack_ put_memory put_error put_cur_op].
  rewrite (proj2 (Z.ltb_ge _ _)) by lia. unfold bind at 1, modify at 1. unfold bind at 1.
  rewrite <- Hn, Nat2Z.id. rewrite read_operands_run; [|done|done].
  unfold ready. f_equal. cbn [operands_ put_operands op_memory put_memory put_error put_cur_op].
  change (encode A i) with ([byte_of (fst i)] ++ encode_operands A (op_callback (fst i)) (snd i) 0).
  rewrite len_app, skip_skip. done.
Qed.
End Decoding.

(** * Expression trees *)

Inductive unop : Set := Abs | Neg | Not.
Inductive binop : Set :=
| And | Div | Minus | Mod | Mul | Or | Plus | Shl | Shr | Shra | Xor | Eq | Ge | Gt | Le | Lt | Ne.

(** Constants, register contents plus an offset, memory, and operators. *)
Inductive expr : Set :=
| ELit (v : Z)
| EReg (r off : Z)
| EDeref (e : expr)
| EDerefSize (n : Z) (e : expr)
| EPlusConst (e : expr) (c : Z)
| EUn (u : unop) (e : expr)
| EBin (b : binop) (e1 e2 : expr).

Section Meaning.
Context (A : addr_type) (regular_memory : Memory) (orig : list Z).

(** Arithmetic on [AddressType]; [None] where C++ leaves the result undefined. *)
Definition un_meaning (u : unop) (x : Z) : option Z :=
  match u with
  | Abs => if saddr A x =? - 2 ^ (bits A - 1) then None else Some (Z.abs (saddr A x))
  | Neg => if saddr A x =? - 2 ^ (bits A - 1) then None else Some (addr A (- x))
  | Not => Some (2 ^ bits A - 1 - x)
  end.

Definition bin_meaning (b : binop) (x y : Z) : option Z :=
  let cmp (c : bool) := Some (if c then 1 else 0) in
  match b with
  | And => Some (Z.land x y)
  | Or => Some (Z.lor x y)
  | Xor => Some (Z.lxor x y)
  | Plus => Some (addr A (x + y))
  | Minus => Some (addr A (x - y))
  | Mul => Some (addr A (x * y))
  | Div =>
      if (y =? 0) || ((saddr A x =? - 2 ^ (bits A - 1)) && (saddr A y =? -1)) then None
      else Some (addr A (Z.quot (saddr A x) (saddr A y)))
  | Mod => if y =? 0 then None else Some (x mod y)
  | Shl => if y <? bits A then Some (addr A (x * 2 ^ y)) else None
  | Shr => if y <? bits A then Some (x / 2 ^ y) else None
  | Shra => if y <? bits A then Some (addr A (saddr A x / 2 ^ y)) else None
  | Eq => cmp (x =? y)
  | Ge => cmp (y <=? x)
  | Gt => cmp (y <? x)
  | Le => cmp (x <=? y)
  | Lt => cmp (x <? y)
  | Ne => cmp (negb (x =? y))
  end.

(** The value of an expression over the register values [orig] and the process memory. *)
Fixpoint meaning (e : expr) : option Z :=
  match e with
  | ELit v => Some v
  | EReg r off => (fun x => addr A (x + off)) <$> orig !! Z.to_nat r
  | EDeref e => a ← meaning e; le_val <$> ReadFully regular_memory a (size_of A)
  | EDerefSize n e =>
      if (0 <? n) && (n <=? size_of A)
      then a ← meaning e; le_val <$> ReadFully regular_memory a n else None
  | EPlusConst e c => (fun x => addr A (x + c)) <$> meaning e
  | EUn u e => x ← meaning e; un_meaning u x
  | EBin b e1 e2 => x ← meaning e1; y ← meaning e2; bin_meaning b x y
  end.

(** The literals of an expression fit their encodings. *)
Fixpoint expr_ok (e : expr) : Prop :=
  match e with
  | ELit v => in_u (bits A) v
  | EReg r off => in_u (bits A) r /\ in_s 63 off
  | EDeref e | EDerefSize _ e | EUn _ e => expr_ok e
  | EPlusConst e c => expr_ok e /\ in_u 64 c
  | EBin _ e1 e2 => expr_ok e1 /\ expr_ok e2
  end.
End Meaning.

Definition un_opcode (u : unop) : Z := match u with Abs => 0x19 | Neg => 0x1f | Not => 0x20 end.

Definition bin_opcode (b : binop) : Z :=
  match b with
  | And => 0x1a | Div => 0x1b | Minus => 0x1c | Mod => 0x1d | Mul => 0x1e | Or => 0x21 | Plus => 0x22
  | Shl => 0x24 | Shr => 0x25 | Shra => 0x26 | Xor => 0x27
  | Eq => 0x29 | Ge => 0x2a | Gt => 0x2b | Le => 0x2c | Lt => 0x2d | Ne => 0x2e
  end.

(** Reverse Polish code, with the short forms of literals and register accesses. *)
Fixpoint flatten (e : expr) : list instr :=
  match e with
  | ELit v => [if v <? 32 then (0x30 + v, []) else (0x10, [v])]
  | EReg r off => [if r <? 32 then (0x70 + r, [off]) else (0x92, [r; off])]
  | EDeref e => flatten e ++ [(0x06, [])]
  | EDerefSize n e => flatten e ++ [(0x94, [n])]
  | EPlusConst e c => flatten e ++ [(0x23, [c])]
  | EUn u e => flatten e ++ [(un_opcode u, [])]
  | EBin b e1 e2 => flatten e1 ++ flatten e2 ++ [(bin_opcode b, [])]
  end.

Definition compile (A : addr_type) (e : expr) : list byte := encode_all A (flatten e).

Section Execution.
Context (A : addr_type) (regular_memory : Memory) (orig : list Z) (bm : Z -> option byte).
Hypothesis Horig : Forall (in_u (bits A)) orig.
Implicit Types (s : DwarfOp).
Local Abbreviation Decode := (Decode A regular_memory).
Local Abbreviation op_inv := (op_inv A orig).

(** One instruction, with what an execution of straight-line code keeps. *)
Definition step1 s (i : instr) s' : Prop :=
  Decode s = Done (true, s') /\ op_memory s' = skip (len (encode A i)) (op_memory s) /\
  is_register_ s' = is_register_ s /\ dex_pc_set_ s' = dex_pc_set_ s /\ cur_op_ s' = fst i /\
  op_inv s'.

Inductive dsteps : DwarfOp -> list instr -> DwarfOp -> Prop :=
| dsteps_nil s : dsteps s [] s
| dsteps_cons s i s1 l s2 : step1 s i s1 -> dsteps s1 l s2 -> dsteps s (i :: l) s2.

Lemma dsteps_app s l1 s1 l2 s2 : dsteps s l1 s1 -> dsteps s1 l2 s2 -> dsteps s (l1 ++ l2) s2.
Proof. induction 1; simpl; eauto using dsteps. Qed.

Lemma dsteps_post s l s' :
  dsteps s l s' -> op_inv s ->
  op_inv s' /\ op_memory s' = skip (len (encode_all A l)) (op_memory s) /\
  is_register_ s' = is_register_ s /\ dex_pc_set_ s' = dex_pc_set_ s.
Proof.
  induction 1 as [s|s i s1 l s2 (_ & Hm & Hr & Hx & _ & Hinv1) _ IH]; intros Hinv.
  - split; [done|]. change (len (encode_all A [])) with 0. rewrite skip_0; [done|]. apply Hinv.
  - destruct (IH Hinv1) as (? & Hm2 & -> & ->). split; [done|]. rewrite Hm2, Hm, skip_skip.
    change (encode_all A (i :: l)) with (encode A i ++ encode_all A l). by rewrite len_app.
Qed.

(** A handler that ends with a new stack makes a step. *)
Lemma step1_run i h s st rg :
  op_inv s -> instr_ok A i -> at_bytes bm (op_memory s) (encode A i) ->
  kOpHandleFuncList A regular_memory (handle_func (op_callback (fst i))) = Some h ->
  num_required_stack_values (op_callback (fst i)) <= Z.of_nat (length (stack_ s)) ->
  h (ready A i s) = Done (true, put_regs_info rg (put_stack st (ready A i s))) ->
  exists s', step1 s i s' /\ stack_ s' = st.
Proof.
  intros Hinv Hi Ha Hh Hst Hrun. pose proof (Decode_run A regular_memory bm i h s Hi Hh Hst Ha) as Hd.
  rewrite Hrun in Hd. exists (put_regs_info rg (put_stack st (ready A i s))). split; [|done].
  split; [exact Hd|].
  assert (op_inv (put_regs_info rg (put_stack st (ready A i s)))) as Hinv'; [|done].
  pose proof (Decode_safe A regular_memory orig Horig s Hinv) as Hw. unfold wp in Hw. rewrite Hd in Hw.
  apply Hw.
Qed.

Lemma quick_stack s x st : stack_ s = x :: st -> s = put_stack (x :: st) s.
Proof. destruct s; simpl. by intros ->. Qed.

(** The unary and binary handlers compute the meaning of their operator. *)
Lemma un_run u x st s v :
  stack_ s = x :: st -> in_u (bits A) x -> un_meaning A u x = Some v ->
  exists h, kOpHandleFuncList A regular_memory (handle_func (op_callback (un_opcode u))) = Some h /\
            h s = Done (true, put_stack (v :: st) s).
Proof.
  intros Hs Hx Hv. rewrite (quick_stack _ _ _ Hs). pose proof (bits_pos A) as Hb.
  destruct u; (eexists; split; [reflexivity|]); apply wp_run; simpl in Hv.
  - unfold op_abs, signed_neg. op_simpl. destruct (Z.eqb_spec (saddr A x) (- 2 ^ (bits A - 1))); [done|].
    injection Hv as <-. pose proof (sgn_range (bits A) x Hb) as Hr. fold (saddr A x) in Hr.
    destruct (Z.ltb_spec (saddr A x) 0); op_simpl; (split; [done|]); repeat f_equal.
    + rewrite Z.abs_neq by lia. apply addr_small. unfold in_u. 
      pose proof (Z.pow_lt_mono_r 2 (bits A - 1) (bits A) ltac:(lia) ltac:(lia) ltac:(lia)). lia.
    + rewrite Z.abs_eq by lia. apply addr_small. unfold in_u.
      pose proof (Z.pow_lt_mono_r 2 (bits A - 1) (bits A) ltac:(lia) ltac:(lia) ltac:(lia)). lia.
  - unfold op_neg, signed_neg. op_simpl. destruct (Z.eqb_spec (saddr A x) (- 2 ^ (bits A - 1))); [done|].
    injection Hv as <-. op_simpl. split; [done|].
    enough (addr A (- saddr A x) = addr A (- x)) as E by (by rewrite E). unfold addr, saddr.
    rewrite <- !Z.sub_0_l.
    by rewrite <- (wrap_sub_r (bits A) 0 (sgn (bits A) x)), wrap_sgn, wrap_sub_r by lia.
  - unfold op_not. op_simpl. injection Hv as <-. split; [done|].
    enough (addr A (Z.lnot x) = 2 ^ bits A - 1 - x) as E by (by rewrite E).
    unfold addr, Z.lnot, wrap. rewrite <- (Z.mod_add _ 1) by (apply Z.pow_nonzero; lia).
    rewrite Z.mod_small by (unfold in_u in Hx; lia). lia.
Qed.

Lemma bin_run b x y st s v :
  stack_ s = y :: x :: st -> in_u (bits A) x -> in_u (bits A) y -> bin_meaning A b x y = Some v ->
  exists h, kOpHandleFuncList A regular_memory (handle_func (op_callback (bin_opcode b))) = Some h /\
            h s = Done (true, put_stack (v :: st) s).
Proof.
  intros Hs Hx Hy Hv. rewrite (quick_stack _ _ _ Hs).
  destruct b; (eexists; split; [reflexivity|]); apply wp_run; cbn [bin_meaning] in Hv; revert Hv.
  all: unfold op_and, op_or, op_xor, op_plus, op_minus, op_mul, op_div, op_mod, op_shl, op_shr, op_shra,
    op_eq, op_ge, op_gt, op_le, op_lt, op_ne, op_compare, bool_to_dwarf_bool; op_simpl;
    try (intros [= <-]; rewrite ?Z.geb_leb, ?Z.gtb_ltb; by split).
  - destruct (y =? 0); [done|]. cbn [orb]. destruct (_ && _); op_simpl; [done|]. by intros [= <-].
  - destruct (y =? 0); [done|]. op_simpl. by intros [= <-].
  - destruct (Z.ltb_spec y (bits A)); [|done]. rewrite (proj2 (Z.leb_gt _ _)) by lia. op_simpl.
    intros [= <-]. rewrite Z.shiftl_mul_pow2 by (unfold in_u in Hy; lia). by split.
  - destruct (Z.ltb_spec y (bits A)); [|done]. rewrite (proj2 (Z.leb_gt _ _)) by lia. op_simpl.
    intros [= <-]. rewrite Z.shiftr_div_pow2 by (unfold in_u in Hy; lia). by split.
  - destruct (Z.ltb_spec y (bits A)); [|done]. rewrite (proj2 (Z.leb_gt _ _)) by lia. op_simpl.
    intros [= <-]. rewrite Z.shiftr_div_pow2 by (unfold in_u in Hy; lia). by split.
Qed.

Lemma deref_run n a st s bs :
  stack_ s = a :: st -> ReadFully regular_memory a n = Some bs ->
  (n = size_of A -> op_deref A regular_memory s = Done (true, put_stack (le_val bs :: st) s)) /\
  (operands_ s = [n] -> 0 < n <= size_of A ->
   op_deref_size A regular_memory s = Done (true, put_stack (le_val bs :: st) s)).
Proof.
  intros Hs Hr. rewrite (quick_stack _ _ _ Hs). split.
  - intros ->. apply wp_run. unfold op_deref. op_simpl. by rewrite Hr.
  - intros Ho Hn. apply wp_run. unfold op_deref_size. op_simpl. change (operands_ s = [n]) in Ho. rewrite Ho. cbn [lookup list_lookup].
    rewrite (proj2 (Z.ltb_ge _ _)), (proj2 (Z.eqb_neq _ _)) by lia. op_simpl. by rewrite Hr.
Qed.

Lemma push_reg_run (reg off x : Z) (k : nat) s :
  op_inv s -> 0 <= reg -> orig !! Z.to_nat reg = Some x -> operands_ s !! k = Some off ->
  push_reg A reg k s = Done (true, put_regs_info (op_regs_info s) (put_stack (addr A (x + off) :: stack_ s) s)).
Proof.
  intros (_ & _ & _ & _ & i & Hi & Hsh) Hr Hx Ho. apply wp_run. unfold push_reg. wp_simpl. rewrite Hi. wp_simpl.
  pose proof (lookup_lt_Some _ _ _ Hx). pose proof Hsh as (Ht & _).
  rewrite (proj2 (Z.leb_gt _ _)) by (unfold Total, total_regs; lia). wp_simpl. cbn [op_regs_info put_regs_info].
  eapply (Get_shows _ orig); [done|done|done|]. wp_simpl. cbn. rewrite Ho. by op_simpl.
Qed.

Lemma op_inv_ready s i :
  op_inv s -> 0 <= fst i < 256 -> op_inv (ready A i s).
Proof.
  intros (? & ? & ? & ? & ?) Hi. split; [done|]. split; [|split; [simpl; apply wrap_range; lia|by split]].
  cbn. apply Forall_forall. intros v Hv. apply list_elem_of_fmap in Hv as (w & -> & _). apply addr_range.
Qed.

Lemma lit_step v s :
  op_inv s -> in_u (bits A) v -> at_bytes bm (op_memory s) (compile A (ELit v)) ->
  exists s', dsteps s (flatten (ELit v)) s' /\ stack_ s' = v :: stack_ s.
Proof.
  intros Hinv Hv. unfold compile, encode_all. cbn [flatten map concat]. rewrite app_nil_r. intros Ha.
  enough (exists s', step1 s (if v <? 32 then (0x30 + v, []) else (0x10, [v])) s' /\ stack_ s' = v :: stack_ s)
    as (s' & ? & ?) by eauto using dsteps.
  destruct (Z.ltb_spec v 32).
  - assert (op_callback (0x30 + v) = mkOpCallback (op_name (op_callback (0x30 + v))) OP_LIT 0 0 []) as E.
    { unfold in_u in Hv. assert (exists n, v = Z.of_nat n /\ (n < 32)%nat) as (n & -> & Hn)
        by (exists (Z.to_nat v); lia).
      do 32 (destruct n as [|n]; [reflexivity|]). lia. }
    eapply (step1_run _ (op_lit A) _ _ (op_regs_info s)); [done| |done|simpl; by rewrite E|simpl; rewrite E; simpl; lia|].
    + split; [unfold in_u in Hv; simpl; lia|]. simpl. rewrite E. done.
    + apply wp_run. unfold op_lit. op_simpl. simpl.
      replace (48 + v - 48) with v by lia. rewrite addr_small by done. by destruct s.
  - eapply (step1_run _ op_push _ _ (op_regs_info s)); [done| |done|done|simpl; lia|].
    + split; [simpl; lia|]. split; [done|]. split; [|done]. cbn.
      apply (in_u_mono (bits A)); [|done]. pose proof (bits_le_64 A). pose proof (bits_pos A). lia.
    + simpl. unfold ready, op_push. simpl. rewrite addr_small by done. by destruct s.
Qed.

Lemma reg_step r off x s :
  op_inv s -> in_u (bits A) r -> in_s 63 off -> orig !! Z.to_nat r = Some x ->
  at_bytes bm (op_memory s) (compile A (EReg r off)) ->
  exists s', dsteps s (flatten (EReg r off)) s' /\ stack_ s' = addr A (x + off) :: stack_ s.
Proof.
  intros Hinv Hv Hoff Hx. unfold compile, encode_all. cbn [flatten map concat]. rewrite app_nil_r. intros Ha.
  assert (addr A (x + addr A off) = addr A (x + off)) as Eo
    by (apply wrap_add_r; pose proof (bits_pos A); lia).
  enough (exists s', step1 s (if r <? 32 then (0x70 + r, [off]) else (0x92, [r; off])) s' /\
                     stack_ s' = addr A (x + off) :: stack_ s)
    as (s' & ? & ?) by eauto using dsteps.
  destruct (Z.ltb_spec r 32).
  - assert (op_callback (0x70 + r)
            = mkOpCallback (op_name (op_callback (0x70 + r))) OP_BREG 0 1 [DW_EH_PE_sleb128]) as E.
    { unfold in_u in Hv. assert (exists n, r = Z.of_nat n /\ (n < 32)%nat) as (n & -> & Hn)
        by (exists (Z.to_nat r); lia).
      do 32 (destruct n as [|n]; [reflexivity|]). lia. }
    assert (instr_ok A (112 + r, [off])) as Hok.
    { split; [unfold in_u in Hv; simpl; lia|]. simpl. rewrite E. split; [done|]. by split. }
    eapply (step1_run _ (op_breg A) _ _ (op_regs_info s)); [done|done|done|simpl; by rewrite E|simpl; rewrite E; simpl; lia|].
    unfold op_breg, bind, get. simpl cur_op_.
    replace (wrap 16 (112 + r - 112)) with r.
    2:{ replace (112 + r - 112) with r by lia. symmetry. apply wrap_small. unfold in_u in *. lia. }
    rewrite (push_reg_run r (addr A off) x); [|by apply op_inv_ready; [|apply Hok]|apply Hv|done|done].
    by rewrite Eo.
  - assert (instr_ok A (0x92, [r; off])) as Hok.
    { split; [simpl; lia|]. split; [done|]. split; [|by split]. cbn.
      apply (in_u_mono (bits A)); [|done]. pose proof (bits_le_64 A). pose proof (bits_pos A). lia. }
    eapply (step1_run _ (op_bregx A) _ _ (op_regs_info s)); [done|done|done|done|simpl; lia|].
    unfold op_bregx, OperandAt, bind, get. simpl operands_. simpl. rewrite addr_small by done.
    rewrite (push_reg_run r (addr A off) x); [|by apply op_inv_ready; [|apply Hok]|apply Hv|done|done].
    by rewrite Eo.
Qed.

(** After [l] ran, the cursor is on what follows it. *)
Lemma dsteps_at s l s1 l' :
  dsteps s l s1 -> op_inv s -> at_bytes bm (op_memory s) (encode_all A (l ++ l')) ->
  at_bytes bm (op_memory s1) (encode_all A l').
Proof.
  intros Hd Hinv Ha. destruct (dsteps_post _ _ _ Hd Hinv) as (_ & -> & _).
  rewrite encode_all_app in Ha. by apply (at_bytes_split bm) in Ha as [_ Ha].
Qed.

Lemma at_bytes_prefix s l l' :
  at_bytes bm (op_memory s) (encode_all A (l ++ l')) -> at_bytes bm (op_memory s) (encode_all A l).
Proof. rewrite encode_all_app. intros Ha. by apply (at_bytes_split bm) in Ha as [Ha _]. Qed.

(** Code followed by one instruction that replaces the stack. *)
Lemma dsteps_snoc s l s1 i h st :
  dsteps s l s1 -> op_inv s -> at_bytes bm (op_memory s) (encode_all A (l ++ [i])) -> instr_ok A i ->
  kOpHandleFuncList A regular_memory (handle_func (op_callback (fst i))) = Some h ->
  num_required_stack_values (op_callback (fst i)) <= Z.of_nat (length (stack_ s1)) ->
  h (ready A i s1) = Done (true, put_stack st (ready A i s1)) ->
  exists s', dsteps s (l ++ [i]) s' /\ stack_ s' = st.
Proof.
  intros Hd Hinv Ha Hi Hh Hn Hr. pose proof (dsteps_at _ _ _ _ Hd Hinv Ha) as Ha1.
  unfold encode_all in Ha1. simpl in Ha1. rewrite app_nil_r in Ha1.
  destruct (step1_run i h s1 st (op_regs_info s1)) as (s' & Hs' & Hst);
    [apply (dsteps_post _ _ _ Hd Hinv)|done|done|done|done|by rewrite Hr; destruct s1|].
  exists s'. split; [|done]. eauto using dsteps_app, dsteps.
Qed.

Lemma op_bra_run s top st o :
  stack_ s = top :: st -> operands_ s = [o] ->
  op_bra s = Done (true, put_memory (put_cur (if negb (top =? 0)
                                              then u64 (cur_offset_ (op_memory s) + sgn 16 o)
                                              else u64 (cur_offset_ (op_memory s) - sgn 16 o))
                                       (op_memory s)) (put_stack st s)).
Proof.
  intros Hs Ho. rewrite (quick_stack _ _ _ Hs). apply wp_run. unfold op_bra. op_simpl.
  change (operands_ s = [o]) in Ho. rewrite Ho. cbn [lookup list_lookup]. op_simpl. by destruct (top =? 0).
Qed.

Lemma instr_ok_un u : instr_ok A (un_opcode u, []).
Proof. destruct u; split; simpl; try lia; by split. Qed.
Lemma instr_ok_bin b : instr_ok A (bin_opcode b, []).
Proof. destruct b; split; simpl; try lia; by split. Qed.

Lemma un_required u : num_required_stack_values (op_callback (un_opcode u)) = 1.
Proof. by destruct u. Qed.
Lemma bin_required b : num_required_stack_values (op_callback (bin_opcode b)) = 2.
Proof. by destruct b. Qed.

Lemma plus_uconst_run x c st s :
  stack_ s = x :: st -> operands_ s = [addr A c] ->
  op_plus_uconst A s = Done (true, put_stack (addr A (x + c) :: st) s).
Proof.
  intros Hs Ho. rewrite (quick_stack _ _ _ Hs). apply wp_run. unfold op_plus_uconst. op_simpl.
  change (operands_ s = [addr A c]) in Ho. rewrite Ho. cbn [lookup list_lookup]. op_simpl.
  enough (addr A (x + addr A c) = addr A (x + c)) as -> by done.
  apply wrap_add_r. pose proof (bits_pos A). lia.
Qed.

Lemma Forall_top s x st : op_inv s -> stack_ s = x :: st -> in_u (bits A) x.
Proof. intros (H & _) E. rewrite E in H. by apply Forall_cons in H as [? _]. Qed.

(** Compiled expressions push their meaning. *)
Lemma exec_expr e s v :
  expr_ok A e -> meaning A regular_memory orig e = Some v -> op_inv s ->
  at_bytes bm (op_memory s) (compile A e) ->
  exists s', dsteps s (flatten e) s' /\ stack_ s' = v :: stack_ s.
Proof.
  revert s v. unfold compile. induction e as [w|r off|e IH|n e IH|e IH c|u e IH|b e1 IH1 e2 IH2];
    intros s v Hok Hv Hinv Ha; cbn [expr_ok meaning] in Hok, Hv.
  - injection Hv as <-. by apply lit_step.
  - apply fmap_Some in Hv as (x & Hx & ->). destruct Hok. by apply reg_step.
  - apply bind_Some in Hv as (a & Ha1 & Hv). apply fmap_Some in Hv as (bs & Hbs & ->).
    cbn [flatten] in Ha |- *. destruct (IH s a) as (s1 & Hd & Hs1); [done|done|done|by eapply at_bytes_prefix|].
    eapply (dsteps_snoc _ _ _ _ (op_deref A regular_memory));
      [done|done|done|split; [simpl; lia|by split]|done|rewrite Hs1; simpl; lia|].
    by apply (deref_run (size_of A) a).
  - destruct (Z.ltb_spec 0 n), (Z.leb_spec n (size_of A)); try done. cbn [andb] in Hv.
    apply bind_Some in Hv as (a & Ha1 & Hv). apply fmap_Some in Hv as (bs & Hbs & ->).
    cbn [flatten] in Ha |- *. destruct (IH s a) as (s1 & Hd & Hs1); [done|done|done|by eapply at_bytes_prefix|].
    assert (in_u 8 n /\ in_u (bits A) n) as [Hn8 Hn] by (unfold in_u; destruct A; simpl in *; lia).
    eapply (dsteps_snoc _ _ _ _ (op_deref_size A regular_memory));
      [done|done|done|split; [simpl; lia|split; [done|split; [exact Hn8|done]]]|done|rewrite Hs1; simpl; lia|].
    apply (deref_run n a); [done|done| |done]. simpl. by rewrite addr_small.
  - apply fmap_Some in Hv as (x & Hx & ->). destruct Hok as [Hok Hc].
    cbn [flatten] in Ha |- *. destruct (IH s x) as (s1 & Hd & Hs1); [done|done|done|by eapply at_bytes_prefix|].
    eapply (dsteps_snoc _ _ _ _ (op_plus_uconst A));
      [done|done|done|split; [simpl; lia|split; [done|split; [exact Hc|done]]]|done|rewrite Hs1; simpl; lia|].
    by apply plus_uconst_run.
  - apply bind_Some in Hv as (x & Hx & Hv).
    cbn [flatten] in Ha |- *. destruct (IH s x) as (s1 & Hd & Hs1); [done|done|done|by eapply at_bytes_prefix|].
    destruct (dsteps_post _ _ _ Hd Hinv) as (Hinv1 & _).
    destruct (un_run u x (stack_ s) (ready A (un_opcode u, []) s1) v) as (h & Hh & Hr);
      [done|by eapply Forall_top|done|].
    eapply (dsteps_snoc _ _ _ _ h);
      [done|done|done|apply instr_ok_un|done|cbn [fst]; rewrite un_required, Hs1; simpl; lia|done].
  - apply bind_Some in Hv as (x & Hx & Hv). apply bind_Some in Hv as (y & Hy & Hv). destruct Hok as [Hok1 Hok2].
    cbn [flatten] in Ha |- *. rewrite app_assoc in Ha |- *. pose proof (at_bytes_prefix _ _ _ Ha) as Ha12.
    destruct (IH1 s x) as (s1 & Hd1 & Hs1); [done|done|done|by eapply at_bytes_prefix|].
    destruct (dsteps_post _ _ _ Hd1 Hinv) as (Hinv1 & _).
    destruct (IH2 s1 y) as (s2 & Hd2 & Hs2); [done|done|done|by eapply dsteps_at|].
    destruct (dsteps_post _ _ _ Hd2 Hinv1) as (Hinv2 & _). rewrite Hs1 in Hs2.
    destruct (bin_run b x y (stack_ s) (ready A (bin_opcode b, []) s2) v) as (h & Hh & Hr);
      [done|by apply (Forall_top s1 _ (stack_ s))|by apply (Forall_top s2 _ (x :: stack_ s))|done|].
    eapply (dsteps_snoc _ _ _ _ h);
      [by eapply dsteps_app|done|done|apply instr_ok_bin|done|cbn [fst]; rewrite bin_required, Hs2; simpl; lia|done].
Qed.

(** ** From steps to [Eval] *)

Lemma len_encode i : 0 < len (encode A i).
Proof. unfold encode. rewrite len_cons. pose proof (len_nonneg (encode_operands A (op_callback (fst i)) (snd i) 0)). lia. Qed.

Lemma eval_loop_steps l s s' fuel fin it :
  dsteps s l s' -> cur_offset_ (op_memory s) + len (encode_all A l) = fin -> in_u 64 fin ->
  0 <= cur_offset_ (op_memory s) -> 0 <= it -> it + Z.of_nat (length l) <= 1000 -> (length l < fuel)%nat ->
  eval_loop A regular_memory fuel fin it s = Done (true, s').
Proof.
  intros Hd. revert fuel it. induction Hd as [s|s i s1 l s2 (Hd1 & Hm & _) _ IH]; intros fuel it Hf Hfin Hc Hi Hn Hl.
  - destruct fuel as [|fuel]; [simpl in Hl; lia|]. cbn [eval_loop]. unfold bind at 1, on_memory, zoom. simpl.
    change (len (encode_all A [])) with 0 in Hf. rewrite (proj2 (Z.ltb_ge _ _)) by lia.
    unfold ret. by rewrite put_memory_id.
  - destruct fuel as [|fuel]; [lia|]. cbn [eval_loop length] in *. unfold bind at 1, on_memory, zoom. simpl.
    change (encode_all A (i :: l)) with (encode A i ++ encode_all A l) in Hf. rewrite len_app in Hf.
    pose proof (len_encode i). pose proof (len_nonneg (encode_all A l)).
    rewrite (proj2 (Z.ltb_lt _ _)) by lia. rewrite put_memory_id. unfold bind at 1. rewrite Hd1.
    rewrite (proj2 (Z.eqb_neq _ _)) by lia. rewrite wrap_small by (unfold in_u; lia).
    assert (cur_offset_ (op_memory s1) = cur_offset_ (op_memory s) + len (encode A i)) as Hc1.
    { rewrite Hm. simpl. apply wrap_small. unfold in_u in *. lia. }
    apply IH; lia || done.
Qed.

(** The state in which [Eval] decodes its first instruction. *)
Definition eval_start (start : Z) s : DwarfOp :=
  put_dex_pc_set false (put_memory (put_cur start (op_memory s)) (put_stack [] (put_is_register false s))).

Lemma cur_run s : on_memory cur_offset s = Done (cur_offset_ (op_memory s), s).
Proof. unfold on_memory, zoom, cur_offset, gets. by rewrite put_memory_id. Qed.

Lemma step1_cur s i s1 :
  step1 s i s1 -> 0 <= cur_offset_ (op_memory s) ->
  cur_offset_ (op_memory s) + len (encode A i) < 2 ^ 64 ->
  cur_offset_ (op_memory s1) = cur_offset_ (op_memory s) + len (encode A i).
Proof.
  intros (_ & Hm & _) Hc Hf. pose proof (len_encode i). rewrite Hm. simpl. apply wrap_small.
  unfold in_u. lia.
Qed.

Lemma is_dex_const_no s : cur_op_ s <> 0x0c -> is_dex_const s = Done (false, s).
Proof. intros H. unfold is_dex_const, bind, get. by rewrite (proj2 (Z.eqb_neq _ _) H). Qed.

Lemma Eval_steps l s s' start fin :
  dsteps (eval_start start s) l s' -> fin = start + len (encode_all A l) -> in_u 64 fin -> 0 <= start ->
  (length l <= 1000)%nat -> Forall (fun i => fst i <> 0x0c) l ->
  Eval A regular_memory start fin s = Done (true, s').
Proof.
  intros Hd Ef Hfin Hstart Hn Hnd.
  unfold Eval, bind at 1, modify at 1. unfold bind at 1, on_memory at 1, zoom at 1, set_cur_offset, modify at 1.
  unfold bind at 1, modify at 1. change (put_dex_pc_set false (put_memory _ _)) with (eval_start start s).
  unfold bind at 1. rewrite cur_run.
  change (cur_offset_ (op_memory (eval_start start s))) with start.
  remember (eval_start start s) as s0 eqn:E0. destruct Hd as [t|s0 i s1 l s2 H1 Hd].
  { change (len (encode_all A [])) with 0 in Ef. by rewrite (proj2 (Z.ltb_ge _ _)) by lia. }
  change (encode_all A (i :: l)) with (encode A i ++ encode_all A l) in Ef. rewrite len_app in Ef.
  pose proof (len_encode i). pose proof (len_nonneg (encode_all A l)).
  rewrite (proj2 (Z.ltb_lt _ _)) by lia. unfold bind at 1. pose proof H1 as (Hd1 & _ & _ & _ & Hop & _).
  apply Forall_cons in Hnd as [Hi Hnd]. unfold in_u in Hfin.
  assert (cur_offset_ (op_memory s1) = start + len (encode A i)) as Hc1.
  { rewrite (step1_cur _ _ _ H1); rewrite E0; simpl; lia || done. }
  rewrite Hd1. unfold bind at 1. rewrite is_dex_const_no by congruence. unfold bind at 1. rewrite cur_run, Hc1.
  destruct Hd as [t|s1 j s2 l s3 H2 Hd].
  { change (len (encode_all A [])) with 0 in Ef. by rewrite (proj2 (Z.ltb_ge _ _)) by lia. }
  change (encode_all A (j :: l)) with (encode A j ++ encode_all A l) in Ef. rewrite len_app in Ef.
  pose proof (len_encode j). pose proof (len_nonneg (encode_all A l)).
  rewrite (proj2 (Z.ltb_lt _ _)) by lia. unfold bind at 1. pose proof H2 as (Hd2 & _).
  rewrite Hd2. unfold bind at 1, get at 1. cbn [andb]. unfold bind at 1, ret at 1.
  pose proof (step1_cur _ _ _ H2 ltac:(lia) ltac:(lia)) as Hc2.
  simpl in Hn. apply (eval_loop_steps l); [done|lia|done|lia|lia|lia|unfold eval_fuel; lia].
Qed.

Lemma flatten_not_const4u e : expr_ok A e -> Forall (fun i => fst i <> 0x0c) (flatten e).
Proof.
  induction e as [v|r off|e IH|n e IH|e IH c|u e IH|b e1 IH1 e2 IH2]; cbn [flatten expr_ok];
    rewrite ?Forall_app, ?Forall_cons, ?Forall_nil.
  - intros [? ?]. split; [|done]. destruct (v <? 32); simpl; lia.
  - intros [[? ?] ?]. split; [|done]. destruct (r <? 32); simpl; lia.
  - intros. split; [auto|done].
  - intros. split; [auto|done].
  - intros [? ?]. split; [auto|done].
  - intros. split; [auto|]. by destruct u.
  - intros [? ?]. split; [auto|split; [auto|]]. by destruct b.
Qed.
End Execution.

(** * Properties *)

(** Decoding inverts the encoding that the opcode table prescribes: on the bytes of an
    instruction whose operands fit their encodings, and with enough values on the stack, [Decode]
    moves the cursor past the instruction and runs the handler of the opcode on exactly the
    operands that were encoded, truncated to [AddressType]. *)
Theorem dwarf_op_decode_inverts_encode A regular_memory bm i h s
  (Hi : instr_ok A i)
  (Hh : kOpHandleFuncList A regular_memory (handle_func (op_callback (fst i))) = Some h)
  (Hst : num_required_stack_values (op_callback (fst i)) <= Z.of_nat (length (stack_ s)))
  (Ha : at_bytes bm (op_memory s) (encode A i)) :
  Decode A regular_memory s
  = h (put_operands (map (addr A) (snd i))
        (put_memory (skip (len (encode A i)) (op_memory s))
          (put_cur_op (fst i) (put_error (with_code DWARF_ERROR_NONE (last_error_ s)) s)))).
Proof. exact (Decode_run A regular_memory bm i h s Hi Hh Hst Ha). Qed.

(** C6. Compiler correctness for DWARF expressions: the code of an expression tree (literals,
    registers plus offsets, memory accesses, all unary, binary and comparison operators) evaluates,
    from any well-formed state, to the value of the tree over the original registers and the
    process memory, for code of up to 1000 instructions. The result is the only stack entry, and
    not a register number. *)
Theorem dwarf_op_compile_correct A regular_memory orig bm e v s start
  (Horig : Forall (in_u (bits A)) orig) (Hs : op_inv A orig s)
  (He : expr_ok A e) (Hv : meaning A regular_memory orig e = Some v)
  (Hn : (length (flatten e) <= 1000)%nat)
  (Hstart : 0 <= start) (Hfin : in_u 64 (start + len (compile A e)))
  (Ha : at_bytes bm (put_cur start (op_memory s)) (compile A e)) :
  exists s', Eval A regular_memory start (start + len (compile A e)) s = Done (true, s') /\
    stack_ s' = [v] /\ is_register_ s' = false /\ dex_pc_set_ s' = false /\
    cur_offset_ (op_memory s') = start + len (compile A e).
Proof.
  assert (op_inv A orig (eval_start start s)) as Hs0.
  { destruct Hs as (? & ? & ? & ? & ?). split; [done|split; [done|split; [|by split]]]. apply Ha. }
  destruct (exec_expr A regular_memory orig bm Horig e (eval_start start s) v) as (s' & Hd & Hst); try done.
  exists s'. split; [|split; [done|]].
  - eapply Eval_steps; try done. by eapply flatten_not_const4u.
  - destruct (dsteps_post _ _ _ _ _ _ Hd Hs0) as (_ & -> & -> & ->). repeat split.
    simpl. by apply wrap_small.
Qed.

(** [DW_OP_bra]: with a non-zero top of stack the branch goes to the end of the instruction
    plus the offset; with zero it goes, where the DWARF standard continues with the next
    instruction, to the end of the instruction minus the offset. The top is consumed either way. *)
Theorem dwarf_op_bra_both_ways A regular_memory bm s top st off
  (Hst : stack_ s = top :: st) (Hoff : in_s 16 off)
  (Ha : at_bytes bm (op_memory s) (encode A (0x28, [off]))) :
  exists s', Decode A regular_memory s = Done (true, s') /\ stack_ s' = st /\
    cur_offset_ (op_memory s')
    = (if top =? 0 then u64 (cur_offset_ (op_memory s) + 3 - off)
       else u64 (cur_offset_ (op_memory s) + 3 + off)).
Proof.
  assert (instr_ok A (0x28, [off])) as Hi by (split; [simpl; lia|split; [done|split; [exact Hoff|done]]]).
  rewrite (Decode_run A regular_memory bm _ op_bra s Hi eq_refl ltac:(rewrite Hst; simpl; lia) Ha).
  assert (sgn 16 (addr A off) = off) as Es.
  { unfold addr. transitivity (sgn 16 (wrap 16 off)); [|apply sgn_wrap; [lia|exact Hoff]].
    unfold sgn. rewrite wrap_narrow by (destruct A; simpl; lia). by rewrite wrap_idemp by lia. }
  erewrite op_bra_run; [|exact Hst|reflexivity]. eexists. split; [reflexivity|]. split; [reflexivity|].
  cbn -[Z.mul u64]. rewrite Es. change (len (encode A (0x28, [off]))) with 3.
  destruct (top =? 0); simpl negb; cbv iota; [by rewrite wrap_sub_l by lia|by rewrite wrap_add_l by lia].
Qed.

(** [DW_OP_pick] with an index one past the last entry passes the range check of the code
    ([index > StackSize()]) and reads outside of the stack; larger indices are reported. *)
Theorem dwarf_op_pick_bound A regular_memory bm s n
  (Hn : in_u 8 n) (Ha : at_bytes bm (op_memory s) (encode A (0x15, [n]))) :
  let size := Z.of_nat (length (stack_ s)) in
  if n <? size then
    exists s', Decode A regular_memory s = Done (true, s') /\
      stack_ s' = from_option id 0 (stack_ s !! Z.to_nat n) :: stack_ s
  else if n =? size then Decode A regular_memory s = Fault (Undef UbStackIndex)
  else exists s', Decode A regular_memory s = Done (false, s') /\ stack_ s' = stack_ s /\
         code (last_error_ s') = DWARF_ERROR_STACK_INDEX_NOT_VALID.
Proof.
  intros size. assert (instr_ok A (0x15, [n])) as Hi by (split; [simpl; lia|split; [done|split; [exact Hn|done]]]).
  rewrite (Decode_run A regular_memory bm _ op_pick s Hi eq_refl ltac:(simpl; lia) Ha).
  unfold op_pick, OperandAt, StackSize, StackAt, bind, get, gets. simpl operands_.
  assert (addr A n = n) as Ea.
  { apply addr_small, (in_u_mono 8); [destruct A; simpl; lia|done]. }
  simpl. rewrite Ea. fold size. unfold in_u in Hn.
  destruct (Z.ltb_spec n size) as [Hlt|Hge].
  - rewrite (proj2 (Z.ltb_ge _ _)) by lia.
    destruct (lookup_lt_is_Some_2 (stack_ s) (Z.to_nat n) ltac:(lia)) as [v Hv].
    change (stack_ (ready A (21, [n]) s)) with (stack_ s). rewrite Hv. eexists. split; reflexivity.
  - destruct (Z.eqb_spec n size) as [->|].
    + rewrite Z.ltb_irrefl. subst size. rewrite Nat2Z.id.
      change (stack_ (ready _ _ s)) with (stack_ s).
      by rewrite (proj2 (lookup_ge_None (stack_ s) (length (stack_ s)))) by lia.
    + rewrite (proj2 (Z.ltb_lt _ _)) by lia. eexists. by repeat split.
Qed.

(** * Witnesses *)

(** [DW_OP_plus] on two literals. *)
Lemma dwarf_op_decode_inverts_encode_witness :
  let s := put_stack [2] (demo_op [x23; x85; x01]) in
  Decode U64 (mkMemory (fun _ _ => [])) s
  = op_plus_uconst U64 (ready U64 (0x23, [133]) s).
Proof.
  apply (dwarf_op_decode_inverts_encode U64 _ (buffer_bytes [x23; x85; x01]) (0x23, [133])).
  - split; [simpl; lia|]. split; [reflexivity|]. split; [|done]. unfold operand_ok. simpl. unfold in_u. lia.
  - reflexivity.
  - vm_compute. discriminate.
  - apply (buffer_at_bytes [x23; x85; x01]). vm_compute. discriminate.
Defined.

(** [breg13 - 8; deref_size 2; lit5; mul; plus_uconst 1000] on a stack pointer of 16. *)
Definition demo_expr : expr :=
  EPlusConst (EBin Mul (EDerefSize 2 (EReg 13 (-8))) (ELit 5)) 1000.
Definition demo_memory : Memory := MemoryBuffer.memory (MemoryBuffer.mk (le_bytes 16 (2 ^ 64 * 300))).
Definition demo_orig : list Z := <[13%nat := 16]> (replicate 16 0).
Definition demo_expr_op : DwarfOp :=
  new_DwarfOp (buffer_dm (compile U64 demo_expr))
    (Some (new_regs_info (put_reg 13 16 demo_regs))).

Lemma demo_expr_op_inv : op_inv U64 demo_orig demo_expr_op.
Proof.
  split; [constructor|]. split; [constructor|]. split; [unfold in_u; simpl; lia|].
  split; [simpl; lia|]. eexists. split; [reflexivity|].
  apply (new_regs_info_shows U64 (put_reg 13 16 demo_regs)). split; [done|]. split; [done|].
  split; [|done]. apply Forall_insert; [by apply Forall_replicate|]. unfold in_u. simpl. lia.
Qed.

Lemma dwarf_op_compile_correct_witness :
  exists s', Eval U64 demo_memory 0 (0 + len (compile U64 demo_expr)) demo_expr_op = Done (true, s') /\
    stack_ s' = [2500] /\ is_register_ s' = false /\ dex_pc_set_ s' = false /\
    cur_offset_ (op_memory s') = 0 + len (compile U64 demo_expr).
Proof.
  apply (dwarf_op_compile_correct U64 demo_memory demo_orig (buffer_bytes (compile U64 demo_expr)) demo_expr).
  - apply Forall_insert; [by apply Forall_replicate|]. unfold in_u. simpl. lia.
  - apply demo_expr_op_inv.
  - simpl. unfold in_u, in_s. simpl. lia.
  - vm_compute. reflexivity.
  - simpl. lia.
  - lia.
  - vm_compute. split; [discriminate|reflexivity].
  - apply (buffer_at_bytes (compile U64 demo_expr)). vm_compute. discriminate.
Defined.

Lemma dwarf_op_bra_both_ways_witness :
  let s := put_stack [0] (demo_op [x28; x08; x00]) in
  exists s', Decode U64 (mkMemory (fun _ _ => [])) s = Done (true, s') /\ stack_ s' = [] /\
    cur_offset_ (op_memory s') = 2 ^ 64 - 5.
Proof.
  intros s. apply (dwarf_op_bra_both_ways U64 _ (buffer_bytes [x28; x08; x00]) s 0 [] 8).
  - reflexivity.
  - unfold in_s. simpl. lia.
  - apply (buffer_at_bytes [x28; x08; x00]). vm_compute. discriminate.
Defined.

Lemma dwarf_op_pick_bound_witness :
  let s := put_stack [7; 8] (demo_op [x15; x02]) in
  Decode U64 (mkMemory (fun _ _ => [])) s = Fault (Undef UbStackIndex).
Proof.
  intros s. apply (dwarf_op_pick_bound U64 _ (buffer_bytes [x15; x02]) s 2).
  - unfold in_u. lia.
  - apply (buffer_at_bytes [x15; x02]). vm_compute. discriminate.
Defined.
