(* ===== verification/DwarfCfaTable.v ===== *)
(** The static tables of [DwarfCfa.cpp] and [DwarfCfa.h]: for each of the 64 extended call frame
    instructions its name, version, operand encodings and how the operands are displayed. *)
From Stdlib Require Import ZArith String.
From stdpp Require Import base numbers list.
From S2P Require Import Prelude DwarfMemory.
#[local] Open Scope Z_scope.
#[local] Open Scope string_scope.

Inductive DisplayType : Set :=
| DWARF_DISPLAY_NONE
| DWARF_DISPLAY_REGISTER
| DWARF_DISPLAY_NUMBER
| DWARF_DISPLAY_SIGNED_NUMBER
| DWARF_DISPLAY_EVAL_BLOCK
| DWARF_DISPLAY_ADDRESS
| DWARF_DISPLAY_SET_LOC
| DWARF_DISPLAY_ADVANCE_LOC.

Record Info := mkInfo {
  info_name : string;
  supported_version : Z;
  info_num_operands : Z;
  info_operands : list Z;
  display_operands : list DisplayType
}.

(** Entries [0x00] to [0x13]. *)
Definition kTable_00 : list Info := [
  mkInfo "DW_CFA_nop" 2 0 [] [];
  mkInfo "DW_CFA_set_loc" 2 1 [DW_EH_PE_absptr] [DWARF_DISPLAY_SET_LOC];
  mkInfo "DW_CFA_advance_loc1" 2 1 [DW_EH_PE_udata1] [DWARF_DISPLAY_ADVANCE_LOC];
  mkInfo "DW_CFA_advance_loc2" 2 1 [DW_EH_PE_udata2] [DWARF_DISPLAY_ADVANCE_LOC];
  mkInfo "DW_CFA_advance_loc4" 2 1 [DW_EH_PE_udata4] [DWARF_DISPLAY_ADVANCE_LOC];
  mkInfo "DW_CFA_offset_extended" 2 2 [DW_EH_PE_uleb128; DW_EH_PE_uleb128] [DWARF_DISPLAY_REGISTER; DWARF_DISPLAY_NUMBER];
  mkInfo "DW_CFA_restore_extended" 2 1 [DW_EH_PE_uleb128] [DWARF_DISPLAY_REGISTER];
  mkInfo "DW_CFA_undefined" 2 1 [DW_EH_PE_uleb128] [DWARF_DISPLAY_REGISTER];
  mkInfo "DW_CFA_same_value" 2 1 [DW_EH_PE_uleb128] [DWARF_DISPLAY_REGISTER];
  mkInfo "DW_CFA_register" 2 2 [DW_EH_PE_uleb128; DW_EH_PE_uleb128] [DWARF_DISPLAY_REGISTER; DWARF_DISPLAY_REGISTER];
  mkInfo "DW_CFA_remember_state" 2 0 [] [];
  mkInfo "DW_CFA_restore_state" 2 0 [] [];
  mkInfo "DW_CFA_def_cfa" 2 2 [DW_EH_PE_uleb128; DW_EH_PE_uleb128] [DWARF_DISPLAY_REGISTER; DWARF_DISPLAY_NUMBER];
  mkInfo "DW_CFA_def_cfa_register" 2 1 [DW_EH_PE_uleb128] [DWARF_DISPLAY_REGISTER];
  mkInfo "DW_CFA_def_cfa_offset" 2 1 [DW_EH_PE_uleb128] [DWARF_DISPLAY_NUMBER];
  mkInfo "DW_CFA_def_cfa_expression" 2 1 [DW_EH_PE_block] [DWARF_DISPLAY_EVAL_BLOCK];
  mkInfo "DW_CFA_expression" 2 2 [DW_EH_PE_uleb128; DW_EH_PE_block] [DWARF_DISPLAY_REGISTER; DWARF_DISPLAY_EVAL_BLOCK];
  mkInfo "DW_CFA_offset_extended_sf" 2 2 [DW_EH_PE_uleb128; DW_EH_PE_sleb128] [DWARF_DISPLAY_REGISTER; DWARF_DISPLAY_SIGNED_NUMBER];
  mkInfo "DW_CFA_def_cfa_sf" 2 2 [DW_EH_PE_uleb128; DW_EH_PE_sleb128] [DWARF_DISPLAY_REGISTER; DWARF_DISPLAY_SIGNED_NUMBER];
  mkInfo "DW_CFA_def_cfa_offset_sf" 2 1 [DW_EH_PE_sleb128] [DWARF_DISPLAY_SIGNED_NUMBER]
].

(** The initializers from [0x14] on: one entry is missing after [0x2f], so that there are 63. *)
Definition kTable_14 : list Info := [
  mkInfo "DW_CFA_val_offset" 2 2 [DW_EH_PE_uleb128; DW_EH_PE_uleb128] [DWARF_DISPLAY_REGISTER; DWARF_DISPLAY_NUMBER];
  mkInfo "DW_CFA_val_offset_sf" 2 2 [DW_EH_PE_uleb128; DW_EH_PE_sleb128] [DWARF_DISPLAY_REGISTER; DWARF_DISPLAY_SIGNED_NUMBER];
  mkInfo "DW_CFA_val_expression" 2 2 [DW_EH_PE_uleb128; DW_EH_PE_block] [DWARF_DISPLAY_REGISTER; DWARF_DISPLAY_EVAL_BLOCK];
  mkInfo "" 0 0 [] [];
  mkInfo "" 0 0 [] [];
  mkInfo "" 0 0 [] [];
  mkInfo "" 0 0 [] [];
  mkInfo "" 0 0 [] [];
  mkInfo "" 0 0 [] [];
  mkInfo "" 0 0 [] [];
  mkInfo "" 0 0 [] [];
  mkInfo "" 0 0 [] [];
  mkInfo "" 0 0 [] [];
  mkInfo "" 0 0 [] [];
  mkInfo "" 0 0 [] [];
  mkInfo "" 0 0 [] [];
  mkInfo "" 0 0 [] [];
  mkInfo "" 0 0 [] [];
  mkInfo "" 0 0 [] [];
  mkInfo "" 0 0 [] [];
  mkInfo "" 0 0 [] [];
  mkInfo "" 0 0 [] [];
  mkInfo "" 0 0 [] [];
  mkInfo "" 0 0 [] [];
  mkInfo "" 0 0 [] [];
  mkInfo "" 0 0 [] [];
  mkInfo "DW_CFA_GNU_args_size" 2 1 [DW_EH_PE_uleb128] [DWARF_DISPLAY_NUMBER];
  mkInfo "DW_CFA_GNU_negative_offset_extended" 2 2 [DW_EH_PE_uleb128; DW_EH_PE_uleb128] [DWARF_DISPLAY_REGISTER; DWARF_DISPLAY_NUMBER];
  mkInfo "" 0 0 [] [];
  mkInfo "" 0 0 [] [];
  mkInfo "" 0 0 [] [];
  mkInfo "" 0 0 [] [];
  mkInfo "" 0 0 [] [];
  mkInfo "" 0 0 [] [];
  mkInfo "" 0 0 [] [];
  mkInfo "" 0 0 [] [];
  mkInfo "" 0 0 [] [];
  mkInfo "" 0 0 [] [];
  mkInfo "" 0 0 [] [];
  mkInfo "" 0 0 [] [];
  mkInfo "" 0 0 [] [];
  mkInfo "" 0 0 [] [];
  mkInfo "" 0 0 [] []
].

(** The array has 64 elements: the last one is zero-initialized. *)
Definition kTable : list Info := kTable_00 ++ kTable_14 ++ [mkInfo "" 0 0 [] []].

(** [kTable[cfa_low]] *)
Definition cfa_info (op : Z) : Info := nth (Z.to_nat op) kTable (mkInfo "" 0 0 [] []).

Definition info_operand (cfa : Info) (i : nat) : Z := nth i (info_operands cfa) 0.

Lemma kTable_length : length kTable = 64%nat.
Proof. reflexivity. Qed.
