(* ===== verification/DwarfCfa.v ===== *)
(** [DwarfCfa.cpp] and [DwarfCfa.h]: the interpreter of call frame instructions.

    The record [DwarfCfa] is the interpreter object, with the state of the [DwarfMemory] cursor it
    was built on, the [fde_] and the [cie] this points to, and the [loc_regs] that every operation
    gets as an argument. Accesses of [operands_] out of range and signed overflow are faults. Calls
    of [log] have no effect on the state and are left out. *)
From Stdlib Require Import ZArith Lia Bool Strings.Byte.
From stdpp Require Import base numbers list gmap.
From S2P Require Import Prelude Memory DwarfMemory DwarfStructs DwarfCfaTable.
#[local] Open Scope Z_scope.

(** * The interpreter object *)

Record DwarfCfa := mkDwarfCfa {
  cfa_memory : DwarfMemory;
  cfa_fde : DwarfFde;
  cfa_cie : DwarfCie;
  cfa_error : DwarfErrorData;
  cur_pc_ : Z;
  cie_loc_regs_ : option DwarfLocations;
  cfa_operands : list Z;
  loc_reg_state_ : list DwarfLocations;
  loc_regs : DwarfLocations
}.

(** The constructor, with [set_cie_loc_regs] and the argument [loc_regs]; [cur_pc_] is
    uninitialized and written before it is read. *)
Definition new_DwarfCfa (d : DwarfMemory) (fde : DwarfFde) (cie : DwarfCie)
    (cie_loc_regs : option DwarfLocations) (l : DwarfLocations) : DwarfCfa :=
  mkDwarfCfa d fde cie no_error 0 cie_loc_regs [] [] l.

Definition put_cfa_memory (d : DwarfMemory) (s : DwarfCfa) : DwarfCfa :=
  mkDwarfCfa d (cfa_fde s) (cfa_cie s) (cfa_error s) (cur_pc_ s) (cie_loc_regs_ s) (cfa_operands s)
    (loc_reg_state_ s) (loc_regs s).
Definition put_cfa_error (e : DwarfErrorData) (s : DwarfCfa) : DwarfCfa :=
  mkDwarfCfa (cfa_memory s) (cfa_fde s) (cfa_cie s) e (cur_pc_ s) (cie_loc_regs_ s) (cfa_operands s)
    (loc_reg_state_ s) (loc_regs s).
Definition put_cur_pc (pc : Z) (s : DwarfCfa) : DwarfCfa :=
  mkDwarfCfa (cfa_memory s) (cfa_fde s) (cfa_cie s) (cfa_error s) pc (cie_loc_regs_ s) (cfa_operands s)
    (loc_reg_state_ s) (loc_regs s).
Definition put_cfa_operands (l : list Z) (s : DwarfCfa) : DwarfCfa :=
  mkDwarfCfa (cfa_memory s) (cfa_fde s) (cfa_cie s) (cfa_error s) (cur_pc_ s) (cie_loc_regs_ s) l
    (loc_reg_state_ s) (loc_regs s).
Definition put_reg_state (l : list DwarfLocations) (s : DwarfCfa) : DwarfCfa :=
  mkDwarfCfa (cfa_memory s) (cfa_fde s) (cfa_cie s) (cfa_error s) (cur_pc_ s) (cie_loc_regs_ s)
    (cfa_operands s) l (loc_regs s).
Definition put_loc_regs (l : DwarfLocations) (s : DwarfCfa) : DwarfCfa :=
  mkDwarfCfa (cfa_memory s) (cfa_fde s) (cfa_cie s) (cfa_error s) (cur_pc_ s) (cie_loc_regs_ s)
    (cfa_operands s) (loc_reg_state_ s) l.

Abbreviation CFA := (M DwarfCfa).

Definition on_cfa_memory {B} (m : DM B) : CFA B := zoom cfa_memory put_cfa_memory m.

(** [operands_[i]] *)
Definition operand (i : nat) : CFA Z :=
  s <- get ;; some_or (Undef UbOperandIndex) (cfa_operands s !! i).

(** [( *loc_regs)[reg] = l] and [loc_regs->erase(reg)]: the key is a [uint32_t]. *)
Definition set_loc (reg : Z) (l : DwarfLocation) : CFA unit :=
  modify (fun s => put_loc_regs (put_locs (<[u32 reg := l]> (locs (loc_regs s))) (loc_regs s)) s).
Definition erase_loc (reg : Z) : CFA unit :=
  modify (fun s => put_loc_regs (put_locs (delete (u32 reg) (locs (loc_regs s))) (loc_regs s)) s).

(** [last_error_.code = c; return false;] *)
Definition cfa_fail (c : DwarfErrorCode) : CFA bool :=
  modify (fun s => put_cfa_error (with_code c (cfa_error s)) s) ;; ret false.

(** The error of a failed read: with the offset of the cursor. *)
Definition cfa_memory_invalid : CFA bool :=
  cur <- on_cfa_memory cur_offset ;;
  modify (put_cfa_error (mkError DWARF_ERROR_MEMORY_INVALID cur)) ;;
  ret false.

(** The restore of a register to its value in [cie_loc_regs_]. *)
Definition restore_reg (reg : Z) : CFA bool :=
  s <- get ;;
  match cie_loc_regs_ s with
  | None => cfa_fail DWARF_ERROR_ILLEGAL_STATE
  | Some cie_loc_regs =>
      match locs cie_loc_regs !! u32 reg with
      | None => erase_loc reg
      | Some l => set_loc reg l
      end ;;
      ret true
  end.

Section Cfa.
Variable (A : addr_type).

(** [static_cast<SignedType>(v) * fde_->cie->data_alignment_factor], a product of type [int64_t],
    converted to [SignedType] and from there to [uint64_t]. *)
Definition factored_offset (v : Z) : CFA Z :=
  s <- get ;;
  let product := saddr A v * data_alignment_factor (cfa_cie s) in
  if (- 2 ^ 63 <=? product) && (product <? 2 ^ 63) then ret (u64 (saddr A product))
  else fail (Undef UbOverflow).

(** * The operations *)

Definition cfa_nop : CFA bool := ret true.

Definition cfa_set_loc : CFA bool :=
  new_pc <- operand 0 ;; modify (put_cur_pc new_pc) ;; ret true.

Definition cfa_advance_loc : CFA bool :=
  delta <- operand 0 ;;
  modify (fun s =>
    put_cur_pc (addr A (cur_pc_ s + u64 (delta * code_alignment_factor (cfa_cie s)))) s) ;;
  ret true.

Definition cfa_offset : CFA bool :=
  reg <- operand 0 ;; v <- operand 1 ;; set_loc reg (mkLoc DWARF_LOCATION_OFFSET v 0) ;; ret true.

Definition cfa_restore : CFA bool := reg <- operand 0 ;; restore_reg reg.

Definition cfa_undefined : CFA bool :=
  reg <- operand 0 ;; set_loc reg (mkLoc DWARF_LOCATION_UNDEFINED 0 0) ;; ret true.

Definition cfa_same_value : CFA bool := reg <- operand 0 ;; erase_loc reg ;; ret true.

Definition cfa_register : CFA bool :=
  reg <- operand 0 ;;
  reg_dst <- operand 1 ;;
  set_loc reg (mkLoc DWARF_LOCATION_REGISTER reg_dst 0) ;;
  ret true.

Definition cfa_remember_state : CFA bool :=
  modify (fun s => put_reg_state (loc_regs s :: loc_reg_state_ s) s) ;; ret true.

Definition cfa_restore_state : CFA bool :=
  s <- get ;;
  match loc_reg_state_ s with
  | [] => ret true
  | top :: rest => modify (put_loc_regs top) ;; modify (put_reg_state rest) ;; ret true
  end.

Definition cfa_def_cfa : CFA bool :=
  reg <- operand 0 ;;
  v <- operand 1 ;;
  set_loc CFA_REG (mkLoc DWARF_LOCATION_REGISTER reg v) ;;
  ret true.

(** The location of [CFA_REG], when it is a register with an offset. *)
Definition cfa_location (s : DwarfCfa) : option DwarfLocation :=
  match locs (loc_regs s) !! CFA_REG with
  | Some l => if decide (loc_type l = DWARF_LOCATION_REGISTER) then Some l else None
  | None => None
  end.

Definition cfa_def_cfa_register : CFA bool :=
  s <- get ;;
  match cfa_location s with
  | None => cfa_fail DWARF_ERROR_ILLEGAL_STATE
  | Some l =>
      v <- operand 0 ;;
      set_loc CFA_REG (mkLoc (loc_type l) v (value1 l)) ;;
      ret true
  end.

Definition cfa_def_cfa_offset : CFA bool :=
  s <- get ;;
  match cfa_location s with
  | None => cfa_fail DWARF_ERROR_ILLEGAL_STATE
  | Some l =>
      v <- operand 0 ;;
      set_loc CFA_REG (mkLoc (loc_type l) (value0 l) v) ;;
      ret true
  end.

Definition cfa_def_cfa_expression : CFA bool :=
  v <- operand 0 ;;
  cur <- on_cfa_memory cur_offset ;;
  set_loc CFA_REG (mkLoc DWARF_LOCATION_VAL_EXPRESSION v cur) ;;
  ret true.

Definition cfa_expression : CFA bool :=
  reg <- operand 0 ;;
  v <- operand 1 ;;
  cur <- on_cfa_memory cur_offset ;;
  set_loc reg (mkLoc DWARF_LOCATION_EXPRESSION v cur) ;;
  ret true.

Definition cfa_offset_extended_sf : CFA bool :=
  reg <- operand 0 ;;
  v <- operand 1 ;;
  value <- factored_offset v ;;
  set_loc reg (mkLoc DWARF_LOCATION_OFFSET value 0) ;;
  ret true.

Definition cfa_def_cfa_sf : CFA bool :=
  v <- operand 1 ;;
  offset <- factored_offset v ;;
  reg <- operand 0 ;;
  set_loc CFA_REG (mkLoc DWARF_LOCATION_REGISTER reg offset) ;;
  ret true.

Definition cfa_def_cfa_offset_sf : CFA bool :=
  s <- get ;;
  match cfa_location s with
  | None => cfa_fail DWARF_ERROR_ILLEGAL_STATE
  | Some l =>
      v <- operand 0 ;;
      offset <- factored_offset v ;;
      set_loc CFA_REG (mkLoc (loc_type l) (value0 l) offset) ;;
      ret true
  end.

Definition cfa_val_offset : CFA bool :=
  reg <- operand 0 ;;
  v <- operand 1 ;;
  offset <- factored_offset v ;;
  set_loc reg (mkLoc DWARF_LOCATION_VAL_OFFSET offset 0) ;;
  ret true.

Definition cfa_val_offset_sf : CFA bool :=
  reg <- operand 0 ;;
  v <- operand 1 ;;
  offset <- factored_offset v ;;
  set_loc reg (mkLoc DWARF_LOCATION_VAL_OFFSET offset 0) ;;
  ret true.

Definition cfa_val_expression : CFA bool :=
  reg <- operand 0 ;;
  v <- operand 1 ;;
  cur <- on_cfa_memory cur_offset ;;
  set_loc reg (mkLoc DWARF_LOCATION_VAL_EXPRESSION v cur) ;;
  ret true.

Definition cfa_gnu_negative_offset_extended : CFA bool :=
  reg <- operand 0 ;;
  v <- operand 1 ;;
  if saddr A v =? - 2 ^ (bits A - 1) then fail (Undef UbOverflow)
  else
    set_loc reg (mkLoc DWARF_LOCATION_OFFSET (u64 (- saddr A v)) 0) ;;
    ret true.

(** [kCallbackTable] *)
Definition kCallbackTable : list (option (CFA bool)) :=
  [ (* 0x00 *) Some cfa_nop;
    (* 0x01 *) Some cfa_set_loc;
    (* 0x02 *) Some cfa_advance_loc;
    (* 0x03 *) Some cfa_advance_loc;
    (* 0x04 *) Some cfa_advance_loc;
    (* 0x05 *) Some cfa_offset;
    (* 0x06 *) Some cfa_restore;
    (* 0x07 *) Some cfa_undefined;
    (* 0x08 *) Some cfa_same_value;
    (* 0x09 *) Some cfa_register;
    (* 0x0a *) Some cfa_remember_state;
    (* 0x0b *) Some cfa_restore_state;
    (* 0x0c *) Some cfa_def_cfa;
    (* 0x0d *) Some cfa_def_cfa_register;
    (* 0x0e *) Some cfa_def_cfa_offset;
    (* 0x0f *) Some cfa_def_cfa_expression;
    (* 0x10 *) Some cfa_expression;
    (* 0x11 *) Some cfa_offset_extended_sf;
    (* 0x12 *) Some cfa_def_cfa_sf;
    (* 0x13 *) Some cfa_def_cfa_offset_sf;
    (* 0x14 *) Some cfa_val_offset;
    (* 0x15 *) Some cfa_val_offset_sf;
    (* 0x16 *) Some cfa_val_expression ]
  ++ (* 0x17 to 0x2d *) replicate 23 None
  ++ [ (* 0x2e *) Some cfa_nop;
       (* 0x2f *) Some cfa_gnu_negative_offset_extended ]
  ++ (* 0x30 to 0x3f *) replicate 16 None.

Definition cfa_callback (op : Z) : option (CFA bool) := nth (Z.to_nat op) kCallbackTable None.

(** * The interpreter *)

(** The loop over the operands of an extended instruction, [n] of them left from index [i] on. *)
Fixpoint read_cfa_operands (cfa : Info) (n i : nat) : CFA bool :=
  match n with
  | O => ret true
  | S n' =>
      if info_operand cfa i =? DW_EH_PE_block then
        block_length <- on_cfa_memory ReadULEB128 ;;
        match block_length with
        | None => cfa_memory_invalid
        | Some len =>
            modify (fun s => put_cfa_operands (cfa_operands s ++ [addr A len]) s) ;;
            cur <- on_cfa_memory cur_offset ;;
            on_cfa_memory (set_cur_offset (u64 (cur + len))) ;;
            read_cfa_operands cfa n' (S i)
        end
      else
        value <- on_cfa_memory (ReadEncodedValue A (info_operand cfa i)) ;;
        match value with
        | None => cfa_memory_invalid
        | Some v =>
            modify (fun s => put_cfa_operands (cfa_operands s ++ [addr A v]) s) ;;
            read_cfa_operands cfa n' (S i)
        end
  end.

(** The four cases of the two high bits of [cfa_value]. *)
Definition cfa_switch (cfa_value : Z) : CFA bool :=
  let cfa_low := Z.land cfa_value 0x3f in
  let high := Z.shiftr cfa_value 6 in
  if high =? 1 then
    modify (fun s =>
      put_cur_pc (addr A (cur_pc_ s + u64 (cfa_low * code_alignment_factor (cfa_cie s)))) s) ;;
    ret true
  else if high =? 2 then
    offset <- on_cfa_memory ReadULEB128 ;;
    match offset with
    | None => cfa_memory_invalid
    | Some o =>
        signed_offset <- factored_offset o ;;
        set_loc cfa_low (mkLoc DWARF_LOCATION_OFFSET signed_offset 0) ;;
        ret true
    end
  else if high =? 3 then restore_reg cfa_low
  else
    match cfa_callback cfa_low with
    | None => cfa_fail DWARF_ERROR_ILLEGAL_VALUE
    | Some handle_func =>
        let cfa := cfa_info cfa_low in
        ok <- read_cfa_operands cfa (Z.to_nat (info_num_operands cfa)) 0 ;;
        if (ok : bool) then handle_func else ret false
    end.

(** The [while (true)] loop. It is not bounded by the code: the model counts iterations. *)
Fixpoint location_loop (fuel : nat) (pc end_offset : Z) : CFA bool :=
  match fuel with
  | O => fail OutOfFuel
  | S fuel' =>
      s <- get ;;
      if pc <? cur_pc_ s then
        modify (fun s => put_loc_regs (put_pc_end (cur_pc_ s) (loc_regs s)) s) ;; ret true
      else
        cfa_offset <- on_cfa_memory cur_offset ;;
        if end_offset <=? cfa_offset then
          modify (fun s => put_loc_regs (put_pc_end (pc_end (cfa_fde s)) (loc_regs s)) s) ;; ret true
        else
          modify (fun s => put_loc_regs (put_pc_start (cur_pc_ s) (loc_regs s)) s) ;;
          modify (put_cfa_operands []) ;;
          cfa_value <- on_cfa_memory (ReadUnsigned 1) ;;
          match cfa_value with
          | None => cfa_memory_invalid
          | Some v =>
              ok <- cfa_switch v ;;
              if (ok : bool) then location_loop fuel' pc end_offset else ret false
          end
  end.

Definition GetLocationInfo (fuel : nat) (pc start_offset end_offset : Z) : CFA bool :=
  modify (fun s =>
    match cie_loc_regs_ s with
    | Some l => put_loc_regs (put_locs (locs l ∪ locs (loc_regs s)) (loc_regs s)) s
    | None => s
    end) ;;
  modify (put_cfa_error no_error) ;;
  on_cfa_memory (set_cur_offset start_offset) ;;
  modify (fun s => put_cur_pc (addr A (pc_start (cfa_fde s))) s) ;;
  modify (fun s => put_loc_regs (put_pc_start (cur_pc_ s) (loc_regs s)) s) ;;
  location_loop fuel pc end_offset.
End Cfa.

(** * Rules for the primitives *)

Section Rules.
Implicit Types (s : DwarfCfa) (F : fault -> Prop).

Lemma wp_on_cfa_memory {B} F (m : DM B) Q s :
  wp F (on_cfa_memory m) Q s = wp F m (fun b d => Q b (put_cfa_memory d s)) (cfa_memory s).
Proof. apply wp_zoom. Qed.

Lemma wp_operand F i Q s :
  wp F (operand i) Q s
  = match cfa_operands s !! i with Some v => Q v s | None => F (Undef UbOperandIndex) end.
Proof. unfold operand. by wp_simpl. Qed.

Lemma wp_set_loc F r l Q s :
  wp F (set_loc r l) Q s
  = Q tt (put_loc_regs (put_locs (<[u32 r := l]> (locs (loc_regs s))) (loc_regs s)) s).
Proof. reflexivity. Qed.

Lemma wp_erase_loc F r Q s :
  wp F (erase_loc r) Q s
  = Q tt (put_loc_regs (put_locs (delete (u32 r) (locs (loc_regs s))) (loc_regs s)) s).
Proof. reflexivity. Qed.

Lemma wp_cfa_fail F c Q s :
  wp F (cfa_fail c) Q s = Q false (put_cfa_error (with_code c (cfa_error s)) s).
Proof. reflexivity. Qed.

Lemma put_cfa_memory_id s : put_cfa_memory (cfa_memory s) s = s.
Proof. by destruct s. Qed.
End Rules.

#[export] Hint Rewrite @wp_on_cfa_memory wp_operand wp_set_loc wp_erase_loc wp_cfa_fail
  put_cfa_memory_id : wp.
