(* ===== verification/DwarfCfaRows.v ===== *)
(** Correctness of the call frame interpreter ([DwarfCfa.cpp]) against the unwind table of the
    DWARF standard: the instructions of a frame description entry denote a table of rows, each valid
    from its start address to that of the next row, and [GetLocationInfo] finds the row of an
    address together with a range of addresses that share it. *)
From Stdlib Require Import ZArith Lia Bool Strings.Byte Sorting.
From stdpp Require Import base numbers list gmap.
From S2P Require Import Prelude Memory DwarfMemory DwarfEncode DwarfStructs DwarfCfaTable DwarfCfa.
#[local] Open Scope Z_scope.

(** * Instructions *)

Inductive cfa_instr : Set :=
| Nop
| GnuArgsSize (n : Z)
| SetLoc (pc : Z)
| Advance (d : Z)
| AdvanceLoc1 (d : Z)
| AdvanceLoc2 (d : Z)
| AdvanceLoc4 (d : Z)
| Offset (r o : Z)
| OffsetExtended (r o : Z)
| Restore (r : Z)
| RestoreExtended (r : Z)
| Undefined (r : Z)
| SameValue (r : Z)
| Register (r r' : Z)
| RememberState
| RestoreState
| DefCfa (r o : Z)
| DefCfaRegister (r : Z)
| DefCfaOffset (o : Z)
| DefCfaExpression (blk : list byte)
| Expression (r : Z) (blk : list byte)
| ValExpression (r : Z) (blk : list byte)
| OffsetExtendedSf (r o : Z)
| DefCfaSf (r o : Z)
| DefCfaOffsetSf (o : Z)
| ValOffset (r o : Z)
| ValOffsetSf (r o : Z)
| GnuNegativeOffsetExtended (r o : Z).

#[export] Instance cfa_instr_eq_dec : EqDecision cfa_instr.
Proof. solve_decision. Defined.

(** An operand: a number, or a block of bytes preceded by its length. *)
Inductive coperand : Set := V (v : Z) | B (blk : list byte).

(** Opcode and operands of the instructions with the extended encoding. *)
Definition extended (i : cfa_instr) : option (Z * list coperand) :=
  match i with
  | Nop => Some (0x00, [])
  | SetLoc pc => Some (0x01, [V pc])
  | AdvanceLoc1 d => Some (0x02, [V d])
  | AdvanceLoc2 d => Some (0x03, [V d])
  | AdvanceLoc4 d => Some (0x04, [V d])
  | OffsetExtended r o => Some (0x05, [V r; V o])
  | RestoreExtended r => Some (0x06, [V r])
  | Undefined r => Some (0x07, [V r])
  | SameValue r => Some (0x08, [V r])
  | Register r r' => Some (0x09, [V r; V r'])
  | RememberState => Some (0x0a, [])
  | RestoreState => Some (0x0b, [])
  | DefCfa r o => Some (0x0c, [V r; V o])
  | DefCfaRegister r => Some (0x0d, [V r])
  | DefCfaOffset o => Some (0x0e, [V o])
  | DefCfaExpression blk => Some (0x0f, [B blk])
  | Expression r blk => Some (0x10, [V r; B blk])
  | OffsetExtendedSf r o => Some (0x11, [V r; V o])
  | DefCfaSf r o => Some (0x12, [V r; V o])
  | DefCfaOffsetSf o => Some (0x13, [V o])
  | ValOffset r o => Some (0x14, [V r; V o])
  | ValOffsetSf r o => Some (0x15, [V r; V o])
  | ValExpression r blk => Some (0x16, [V r; B blk])
  | GnuArgsSize n => Some (0x2e, [V n])
  | GnuNegativeOffsetExtended r o => Some (0x2f, [V r; V o])
  | Advance _ | Offset _ _ | Restore _ => None
  end.

Section Encoding.
Context (A : addr_type).

Definition coperand_val (o : coperand) : Z := match o with V v => v | B blk => len blk end.

Definition encode_coperand (e : Z) (o : coperand) : list byte :=
  match o with V v => encode_operand A e v | B blk => uleb (len blk) ++ blk end.

Definition coperand_ok (e : Z) (o : coperand) : Prop :=
  match o with
  | V v => e <> DW_EH_PE_block /\ operand_ok A e v
  | B blk => e = DW_EH_PE_block /\ in_u 64 (len blk)
  end.

Fixpoint encode_coperands (cfa : Info) (l : list coperand) (i : nat) : list byte :=
  match l with
  | [] => []
  | o :: l => encode_coperand (info_operand cfa i) o ++ encode_coperands cfa l (S i)
  end.

Fixpoint coperands_ok (cfa : Info) (l : list coperand) (i : nat) : Prop :=
  match l with
  | [] => True
  | o :: l => coperand_ok (info_operand cfa i) o /\ coperands_ok cfa l (S i)
  end.

Definition encode_cfa (i : cfa_instr) : list byte :=
  match i with
  | Advance d => [byte_of (0x40 + d)]
  | Offset r o => byte_of (0x80 + r) :: uleb o
  | Restore r => [byte_of (0xc0 + r)]
  | _ => match extended i with
         | Some (op, l) => byte_of op :: encode_coperands (cfa_info op) l 0
         | None => []
         end
  end.

Definition encode_cfas (l : list cfa_instr) : list byte := concat (map encode_cfa l).

(** Operands are representable in their encoding and in the type of [operands_], register numbers
    also in the key type of the location map. *)
Definition cfa_instr_ok (i : cfa_instr) : Prop :=
  match i with
  | Advance d => 0 <= d < 64
  | Offset r o => 0 <= r < 64 /\ in_u 64 o
  | Restore r => 0 <= r < 64
  | OffsetExtendedSf r o | ValOffsetSf r o => in_u 32 r /\ in_s 63 o
  | DefCfaSf r o => in_u (bits A) r /\ in_s 63 o
  | DefCfaOffsetSf o => in_s 63 o
  | ValOffset r o | GnuNegativeOffsetExtended r o => in_u 32 r /\ in_u 64 o
  | OffsetExtended r o | Register r o => in_u 32 r /\ in_u (bits A) o
  | RestoreExtended r | Undefined r | SameValue r => in_u 32 r
  | Expression r blk | ValExpression r blk => in_u 32 r /\ in_u (bits A) (len blk)
  | DefCfa r o => in_u (bits A) r /\ in_u (bits A) o
  | DefCfaRegister v | DefCfaOffset v | SetLoc v => in_u (bits A) v
  | DefCfaExpression blk => in_u (bits A) (len blk)
  | AdvanceLoc1 d => in_u 8 d
  | AdvanceLoc2 d => in_u 16 d
  | AdvanceLoc4 d => in_u 32 d
  | GnuArgsSize n => in_u 64 n
  | Nop | RememberState | RestoreState => True
  end.
End Encoding.

(** * The meaning of instructions *)

Abbreviation row := (gmap Z DwarfLocation).

(** The state of the standard's table construction: the address and the register rules of the
    current row, and the stack of remembered rules. *)
Record cstate := mkC { c_pc : Z; c_row : row; c_stack : list row }.

Section Meaning.
Context (A : addr_type) (cie : DwarfCie) (cie_row : option row).

Definition factored (v : Z) : option Z :=
  let product := saddr A v * data_alignment_factor cie in
  if (- 2 ^ 63 <=? product) && (product <? 2 ^ 63) then Some (u64 (saddr A product)) else None.

Definition rule (r : Z) (l : DwarfLocation) (st : cstate) : cstate :=
  mkC (c_pc st) (<[r := l]> (c_row st)) (c_stack st).
Definition no_rule (r : Z) (st : cstate) : cstate :=
  mkC (c_pc st) (delete r (c_row st)) (c_stack st).
Definition advance (d : Z) (st : cstate) : cstate :=
  mkC (addr A (c_pc st + d * code_alignment_factor cie)) (c_row st) (c_stack st).

Definition restore_rule (r : Z) (st : cstate) : option cstate :=
  cr ← cie_row; Some (match cr !! r with Some l => rule r l st | None => no_rule r st end).

(** The register rule of the CFA, when it is one. *)
Definition cfa_rule (st : cstate) : option DwarfLocation :=
  l ← c_row st !! CFA_REG; if decide (loc_type l = DWARF_LOCATION_REGISTER) then Some l else None.

(** [astep off i st]: one instruction; [off] is the offset behind it. [None]: an error. *)
Definition astep (off : Z) (i : cfa_instr) (st : cstate) : option cstate :=
  match i with
  | Nop | GnuArgsSize _ => Some st
  | SetLoc pc => Some (mkC pc (c_row st) (c_stack st))
  | Advance d | AdvanceLoc1 d | AdvanceLoc2 d | AdvanceLoc4 d => Some (advance d st)
  | Offset r o | OffsetExtendedSf r o => v ← factored o; Some (rule r (mkLoc DWARF_LOCATION_OFFSET v 0) st)
  | OffsetExtended r o => Some (rule r (mkLoc DWARF_LOCATION_OFFSET o 0) st)
  | Restore r | RestoreExtended r => restore_rule r st
  | Undefined r => Some (rule r (mkLoc DWARF_LOCATION_UNDEFINED 0 0) st)
  | SameValue r => Some (no_rule r st)
  | Register r r' => Some (rule r (mkLoc DWARF_LOCATION_REGISTER r' 0) st)
  | RememberState => Some (mkC (c_pc st) (c_row st) (c_row st :: c_stack st))
  | RestoreState =>
      match c_stack st with [] => Some st | t :: ts => Some (mkC (c_pc st) t ts) end
  | DefCfa r o => Some (rule CFA_REG (mkLoc DWARF_LOCATION_REGISTER r o) st)
  | DefCfaSf r o =>
      v ← factored o; Some (rule CFA_REG (mkLoc DWARF_LOCATION_REGISTER r v) st)
  | DefCfaRegister r =>
      l ← cfa_rule st; Some (rule CFA_REG (mkLoc DWARF_LOCATION_REGISTER r (value1 l)) st)
  | DefCfaOffset o =>
      l ← cfa_rule st; Some (rule CFA_REG (mkLoc DWARF_LOCATION_REGISTER (value0 l) o) st)
  | DefCfaOffsetSf o =>
      l ← cfa_rule st; v ← factored o; Some (rule CFA_REG (mkLoc DWARF_LOCATION_REGISTER (value0 l) v) st)
  | DefCfaExpression blk => Some (rule CFA_REG (mkLoc DWARF_LOCATION_VAL_EXPRESSION (len blk) off) st)
  | Expression r blk => Some (rule r (mkLoc DWARF_LOCATION_EXPRESSION (len blk) off) st)
  | ValExpression r blk => Some (rule r (mkLoc DWARF_LOCATION_VAL_EXPRESSION (len blk) off) st)
  | ValOffset r o | ValOffsetSf r o =>
      v ← factored o; Some (rule r (mkLoc DWARF_LOCATION_VAL_OFFSET v 0) st)
  | GnuNegativeOffsetExtended r o =>
      if saddr A o =? - 2 ^ (bits A - 1) then None
      else Some (rule r (mkLoc DWARF_LOCATION_OFFSET (u64 (- saddr A o)) 0) st)
  end.

(** The rows that the instructions [l] at offset [off] denote: a new one wherever the address
    moves. *)
Fixpoint rows (off : Z) (st : cstate) (l : list cfa_instr) : option (list (Z * row)) :=
  match l with
  | [] => Some [(c_pc st, c_row st)]
  | i :: l' =>
      let off' := off + len (encode_cfa A i) in
      st' ← astep off' i st;
      t ← rows off' st' l';
      Some (if c_pc st' =? c_pc st then t else (c_pc st, c_row st) :: t)
  end.
End Meaning.

(** The last row that starts at or below [pc]. *)
Fixpoint row_at (pc : Z) (t : list (Z * row)) : option row :=
  match t with
  | [] => None
  | (start, r) :: t' =>
      match row_at pc t' with
      | Some r' => Some r'
      | None => if start <=? pc then Some r else None
      end
  end.

(** The addresses of a table increase. *)
Fixpoint increasing (t : list (Z * row)) : Prop :=
  match t with
  | [] => True
  | (p, _) :: t' => match t' with (q, _) :: _ => p < q | [] => True end /\ increasing t'
  end.

(** * One instruction *)

Section Step.
Context (A : addr_type) (bm : Z -> option byte).
Implicit Types (s : DwarfCfa) (st : cstate).

Lemma on_cfa_memory_run {C} (m : DM C) s b d' :
  m (cfa_memory s) = Done (b, d') -> on_cfa_memory m s = Done (b, put_cfa_memory d' s).
Proof. unfold on_cfa_memory, zoom. by intros ->. Qed.

Lemma read_cfa_operands_run cfa l i s :
  coperands_ok A cfa l i -> at_bytes bm (cfa_memory s) (encode_coperands A cfa l i) ->
  read_cfa_operands A cfa (length l) i s
  = Done (true, put_cfa_operands (cfa_operands s ++ map (fun o => addr A (coperand_val o)) l)
                  (put_cfa_memory (skip (len (encode_coperands A cfa l i)) (cfa_memory s)) s)).
Proof.
  revert i s. induction l as [|o l IH]; intros i s Hok Ha.
  - destruct Ha as (_ & Hc & _). change (len (encode_coperands A cfa [] i)) with 0. rewrite skip_0 by done.
    cbn. rewrite app_nil_r. by destruct s.
  - destruct Hok as [Ho Hok]. cbn [encode_coperands] in *. apply (at_bytes_split bm) in Ha as [Hb Ha].
    rewrite len_app, <- skip_skip. cbn [read_cfa_operands length]. destruct o as [v|blk].
    + destruct Ho as [Hne Hv]. rewrite (proj2 (Z.eqb_neq _ _) Hne). unfold bind at 1.
      rewrite (on_cfa_memory_run _ _ _ _ (ReadEncodedValue_run A bm _ _ _ Hv Hb)).
      unfold bind, modify. rewrite IH; [|done|done]. cbn. by rewrite <- app_assoc, addr_u64.
    + destruct Ho as [He Hl]. rewrite He, Z.eqb_refl. cbn [encode_coperand] in *. unfold bind at 1.
      apply (at_bytes_split bm) in Hb as [Hu Hb].
      rewrite (on_cfa_memory_run _ _ _ _ (ReadULEB128_u bm _ _ Hl Hu)).
      rewrite (wrap_small 64 (len blk)) by done. rewrite len_app, <- (skip_skip (len blk)) in Ha |- *.
      unfold bind, modify, on_cfa_memory, zoom, cur_offset, set_cur_offset, gets, modify.
      rewrite IH; [|done|done]. cbn. by rewrite <- app_assoc.
Qed.

(** The interpreter object agrees with the abstract state. *)
Definition sim (cie : DwarfCie) (cie_row : option row) s st : Prop :=
  cfa_cie s = cie /\ locs <$> cie_loc_regs_ s = cie_row /\ cur_pc_ s = c_pc st /\
  locs (loc_regs s) = c_row st /\ map locs (loc_reg_state_ s) = c_stack st.

(** What an iteration of the loop does besides the abstract step. *)
Definition iterates (i : cfa_instr) s s' : Prop :=
  cfa_memory s' = skip (len (encode_cfa A i)) (cfa_memory s) /\ cfa_fde s' = cfa_fde s /\
  (i <> RestoreState -> locs_pc_start (loc_regs s') = locs_pc_start (loc_regs s)).

(** The state in which the handler of an extended instruction starts. *)
Definition cready (op : Z) (l : list coperand) s : DwarfCfa :=
  put_cfa_operands (map (fun o => addr A (coperand_val o)) l)
    (put_cfa_memory (skip (len (byte_of op :: encode_coperands A (cfa_info op) l 0)) (cfa_memory s)) s).

(** The read of the instruction byte and the [switch] of the loop. *)
Definition fetch : CFA bool :=
  v <- on_cfa_memory (ReadUnsigned 1) ;;
  match v with None => cfa_memory_invalid | Some v => cfa_switch A v end.

Lemma byte_high_low (h l : Z) :
  0 <= l < 64 -> 0 <= h < 4 -> Z.land (64 * h + l) 0x3f = l /\ Z.shiftr (64 * h + l) 6 = h.
Proof.
  intros Hl Hh. change 0x3f with (Z.ones 6). rewrite Z.land_ones, Z.shiftr_div_pow2 by lia.
  change (2 ^ 6) with 64. rewrite (Z.mul_comm 64 h), Z.add_comm. split.
  - rewrite Z.mod_add by lia. apply Z.mod_small. lia.
  - rewrite Z.div_add by lia. rewrite Z.div_small; lia.
Qed.

(** Reading an instruction byte [64 * h + l]. *)
Lemma fetch_byte h l bs s :
  0 <= l < 64 -> 0 <= h < 4 -> at_bytes bm (cfa_memory s) (byte_of (64 * h + l) :: bs) ->
  fetch s = cfa_switch A (64 * h + l) (put_cfa_memory (skip 1 (cfa_memory s)) s) /\
  at_bytes bm (skip 1 (cfa_memory s)) bs.
Proof.
  intros Hl Hh Ha. change (byte_of (64 * h + l) :: bs) with ([byte_of (64 * h + l)] ++ bs) in Ha.
  apply (at_bytes_split bm) in Ha as [Hb Ha]. split; [|done]. unfold fetch, bind at 1.
  rewrite (on_cfa_memory_run _ _ _ _ (ReadUnsigned_1_run bm _ _ Hb)).
  rewrite byte_val_of, Z.mod_small by lia. done.
Qed.

(** An extended instruction reads its operands and runs its handler. *)
Lemma fetch_extended op l h s :
  0 <= op < 64 -> cfa_callback A op = Some h -> Z.of_nat (length l) = info_num_operands (cfa_info op) ->
  coperands_ok A (cfa_info op) l 0 -> cfa_operands s = [] ->
  at_bytes bm (cfa_memory s) (byte_of op :: encode_coperands A (cfa_info op) l 0) ->
  fetch s = h (cready op l s).
Proof.
  intros Hop Hh Hn Hok Hz Ha. replace op with (64 * 0 + op) in Ha at 1 by lia.
  destruct (fetch_byte 0 op _ s Hop ltac:(lia) Ha) as [-> Ha'].
  destruct (byte_high_low 0 op Hop ltac:(lia)) as [El Eh].
  unfold cfa_switch. rewrite El, Eh. cbn [Z.eqb Z.mul Pos.eqb]. change (0 =? 1) with false. change (0 =? 2) with false.
  change (0 =? 3) with false. rewrite Hh. cbv iota. unfold bind at 1. rewrite <- Hn, Nat2Z.id.
  rewrite read_cfa_operands_run; [|done|done]. unfold cready. cbn. rewrite Hz, len_cons, skip_skip. done.
Qed.

Lemma in_u_bits_64 v : in_u (bits A) v -> in_u 64 v.
Proof. apply in_u_mono. pose proof (bits_pos A). pose proof (bits_le_64 A). lia. Qed.

Lemma in_u_32_64 v : in_u 32 v -> in_u 64 v.
Proof. apply in_u_mono. lia. Qed.

Lemma in_u_32_bits v : in_u 32 v -> in_u (bits A) v.
Proof. apply in_u_mono. destruct A; simpl; lia. Qed.

#[local] Hint Resolve in_u_bits_64 in_u_32_64 in_u_32_bits : core.

(** The operands of an instruction fit the encodings of the table. *)
Lemma extended_ok i op l :
  extended i = Some (op, l) -> cfa_instr_ok A i ->
  0 <= op < 64 /\ Z.of_nat (length l) = info_num_operands (cfa_info op) /\ coperands_ok A (cfa_info op) l 0.
Proof.
  destruct i; intros [= <- <-] Hok; cbn [cfa_instr_ok] in Hok;
    (split; [lia|]; split; [reflexivity|]); cbn [coperands_ok coperand_ok];
    repeat match goal with H : _ /\ _ |- _ => destruct H end;
    repeat match goal with |- _ /\ _ => split end; try discriminate; try exact I; try reflexivity;
    auto; match goal with |- operand_ok _ _ ?v => first [assumption | change (in_u 64 v); solve [auto]] end.
Qed.

Lemma saddr_addr v : saddr A (addr A v) = saddr A v.
Proof. unfold saddr, sgn, addr. rewrite wrap_idemp; [done|]. pose proof (bits_pos A). lia. Qed.

Lemma addr_reg r : in_u 32 r -> u32 (addr A r) = r.
Proof. intros H. rewrite addr_small by auto. by apply wrap_small. Qed.

(** The multiplication of the code is the specification's. *)
Lemma factored_run cie s o v :
  cfa_cie s = cie -> factored A cie o = Some v -> factored_offset A o s = Done (v, s).
Proof.
  intros <- . unfold factored, factored_offset, bind, get. destruct (_ && _); [|done]. by intros [= ->].
Qed.

Lemma factored_addr cie v : factored A cie (addr A v) = factored A cie v.
Proof. unfold factored. by rewrite saddr_addr. Qed.

Lemma restore_reg_run cie cie_row s st st' r :
  sim cie cie_row s st -> in_u 32 r -> restore_rule cie_row r st = Some st' ->
  exists s', restore_reg r s = Done (true, s') /\ sim cie cie_row s' st' /\
    cfa_memory s' = cfa_memory s /\ cfa_fde s' = cfa_fde s /\
    locs_pc_start (loc_regs s') = locs_pc_start (loc_regs s).
Proof.
  intros (Hc & Hcr & Hpc & Hrow & Hst) Hr Hs. unfold restore_rule in Hs. rewrite <- Hcr in Hs.
  unfold restore_reg, bind at 1, get. destruct (cie_loc_regs_ s) as [cr|] eqn:E; [|done].
  cbn in Hs. rewrite (wrap_small 32) by done. injection Hs as <-.
  destruct (locs cr !! r) as [l|]; (eexists; split; [reflexivity|]);
    (split; [|done]); repeat split; cbn; try done; rewrite ?E, ?Hrow, ?(wrap_small 32) by done; done.
Qed.

(** The CFA rule of the code is the specification's. *)
Lemma cfa_location_rule s st : locs (loc_regs s) = c_row st -> cfa_location s = cfa_rule st.
Proof. unfold cfa_location, cfa_rule. intros ->. by destruct (c_row st !! CFA_REG). Qed.

Lemma cfa_rule_type st l : cfa_rule st = Some l -> loc_type l = DWARF_LOCATION_REGISTER.
Proof.
  unfold cfa_rule. intros (l' & _ & H)%bind_Some. destruct (decide _); [|done]. by injection H as <-.
Qed.

(** ** Handlers *)

Lemma operand_run {C} (i : nat) v (k : Z -> CFA C) s :
  cfa_operands s !! i = Some v -> bind (operand i) k s = k v s.
Proof. intros E. unfold operand, bind, get. by rewrite E. Qed.

Lemma factored_bind {C} cie (o v : Z) (k : Z -> CFA C) s :
  cfa_cie s = cie -> factored A cie o = Some v -> bind (factored_offset A (addr A o)) k s = k v s.
Proof.
  intros Hc Hv. unfold bind. rewrite (factored_run cie s (addr A o) v Hc); [done|by rewrite factored_addr].
Qed.

(** The end of a handler: it simulates the abstract step, and keeps the rest. *)
Definition handled cie cie_row (m : CFA bool) s st' : Prop :=
  exists s', m s = Done (true, s') /\ sim cie cie_row s' st' /\ cfa_memory s' = cfa_memory s /\
    cfa_fde s' = cfa_fde s /\ locs_pc_start (loc_regs s') = locs_pc_start (loc_regs s).

Lemma handled_set cie cie_row m s st k r loc loc' :
  sim cie cie_row s st -> m s = bind (set_loc k loc) (fun _ => ret true) s ->
  u32 k = r -> loc = loc' -> handled cie cie_row m s (rule r loc' st).
Proof.
  intros (Hc & Hcr & Hpc & Hrow & Hst) Hm <- <-. eexists. split; [exact Hm|].
  split; [|done]. repeat split; try done. cbn. by rewrite Hrow.
Qed.

Lemma handled_erase cie cie_row m s st k r :
  sim cie cie_row s st -> m s = bind (erase_loc k) (fun _ => ret true) s -> u32 k = r ->
  handled cie cie_row m s (no_rule r st).
Proof.
  intros (Hc & Hcr & Hpc & Hrow & Hst) Hm <-. eexists. split; [exact Hm|].
  split; [|done]. repeat split; try done. cbn. by rewrite Hrow.
Qed.

Lemma handled_advance cie cie_row s st d :
  sim cie cie_row s st -> cfa_operands s !! 0%nat = Some (addr A d) -> 
  handled cie cie_row (cfa_advance_loc A) s (advance A cie d st).
Proof.
  intros (Hc & Hcr & Hpc & Hrow & Hst) Ho. unfold handled, cfa_advance_loc. erewrite operand_run by done.
  eexists. split; [reflexivity|]. split; [|done]. repeat split; try done. cbn. rewrite Hpc, Hc. unfold addr.
  pose proof (bits_pos A). pose proof (bits_le_64 A).
  rewrite <- wrap_add_r, wrap_narrow, wrap_mul_l, wrap_add_r by lia. done.
Qed.

Lemma sim_ready cie cie_row s st op l : sim cie cie_row s st -> sim cie cie_row (cready op l s) st.
Proof. done. Qed.

(** Each extended instruction other than [DW_CFA_restore_state] is handled. *)
Lemma extended_handled cie cie_row i op l h s st st' :
  extended i = Some (op, l) -> cfa_instr_ok A i -> sim cie cie_row s st -> i <> RestoreState ->
  cfa_callback A op = Some h -> cur_offset_ (cfa_memory (cready op l s)) = cur_offset_ (cfa_memory s) + len (encode_cfa A i) ->
  astep A cie cie_row (cur_offset_ (cfa_memory s) + len (encode_cfa A i)) i st = Some st' ->
  handled cie cie_row h (cready op l s) st'.
Proof.
  intros He Hok Hsim Hne Hh Hcur Hs. apply (sim_ready _ _ _ _ op l) in Hsim.
  rewrite <- Hcur in Hs. pose proof Hsim as (Hc & Hcr & Hpc & Hrow & Hst).
  destruct i; try done; injection He as <- <-; injection Hh as <-; cbn [astep] in Hs;
    cbn [cfa_instr_ok] in Hok; repeat match goal with H : _ /\ _ |- _ => destruct H end;
    try (apply bind_Some in Hs as (w & Hw & Hs)); try injection Hs as <-.
  all: try by (eexists; split; [reflexivity|]).
  all: try by (apply handled_advance).
  all: try by (eapply handled_erase; [done|reflexivity|by apply addr_reg]).
  all: try by (eapply handled_set; [done|reflexivity|first [by apply addr_reg | reflexivity]|cbn; rewrite ?addr_small by auto; done]).
  all: try by (eapply handled_set;
    [done|unfold cfa_offset_extended_sf, cfa_val_offset, cfa_val_offset_sf;
      do 2 (erewrite operand_run by reflexivity); erewrite factored_bind by done; reflexivity
    |by apply addr_reg|done]).
  - eexists. split; [reflexivity|]. split; [|done]. repeat split; try done. cbn. by apply addr_small.
  - unfold handled, cfa_restore. erewrite operand_run by reflexivity. rewrite addr_small by auto.
    apply (restore_reg_run _ _ _ _ _ _ Hsim); [done|]. unfold restore_rule. by rewrite Hw.
  - eexists. split; [reflexivity|]. split; [|done]. repeat split; try done. cbn. cbn in Hst, Hrow. by rewrite Hst, Hrow.
  - eapply (handled_set _ _ _ _ _ CFA_REG); [done| |reflexivity|].
    + unfold cfa_def_cfa_register, bind at 1, get. rewrite (cfa_location_rule _ _ Hrow), Hw.
      erewrite operand_run by reflexivity. reflexivity.
    + rewrite (cfa_rule_type _ _ Hw). cbn. by rewrite addr_small.
  - eapply (handled_set _ _ _ _ _ CFA_REG); [done| |reflexivity|].
    + unfold cfa_def_cfa_offset, bind at 1, get. rewrite (cfa_location_rule _ _ Hrow), Hw.
      erewrite operand_run by reflexivity. reflexivity.
    + rewrite (cfa_rule_type _ _ Hw). cbn. by rewrite addr_small.
  - eapply (handled_set _ _ _ _ _ CFA_REG); [done| |reflexivity|].
    + unfold cfa_def_cfa_sf. erewrite operand_run by reflexivity. erewrite factored_bind by done.
      erewrite operand_run by reflexivity. reflexivity.
    + cbn. by rewrite addr_small.
  - apply bind_Some in Hs as (v & Hv & Hs). injection Hs as <-. eapply (handled_set _ _ _ _ _ CFA_REG); [done| |reflexivity|].
    + unfold cfa_def_cfa_offset_sf, bind at 1, get. rewrite (cfa_location_rule _ _ Hrow), Hw.
      erewrite operand_run by reflexivity. erewrite factored_bind by done. reflexivity.
    + by rewrite (cfa_rule_type _ _ Hw).
  - destruct (saddr A o =? _) eqn:E; [done|]. injection Hs as <-. eapply (handled_set _ _ _ _ _ (addr A r)); [done| |by apply addr_reg|].
    + unfold cfa_gnu_negative_offset_extended. do 2 (erewrite operand_run by reflexivity).
      cbn [coperand_val]. rewrite saddr_addr, E. reflexivity.
    + done.
Qed.

Lemma extended_step cie cie_row i op l s st st' :
  extended i = Some (op, l) -> cfa_instr_ok A i -> sim cie cie_row s st -> cfa_operands s = [] ->
  at_bytes bm (cfa_memory s) (encode_cfa A i) ->
  cur_offset_ (cfa_memory s) + len (encode_cfa A i) < 2 ^ 64 ->
  astep A cie cie_row (cur_offset_ (cfa_memory s) + len (encode_cfa A i)) i st = Some st' ->
  exists s', fetch s = Done (true, s') /\ sim cie cie_row s' st' /\ iterates i s s'.
Proof.
  intros He Hok Hsim Hz Ha Hb Hs. destruct (extended_ok _ _ _ He Hok) as (Hop & Hn & Hco).
  assert (encode_cfa A i = byte_of op :: encode_coperands A (cfa_info op) l 0) as Ee.
  { destruct i; try done; injection He as <- <-; done. }
  destruct (cfa_callback A op) as [h|] eqn:Eh.
  2:{ destruct i; try done; injection He as <- <-; done. }
  assert (at_bytes bm (cfa_memory s) (byte_of op :: encode_coperands A (cfa_info op) l 0)) as Ha' by (by rewrite <- Ee).
  rewrite (fetch_extended _ _ h s Hop Eh Hn Hco Hz Ha').
  assert (cur_offset_ (cfa_memory (cready op l s)) = cur_offset_ (cfa_memory s) + len (encode_cfa A i)) as Hcur.
  { change (cfa_memory (cready op l s))
      with (skip (len (byte_of op :: encode_coperands A (cfa_info op) l 0)) (cfa_memory s)).
    rewrite <- Ee. apply wrap_small. destruct Ha as (_ & [? _] & _). unfold in_u.
    pose proof (len_nonneg (encode_cfa A i)). lia. }
  assert (cfa_memory (cready op l s) = skip (len (encode_cfa A i)) (cfa_memory s)) as Hm by (by rewrite Ee).
  destruct (decide (i = RestoreState)) as [->|Hne].
  - injection He as <- <-. injection Eh as <-. destruct Hsim as (Hc & Hcr & Hpc & Hrow & Hst).
    cbn [astep] in Hs. unfold cfa_restore_state, bind at 1, get.
    change (loc_reg_state_ (cready 11 [] s)) with (loc_reg_state_ s). rewrite <- Hst in Hs.
    destruct (loc_reg_state_ s) as [|t ts] eqn:E; injection Hs as <-; (eexists; split; [reflexivity|]).
    + split; [|done]. repeat split; try done. cbn. by rewrite E.
    + split; [|done]. by repeat split.
  - destruct (extended_handled cie cie_row i op l h s st st') as (s' & Hr & Hsim' & Hmem & Hf & Hp); try done.
    exists s'. split; [done|]. split; [done|]. split; [by rewrite Hmem|]. by split.
Qed.

(** One iteration of the loop simulates one instruction. *)
Lemma fetch_step cie cie_row i s st st' :
  cfa_instr_ok A i -> sim cie cie_row s st -> cfa_operands s = [] ->
  at_bytes bm (cfa_memory s) (encode_cfa A i) ->
  cur_offset_ (cfa_memory s) + len (encode_cfa A i) < 2 ^ 64 ->
  astep A cie cie_row (cur_offset_ (cfa_memory s) + len (encode_cfa A i)) i st = Some st' ->
  exists s', fetch s = Done (true, s') /\ sim cie cie_row s' st' /\ iterates i s s'.
Proof.
  intros Hok Hsim Hz Ha Hb Hs. destruct (extended i) as [[op l]|] eqn:E; [by eapply extended_step|].
  pose proof Hsim as (Hc & Hcr & Hpc & Hrow & Hst).
  destruct i; try done; cbn [encode_cfa cfa_instr_ok astep] in *.
  - destruct (fetch_byte 1 d [] s Hok ltac:(lia)) as [-> _]; [done|].
    destruct (byte_high_low 1 d Hok ltac:(lia)) as [El Eh]. unfold cfa_switch. rewrite El, Eh.
    change (1 =? 1) with true. cbv iota. injection Hs as <-. eexists. split; [reflexivity|].
    split; [|by repeat split]. repeat split; try done. cbn. rewrite Hpc, Hc. unfold addr.
    pose proof (bits_pos A). pose proof (bits_le_64 A). by rewrite <- wrap_add_r, wrap_narrow, wrap_add_r by lia.
  - destruct Hok as [Hr Ho]. destruct (fetch_byte 2 r (uleb o) s Hr ltac:(lia)) as [-> Ha']; [done|].
    destruct (byte_high_low 2 r Hr ltac:(lia)) as [El Eh]. unfold cfa_switch. rewrite El, Eh.
    change (2 =? 1) with false. change (2 =? 2) with true. cbv iota.
    apply bind_Some in Hs as (v & Hv & Hs). injection Hs as <-. unfold bind at 1.
    rewrite (on_cfa_memory_run _ (put_cfa_memory (skip 1 (cfa_memory s)) s) _ _ (ReadULEB128_u bm _ _ Ho Ha')).
    rewrite (wrap_small 64 o) by done. unfold bind at 1.
    erewrite factored_run; [|exact Hc|done]. eexists. split; [reflexivity|].
    split; [|split; [cbn -[skip]; by rewrite len_cons, skip_skip|done]]. repeat split; try done. cbn.
    by rewrite Hrow, (wrap_small 32) by (unfold in_u; lia).
  - destruct (fetch_byte 3 r [] s Hok ltac:(lia)) as [-> _]; [done|].
    destruct (byte_high_low 3 r Hok ltac:(lia)) as [El Eh]. unfold cfa_switch. rewrite El, Eh.
    change (3 =? 1) with false. change (3 =? 2) with false. change (3 =? 3) with true. cbv iota.
    destruct (restore_reg_run cie cie_row (put_cfa_memory (skip 1 (cfa_memory s)) s) st st' r)
      as (s' & Hr & Hsim' & Hm & Hf & Hp); [done|unfold in_u; lia|done|].
    exists s'. split; [done|]. split; [done|]. by repeat split.
Qed.
End Step.

(** * The table *)

Section Table.
Implicit Types (t : list (Z * row)).

Lemma row_at_below pc t p r : increasing ((p, r) :: t) -> pc < p -> row_at pc ((p, r) :: t) = None.
Proof.
  revert p r. induction t as [|[q r'] t IH]; intros p r Hi Hp.
  - cbn. by rewrite (proj2 (Z.leb_gt _ _)) by lia.
  - destruct Hi as [Hpq Hi]. cbn [row_at]. cbn [row_at] in IH. rewrite (IH q r' Hi) by lia.
    by rewrite (proj2 (Z.leb_gt _ _)) by lia.
Qed.

Lemma row_at_skip pc x t r : row_at pc t = Some r -> row_at pc (x :: t) = Some r.
Proof. destruct x. cbn. by intros ->. Qed.

Lemma row_at_first pc p r q r' t :
  increasing ((q, r') :: t) -> p <= pc < q -> row_at pc ((p, r) :: (q, r') :: t) = Some r.
Proof.
  intros Hi Hp. change (row_at pc ((p, r) :: (q, r') :: t)) with
    (match row_at pc ((q, r') :: t) with Some r' => Some r' | None => if p <=? pc then Some r else None end).
  rewrite row_at_below by (done || lia). by rewrite (proj2 (Z.leb_le _ _)) by lia.
Qed.
End Table.

Section Rows.
Context (A : addr_type) (bm : Z -> option byte) (cie : DwarfCie) (cie_row : option row).
Implicit Types (s : DwarfCfa) (st : cstate).

(** The address moves or the rules change, never both. *)
Lemma astep_pc_row off i st st' :
  astep A cie cie_row off i st = Some st' -> c_pc st' <> c_pc st -> c_row st' = c_row st.
Proof.
  unfold astep, restore_rule. intros Hs Hne.
  repeat match type of Hs with
  | match ?x with _ => _ end = Some _ => destruct x; try done
  | mbind _ _ = Some _ => apply bind_Some in Hs as (? & ? & Hs)
  end; injection Hs as <-; try done; by destruct (_ !! _).
Qed.

(** The first row of a table starts at the current address. *)
Lemma rows_head off st l t :
  rows A cie cie_row off st l = Some t -> exists r t', t = (c_pc st, r) :: t'.
Proof.
  revert off st t. induction l as [|i l IH]; intros off st t; cbn [rows].
  - intros [= <-]. eauto.
  - intros (st' & Hs & (t' & Ht & H)%bind_Some)%bind_Some. injection H as <-.
    destruct (Z.eqb_spec (c_pc st') (c_pc st)) as [E|]; [|eauto]. rewrite <- E. by eapply IH.
Qed.

Lemma len_encode_cfa i : 0 < len (encode_cfa A i).
Proof.
  pose proof (fun b (l : list byte) => eq_trans (len_cons b l) (Z.add_comm 1 (len l))) as Hl.
  destruct i; cbn [encode_cfa extended]; rewrite Hl;
    match goal with |- 0 < len ?l + 1 => pose proof (len_nonneg l); lia end.
Qed.

(** [location_loop] stops at the first instruction behind the row of [pc]. *)
Lemma location_loop_pc fuel pc fin s :
  pc < cur_pc_ s ->
  location_loop A (S fuel) pc fin s = Done (true, put_loc_regs (put_pc_end (cur_pc_ s) (loc_regs s)) s).
Proof. intros H. cbn [location_loop]. unfold bind at 1, get at 1. by rewrite (proj2 (Z.ltb_lt _ _)) by lia. Qed.

Lemma location_loop_end fuel pc fin s :
  cur_pc_ s <= pc -> fin <= cur_offset_ (cfa_memory s) ->
  location_loop A (S fuel) pc fin s
  = Done (true, put_loc_regs (put_pc_end (pc_end (cfa_fde s)) (loc_regs s)) s).
Proof.
  intros H1 H2. cbn [location_loop]. unfold bind at 1, get at 1. rewrite (proj2 (Z.ltb_ge _ _)) by lia.
  unfold bind at 1, on_cfa_memory at 1, zoom, cur_offset, gets. rewrite put_cfa_memory_id.
  by rewrite (proj2 (Z.leb_le _ _)) by lia.
Qed.

(** The state in which an iteration fetches its instruction. *)
Definition row_start s : DwarfCfa :=
  put_cfa_operands [] (put_loc_regs (put_pc_start (cur_pc_ s) (loc_regs s)) s).

Lemma location_loop_fetch fuel pc fin s s' :
  cur_pc_ s <= pc -> cur_offset_ (cfa_memory s) < fin -> fetch A (row_start s) = Done (true, s') ->
  location_loop A (S fuel) pc fin s = location_loop A fuel pc fin s'.
Proof.
  intros H1 H2 Hf. cbn [location_loop]. unfold bind at 1, get at 1. rewrite (proj2 (Z.ltb_ge _ _)) by lia.
  unfold bind at 1, on_cfa_memory at 1, zoom at 1, cur_offset, gets. rewrite put_cfa_memory_id.
  rewrite (proj2 (Z.leb_gt _ _)) by lia. unfold bind at 1, modify at 1. unfold bind at 1, modify at 1.
  fold (row_start s). unfold fetch, bind at 1 in Hf. unfold bind at 1.
  destruct (on_cfa_memory (ReadUnsigned 1) (row_start s)) as [[[v|] s1]|f]; try done.
  unfold bind at 1. by rewrite Hf.
Qed.

(** The answer for [pc]: the row of the table, and a range around [pc] that shares it. *)
Definition answers pc fde_end (t : list (Z * row)) st s' : Prop :=
  row_at pc t = Some (locs (loc_regs s')) /\
  c_pc st <= locs_pc_start (loc_regs s') <= pc /\
  (pc < locs_pc_end (loc_regs s') /\ locs_pc_end (loc_regs s') ∈ map fst t \/ locs_pc_end (loc_regs s') = fde_end) /\
  forall pc', locs_pc_start (loc_regs s') <= pc' < locs_pc_end (loc_regs s') ->
    row_at pc' t = Some (locs (loc_regs s')).

(** The row of [pc] ends where the next one starts. *)
Lemma answers_next off i pc fde_end st st1 r1 t1 s1 :
  astep A cie cie_row off i st = Some st1 -> increasing ((c_pc st1, r1) :: t1) ->
  c_pc st <= pc < c_pc st1 -> locs (loc_regs s1) = c_row st1 -> cur_pc_ s1 = c_pc st1 ->
  locs_pc_start (loc_regs s1) = c_pc st ->
  answers pc fde_end ((c_pc st, c_row st) :: (c_pc st1, r1) :: t1) st
    (put_loc_regs (put_pc_end (cur_pc_ s1) (loc_regs s1)) s1).
Proof.
  intros Hs Hinc Hpc Hrow Hcur Hstart. pose proof (astep_pc_row _ _ _ _ Hs ltac:(lia)) as Er.
  unfold answers. cbn [loc_regs put_loc_regs locs put_pc_end locs_pc_start locs_pc_end].
  rewrite Hrow, Hcur, Hstart, Er.
  split; [by apply row_at_first|]. split; [lia|]. split; [left; split; [lia|by right; left]|]. intros pc' Hpc'. by apply row_at_first.
Qed.

(** The last row extends to the end of the function. *)
Lemma answers_last off i pc st st1 s1 :
  astep A cie cie_row off i st = Some st1 -> c_pc st <= c_pc st1 <= pc ->
  locs (loc_regs s1) = c_row st1 -> locs_pc_start (loc_regs s1) = c_pc st ->
  answers pc (pc_end (cfa_fde s1))
    (if c_pc st1 =? c_pc st then [(c_pc st1, c_row st1)] else [(c_pc st, c_row st); (c_pc st1, c_row st1)]) st
    (put_loc_regs (put_pc_end (pc_end (cfa_fde s1)) (loc_regs s1)) s1).
Proof.
  intros Hs Hpc Hrow Hstart. pose proof (astep_pc_row _ _ _ _ Hs) as Er.
  unfold answers. cbn [loc_regs put_loc_regs locs put_pc_end locs_pc_start locs_pc_end].
  rewrite Hrow, Hstart.
  assert (forall pc', c_pc st <= pc' ->
    row_at pc' (if c_pc st1 =? c_pc st then [(c_pc st1, c_row st1)]
                else [(c_pc st, c_row st); (c_pc st1, c_row st1)]) = Some (c_row st1)) as Hat.
  { intros pc' Hp. destruct (Z.eqb_spec (c_pc st1) (c_pc st)) as [E|E]; cbn [row_at].
    - by rewrite E, (proj2 (Z.leb_le _ _)) by lia.
    - rewrite (Er E), (proj2 (Z.leb_le (c_pc st) pc')) by lia. by destruct (_ <=? _). }
  split; [apply Hat; lia|]. split; [lia|]. split; [by right|]. intros pc' Hp. apply Hat. lia.
Qed.

(** An answer from the rest of the table is one from the whole. *)
Lemma answers_tail pc fde_end t x st st1 s' :
  c_pc st <= c_pc st1 -> answers pc fde_end t st1 s' -> answers pc fde_end (x :: t) st s'.
Proof.
  intros Hle (Hr & Hp & He & Hrange). split; [by apply row_at_skip|]. split; [lia|].
  split; [destruct He as [[? ?]|?]; [left; split; [done|by right]|by right]|].
  intros pc' Hpc'. apply row_at_skip. by apply Hrange.
Qed.

(** What the loop leaves alone *)
Definition kept (l : list cfa_instr) s s' : Prop :=
  cfa_cie s' = cfa_cie s /\ cfa_fde s' = cfa_fde s /\ (exists c, cfa_memory s' = put_cur c (cfa_memory s)) /\
  (RememberState ∉ l -> loc_reg_state_ s = [] -> loc_reg_state_ s' = []).

Lemma astep_stack off i st st' :
  i <> RememberState -> astep A cie cie_row off i st = Some st' -> c_stack st = [] -> c_stack st' = [].
Proof.
  unfold astep, restore_rule. intros Hne Hs Hz.
  repeat match type of Hs with
  | match ?x with _ => _ end = Some _ => destruct x eqn:?; try done
  | mbind _ _ = Some _ => apply bind_Some in Hs as (? & ? & Hs)
  end; injection Hs as <-; try done; by destruct (_ !! _).
Qed.

Lemma kept_next i l s s1 s' : kept [i] s s1 -> kept l s1 s' -> kept (i :: l) s s'.
Proof.
  intros (Hc1 & Hf1 & (c1 & Hm1) & Hs1) (Hc & Hf & (c & Hm) & Hs). split; [congruence|]. split; [congruence|]. split.
  { exists c. by rewrite Hm, Hm1. }
  intros Hni Hz. apply not_elem_of_cons in Hni as [? ?]. apply Hs; [done|]. apply Hs1; [|done]. by rewrite list_elem_of_singleton.
Qed.

Lemma kept_end i l s s1 (r : DwarfLocations) : kept [i] s s1 -> kept (i :: l) s (put_loc_regs r s1).
Proof.
  intros (Hc1 & Hf1 & Hm1 & Hs1). split_and!; [done..|]. intros Hni Hz. apply not_elem_of_cons in Hni as [? _].
  apply Hs1; [|done]. by rewrite list_elem_of_singleton.
Qed.

Lemma location_loop_rows l fuel pc fin s st t :
  l <> [] -> last l <> Some RestoreState -> Forall (cfa_instr_ok A) l ->
  sim cie cie_row s st -> at_bytes bm (cfa_memory s) (encode_cfas A l) ->
  cur_offset_ (cfa_memory s) + len (encode_cfas A l) = fin -> fin < 2 ^ 64 -> 
  rows A cie cie_row (cur_offset_ (cfa_memory s)) st l = Some t -> increasing t ->
  c_pc st <= pc -> (length l < fuel)%nat ->
  exists s', location_loop A fuel pc fin s = Done (true, s') /\ answers pc (pc_end (cfa_fde s)) t st s' /\ kept l s s'.
Proof.
  revert fuel s st t. induction l as [|i l IH]; intros fuel s st t Hne Hlast Hok Hsim Ha Hfin Hb Hrows Hinc Hpc Hfuel; [done|].
  apply Forall_cons in Hok as [Hi Hok]. cbn [rows] in Hrows.
  apply bind_Some in Hrows as (st1 & Hs & (t1 & Ht1 & Ht)%bind_Some). injection Ht as Ht.
  change (encode_cfas A (i :: l)) with (encode_cfa A i ++ encode_cfas A l) in Ha, Hfin. rewrite len_app in Hfin.
  apply (at_bytes_split bm) in Ha as [Hai Ha]. pose proof (len_encode_cfa i) as Hli. pose proof (len_nonneg (encode_cfas A l)).
  destruct (fetch_step A bm cie cie_row i (row_start s) st st1) as (s1 & Hf & Hsim1 & Hm & Hfde & Hps); try done; [simpl; lia|].
  destruct Hsim as (Ecie & _ & Epc & _ & Estk).
  assert (kept [i] s s1) as Hk1.
  { destruct Hsim1 as (Ecie1 & _ & _ & _ & Estk1). split_and!; [congruence|exact Hfde|by eexists|]. intros Hni Hz. rewrite Hz in Estk.
    assert (i <> RememberState) as Hi' by (intros ->; apply Hni; by left).
    rewrite (astep_stack _ _ _ _ Hi' Hs (eq_sym Estk)) in Estk1. by apply map_eq_nil in Estk1. }
  destruct fuel as [|fuel]; [lia|]. simpl in Hfuel.
  rewrite (location_loop_fetch fuel pc fin s s1); [|lia|lia|done].
  change (cfa_memory (row_start s)) with (cfa_memory s) in Hm.
  assert (cur_offset_ (cfa_memory s1) = cur_offset_ (cfa_memory s) + len (encode_cfa A i)) as Hc1.
  { rewrite Hm. simpl. apply wrap_small. destruct Hai as (_ & [? _] & _). unfold in_u. lia. }
  pose proof Hsim1 as (_ & _ & Epc1 & Erow1 & _). destruct fuel as [|fuel]; [lia|].
  destruct (rows_head _ _ _ _ Ht1) as (r1 & t1' & ->).
  assert (increasing ((c_pc st1, r1) :: t1') /\ c_pc st <= c_pc st1) as [Hinc1 Hle].
  { subst t. destruct (Z.eqb_spec (c_pc st1) (c_pc st)); [split; [done|lia]|]. destruct Hinc as [? ?]. split; [done|lia]. }
  assert (i <> RestoreState -> locs_pc_start (loc_regs s1) = c_pc st) as Hstart.
  { intros Hni. rewrite (Hps Hni). exact Epc. }
  destruct (Z.ltb_spec pc (c_pc st1)) as [Hlt|Hge].
  - rewrite location_loop_pc by lia. eexists. split; [reflexivity|]. split; [|by apply kept_end].
    rewrite (proj2 (Z.eqb_neq _ _)) in Ht by lia. subst t. eapply answers_next; try done.
    apply Hstart. intros ->. cbn in Hs. destruct (c_stack st); injection Hs as <-; cbn in Hlt; lia.
  - destruct l as [|j l].
    + rewrite location_loop_end; [|lia|change (len (encode_cfas A [])) with 0 in Hfin; lia].
      injection Ht1 as Er1 <-. eexists. split; [reflexivity|]. split; [|by apply kept_end]. subst t r1. change (cfa_fde (row_start s)) with (cfa_fde s) in Hfde.
      rewrite <- Hfde. eapply answers_last; try done. apply Hstart. intros ->. by apply Hlast.
    + destruct (IH (S fuel) s1 st1 ((c_pc st1, r1) :: t1')) as (s' & Hrun & Hans & Hk); try done;
        [by rewrite Hm|lia|by rewrite Hc1|lia|].
      exists s'. split; [done|]. split; [|by eapply kept_next]. rewrite Hfde in Hans. change (cfa_fde (row_start s)) with (cfa_fde s) in Hans.
      subst t. destruct (Z.eqb_spec (c_pc st1) (c_pc st)) as [E|E]; [|by eapply answers_tail].
      destruct Hans as (? & ? & ? & ?). split; [done|]. split; [lia|]. by split.
Qed.
End Rows.

(** * Safety *)

Section Safety.
Context (A : addr_type).
Implicit Types (s : DwarfCfa).

(** The faults of an interpretation: shift counts in LEB128 numbers, overflow of a factored or
    negated offset, and the bound on the iterations. *)
Definition cfa_fault (f : fault) : Prop := f = Undef UbShift \/ f = Undef UbOverflow \/ f = OutOfFuel.

(** Success leaves the error data alone, failure sets a code. *)
Definition cfa_post s (b : bool) s' : Prop :=
  if b then cfa_error s' = cfa_error s else code (cfa_error s') <> DWARF_ERROR_NONE.

Lemma factored_safe v Q s : (forall w, Q w s) -> wp cfa_fault (factored_offset A v) Q s.
Proof. intros H. unfold factored_offset. wp_simpl. destruct (_ && _); wp_simpl; [apply H|]. right. by left. Qed.

Lemma restore_reg_safe r s s0 :
  cfa_error s = cfa_error s0 -> wp cfa_fault (restore_reg r) (cfa_post s0) s.
Proof.
  intros He. unfold restore_reg. wp_simpl. destruct (cie_loc_regs_ s) as [l|]; wp_simpl; [|done].
  by destruct (locs l !! u32 r); wp_simpl.
Qed.

(** Every handler finds the operands it accesses. *)
Lemma cfa_handler_safe op h s s0 :
  0 <= op < 64 -> cfa_callback A op = Some h ->
  Z.of_nat (length (cfa_operands s)) = info_num_operands (cfa_info op) -> cfa_error s = cfa_error s0 ->
  wp cfa_fault h (cfa_post s0) s.
Proof.
  intros Hop Hh Hn He. assert (exists n, op = Z.of_nat n /\ (n < 64)%nat) as (n & -> & Hlt)
    by (exists (Z.to_nat op); lia). clear Hop.
  do 64 (destruct n as [|n]; [try discriminate Hh; injection Hh as <-;
    (match type of Hn with _ = ?r => let k := eval vm_compute in r in change r with k in Hn end);
    destruct (cfa_operands s) as [|x [|y [|]]] eqn:Eo; simpl in Hn; try lia;
    (solve [ unfold cfa_nop, cfa_set_loc, cfa_advance_loc, cfa_offset, cfa_undefined, cfa_same_value, cfa_register,
        cfa_remember_state, cfa_def_cfa, cfa_def_cfa_expression, cfa_expression, cfa_val_expression;
        repeat (wp_simpl; rewrite ?Eo; cbn [lookup list_lookup]); exact He
      | unfold cfa_restore; wp_simpl; rewrite Eo; by apply restore_reg_safe
      | unfold cfa_restore_state; wp_simpl; destruct (loc_reg_state_ s); wp_simpl; exact He
      | unfold cfa_def_cfa_register, cfa_def_cfa_offset; wp_simpl;
        destruct (cfa_location s); wp_simpl; [rewrite Eo; exact He|done]
      | unfold cfa_def_cfa_offset_sf; wp_simpl;
        destruct (cfa_location s); wp_simpl; [rewrite Eo; cbn [lookup list_lookup]; wp_simpl; apply factored_safe; intros w; wp_simpl; exact He|done]
      | unfold cfa_offset_extended_sf, cfa_def_cfa_sf, cfa_val_offset, cfa_val_offset_sf;
        repeat (wp_simpl; rewrite ?Eo; cbn [lookup list_lookup]); apply factored_safe; intros w;
        repeat (wp_simpl; rewrite ?Eo; cbn [lookup list_lookup]); exact He
      | unfold cfa_gnu_negative_offset_extended; repeat (wp_simpl; rewrite ?Eo; cbn [lookup list_lookup]);
        destruct (_ =? _); [right; by left|exact He] ])|]).
  lia.
Qed.

(** Reads keep the error data; the operands accumulate. *)
Lemma read_cfa_operands_safe cfa n i s :
  wp cfa_fault (read_cfa_operands A cfa n i)
    (fun b s' => cfa_post s b s' /\
       (b = true -> length (cfa_operands s') = (length (cfa_operands s) + n)%nat)) s.
Proof.
  revert i s. induction n as [|n IH]; intros i s; cbn [read_cfa_operands]; wp_simpl; [split; [done|lia]|].
  assert (forall d v, let s1 := put_cfa_operands (cfa_operands s ++ [v]) (put_cfa_memory d s) in
    wp cfa_fault (read_cfa_operands A cfa n (S i))
      (fun b s' => cfa_post s b s' /\ (b = true -> length (cfa_operands s') = (length (cfa_operands s) + S n)%nat)) s1) as Hnext.
  { intros d v s1. eapply wp_mono; [apply IH|done|]. intros [] s' [H1 H2]; (split; [exact H1|]); [|done].
    intros _. rewrite (H2 eq_refl). subst s1. cbn. rewrite length_app. cbn. lia. }
  destruct (_ =? _); wp_simpl.
  - eapply wp_mono; [apply ReadULEB128_post|intros f ->; by left|].
    intros [v|] d' _; wp_simpl; [|done]. apply Hnext.
  - eapply wp_mono; [apply ReadEncodedValue_post|intros f ->; by left|].
    intros [v|] d' _; wp_simpl; [|done]. apply Hnext.
Qed.

Lemma cfa_switch_safe v s : 0 <= v < 256 -> cfa_operands s = [] -> wp cfa_fault (cfa_switch A v) (cfa_post s) s.
Proof.
  intros Hv Ho. unfold cfa_switch. cbv zeta. destruct (_ =? 1); wp_simpl; [done|].
  destruct (_ =? 2); wp_simpl.
  { eapply wp_mono; [apply ReadULEB128_post|intros f ->; by left|].
    intros [o|] d' _; wp_simpl; [|done]. by apply factored_safe. }
  destruct (_ =? 3); wp_simpl; [by apply restore_reg_safe|].
  destruct (cfa_callback A (Z.land v 63)) as [h|] eqn:Eh; wp_simpl; [|done].
  eapply wp_mono; [apply read_cfa_operands_safe|done|]. intros [] s' [Hp Hl]; wp_simpl; [|done].
  assert (0 <= Z.land v 63 < 64) as Hlow
    by (change 63 with (Z.ones 6); rewrite Z.land_ones by lia; apply Z.mod_pos_bound; lia).
  eapply cfa_handler_safe; [done|done| |done].
  rewrite (Hl eq_refl), Ho. cbn [length Nat.add]. apply Z2Nat.id.
  assert (forallb (fun k => 0 <=? info_num_operands (cfa_info (Z.of_nat k))) (seq 0 64) = true) as Ht by reflexivity.
  rewrite forallb_forall in Ht. specialize (Ht (Z.to_nat (Z.land v 63)) ltac:(apply in_seq; lia)).
  rewrite Z2Nat.id in Ht by lia. by apply Z.leb_le.
Qed.

Lemma location_loop_safe fuel pc fin s :
  code (cfa_error s) = DWARF_ERROR_NONE ->
  wp cfa_fault (location_loop A fuel pc fin)
    (fun b s' => b = true <-> code (cfa_error s') = DWARF_ERROR_NONE) s.
Proof.
  revert s. induction fuel as [|fuel IH]; intros s He; cbn [location_loop]; wp_simpl; [by right; right|].
  destruct (_ <? _); wp_simpl; [done|]. destruct (_ <=? _); wp_simpl; [done|].
  set (s1 := put_cfa_operands [] _).
  destruct (ReadFully _ _ 1) as [bs|] eqn:R; wp_simpl; [|done].
  apply ReadFully_len in R. pose proof (le_val_range bs) as Hb. fold (len bs) in Hb. rewrite R in Hb.
  eapply wp_mono; [apply cfa_switch_safe; [exact Hb|done]|done|].
  intros [] s' Hp; wp_simpl; [apply IH|]; unfold cfa_post in Hp.
  - rewrite Hp. exact He.
  - by split.
Qed.
End Safety.

(** * [GetLocationInfo] *)

Section LocationInfo.
Context (A : addr_type).
Implicit Types (s : DwarfCfa).

(** The abstract state in which the interpretation starts: the rules of the CIE over those that
    [loc_regs] already has. *)
Definition start_state (fde : DwarfFde) (cie_loc_regs : option DwarfLocations) (l0 : DwarfLocations) : cstate :=
  mkC (addr A (pc_start fde)) (from_option locs ∅ cie_loc_regs ∪ locs l0) [].

(** The interpreter object in which the loop starts. *)
Definition loop_start (start : Z) (c : DwarfCfa) : DwarfCfa :=
  mkDwarfCfa (put_cur start (cfa_memory c)) (cfa_fde c) (cfa_cie c) no_error (addr A (pc_start (cfa_fde c)))
    (cie_loc_regs_ c) (cfa_operands c) (loc_reg_state_ c)
    (put_pc_start (addr A (pc_start (cfa_fde c)))
       (put_locs (from_option locs ∅ (cie_loc_regs_ c) ∪ locs (loc_regs c)) (loc_regs c))).

Lemma GetLocationInfo_loop fuel pc start fin c :
  GetLocationInfo A fuel pc start fin c = location_loop A fuel pc fin (loop_start start c).
Proof.
  unfold GetLocationInfo, loop_start. destruct c as [d fde cie e cur [l|] ops st [m0 c0 s0 e0]]; [done|].
  cbn [from_option cie_loc_regs_ loc_regs locs]. by rewrite (left_id_L ∅ (∪)).
Qed.

Lemma loop_start_sim start c :
  loc_reg_state_ c = [] ->
  sim (cfa_cie c) (locs <$> cie_loc_regs_ c) (loop_start start c)
    (start_state (cfa_fde c) (cie_loc_regs_ c) (loc_regs c)).
Proof. intros Hz. repeat split. cbn. by rewrite Hz. Qed.

Lemma GetLocationInfo_rows bm l fuel pc start c t :
  loc_reg_state_ c = [] -> last l <> Some RestoreState -> Forall (cfa_instr_ok A) l ->
  at_bytes bm (put_cur start (cfa_memory c)) (encode_cfas A l) -> start + len (encode_cfas A l) < 2 ^ 64 ->
  rows A (cfa_cie c) (locs <$> cie_loc_regs_ c) start (start_state (cfa_fde c) (cie_loc_regs_ c) (loc_regs c)) l
  = Some t ->
  increasing t -> addr A (pc_start (cfa_fde c)) <= pc -> (length l < fuel)%nat ->
  exists s',
    GetLocationInfo A fuel pc start (start + len (encode_cfas A l)) c = Done (true, s') /\
    answers pc (pc_end (cfa_fde c)) t (start_state (cfa_fde c) (cie_loc_regs_ c) (loc_regs c)) s' /\
    kept l c s'.
Proof.
  intros Hz Hlast Hok Ha Hb Hrows Hinc Hpc Hfuel. rewrite GetLocationInfo_loop. destruct l as [|i l].
  - injection Hrows as <-. destruct fuel as [|fuel]; [simpl in Hfuel; lia|].
    change (len (encode_cfas A [])) with 0. rewrite location_loop_end; [|done|simpl; lia].
    eexists. split; [reflexivity|]. split; [|by split_and!; [done|done|exists start|done]]. unfold answers. cbn -[addr].
    assert (forall pc', addr A (pc_start (cfa_fde c)) <= pc' -> (addr A (pc_start (cfa_fde c)) <=? pc') = true) as Hle
      by (intros; by apply Z.leb_le).
    rewrite Hle by done. split; [done|]. split; [lia|]. split; [by right|].
    intros pc' Hp. by rewrite Hle by lia.
  - destruct (location_loop_rows A bm (cfa_cie c) (locs <$> cie_loc_regs_ c) (i :: l) fuel pc
      (start + len (encode_cfas A (i :: l))) (loop_start start c)
      (start_state (cfa_fde c) (cie_loc_regs_ c) (loc_regs c)) t)
      as (s' & Hrun & Hans & Hk & Hf & (m & Hm) & Hs); try done; [by apply loop_start_sim|].
    exists s'. split; [done|]. split; [done|]. split; [done|]. split; [done|]. split; [by exists m|done].
Qed.
End LocationInfo.

(** * A block that reaches around the address space *)

Section Wrap.
Context (A : addr_type) (bm : Z -> option byte).
Implicit Types (s : DwarfCfa).

(** [DW_CFA_def_cfa_expression] with a block of [2^64 - 11] bytes: the instruction itself takes
    eleven. *)
Definition wrap_block : list byte := byte_of (64 * 0 + 15) :: uleb (2 ^ 64 - 11).

Lemma skip_wrap d : in_u 64 (cur_offset_ d) -> skip (2 ^ 64 - 11) (skip 10 (skip 1 d)) = d.
Proof.
  intros Hc. rewrite !skip_skip. unfold skip. replace (1 + (10 + (2 ^ 64 - 11))) with (2 ^ 64) by lia.
  unfold wrap. rewrite <- (Z.mul_1_l (2 ^ 64)) at 1. rewrite Z.mod_add by lia.
  fold (u64 (cur_offset_ d)). rewrite wrap_small by done. apply put_cur_id.
Qed.

(** The instruction leaves the cursor where it was. *)
Lemma fetch_wrap s :
  at_bytes bm (cfa_memory s) wrap_block -> cfa_operands s = [] ->
  exists s', fetch A s = Done (true, s') /\ cfa_memory s' = cfa_memory s /\ cur_pc_ s' = cur_pc_ s.
Proof.
  intros Ha Hz. destruct (fetch_byte A bm 0 15 _ s ltac:(lia) ltac:(lia) Ha) as [-> Ha'].
  change (cfa_switch A (64 * 0 + 15)) with
    (ok <- read_cfa_operands A (cfa_info 15) 1 0 ;; if (ok : bool) then cfa_def_cfa_expression else ret false).
  assert (in_u 64 (2 ^ 64 - 11)) as Hv by (unfold in_u; lia).
  unfold bind at 1. cbn [read_cfa_operands]. change (info_operand (cfa_info 15) 0 =? DW_EH_PE_block) with true.
  cbv iota. unfold bind at 1.
  rewrite (on_cfa_memory_run _ (put_cfa_memory (skip 1 (cfa_memory s)) s) _ _ (ReadULEB128_u bm _ _ Hv Ha')).
  rewrite (wrap_small 64 (2 ^ 64 - 11)) by done. unfold bind at 1, modify at 1.
  cbn [cfa_operands put_cfa_memory]. rewrite Hz.
  eexists. split; [reflexivity|]. split; [|done]. cbn -[skip u64].
  change (len (uleb 18446744073709551605)) with 10. destruct Ha as (_ & Hc & _).
  exact (skip_wrap (cfa_memory s) Hc).
Qed.

Lemma location_loop_wrap fuel pc fin s :
  at_bytes bm (cfa_memory s) wrap_block -> cur_pc_ s <= pc -> cur_offset_ (cfa_memory s) < fin ->
  location_loop A fuel pc fin s = Fault OutOfFuel.
Proof.
  revert s. induction fuel as [|fuel IH]; intros s Ha Hpc Hf; [done|].
  destruct (fetch_wrap (row_start s)) as (s' & Hr & Hm & Hp); [done|done|].
  rewrite (location_loop_fetch A fuel pc fin s s' Hpc Hf Hr). 
  change (cfa_memory (row_start s)) with (cfa_memory s) in Hm. change (cur_pc_ (row_start s)) with (cur_pc_ s) in Hp.
  apply IH; by rewrite ?Hm, ?Hp.
Qed.
End Wrap.

(** * Properties *)

(** C5. [GetLocationInfo] refines the unwind table of the DWARF standard: for instructions (all of
    the 28 kinds, in either encoding) that denote a table with increasing addresses, it ends, with
    any bound above the number of instructions, and returns the row of [pc] in that table. The
    range it reports contains [pc] (up to the end of the function) and every address in it has the
    same row: the range may be cached. The program does not end with [DW_CFA_restore_state]
    (see [cfa_restore_state_range_too_large]). *)
Theorem cfa_refines_row_table A bm l fuel pc start d fde cie cie_loc_regs l0 t
  (Hlast : last l <> Some RestoreState) (Hok : Forall (cfa_instr_ok A) l)
  (Ha : at_bytes bm (put_cur start d) (encode_cfas A l)) (Hb : start + len (encode_cfas A l) < 2 ^ 64)
  (Ht : rows A cie (locs <$> cie_loc_regs) start (start_state A fde cie_loc_regs l0) l = Some t)
  (Hinc : increasing t) (Hpc : addr A (pc_start fde) <= pc) (Hfuel : (length l < fuel)%nat) :
  exists s',
    GetLocationInfo A fuel pc start (start + len (encode_cfas A l)) (new_DwarfCfa d fde cie cie_loc_regs l0)
    = Done (true, s') /\
    row_at pc t = Some (locs (loc_regs s')) /\
    addr A (pc_start fde) <= locs_pc_start (loc_regs s') <= pc /\
    (pc < locs_pc_end (loc_regs s') \/ locs_pc_end (loc_regs s') = pc_end fde) /\
    forall pc', locs_pc_start (loc_regs s') <= pc' < locs_pc_end (loc_regs s') ->
      row_at pc' t = Some (locs (loc_regs s')).
Proof.
  destruct (GetLocationInfo_rows A bm l fuel pc start (new_DwarfCfa d fde cie cie_loc_regs l0) t eq_refl Hlast Hok Ha Hb Ht Hinc Hpc Hfuel)
    as (s' & Hrun & (Hrow & Hp & He & Hr) & _).
  exists s'. split_and!; try done; [apply Hp|apply Hp|]. destruct He as [[? _]|?]; auto.
Qed.

(** The faults that the instructions of an untrusted section can cause. *)
Definition untrusted_fault (f : fault) : Prop := f = Undef UbShift \/ f = Undef UbOverflow \/ f = OutOfFuel.

(** C30. Safety of [GetLocationInfo] on arbitrary bytes: no handler accesses an operand that the
    operand table does not provide, whatever the instructions; the only faults are the shift counts
    of LEB128 numbers and the overflow of a factored or negated offset; and it returns [true]
    exactly when no error was recorded. *)
Theorem cfa_location_info_safe A fuel pc start fin s :
  wp untrusted_fault (GetLocationInfo A fuel pc start fin)
    (fun b s' => b = true <-> code (cfa_error s') = DWARF_ERROR_NONE) s.
Proof. unfold GetLocationInfo. wp_simpl. by apply location_loop_safe. Qed.

(** The program of [cfa_restore_state_range_too_large]: a row with offset 16 up to address 4, one with offset 32 up to 8, and a
    restored row that [DW_CFA_restore_state] ends. *)
Definition stale_program : list cfa_instr :=
  [DefCfa 7 16; RememberState; Advance 4; DefCfaOffset 32; Advance 4; RestoreState].
Definition stale_fde : DwarfFde := mkFde 0 0 0 0 12 0 None.
Definition stale_cie : DwarfCie := mkCie 1 0 0 0 [] 0 0 0 1 (-8) 0.
Definition stale_query (pc : Z) : outcome (bool * DwarfCfa) :=
  GetLocationInfo U64 7 pc 0 (len (encode_cfas U64 stale_program))
    (new_DwarfCfa (buffer_dm (encode_cfas U64 stale_program)) stale_fde stale_cie (Some empty_locs) empty_locs).

(** [DW_CFA_restore_state] also restores the start address of the remembered row. When it is
    the last instruction, the range that is reported for an address of the last row starts there:
    it claims the row for addresses whose row, by [GetLocationInfo] itself, is a different one. *)
Theorem cfa_restore_state_range_too_large :
  exists s8 s4,
    stale_query 8 = Done (true, s8) /\ stale_query 4 = Done (true, s4) /\
    locs_pc_start (loc_regs s8) <= 4 < locs_pc_end (loc_regs s8) /\
    locs (loc_regs s8) !! CFA_REG = Some (mkLoc DWARF_LOCATION_REGISTER 7 16) /\
    locs (loc_regs s4) !! CFA_REG = Some (mkLoc DWARF_LOCATION_REGISTER 7 32).
Proof.
  eexists _, _. split; [vm_compute; reflexivity|]. split; [vm_compute; reflexivity|].
  vm_compute. repeat split; discriminate.
Qed.

(** [GetLocationInfo] does not end on every input: the length of an expression block is added
    to the cursor without a check, and with a length that reaches around the address space the
    instruction is executed for ever. No bound on the iterations suffices. *)
Theorem cfa_block_wrap_diverges A bm fuel pc start fin d fde cie cie_loc_regs l0
  (Ha : at_bytes bm (put_cur start d) wrap_block) (Hpc : addr A (pc_start fde) <= pc) (Hf : start < fin) :
  GetLocationInfo A fuel pc start fin (new_DwarfCfa d fde cie cie_loc_regs l0) = Fault OutOfFuel.
Proof. rewrite GetLocationInfo_loop. by apply (location_loop_wrap A bm). Qed.

(** [DW_CFA_offset] multiplies its operand by the data alignment factor; its long form
    [DW_CFA_offset_extended], which the DWARF standard describes as the same instruction with
    another encoding of the register, stores the operand as it is. *)
Theorem cfa_offset_extended_unfactored A bm bm' r o v pc start d d' fde cie cie_loc_regs l0
  (Hr : 0 <= r < 64) (Ho : in_u (bits A) o) (Hv : factored A cie o = Some v)
  (Ha : at_bytes bm (put_cur start d) (encode_cfas A [Offset r o]))
  (Ha' : at_bytes bm' (put_cur start d') (encode_cfas A [OffsetExtended r o]))
  (Hb : start + 12 < 2 ^ 64) (Hpc : addr A (pc_start fde) <= pc) :
  exists s s',
    GetLocationInfo A 2 pc start (start + len (encode_cfas A [Offset r o]))
      (new_DwarfCfa d fde cie cie_loc_regs l0) = Done (true, s) /\
    GetLocationInfo A 2 pc start (start + len (encode_cfas A [OffsetExtended r o]))
      (new_DwarfCfa d' fde cie cie_loc_regs l0) = Done (true, s') /\
    locs (loc_regs s) !! r = Some (mkLoc DWARF_LOCATION_OFFSET v 0) /\
    locs (loc_regs s') !! r = Some (mkLoc DWARF_LOCATION_OFFSET o 0).
Proof.
  destruct (uleb_ok o) as (_ & _ & _ & Hlo); [by eapply in_u_bits_64|].
  assert (in_u 32 r) as Hr32 by (unfold in_u; lia).
  assert (len (uleb r) = 1) as Elr.
  { unfold uleb. cbn [uleb_encode]. by rewrite (proj2 (Z.ltb_lt _ _)) by lia. }
  destruct (GetLocationInfo_rows A bm [Offset r o] 2 pc start (new_DwarfCfa d fde cie cie_loc_regs l0)
    [(addr A (pc_start fde), <[r := mkLoc DWARF_LOCATION_OFFSET v 0]> (from_option locs ∅ cie_loc_regs ∪ locs l0))])
    as (s & Hs & (Hans & _) & _); try done.
  - apply Forall_singleton. split; [done|]. by eapply in_u_bits_64.
  - change (encode_cfas A [Offset r o]) with ((byte_of (0x80 + r) :: uleb o) ++ []).
    rewrite app_nil_r, len_cons. lia.
  - cbn [rows astep new_DwarfCfa cfa_cie]. rewrite Hv. cbn. by rewrite Z.eqb_refl.
  - simpl. lia.
  - destruct (GetLocationInfo_rows A bm' [OffsetExtended r o] 2 pc start (new_DwarfCfa d' fde cie cie_loc_regs l0)
      [(addr A (pc_start fde), <[r := mkLoc DWARF_LOCATION_OFFSET o 0]> (from_option locs ∅ cie_loc_regs ∪ locs l0))])
      as (s' & Hs' & (Hans' & _) & _); try done.
    + by apply Forall_singleton.
    + change (encode_cfas A [OffsetExtended r o]) with ((byte_of 5 :: uleb r ++ uleb o ++ []) ++ []).
      rewrite !app_nil_r, len_cons, len_app, Elr. lia.
    + cbn [rows astep]. cbn. by rewrite Z.eqb_refl.
    + simpl. lia.
    + exists s, s'. cbn [row_at] in Hans, Hans'. rewrite (proj2 (Z.leb_le _ _)) in Hans, Hans' by done.
      injection Hans as <-. injection Hans' as <-. rewrite !lookup_insert_eq. done.
Qed.

(** * Witnesses *)

(** The code of a function prologue: the frame grows at 1 and is addressed by register 6 from 4 on. *)
Definition demo_cfa : list cfa_instr :=
  [DefCfa 7 8; Offset 16 1; Advance 1; DefCfaOffset 16; Offset 6 2; AdvanceLoc1 3; DefCfaRegister 6; Nop].
Definition demo_fde : DwarfFde := mkFde 0 0 0 4096 4196 0 None.
Definition demo_rows : list (Z * row) :=
  [(4096, {[CFA_REG := mkLoc DWARF_LOCATION_REGISTER 7 8; 16 := mkLoc DWARF_LOCATION_OFFSET (2 ^ 64 - 8) 0]});
   (4097, {[CFA_REG := mkLoc DWARF_LOCATION_REGISTER 7 16; 16 := mkLoc DWARF_LOCATION_OFFSET (2 ^ 64 - 8) 0;
            6 := mkLoc DWARF_LOCATION_OFFSET (2 ^ 64 - 16) 0]});
   (4100, {[CFA_REG := mkLoc DWARF_LOCATION_REGISTER 6 16; 16 := mkLoc DWARF_LOCATION_OFFSET (2 ^ 64 - 8) 0;
            6 := mkLoc DWARF_LOCATION_OFFSET (2 ^ 64 - 16) 0]})].

Lemma cfa_refines_row_table_witness :
  exists s',
    GetLocationInfo U64 9 4098 0 (0 + len (encode_cfas U64 demo_cfa))
      (new_DwarfCfa (buffer_dm (encode_cfas U64 demo_cfa)) demo_fde stale_cie (Some empty_locs) empty_locs)
    = Done (true, s') /\
    row_at 4098 demo_rows = Some (locs (loc_regs s')) /\
    4096 <= locs_pc_start (loc_regs s') <= 4098 /\
    (4098 < locs_pc_end (loc_regs s') \/ locs_pc_end (loc_regs s') = 4196) /\
    forall pc', locs_pc_start (loc_regs s') <= pc' < locs_pc_end (loc_regs s') ->
      row_at pc' demo_rows = Some (locs (loc_regs s')).
Proof.
  apply (cfa_refines_row_table U64 (buffer_bytes (encode_cfas U64 demo_cfa)) demo_cfa 9 4098 0
    (buffer_dm (encode_cfas U64 demo_cfa)) demo_fde stale_cie (Some empty_locs) empty_locs demo_rows).
  - discriminate.
  - repeat constructor; vm_compute; done.
  - apply (buffer_at_bytes (encode_cfas U64 demo_cfa)). vm_compute. discriminate.
  - vm_compute. reflexivity.
  - vm_compute. reflexivity.
  - vm_compute. done.
  - vm_compute. discriminate.
  - simpl. lia.
Defined.

Lemma cfa_block_wrap_diverges_witness :
  GetLocationInfo U64 1000 4096 0 11
    (new_DwarfCfa (buffer_dm wrap_block) demo_fde stale_cie (Some empty_locs) empty_locs) = Fault OutOfFuel.
Proof.
  apply (cfa_block_wrap_diverges U64 (buffer_bytes wrap_block)).
  - apply (buffer_at_bytes wrap_block). vm_compute. discriminate.
  - vm_compute. discriminate.
  - lia.
Defined.

Lemma cfa_offset_extended_unfactored_witness :
  exists s s',
    GetLocationInfo U64 2 4096 0 (0 + len (encode_cfas U64 [Offset 16 1]))
      (new_DwarfCfa (buffer_dm (encode_cfas U64 [Offset 16 1])) demo_fde stale_cie None empty_locs) = Done (true, s) /\
    GetLocationInfo U64 2 4096 0 (0 + len (encode_cfas U64 [OffsetExtended 16 1]))
      (new_DwarfCfa (buffer_dm (encode_cfas U64 [OffsetExtended 16 1])) demo_fde stale_cie None empty_locs) = Done (true, s') /\
    locs (loc_regs s) !! 16 = Some (mkLoc DWARF_LOCATION_OFFSET (2 ^ 64 - 8) 0) /\
    locs (loc_regs s') !! 16 = Some (mkLoc DWARF_LOCATION_OFFSET 1 0).
Proof.
  apply (cfa_offset_extended_unfactored U64 (buffer_bytes (encode_cfas U64 [Offset 16 1]))
    (buffer_bytes (encode_cfas U64 [OffsetExtended 16 1]))).
  - lia.
  - unfold in_u. simpl. lia.
  - vm_compute. reflexivity.
  - apply (buffer_at_bytes (encode_cfas U64 [Offset 16 1])). vm_compute. discriminate.
  - apply (buffer_at_bytes (encode_cfas U64 [OffsetExtended 16 1])). vm_compute. discriminate.
  - lia.
  - vm_compute. discriminate.
Defined.
