(* ===== verification/DwarfSection.v ===== *)
(** [DwarfSection.cpp], [DwarfSection.h], [DwarfEhFrame.h], [DwarfDebugFrame.h]: the sections that
    hold common information entries (CIE) and frame description entries (FDE), their caches, and the
    evaluation of the register locations of a frame.

    The record [DwarfSection] holds the members of the class hierarchy down to
    [DwarfSectionImplNoHdr]. Pointers to entries are the keys of [fde_entries_] and
    [cie_entries_], whose nodes do not move: following a key that is no longer there is a fault.
    An entry that is being filled is passed as a value, since it is erased when that fails. *)
From Stdlib Require Import ZArith Lia Bool Strings.Byte.
From stdpp Require Import base numbers list gmap.
From S2P Require Import Prelude StdMap Memory DwarfMemory DwarfStructs Regs DwarfOp DwarfCfaTable DwarfCfa.
#[local] Open Scope Z_scope.

(** * The section object *)

(** [fdes_] maps the end of a range of addresses to its start and the FDE. *)
Record DwarfSection := mkSection {
  sec_memory : DwarfMemory;
  sec_error : DwarfErrorData;
  fde_entries_ : gmap Z DwarfFde;
  cie_entries_ : gmap Z DwarfCie;
  sec_cie_loc_regs : gmap Z DwarfLocations;
  loc_regs_ : list (Z * DwarfLocations);
  load_bias_ : Z;
  entries_offset_ : Z;
  entries_end_ : Z;
  sec_pc_offset : Z;
  next_entries_offset_ : Z;
  fdes_ : list (Z * (Z * Z))
}.

Definition new_section (m : Memory) : DwarfSection :=
  mkSection (new_DwarfMemory m) no_error ∅ ∅ ∅ [] 0 0 0 0 0 [].

Definition put_sec_memory (d : DwarfMemory) (s : DwarfSection) : DwarfSection :=
  mkSection d (sec_error s) (fde_entries_ s) (cie_entries_ s) (sec_cie_loc_regs s) (loc_regs_ s)
    (load_bias_ s) (entries_offset_ s) (entries_end_ s) (sec_pc_offset s) (next_entries_offset_ s) (fdes_ s).
Definition put_sec_error (e : DwarfErrorData) (s : DwarfSection) : DwarfSection :=
  mkSection (sec_memory s) e (fde_entries_ s) (cie_entries_ s) (sec_cie_loc_regs s) (loc_regs_ s)
    (load_bias_ s) (entries_offset_ s) (entries_end_ s) (sec_pc_offset s) (next_entries_offset_ s) (fdes_ s).
Definition put_fde_entries (m : gmap Z DwarfFde) (s : DwarfSection) : DwarfSection :=
  mkSection (sec_memory s) (sec_error s) m (cie_entries_ s) (sec_cie_loc_regs s) (loc_regs_ s)
    (load_bias_ s) (entries_offset_ s) (entries_end_ s) (sec_pc_offset s) (next_entries_offset_ s) (fdes_ s).
Definition put_cie_entries (m : gmap Z DwarfCie) (s : DwarfSection) : DwarfSection :=
  mkSection (sec_memory s) (sec_error s) (fde_entries_ s) m (sec_cie_loc_regs s) (loc_regs_ s)
    (load_bias_ s) (entries_offset_ s) (entries_end_ s) (sec_pc_offset s) (next_entries_offset_ s) (fdes_ s).
Definition put_sec_cie_loc_regs (m : gmap Z DwarfLocations) (s : DwarfSection) : DwarfSection :=
  mkSection (sec_memory s) (sec_error s) (fde_entries_ s) (cie_entries_ s) m (loc_regs_ s)
    (load_bias_ s) (entries_offset_ s) (entries_end_ s) (sec_pc_offset s) (next_entries_offset_ s) (fdes_ s).
Definition put_sec_loc_regs (l : list (Z * DwarfLocations)) (s : DwarfSection) : DwarfSection :=
  mkSection (sec_memory s) (sec_error s) (fde_entries_ s) (cie_entries_ s) (sec_cie_loc_regs s) l
    (load_bias_ s) (entries_offset_ s) (entries_end_ s) (sec_pc_offset s) (next_entries_offset_ s) (fdes_ s).
Definition put_entries (bias offset fin pc : Z) (s : DwarfSection) : DwarfSection :=
  mkSection (sec_memory s) (sec_error s) (fde_entries_ s) (cie_entries_ s) (sec_cie_loc_regs s) (loc_regs_ s)
    bias offset fin pc (next_entries_offset_ s) (fdes_ s).
Definition put_next_entries (o : Z) (s : DwarfSection) : DwarfSection :=
  mkSection (sec_memory s) (sec_error s) (fde_entries_ s) (cie_entries_ s) (sec_cie_loc_regs s) (loc_regs_ s)
    (load_bias_ s) (entries_offset_ s) (entries_end_ s) (sec_pc_offset s) o (fdes_ s).
Definition put_fdes (l : list (Z * (Z * Z))) (s : DwarfSection) : DwarfSection :=
  mkSection (sec_memory s) (sec_error s) (fde_entries_ s) (cie_entries_ s) (sec_cie_loc_regs s) (loc_regs_ s)
    (load_bias_ s) (entries_offset_ s) (entries_end_ s) (sec_pc_offset s) (next_entries_offset_ s) l.

Abbreviation SEC := (M DwarfSection).

Definition on_sec_memory {B} (m : DM B) : SEC B := zoom sec_memory put_sec_memory m.

(** [last_error_.code = c], and the error of a failed read, with the offset of the cursor; both
    return [false] as an absent result. *)
Definition sec_code {B} (c : DwarfErrorCode) : SEC (option B) :=
  modify (fun s => put_sec_error (with_code c (sec_error s)) s) ;; ret None.
Definition sec_memory_invalid {B} : SEC (option B) :=
  cur <- on_sec_memory cur_offset ;;
  modify (put_sec_error (mkError DWARF_ERROR_MEMORY_INVALID cur)) ;;
  ret None.

(** A read of the cursor that records the error when it fails. *)
Definition sec_read {B} (m : DM (option B)) : SEC (option B) :=
  o <- on_sec_memory m ;;
  match o with Some b => ret (Some b) | None => sec_memory_invalid end.

Lemma sec_read_run {B} (m : DM (option B)) s b d :
  m (sec_memory s) = Done (Some b, d) -> sec_read m s = Done (Some b, put_sec_memory d s).
Proof. intros Hm. unfold sec_read, on_sec_memory, bind, zoom. by rewrite Hm. Qed.

(** * The two kinds of sections *)

Inductive section_kind : Set := EhFrame | DebugFrame.

Definition cie32_value (k : section_kind) : Z := match k with EhFrame => 0 | DebugFrame => 0xffffffff end.
Definition cie64_value (k : section_kind) : Z := match k with EhFrame => 0 | DebugFrame => UINT64_MAX end.

Definition GetCieOffsetFromFde32 (k : section_kind) (pointer : Z) : SEC Z :=
  match k with
  | EhFrame => cur <- on_sec_memory cur_offset ;; ret (u64 (cur - pointer - 4))
  | DebugFrame => gets (fun s => u64 (entries_offset_ s + pointer))
  end.

Definition GetCieOffsetFromFde64 (k : section_kind) (pointer : Z) : SEC Z :=
  match k with
  | EhFrame => cur <- on_sec_memory cur_offset ;; ret (u64 (cur - pointer - 8))
  | DebugFrame => gets (fun s => u64 (entries_offset_ s + pointer))
  end.

Definition AdjustPcFromFde (k : section_kind) (pc : Z) : SEC Z :=
  match k with
  | EhFrame => cur <- on_sec_memory cur_offset ;; ret (u64 (pc + cur - 4))
  | DebugFrame => ret pc
  end.

Section Impl.
Variables (A : addr_type) (kind : section_kind).

(** * Common information entries *)

Definition with_header (enc fin : Z) (c : DwarfCie) : DwarfCie :=
  mkCie (version c) enc DW_EH_PE_omit (segment_size c) (augmentation_string c) (personality_handler c)
    (cie_cfa_instructions_offset c) fin (code_alignment_factor c) (data_alignment_factor c)
    (return_address_register c).

Definition FillInCieHeader (cie : DwarfCie) : SEC (option DwarfCie) :=
  length32 <-? sec_read (ReadUnsigned 4) ;;
  if length32 =? 0xffffffff then
    length64 <-? sec_read (ReadUnsigned 8) ;;
    cur <- on_sec_memory cur_offset ;;
    let cie := with_header DW_EH_PE_sdata8 (u64 (cur + length64)) cie in
    cie_id <-? sec_read (ReadUnsigned 8) ;;
    if negb (cie_id =? cie64_value kind) then sec_code DWARF_ERROR_ILLEGAL_VALUE else ret (Some cie)
  else
    cur <- on_sec_memory cur_offset ;;
    let cie := with_header DW_EH_PE_sdata4 (u64 (cur + length32)) cie in
    cie_id <-? sec_read (ReadUnsigned 4) ;;
    if negb (cie_id =? cie32_value kind) then sec_code DWARF_ERROR_ILLEGAL_VALUE else ret (Some cie).

(** The [do ... while] loop over the augmentation string: the terminator is part of it. *)
Fixpoint read_augmentation (fuel : nat) (str : list Z) : SEC (option (list Z)) :=
  match fuel with
  | O => fail OutOfFuel
  | S fuel' =>
      aug_value <-? sec_read (ReadUnsigned 1) ;;
      let str := str ++ [aug_value] in
      if aug_value =? 0 then ret (Some str) else read_augmentation fuel' str
  end.

Definition put_version (v : Z) (c : DwarfCie) : DwarfCie :=
  mkCie v (fde_address_encoding c) (lsda_encoding c) (segment_size c) (augmentation_string c)
    (personality_handler c) (cie_cfa_instructions_offset c) (cie_cfa_instructions_end c)
    (code_alignment_factor c) (data_alignment_factor c) (return_address_register c).
Definition put_augmentation (l : list Z) (c : DwarfCie) : DwarfCie :=
  mkCie (version c) (fde_address_encoding c) (lsda_encoding c) (segment_size c) l
    (personality_handler c) (cie_cfa_instructions_offset c) (cie_cfa_instructions_end c)
    (code_alignment_factor c) (data_alignment_factor c) (return_address_register c).
Definition put_segment_size (v : Z) (c : DwarfCie) : DwarfCie :=
  mkCie (version c) (fde_address_encoding c) (lsda_encoding c) v (augmentation_string c)
    (personality_handler c) (cie_cfa_instructions_offset c) (cie_cfa_instructions_end c)
    (code_alignment_factor c) (data_alignment_factor c) (return_address_register c).
Definition put_factors (code data ra : Z) (c : DwarfCie) : DwarfCie :=
  mkCie (version c) (fde_address_encoding c) (lsda_encoding c) (segment_size c) (augmentation_string c)
    (personality_handler c) (cie_cfa_instructions_offset c) (cie_cfa_instructions_end c) code data ra.
Definition put_instructions_offset (o : Z) (c : DwarfCie) : DwarfCie :=
  mkCie (version c) (fde_address_encoding c) (lsda_encoding c) (segment_size c) (augmentation_string c)
    (personality_handler c) o (cie_cfa_instructions_end c)
    (code_alignment_factor c) (data_alignment_factor c) (return_address_register c).
Definition put_encodings (fde lsda personality : Z) (c : DwarfCie) : DwarfCie :=
  mkCie (version c) fde lsda (segment_size c) (augmentation_string c) personality
    (cie_cfa_instructions_offset c) (cie_cfa_instructions_end c)
    (code_alignment_factor c) (data_alignment_factor c) (return_address_register c).

(** The loop over the augmentation characters: ['L'], ['P'] and ['R'] have data. *)
Definition read_augmentation_item (c : Z) (cie : DwarfCie) : SEC (option DwarfCie) :=
  if c =? 0x4c then
    e <-? sec_read (ReadUnsigned 1) ;;
    ret (Some (put_encodings (fde_address_encoding cie) e (personality_handler cie) cie))
  else if c =? 0x50 then
    encoding <-? sec_read (ReadUnsigned 1) ;;
    s <- get ;;
    on_sec_memory (set_pc_offset (sec_pc_offset s)) ;;
    h <-? sec_read (ReadEncodedValue A encoding) ;;
    ret (Some (put_encodings (fde_address_encoding cie) (lsda_encoding cie) h cie))
  else if c =? 0x52 then
    e <-? sec_read (ReadUnsigned 1) ;;
    ret (Some (put_encodings e (lsda_encoding cie) (personality_handler cie) cie))
  else ret (Some cie).

Fixpoint read_augmentation_data (str : list Z) (cie : DwarfCie) : SEC (option DwarfCie) :=
  match str with
  | [] => ret (Some cie)
  | c :: str' => cie <-? read_augmentation_item c cie ;; read_augmentation_data str' cie
  end.

(** The end of [FillInCie]: the augmentation, and where the instructions start. *)
Definition fill_in_augmentation (cie : DwarfCie) : SEC (option DwarfCie) :=
  if negb (nth 0 (augmentation_string cie) 0 =? 0x7a) then
    cur <- on_sec_memory cur_offset ;; ret (Some (put_instructions_offset cur cie))
  else
    aug_length <-? sec_read ReadULEB128 ;;
    cur <- on_sec_memory cur_offset ;;
    let cie := put_instructions_offset (u64 (cur + aug_length)) cie in
    read_augmentation_data (tail (augmentation_string cie)) cie.

Definition FillInCie (fuel : nat) (cie : DwarfCie) : SEC (option DwarfCie) :=
  v <-? sec_read (ReadUnsigned 1) ;;
  let cie := put_version v cie in
  if negb ((v =? 1) || (v =? 3) || (v =? 4) || (v =? 5)) then sec_code DWARF_ERROR_UNSUPPORTED_VERSION
  else
    str <-? read_augmentation fuel (augmentation_string cie) ;;
    let cie := put_augmentation str cie in
    cie <-? (if (v =? 4) || (v =? 5) then
               cur <- on_sec_memory cur_offset ;;
               on_sec_memory (set_cur_offset (u64 (cur + 1))) ;;
               seg <-? sec_read (ReadUnsigned 1) ;;
               ret (Some (put_segment_size seg cie))
             else ret (Some cie)) ;;
    code <-? sec_read ReadULEB128 ;;
    data <-? sec_read ReadSLEB128 ;;
    ra <-? (if v =? 1 then sec_read (ReadUnsigned 1) else sec_read ReadULEB128) ;;
    fill_in_augmentation (put_factors code data ra cie).

(** The pointer to the entry: its key. *)
Definition GetCieFromOffset (fuel : nat) (offset : Z) : SEC (option Z) :=
  s <- get ;;
  match cie_entries_ s !! offset with
  | Some _ => ret (Some offset)
  | None =>
      on_sec_memory (set_cur_offset offset) ;;
      r <- (cie <-? FillInCieHeader new_cie ;; FillInCie fuel cie) ;;
      match r with
      | None => ret None
      | Some cie =>
          modify (fun s => put_cie_entries (<[offset := cie]> (cie_entries_ s)) s) ;;
          ret (Some offset)
      end
  end.

(** Following a [const DwarfCie*] and a [const DwarfFde*]. *)
Definition deref_cie (p : Z) : SEC DwarfCie :=
  s <- get ;; some_or (Undef UbNull) (cie_entries_ s !! p).
Definition deref_fde (p : Z) : SEC DwarfFde :=
  s <- get ;; some_or (Undef UbNull) (fde_entries_ s !! p).

(** * Frame description entries *)

Definition put_fde_header (cie_off fin : Z) (f : DwarfFde) : DwarfFde :=
  mkFde cie_off (cfa_instructions_offset f) fin (pc_start f) (pc_end f) (lsda_address f) (fde_cie f).

Definition FillInFdeHeader (fde : DwarfFde) : SEC (option DwarfFde) :=
  length32 <-? sec_read (ReadUnsigned 4) ;;
  if length32 =? 0xffffffff then
    length64 <-? sec_read (ReadUnsigned 8) ;;
    cur <- on_sec_memory cur_offset ;;
    value64 <-? sec_read (ReadUnsigned 8) ;;
    if value64 =? cie64_value kind then sec_code DWARF_ERROR_ILLEGAL_VALUE
    else
      off <- GetCieOffsetFromFde64 kind value64 ;;
      ret (Some (put_fde_header off (u64 (cur + length64)) fde))
  else
    cur <- on_sec_memory cur_offset ;;
    value32 <-? sec_read (ReadUnsigned 4) ;;
    if value32 =? cie32_value kind then sec_code DWARF_ERROR_ILLEGAL_VALUE
    else
      off <- GetCieOffsetFromFde32 kind value32 ;;
      ret (Some (put_fde_header off (u64 (cur + length32)) fde)).

(** The augmentation of an FDE, which is there when that of its CIE starts with ['z']. *)
Definition has_augmentation (cie : DwarfCie) : bool :=
  (0 <? Z.of_nat (length (augmentation_string cie))) && (nth 0 (augmentation_string cie) 0 =? 0x7a).

Definition read_lsda (cie : DwarfCie) (fde : DwarfFde) : SEC (option Z) :=
  if has_augmentation cie then
    aug_length <-? sec_read ReadULEB128 ;;
    cur <- on_sec_memory cur_offset ;;
    s <- get ;;
    on_sec_memory (set_pc_offset (sec_pc_offset s)) ;;
    lsda <-? sec_read (ReadEncodedValue A (lsda_encoding cie)) ;;
    on_sec_memory (set_cur_offset (u64 (cur + aug_length))) ;;
    ret (Some lsda)
  else ret (Some (lsda_address fde)).

Definition FillInFde (fuel : nat) (fde : DwarfFde) : SEC (option DwarfFde) :=
  cur <- on_sec_memory cur_offset ;;
  p <-? GetCieFromOffset fuel (cie_offset fde) ;;
  cie <- deref_cie p ;;
  let cur := u64 (cur + segment_size cie) in
  on_sec_memory (set_cur_offset cur) ;;
  s <- get ;;
  on_sec_memory (set_pc_offset (load_bias_ s)) ;;
  start <- on_sec_memory (ReadEncodedValue A (fde_address_encoding cie)) ;;
  match start with
  | None => on_sec_memory (set_pc_offset 0) ;; sec_memory_invalid
  | Some start =>
      start <- AdjustPcFromFde kind start ;;
      on_sec_memory (set_pc_offset 0) ;;
      size <-? sec_read (ReadEncodedValue A (fde_address_encoding cie)) ;;
      let fin := u64 (size + start) in
      lsda <-? read_lsda cie fde ;;
      cur <- on_sec_memory cur_offset ;;
      ret (Some (mkFde (cie_offset fde) cur (cfa_instructions_end fde) start fin lsda (Some p)))
  end.

Definition GetFdeFromOffset (fuel : nat) (offset : Z) : SEC (option Z) :=
  s <- get ;;
  match fde_entries_ s !! offset with
  | Some _ => ret (Some offset)
  | None =>
      on_sec_memory (set_cur_offset offset) ;;
      r <- (fde <-? FillInFdeHeader new_fde ;; FillInFde fuel fde) ;;
      match r with
      | None => ret None
      | Some fde =>
          modify (fun s => put_fde_entries (<[offset := fde]> (fde_entries_ s)) s) ;;
          ret (Some offset)
      end
  end.

(** * The location of registers for an address *)

(** A call of the call frame interpreter, which reads through [memory_] and whose error becomes
    the section's. *)
Definition run_cfa (m : CFA bool) (c : DwarfCfa) : SEC (option DwarfCfa) :=
  s <- get ;;
  match m (put_cfa_memory (sec_memory s) c) with
  | Fault f => fail f
  | Done (ok, c) =>
      modify (put_sec_memory (cfa_memory c)) ;;
      if (ok : bool) then ret (Some c)
      else modify (put_sec_error (cfa_error c)) ;; ret None
  end.

Definition set_cie_loc_regs (l : DwarfLocations) (c : DwarfCfa) : DwarfCfa :=
  mkDwarfCfa (cfa_memory c) (cfa_fde c) (cfa_cie c) (cfa_error c) (cur_pc_ c) (Some l) (cfa_operands c)
    (loc_reg_state_ c) (loc_regs c).

Definition GetCfaLocationInfo (fuel : nat) (pc : Z) (fde : DwarfFde) : SEC (option DwarfLocations) :=
  p <- some_or (Undef UbNull) (fde_cie fde) ;;
  cie <- deref_cie p ;;
  s <- get ;;
  let cfa := new_DwarfCfa (sec_memory s) fde cie None empty_locs in
  cfa <-? (match sec_cie_loc_regs s !! cie_offset fde with
           | Some l => ret (Some (set_cie_loc_regs l cfa))
           | None =>
               cfa <-? run_cfa (GetLocationInfo A fuel pc (cie_cfa_instructions_offset cie)
                                  (cie_cfa_instructions_end cie)) cfa ;;
               modify (fun s =>
                 put_sec_cie_loc_regs (<[cie_offset fde := loc_regs cfa]> (sec_cie_loc_regs s)) s) ;;
               ret (Some (set_cie_loc_regs (loc_regs cfa) cfa))
           end) ;;
  cfa <-? run_cfa (GetLocationInfo A fuel pc (cfa_instructions_offset fde) (cfa_instructions_end fde)) cfa ;;
  ret (Some (loc_regs cfa)).

(** * Sections without a header *)

Definition Init (offset size load_bias : Z) : SEC bool :=
  s <- get ;;
  modify (put_entries load_bias offset (u64 (offset + size)) (sec_pc_offset s)) ;;
  modify (put_next_entries offset) ;;
  on_sec_memory clear_func_offset ;;
  on_sec_memory clear_text_offset ;;
  on_sec_memory (set_cur_offset offset) ;;
  on_sec_memory (set_data_offset offset) ;;
  modify (fun s => put_entries (load_bias_ s) (entries_offset_ s) (entries_end_ s) offset s) ;;
  ret true.

(** The loop of [InsertFde] for the FDE at [p]. [it] is the iterator: the entries of the map from
    it on. [++it] looks at the map as it is then. *)
Fixpoint insert_fde_loop (fuel : nat) (p start fin : Z) (add_element : bool)
    (it fdes : list (Z * (Z * Z))) : list (Z * (Z * Z)) :=
  match fuel with
  | O => fdes
  | S fuel' =>
      match it with
      | [] => if start <? fin then map_set fin (start, p) fdes else fdes
      | (it_first, (it_start, _)) :: _ =>
          if start <? fin then
            if add_element && (fin <? it_start) then
              if it_first =? fin then fdes else map_set fin (start, p) fdes
            else
              let fdes := if add_element && negb (start =? it_start)
                          then map_set it_start (start, p) fdes else fdes in
              if start <? it_first then
                if fin <? it_start then
                  if negb (it_first =? fin) then map_set fin (start, p) fdes else fdes
                else insert_fde_loop fuel' p it_first fin true (upper_bound it_first fdes) fdes
              else insert_fde_loop fuel' p it_first fin false (upper_bound it_first fdes) fdes
          else fdes
      end
  end.

(** Every iteration moves the iterator forward: one for each entry, and the test at the end. *)
Definition InsertFde (p : Z) (fde : DwarfFde) : SEC unit :=
  modify (fun s =>
    put_fdes (insert_fde_loop (S (length (fdes_ s))) p (pc_start fde) (pc_end fde) false
                (upper_bound (pc_start fde) (fdes_ s)) (fdes_ s)) s).

(** The first part of [GetNextCieOrFde]: where the next entry starts, and whether this one is a CIE, with
    the encoding of its format, or an FDE, with the offset of its CIE. *)
Definition next_entry_header : SEC (option (Z + Z)) :=
  value32 <-? sec_read (ReadUnsigned 4) ;;
  if value32 =? 0xffffffff then
    value64 <-? sec_read (ReadUnsigned 8) ;;
    cur <- on_sec_memory cur_offset ;;
    modify (put_next_entries (u64 (cur + value64))) ;;
    value64 <-? sec_read (ReadUnsigned 8) ;;
    if value64 =? cie64_value kind then ret (Some (inl DW_EH_PE_sdata8))
    else cie_offset <- GetCieOffsetFromFde64 kind value64 ;; ret (Some (inr cie_offset))
  else
    cur <- on_sec_memory cur_offset ;;
    modify (put_next_entries (u64 (cur + value32))) ;;
    value32 <-? sec_read (ReadUnsigned 4) ;;
    if value32 =? cie32_value kind then ret (Some (inl DW_EH_PE_sdata4))
    else cie_offset <- GetCieOffsetFromFde32 kind value32 ;; ret (Some (inr cie_offset)).

(** The result is [None] for [false], and otherwise the FDE, if the entry was one. *)
Definition GetNextCieOrFde (fuel : nat) : SEC (option (option Z)) :=
  s <- get ;;
  let start_offset := next_entries_offset_ s in
  on_sec_memory (set_cur_offset start_offset) ;;
  entry <-? next_entry_header ;;
  s <- get ;;
  match entry with
  | inl cie_fde_encoding =>
      let cie := default new_cie (cie_entries_ s !! start_offset) in
      r <- FillInCie fuel (with_header cie_fde_encoding (next_entries_offset_ s) cie) ;;
      match r with
      | None =>
          modify (fun s => put_cie_entries (delete start_offset (cie_entries_ s)) s) ;; ret None
      | Some cie =>
          modify (fun s => put_cie_entries (<[start_offset := cie]> (cie_entries_ s)) s) ;;
          ret (Some None)
      end
  | inr cie_offset =>
      let fde := default new_fde (fde_entries_ s !! start_offset) in
      r <- FillInFde fuel (put_fde_header cie_offset (next_entries_offset_ s) fde) ;;
      match r with
      | None =>
          modify (fun s => put_fde_entries (delete start_offset (fde_entries_ s)) s) ;; ret None
      | Some fde =>
          modify (fun s => put_fde_entries (<[start_offset := fde]> (fde_entries_ s)) s) ;;
          ret (Some (Some start_offset))
      end
  end.

(** The loop of [GetFdeFromPc] that reads further entries. *)
Fixpoint scan_for_pc (fuel : nat) (cie_fuel : nat) (pc : Z) : SEC (option Z) :=
  match fuel with
  | O => fail OutOfFuel
  | S fuel' =>
      s <- get ;;
      if next_entries_offset_ s <? entries_end_ s then
        fde <-? GetNextCieOrFde cie_fuel ;;
        found <- (match fde with
                  | None => ret None
                  | Some p =>
                      f <- deref_fde p ;;
                      InsertFde p f ;;
                      ret (if (pc_start f <=? pc) && (pc <? pc_end f) then Some p else None)
                  end) ;;
        match found with
        | Some p => ret (Some p)
        | None =>
            s <- get ;;
            cur <- on_sec_memory cur_offset ;;
            if next_entries_offset_ s <? cur then ret None else scan_for_pc fuel' cie_fuel pc
        end
      else ret None
  end.

(** The search in [fdes_]. *)
Definition find_fde (pc : Z) (fdes : list (Z * (Z * Z))) : option Z :=
  match upper_bound pc fdes with
  | (_, (start, p)) :: _ => if start <=? pc then Some p else None
  | [] => None
  end.

Definition GetFdeFromPc (fuel cie_fuel : nat) (pc : Z) : SEC (option Z) :=
  s <- get ;;
  match find_fde pc (fdes_ s) with
  | Some p => ret (Some p)
  | None => scan_for_pc fuel cie_fuel pc
  end.

(** The first loop of [GetFdes], over the entries that were read before; the flag tells whether it
    ended without an early return. *)
Fixpoint cached_fdes (fuel : nat) (entry_offset : Z) (fdes : list Z) : SEC (bool * list Z) :=
  match fuel with
  | O => fail OutOfFuel
  | S fuel' =>
      s <- get ;;
      if entry_offset <? next_entries_offset_ s then
        match cie_entries_ s !! entry_offset with
        | Some cie => cached_fdes fuel' (cie_cfa_instructions_end cie) fdes
        | None =>
            match fde_entries_ s !! entry_offset with
            | None => ret (false, fdes)
            | Some fde => cached_fdes fuel' (cfa_instructions_end fde) (fdes ++ [entry_offset])
            end
        end
      else ret (true, fdes)
  end.

Fixpoint scan_fdes (fuel : nat) (cie_fuel : nat) (fdes : list Z) : SEC (list Z) :=
  match fuel with
  | O => fail OutOfFuel
  | S fuel' =>
      s <- get ;;
      if next_entries_offset_ s <? entries_end_ s then
        r <- GetNextCieOrFde cie_fuel ;;
        match r with
        | None => ret fdes
        | Some fde =>
            fdes <- (match fde with
                     | None => ret fdes
                     | Some p => f <- deref_fde p ;; InsertFde p f ;; ret (fdes ++ [p])
                     end) ;;
            s <- get ;;
            cur <- on_sec_memory cur_offset ;;
            if next_entries_offset_ s <? cur then ret fdes else scan_fdes fuel' cie_fuel fdes
        end
      else ret fdes
  end.

Definition GetFdes (fuel cie_fuel : nat) : SEC (list Z) :=
  s <- get ;;
  r <- cached_fdes fuel (entries_offset_ s) [] ;;
  let '(go_on, fdes) := r in
  if (go_on : bool) then scan_fdes fuel cie_fuel fdes else ret fdes.
End Impl.

(** * Evaluation of the registers of a frame *)

(** The part of [EvalInfo] that changes. *)
Record EvalInfo := mkEvalInfo {
  eval_cfa : Z;
  return_address_undefined : bool;
  eval_regs_info : RegsInfo
}.

Definition put_eval_cfa (v : Z) (e : EvalInfo) : EvalInfo :=
  mkEvalInfo v (return_address_undefined e) (eval_regs_info e).
Definition put_undefined (e : EvalInfo) : EvalInfo := mkEvalInfo (eval_cfa e) true (eval_regs_info e).
Definition put_eval_info (i : RegsInfo) (e : EvalInfo) : EvalInfo :=
  mkEvalInfo (eval_cfa e) (return_address_undefined e) i.

Abbreviation EV := (M (DwarfSection * EvalInfo)).

Definition on_section {B} (m : SEC B) : EV B := zoom fst (fun s p => (s, snd p)) m.
Definition on_eval_info {B} (m : M EvalInfo B) : EV B := zoom snd (fun e p => (fst p, e)) m.
Definition on_eval_regs_info {B} (m : M RegsInfo B) : EV B :=
  on_eval_info (zoom eval_regs_info put_eval_info m).

(** [last_error_.code = c; return false;], without and with an address. *)
Definition eval_error (c : DwarfErrorCode) : EV bool :=
  on_section (modify (fun s => put_sec_error (with_code c (sec_error s)) s)) ;; ret false.
Definition eval_error_at (c : DwarfErrorCode) (a : Z) : EV bool :=
  on_section (modify (put_sec_error (mkError c a))) ;; ret false.

Section Eval.
Variables (A : addr_type) (regular_memory : Memory).

(** The value, and whether the expression set the dex pc; [None] when it returns [false]. *)
Definition EvalExpression (loc : DwarfLocation) : EV (option (Z * bool)) :=
  s <- get ;;
  let fin := value1 loc in
  let start := u64 (fin - value0 loc) in
  match DwarfOp.Eval A regular_memory start fin
          (new_DwarfOp (sec_memory (fst s)) (Some (eval_regs_info (snd s)))) with
  | Fault f => fail f
  | Done (ok, op) =>
      on_section (modify (put_sec_memory (op_memory op))) ;;
      i <- some_or (Undef UbNull) (op_regs_info op) ;;
      on_eval_info (modify (put_eval_info i)) ;;
      if (ok : bool) then
        match stack_ op with
        | [] => eval_error DWARF_ERROR_ILLEGAL_STATE ;; ret None
        | value :: _ =>
            if is_register_ op then eval_error DWARF_ERROR_NOT_IMPLEMENTED ;; ret None
            else ret (Some (value, dex_pc_set_ op))
        end
      else on_section (modify (put_sec_error (last_error_ op))) ;; ret None
  end.

(** [*reg_ptr = v], where [reg_ptr] points to the register. *)
Definition set_reg (reg v : Z) : EV unit :=
  on_eval_regs_info (modify (fun i => put_info_regs (put_reg reg (addr A v) (info_regs i)) i)).

(** [regular_memory->ReadFully(a, reg_ptr, sizeof(AddressType))]: a partial read also changes the
    register. *)
Definition read_into_reg (a reg : Z) : EV bool :=
  s <- get ;;
  let bs := Read regular_memory a (size_of A) in
  old <- read_reg reg (info_regs (eval_regs_info (snd s))) ;;
  set_reg reg (overlay (size_of A) old bs) ;;
  ret (len bs =? size_of A).

Definition EvalRegister (cie : DwarfCie) (loc : DwarfLocation) (reg : Z) : EV bool :=
  s <- get ;;
  let cfa := eval_cfa (snd s) in
  match loc_type loc with
  | DWARF_LOCATION_OFFSET =>
      let a := u64 (cfa + value0 loc) in
      ok <- read_into_reg a reg ;;
      if (ok : bool) then ret true else eval_error_at DWARF_ERROR_MEMORY_INVALID a
  | DWARF_LOCATION_VAL_OFFSET => set_reg reg (cfa + value0 loc) ;; ret true
  | DWARF_LOCATION_REGISTER =>
      let cur_reg := u32 (value0 loc) in
      total <- on_eval_regs_info (gets Total) ;;
      if total <=? cur_reg then eval_error DWARF_ERROR_ILLEGAL_VALUE
      else
        v <- on_eval_regs_info (Get cur_reg) ;;
        set_reg reg (v + value1 loc) ;;
        ret true
  | DWARF_LOCATION_EXPRESSION | DWARF_LOCATION_VAL_EXPRESSION =>
      r <- EvalExpression loc ;;
      match r with
      | None => ret false
      | Some (value, is_dex_pc) =>
          if decide (loc_type loc = DWARF_LOCATION_EXPRESSION) then
            ok <- read_into_reg value reg ;;
            if (ok : bool) then ret true else eval_error_at DWARF_ERROR_MEMORY_INVALID value
          else
            set_reg reg value ;;
            (if (is_dex_pc : bool)
             then on_eval_regs_info (modify (fun i => put_info_regs (set_dex_pc value (info_regs i)) i))
             else ret tt) ;;
            ret true
      end
  | DWARF_LOCATION_UNDEFINED =>
      (if reg =? return_address_register cie then on_eval_info (modify put_undefined) else ret tt) ;;
      ret true
  | DWARF_LOCATION_INVALID => ret true
  end.

(** The loop over the entries of [loc_regs], in the order in which the unordered map yields them. *)
Fixpoint eval_registers (cie : DwarfCie) (entries : list (Z * DwarfLocation)) : EV bool :=
  match entries with
  | [] => ret true
  | (reg, loc) :: rest =>
      if reg =? CFA_REG then eval_registers cie rest
      else
        total <- on_eval_regs_info (gets Total) ;;
        if total <=? reg then eval_registers cie rest
        else
          on_eval_regs_info (Save reg) ;;
          ok <- EvalRegister cie loc reg ;;
          if (ok : bool) then eval_registers cie rest else ret false
  end.

(** The [switch] on the location of the CFA. *)
Definition eval_cfa_location (loc : DwarfLocation) : EV bool :=
  s <- get ;;
  let cur_regs := info_regs (eval_regs_info (snd s)) in
  match loc_type loc with
  | DWARF_LOCATION_REGISTER =>
      if total_regs cur_regs <=? value0 loc then eval_error DWARF_ERROR_ILLEGAL_VALUE
      else
        v <- read_reg (value0 loc) cur_regs ;;
        on_eval_info (modify (put_eval_cfa (addr A (v + value1 loc)))) ;;
        ret true
  | DWARF_LOCATION_VAL_EXPRESSION =>
      r <- EvalExpression loc ;;
      match r with
      | None => ret false
      | Some (value, _) => on_eval_info (modify (put_eval_cfa value)) ;; ret true
      end
  | _ => eval_error DWARF_ERROR_ILLEGAL_VALUE
  end.

(** [cur_regs->set_pc(v)] and [cur_regs->set_sp(v)] *)
Definition set_pc (v : Z) (r : Regs) : Regs := put_reg (pc_reg r) (addr A v) r.
Definition set_sp (v : Z) (r : Regs) : Regs := put_reg (sp_reg r) (addr A v) r.

(** The end of [Eval]: the new PC and SP, and [*finished]. *)
Definition finish_frame (cie : DwarfCie) (e : EvalInfo) (cur_regs : Regs) : EV (Regs * bool) :=
  v <- (if return_address_undefined e then ret 0 else read_reg (return_address_register cie) cur_regs) ;;
  let cur_regs := set_pc v cur_regs in
  pc <- read_reg (pc_reg cur_regs) cur_regs ;;
  ret (set_sp (eval_cfa e) cur_regs, pc =? 0).

(** The registers also change when [Eval] returns [false]; [finished] does not. *)
Definition Eval (order : list (Z * DwarfLocation)) (cie : DwarfCie) (l : DwarfLocations) (regs : Regs)
    (finished : bool) : SEC (bool * Regs * bool) :=
  if total_regs regs <=? return_address_register cie then
    modify (fun s => put_sec_error (with_code DWARF_ERROR_ILLEGAL_VALUE (sec_error s)) s) ;;
    ret (false, regs, finished)
  else
    match locs l !! CFA_REG with
    | None =>
        modify (fun s => put_sec_error (with_code DWARF_ERROR_CFA_NOT_DEFINED (sec_error s)) s) ;;
        ret (false, regs, finished)
    | Some loc =>
        let regs := set_dex_pc 0 regs in
        let body : EV (bool * Regs * bool) :=
          ok <- eval_cfa_location loc ;;
          ok <- (if (ok : bool) then eval_registers cie order else ret false) ;;
          s <- get ;;
          let cur_regs := info_regs (eval_regs_info (snd s)) in
          if (ok : bool) then
            r <- finish_frame cie (snd s) cur_regs ;;
            let '(cur_regs, finished) := r in ret (true, cur_regs, finished)
          else ret (false, cur_regs, finished) in
        s <- get ;;
        match body (s, mkEvalInfo 0 false (new_regs_info regs)) with
        | Fault f => fail f
        | Done (r, (s, _)) => modify (fun _ => s) ;; ret r
        end
    end.
End Eval.

(** * One step of an unwind *)

Section Step.
Context {T : Type} (base : T -> DwarfSection) (put_base : DwarfSection -> T -> T).
Variables (A : addr_type) (get_fde_from_pc : Z -> M T (option Z)).
(** The order in which an unordered map of locations yields its entries. *)
Variable (order : gmap Z DwarfLocation -> list (Z * DwarfLocation)).

Definition on_base {B} (m : SEC B) : M T B := zoom base put_base m.

(** The computation of the row for [pc] and its insertion in the cache. [emplace] keeps an entry that
    is already there, and the iterator it returns is to that entry. *)
Definition compute_locations (fuel : nat) (pc : Z) : M T (option DwarfLocations) :=
  on_base (modify (fun s => put_sec_error (with_code DWARF_ERROR_NONE (sec_error s)) s)) ;;
  p <- get_fde_from_pc pc ;;
  match p with
  | None => on_base (sec_code DWARF_ERROR_ILLEGAL_STATE)
  | Some p =>
      fde <- on_base (deref_fde p) ;;
      match fde_cie fde with
      | None => on_base (sec_code DWARF_ERROR_ILLEGAL_STATE)
      | Some c =>
          l <-? on_base (GetCfaLocationInfo A fuel pc fde) ;;
          let l := put_locs_cie (Some c) l in
          on_base (modify (fun s => put_sec_loc_regs (map_emplace (locs_pc_end l) l (loc_regs_ s)) s)) ;;
          s <- gets base ;;
          l <- some_or (Undef UbNull) (map_find (locs_pc_end l) (loc_regs_ s)) ;;
          ret (Some l)
      end
  end.

(** The row for [pc]: from the cache, if it has one. *)
Definition step_locations (fuel : nat) (pc : Z) : M T (option DwarfLocations) :=
  s <- gets base ;;
  match upper_bound pc (loc_regs_ s) with
  | (_, l) :: _ => if pc <? locs_pc_start l then compute_locations fuel pc else ret (Some l)
  | [] => compute_locations fuel pc
  end.

Definition Step (fuel : nat) (pc : Z) (regs : Regs) (process_memory : Memory) (finished : bool)
    : M T (bool * Regs * bool) :=
  l <- step_locations fuel pc ;;
  match l with
  | None => ret (false, regs, finished)
  | Some l =>
      c <- some_or (Undef UbUninit) (locs_cie l) ;;
      cie <- on_base (deref_cie c) ;;
      on_base (Eval A process_memory (order (locs l)) cie l regs finished)
  end.
End Step.
