(* ===== verification/DwarfSectionEntries.v ===== *)
(** The entries of a section in their encoding ([DwarfSection.cpp]): the code reads a common
    information entry and a frame description entry back from the bytes that the DWARF and the
    [.eh_frame] formats define for them. *)
From Stdlib Require Import ZArith Lia Bool Strings.Byte.
From stdpp Require Import base numbers list gmap.
From S2P Require Import Prelude StdMap Memory DwarfMemory DwarfEncode DwarfStructs Regs DwarfSection.
#[local] Open Scope Z_scope.

(** * The format *)

(** The length field, of 4 bytes, or of 12 in the 64-bit format. *)
Definition encode_length (wide : bool) (n : Z) : list byte :=
  if wide then le_bytes 4 0xffffffff ++ le_bytes 8 n else le_bytes 4 n.
Definition length_ok (wide : bool) (n : Z) : Prop := if wide then in_u 64 n else 0 <= n < 0xffffffff.
Definition id_size (wide : bool) : nat := if wide then 8 else 4.

(** The items of an augmentation string that starts with [z]; other characters have no data. *)
Inductive augmentation : Set :=
| AugLsda (enc : byte)
| AugPersonality (enc : byte) (v : Z)
| AugFdeEncoding (enc : byte)
| AugFlag (c : byte).

Record cie_fields := mkCieFields {
  cf_wide : bool;
  cf_version : byte;
  cf_augmentation : option (list augmentation);
  cf_address_size : byte;
  cf_segment_size : byte;
  cf_code_factor : Z;
  cf_data_factor : Z;
  cf_return_register : Z;
  cf_instructions : list byte
}.

(** The start is the value in the entry: for [.eh_frame] it is relative to its own address. *)
Record fde_fields := mkFdeFields {
  ff_wide : bool;
  ff_segment : list byte;
  ff_start : Z;
  ff_size : Z;
  ff_lsda : Z;
  ff_padding : list byte;
  ff_instructions : list byte
}.

Section Format.
Context (A : addr_type).

Definition encode_based (e : byte) (v : Z) : list byte := encode_operand A (Z.land (byte_val e) 0x0f) v.

Definition aug_char (a : augmentation) : byte :=
  match a with AugLsda _ => x4c | AugPersonality _ _ => x50 | AugFdeEncoding _ => x52 | AugFlag c => c end.
Definition aug_data (a : augmentation) : list byte :=
  match a with
  | AugLsda e | AugFdeEncoding e => [e]
  | AugPersonality e v => e :: encode_based e v
  | AugFlag _ => []
  end.

(** The characters of the string, without its terminator. *)
Definition aug_string (f : cie_fields) : list byte :=
  match cf_augmentation f with None => [] | Some l => x7a :: map aug_char l end.

Definition has_segment (f : cie_fields) : bool := (byte_val (cf_version f) =? 4) || (byte_val (cf_version f) =? 5).

Definition encode_return_register (f : cie_fields) : list byte :=
  if byte_val (cf_version f) =? 1 then [byte_of (cf_return_register f)] else uleb (cf_return_register f).

Definition encode_augmentation (f : cie_fields) : list byte :=
  match cf_augmentation f with
  | None => []
  | Some l => uleb (len (l ≫= aug_data)) ++ (l ≫= aug_data)
  end.

(** What follows the identifier of a CIE, up to the instructions. *)
Definition encode_cie_body (f : cie_fields) : list byte :=
  [cf_version f] ++ (aug_string f ++ [x00]) ++
  (if has_segment f then [cf_address_size f; cf_segment_size f] else []) ++
  uleb (cf_code_factor f) ++ sleb (cf_data_factor f) ++ encode_return_register f ++ encode_augmentation f.

Definition cie_id (kind : section_kind) (wide : bool) : Z := if wide then cie64_value kind else cie32_value kind.

Definition cie_length (f : cie_fields) : Z :=
  Z.of_nat (id_size (cf_wide f)) + len (encode_cie_body f) + len (cf_instructions f).

Definition encode_cie (kind : section_kind) (f : cie_fields) : list byte :=
  encode_length (cf_wide f) (cie_length f) ++ le_bytes (id_size (cf_wide f)) (cie_id kind (cf_wide f)) ++
  encode_cie_body f ++ cf_instructions f.
End Format.

(** * Reading with the cursor of a section *)

Section Reading.
Context (A : addr_type) (bm : Z -> option byte).
Implicit Types (s : DwarfSection) (bs rest : list byte).

(** The cursor of the section is on the bytes. *)
Definition on_bytes s bs : Prop := at_bytes bm (sec_memory s) bs.

(** The section after [n] bytes were read *)
Definition sskip (n : Z) s : DwarfSection := put_sec_memory (skip n (sec_memory s)) s.

Lemma sskip_sskip n k s : sskip n (sskip k s) = sskip (k + n) s.
Proof. unfold sskip. cbn. by rewrite skip_skip. Qed.

Lemma cur_sskip n s : cur_offset_ (sec_memory (sskip n s)) = u64 (cur_offset_ (sec_memory s) + n).
Proof. done. Qed.

Lemma on_bytes_skip bs rest s : on_bytes s (bs ++ rest) -> on_bytes (sskip (len bs) s) rest.
Proof. intros Hs. by apply at_bytes_split in Hs as [_ Hs]. Qed.

(** A read that consumes the bytes it is on, and what follows. *)
Lemma read_step {B C} (m : DM (option B)) (k : B -> SEC (option C)) b bs rest s :
  on_bytes s (bs ++ rest) -> (forall d, at_bytes bm d bs -> m d = Done (Some b, skip (len bs) d)) ->
  obind (sec_read m) k s = k b (sskip (len bs) s) /\ on_bytes (sskip (len bs) s) rest.
Proof.
  intros Hs Hm. apply at_bytes_split in Hs as [Hs1 Hs2]. split; [|done].
  by rewrite (obind_run _ _ _ _ _ (sec_read_run _ _ _ _ (Hm _ Hs1))).
Qed.

Lemma read_le {C} (k : Z -> SEC (option C)) n z v rest s :
  z = Z.of_nat n -> on_bytes s (le_bytes n v ++ rest) -> in_u (8 * z) v -> z <= 8 ->
  obind (sec_read (ReadUnsigned z)) k s = k v (sskip z s) /\ on_bytes (sskip z s) rest.
Proof.
  intros -> Hs Hv Hn. rewrite <- (len_le_bytes n v). apply read_step; [done|]. intros d Hd.
  rewrite len_le_bytes, (ReadUnsigned_le bm d n v Hv ltac:(lia) Hd). rewrite wrap_small; [done|].
  apply (in_u_mono (8 * Z.of_nat n)); [lia|done].
Qed.

Lemma read_byte {C} (k : Z -> SEC (option C)) b rest s :
  on_bytes s (b :: rest) ->
  obind (sec_read (ReadUnsigned 1)) k s = k (byte_val b) (sskip 1 s) /\ on_bytes (sskip 1 s) rest.
Proof. intros Hs. apply (read_step _ _ (byte_val b) [b]); [done|]. intros d. apply ReadUnsigned_1_run. Qed.

Lemma read_uleb {C} (k : Z -> SEC (option C)) v rest s :
  on_bytes s (uleb v ++ rest) -> in_u 64 v ->
  obind (sec_read ReadULEB128) k s = k v (sskip (len (uleb v)) s) /\ on_bytes (sskip (len (uleb v)) s) rest.
Proof.
  intros Hs Hv. apply read_step; [done|]. intros d Hd. by rewrite (ReadULEB128_u bm d v Hv Hd), wrap_small.
Qed.

Lemma read_sleb {C} (k : Z -> SEC (option C)) v rest s :
  on_bytes s (sleb v ++ rest) -> in_s 63 v ->
  obind (sec_read ReadSLEB128) k s = k v (sskip (len (sleb v)) s) /\ on_bytes (sskip (len (sleb v)) s) rest.
Proof. intros Hs Hv. apply read_step; [done|]. intros d Hd. exact (ReadSLEB128_s bm d v Hv Hd). Qed.

(** An encoding that is not special, with a base that is set in [d]. *)
Definition encoding_ok (e : Z) (v : Z) (d : DwarfMemory) : Prop :=
  e <> DW_EH_PE_omit /\ e <> DW_EH_PE_aligned /\ base_of e d <> UINT64_MAX /\ operand_ok A (Z.land e 0x0f) v.

Lemma base_of_skip e n d : base_of e (skip n d) = base_of e d.
Proof. done. Qed.

Lemma read_encoded {C} (k : Z -> SEC (option C)) e v rest s :
  on_bytes s (encode_operand A (Z.land e 0x0f) v ++ rest) -> encoding_ok e v (sec_memory s) ->
  let n := len (encode_operand A (Z.land e 0x0f) v) in
  obind (sec_read (ReadEncodedValue A e)) k s = k (u64 (v + base_of e (sec_memory s))) (sskip n s) /\
  on_bytes (sskip n s) rest.
Proof.
  intros Hs (H1 & H2 & H3 & H4) n. apply at_bytes_split in Hs as [Hs1 Hs2]. split; [|done].
  by rewrite (obind_run _ _ _ _ _ (sec_read_run _ _ _ _ (ReadEncodedValue_based A bm e v _ H1 H2 H3 H4 Hs1))).
Qed.

Lemma bind_cur {B} (k : Z -> SEC B) s : bind (on_sec_memory cur_offset) k s = k (cur_offset_ (sec_memory s)) s.
Proof. by destruct s. Qed.

Lemma bind_set_cur {B} o (k : unit -> SEC B) s :
  bind (on_sec_memory (set_cur_offset o)) k s = k tt (put_sec_memory (put_cur o (sec_memory s)) s).
Proof. done. Qed.

Lemma bind_set_pc {B} o (k : unit -> SEC B) s :
  bind (on_sec_memory (set_pc_offset o)) k s = k tt (put_sec_memory (put_pc o (sec_memory s)) s).
Proof. done. Qed.

(** [set_cur_offset(cur_offset() + n)] *)
Lemma set_cur_skip n s : put_sec_memory (put_cur (u64 (cur_offset_ (sec_memory s) + n)) (sec_memory s)) s = sskip n s.
Proof. done. Qed.

Lemma obind_ret {B} (m : SEC (option B)) s : obind m (fun b => ret (Some b)) s = m s.
Proof. unfold obind, bind. by destruct (m s) as [[[b|] s']|]. Qed.

(** The length field and its format. *)
Lemma read_length {C} (k32 k64 : Z -> SEC (option C)) wide n rest s :
  on_bytes s (encode_length wide n ++ rest) -> length_ok wide n ->
  let w := len (encode_length wide n) in
  obind (sec_read (ReadUnsigned 4)) (fun v =>
    if v =? 0xffffffff then obind (sec_read (ReadUnsigned 8)) k64 else k32 v) s
  = (if wide then k64 else k32) n (sskip w s) /\
  on_bytes (sskip w s) rest.
Proof.
  unfold encode_length, length_ok. destruct wide; intros Hs Hn; cbv zeta.
  - rewrite <- app_assoc in Hs. rewrite len_app, !len_le_bytes.
    destruct (read_le (fun v => if v =? 0xffffffff then obind (sec_read (ReadUnsigned 8)) k64 else k32 v)
                4 4 _ _ _ eq_refl Hs) as [-> Hs1]; [done|lia|].
    change (0xffffffff =? 0xffffffff) with true. cbv iota.
    destruct (read_le k64 8 8 _ _ _ eq_refl Hs1) as [-> Hs2]; [done|lia|]. by rewrite sskip_sskip in *.
  - rewrite len_le_bytes.
    destruct (read_le (fun v => if v =? 0xffffffff then obind (sec_read (ReadUnsigned 8)) k64 else k32 v)
                4 4 _ _ _ eq_refl Hs) as [-> Hs1]; [unfold in_u; simpl; lia|lia|].
    by rewrite (proj2 (Z.eqb_neq _ _)) by lia.
Qed.
End Reading.

(** Make the next read with a lemma as above, which gets the continuation. *)
Tactic Notation "reading" uconstr(lem) "as" ident(H) :=
  lazymatch goal with
  | |- context [obind (sec_read _) ?k _] => let E := fresh "E" in destruct (lem k) as [E H]; [..|rewrite E; clear E]
  end.

(** * Common information entries *)

(** Reading an entry moves the cursor and sets its base for pc-relative values. *)
Definition same_but_pc (d d' : DwarfMemory) : Prop :=
  memory_ d' = memory_ d /\ data_offset_ d' = data_offset_ d /\ func_offset_ d' = func_offset_ d /\
  text_offset_ d' = text_offset_ d.

#[export] Instance same_but_pc_preorder : PreOrder same_but_pc.
Proof. split; [by intros d|]. intros d1 d2 d3 (?&?&?&?) (?&?&?&?). repeat split; congruence. Qed.

Lemma same_but_pc_skip n d d' : same_but_pc d d' -> same_but_pc d (skip n d').
Proof. done. Qed.

(** The base of an encoding when that of pc-relative values is [pc]. *)
Lemma base_of_same e pc d d' : same_but_pc d d' -> base_of e (put_pc pc d') = base_of e (put_pc pc d).
Proof. intros (_ & H1 & H2 & H3). unfold base_of. cbn. by rewrite H1, H2, H3. Qed.

Section Cie.
Context (A : addr_type) (bm : Z -> option byte) (kind : section_kind).
Implicit Types (s : DwarfSection) (f : cie_fields) (c : DwarfCie) (d : DwarfMemory).

(** What an item of the augmentation means, where pc-relative values are relative to [pc]. *)
Definition apply_augmentation (pc : Z) d c (a : augmentation) : DwarfCie :=
  match a with
  | AugLsda e => put_encodings (fde_address_encoding c) (byte_val e) (personality_handler c) c
  | AugPersonality e v =>
      put_encodings (fde_address_encoding c) (lsda_encoding c) (u64 (v + base_of (byte_val e) (put_pc pc d))) c
  | AugFdeEncoding e => put_encodings (byte_val e) (lsda_encoding c) (personality_handler c) c
  | AugFlag _ => c
  end.

Definition augmentation_ok (pc : Z) d (a : augmentation) : Prop :=
  match a with
  | AugPersonality e v => encoding_ok A (byte_val e) v (put_pc pc d)
  | AugFlag c => c <> x00 /\ c <> x4c /\ c <> x50 /\ c <> x52
  | _ => True
  end.

Definition items f : list augmentation := default [] (cf_augmentation f).

(** The entry of a CIE at [off], in a section whose base for pc-relative values is [pc]. *)
Definition cie_of (pc : Z) d (off : Z) f : DwarfCie :=
  let start := off + len (encode_length (cf_wide f) (cie_length A f)) in
  foldl (apply_augmentation pc d)
    (mkCie (byte_val (cf_version f)) (if cf_wide f then DW_EH_PE_sdata8 else DW_EH_PE_sdata4) DW_EH_PE_omit
       (if has_segment f then byte_val (cf_segment_size f) else 0)
       (map byte_val (aug_string f) ++ [0]) 0
       (start + Z.of_nat (id_size (cf_wide f)) + len (encode_cie_body A f)) (start + cie_length A f)
       (cf_code_factor f) (cf_data_factor f) (cf_return_register f))
    (items f).

(** The augmentation changes the encodings and the personality only. *)
Lemma foldl_augmentation pc d c l :
  let c' := foldl (apply_augmentation pc d) c l in
  cie_cfa_instructions_offset c' = cie_cfa_instructions_offset c /\
  cie_cfa_instructions_end c' = cie_cfa_instructions_end c.
Proof.
  revert c. induction l as [|a l IH]; intros c; [done|]. destruct (IH (apply_augmentation pc d c a)) as [E1 E2].
  cbn [foldl]. rewrite E1, E2. by destruct a.
Qed.

Record cie_ok (pc : Z) d f : Prop := {
  ck_length : length_ok (cf_wide f) (cie_length A f);
  ck_version : byte_val (cf_version f) ∈ [1; 3; 4; 5];
  ck_items : Forall (augmentation_ok pc d) (items f);
  ck_code : in_u 64 (cf_code_factor f);
  ck_data : in_s 63 (cf_data_factor f);
  ck_return : in_u (if byte_val (cf_version f) =? 1 then 8 else 64) (cf_return_register f)
}.

Lemma byte_val_inj b b' : byte_val b = byte_val b' -> b = b'.
Proof. intros E. by rewrite <- (byte_of_val b), E, byte_of_val. Qed.

Lemma aug_char_ne_0 pc d a : augmentation_ok pc d a -> aug_char a <> x00.
Proof. destruct a; try done. by intros (? & _). Qed.

(** The string is read up to its terminator. *)
Lemma read_augmentation_run fuel str acc rest s :
  on_bytes bm s (str ++ x00 :: rest) -> Forall (fun b => b <> x00) str -> (length str < fuel)%nat ->
  read_augmentation fuel acc s = Done (Some (acc ++ map byte_val str ++ [0]), sskip (len str + 1) s) /\
  on_bytes bm (sskip (len str + 1) s) rest.
Proof.
  revert fuel acc s. induction str as [|b str IH]; intros [|fuel] acc s Hs Hne Hf; try (simpl in Hf; lia).
  - cbn [read_augmentation]. reading (fun k => read_byte bm k x00 rest s Hs) as Hs1. by split.
  - apply Forall_cons in Hne as [Hb Hne]. cbn [read_augmentation].
    reading (fun k => read_byte bm k b _ s Hs) as Hs1. cbv zeta. destruct (Z.eqb_spec (byte_val b) 0) as [E|_]; [by apply (byte_val_inj b x00) in E|].
    destruct (IH fuel (acc ++ [byte_val b]) _ Hs1 Hne ltac:(simpl in Hf; lia)) as [-> Hs2].
    rewrite sskip_sskip in *. rewrite len_cons. replace (1 + len str + 1) with (1 + (len str + 1)) by lia.
    cbn [map app]. rewrite <- app_assoc. by split.
Qed.

Lemma read_item_run pc d a c rest s :
  on_bytes bm s (aug_data A a ++ rest) -> augmentation_ok pc d a -> sec_pc_offset s = pc ->
  same_but_pc d (sec_memory s) ->
  exists d', read_augmentation_item A (byte_val (aug_char a)) c s = Done (Some (apply_augmentation pc d c a), put_sec_memory d' s) /\
    same_but_pc d d' /\ on_bytes bm (put_sec_memory d' s) rest /\
    (in_u 64 (cur_offset_ (sec_memory s)) -> cur_offset_ d' = u64 (cur_offset_ (sec_memory s) + len (aug_data A a))).
Proof.
  intros Hs Ha Hpc Hd. destruct a as [e|e v|e|b]; cbn [aug_data aug_char apply_augmentation app] in *.
  - change (byte_val x4c) with 0x4c. unfold read_augmentation_item. cbn [Z.eqb Pos.eqb].
    reading (fun k => read_byte bm k e rest s Hs) as Hs1. eexists. split; [reflexivity|]. by split_and!.
  - change (byte_val x50) with 0x50. unfold read_augmentation_item. cbn [Z.eqb Pos.eqb].
    reading (fun k => read_byte bm k e _ s Hs) as Hs1. unfold bind at 1, get.
    unfold bind at 1, on_sec_memory, zoom, set_pc_offset, modify.
    set (s1 := put_sec_memory _ (sskip 1 s)). assert (on_bytes bm s1 (encode_based A e v ++ rest)) as Hs2 by exact Hs1.
    assert (base_of (byte_val e) (sec_memory s1) = base_of (byte_val e) (put_pc pc d)) as Eb.
    { subst s1. cbn [sec_memory put_sec_memory sskip sec_pc_offset]. rewrite Hpc. by apply base_of_same. }
    assert (encoding_ok A (byte_val e) v (sec_memory s1)) as Hv by (unfold encoding_ok; by rewrite Eb).
    reading (fun k => read_encoded A bm k (byte_val e) v rest s1 Hs2 Hv) as Hs3. rewrite Eb.
    eexists. split; [reflexivity|]. split; [done|]. split; [done|]. intros _. rewrite len_cons. cbn. by rewrite wrap_add_l, Z.add_assoc by lia.
  - change (byte_val x52) with 0x52. unfold read_augmentation_item. cbn [Z.eqb Pos.eqb].
    reading (fun k => read_byte bm k e rest s Hs) as Hs1. eexists. split; [reflexivity|]. by split_and!.
  - destruct Ha as (_ & H1 & H2 & H3). unfold read_augmentation_item.
    destruct (Z.eqb_spec (byte_val b) 0x4c) as [E|_]; [by apply (byte_val_inj b x4c) in E|].
    destruct (Z.eqb_spec (byte_val b) 0x50) as [E|_]; [by apply (byte_val_inj b x50) in E|].
    destruct (Z.eqb_spec (byte_val b) 0x52) as [E|_]; [by apply (byte_val_inj b x52) in E|].
    exists (sec_memory s). split; [by destruct s|]. split; [done|]. split; [by destruct s|]. intros Hc.
    change (len []) with 0. by rewrite Z.add_0_r, wrap_small.
Qed.

Lemma read_augmentation_data_run pc d l c rest s :
  on_bytes bm s ((l ≫= aug_data A) ++ rest) -> Forall (augmentation_ok pc d) l -> sec_pc_offset s = pc ->
  same_but_pc d (sec_memory s) ->
  exists d', read_augmentation_data A (map byte_val (map aug_char l) ++ [0]) c s
             = Done (Some (foldl (apply_augmentation pc d) c l), put_sec_memory d' s) /\ same_but_pc d d' /\
    (in_u 64 (cur_offset_ (sec_memory s)) -> cur_offset_ d' = u64 (cur_offset_ (sec_memory s) + len (l ≫= aug_data A))).
Proof.
  revert c s. induction l as [|a l IH]; intros c s Hs Hok Hpc Hd.
  - exists (sec_memory s). split; [by destruct s|]. split; [done|]. intros Hc. change (len _) with 0.
    by rewrite Z.add_0_r, wrap_small.
  - apply Forall_cons in Hok as [Ha Hok]. rewrite bind_cons, <- app_assoc in Hs.
    destruct (read_item_run pc d a c _ s Hs Ha Hpc Hd) as (d1 & Hr & Hd1 & Hs1 & Hc1).
    cbn [map app read_augmentation_data]. rewrite (obind_run _ _ _ _ _ Hr).
    destruct (IH (apply_augmentation pc d c a) _ Hs1 Hok Hpc Hd1) as (d2 & Hr2 & Hd2 & Hc2). exists d2.
    split; [done|]. split; [done|]. intros Hc. cbn in Hc2. rewrite Hc2 by (rewrite Hc1 by done; apply wrap_range; lia).
    rewrite Hc1, bind_cons, len_app by done. by rewrite wrap_add_l, Z.add_assoc by lia.
Qed.

Lemma aug_string_ne_0 pc d f : Forall (augmentation_ok pc d) (items f) -> Forall (fun b => b <> x00) (aug_string f).
Proof.
  unfold items, aug_string. destruct (cf_augmentation f) as [l|]; [|constructor]. cbn. intros Hok.
  constructor; [done|]. apply Forall_fmap. eapply Forall_impl; [exact Hok|]. apply aug_char_ne_0.
Qed.

Lemma fill_in_augmentation_run pc d f c rest s :
  on_bytes bm s (encode_augmentation A f ++ rest) -> Forall (augmentation_ok pc d) (items f) ->
  sec_pc_offset s = pc -> same_but_pc d (sec_memory s) -> augmentation_string c = map byte_val (aug_string f) ++ [0] ->
  len (items f ≫= aug_data A) < 2 ^ 64 -> in_u 64 (cur_offset_ (sec_memory s)) ->
  exists d', fill_in_augmentation A c s
    = Done (Some (foldl (apply_augmentation pc d)
                    (put_instructions_offset (u64 (cur_offset_ (sec_memory s) + len (encode_augmentation A f))) c)
                    (items f)), put_sec_memory d' s) /\ same_but_pc d d' /\
    cur_offset_ d' = u64 (cur_offset_ (sec_memory s) + len (encode_augmentation A f)).
Proof.
  unfold fill_in_augmentation, encode_augmentation, aug_string, items. intros Hs Hok Hpc Hd Estr Hlen Hcur. rewrite Estr.
  destruct (cf_augmentation f) as [l|]; cbn [from_option id] in *.
  - change (negb (nth 0 (map byte_val (x7a :: map aug_char l) ++ [0]) 0 =? 0x7a)) with false. cbv iota.
    rewrite <- app_assoc in Hs. assert (in_u 64 (len (l ≫= aug_data A))) as Hn by (pose proof (len_nonneg (l ≫= aug_data A)); unfold in_u; lia).
    reading (fun k => read_uleb bm k _ _ s Hs Hn) as Hs1.
    unfold bind at 1, on_sec_memory at 1, zoom, cur_offset, gets. cbv zeta. cbn [put_instructions_offset augmentation_string].
    rewrite Estr. cbn [map app tail]. 
    rewrite cur_sskip, wrap_add_l, <- Z.add_assoc, <- len_app by lia.
    match goal with |- context [read_augmentation_data _ _ ?c1 ?s1] =>
      destruct (read_augmentation_data_run pc d l c1 rest s1) as (d' & Hr & Hd' & Hc') end; [by destruct s|done|done|done|].
    exists d'. split; [exact Hr|]. split; [done|]. rewrite Hc' by (cbn; apply wrap_range; lia). cbn.
    rewrite len_app. by rewrite wrap_add_l, Z.add_assoc by lia.
  - exists (sec_memory s). unfold bind, on_sec_memory, zoom, cur_offset, gets. cbn. rewrite Z.add_0_r, wrap_small by done.
    split; [by destruct s|done].
Qed.

(** The part of [FillInCie] before the augmentation. *)
Definition cie_base f (c : DwarfCie) : DwarfCie :=
  put_factors (cf_code_factor f) (cf_data_factor f) (cf_return_register f)
    (put_segment_size (if has_segment f then byte_val (cf_segment_size f) else segment_size c)
       (put_augmentation (map byte_val (aug_string f) ++ [0]) (put_version (byte_val (cf_version f)) c))).

Lemma FillInCie_run fuel pc d f c rest s :
  on_bytes bm s (encode_cie_body A f ++ rest) -> cie_ok pc d f ->
  sec_pc_offset s = pc -> same_but_pc d (sec_memory s) -> augmentation_string c = [] ->
  len (encode_cie_body A f) < 2 ^ 64 -> (length (aug_string f) < fuel)%nat ->
  exists d', FillInCie A fuel c s
    = Done (Some (foldl (apply_augmentation pc d)
                    (put_instructions_offset (u64 (cur_offset_ (sec_memory s) + len (encode_cie_body A f))) (cie_base f c))
                    (items f)), put_sec_memory d' s) /\ same_but_pc d d' /\
    cur_offset_ d' = u64 (cur_offset_ (sec_memory s) + len (encode_cie_body A f)).
Proof.
  intros Hs Hok Hpc Hd Hc Hlen Hfuel. unfold encode_cie_body in Hs. rewrite <- !app_assoc in Hs.
  unfold FillInCie. cbn [app] in Hs.
  reading (fun k => read_byte bm k _ _ s Hs) as Hs1. cbv zeta.
  assert (negb ((byte_val (cf_version f) =? 1) || (byte_val (cf_version f) =? 3) || (byte_val (cf_version f) =? 4)
            || (byte_val (cf_version f) =? 5)) = false) as ->.
  { pose proof (ck_version _ _ _ Hok) as Hv. rewrite !elem_of_cons in Hv.
    by destruct Hv as [-> |[-> |[-> |[-> |?%not_elem_of_nil]]]]. }
  change (augmentation_string (put_version (byte_val (cf_version f)) c)) with (augmentation_string c). rewrite Hc.
  destruct (read_augmentation_run fuel (aug_string f) [] _ _ Hs1 (aug_string_ne_0 pc d f (ck_items _ _ _ Hok)) Hfuel) as [Hr Hs2].
  rewrite (obind_run _ _ _ _ _ Hr). clear Hr. rewrite sskip_sskip in Hs2 |- *. cbn [app].
  set (n2 := 1 + (len (aug_string f) + 1)) in *.
  (* the address and segment sizes *)
  match goal with |- context [obind (if ?b then ?m1 else ?m2) ?k] => set (K := k); set (seg := if b then m1 else m2) end.
  set (c2 := put_augmentation _ _) in seg.
  assert (exists n3, seg (sskip n2 s) = Done (Some (put_segment_size (if has_segment f then byte_val (cf_segment_size f) else segment_size c) c2), sskip n3 s)
    /\ n3 = n2 + len (if has_segment f then [cf_address_size f; cf_segment_size f] else [])
    /\ on_bytes bm (sskip n3 s) (uleb (cf_code_factor f) ++ sleb (cf_data_factor f) ++ encode_return_register f ++ encode_augmentation A f ++ rest)) as (n3 & Hseg & En3 & Hs3).
  { subst seg. fold (has_segment f). destruct (has_segment f).
    - rewrite bind_cur, bind_set_cur, set_cur_skip, sskip_sskip.
      apply (on_bytes_skip bm [cf_address_size f]) in Hs2. rewrite sskip_sskip in Hs2.
      change (len [cf_address_size f]) with 1 in Hs2.
      reading (fun k => read_byte bm k (cf_segment_size f) _ _ Hs2) as Hs3.
      exists (n2 + 1 + 1). rewrite sskip_sskip in *. split; [done|]. split; [|exact Hs3].
      change (len [cf_address_size f; cf_segment_size f]) with 2. lia.
    - exists n2. split; [by destruct c|]. split; [change (len []) with 0; lia|done]. }
  rewrite (obind_run _ _ _ _ _ Hseg). subst K. cbv beta.
  reading (fun k => read_uleb bm k _ _ _ Hs3 (ck_code _ _ _ Hok)) as Hs4.
  reading (fun k => read_sleb bm k _ _ _ Hs4 (ck_data _ _ _ Hok)) as Hs5.
  rewrite !sskip_sskip, ?Z.add_assoc in Hs5 |- *. set (n5 := n3 + len (uleb (cf_code_factor f)) + len (sleb (cf_data_factor f))) in *.
  match goal with |- context [obind (if ?b then ?m1 else ?m2) ?k] => set (K := k); set (ra := if b then m1 else m2) end.
  assert (ra (sskip n5 s) = Done (Some (cf_return_register f), sskip (n5 + len (encode_return_register f)) s) /\
    on_bytes bm (sskip (n5 + len (encode_return_register f)) s) (encode_augmentation A f ++ rest)) as [Hra Hs6].
  { pose proof (ck_return _ _ _ Hok) as Hret. unfold encode_return_register in *. subst ra.
    destruct (byte_val (cf_version f) =? 1).
    - rewrite <- obind_ret. cbn [app] in Hs5. reading (fun k => read_byte bm k _ _ _ Hs5) as Hs6.
      rewrite sskip_sskip, byte_val_of in *. change (cf_return_register f mod 256) with (wrap 8 (cf_return_register f)).
      by rewrite wrap_small.
    - rewrite <- obind_ret. reading (fun k => read_uleb bm k _ _ _ Hs5 Hret) as Hs6. by rewrite sskip_sskip in *. }
  rewrite (obind_run _ _ _ _ _ Hra). subst K. cbv beta.
  destruct (fill_in_augmentation_run pc d f (cie_base f c) rest _ Hs6 (ck_items _ _ _ Hok) Hpc Hd eq_refl) as (d' & Hrun & Hd' & Hc');
    [|apply wrap_range; lia|].
  { unfold encode_cie_body in Hlen. rewrite !len_app in Hlen. unfold encode_augmentation, items in *. destruct (cf_augmentation f) as [l|]; cbn [from_option id] in *; [|done].
    rewrite len_app in Hlen. pose proof (len_nonneg (uleb (len (l ≫= aug_data A)))).
    repeat match goal with H : context [len ?x] |- _ => lazymatch goal with _ : 0 <= len x |- _ => fail | _ => pose proof (len_nonneg x) end end. lia. }
  exists d'. rewrite cur_sskip, wrap_add_l, <- Z.add_assoc in Hrun, Hc' by lia.
  assert (n5 + len (encode_return_register f) + len (encode_augmentation A f) = len (encode_cie_body A f)) as E.
  { unfold encode_cie_body. rewrite !len_app. subst n5 n3 n2. change (len [cf_version f]) with 1. change (len [x00]) with 1. lia. }
  rewrite E in Hrun, Hc'. by split.
Qed.

(** The header of an entry in the memory: what follows the length. *)
Lemma len_le_val n v : in_u (8 * Z.of_nat n) v -> le_val (le_bytes n v) = v.
Proof. intros Hv. rewrite le_val_bytes. by apply (wrap_small (8 * Z.of_nat n)). Qed.

Lemma cie_id_range wide : in_u (8 * Z.of_nat (id_size wide)) (cie_id kind wide).
Proof. by destruct wide, kind. Qed.

Lemma FillInCieHeader_run f rest s :
  on_bytes bm s (encode_length (cf_wide f) (cie_length A f) ++
                 le_bytes (id_size (cf_wide f)) (cie_id kind (cf_wide f)) ++ rest) ->
  length_ok (cf_wide f) (cie_length A f) ->
  let n := len (encode_length (cf_wide f) (cie_length A f)) in
  let n' := n + Z.of_nat (id_size (cf_wide f)) in
  FillInCieHeader kind new_cie s
  = Done (Some (with_header (if cf_wide f then DW_EH_PE_sdata8 else DW_EH_PE_sdata4)
                  (u64 (cur_offset_ (sec_memory s) + n + cie_length A f)) new_cie), sskip n' s) /\
  on_bytes bm (sskip n' s) rest.
Proof.
  intros Hs Hok. cbv zeta. unfold FillInCieHeader. pose proof (cie_id_range (cf_wide f)) as Hid.
  match goal with |- obind _ (fun v => if _ then obind _ ?k64 else @?k32 v) _ = _ /\ _ =>
    destruct (read_length bm k32 k64 _ _ _ s Hs Hok) as [E Hs1] end.
  cbv beta in E. rewrite E. clear E. destruct (cf_wide f); cbn [id_size] in *; rewrite bind_cur.
  - reading (fun k => read_le bm k 8 8 _ _ _ eq_refl Hs1 Hid ltac:(lia)) as Hs2. rewrite sskip_sskip in *.
    unfold cie_id. rewrite Z.eqb_refl. cbn [negb]. split; [|exact Hs2]. unfold ret. do 4 f_equal.
    by rewrite cur_sskip, wrap_add_l.
  - reading (fun k => read_le bm k 4 4 _ _ _ eq_refl Hs1 Hid ltac:(lia)) as Hs2. rewrite sskip_sskip in *.
    unfold cie_id. rewrite Z.eqb_refl. cbn [negb]. split; [|exact Hs2]. unfold ret. do 4 f_equal.
    by rewrite cur_sskip, wrap_add_l.
Qed.

(** The section holds the CIE: its bytes, which do not reach the end of the address space. *)
Record holds_cie (pc : Z) d (fuel : nat) (off : Z) f : Prop := {
  ca_ok : cie_ok pc d f;
  ca_memory : ByteMemory (memory_ d) bm;
  ca_offset : 0 <= off;
  ca_bytes : holds bm off (encode_cie A kind f);
  ca_end : off + len (encode_cie A kind f) < 2 ^ 64;
  ca_fuel : (length (aug_string f) < fuel)%nat
}.

Lemma len_encode_cie f :
  len (encode_cie A kind f)
  = len (encode_length (cf_wide f) (cie_length A f)) + Z.of_nat (id_size (cf_wide f)) +
    len (encode_cie_body A f) + len (cf_instructions f).
Proof. unfold encode_cie. rewrite !len_app, len_le_bytes. lia. Qed.

Lemma at_put_cur off bs d s :
  ByteMemory (memory_ d) bm -> same_but_pc d (sec_memory s) -> 0 <= off -> off + len bs < 2 ^ 64 -> holds bm off bs ->
  on_bytes bm (put_sec_memory (put_cur off (sec_memory s)) s) bs.
Proof.
  intros Hm (E & _) Ho He Hh. pose proof (len_nonneg bs). split; [cbn; by rewrite E|]. split; [unfold in_u; cbn; lia|done].
Qed.

Lemma GetCieFromOffset_run fuel pc d off f s :
  holds_cie pc d fuel off f -> sec_pc_offset s = pc -> same_but_pc d (sec_memory s) ->
  (cie_entries_ s !! off = None \/ cie_entries_ s !! off = Some (cie_of pc d off f)) ->
  exists d', GetCieFromOffset A kind fuel off s
    = Done (Some off, put_cie_entries (<[off := cie_of pc d off f]> (cie_entries_ s)) (put_sec_memory d' s)) /\
    same_but_pc d d'.
Proof.
  intros [Hok Hm Ho Hh He Hf] Hpc Hd Hc. unfold GetCieFromOffset, bind at 1, get. destruct Hc as [-> | Hc].
  2:{ rewrite Hc. exists (sec_memory s). split; [|done]. rewrite insert_id by done. by destruct s. }
  rewrite bind_set_cur. pose proof (at_put_cur _ _ d s Hm Hd Ho He Hh) as Hs. set (s0 := put_sec_memory _ s) in *.
  rewrite len_encode_cie in He. pose proof (len_nonneg (encode_cie_body A f)). pose proof (len_nonneg (cf_instructions f)).
  pose proof (len_nonneg (encode_length (cf_wide f) (cie_length A f))).
  destruct (FillInCieHeader_run f _ s0 Hs (ck_length _ _ _ Hok)) as [Hr1 Hs1].
  set (n' := len _ + Z.of_nat _) in *.
  destruct (FillInCie_run fuel pc d f (with_header (if cf_wide f then DW_EH_PE_sdata8 else DW_EH_PE_sdata4)
     (u64 (cur_offset_ (sec_memory s0) + len (encode_length (cf_wide f) (cie_length A f)) + cie_length A f)) new_cie) _
     (sskip n' s0) Hs1 Hok Hpc Hd eq_refl) as (d' & Hr2 & Hd' & _); [lia|done|].
  exists d'. split; [|done]. unfold bind at 1. rewrite (obind_run _ _ _ _ _ Hr1), Hr2.
  rewrite cur_sskip, wrap_add_l by lia. change (cur_offset_ (sec_memory s0)) with off. subst n'.
  unfold cie_of. cbv zeta. set (n := len (encode_length (cf_wide f) (cie_length A f))) in *.
  rewrite !(wrap_small 64) by (unfold in_u, cie_length; lia).
  unfold bind, modify, ret. by rewrite !Z.add_assoc.
Qed.
End Cie.

(** * Frame description entries *)

Section Fde.
Context (A : addr_type) (bm : Z -> option byte) (kind : section_kind).
Implicit Types (s : DwarfSection) (f : fde_fields) (c : DwarfCie) (d : DwarfMemory).

Definition encode_lsda c f : list byte :=
  if lsda_encoding c =? DW_EH_PE_omit then [] else encode_operand A (Z.land (lsda_encoding c) 0x0f) (ff_lsda f).

Definition encode_fde_augmentation c f : list byte :=
  if has_augmentation c
  then uleb (len (encode_lsda c f) + len (ff_padding f)) ++ encode_lsda c f ++ ff_padding f else [].

Definition encode_address c (v : Z) : list byte := encode_operand A (Z.land (fde_address_encoding c) 0x0f) v.

(** What follows the pointer to the CIE, up to the instructions. *)
Definition encode_fde_body c f : list byte :=
  ff_segment f ++ encode_address c (ff_start f) ++ encode_address c (ff_size f) ++ encode_fde_augmentation c f.

Definition fde_length c f : Z :=
  Z.of_nat (id_size (ff_wide f)) + len (encode_fde_body c f) + len (ff_instructions f).

(** The pointer to the CIE at [cie_off] is relative to itself in [.eh_frame], to the section at
    [start] otherwise. *)
Definition pointer_pos (off : Z) c f : Z := off + len (encode_length (ff_wide f) (fde_length c f)).
Definition cie_pointer (start off cie_off : Z) c f : Z :=
  match kind with EhFrame => pointer_pos off c f - cie_off | DebugFrame => cie_off - start end.

Definition encode_fde (start off cie_off : Z) c f : list byte :=
  encode_length (ff_wide f) (fde_length c f) ++
  le_bytes (id_size (ff_wide f)) (cie_pointer start off cie_off c f) ++ encode_fde_body c f ++ ff_instructions f.

(** The first address of the function. In [.eh_frame] it is relative to the address of the field,
    and the code takes for granted that this has 4 bytes. *)
Definition fde_pc_start (bias off : Z) d c f : Z :=
  let e := fde_address_encoding c in
  let raw := u64 (ff_start f + base_of e (put_pc bias d)) in
  match kind with
  | EhFrame =>
      u64 (raw + (pointer_pos off c f + Z.of_nat (id_size (ff_wide f)) + segment_size c +
                  len (encode_address c (ff_start f))) - 4)
  | DebugFrame => raw
  end.

Definition fde_lsda (pc : Z) d c f : Z :=
  if has_augmentation c && negb (lsda_encoding c =? DW_EH_PE_omit)
  then u64 (ff_lsda f + base_of (lsda_encoding c) (put_pc pc d)) else 0.

(** The entry of an FDE at [off], whose CIE is [c] at [cie_off], in a section with the load bias
    [bias] and the base [pc]. *)
Definition fde_of (bias pc : Z) d (off cie_off : Z) c f : DwarfFde :=
  let start := fde_pc_start bias off d c f in
  mkFde cie_off (pointer_pos off c f + Z.of_nat (id_size (ff_wide f)) + len (encode_fde_body c f))
    (pointer_pos off c f + fde_length c f) start
    (u64 (u64 (ff_size f + base_of (fde_address_encoding c) (put_pc 0 d)) + start)) (fde_lsda pc d c f) (Some cie_off).

Record fde_ok (start bias pc : Z) d (off cie_off : Z) c f : Prop := {
  fk_length : length_ok (ff_wide f) (fde_length c f);
  fk_pointer : in_u (8 * Z.of_nat (id_size (ff_wide f))) (cie_pointer start off cie_off c f);
  fk_id : cie_pointer start off cie_off c f <> cie_id kind (ff_wide f);
  fk_segment : len (ff_segment f) = segment_size c;
  fk_start : encoding_ok A (fde_address_encoding c) (ff_start f) (put_pc bias d);
  fk_size : encoding_ok A (fde_address_encoding c) (ff_size f) (put_pc 0 d);
  fk_lsda : lsda_encoding c = DW_EH_PE_omit \/ encoding_ok A (lsda_encoding c) (ff_lsda f) (put_pc pc d)
}.

Lemma on_bytes_same s s' bs :
  memory_ (sec_memory s') = memory_ (sec_memory s) -> cur_offset_ (sec_memory s') = cur_offset_ (sec_memory s) ->
  on_bytes bm s bs -> on_bytes bm s' bs.
Proof. unfold on_bytes, at_bytes. by intros -> ->. Qed.

(** The augmentation, and the cursor behind it. *)
Lemma read_lsda_run pc d c f fde rest s :
  on_bytes bm s (encode_fde_augmentation c f ++ rest) -> 
  lsda_encoding c = DW_EH_PE_omit \/ encoding_ok A (lsda_encoding c) (ff_lsda f) (put_pc pc d) ->
  sec_pc_offset s = pc -> same_but_pc d (sec_memory s) -> in_u 64 (cur_offset_ (sec_memory s)) ->
  len (encode_fde_augmentation c f) < 2 ^ 64 -> lsda_address fde = 0 ->
  exists d', read_lsda A c fde s = Done (Some (fde_lsda pc d c f), put_sec_memory d' s) /\ same_but_pc d d' /\
    cur_offset_ d' = u64 (cur_offset_ (sec_memory s) + len (encode_fde_augmentation c f)).
Proof.
  intros Hs Hok Hpc Hd Hc Hlen Hl. unfold read_lsda, fde_lsda, encode_fde_augmentation in *.
  destruct (has_augmentation c).
  2:{ exists (sec_memory s). rewrite Hl. split; [by destruct s|]. split; [done|].
      change (len []) with 0. by rewrite Z.add_0_r, wrap_small. }
  rewrite len_app in Hlen. rewrite <- !app_assoc in Hs.
  set (n := len (encode_lsda c f) + len (ff_padding f)) in *. cbn [andb].
  assert (in_u 64 n) as Hn.
  { pose proof (len_nonneg (uleb n)). pose proof (len_nonneg (encode_lsda c f)). pose proof (len_nonneg (ff_padding f)).
    rewrite len_app in Hlen. unfold in_u. lia. }
  reading (fun k => read_uleb bm k _ _ s Hs Hn) as Hs1. rewrite bind_cur. unfold bind at 1, get. rewrite bind_set_pc.
  set (s1 := put_sec_memory _ (sskip _ s)).
  assert (on_bytes bm s1 (encode_lsda c f ++ ff_padding f ++ rest)) as Hs2 by exact Hs1. unfold encode_lsda in Hs2.
  assert (exists k, obind (sec_read (ReadEncodedValue A (lsda_encoding c)))
    (fun lsda => on_sec_memory (set_cur_offset (u64 (cur_offset_ (sec_memory (sskip (len (uleb n)) s)) + n))) ;; ret (Some lsda)) s1
    = Done (Some (if negb (lsda_encoding c =? DW_EH_PE_omit) then u64 (ff_lsda f + base_of (lsda_encoding c) (put_pc pc d)) else 0),
        put_sec_memory (put_cur (u64 (cur_offset_ (sec_memory (sskip (len (uleb n)) s)) + n)) k) s) /\ same_but_pc d k) as (k & -> & Hk).
  { destruct (Z.eqb_spec (lsda_encoding c) DW_EH_PE_omit) as [E|E].
    - assert (ReadEncodedValue A (lsda_encoding c) (sec_memory s1) = Done (Some 0, sec_memory s1)) as Hr by (by rewrite E).
      rewrite (obind_run _ _ _ _ _ (sec_read_run _ _ _ _ Hr)). by exists (sec_memory s1).
    - destruct Hok as [|Hok]; [done|].
      assert (base_of (lsda_encoding c) (sec_memory s1) = base_of (lsda_encoding c) (put_pc pc d)) as Eb.
      { subst s1. cbn [sec_memory put_sec_memory sskip sec_pc_offset]. rewrite Hpc. by apply base_of_same. }
      assert (encoding_ok A (lsda_encoding c) (ff_lsda f) (sec_memory s1)) as Hv by (unfold encoding_ok; by rewrite Eb).
      reading (fun k => read_encoded A bm k _ _ _ s1 Hs2 Hv) as Hs3. rewrite Eb.
      by exists (sec_memory (sskip (len (encode_operand A (Z.land (lsda_encoding c) 15) (ff_lsda f))) s1)). }
  eexists. split; [reflexivity|]. split; [done|]. cbn [cur_offset_ put_cur].
  rewrite cur_sskip, wrap_add_l, !len_app, <- Z.add_assoc by lia. by subst n.
Qed.

(** What follows an identifier is [s] with the cursor behind it. *)
Lemma GetCieOffset_run (wide : bool) start off cie_off c f s :
  cur_offset_ (sec_memory s) = u64 (pointer_pos off c f + Z.of_nat (id_size wide)) ->
  entries_offset_ s = start -> in_u 64 cie_off ->
  (if wide then GetCieOffsetFromFde64 kind (cie_pointer start off cie_off c f)
   else GetCieOffsetFromFde32 kind (cie_pointer start off cie_off c f)) s = Done (cie_off, s).
Proof.
  intros Hc He Hr. unfold GetCieOffsetFromFde64, GetCieOffsetFromFde32, cie_pointer.
  destruct wide, kind; cbn [id_size] in Hc; rewrite ?bind_cur, ?Hc; unfold ret, gets;
    rewrite ?He; do 2 f_equal; change (Z.of_nat 8) with 8; change (Z.of_nat 4) with 4; rewrite <- ?Z.sub_add_distr, ?wrap_sub_l by lia;
    (etransitivity; [|apply (wrap_small 64 _ Hr)]); f_equal; lia.
Qed.

Lemma FillInFdeHeader_run start bias pc d off cie_off c f rest s :
  on_bytes bm s (encode_length (ff_wide f) (fde_length c f) ++
                 le_bytes (id_size (ff_wide f)) (cie_pointer start off cie_off c f) ++ rest) ->
  fde_ok start bias pc d off cie_off c f -> cur_offset_ (sec_memory s) = off -> entries_offset_ s = start ->
  in_u 64 cie_off ->
  let n' := len (encode_length (ff_wide f) (fde_length c f)) + Z.of_nat (id_size (ff_wide f)) in
  FillInFdeHeader kind new_fde s
  = Done (Some (put_fde_header cie_off (u64 (pointer_pos off c f + fde_length c f)) new_fde), sskip n' s) /\
  on_bytes bm (sskip n' s) rest.
Proof.
  intros Hs Hok Hc He Hr. cbv zeta. unfold FillInFdeHeader.
  pose proof (fk_pointer _ _ _ _ _ _ _ _ Hok) as Hp. pose proof (fk_id _ _ _ _ _ _ _ _ Hok) as Hid.
  match goal with |- obind _ (fun v => if _ then obind _ ?k64 else @?k32 v) _ = _ /\ _ =>
    destruct (read_length bm k32 k64 _ _ _ s Hs (fk_length _ _ _ _ _ _ _ _ Hok)) as [E Hs1] end.
  cbv beta in E. rewrite E. clear E. 
  pose proof (GetCieOffset_run (ff_wide f) start off cie_off c f (sskip (len (encode_length (ff_wide f) (fde_length c f)) + Z.of_nat (id_size (ff_wide f))) s)) as Hg.
  rewrite cur_sskip, Hc, Z.add_assoc in Hg. specialize (Hg eq_refl He Hr). unfold cie_id in Hid.
  destruct (ff_wide f) eqn:Ew; cbn [id_size] in *;
    change (Z.of_nat 8) with 8 in *; change (Z.of_nat 4) with 4 in *; rewrite bind_cur.
  - reading (fun k => read_le bm k 8 8 _ _ _ eq_refl Hs1 Hp ltac:(lia)) as Hs2. rewrite sskip_sskip in *.
    rewrite (proj2 (Z.eqb_neq _ _) Hid). split; [|exact Hs2]. unfold bind at 1. rewrite Hg. unfold ret. 
    unfold pointer_pos. rewrite Ew. by rewrite cur_sskip, wrap_add_l, Hc.
  - reading (fun k => read_le bm k 4 4 _ _ _ eq_refl Hs1 Hp ltac:(lia)) as Hs2. rewrite sskip_sskip in *.
    rewrite (proj2 (Z.eqb_neq _ _) Hid). split; [|exact Hs2]. unfold bind at 1. rewrite Hg. unfold ret. 
    unfold pointer_pos. rewrite Ew. by rewrite cur_sskip, wrap_add_l, Hc.
Qed.

(** ** The addresses of an FDE *)

Lemma on_sec_memory_run {B} (m : DM B) s b d :
  m (sec_memory s) = Done (b, d) -> on_sec_memory m s = Done (b, put_sec_memory d s).
Proof. intros Hm. unfold on_sec_memory, zoom. by rewrite Hm. Qed.

Lemma read_start_run bias d c f rest s :
  on_bytes bm s (encode_address c (ff_start f) ++ rest) -> encoding_ok A (fde_address_encoding c) (ff_start f) (put_pc bias d) ->
  same_but_pc d (sec_memory s) -> pc_offset_ (sec_memory s) = bias ->
  let s' := sskip (len (encode_address c (ff_start f))) s in
  on_sec_memory (ReadEncodedValue A (fde_address_encoding c)) s
  = Done (Some (u64 (ff_start f + base_of (fde_address_encoding c) (put_pc bias d))), s') /\ on_bytes bm s' rest.
Proof.
  intros Hs Hok Hd Hpc. cbv zeta.
  assert (base_of (fde_address_encoding c) (sec_memory s) = base_of (fde_address_encoding c) (put_pc bias d)) as Eb.
  { replace (sec_memory s) with (put_pc bias (sec_memory s)) by (rewrite <- Hpc; by destruct (sec_memory s)). by apply base_of_same. }
  destruct Hok as (H1 & H2 & H3 & H4). rewrite <- Eb in H3. apply at_bytes_split in Hs as [Hs1 Hs2]. split; [|done].
  rewrite <- Eb. by apply on_sec_memory_run, (ReadEncodedValue_based A bm).
Qed.

Lemma AdjustPc_run bias off d c f s :
  cur_offset_ (sec_memory s) = pointer_pos off c f + Z.of_nat (id_size (ff_wide f)) + segment_size c + len (encode_address c (ff_start f)) ->
  AdjustPcFromFde kind (u64 (ff_start f + base_of (fde_address_encoding c) (put_pc bias d))) s
  = Done (fde_pc_start bias off d c f, s).
Proof.
  intros Hc. unfold AdjustPcFromFde, fde_pc_start. destruct kind; [|done]. rewrite bind_cur, Hc. done.
Qed.

Lemma FillInFde_run fuel start bias pc d off cie_off cf f fin rest s :
  let c := cie_of A pc d cie_off cf in
  let n0 := pointer_pos off c f + Z.of_nat (id_size (ff_wide f)) in
  on_bytes bm s (encode_fde_body c f ++ rest) -> holds_cie A bm kind pc d fuel cie_off cf ->
  fde_ok start bias pc d off cie_off c f ->
  cie_entries_ s !! cie_off = None \/ cie_entries_ s !! cie_off = Some c ->
  cur_offset_ (sec_memory s) = n0 -> 0 <= off -> n0 + len (encode_fde_body c f) < 2 ^ 64 ->
  load_bias_ s = bias -> sec_pc_offset s = pc -> same_but_pc d (sec_memory s) -> 
  exists d', FillInFde A kind fuel (put_fde_header cie_off fin new_fde) s
    = Done (Some (mkFde cie_off (n0 + len (encode_fde_body c f)) fin (fde_pc_start bias off d c f)
                    (pc_end (fde_of bias pc d off cie_off c f)) (fde_lsda pc d c f) (Some cie_off)),
            put_cie_entries (<[cie_off := c]> (cie_entries_ s)) (put_sec_memory d' s)) /\ same_but_pc d d' /\
    cur_offset_ d' = n0 + len (encode_fde_body c f).
Proof.
  intros c n0 Hs Hca Hok Hcie Hcur Ho Hlen Hbias Hpc Hd. unfold FillInFde. rewrite bind_cur.
  destruct (GetCieFromOffset_run A bm kind fuel pc d cie_off cf s Hca Hpc Hd Hcie) as (d1 & Hr & Hd1). fold c in Hr.
  change (DwarfStructs.cie_offset (put_fde_header cie_off fin new_fde)) with cie_off.
  rewrite (obind_run _ _ _ _ _ Hr). set (s1 := put_cie_entries _ _).
  unfold bind at 1. assert (deref_cie cie_off s1 = Done (c, s1)) as ->.
  { unfold deref_cie, bind, get. cbn. by rewrite lookup_insert_eq. }
  cbv zeta. rewrite bind_set_cur. unfold bind at 1, get. rewrite bind_set_pc. 
  set (s2 := put_sec_memory _ (put_sec_memory _ s1)).
  unfold encode_fde_body in Hs. rewrite <- !app_assoc in Hs. apply (on_bytes_skip bm) in Hs.
  rewrite (fk_segment _ _ _ _ _ _ _ _ Hok) in Hs.
  assert (on_bytes bm s2 (encode_address c (ff_start f) ++ encode_address c (ff_size f) ++ encode_fde_augmentation c f ++ rest)) as Hs2.
  { apply (on_bytes_same (sskip (segment_size c) s)); [|done|exact Hs]. cbn. destruct Hd as (-> & _), Hd1 as (-> & _). done. }
  unfold encode_fde_body in Hlen. rewrite !len_app, (fk_segment _ _ _ _ _ _ _ _ Hok) in Hlen.
  pose proof (len_nonneg (encode_address c (ff_start f))). pose proof (len_nonneg (encode_address c (ff_size f))).
  pose proof (len_nonneg (encode_fde_augmentation c f)).
  assert (0 <= segment_size c) as Hseg by (rewrite <- (fk_segment _ _ _ _ _ _ _ _ Hok); apply len_nonneg).
  assert (0 <= n0) as Hn0 by (unfold n0, pointer_pos; pose proof (len_nonneg (encode_length (ff_wide f) (fde_length c f))); lia).
  destruct (read_start_run bias d c f _ s2 Hs2 (fk_start _ _ _ _ _ _ _ _ Hok) Hd1 Hbias) as [Hr2 Hs3].
  unfold bind at 1. rewrite Hr2. cbv iota.
  assert (cur_offset_ (sec_memory (sskip (len (encode_address c (ff_start f))) s2))
          = n0 + segment_size c + len (encode_address c (ff_start f))) as Ecur.
  { cbn [sskip skip sec_memory put_sec_memory put_cur cur_offset_ put_pc s2]. rewrite wrap_add_l, Hcur by lia. apply wrap_small. unfold in_u. lia. }
  unfold bind at 1. rewrite (AdjustPc_run bias off d c f _ Ecur), bind_set_pc.
  set (s3 := put_sec_memory (put_pc 0 _) _).
  assert (on_bytes bm s3 (encode_address c (ff_size f) ++ encode_fde_augmentation c f ++ rest)) as Hs3' by exact Hs3.
  assert (base_of (fde_address_encoding c) (sec_memory s3) = base_of (fde_address_encoding c) (put_pc 0 d)) as Eb
    by (by apply base_of_same).
  assert (encoding_ok A (fde_address_encoding c) (ff_size f) (sec_memory s3)) as Hv
    by (pose proof (fk_size _ _ _ _ _ _ _ _ Hok) as Hz; unfold encoding_ok in *; by rewrite Eb).
  reading (fun k => read_encoded A bm k _ _ _ s3 Hs3' Hv) as Hs4. rewrite Eb. fold (encode_address c (ff_size f)) in *.
  set (s4 := sskip _ s3) in *.
  assert (cur_offset_ (sec_memory s4) = n0 + segment_size c + len (encode_address c (ff_start f)) + len (encode_address c (ff_size f))) as Ecur4.
  { change (cur_offset_ (sec_memory s4)) with (u64 (cur_offset_ (sec_memory (sskip (len (encode_address c (ff_start f))) s2)) + len (encode_address c (ff_size f)))).
    rewrite Ecur. apply wrap_small. unfold in_u. lia. }
  cbv zeta.
  destruct (read_lsda_run pc d c f (put_fde_header cie_off fin new_fde) rest s4 Hs4 (fk_lsda _ _ _ _ _ _ _ _ Hok) Hpc Hd1) as (d5 & Hr5 & Hd5 & Ecur5);
    [unfold in_u; lia|lia|done|].
  rewrite (obind_run _ _ _ _ _ Hr5), bind_cur. exists d5.
  assert (cur_offset_ d5 = n0 + len (encode_fde_body c f)) as Ec.
  { rewrite Ecur5, Ecur4, wrap_small by (unfold in_u; lia). unfold encode_fde_body.
    by rewrite !len_app, (fk_segment _ _ _ _ _ _ _ _ Hok), !Z.add_assoc. }
  split; [|by split]. unfold ret. change (cur_offset_ (sec_memory (put_sec_memory d5 s4))) with (cur_offset_ d5). by rewrite Ec.
Qed.

(** The section holds the FDE and its CIE. *)
Record holds_fde (start bias pc : Z) d (fuel : nat) (off cie_off : Z) cf f : Prop := {
  fa_cie : holds_cie A bm kind pc d fuel cie_off cf;
  fa_ok : fde_ok start bias pc d off cie_off (cie_of A pc d cie_off cf) f;
  fa_offset : 0 <= off;
  fa_bytes : holds bm off (encode_fde start off cie_off (cie_of A pc d cie_off cf) f);
  fa_end : off + len (encode_fde start off cie_off (cie_of A pc d cie_off cf) f) < 2 ^ 64
}.

(** The section after the two entries were stored. *)
Definition with_entries (off : Z) (fde : DwarfFde) (cie_off : Z) c d s : DwarfSection :=
  put_fde_entries (<[off := fde]> (fde_entries_ s))
    (put_cie_entries (<[cie_off := c]> (cie_entries_ s)) (put_sec_memory d s)).

Lemma len_encode_fde start off cie_off c f :
  len (encode_fde start off cie_off c f) = len (encode_length (ff_wide f) (fde_length c f)) + fde_length c f.
Proof. unfold encode_fde, fde_length at 3. rewrite !len_app, len_le_bytes. lia. Qed.

Lemma GetFdeFromOffset_run fuel start bias pc d off cie_off cf f s :
  let c := cie_of A pc d cie_off cf in
  let fde := fde_of bias pc d off cie_off c f in
  holds_fde start bias pc d fuel off cie_off cf f ->
  entries_offset_ s = start -> load_bias_ s = bias -> sec_pc_offset s = pc -> same_but_pc d (sec_memory s) ->
  cie_entries_ s !! cie_off = None \/ cie_entries_ s !! cie_off = Some c ->
  fde_entries_ s !! off = None \/ fde_entries_ s !! off = Some fde /\ cie_entries_ s !! cie_off = Some c ->
  exists d', GetFdeFromOffset A kind fuel off s = Done (Some off, with_entries off fde cie_off c d' s) /\
    same_but_pc d d'.
Proof.
  intros c fde [Hca Hok Ho Hh He] Hst Hbias Hpc Hd Hc Hf. unfold GetFdeFromOffset, bind at 1, get.
  destruct Hf as [-> | [Hf Hc']].
  2:{ rewrite Hf. exists (sec_memory s). split; [|done]. unfold with_entries. rewrite !insert_id by done. by destruct s. }
  rewrite bind_set_cur. pose proof (at_put_cur bm _ _ d s (ca_memory _ _ _ _ _ _ _ _ Hca) Hd Ho He Hh) as Hs.
  set (s0 := put_sec_memory _ s) in *. fold c in Hok, He, Hs. rewrite len_encode_fde in He.
  assert (in_u 64 cie_off) as Hco.
  { pose proof (ca_end _ _ _ _ _ _ _ _ Hca). pose proof (ca_offset _ _ _ _ _ _ _ _ Hca). pose proof (len_nonneg (encode_cie A kind cf)). unfold in_u. lia. }
  pose proof (len_nonneg (encode_length (ff_wide f) (fde_length c f))). pose proof (len_nonneg (encode_fde_body c f)).
  pose proof (len_nonneg (ff_instructions f)).
  destruct (FillInFdeHeader_run start bias pc d off cie_off c f _ s0 Hs Hok eq_refl Hst Hco) as [Hr1 Hs1].
  set (n' := len _ + Z.of_nat _) in *.
  destruct (FillInFde_run fuel start bias pc d off cie_off cf f (u64 (pointer_pos off c f + fde_length c f)) (ff_instructions f)
    (sskip n' s0) Hs1 Hca Hok Hc) as (d' & Hr2 & Hd' & _); try done.
  { change (cur_offset_ (sec_memory (sskip n' s0))) with (u64 (off + n')). unfold pointer_pos, n', fde_length in *. fold c. unfold fde_length.
    rewrite wrap_small; [lia|unfold in_u; lia]. }
  { unfold pointer_pos, fde_length in *. fold c. unfold fde_length. lia. }
  exists d'. split; [|done]. unfold bind at 1. rewrite (obind_run _ _ _ _ _ Hr1), Hr2. fold c.
  unfold with_entries, bind, modify, ret. do 2 f_equal. subst fde. unfold fde_of at 2.
  rewrite (wrap_small 64 (pointer_pos off c f + _)); [done|]. unfold pointer_pos, in_u, fde_length in *. unfold fde_length. lia.
Qed.
End Fde.

(** * Property *)

(** The address of the field with the first address of the function. *)
Definition start_pos (A : addr_type) (off : Z) (c : DwarfCie) (f : fde_fields) : Z :=
  pointer_pos A off c f + Z.of_nat (id_size (ff_wide f)) + segment_size c.

(** C13. Reading inverts the format: on the bytes of an FDE and of the CIE it points to, in the 32-bit
    or the 64-bit format, in [.eh_frame] or [.debug_frame], with any augmentation and any encoding of
    addresses, [GetFdeFromOffset] stores both entries with the values of their fields and changes
    nothing else but the cursor. The addresses of [.eh_frame] that are relative to their field come
    out as the code has them: right in 4 bytes, and above the encoded address by [w - 4] in a field of
    [w] bytes. *)
Theorem fde_roundtrip A bm kind fuel s off cie_off cf f
  (Hf : holds_fde A bm kind (entries_offset_ s) (load_bias_ s) (sec_pc_offset s) (sec_memory s) fuel off cie_off cf f)
  (Hnofde : fde_entries_ s !! off = None) (Hnocie : cie_entries_ s !! cie_off = None) :
  let c := cie_of A (sec_pc_offset s) (sec_memory s) cie_off cf in
  let fde := fde_of A kind (load_bias_ s) (sec_pc_offset s) (sec_memory s) off cie_off c f in
  exists d', GetFdeFromOffset A kind fuel off s
    = Done (Some off, put_fde_entries (<[off := fde]> (fde_entries_ s))
                        (put_cie_entries (<[cie_off := c]> (cie_entries_ s)) (put_sec_memory d' s))) /\
    same_but_pc (sec_memory s) d' /\
    (kind = EhFrame -> Z.land (fde_address_encoding c) 0x70 = DW_EH_PE_pcrel ->
     pc_start fde = u64 (start_pos A off c f + ff_start f + load_bias_ s + (len (encode_address A c (ff_start f)) - 4))).
Proof.
  intros c fde.
  destruct (GetFdeFromOffset_run A bm kind fuel (entries_offset_ s) (load_bias_ s) (sec_pc_offset s) (sec_memory s) off cie_off cf f s)
    as (d' & Hr & Hd); try done; [by left|by left|].
  exists d'. split; [exact Hr|]. split; [done|]. intros -> He. subst fde. cbn [pc_start fde_of]. unfold fde_pc_start.
  assert (base_of (fde_address_encoding c) (put_pc (load_bias_ s) (sec_memory s)) = load_bias_ s) as -> by (unfold base_of; by rewrite He).
  rewrite <- Z.add_sub_assoc, wrap_add_l by lia. f_equal. unfold start_pos. lia.
Qed.

(** * Witness *)

(** A CIE at 0 whose FDEs have addresses of 8 bytes, and an FDE at 22 for the function at 0x1000. *)
Definition wide_cie : cie_fields :=
  mkCieFields false x01 (Some [AugFdeEncoding x1c]) x00 x00 1 (-8) 16 [].
Definition wide_fde_at : Z := len (encode_cie U64 EhFrame wide_cie).
Definition wide_fde : fde_fields := mkFdeFields false [] (0x1000 - (wide_fde_at + 8)) 0x64 0 [] [].
Definition wide_c : DwarfCie := cie_of U64 0 (new_DwarfMemory (mkMemory (fun _ _ => []))) 0 wide_cie.
Definition wide_bytes : list byte := encode_cie U64 EhFrame wide_cie ++ encode_fde U64 EhFrame 0 wide_fde_at 0 wide_c wide_fde.
Definition wide_section : DwarfSection := put_entries 0 0 (len wide_bytes) 0 (new_section (MemoryBuffer.memory (MemoryBuffer.mk wide_bytes))).

Lemma fde_roundtrip_witness :
  exists fde s', GetFdeFromOffset U64 EhFrame 3 wide_fde_at wide_section = Done (Some wide_fde_at, s') /\
    fde_entries_ s' !! wide_fde_at = Some fde /\ pc_start fde = 0x1004.
Proof.
  destruct (fde_roundtrip U64 (buffer_bytes wide_bytes) EhFrame 3 wide_section wide_fde_at 0 wide_cie wide_fde)
    as (d' & Hr & _ & Hs).
  - split.
    + split.
      * split.
        -- vm_compute. repeat split; discriminate || reflexivity.
        -- vm_compute. left.
        -- by repeat constructor.
        -- unfold in_u. vm_compute. repeat split; discriminate || reflexivity.
        -- unfold in_s. vm_compute. repeat split; discriminate || reflexivity.
        -- unfold in_u. vm_compute. repeat split; discriminate || reflexivity.
      * apply (MemoryBuffer_bytes (MemoryBuffer.mk wide_bytes)). vm_compute. discriminate.
      * lia.
      * vm_compute. reflexivity.
      * vm_compute. reflexivity.
      * vm_compute. lia.
    + split.
      * vm_compute. repeat split; discriminate || reflexivity.
      * vm_compute. repeat split; discriminate || reflexivity.
      * vm_compute. discriminate.
      * vm_compute. reflexivity.
      * vm_compute. repeat split; discriminate || reflexivity.
      * vm_compute. repeat split; discriminate || reflexivity.
      * left. vm_compute. reflexivity.
    + vm_compute. discriminate.
    + vm_compute. reflexivity.
    + vm_compute. reflexivity.
  - reflexivity.
  - reflexivity.
  - eexists _, _. split; [exact Hr|]. split; [apply lookup_insert_eq|]. rewrite (Hs eq_refl eq_refl). vm_compute. reflexivity.
Defined.
