(* ===== verification/DwarfSectionFdes.v ===== *)
(** The search structure of [DwarfSectionImplNoHdr] ([DwarfSection.cpp]): [InsertFde] keeps the map
    [fdes_] a set of disjoint ranges, each part of the range of its FDE, so that [GetFdeFromPc]
    never returns an FDE for an address outside of it; and which FDEs it finds again. *)
From Stdlib Require Import ZArith Lia Bool Strings.Byte.
From stdpp Require Import base numbers list gmap.
From S2P Require Import Prelude StdMap Memory DwarfMemory DwarfStructs Regs DwarfSection.
#[local] Open Scope Z_scope.

(** * The invariant of [fdes_] *)

Section Fdes.
Implicit Types (m it : list (Z * (Z * Z))) (p : Z).

(** Sorted by the ends, non-empty, and disjoint. *)
Definition fdes_wf m : Prop :=
  (exists lo, sorted_from lo m) /\
  (forall k s p, map_find k m = Some (s, p) -> s < k) /\
  (forall k1 s1 p1 k2 s2 p2,
     map_find k1 m = Some (s1, p1) -> map_find k2 m = Some (s2, p2) -> k1 < k2 -> k1 <= s2).

Lemma fdes_wf_nil : fdes_wf [].
Proof. by split; [exists 0|]. Qed.

(** A range that no entry overlaps may be added. *)
Lemma fdes_wf_set m st x p :
  fdes_wf m -> st < x ->
  (forall k s q, map_find k m = Some (s, q) -> k <= st \/ x <= s) ->
  fdes_wf (map_set x (st, p) m).
Proof.
  intros ((lo & Hlo) & Hne & Hdis) Hx Hfree. split; [by eapply sorted_from_set_any|]. split.
  - intros k s q. rewrite (map_find_set lo) by done. destruct (Z.eqb_spec k x); [intros [= <- <-]; lia|apply Hne].
  - intros k1 s1 p1 k2 s2 p2. rewrite !(map_find_set lo) by done.
    destruct (Z.eqb_spec k1 x), (Z.eqb_spec k2 x); intros H1 H2 Hlt.
    + lia.
    + injection H1 as <- <-. destruct (Hfree _ _ _ H2); [lia|lia].
    + injection H2 as <- <-. destruct (Hfree _ _ _ H1); [lia|]. pose proof (Hne _ _ _ H1). lia.
    + by eapply Hdis.
Qed.

(** The entries above [start]: the first is the nearest. *)
Lemma upper_bound_cases m start :
  fdes_wf m ->
  match upper_bound start m with
  | [] => forall k s p, map_find k m = Some (s, p) -> k <= start
  | (k1, (s1, p1)) :: _ =>
      start < k1 /\ map_find k1 m = Some (s1, p1) /\
      forall k s p, map_find k m = Some (s, p) -> k <= start \/ s1 <= s
  end.
Proof.
  intros ((lo & Hlo) & Hne & Hdis). pose proof (upper_bound_spec lo start m Hlo) as Hu.
  destruct (upper_bound start m) as [|[k1 [s1 p1]] rest]; [eauto|]. destruct Hu as (Hk & Hf & Hmin).
  split; [done|]. split; [done|]. intros k s p Hkp. destruct (Z.le_gt_cases k start) as [|Hgt]; [by left|right].
  pose proof (Hmin _ _ Hkp ltac:(lia)). destruct (Z.eq_dec k k1) as [->|]; [rewrite Hf in Hkp; injection Hkp; lia|].
  pose proof (Hdis _ _ _ _ _ _ Hf Hkp ltac:(lia)). pose proof (Hne _ _ _ Hf). lia.
Qed.

(** What [find_fde] finds: the entry whose range contains the address. *)
Lemma find_fde_spec m pc p :
  fdes_wf m -> find_fde pc m = Some p <-> exists k s, map_find k m = Some (s, p) /\ s <= pc < k.
Proof.
  intros Hwf. pose proof (upper_bound_cases m pc Hwf) as Hu. unfold find_fde.
  destruct (upper_bound pc m) as [|[k1 [s1 p1]] rest].
  - split; [done|]. intros (k & s & Hk & Hp). specialize (Hu _ _ _ Hk). lia.
  - destruct Hu as (Hk1 & Hf & Hmin). split.
    + destruct (Z.leb_spec s1 pc); [|done]. intros [= <-]. exists k1, s1. split; [done|lia].
    + intros (k & s & Hk & Hp). destruct (Hmin _ _ _ Hk) as [|Hs]; [lia|].
      rewrite (proj2 (Z.leb_le _ _)) by lia. destruct Hwf as (_ & Hne & Hdis).
      destruct (Z.lt_trichotomy k k1) as [Hlt|[->|Hlt]]; [| |].
      * pose proof (Hdis _ _ _ _ _ _ Hk Hf Hlt). lia.
      * rewrite Hf in Hk. by injection Hk as _ ->.
      * pose proof (Hdis _ _ _ _ _ _ Hf Hk Hlt). lia.
Qed.

(** * [InsertFde] *)

(** The new entries are parts of the range of the FDE. *)
Definition grows (p a b : Z) m m' : Prop :=
  forall k s q, map_find k m' = Some (s, q) -> map_find k m = Some (s, q) \/ (q = p /\ a <= s /\ k <= b).

Lemma grows_refl p a b m : grows p a b m m.
Proof. intros k s q ?. by left. Qed.

Lemma grows_set p a b st x m :
  fdes_wf m -> a <= st -> x <= b -> grows p a b m (map_set x (st, p) m).
Proof.
  intros ((lo & Hlo) & _) Ha Hb k s q. rewrite (map_find_set lo) by done.
  destruct (Z.eqb_spec k x) as [->|]; [|by left]. intros [= <- <-]. by right.
Qed.

Lemma grows_trans p a b m1 m2 m3 : grows p a b m1 m2 -> grows p a b m2 m3 -> grows p a b m1 m3.
Proof. intros H1 H2 k s q H. destruct (H2 _ _ _ H) as [H'|]; [by apply H1|by right]. Qed.

(** The last step of the loop: the rest of the range, when no entry overlaps it. *)
Lemma insert_rest p a m start fin :
  fdes_wf m -> a <= start -> start < fin ->
  (forall k s q, map_find k m = Some (s, q) -> k <= start \/ fin <= s) ->
  fdes_wf (map_set fin (start, p) m) /\ grows p a fin m (map_set fin (start, p) m).
Proof. intros Hwf Ha Hlt Hfree. split; [by apply fdes_wf_set|by apply grows_set; [|lia..]]. Qed.

Lemma insert_fde_loop_ok fuel p a start fin add m :
  fdes_wf m -> a <= start ->
  (add = true -> forall k s q, map_find k m = Some (s, q) -> k <= start \/ start <= s) ->
  let m' := insert_fde_loop fuel p start fin add (upper_bound start m) m in
  fdes_wf m' /\ grows p a fin m m'.
Proof.
  revert start add m. induction fuel as [|fuel IH]; intros start add m Hwf Ha Hadd; cbn [insert_fde_loop];
    [split; [done|apply grows_refl]|].
  pose proof (upper_bound_cases m start Hwf) as Hu.
  destruct (upper_bound start m) as [|[k1 [s1 p1]] rest].
  { destruct (Z.ltb_spec start fin); [|split; [done|apply grows_refl]].
    apply insert_rest; [done|done|done|]. intros k s q Hk. left. by eapply Hu. }
  destruct Hu as (Hk1 & Hf & Hmin).
  destruct (Z.ltb_spec start fin) as [Hlt|]; [|split; [done|apply grows_refl]].
  assert (fin < s1 -> fdes_wf (map_set fin (start, p) m) /\ grows p a fin m (map_set fin (start, p) m)) as Hrest.
  { intros Hs1. apply insert_rest; [done|done|done|]. intros k s q Hk. destruct (Hmin _ _ _ Hk); [by left|right; lia]. }
  destruct (add && (fin <? s1)) eqn:E1.
  { apply andb_true_iff in E1 as [_ E1%Z.ltb_lt]. destruct (k1 =? fin); [split; [done|apply grows_refl]|auto]. }
  set (m1 := if add && negb (start =? s1) then map_set s1 (start, p) m else m).
  assert (fdes_wf m1 /\ grows p a fin m m1 /\ (fin < s1 -> m1 = m)) as (Hwf1 & Hg1 & Hm1).
  { subst m1. destruct add; cbn [andb] in *; [|by split; [|split; [apply grows_refl|]]].
    apply Z.ltb_ge in E1. destruct (Z.eqb_spec start s1); cbn [negb]; [by split; [|split; [apply grows_refl|]]|].
    assert (start < s1) by (destruct (Hadd eq_refl _ _ _ Hf); lia).
    split; [|split; [by apply grows_set|lia]].
    apply fdes_wf_set; [done|done|]. intros k s q Hk. destruct (Hmin _ _ _ Hk); [by left|by right]. }
  assert (forall b', let m' := insert_fde_loop fuel p k1 fin b' (upper_bound k1 m1) m1 in
            fdes_wf m' /\ grows p a fin m m') as Hnext.
  { intros b' m'. destruct (IH k1 b' m1 Hwf1 ltac:(lia)) as [Hwf' Hg'].
    - intros _ k s q Hk. assert (map_find k1 m1 = Some (s1, p1)) as Hf1.
      { destruct Hwf as ((lo & Hlo) & Hne & _). pose proof (Hne _ _ _ Hf). subst m1.
        destruct (add && negb (start =? s1)); [|done]. rewrite (map_find_set lo) by done.
        destruct (Z.eqb_spec k1 s1); [lia|done]. }
      destruct (Z.le_gt_cases k k1); [by left|right]. destruct Hwf1 as (_ & _ & Hdis). by eapply (Hdis k1).
    - split; [done|]. by eapply grows_trans. }
  destruct (Z.ltb_spec start k1); [|apply Hnext].
  destruct (Z.ltb_spec fin s1) as [Hs1|]; [|apply Hnext].
  rewrite (Hm1 Hs1). destruct (negb (k1 =? fin)); [by apply Hrest|split; [done|apply grows_refl]].
Qed.

Definition insert_fde p (f : DwarfFde) m : list (Z * (Z * Z)) :=
  insert_fde_loop (S (length m)) p (pc_start f) (pc_end f) false (upper_bound (pc_start f) m) m.

(** A range that no entry overlaps and no entry directly follows is inserted as it is. *)
Lemma insert_fde_free p f m :
  fdes_wf m -> pc_start f < pc_end f ->
  (forall k s q, map_find k m = Some (s, q) -> k <= pc_start f \/ pc_end f < s) ->
  insert_fde p f m = map_set (pc_end f) (pc_start f, p) m.
Proof.
  intros Hwf Hlt Hfree. unfold insert_fde. cbn [insert_fde_loop].
  pose proof (upper_bound_cases m (pc_start f) Hwf) as Hu.
  destruct (upper_bound (pc_start f) m) as [|[k1 [s1 p1]] rest].
  { by rewrite (proj2 (Z.ltb_lt _ _)) by lia. }
  destruct Hu as (Hk1 & Hf & Hmin). rewrite (proj2 (Z.ltb_lt _ _)) by lia. cbn [andb].
  rewrite (proj2 (Z.ltb_lt _ _)) by lia. destruct (Hfree _ _ _ Hf); [lia|].
  rewrite (proj2 (Z.ltb_lt _ _)) by lia. destruct Hwf as (_ & Hne & _). pose proof (Hne _ _ _ Hf).
  destruct (Z.eqb_spec k1 (pc_end f)); [lia|done].
Qed.
End Fdes.

(** * Sequences of insertions *)

(** The FDEs of a section in the order in which they are read. *)
Fixpoint insert_all (l : list (Z * DwarfFde)) : SEC unit :=
  match l with
  | [] => ret tt
  | (p, f) :: l' => InsertFde p f ;; insert_all l'
  end.

Definition insert_fdes (l : list (Z * DwarfFde)) (m : list (Z * (Z * Z))) : list (Z * (Z * Z)) :=
  fold_left (fun m '(p, f) => insert_fde p f m) l m.

Lemma insert_all_run l s : insert_all l s = Done (tt, put_fdes (insert_fdes l (fdes_ s)) s).
Proof.
  revert s. induction l as [|[p f] l IH]; intros s; [by destruct s|].
  cbn [insert_all]. unfold bind, InsertFde, modify. rewrite IH. reflexivity.
Qed.

(** Every entry is part of the range of one of the FDEs. *)
Definition covered (l : list (Z * DwarfFde)) (m : list (Z * (Z * Z))) : Prop :=
  forall k s p, map_find k m = Some (s, p) -> exists f, (p, f) ∈ l /\ pc_start f <= s /\ k <= pc_end f.

Lemma insert_fdes_sound l0 l m :
  fdes_wf m -> covered l0 m -> fdes_wf (insert_fdes l m) /\ covered (l0 ++ l) (insert_fdes l m).
Proof.
  revert l0 m. induction l as [|[p f] l IH]; intros l0 m Hwf Hc; [by rewrite app_nil_r|].
  destruct (insert_fde_loop_ok (S (length m)) p (pc_start f) (pc_start f) (pc_end f) false m Hwf) as [Hwf' Hg];
    [lia|done|].
  change (insert_fdes ((p, f) :: l) m) with (insert_fdes l (insert_fde p f m)).
  replace (l0 ++ (p, f) :: l) with ((l0 ++ [(p, f)]) ++ l) by (by rewrite <- app_assoc).
  apply IH; [done|]. intros k s q Hk. destruct (Hg _ _ _ Hk) as [H|(-> & ? & ?)].
  - destruct (Hc _ _ _ H) as (g & ? & ?). exists g. split; [apply elem_of_app; by left|done].
  - exists f. split; [apply elem_of_app; right; by apply list_elem_of_singleton|done].
Qed.

(** An FDE read later lies behind an earlier one, or before it with a gap. *)
Fixpoint separated (l : list (Z * DwarfFde)) : Prop :=
  match l with
  | [] => True
  | (_, f) :: l' =>
      pc_start f < pc_end f /\
      Forall (fun '(_, g) => pc_end f <= pc_start g \/ pc_end g < pc_start f) l' /\ separated l'
  end.

(** The map holds exactly the ranges of [l]. *)
Definition represents (l : list (Z * DwarfFde)) (m : list (Z * (Z * Z))) : Prop :=
  (forall p f, (p, f) ∈ l -> map_find (pc_end f) m = Some (pc_start f, p)) /\
  (forall k s p, map_find k m = Some (s, p) -> exists f, (p, f) ∈ l /\ pc_start f = s /\ pc_end f = k).

Lemma insert_fdes_complete l0 l m :
  fdes_wf m -> represents l0 m ->
  Forall (fun '(_, f) => Forall (fun '(_, g) => pc_end f <= pc_start g \/ pc_end g < pc_start f) l) l0 ->
  separated l -> fdes_wf (insert_fdes l m) /\ represents (l0 ++ l) (insert_fdes l m).
Proof.
  revert l0 m. induction l as [|[p f] l IH]; intros l0 m Hwf [H1 H2] Hsep Hl; [by rewrite app_nil_r|].
  destruct Hl as (Hlt & Hf & Hl). change (insert_fdes ((p, f) :: l) m) with (insert_fdes l (insert_fde p f m)).
  assert (forall k s q, map_find k m = Some (s, q) -> k <= pc_start f \/ pc_end f < s) as Hfree.
  { intros k s q Hk. destruct (H2 _ _ _ Hk) as (g & Hg & <- & <-).
    rewrite Forall_forall in Hsep. specialize (Hsep _ Hg). by apply Forall_cons in Hsep as [? _]. }
  rewrite (insert_fde_free p f m Hwf Hlt Hfree).
  replace (l0 ++ (p, f) :: l) with ((l0 ++ [(p, f)]) ++ l) by (by rewrite <- app_assoc).
  pose proof Hwf as ((lo & Hlo) & Hne & _). apply IH.
  - apply fdes_wf_set; [done|done|]. intros k s q Hk. destruct (Hfree _ _ _ Hk); [by left|right; lia].
  - split.
    + intros q g. rewrite elem_of_app, list_elem_of_singleton, (map_find_set lo) by done.
      intros [Hg|[= -> ->]]; [|by rewrite Z.eqb_refl]. specialize (H1 _ _ Hg).
      destruct (Z.eqb_spec (pc_end g) (pc_end f)) as [E|]; [|done].
      destruct (Hfree _ _ _ H1); pose proof (Hne _ _ _ H1); lia.
    + intros k s q. rewrite (map_find_set lo) by done. destruct (Z.eqb_spec k (pc_end f)) as [->|].
      * intros [= <- <-]. exists f. split; [|done]. apply elem_of_app. right. by apply list_elem_of_singleton.
      * intros Hk. destruct (H2 _ _ _ Hk) as (g & ? & ?). exists g. split; [apply elem_of_app; by left|done].
  - apply Forall_app. split; [|by apply Forall_singleton].
    eapply Forall_impl; [exact Hsep|]. intros [q g] Hg. by apply Forall_cons in Hg as [_ ?].
  - done.
Qed.

Lemma find_fde_hit A kind fuel cie_fuel pc p s :
  find_fde pc (fdes_ s) = Some p -> GetFdeFromPc A kind fuel cie_fuel pc s = Done (Some p, s).
Proof. intros H. unfold GetFdeFromPc, bind, get. by rewrite H. Qed.

(** * Properties *)

(** The search of [GetFdeFromPc] is sound whatever FDEs a section holds, overlapping, empty
    or in any order: after they were inserted, an FDE that the search returns for [pc] is one of
    them and its range contains [pc]. *)
Theorem fde_search_sound l s s' pc p
  (Hs : fdes_ s = []) (Hins : insert_all l s = Done (tt, s')) (Hfind : find_fde pc (fdes_ s') = Some p) :
  exists f, (p, f) ∈ l /\ pc_start f <= pc < pc_end f.
Proof.
  rewrite insert_all_run, Hs in Hins. injection Hins as <-. cbn [fdes_ put_fdes] in Hfind.
  destruct (insert_fdes_sound [] l [] fdes_wf_nil) as [Hwf Hc]; [by intros k s0 q ?|].
  apply (find_fde_spec _ _ _ Hwf) in Hfind as (k & s0 & Hk & Hp). destruct (Hc _ _ _ Hk) as (f & ? & ?).
  exists f. split; [done|lia].
Qed.

(** The search is complete for disjoint FDEs of which none is read later than one that directly
    follows it in the address space: [GetFdeFromPc] then finds the FDE of every address without
    reading the section again. *)
Theorem fde_search_complete A kind fuel cie_fuel l s s' p f pc
  (Hs : fdes_ s = []) (Hsep : separated l) (Hins : insert_all l s = Done (tt, s'))
  (Hf : (p, f) ∈ l) (Hpc : pc_start f <= pc < pc_end f) :
  GetFdeFromPc A kind fuel cie_fuel pc s' = Done (Some p, s').
Proof.
  rewrite insert_all_run, Hs in Hins. injection Hins as <-. apply find_fde_hit. cbn [fdes_ put_fdes].
  destruct (insert_fdes_complete [] l [] fdes_wf_nil) as [Hwf [H1 _]]; [split; [|by intros k s0 q ?]|done|done|].
  { intros q g Hg. by apply not_elem_of_nil in Hg. }
  apply (find_fde_spec _ _ _ Hwf). exists (pc_end f), (pc_start f). split; [by apply H1|done].
Qed.

(** An FDE that is read after the one that directly follows it in the address space is lost:
    [InsertFde] leaves the map as it was, and the search finds nothing for its addresses. *)
Theorem fde_adjacent_below_lost p q a b c f g s s' pc
  (Hs : fdes_ s = []) (Hf : pc_start f = a /\ pc_end f = b) (Hg : pc_start g = b /\ pc_end g = c)
  (Hab : a < b) (Hbc : b < c) (Hins : insert_all [(q, g); (p, f)] s = Done (tt, s')) (Hpc : a <= pc < b) :
  fdes_ s' = [(c, (b, q))] /\ find_fde pc (fdes_ s') = None.
Proof.
  rewrite insert_all_run, Hs in Hins. injection Hins as <-. cbn [fdes_ put_fdes insert_fdes fold_left].
  destruct Hf as [Hf1 Hf2], Hg as [Hg1 Hg2].
  assert (insert_fde q g [] = [(c, (b, q))]) as ->.
  { unfold insert_fde. rewrite Hg1, Hg2. cbn. by rewrite (proj2 (Z.ltb_lt _ _)) by lia. }
  assert (insert_fde p f [(c, (b, q))] = [(c, (b, q))]) as ->.
  { unfold insert_fde. rewrite Hf1, Hf2. cbn [upper_bound length]. rewrite (proj2 (Z.ltb_lt a c)) by lia.
    cbn [insert_fde_loop andb upper_bound]. rewrite (proj2 (Z.ltb_lt a b)), (proj2 (Z.ltb_lt a c)) by lia.
    rewrite Z.ltb_irrefl. cbn [upper_bound]. rewrite Z.ltb_irrefl. cbn [insert_fde_loop].
    by rewrite (proj2 (Z.ltb_ge c b)) by lia. }
  split; [done|]. unfold find_fde. cbn [upper_bound]. rewrite (proj2 (Z.ltb_lt pc c)) by lia.
  by rewrite (proj2 (Z.leb_gt b pc)) by lia.
Qed.

(** * Witnesses *)

Definition range_fde (a b : Z) : DwarfFde := mkFde 0 0 0 a b 0 None.

Definition demo_section : DwarfSection := new_section (mkMemory (fun _ _ => [])).

(** The example of the comment on [InsertFde]: [0x200, 0x400) is there and [0x100, 0x500) comes. *)
Lemma fde_search_sound_witness :
  exists f, (1, f) ∈ [(0, range_fde 0x200 0x400); (1, range_fde 0x100 0x500)] /\
    pc_start f <= 0x480 < pc_end f.
Proof.
  apply (fde_search_sound [(0, range_fde 0x200 0x400); (1, range_fde 0x100 0x500)] demo_section
    (put_fdes [(0x400, (0x200, 0)); (0x500, (0x400, 1))] demo_section)).
  - reflexivity.
  - reflexivity.
  - reflexivity.
Defined.

Lemma fde_search_complete_witness :
  let s' := put_fdes [(0x180, (0x100, 2)); (0x400, (0x200, 0)); (0x500, (0x400, 1))] demo_section in
  GetFdeFromPc U64 EhFrame 0 0 0x150 s' = Done (Some 2, s').
Proof.
  apply (fde_search_complete U64 EhFrame 0 0
    [(0, range_fde 0x200 0x400); (1, range_fde 0x400 0x500); (2, range_fde 0x100 0x180)] demo_section _ 2
    (range_fde 0x100 0x180)).
  - reflexivity.
  - cbn. repeat split; try lia; repeat constructor; cbn; lia.
  - reflexivity.
  - right. right. left.
  - cbn. lia.
Defined.

Lemma fde_adjacent_below_lost_witness :
  let s' := put_fdes [(0x400, (0x200, 0))] demo_section in
  fdes_ s' = [(0x400, (0x200, 0))] /\ find_fde 0x150 (fdes_ s') = None.
Proof.
  intros s'. apply (fde_adjacent_below_lost 1 0 0x100 0x200 0x400 (range_fde 0x100 0x200)
    (range_fde 0x200 0x400) demo_section).
  - reflexivity.
  - split; reflexivity.
  - split; reflexivity.
  - lia.
  - lia.
  - reflexivity.
  - lia.
Defined.

(** The comment on [InsertFde] promises an entry for [0x100, 0x200) as well. *)
Example insert_fde_comment :
  exists s', insert_all [(0, range_fde 0x200 0x400); (1, range_fde 0x100 0x500)] demo_section = Done (tt, s') /\
    fdes_ s' = [(0x400, (0x200, 0)); (0x500, (0x400, 1))].
Proof. eexists. split; reflexivity. Qed.
