(* ===== verification/DwarfOpFrame.v ===== *)
(** What an evaluation of a DWARF expression ([DwarfOp.cpp]) depends on and what it leaves alone: the
    result depends on the registers only through the values that [RegsInfo] shows, whichever of
    them were already saved and overwritten, and of the cursor on its memory alone, not on the base
    offsets; the evaluation changes neither the registers nor the bases. *)
From Stdlib Require Import ZArith Lia Bool Strings.Byte.
From stdpp Require Import base numbers list gmap.
From S2P Require Import Prelude Memory DwarfMemory DwarfStructs Regs DwarfOpTable DwarfOp.
#[local] Open Scope Z_scope.

(** * Reads that do not use the bases of the cursor *)

(** The cursor [d] with the bases of [b]. *)
Definition rebase (b d : DwarfMemory) : DwarfMemory :=
  mkDwarfMemory (memory_ d) (cur_offset_ d) (pc_offset_ b) (data_offset_ b) (func_offset_ b) (text_offset_ b).

(** [m] gives the same result whatever the bases are, keeps them, and keeps the memory. *)
Definition blind {B} (m : DM B) : Prop :=
  forall b d,
  match m d with
  | Done (r, d') => m (rebase b d) = Done (r, rebase b d') /\ same_bases d d'
  | Fault f => m (rebase b d) = Fault f
  end.

Section Blind.

Lemma blind_ret {B} (x : B) : blind (ret x).
Proof. by intros b d. Qed.

Lemma blind_fail {B} f : blind (fail f : DM B).
Proof. by intros b d. Qed.

Lemma blind_cur_offset : blind cur_offset.
Proof. by intros b d. Qed.

Lemma blind_set_cur_offset o : blind (set_cur_offset o).
Proof. intros b d. by split. Qed.

Lemma blind_bind {B C} (m : DM B) (k : B -> DM C) : blind m -> (forall x, blind (k x)) -> blind (bind m k).
Proof.
  intros Hm Hk b d. unfold bind. specialize (Hm b d). destruct (m d) as [[x d1]|f]; [|by rewrite Hm].
  destruct Hm as [-> Hb1]. specialize (Hk x b d1). destruct (k x d1) as [[y d2]|f]; [|done].
  destruct Hk as [-> Hb2]. split; [done|]. by etransitivity.
Qed.

Lemma blind_obind {B C} (m : DM (option B)) (k : B -> DM (option C)) :
  blind m -> (forall x, blind (k x)) -> blind (obind m k).
Proof. intros Hm Hk. apply blind_bind; [done|]. intros [x|]; [apply Hk|apply blind_ret]. Qed.

Lemma blind_if {B} (c : bool) (m1 m2 : DM B) : blind m1 -> blind m2 -> blind (if c then m1 else m2).
Proof. by destruct c. Qed.

Lemma blind_ReadBytes n : blind (ReadBytes n).
Proof.
  intros b d. unfold ReadBytes, bind, get. cbn [memory_ cur_offset_ rebase].
  destruct (ReadFully _ _ n); cbn; [|by split]. split; [done|]. apply same_bases_cur.
Qed.

Lemma blind_ReadUnsigned n : blind (ReadUnsigned n).
Proof. apply blind_obind; [apply blind_ReadBytes|intros x; apply blind_ret]. Qed.

Lemma blind_ReadSigned n : blind (ReadSigned n).
Proof. apply blind_obind; [apply blind_ReadBytes|intros x; apply blind_ret]. Qed.

Lemma blind_leb_loop fuel v sh : blind (leb_loop fuel v sh).
Proof.
  revert v sh. induction fuel as [|fuel IH]; intros v sh; cbn [leb_loop]; [apply blind_fail|].
  apply blind_obind; [apply blind_ReadUnsigned|intros x]. apply blind_if; [apply blind_fail|].
  cbv zeta. apply blind_if; [apply blind_ret|apply IH].
Qed.

Lemma blind_ReadULEB128 : blind ReadULEB128.
Proof. apply blind_obind; [apply blind_leb_loop|intros [[v sh] x]; apply blind_ret]. Qed.

Lemma blind_ReadSLEB128 : blind ReadSLEB128.
Proof.
  apply blind_obind; [apply blind_leb_loop|intros [[v sh] x]].
  apply blind_if; [apply blind_if; [apply blind_fail|]|]; apply blind_ret.
Qed.

Lemma blind_ReadEncodedData A e : blind (ReadEncodedData A e).
Proof.
  unfold ReadEncodedData. cbv zeta. repeat apply blind_if;
    first [apply blind_ReadUnsigned | apply blind_ReadSigned | apply blind_ReadULEB128 | apply blind_ret
          | apply blind_obind; [apply blind_ReadSLEB128|intros v; apply blind_ret]].
Qed.

(** An encoding without a base. *)
Lemma blind_ReadEncodedValue A e : Z.land e 0x70 = 0 -> blind (ReadEncodedValue A e).
Proof.
  intros He. unfold ReadEncodedValue. apply blind_if; [apply blind_ret|].
  destruct (Z.eqb_spec e DW_EH_PE_aligned) as [->|_]; [done|]. rewrite He.
  apply blind_obind; [apply blind_ReadEncodedData|]. intros v b d. by split.
Qed.
End Blind.

(** The operands in the table of opcodes have no base. *)
Lemma operand_encoding_plain op i : Z.land (operand_encoding (op_callback op) i) 0x70 = 0.
Proof.
  assert (Forall (fun c => Forall (fun e => Z.land e 0x70 = 0) (operands c)) kCallbackTable) as Ht
    by (vm_compute; repeat constructor).
  assert (Forall (fun e => Z.land e 0x70 = 0) (operands (op_callback op))) as Hop.
  { unfold op_callback. match goal with |- context [nth ?n ?l ?x] => destruct (nth_in_or_default n l x) as [Hin| ->] end;
      [|constructor]. rewrite Forall_forall in Ht. by apply Ht, list_elem_of_In. }
  unfold operand_encoding. destruct (nth_in_or_default i (operands (op_callback op)) 0) as [He| ->]; [|done].
  rewrite Forall_forall in Hop. by apply Hop, list_elem_of_In.
Qed.

(** * Evaluations on different registers and bases *)

Section Uniform.
Context (A : addr_type) (regular_memory : Memory) (orig : list Z).
Implicit Types (s t : DwarfOp) (i : RegsInfo).

(** The evaluator [s] with the registers [i] and the bases of [b]. *)
Definition view (b : DwarfMemory) i s : DwarfOp := put_regs_info (Some i) (put_memory (rebase b (op_memory s)) s).

(** The cursor moves over the same memory with the same bases. *)
Definition moves s t : Prop := same_bases (op_memory s) (op_memory t).

(** [m] gives the same result on two views of the registers [orig], whatever the bases are, leaves
    the registers as they are, and keeps the bases of the cursor. *)
Definition uniform {B} (m : OP B) : Prop :=
  forall s b1 i1 b2 i2, info_shows orig i1 -> info_shows orig i2 ->
  match m (view b1 i1 s), m (view b2 i2 s) with
  | Done (a1, t1), Done (a2, t2) =>
      a1 = a2 /\ exists t, t1 = view b1 i1 t /\ t2 = view b2 i2 t /\ moves s t
  | Fault f1, Fault f2 => f1 = f2
  | _, _ => False
  end.

Lemma uniform_bind {B C} (m : OP B) (k : B -> OP C) :
  uniform m -> (forall b, uniform (k b)) -> uniform (bind m k).
Proof.
  intros Hm Hk s b1 i1 b2 i2 H1 H2. unfold bind. specialize (Hm s b1 i1 b2 i2 H1 H2).
  destruct (m (view b1 i1 s)) as [[a1 t1]|f1], (m (view b2 i2 s)) as [[a2 t2]|f2]; try done.
  destruct Hm as (-> & t & -> & -> & Hmv). specialize (Hk a2 t b1 i1 b2 i2 H1 H2).
  destruct (k a2 (view b1 i1 t)) as [[r1 u1]|], (k a2 (view b2 i2 t)) as [[r2 u2]|]; try done.
  destruct Hk as (-> & u & -> & -> & Hmv'). split; [done|]. exists u. split; [done|]. split; [done|].
  unfold moves in *. by etransitivity.
Qed.

Lemma uniform_ret {B} (b : B) : uniform (ret b).
Proof. intros s b1 i1 b2 i2 _ _. cbn. split; [done|]. exists s. by repeat split. Qed.

Lemma uniform_fail {B} f : uniform (fail f : OP B).
Proof. by intros s b1 i1 b2 i2 _ _. Qed.

Lemma uniform_gets {B} (f : DwarfOp -> B) :
  (forall s b i, f (view b i s) = f s) -> uniform (gets f).
Proof. intros Hf s b1 i1 b2 i2 _ _. cbn. rewrite !Hf. split; [done|]. exists s. by repeat split. Qed.

(** An update that neither reads nor writes the registers. *)
Lemma uniform_modify (f : DwarfOp -> DwarfOp) :
  (forall s b i, f (view b i s) = view b i (f s)) ->
  (forall s, moves s (f s)) -> uniform (modify f).
Proof. intros Hf Hm s b1 i1 b2 i2 _ _. cbn. rewrite !Hf. split; [done|]. exists (f s). by repeat split; try apply Hm. Qed.

Lemma uniform_some_or {B} f (o : option B) : uniform (some_or f o : OP B).
Proof. destruct o; [apply uniform_ret|apply uniform_fail]. Qed.

(** A read through the cursor. *)
Lemma uniform_on_memory {B} (m : DM B) : blind m -> uniform (on_memory m).
Proof.
  intros Hm s b1 i1 b2 i2 _ _. unfold on_memory, zoom.
  change (op_memory (view b1 i1 s)) with (rebase b1 (op_memory s)).
  change (op_memory (view b2 i2 s)) with (rebase b2 (op_memory s)).
  pose proof (Hm b1 (op_memory s)) as H1. pose proof (Hm b2 (op_memory s)) as H2.
  destruct (m (op_memory s)) as [[r d']|f]; [|by rewrite H1, H2].
  destruct H1 as [-> Hb], H2 as [-> _]. split; [done|]. by exists (put_memory d' s).
Qed.

(** [get] is used to look at the other fields only. *)
Lemma uniform_get {B} (k : DwarfOp -> OP B) :
  (forall s b i, k (view b i s) = k s) -> (forall s, uniform (k s)) -> uniform (s <- get ;; k s).
Proof.
  intros Hk Hu s b1 i1 b2 i2 H1 H2. unfold bind, get. rewrite !Hk. by apply Hu.
Qed.

Lemma uniform_if {B} (b : bool) (m1 m2 : OP B) : uniform m1 -> uniform m2 -> uniform (if b then m1 else m2).
Proof. by destruct b. Qed.

(** ** The primitives *)

Lemma uniform_StackAt n : uniform (StackAt n).
Proof. apply uniform_get; [done|]. intros s. apply uniform_some_or. Qed.
Lemma uniform_StackSize : uniform StackSize.
Proof. by apply uniform_gets. Qed.
Lemma uniform_StackPop : uniform StackPop.
Proof.
  apply uniform_get; [done|]. intros s. destruct (stack_ s) as [|v st]; [apply uniform_fail|].
  apply uniform_bind; [by apply uniform_modify|intros _; apply uniform_ret].
Qed.
Lemma uniform_push_front v : uniform (push_front v).
Proof. by apply uniform_modify. Qed.
Lemma uniform_set_stack n v : uniform (set_stack n v).
Proof.
  apply uniform_get; [done|]. intros s. apply uniform_if; [by apply uniform_modify|apply uniform_fail].
Qed.
Lemma uniform_OperandAt n : uniform (OperandAt n).
Proof. apply uniform_get; [done|]. intros s. apply uniform_some_or. Qed.
Lemma uniform_op_error c : uniform (op_error c).
Proof. apply uniform_bind; [by apply uniform_modify|intros _; apply uniform_ret]. Qed.
Lemma uniform_op_error_at c a : uniform (op_error_at c a).
Proof. apply uniform_bind; [by apply uniform_modify|intros _; apply uniform_ret]. Qed.
Lemma uniform_cur_offset : uniform (on_memory cur_offset).
Proof. apply uniform_on_memory, blind_cur_offset. Qed.
Lemma uniform_set_cur_offset o : uniform (on_memory (set_cur_offset o)).
Proof. apply uniform_on_memory, blind_set_cur_offset. Qed.
Lemma uniform_ReadUnsigned n : uniform (on_memory (ReadUnsigned n)).
Proof. apply uniform_on_memory, blind_ReadUnsigned. Qed.
Lemma uniform_ReadEncodedValue e : Z.land e 0x70 = 0 -> uniform (on_memory (ReadEncodedValue A e)).
Proof. intros He. by apply uniform_on_memory, blind_ReadEncodedValue. Qed.
Lemma uniform_signed_neg v : uniform (signed_neg A v).
Proof. apply uniform_if; [apply uniform_fail|apply uniform_ret]. Qed.

(** The registers are read through [Get]. *)
Lemma uniform_Total {B} (k : Z -> OP B) : (forall v, uniform (k v)) -> uniform (v <- on_regs_info (gets Total) ;; k v).
Proof.
  intros Hk s b1 i1 b2 i2 H1 H2. unfold bind, on_regs_info, bind, get. cbn.
  assert (Total i1 = Z.of_nat (length orig) /\ Total i2 = Z.of_nat (length orig)) as [-> ->]
    by (split; [apply H1|apply H2]).
  exact (Hk _ s b1 i1 b2 i2 H1 H2).
Qed.

Lemma Get_run reg v i : info_shows orig i -> 0 <= reg -> orig !! Z.to_nat reg = Some v -> Get reg i = Done (v, i).
Proof. intros Hi Hr Hv. apply wp_run. by eapply Get_shows. Qed.

Lemma Get_negative reg i : reg < 0 -> Get reg i = Fault (Undef UbRegIndex).
Proof.
  intros Hr. unfold Get, IsSaved, MAX_REGISTERS. rewrite (proj2 (Z.ltb_ge 64 reg)), (proj2 (Z.leb_gt 64 reg)) by lia.
  unfold bind, gets, get. replace (Z.shiftl 1 reg) with 0.
  - rewrite Z.land_0_r. cbn. unfold read_reg, reg_at. by rewrite (proj2 (Z.leb_gt 0 reg)) by lia.
  - rewrite <- (Z.opp_involutive reg), Z.shiftl_opp_r, Z.shiftr_div_pow2 by lia.
    symmetry. apply Z.div_small. pose proof (Z.pow_gt_1 2 (- reg) ltac:(lia)). lia.
Qed.

Lemma uniform_Get reg : reg < Z.of_nat (length orig) -> uniform (on_regs_info (Get reg)).
Proof.
  intros Hr s b1 i1 b2 i2 H1 H2. destruct (Z.neg_nonneg_cases reg) as [Hneg|Hpos].
  { unfold on_regs_info, bind, get, zoom. cbn. by rewrite !Get_negative. }
  destruct (lookup_lt_is_Some_2 orig (Z.to_nat reg) ltac:(lia)) as [v Hv].
  unfold on_regs_info, bind, get, zoom. cbn.
  rewrite (Get_run reg v i1), (Get_run reg v i2) by (done || lia). split; [done|]. exists s. by repeat split.
Qed.

(** The handlers use the registers after a check against [Total]. *)
Definition push_reg_body (reg : Z) (n : nat) : OP bool :=
  if Z.of_nat (length orig) <=? reg then op_error DWARF_ERROR_ILLEGAL_VALUE
  else v <- on_regs_info (Get reg) ;; offset <- OperandAt n ;; push_front (addr A (v + offset)) ;; ret true.

Lemma push_reg_eq reg n s b i :
  info_shows orig i -> push_reg A reg n (view b i s) = push_reg_body reg n (view b i s).
Proof. intros (Ht & _). unfold push_reg_body. rewrite <- Ht. reflexivity. Qed.

Lemma uniform_push_reg reg n : uniform (push_reg A reg n).
Proof.
  intros s b1 i1 b2 i2 H1 H2. rewrite !push_reg_eq by done. revert s b1 i1 b2 i2 H1 H2.
  change (uniform (push_reg_body reg n)). unfold push_reg_body.
  destruct (Z.leb_spec (Z.of_nat (length orig)) reg); [apply uniform_op_error|].
  apply uniform_bind; [by apply uniform_Get|intros v].
  apply uniform_bind; [apply uniform_OperandAt|intros o].
  apply uniform_bind; [apply uniform_push_front|intros _; apply uniform_ret].
Qed.

Ltac solve_uniform :=
  repeat match goal with
  | |- uniform (bind get _) => apply uniform_get; [done|intros ?]
  | |- uniform (bind _ _) => apply uniform_bind; [|intros ?]
  | |- uniform (ret _) => apply uniform_ret
  | |- uniform (fail _) => apply uniform_fail
  | |- uniform (modify _) => solve [by apply uniform_modify]
  | |- uniform (StackAt _) => apply uniform_StackAt
  | |- uniform StackSize => apply uniform_StackSize
  | |- uniform StackPop => apply uniform_StackPop
  | |- uniform (push_front _) => apply uniform_push_front
  | |- uniform (set_stack _ _) => apply uniform_set_stack
  | |- uniform (OperandAt _) => apply uniform_OperandAt
  | |- uniform (op_error _) => apply uniform_op_error
  | |- uniform (op_error_at _ _) => apply uniform_op_error_at
  | |- uniform (on_memory cur_offset) => apply uniform_cur_offset
  | |- uniform (on_memory (set_cur_offset _)) => apply uniform_set_cur_offset
  | |- uniform (on_memory (ReadUnsigned _)) => apply uniform_ReadUnsigned
  | |- uniform (on_memory (ReadEncodedValue _ _)) => apply uniform_ReadEncodedValue, operand_encoding_plain
  | |- uniform (signed_neg _ _) => apply uniform_signed_neg
  | |- uniform (some_or _ _) => apply uniform_some_or
  | |- uniform (if _ then _ else _) => apply uniform_if
  | |- uniform (match ?x with _ => _ end) => destruct x
  end.

Lemma uniform_op_compare cmp : uniform (op_compare cmp).
Proof. unfold op_compare. solve_uniform. Qed.

Lemma uniform_handler h m : kOpHandleFuncList A regular_memory h = Some m -> uniform m.
Proof.
  destruct h; simpl; intros [= <-];
    unfold op_eq, op_ge, op_gt, op_le, op_lt, op_ne; try apply uniform_op_compare.
  all: unfold op_deref, op_deref_size, op_push, op_dup, op_drop, op_over, op_pick, op_swap, op_rot, op_abs,
    op_and, op_div, op_minus, op_mod, op_mul, op_neg, op_not, op_or, op_plus, op_plus_uconst, op_shl, op_shr,
    op_shra, op_xor, op_bra, op_skip, op_lit, op_reg, op_regx, op_breg, op_bregx, op_nop, op_not_implemented;
    cbv zeta; solve_uniform; apply uniform_push_reg.
Qed.

Lemma uniform_read_operands op n k : uniform (read_operands A (op_callback op) n k).
Proof. revert k. induction n as [|n IH]; intros k; cbn [read_operands]; solve_uniform. apply IH. Qed.

Lemma uniform_Decode : uniform (Decode A regular_memory).
Proof.
  unfold Decode. apply uniform_bind; [by apply uniform_modify|intros _].
  apply uniform_bind; [apply uniform_ReadUnsigned|intros [o|]]; [|solve_uniform].
  apply uniform_bind; [by apply uniform_modify|intros _]. cbv zeta.
  destruct (kOpHandleFuncList A regular_memory (handle_func (op_callback o))) as [m|] eqn:E; [|solve_uniform].
  apply uniform_bind; [apply uniform_StackSize|intros n]. apply uniform_if; [apply uniform_op_error|].
  apply uniform_bind; [by apply uniform_modify|intros _].
  apply uniform_bind; [apply uniform_read_operands|intros ok].
  apply uniform_if; [by eapply uniform_handler|apply uniform_ret].
Qed.

Lemma uniform_eval_loop fuel fin it : uniform (eval_loop A regular_memory fuel fin it).
Proof.
  revert it. induction fuel as [|fuel IH]; intros it; cbn [eval_loop]; [apply uniform_fail|].
  solve_uniform; [apply uniform_Decode|apply IH].
Qed.

(** Evaluation sees the registers only as [orig] and leaves them, and the bases, alone. *)
Lemma uniform_Eval start fin : uniform (Eval A regular_memory start fin).
Proof.
  unfold Eval, is_dex_const. solve_uniform; try apply uniform_Decode; apply uniform_eval_loop.
Qed.
End Uniform.
