(* ===== verification/DwarfSectionEval.v ===== *)
(** Correctness of [DwarfSectionImpl::Eval] ([DwarfSection.cpp]): the registers of the caller's frame
    are the values of their locations over the registers of the callee, although the code
    overwrites these one by one, and in whatever order the unordered map yields the locations. *)
From Stdlib Require Import ZArith Lia Bool Strings.Byte.
From stdpp Require Import base numbers list gmap.
From S2P Require Import Prelude StdMap Memory DwarfMemory DwarfStructs Regs DwarfOp DwarfOpSafety DwarfOpFrame DwarfCfaTable DwarfCfa DwarfSection.
#[local] Open Scope Z_scope.

(** Cursors over the same memory *)
Definition same_memory (d d' : DwarfMemory) : Prop := memory_ d' = memory_ d.

Lemma same_memory_bases d d1 d2 : same_memory d d1 -> same_bases d1 d2 -> same_memory d d2.
Proof. unfold same_memory. intros E (E' & _). congruence. Qed.

(** * The values of locations *)

Section Values.
Context (A : addr_type) (mem : Memory) (d : DwarfMemory) (regs0 : Regs).
Local Abbreviation orig := (regs_ regs0).

(** The value of an expression over the registers of the callee. *)
Definition expr_value (loc : DwarfLocation) : option (Z * bool) :=
  match DwarfOp.Eval A mem (u64 (value1 loc - value0 loc)) (value1 loc)
          (new_DwarfOp d (Some (new_regs_info regs0))) with
  | Done (true, op) =>
      match stack_ op with
      | v :: _ => if is_register_ op then None else Some (v, dex_pc_set_ op)
      | [] => None
      end
  | _ => None
  end.

Definition cfa_value (loc : DwarfLocation) : option Z :=
  match loc_type loc with
  | DWARF_LOCATION_REGISTER =>
      if value0 loc <? Z.of_nat (length orig)
      then (fun x => addr A (x + value1 loc)) <$> orig !! Z.to_nat (value0 loc) else None
  | DWARF_LOCATION_VAL_EXPRESSION => fst <$> expr_value loc
  | _ => None
  end.

(** A word of the process memory. *)
Definition word_at (a : Z) : option Z := le_val <$> ReadFully mem a (size_of A).

(** The value of a register with the location [loc] and the old value [old] in a frame at [cfa]. *)
Definition reg_value (cfa old : Z) (loc : DwarfLocation) : option Z :=
  match loc_type loc with
  | DWARF_LOCATION_OFFSET => word_at (u64 (cfa + value0 loc))
  | DWARF_LOCATION_VAL_OFFSET => Some (addr A (cfa + value0 loc))
  | DWARF_LOCATION_REGISTER =>
      if u32 (value0 loc) <? Z.of_nat (length orig)
      then (fun x => addr A (x + value1 loc)) <$> orig !! Z.to_nat (u32 (value0 loc)) else None
  | DWARF_LOCATION_EXPRESSION => v ← expr_value loc; word_at (fst v)
  | DWARF_LOCATION_VAL_EXPRESSION => addr A ∘ fst <$> expr_value loc
  | DWARF_LOCATION_UNDEFINED | DWARF_LOCATION_INVALID => Some old
  end.
End Values.

(** * Evaluating one location *)

Section Frame.
Context (A : addr_type) (mem : Memory) (d : DwarfMemory) (regs0 : Regs).
Local Abbreviation orig := (regs_ regs0).
Hypothesis Hwf : regs_wf A regs0.
Implicit Types (s : DwarfSection) (e : EvalInfo) (loc : DwarfLocation).

Lemma regs0_shows : info_shows orig (new_regs_info regs0).
Proof. by eapply new_regs_info_shows. Qed.

(** An evaluation in the middle of the frame gives what one at its start gives. *)
Lemma Eval_frame start fin d1 i op ok :
  same_memory d d1 -> info_shows orig i ->
  DwarfOp.Eval A mem start fin (new_DwarfOp d (Some (new_regs_info regs0))) = Done (ok, op) ->
  exists d', DwarfOp.Eval A mem start fin (new_DwarfOp d1 (Some i))
             = Done (ok, put_memory d' (put_regs_info (Some i) op)) /\ same_bases d1 d'.
Proof.
  intros Hm Hi Hop.
  assert (DwarfOp.Eval A mem start fin (new_DwarfOp d1 (Some i))
          = DwarfOp.Eval A mem start fin (view d1 i (new_DwarfOp d None))) as ->
    by (destruct d, d1; unfold same_memory in Hm; simpl in Hm; subst; reflexivity).
  pose proof (uniform_Eval A mem orig start fin (new_DwarfOp d None) d1 i d (new_regs_info regs0) Hi regs0_shows) as Hu.
  assert (view d (new_regs_info regs0) (new_DwarfOp d None) = new_DwarfOp d (Some (new_regs_info regs0))) as E
    by (by destruct d). rewrite E, Hop in Hu.
  destruct (DwarfOp.Eval A mem start fin (view d1 i (new_DwarfOp d None))) as [[a t1]|]; [|done].
  destruct Hu as (-> & t & -> & -> & Hmv). exists (rebase d1 (op_memory t)). split; [by destruct t|].
  destruct Hmv as (Em & _). split; [|by repeat split]. unfold same_memory in Hm. cbn. rewrite Em. done.
Qed.

Lemma EvalExpression_run loc s e v b :
  same_memory d (sec_memory s) -> info_shows orig (eval_regs_info e) -> expr_value A mem d regs0 loc = Some (v, b) ->
  exists d', EvalExpression A mem loc (s, e) = Done (Some (v, b), (put_sec_memory d' s, e)) /\
    same_bases (sec_memory s) d'.
Proof.
  intros Hb Hi Hv. unfold expr_value in Hv.
  destruct (DwarfOp.Eval A mem _ _ (new_DwarfOp d _)) as [[[] op]|] eqn:E; try done.
  destruct (Eval_frame _ _ (sec_memory s) (eval_regs_info e) _ _ Hb Hi E) as (d' & Hrun & Hb').
  unfold EvalExpression, bind at 1, get. cbn [fst snd]. rewrite Hrun.
  exists d'. split; [|done]. destruct op as [m r x isr err cur ops st]. cbn in Hv |- *.
  destruct st as [|w st]; [done|]. destruct isr; [done|]. injection Hv as -> ->. by destruct e.
Qed.

(** Of the section only the cursor changed. *)
Definition moved s s' : Prop := s' = put_sec_memory (sec_memory s') s /\ same_bases (sec_memory s) (sec_memory s').

Lemma moved_trans s1 s2 s3 : moved s1 s2 -> moved s2 s3 -> moved s1 s3.
Proof. intros [E1 B1] [E2 B2]. split; [rewrite E2, E1; by destruct s1|by etransitivity]. Qed.

Lemma moved_refl s : moved s s.
Proof. by destruct s. Qed.

Lemma moved_put d' s : same_bases (sec_memory s) d' -> moved s (put_sec_memory d' s).
Proof. done. Qed.

(** A location whose expression gives a dex pc, which becomes that of the registers. *)
Definition sets_dex loc (w : Z) : Prop :=
  loc_type loc = DWARF_LOCATION_VAL_EXPRESSION /\ expr_value A mem d regs0 loc = Some (w, true).

(** The dex pc is the one before, or one that a location in [P] sets. *)
Definition dex_from (P : DwarfLocation -> Prop) e e' : Prop :=
  dex_pc_ (info_regs (eval_regs_info e')) = dex_pc_ (info_regs (eval_regs_info e)) \/
  exists loc, P loc /\ sets_dex loc (dex_pc_ (info_regs (eval_regs_info e'))).

(** The state after a register was evaluated: only its value, the dex pc, the flag and the cursor changed. *)
Definition evaluated (cie : DwarfCie) loc (reg v : Z) (p p' : DwarfSection * EvalInfo) : Prop :=
  let '(s, e) := p in let '(s', e') := p' in
  same_memory d (sec_memory s') /\ eval_cfa e' = eval_cfa e /\ info_shows orig (eval_regs_info e') /\
  regs_ (info_regs (eval_regs_info e')) = <[Z.to_nat reg := v]> (regs_ (info_regs (eval_regs_info e))) /\
  saved_reg_map (eval_regs_info e') = saved_reg_map (eval_regs_info e) /\
  pc_reg (info_regs (eval_regs_info e')) = pc_reg (info_regs (eval_regs_info e)) /\
  sp_reg (info_regs (eval_regs_info e')) = sp_reg (info_regs (eval_regs_info e)) /\
  return_address_undefined e'
  = return_address_undefined e
    || (bool_decide (loc_type loc = DWARF_LOCATION_UNDEFINED) && (reg =? return_address_register cie)) /\
  moved s s' /\ dex_from (eq loc) e e'.

(** The states in which a saved register is about to be evaluated. *)
Definition ready_reg (reg old : Z) s e : Prop :=
  same_memory d (sec_memory s) /\ info_shows orig (eval_regs_info e) /\ 0 <= reg /\
  Z.testbit (saved_reg_map (eval_regs_info e)) reg = true /\
  regs_ (info_regs (eval_regs_info e)) !! Z.to_nat reg = Some old.

Lemma set_reg_run reg v s e :
  set_reg A reg v (s, e)
  = Done (tt, (s, put_eval_info (put_info_regs (put_reg reg (addr A v) (info_regs (eval_regs_info e)))
                                   (eval_regs_info e)) e)).
Proof. reflexivity. Qed.

(** [set_reg] of an evaluated register. *)
Lemma evaluated_set cie loc reg v old s s1 e :
  ready_reg reg old s e -> moved s s1 -> loc_type loc <> DWARF_LOCATION_UNDEFINED ->
  evaluated cie loc reg v (s, e)
    (s1, put_eval_info (put_info_regs (put_reg reg v (info_regs (eval_regs_info e))) (eval_regs_info e)) e).
Proof.
  intros (Hb & Hi & Hr & Hs & Ho) Hm Hne. split; [eapply same_memory_bases; [exact Hb|apply Hm]|]. split; [done|]. split; [by apply put_reg_shows|].
  do 4 (split; [done|]). split; [|split; [done|by left]]. rewrite bool_decide_eq_false_2 by done. by rewrite orb_false_r.
Qed.

Lemma overlay_full old bs : len bs = size_of A -> overlay (size_of A) old bs = le_val bs.
Proof.
  intros Hl. unfold overlay. rewrite drop_ge; [by rewrite app_nil_r|]. rewrite le_bytes_length.
  unfold len in Hl. lia.
Qed.

Lemma word_at_range a v : word_at A mem a = Some v -> in_u (bits A) v.
Proof.
  clear Hwf.
  intros (bs & Hr & ->)%fmap_Some. apply ReadFully_len in Hr. eapply in_u_le_val; [done|]. destruct A; simpl; lia.
Qed.

Lemma read_into_reg_run a reg old v s e :
  regs_ (info_regs (eval_regs_info e)) !! Z.to_nat reg = Some old -> 0 <= reg -> word_at A mem a = Some v ->
  read_into_reg A mem a reg (s, e)
  = Done (true, (s, put_eval_info (put_info_regs (put_reg reg v (info_regs (eval_regs_info e)))
                                     (eval_regs_info e)) e)).
Proof.
  intros Ho Hr Hv. pose proof (word_at_range _ _ Hv) as Hrange.
  apply fmap_Some in Hv as (bs & Hbs & ->). pose proof (ReadFully_len _ _ _ _ Hbs) as Hl.
  unfold ReadFully in Hbs. rewrite (proj2 (Z.eqb_eq (len (Read mem a (size_of A))) (size_of A))) in Hbs.
  2:{ destruct (Z.eqb_spec (len (Read mem a (size_of A))) (size_of A)); [done|done]. }
  injection Hbs as E. unfold read_into_reg, bind at 1, get. rewrite E. cbn [snd]. unfold bind at 1, read_reg, reg_at.
  rewrite (proj2 (Z.leb_le _ _)), Ho by lia. unfold some_or, ret at 1. unfold bind at 1. rewrite set_reg_run.
  rewrite (overlay_full old bs Hl), addr_small by done. unfold ret. by rewrite (proj2 (Z.eqb_eq _ _) Hl).
Qed.

Lemma EvalRegister_run cie loc reg old v s e :
  ready_reg reg old s e -> reg_value A mem d regs0 (eval_cfa e) old loc = Some v ->
  exists p', EvalRegister A mem cie loc reg (s, e) = Done (true, p') /\ evaluated cie loc reg v (s, e) p'.
Proof.
  intros Hrd Hv. pose proof Hrd as (Hb & Hi & Hr & Hs & Ho). pose proof Hi as (Ht & Hmax & _).
  unfold EvalRegister, bind at 1, get. cbn [fst snd]. unfold reg_value in Hv.
  destruct (loc_type loc) eqn:El.
  - injection Hv as <-. eexists. split; [reflexivity|]. do 3 (split; [done|]).
    rewrite list_insert_id by done. do 4 (split; [done|]). rewrite El. cbn. rewrite orb_false_r. split; [done|]. split; [apply moved_refl|by left].
  - injection Hv as <-. unfold bind at 1. destruct (Z.eqb_spec reg (return_address_register cie)) as [E|E].
    + eexists. split; [reflexivity|]. do 3 (split; [done|]).
      change (eval_regs_info (put_undefined e)) with (eval_regs_info e). rewrite list_insert_id by done.
      do 4 (split; [done|]). rewrite El, (proj2 (Z.eqb_eq _ _) E). cbn. rewrite orb_true_r. split; [done|]. split; [apply moved_refl|by left].
    + eexists. split; [reflexivity|]. do 3 (split; [done|]). rewrite list_insert_id by done.
      do 4 (split; [done|]). rewrite El, (proj2 (Z.eqb_neq _ _) E). cbn. rewrite orb_false_r. split; [done|]. split; [apply moved_refl|by left].
  - unfold bind at 1. rewrite (read_into_reg_run _ _ old v) by done. eexists. split; [reflexivity|].
    eapply evaluated_set; [done|apply moved_refl|by rewrite El].
  - injection Hv as <-. unfold bind at 1. rewrite set_reg_run. eexists. split; [reflexivity|].
    eapply evaluated_set; [done|apply moved_refl|by rewrite El].
  - destruct (Z.ltb_spec (u32 (value0 loc)) (Z.of_nat (length orig))) as [Hlt|]; [|done].
    apply fmap_Some in Hv as (x & Hx & ->). cbv zeta. unfold bind at 1, on_eval_regs_info at 1, on_eval_info, zoom at 1 2.
    unfold gets. cbn [snd]. rewrite (proj2 (Z.leb_gt _ _)) by (unfold Total, total_regs; lia).
    unfold bind at 1, on_eval_regs_info at 1, on_eval_info, zoom at 1 2. cbn [snd fst eval_regs_info put_eval_info].
    rewrite (Get_run orig (u32 (value0 loc)) x) by (done || apply wrap_range; lia).
    unfold bind at 1. rewrite set_reg_run. eexists. split; [reflexivity|].
    cbn [fst snd put_eval_info eval_regs_info eval_cfa return_address_undefined].
    apply (evaluated_set cie loc reg (addr A (x + value1 loc)) old s s e); [done|apply moved_refl|by rewrite El].
  - apply bind_Some in Hv as ([w b] & Hw & Hv). unfold bind at 1.
    destruct (EvalExpression_run loc s e w b Hb Hi Hw) as (d' & -> & Hb'). rewrite decide_True by done.
    unfold bind at 1. cbn [fst] in Hv. rewrite (read_into_reg_run w reg old v) by done.
    eexists. split; [reflexivity|]. eapply evaluated_set; [done|by apply moved_put|by rewrite El].
  - apply fmap_Some in Hv as ([w b] & Hw & ->). unfold bind at 1.
    destruct (EvalExpression_run loc s e w b Hb Hi Hw) as (d' & -> & Hb'). rewrite decide_False by done.
    unfold bind at 1. rewrite set_reg_run. cbn [compose fst].
    pose proof (evaluated_set cie loc reg (addr A w) old s (put_sec_memory d' s) e Hrd (moved_put _ _ Hb') ltac:(by rewrite El)) as He.
    destruct b; (eexists; split; [reflexivity|]); [|exact He].
    destruct He as (? & ? & (? & ? & ? & ? & ? & ?) & ? & ? & ? & ? & ? & ? & _). split; [done|]. split; [done|]. split; [by repeat split|].
    do 6 (split; [done|]). right. exists loc. by split.
Qed.

(** * The loop over the locations *)

(** Saving a register that is not yet saved. *)
Lemma Save_run reg s e :
  info_shows orig (eval_regs_info e) -> 0 <= reg < Z.of_nat (length orig) ->
  Z.testbit (saved_reg_map (eval_regs_info e)) reg = false ->
  exists i', on_eval_regs_info (Save reg) (s, e) = Done (tt, (s, put_eval_info i' e)) /\ info_shows orig i' /\
    info_regs i' = info_regs (eval_regs_info e) /\
    (forall k, 0 <= k -> Z.testbit (saved_reg_map i') k = Z.testbit (saved_reg_map (eval_regs_info e)) k || (k =? reg)).
Proof.
  intros Hi Hr Hs. 
  assert (wp no_fault (Save reg) (fun _ i' => info_shows orig i' /\ info_regs i' = info_regs (eval_regs_info e) /\
    (forall k, 0 <= k -> Z.testbit (saved_reg_map i') k = Z.testbit (saved_reg_map (eval_regs_info e)) k || (k =? reg)))
    (eval_regs_info e)) as Hw by (apply (Save_shows _ orig); eauto).
  apply wp_elim in Hw as ([] & i' & Hrun & H). exists i'. split; [|done].
  unfold on_eval_regs_info, on_eval_info, zoom. cbn [snd]. by rewrite Hrun.
Qed.

(** The new value of register [r]: that of its location, or the one it has. *)
Definition new_value (cfa : Z) (m : gmap Z DwarfLocation) (r : nat) (old : Z) : option Z :=
  match m !! Z.of_nat r with Some loc => reg_value A mem d regs0 cfa old loc | None => Some old end.

(** Whether the return address is undefined. *)
Definition undefined_ra (cie : DwarfCie) (m : gmap Z DwarfLocation) : bool :=
  match m !! return_address_register cie with
  | Some loc => bool_decide (loc_type loc = DWARF_LOCATION_UNDEFINED)
  | None => false
  end.

(** The entries can be evaluated: their registers are not saved yet and have a value. *)
Definition evaluable (cfa : Z) (entries : list (Z * DwarfLocation)) (i : RegsInfo) : Prop :=
  forall k loc, (k, loc) ∈ entries ->
    0 <= k /\ (k < Z.of_nat (length orig) ->
      Z.testbit (saved_reg_map i) k = false /\
      exists old v, orig !! Z.to_nat k = Some old /\ reg_value A mem d regs0 cfa old loc = Some v).

(** The state after the loop. *)
Definition evaluated_all (cie : DwarfCie) (m : gmap Z DwarfLocation) (p p' : DwarfSection * EvalInfo) : Prop :=
  let '(s, e) := p in let '(s', e') := p' in
  same_memory d (sec_memory s') /\ eval_cfa e' = eval_cfa e /\ info_shows orig (eval_regs_info e') /\
  pc_reg (info_regs (eval_regs_info e')) = pc_reg (info_regs (eval_regs_info e)) /\
  sp_reg (info_regs (eval_regs_info e')) = sp_reg (info_regs (eval_regs_info e)) /\
  (forall r cur, regs_ (info_regs (eval_regs_info e)) !! r = Some cur ->
     regs_ (info_regs (eval_regs_info e')) !! r
     = match m !! Z.of_nat r with
       | Some loc => old ← orig !! r; reg_value A mem d regs0 (eval_cfa e) old loc
       | None => Some cur
       end) /\
  return_address_undefined e' = return_address_undefined e || undefined_ra cie m /\ moved s s' /\
  dex_from (fun loc => exists k, m !! k = Some loc) e e'.

Lemma evaluated_all_skip cie k loc m s e p' :
  Z.of_nat (length orig) <= k -> m !! k = None -> return_address_register cie < Z.of_nat (length orig) ->
  length (regs_ (info_regs (eval_regs_info e))) = length orig ->
  evaluated_all cie m (s, e) p' -> evaluated_all cie (<[k := loc]> m) (s, e) p'.
Proof.
  intros Hk Hm Hra Hlen. destruct p' as [s' e']. unfold evaluated_all, undefined_ra.
  rewrite (lookup_insert_ne m k (return_address_register cie)) by lia.
  intros (H1 & H2 & H3 & H4 & H5 & H6 & H7 & H8 & H9). do 5 (split; [done|]). split.
  { intros r cur Hr. pose proof (lookup_lt_Some _ _ _ Hr). rewrite lookup_insert_ne by lia. by apply H6. }
  split; [done|]. split; [done|]. destruct H9 as [?|(loc' & [k' Hk'] & ?)]; [by left|right]. exists loc'.
  split; [|done]. exists k'. rewrite lookup_insert_ne; [done|]. intros <-. by rewrite Hm in Hk'.
Qed.

Lemma evaluated_all_cons cie k loc v old i' m s e s1 e1 p' :
  orig !! Z.to_nat k = Some old -> 0 <= k -> m !! k = None ->
  reg_value A mem d regs0 (eval_cfa e) old loc = Some v ->
  info_regs i' = info_regs (eval_regs_info e) ->
  evaluated cie loc k v (s, put_eval_info i' e) (s1, e1) -> evaluated_all cie m (s1, e1) p' ->
  evaluated_all cie (<[k := loc]> m) (s, e) p'.
Proof.
  intros Ho Hk Hm Hv Hi (A1 & A2 & A3 & A4 & A5 & A6 & A7 & A8 & A9 & A10). destruct p' as [s' e'].
  cbn in A2, A4, A6, A7, A8. rewrite Hi in A4, A6, A7. intros (B1 & B2 & B3 & B4 & B5 & B6 & B7 & B8 & B9). split; [done|]. split; [congruence|]. split; [done|].
  split; [congruence|]. split; [congruence|]. split.
  - intros r cur Hr. rewrite A4 in B6. destruct (decide (Z.of_nat r = k)) as [<-|Hne].
    + rewrite lookup_insert_eq. rewrite Nat2Z.id in *. rewrite Ho. simpl. rewrite Hv.
      rewrite (B6 r v), Hm; [done|]. apply list_lookup_insert_eq. by eapply lookup_lt_Some.
    + rewrite lookup_insert_ne by done. rewrite <- A2. apply B6. rewrite list_lookup_insert_ne; [done|lia].
  - split; [|split; [by eapply moved_trans|]].
    2:{ destruct B9 as [B9|(loc' & [k' Hk'] & Hd)].
        - unfold dex_from. rewrite B9. destruct A10 as [A10|(loc' & <- & Hd)]; [left; cbn in A10; congruence|].
          right. exists loc. split; [exists k; apply lookup_insert_eq|done].
        - right. exists loc'. split; [|done]. exists k'. rewrite lookup_insert_ne; [done|]. intros <-. by rewrite Hm in Hk'. }
    rewrite B7, A8. unfold undefined_ra. destruct (Z.eqb_spec k (return_address_register cie)) as [<-|Hne].
    + by rewrite lookup_insert_eq, Hm, andb_true_r, orb_false_r.
    + by rewrite lookup_insert_ne, andb_false_r, orb_false_r.
Qed.

Lemma eval_registers_run cie entries s e :
  NoDup entries.*1 -> same_memory d (sec_memory s) -> info_shows orig (eval_regs_info e) ->
  0 <= return_address_register cie < Z.of_nat (length orig) ->
  evaluable (eval_cfa e) entries (eval_regs_info e) ->
  exists p', eval_registers A mem cie entries (s, e) = Done (true, p') /\
    evaluated_all cie (list_to_map entries) (s, e) p'.
Proof.
  revert s e. induction entries as [|[k loc] entries IH]; intros s e Hnd Hb Hi Hra Hev.
  { eexists. split; [reflexivity|]. do 5 (split; [done|]). split; [intros r cur ->; done|].
    change (list_to_map []) with (∅ : gmap Z DwarfLocation).
    unfold undefined_ra. rewrite lookup_empty, orb_false_r. split; [done|]. split; [apply moved_refl|by left]. }
  apply NoDup_cons in Hnd as [Hk Hnd]. pose proof Hi as (Ht & Hmax & Hlen & _).
  destruct (Hev k loc) as [Hk0 Hev1]; [left|]. cbn [eval_registers list_to_map foldr].
  assert (evaluable (eval_cfa e) entries (eval_regs_info e)) as Hev' by (intros k' loc' ?; apply Hev; by right).
  destruct (Z.le_gt_cases (Z.of_nat (length orig)) k) as [Hge|Hlt].
  - destruct (IH s e Hnd Hb Hi Hra Hev') as (p' & Hrun & Hall). exists p'. split; [|by apply evaluated_all_skip; [|by apply not_elem_of_list_to_map_1|lia|..]].
    destruct (k =? CFA_REG); [done|]. unfold bind at 1, on_eval_regs_info at 1, on_eval_info, zoom at 1 2, gets.
    cbn [snd]. rewrite (proj2 (Z.leb_le _ _)) by (unfold Total, total_regs; lia). by destruct e.
  - rewrite (proj2 (Z.eqb_neq _ _)) by (unfold CFA_REG; lia).
    destruct (Hev1 Hlt) as (Hbit & old & v & Hold & Hval).
    unfold bind at 1, on_eval_regs_info at 1, on_eval_info, zoom at 1 2, gets. cbn [snd].
    rewrite (proj2 (Z.leb_gt _ _)) by (unfold Total, total_regs; lia).
    destruct (Save_run k s e Hi ltac:(lia) Hbit) as (i' & Hsave & Hi' & Hregs & Hbits).
    unfold bind at 1. cbn [fst]. replace (put_eval_info (eval_regs_info e) e) with e by (by destruct e).
    rewrite Hsave. assert (regs_ (info_regs (eval_regs_info e)) !! Z.to_nat k = Some old) as Hcur.
    { destruct Hi as (_ & _ & _ & _ & _ & Hshow). specialize (Hshow _ _ Hold).
      rewrite Z2Nat.id, Hbit in Hshow by lia. done. }
    destruct (EvalRegister_run cie loc k old v s (put_eval_info i' e)) as ([s1 e1] & Hreg & Hev2).
    { split; [done|]. split; [done|]. split; [done|]. cbn. rewrite Hbits, Z.eqb_refl, orb_true_r, Hregs by lia. done. }
    { done. }
    unfold bind at 1. rewrite Hreg. pose proof Hev2 as (C1 & C2 & C3 & C4 & C5 & _).
    destruct (IH s1 e1 Hnd C1 C3 Hra) as (p' & Hrun & Hall).
    { intros k' loc' Hin. destruct (Hev' k' loc' Hin) as [? Hx]. split; [done|]. intros Hlt'.
      destruct (Hx Hlt') as (Hb' & Hx'). rewrite C2. split; [|done]. rewrite C5. cbn. rewrite Hbits, Hb' by done.
      apply Z.eqb_neq. intros ->. apply Hk. apply list_elem_of_fmap. by exists (k, loc'). }
    exists p'. split; [done|]. eapply evaluated_all_cons; try done.
    apply not_elem_of_list_to_map_1. done.
Qed.
End Frame.

(** * The whole frame *)

Section Whole.
Context (A : addr_type) (mem : Memory).
Implicit Types (s : DwarfSection).

Lemma eval_cfa_location_run d regs0 loc s e cfa :
  regs_wf A regs0 -> same_memory d (sec_memory s) -> eval_regs_info e = new_regs_info regs0 -> 0 <= value0 loc ->
  cfa_value A mem d regs0 loc = Some cfa ->
  exists d', eval_cfa_location A mem loc (s, e) = Done (true, (put_sec_memory d' s, put_eval_cfa cfa e)) /\
    same_bases (sec_memory s) d'.
Proof.
  intros Hwf Hb He Hv0 Hv. unfold cfa_value in Hv. unfold eval_cfa_location, bind at 1, get. cbn [snd].
  rewrite He. change (info_regs (new_regs_info regs0)) with regs0.
  destruct (loc_type loc); try done.
  - destruct (Z.ltb_spec (value0 loc) (Z.of_nat (length (regs_ regs0)))) as [Hlt|]; [|done].
    apply fmap_Some in Hv as (x & Hx & ->). destruct Hwf as (Ht & _).
    rewrite (proj2 (Z.leb_gt _ _)) by (unfold total_regs; lia).
    unfold bind at 1, read_reg, reg_at. rewrite (proj2 (Z.leb_le _ _)), Hx by lia.
    exists (sec_memory s). split; [|done]. by destruct s.
  - apply fmap_Some in Hv as ([v b] & Hv & ->). unfold bind at 1.
    destruct (EvalExpression_run A mem d regs0 Hwf loc s e v b Hb) as (d' & -> & Hb'); [|done|by exists d'].
    rewrite He. by eapply regs0_shows.
Qed.

(** Every register after the PC and the SP were set. *)
Lemma set_pc_sp_lookup r0 v cfa (r : nat) old :
  regs_ r0 !! r = Some old -> 0 <= pc_reg r0 -> 0 <= sp_reg r0 ->
  regs_ (set_sp A cfa (set_pc A v r0)) !! r
  = if Z.of_nat r =? sp_reg r0 then Some (addr A cfa) else if Z.of_nat r =? pc_reg r0 then Some (addr A v) else Some old.
Proof.
  intros Hr Hpc Hsp. pose proof (lookup_lt_Some _ _ _ Hr). cbn.
  destruct (Z.eqb_spec (Z.of_nat r) (sp_reg r0)) as [E|].
  - rewrite <- E, Nat2Z.id. apply list_lookup_insert_eq. by rewrite length_insert.
  - rewrite list_lookup_insert_ne by lia. destruct (Z.eqb_spec (Z.of_nat r) (pc_reg r0)) as [E|].
    + rewrite <- E, Nat2Z.id. by apply list_lookup_insert_eq.
    + rewrite list_lookup_insert_ne by lia. done.
Qed.

Lemma finish_frame_run cie e r0 v p :
  0 <= return_address_register cie -> 0 <= pc_reg r0 < Z.of_nat (length (regs_ r0)) ->
  (if return_address_undefined e then v = 0 else regs_ r0 !! Z.to_nat (return_address_register cie) = Some v) ->
  finish_frame A cie e r0 p = Done ((set_sp A (eval_cfa e) (set_pc A v r0), addr A v =? 0), p).
Proof.
  intros Hra Hpc Hv. unfold finish_frame.
  assert ((if return_address_undefined e then ret 0 else read_reg (return_address_register cie) r0) p = Done (v, p)) as E.
  { destruct (return_address_undefined e); [by rewrite Hv|]. unfold read_reg, reg_at.
    by rewrite (proj2 (Z.leb_le _ _)), Hv by lia. }
  unfold bind at 1. rewrite E. cbv zeta. unfold bind at 1, read_reg, reg_at.
  change (pc_reg (set_pc A v r0)) with (pc_reg r0). rewrite (proj2 (Z.leb_le _ _)) by lia.
  change (regs_ (set_pc A v r0)) with (<[Z.to_nat (pc_reg r0) := addr A v]> (regs_ r0)).
  by rewrite list_lookup_insert_eq by lia.
Qed.
(** The rules of a row can be evaluated in a frame: the CFA and every location of a known register
    have a value, and the return address is [ra]. *)
Definition frame_rules d cie (m : gmap Z DwarfLocation) regs cfa ra : Prop :=
  regs_wf A regs /\ map_Forall (fun k _ => 0 <= k) m /\ 0 <= return_address_register cie < total_regs regs /\
  (exists loc, m !! CFA_REG = Some loc /\ 0 <= value0 loc /\ cfa_value A mem d (set_dex_pc 0 regs) loc = Some cfa) /\
  (forall k loc old, m !! k = Some loc -> regs_ regs !! Z.to_nat k = Some old ->
     is_Some (reg_value A mem d (set_dex_pc 0 regs) cfa old loc)) /\
  (if undefined_ra cie m then Some 0
   else old ← regs_ regs !! Z.to_nat (return_address_register cie);
        new_value A mem d (set_dex_pc 0 regs) cfa m (Z.to_nat (return_address_register cie)) old) = Some ra.

(** The registers of the caller in such a frame. *)
Definition caller_regs d (m : gmap Z DwarfLocation) regs cfa ra regs' : Prop :=
  total_regs_ regs' = total_regs_ regs /\ length (regs_ regs') = length (regs_ regs) /\
  pc_reg regs' = pc_reg regs /\ sp_reg regs' = sp_reg regs /\
  (dex_pc_ regs' = 0 \/ exists k loc, m !! k = Some loc /\ sets_dex A mem d (set_dex_pc 0 regs) loc (dex_pc_ regs')) /\
  forall (r : nat) old, regs_ regs !! r = Some old ->
    regs_ regs' !! r
    = if Z.of_nat r =? sp_reg regs then Some (addr A cfa)
      else if Z.of_nat r =? pc_reg regs then Some (addr A ra)
      else new_value A mem d (set_dex_pc 0 regs) cfa m r old.

(** The whole of [Eval], from any position of the cursor. *)
Lemma Eval_caller_regs d s regs l cie order finished cfa ra :
  same_memory d (sec_memory s) -> order ≡ₚ map_to_list (locs l) -> frame_rules d cie (locs l) regs cfa ra ->
  exists s' regs',
    DwarfSection.Eval A mem order cie l regs finished s = Done ((true, regs', addr A ra =? 0), s') /\
    moved s s' /\ caller_regs d (locs l) regs cfa ra regs'.
Proof.
  intros Hb0 Horder (Hwf & Hkeys & Hra & (loc & Hloc & Hv0 & Hcfa) & Hvals & Hpc).
  set (regs0 := set_dex_pc 0 regs). assert (regs_wf A regs0) as Hwf0 by exact Hwf.
  pose proof Hwf as (Ht & Hmax & Hrange & Hpcr & Hspr). unfold total_regs in Hra.
  assert (NoDup order.*1) as Hnd by (rewrite Horder; apply NoDup_fst_map_to_list).
  assert (list_to_map order = locs l) as Hmap
    by (rewrite (list_to_map_proper order _ Hnd Horder); apply list_to_map_to_list).
  destruct (eval_cfa_location_run d regs0 loc s (mkEvalInfo 0 false (new_regs_info regs0)) cfa)
    as (d' & Hrun1 & Hb); try done.
  destruct (eval_registers_run A mem d regs0 Hwf0 cie order (put_sec_memory d' s)
              (mkEvalInfo cfa false (new_regs_info regs0))) as ([s2 e2] & Hrun2 & Hall); try done.
  { exact (same_memory_bases _ _ _ Hb0 Hb). }
  { by eapply regs0_shows. }
  { change (regs_ regs0) with (regs_ regs). lia. }
  { intros k loc' Hin. rewrite Horder in Hin. apply elem_of_map_to_list in Hin.
    split; [by apply (Hkeys k loc')|]. intros Hlt. split; [apply Z.bits_0|].
    destruct (lookup_lt_is_Some_2 (regs_ regs) (Z.to_nat k)) as [old Hold]; [cbn in Hlt; pose proof (Hkeys k loc' Hin); simpl in *; lia|].
    destruct (Hvals _ _ _ Hin Hold) as [v Hv]. by exists old, v. }
  rewrite Hmap in Hall. destruct Hall as (Hb2 & Hcfa2 & Hi2 & Hp2 & Hs2 & Hregs2 & Hu2 & Hm2 & Hdex2).
  cbn in Hcfa2, Hp2, Hs2, Hu2. cbn [eval_regs_info info_regs new_regs_info] in Hregs2.
  unfold DwarfSection.Eval. rewrite (proj2 (Z.leb_gt _ _)) by (unfold total_regs; lia). rewrite Hloc.
  cbv zeta. fold regs0. unfold bind at 1, get at 1. unfold bind at 1. rewrite Hrun1. cbn [put_eval_cfa].
  unfold bind at 1. change (put_eval_cfa cfa _) with (mkEvalInfo cfa false (new_regs_info regs0)). rewrite Hrun2.
  assert (forall r old, regs_ regs !! r = Some old ->
    regs_ (info_regs (eval_regs_info e2)) !! r = new_value A mem d regs0 cfa (locs l) r old) as Hnew.
  { intros r old Hr. rewrite (Hregs2 r old Hr). unfold new_value. change (regs_ regs0) with (regs_ regs). by rewrite Hr. }
  pose proof Hi2 as (_ & _ & Hlen & _). change (regs_ regs0) with (regs_ regs) in Hlen.
  unfold bind at 1, get at 1. cbn [snd]. unfold bind at 1. rewrite (finish_frame_run cie e2 _ ra); [|lia|lia|].
  - eexists _, _. split; [reflexivity|]. split; [exact (moved_trans s _ s2 (moved_put _ _ Hb) Hm2)|].
    split; [cbn; destruct Hi2 as [-> _]; by rewrite Ht|]. split; [cbn; by rewrite !length_insert|]. do 2 (split; [done|]).
    split; [cbn; destruct Hdex2 as [->|(x & [k Hk] & Hx)]; [by left|right; by exists k, x]|].
    intros r old Hr. fold regs0. rewrite Hcfa2, <- Hp2, <- Hs2, <- (Hnew r old Hr).
    destruct (lookup_lt_is_Some_2 (regs_ (info_regs (eval_regs_info e2))) r) as [v Hv].
    { rewrite Hlen. by eapply lookup_lt_Some. }
    rewrite (set_pc_sp_lookup _ ra cfa r v Hv) by lia. by rewrite Hv.
  - rewrite Hu2. cbn [orb]. destruct (undefined_ra cie (locs l)); [by injection Hpc|].
    apply bind_Some in Hpc as (old & Hold & Hpc). by rewrite (Hnew _ _ Hold).
Qed.

(** ** The frame of the caller as a function *)

Definition sets_dex_b d regs0 (loc : DwarfLocation) : bool :=
  bool_decide (loc_type loc = DWARF_LOCATION_VAL_EXPRESSION) &&
  match expr_value A mem d regs0 loc with Some (_, b) => b | None => false end.

(** The registers of the caller and whether the frame is the last one; [None] when a rule cannot be
    evaluated, or when one sets the dex pc. *)
Definition caller_of d cie (m : gmap Z DwarfLocation) regs : option (Regs * bool) :=
  let regs0 := set_dex_pc 0 regs in
  if negb (bool_decide (map_Forall (fun k loc => 0 <= k /\ sets_dex_b d regs0 loc = false) m)
           && (0 <=? return_address_register cie) && (return_address_register cie <? total_regs regs)) then None
  else
    loc ← m !! CFA_REG;
    if value0 loc <? 0 then None
    else
      cfa ← cfa_value A mem d regs0 loc;
      values ← mapM (fun x => new_value A mem d regs0 cfa m x.1 x.2) (imap pair (regs_ regs));
      ra ← (if undefined_ra cie m then Some 0 else values !! Z.to_nat (return_address_register cie));
      Some (set_sp A cfa (set_pc A ra (mkRegs (total_regs_ regs) values 0 (pc_reg regs) (sp_reg regs))), addr A ra =? 0).

(** The parts of a frame that has a caller. *)
Lemma caller_of_inv d cie m regs regs' fin :
  caller_of d cie m regs = Some (regs', fin) ->
  map_Forall (fun k loc => 0 <= k /\ sets_dex_b d (set_dex_pc 0 regs) loc = false) m /\
  0 <= return_address_register cie < total_regs regs /\
  exists loc cfa values ra,
    m !! CFA_REG = Some loc /\ 0 <= value0 loc /\ cfa_value A mem d (set_dex_pc 0 regs) loc = Some cfa /\
    (forall r old, regs_ regs !! r = Some old ->
       exists v, values !! r = Some v /\ new_value A mem d (set_dex_pc 0 regs) cfa m r old = Some v) /\
    length values = length (regs_ regs) /\
    (if undefined_ra cie m then Some 0 else values !! Z.to_nat (return_address_register cie)) = Some ra /\
    regs' = set_sp A cfa (set_pc A ra (mkRegs (total_regs_ regs) values 0 (pc_reg regs) (sp_reg regs))) /\
    fin = (addr A ra =? 0).
Proof.
  unfold caller_of. cbv zeta. destruct (bool_decide_reflect (map_Forall (fun k loc => 0 <= k /\ sets_dex_b d (set_dex_pc 0 regs) loc = false) m)) as [Hm|]; [|done].
  destruct (Z.leb_spec 0 (return_address_register cie)); [|done].
  destruct (Z.ltb_spec (return_address_register cie) (total_regs regs)); [|done]. cbn [andb negb].
  intros (loc & Hloc & H1)%bind_Some. destruct (Z.ltb_spec (value0 loc) 0); [done|].
  apply bind_Some in H1 as (cfa & Hcfa & (values & Hv & (ra & Hra & [= <- <-])%bind_Some)%bind_Some).
  split; [done|]. split; [done|]. exists loc, cfa, values, ra. do 3 (split; [done|]). apply mapM_Some in Hv.
  pose proof (Forall2_length _ _ _ Hv) as Hlen. rewrite length_imap in Hlen. split; [|by split_and!].
  intros r old Hr. destruct (lookup_lt_is_Some_2 values r) as [v Hvr]; [rewrite <- Hlen; by eapply lookup_lt_Some|].
  exists v. split; [done|]. assert (imap pair (regs_ regs) !! r = Some (r, old)) as Hi by (by rewrite list_lookup_imap, Hr).
  by destruct (Forall2_lookup_lr _ _ _ _ _ _ Hv Hi Hvr).
Qed.

(** A frame that has a caller can be evaluated, and it is the only answer. *)
Lemma caller_of_rules d cie m regs regs' fin :
  regs_wf A regs -> caller_of d cie m regs = Some (regs', fin) ->
  exists cfa ra, frame_rules d cie m regs cfa ra.
Proof.
  intros Hwf (Hm & Hra & loc & cfa & values & ra & Hloc & Hv0 & Hcfa & Hvals & Hlen & Era & _)%caller_of_inv.
  pose proof Hwf as (Ht & _). exists cfa, ra. split; [done|]. split; [intros k x Hk; by apply (Hm k x)|]. split; [done|].
  split; [by exists loc|]. split.
  - intros k x old Hk Hold. destruct (Hvals _ _ Hold) as (v & _ & Hv). unfold new_value in Hv.
    rewrite Z2Nat.id, Hk in Hv by (by apply (Hm k x)). by exists v.
  - destruct (undefined_ra cie m); [done|].
    destruct (lookup_lt_is_Some_2 (regs_ regs) (Z.to_nat (return_address_register cie))) as [old Hold].
    { unfold total_regs in Hra. lia. }
    rewrite Hold. cbn. destruct (Hvals _ _ Hold) as (v & Hv & ->). congruence.
Qed.

Lemma frame_rules_unique d cie m regs cfa ra cfa' ra' :
  frame_rules d cie m regs cfa ra -> frame_rules d cie m regs cfa' ra' -> cfa' = cfa /\ ra' = ra.
Proof.
  intros (_ & _ & _ & (loc & Hl & _ & Hc) & _ & Hr) (_ & _ & _ & (loc' & Hl' & _ & Hc') & _ & Hr').
  assert (cfa' = cfa) as -> by congruence. split; [done|]. congruence.
Qed.

Lemma sets_dex_false d regs0 loc w : sets_dex_b d regs0 loc = false -> ~ sets_dex A mem d regs0 loc w.
Proof. intros Hb [Ht Hv]. unfold sets_dex_b in Hb. by rewrite Hv, bool_decide_eq_true_2 in Hb. Qed.

Lemma caller_of_unique d cie m regs regs' fin cfa ra r :
  regs_wf A regs -> caller_of d cie m regs = Some (regs', fin) ->
  frame_rules d cie m regs cfa ra -> caller_regs d m regs cfa ra r -> r = regs' /\ (addr A ra =? 0) = fin.
Proof.
  intros Hwf Hc Hf (Et & El & Ep & Es & Ed & Hr).
  destruct (caller_of_rules _ _ _ _ _ _ Hwf Hc) as (cfa0 & ra0 & Hf0).
  pose proof Hc as (Hm & Hra & loc & cfa1 & values & ra1 & Hloc & Hv0 & Hcfa & Hvals & Hlen & Era & -> & ->)%caller_of_inv.
  assert (cfa1 = cfa) as -> by (destruct Hf as (_ & _ & _ & (loc' & Hl' & _ & Hc') & _); congruence).
  assert (ra1 = ra) as ->.
  { destruct Hf as (_ & _ & _ & _ & _ & Hra'). destruct (undefined_ra cie m); [congruence|].
    apply bind_Some in Hra' as (old & Hold & Hv). destruct (Hvals _ _ Hold) as (v & Hv1 & Hv2). congruence. }
  split; [|done]. destruct r as [t l dx p sp]. cbn in *. subst t p sp. unfold set_sp, set_pc, put_reg. cbn.
  assert (dx = 0) as ->.
  { destruct Ed as [?|(k & x & Hk & Hx)]; [done|]. exfalso. eapply sets_dex_false; [by apply (Hm k x)|exact Hx]. }
  f_equal. apply list_eq. intros i. destruct Hwf as (Ht & _ & _ & Hpc & Hsp).
  destruct (regs_ regs !! i) as [old|] eqn:Hold.
  - rewrite (Hr _ _ Hold). pose proof (lookup_lt_Some _ _ _ Hold). destruct (Hvals _ _ Hold) as (v & Hv1 & Hv2).
    destruct (Z.eqb_spec (Z.of_nat i) (sp_reg regs)) as [E|].
    + rewrite <- E, Nat2Z.id. symmetry. apply list_lookup_insert_eq. rewrite length_insert. lia.
    + rewrite list_lookup_insert_ne by lia. destruct (Z.eqb_spec (Z.of_nat i) (pc_reg regs)) as [E|].
      * rewrite <- E, Nat2Z.id. symmetry. apply list_lookup_insert_eq. lia.
      * rewrite list_lookup_insert_ne by lia. congruence.
  - apply lookup_ge_None in Hold. rewrite !lookup_ge_None_2; [done|rewrite !length_insert|]; lia.
Qed.

(** The registers of the caller are well formed. *)
Lemma reg_value_range d regs0 cfa old loc v :
  in_u (bits A) old -> reg_value A mem d regs0 cfa old loc = Some v -> in_u (bits A) v.
Proof.
  intros Ho. unfold reg_value. destruct (loc_type loc).
  - by intros [= <-].
  - by intros [= <-].
  - apply word_at_range.
  - intros [= <-]. apply addr_range.
  - destruct (_ <? _); [|done]. intros (x & _ & ->)%fmap_Some. apply addr_range.
  - intros (x & _ & Hx)%bind_Some. by eapply word_at_range.
  - intros (x & _ & ->)%fmap_Some. apply addr_range.
Qed.

Lemma caller_of_wf d cie m regs regs' fin :
  regs_wf A regs -> caller_of d cie m regs = Some (regs', fin) -> regs_wf A regs'.
Proof.
  intros (Ht & Hmax & Hrange & Hpc & Hsp) (_ & _ & loc & cfa & values & ra & _ & _ & _ & Hvals & Hlen & _ & -> & _)%caller_of_inv.
  unfold set_sp, set_pc, put_reg. split; cbn; [rewrite !length_insert; lia|]. split; [done|]. split; [|done].
  do 2 (apply Forall_insert; [|apply addr_range]). apply Forall_lookup. intros i v Hv.
  destruct (lookup_lt_is_Some_2 (regs_ regs) i) as [old Hold]; [rewrite <- Hlen; by eapply lookup_lt_Some|].
  destruct (Hvals _ _ Hold) as (v' & Hv' & Hn). assert (v' = v) as -> by congruence.
  pose proof (proj1 (Forall_lookup _ _) Hrange _ _ Hold) as Ho. unfold new_value in Hn.
  destruct (m !! Z.of_nat i); [by eapply reg_value_range|congruence].
Qed.
End Whole.

(** * Properties *)

(** C4. [Eval] computes the frame of the caller: when the CFA and every location of a known register
    have a value over the registers of the callee and the process memory, it succeeds, and then
    every register holds the value of its location (or its old one when it has none), the SP is the
    CFA, the PC is the value of the return address register (zero when that is undefined), and
    [finished] tells whether the PC is zero. This holds for every order in which the unordered map
    yields the locations: a location that names a register sees the callee's value also after the
    register was overwritten. *)
Theorem dwarf_eval_computes_caller A mem s regs l cie order finished loc cfa ra
  (Hwf : regs_wf A regs) (Horder : order ≡ₚ map_to_list (locs l))
  (Hkeys : map_Forall (fun k _ => 0 <= k) (locs l))
  (Hra : 0 <= return_address_register cie < total_regs regs)
  (Hloc : locs l !! CFA_REG = Some loc) (Hv0 : 0 <= value0 loc)
  (Hcfa : cfa_value A mem (sec_memory s) (set_dex_pc 0 regs) loc = Some cfa)
  (Hvals : forall k loc' old, locs l !! k = Some loc' -> regs_ regs !! Z.to_nat k = Some old ->
     is_Some (reg_value A mem (sec_memory s) (set_dex_pc 0 regs) cfa old loc'))
  (Hpc : (if undefined_ra cie (locs l) then Some 0
          else old ← regs_ regs !! Z.to_nat (return_address_register cie);
               new_value A mem (sec_memory s) (set_dex_pc 0 regs) cfa (locs l)
                 (Z.to_nat (return_address_register cie)) old) = Some ra) :
  exists s' regs',
    DwarfSection.Eval A mem order cie l regs finished s = Done ((true, regs', addr A ra =? 0), s') /\
    forall (r : nat) old, regs_ regs !! r = Some old ->
      regs_ regs' !! r
      = if Z.of_nat r =? sp_reg regs then Some (addr A cfa)
        else if Z.of_nat r =? pc_reg regs then Some (addr A ra)
        else new_value A mem (sec_memory s) (set_dex_pc 0 regs) cfa (locs l) r old.
Proof.
  destruct (Eval_caller_regs A mem (sec_memory s) s regs l cie order finished cfa ra)
    as (s' & regs' & Hrun & _ & _ & _ & _ & _ & _ & Hregs); [done|done| |by exists s', regs'].
  do 3 (split; [done|]). split; [by exists loc|]. by split.
Qed.

(** * Witness *)

(** A frame that swaps two registers: SP 16, the return address 0x1234 at 24, the registers 11 and
    12 hold the caller's 12 and 11. *)
Definition frame_regs : Regs := put_reg 11 5 (put_reg 12 6 (put_reg 13 16 (new_regs 16 15 13))).
Definition frame_memory : Memory := MemoryBuffer.memory (MemoryBuffer.mk (le_bytes 40 (2 ^ 192 * 0x1234))).
Definition frame_locs : DwarfLocations :=
  mkLocs {[CFA_REG := mkLoc DWARF_LOCATION_REGISTER 13 16; 14 := mkLoc DWARF_LOCATION_OFFSET (2 ^ 64 - 8) 0;
           11 := mkLoc DWARF_LOCATION_REGISTER 12 0; 12 := mkLoc DWARF_LOCATION_REGISTER 11 0]} None 0 0.
Definition frame_cie : DwarfCie := mkCie 1 0 0 0 [] 0 0 0 1 (-8) 14.
Definition frame_section : DwarfSection := new_section (mkMemory (fun _ _ => [])).

Lemma dwarf_eval_computes_caller_witness :
  exists s' regs',
    DwarfSection.Eval U64 frame_memory (map_to_list (locs frame_locs)) frame_cie frame_locs frame_regs false
      frame_section = Done ((true, regs', false), s') /\
    regs_ regs' !! 11%nat = Some 6 /\ regs_ regs' !! 12%nat = Some 5 /\ regs_ regs' !! 13%nat = Some 32 /\
    regs_ regs' !! 15%nat = Some 0x1234.
Proof.
  destruct (dwarf_eval_computes_caller U64 frame_memory frame_section frame_regs frame_locs frame_cie
    (map_to_list (locs frame_locs)) false (mkLoc DWARF_LOCATION_REGISTER 13 16) 32 0x1234) as (s' & regs' & H1 & H2).
  - split; [reflexivity|]. split; [simpl; lia|]. split; [|simpl; lia].
    do 3 (apply Forall_insert; [|unfold in_u; simpl; lia]). by apply Forall_replicate.
  - reflexivity.
  - intros k x Hk. cbn [locs frame_locs] in Hk. rewrite !lookup_insert_Some in Hk.
    destruct Hk as [[<- _]|[_ [[<- _]|[_ [[<- _]|[_ [<- _]%lookup_singleton_Some]]]]]]; vm_compute; discriminate.
  - simpl. lia.
  - reflexivity.
  - simpl. lia.
  - vm_compute. reflexivity.
  - intros k x old Hk _. cbn [locs frame_locs] in Hk.
    rewrite !lookup_insert_Some in Hk.
    destruct Hk as [[<- <-]|[_ [[<- <-]|[_ [[<- <-]|[_ [<- <-]%lookup_singleton_Some]]]]]];
      vm_compute; eexists; reflexivity.
  - vm_compute. reflexivity.
  - exists s', regs'. split; [exact H1|]. repeat split;
      (match goal with |- regs_ regs' !! ?n = _ => rewrite (H2 n _ eq_refl) end); vm_compute; reflexivity.
Defined.
