(* ===== verification/DwarfSectionStep.v ===== *)
(** [DwarfSection::Step] ([DwarfSection.cpp]) with its two caches: the rows of [loc_regs_], which are
    found by the end of their range, and the rows of the common information entries. Whatever was
    asked before, a step evaluates the row that the unwind tables of the section have for the pc.

    The search for the FDE of a pc, which differs between the kinds of sections, is a class. *)
From Stdlib Require Import ZArith Lia Bool Strings.Byte.
From stdpp Require Import base numbers list gmap.
From S2P Require Import Prelude StdMap Memory DwarfMemory DwarfStructs Regs DwarfCfaTable DwarfCfa DwarfCfaRows.
From S2P Require Import DwarfSection DwarfSectionFdes DwarfSectionEval.
#[local] Open Scope Z_scope.

(** * The unwind tables of a section *)

(** An FDE with its CIE, the code of both, and the table that this code denotes. *)
Record fde_table := mkTable {
  t_fde : DwarfFde;
  t_cie_key : Z;
  t_cie : DwarfCie;
  t_cie_code : list cfa_instr;
  t_code : list cfa_instr;
  t_cie_row : row;
  t_rows : list (Z * row)
}.

(** What the search for an FDE neither reads nor changes: the cursor, the error, the caches. *)
Definition same_search (b b' : DwarfSection) : Prop :=
  same_bases (sec_memory b) (sec_memory b') /\
  fde_entries_ b' = fde_entries_ b /\ cie_entries_ b' = cie_entries_ b /\ load_bias_ b' = load_bias_ b /\
  entries_offset_ b' = entries_offset_ b /\ entries_end_ b' = entries_end_ b /\ sec_pc_offset b' = sec_pc_offset b /\
  next_entries_offset_ b' = next_entries_offset_ b /\ fdes_ b' = fdes_ b.

#[export] Instance same_search_preorder : PreOrder same_search.
Proof.
  split; [by intros b|]. intros b1 b2 b3 (Hb1 & ? & ? & ? & ? & ? & ? & ? & ?) (Hb2 & ? & ? & ? & ? & ? & ? & ? & ?).
  split; [by etransitivity|]. split_and!; congruence.
Qed.

Section Tables.
Context (A : addr_type) (bm : Z -> option byte) (d : DwarfMemory).
Context (tables : Z -> option fde_table) (fde_at : Z -> option Z) (fuel : nat).
Implicit Types (b : DwarfSection) (t : fde_table) (l : DwarfLocations).

(** The code of an entry is in the memory of the section. *)
Definition code_at (off fin : Z) (il : list cfa_instr) : Prop :=
  at_bytes bm (put_cur off d) (encode_cfas A il) /\ fin = off + len (encode_cfas A il) /\ fin < 2 ^ 64 /\
  Forall (cfa_instr_ok A) il /\ last il <> Some RestoreState /\ (length il < fuel)%nat.

(** The code of the CIE has one row, whatever the FDE, and that of the FDE a table within its range. *)
Record fde_table_ok (t : fde_table) : Prop := {
  ok_key : fde_cie (t_fde t) = Some (t_cie_key t);
  ok_start : in_u (bits A) (pc_start (t_fde t));
  ok_cie_code : code_at (cie_cfa_instructions_offset (t_cie t)) (cie_cfa_instructions_end (t_cie t)) (t_cie_code t);
  ok_cie_row : rows A (t_cie t) None (cie_cfa_instructions_offset (t_cie t))
                 (mkC (pc_start (t_fde t)) ∅ []) (t_cie_code t) = Some [(pc_start (t_fde t), t_cie_row t)];
  ok_remember : RememberState ∉ t_cie_code t;
  ok_code : code_at (cfa_instructions_offset (t_fde t)) (cfa_instructions_end (t_fde t)) (t_code t);
  ok_rows : rows A (t_cie t) (Some (t_cie_row t)) (cfa_instructions_offset (t_fde t))
              (mkC (pc_start (t_fde t)) (t_cie_row t) []) (t_code t) = Some (t_rows t);
  ok_increasing : increasing (t_rows t);
  ok_end : Forall (fun x => x.1 <= pc_end (t_fde t)) (t_rows t)
}.

(** The tables of the section: the FDE of an address is the one whose range contains it, and the row
    of a CIE belongs to its offset. *)
Class UnwindTables : Prop := {
  tables_ok : forall p t, tables p = Some t -> fde_table_ok t;
  tables_at : forall p t pc, tables p = Some t -> fde_at pc = Some p <-> pc_start (t_fde t) <= pc < pc_end (t_fde t);
  tables_cie : forall p p' t t', tables p = Some t -> tables p' = Some t' ->
    cie_offset (t_fde t) = cie_offset (t_fde t') -> t_cie_row t = t_cie_row t'
}.

(** The row of an address, with its CIE. *)
Definition row_of (pc : Z) : option (row * DwarfCie) :=
  p ← fde_at pc; t ← tables p; r ← row_at pc (t_rows t); Some (r, t_cie t).

(** * The caches *)

(** An entry of [loc_regs_] under the key [e] is the row of every address of its range. *)
Definition cached b (e : Z) l : Prop :=
  locs_pc_start l < e /\
  exists c cie, locs_cie l = Some c /\ cie_entries_ b !! c = Some cie /\
    forall pc, locs_pc_start l <= pc < e -> row_of pc = Some (locs l, cie).

Definition cie_cache_ok b : Prop :=
  forall off l p t, sec_cie_loc_regs b !! off = Some l -> tables p = Some t -> cie_offset (t_fde t) = off ->
    locs l = t_cie_row t.

Definition caches_ok b : Prop :=
  (exists lo, sorted_from lo (loc_regs_ b)) /\
  (forall e l, map_find e (loc_regs_ b) = Some l -> cached b e l) /\ cie_cache_ok b.

Context {HT : UnwindTables}.

Lemma start_empty f : start_state A f None empty_locs = mkC (addr A (pc_start f)) ∅ [].
Proof. unfold start_state. cbn. by rewrite (left_id_L ∅ (∪)). Qed.

(** Running the interpreter on code that the section holds *)
Lemma run_cfa_rows b c pc off fin il rs :
  same_memory d (sec_memory b) -> loc_reg_state_ c = [] -> code_at off fin il ->
  rows A (cfa_cie c) (locs <$> cie_loc_regs_ c) off (start_state A (cfa_fde c) (cie_loc_regs_ c) (loc_regs c)) il
  = Some rs ->
  increasing rs -> addr A (pc_start (cfa_fde c)) <= pc ->
  exists s' x,
    run_cfa (GetLocationInfo A fuel pc off fin) c b = Done (Some s', put_sec_memory (put_cur x (sec_memory b)) b) /\
    answers pc (pc_end (cfa_fde c)) rs (start_state A (cfa_fde c) (cie_loc_regs_ c) (loc_regs c)) s' /\
    cfa_cie s' = cfa_cie c /\ cfa_fde s' = cfa_fde c /\ (RememberState ∉ il -> loc_reg_state_ s' = []).
Proof.
  intros Hb Hz (Ha & -> & Hfin & Hok & Hlast & Hfuel) Hr Hi Hpc.
  destruct (GetLocationInfo_rows A bm il fuel pc off (put_cfa_memory (sec_memory b) c) rs)
    as (s' & Hrun & Hans & Hc & Hf & (x & Hm) & Hk); try done.
  { destruct Ha as (HB & Hcur & Hh). split; [|by split]. cbn in HB |- *. by rewrite Hb. }
  exists s', x. split; [|split_and!; [exact Hans|exact Hc|exact Hf|]].
  - unfold run_cfa, bind at 1, get. rewrite Hrun. cbn. by rewrite Hm.
  - intros Hni. by apply Hk.
Qed.

(** What a row of the table means for the addresses of the FDE. *)
Lemma row_of_table p t pc r :
  tables p = Some t -> pc_start (t_fde t) <= pc < pc_end (t_fde t) -> row_at pc (t_rows t) = Some r ->
  row_of pc = Some (r, t_cie t).
Proof.
  intros Ht Hpc Hr. unfold row_of. rewrite (proj2 (tables_at _ _ _ Ht) Hpc). cbn. rewrite Ht. cbn. by rewrite Hr.
Qed.

Lemma ok_start_addr t : fde_table_ok t -> addr A (pc_start (t_fde t)) = pc_start (t_fde t).
Proof. intros H. by apply addr_small, ok_start. Qed.

(** An answer for an address of the FDE lies within its range. *)
Lemma answers_row p t pc st s' :
  tables p = Some t -> pc_start (t_fde t) <= pc < pc_end (t_fde t) -> c_pc st = pc_start (t_fde t) ->
  answers pc (pc_end (t_fde t)) (t_rows t) st s' ->
  locs_pc_start (loc_regs s') <= pc < locs_pc_end (loc_regs s') /\
  forall pc', locs_pc_start (loc_regs s') <= pc' < locs_pc_end (loc_regs s') ->
    row_of pc' = Some (locs (loc_regs s'), t_cie t).
Proof.
  intros Ht Hpc Hst (Hr & Hs & He & Hrange). rewrite Hst in Hs.
  assert (pc < locs_pc_end (loc_regs s') <= pc_end (t_fde t)) as He'.
  { destruct He as [[? Hin] | ->]; [|lia]. split; [done|]. apply list_elem_of_fmap in Hin as ([x r] & -> & Hin).
    pose proof (proj1 (Forall_forall _ _) (ok_end _ (tables_ok _ _ Ht)) _ Hin). done. }
  split; [lia|]. intros pc' Hpc'. apply (row_of_table p); [done|lia|]. by apply Hrange.
Qed.

Lemma cfa_info_run b p t pc :
  tables p = Some t -> pc_start (t_fde t) <= pc < pc_end (t_fde t) ->
  same_memory d (sec_memory b) -> cie_entries_ b !! t_cie_key t = Some (t_cie t) -> cie_cache_ok b ->
  exists l b',
    GetCfaLocationInfo A fuel pc (t_fde t) b = Done (Some l, b') /\
    locs_pc_start l <= pc < locs_pc_end l /\
    (forall pc', locs_pc_start l <= pc' < locs_pc_end l -> row_of pc' = Some (locs l, t_cie t)) /\
    same_search b b' /\ loc_regs_ b' = loc_regs_ b /\ cie_cache_ok b'.
Proof.
  intros Ht Hpc Hb Hc Hcache. pose proof (tables_ok _ _ Ht) as Hok. pose proof (ok_start_addr t Hok) as Es.
  unfold GetCfaLocationInfo. rewrite (ok_key _ Hok). unfold some_or. unfold bind at 1, ret at 1.
  unfold bind at 1, deref_cie at 1. unfold bind at 1, get at 1. rewrite Hc. unfold some_or, ret at 1.
  unfold bind at 1, get at 1. 
  (* the row of the CIE *)
  set (cfa0 := new_DwarfCfa _ _ _ _ _). set (get_cie := match sec_cie_loc_regs b !! _ with Some _ => _ | None => _ end).
  assert (exists c b1 l1, get_cie b = Done (Some (set_cie_loc_regs l1 c), b1) /\ locs l1 = t_cie_row t /\
    (locs (loc_regs c) = ∅ \/ loc_regs c = l1) /\ loc_reg_state_ c = [] /\ cfa_cie c = t_cie t /\ cfa_fde c = t_fde t /\
    same_search b b1 /\ loc_regs_ b1 = loc_regs_ b /\ cie_cache_ok b1) as (c & b1 & l1 & E1 & El1 & Hl & Hz & Ec & Ef & Hb1 & Eb1 & Hcache1).
  { subst get_cie. destruct (sec_cie_loc_regs b !! cie_offset (t_fde t)) as [l1|] eqn:El.
    - exists cfa0, b, l1. split; [done|]. split; [by eapply Hcache|]. split; [by left|]. by split_and!.
    - pose proof (ok_cie_code _ Hok) as Hcode. pose proof (ok_cie_row _ Hok) as Hrow.
      destruct (run_cfa_rows b cfa0 pc _ _ _ [(pc_start (t_fde t), t_cie_row t)] Hb eq_refl Hcode)
        as (s' & x & Hrun & (Hans & _) & Hci & Hfd & Hst); [|done|cbn -[addr]; rewrite Es; lia|].
      { cbn -[addr]. change (mkLocs ∅ None 0 0) with empty_locs. rewrite start_empty, Es. exact Hrow. }
      exists s', (put_sec_cie_loc_regs (<[cie_offset (t_fde t) := loc_regs s']> (sec_cie_loc_regs b))
                   (put_sec_memory (put_cur x (sec_memory b)) b)), (loc_regs s').
      assert (locs (loc_regs s') = t_cie_row t) as Eloc.
      { cbn [row_at] in Hans. rewrite (proj2 (Z.leb_le _ _)) in Hans by lia. by injection Hans. }
      split; [by rewrite (obind_run _ _ _ _ _ Hrun)|]. split; [done|]. split; [by right|].
      split; [apply Hst, (ok_remember _ Hok)|]. split; [done|]. split; [done|]. split; [|split; [done|]].
      + split; [apply same_bases_cur|by split_and!].
      + intros off l p' t' Hl Ht' Ho. cbn in Hl. apply lookup_insert_Some in Hl as [[<- <-]|[_ Hl]].
        * rewrite Eloc. by apply (tables_cie p p').
        * by apply (Hcache off l p' t'). }
  (* the row of the FDE *)
  rewrite (obind_run _ _ _ _ _ E1).
  assert (start_state A (t_fde t) (Some l1) (loc_regs c) = mkC (pc_start (t_fde t)) (t_cie_row t) []) as Est.
  { unfold start_state. cbn [from_option]. rewrite Es, El1. f_equal.
    destruct Hl as [-> | ->]; [apply map_union_empty|]. rewrite El1. apply (idemp_L (∪)). }
  destruct (run_cfa_rows b1 (set_cie_loc_regs l1 c) pc _ _ _ (t_rows t) ltac:(eapply same_memory_bases; [exact Hb|apply Hb1]) Hz (ok_code _ Hok))
    as (s' & x & Hrun & Hans & _); cbn [set_cie_loc_regs cfa_cie cfa_fde cie_loc_regs_ loc_regs]; rewrite ?Ec, ?Ef, ?Es.
  { rewrite Est. cbn [fmap option_fmap option_map]. rewrite El1. apply (ok_rows _ Hok). }
  { apply (ok_increasing _ Hok). } { lia. }
  cbn [set_cie_loc_regs cfa_cie cfa_fde cie_loc_regs_ loc_regs] in Hans. rewrite Ef, Est in Hans.
  destruct (answers_row p t pc (mkC (pc_start (t_fde t)) (t_cie_row t) []) s' Ht Hpc eq_refl Hans) as (Hin & Hrange).
  exists (loc_regs s'), (put_sec_memory (put_cur x (sec_memory b1)) b1).
  split; [by rewrite (obind_run _ _ _ _ _ Hrun)|]. split; [done|]. split; [done|]. split; [|by split].
  etransitivity; [exact Hb1|]. split; [apply same_bases_cur|by split_and!].
Qed.
End Tables.
Arguments tables_ok {A bm d tables fde_at fuel _}.
Arguments tables_at {A bm d tables fde_at fuel _}.

(** * The search for an FDE *)

(** What a section promises to [Step]: the search returns the FDE of the pc, with its entries read, and
    neither touches the caches nor depends on them. *)
Class FdeSearch {T : Type} (base : T -> DwarfSection) (put_base : DwarfSection -> T -> T)
    (get_fde_from_pc : Z -> M T (option Z)) (d : DwarfMemory) (tables : Z -> option fde_table)
    (fde_at : Z -> option Z) (I : T -> Prop) : Prop := {
  base_put : forall b s, base (put_base b s) = b;
  search_frame : forall b s, I s -> same_search (base s) b -> I (put_base b s);
  search_run : forall pc s, I s -> exists s',
    get_fde_from_pc pc s = Done (fde_at pc, s') /\ I s' /\
    (same_memory d (sec_memory (base s)) -> same_memory d (sec_memory (base s'))) /\
    loc_regs_ (base s') = loc_regs_ (base s) /\ sec_cie_loc_regs (base s') = sec_cie_loc_regs (base s) /\
    cie_entries_ (base s) ⊆ cie_entries_ (base s') /\
    forall p t, fde_at pc = Some p -> tables p = Some t ->
      fde_entries_ (base s') !! p = Some (t_fde t) /\ cie_entries_ (base s') !! t_cie_key t = Some (t_cie t)
}.

Section Steps.
Context (A : addr_type) (bm : Z -> option byte) (d : DwarfMemory).
Context (tables : Z -> option fde_table) (fde_at : Z -> option Z) (fuel : nat).
Context {HT : UnwindTables A bm d tables fde_at fuel}.
Context {T : Type} {base : T -> DwarfSection} {put_base : DwarfSection -> T -> T}.
Context {get_fde_from_pc : Z -> M T (option Z)} {I : T -> Prop}.
Context {HS : FdeSearch base put_base get_fde_from_pc d tables fde_at I}.
Implicit Types (s : T) (t : fde_table) (l : DwarfLocations).

Local Abbreviation row_of := (row_of tables fde_at).
Local Abbreviation caches_ok := (caches_ok tables fde_at).

(** The invariant of a section between steps *)
Definition step_inv s : Prop := I s /\ same_memory d (sec_memory (base s)) /\ caches_ok (base s).

Lemma cached_mono b b' e l :
  cie_entries_ b ⊆ cie_entries_ b' -> cached tables fde_at b e l -> cached tables fde_at b' e l.
Proof.
  intros Hsub (Hne & c & cie & Hl & Hc & Hr). split; [done|]. exists c, cie. split; [done|]. split; [|done].
  by eapply lookup_weaken.
Qed.

Lemma caches_ok_mono b b' :
  loc_regs_ b' = loc_regs_ b -> sec_cie_loc_regs b' = sec_cie_loc_regs b -> cie_entries_ b ⊆ cie_entries_ b' ->
  caches_ok b -> caches_ok b'.
Proof.
  intros E1 E2 Hsub (Hs & Hc & Hi). split; [by rewrite E1|]. split.
  - intros e l. rewrite E1. intros Hf. eapply cached_mono; [done|by apply Hc].
  - intros off l p t. rewrite E2. apply Hi.
Qed.

Lemma step_inv_put b s :
  step_inv s -> same_search (base s) b -> caches_ok b -> step_inv (put_base b s).
Proof.
  intros (HI & Hb & _) Hs Hc. unfold step_inv. rewrite base_put. split; [by apply search_frame|].
  split; [|done]. eapply same_memory_bases; [exact Hb|apply Hs].
Qed.

(** Adding the row of [pc] to the cache; the entry that [emplace] returns has the row too, also when
    it is one that was there. *)
Lemma emplace_cached b l c cie pc :
  caches_ok b -> locs_cie l = Some c -> cie_entries_ b !! c = Some cie ->
  locs_pc_start l <= pc < locs_pc_end l ->
  (forall pc', locs_pc_start l <= pc' < locs_pc_end l -> row_of pc' = Some (locs l, cie)) ->
  let b' := put_sec_loc_regs (map_emplace (locs_pc_end l) l (loc_regs_ b)) b in
  caches_ok b' /\
  exists l' c', map_find (locs_pc_end l) (loc_regs_ b') = Some l' /\ locs_cie l' = Some c' /\
    exists cie', cie_entries_ b !! c' = Some cie' /\ row_of pc = Some (locs l', cie').
Proof.
  intros ((lo & Hlo) & Hc & Hi) Hl Hcie Hpc Hr b'. subst b'. unfold map_emplace. cbn [loc_regs_ put_sec_loc_regs].
  destruct (map_find (locs_pc_end l) (loc_regs_ b)) as [l'|] eqn:Ef.
  - split; [split; [by exists lo|by split]|]. rewrite Ef.
    destruct (Hc _ _ Ef) as (Hne & c' & cie' & Hl' & Hc' & Hr'). exists l', c'. split; [done|]. split; [done|].
    exists cie'. split; [done|]. destruct (Z.le_gt_cases (locs_pc_start l') pc) as [|Hlt]; [apply Hr'; lia|].
    rewrite <- (Hr' (locs_pc_start l')) by lia. rewrite !Hr by lia. done.
  - rewrite (map_find_set lo) by done. rewrite Z.eqb_refl. split.
    + split; [by eapply sorted_from_set_any|]. split; [|done]. intros e l1. cbn [loc_regs_ put_sec_loc_regs].
      rewrite (map_find_set lo) by done. destruct (Z.eqb_spec e (locs_pc_end l)) as [->|]; [|apply Hc].
      intros [= <-]. split; [lia|]. by exists c, cie.
    + exists l, c. split; [done|]. split; [done|]. exists cie. split; [done|]. by apply Hr.
Qed.

(** The answer of a search for the row of [pc] *)
Definition located pc (o : option DwarfLocations) s : Prop :=
  match o with
  | Some l => exists c cie, locs_cie l = Some c /\ cie_entries_ (base s) !! c = Some cie /\
                row_of pc = Some (locs l, cie)
  | None => fde_at pc = None
  end.

(** The pcs that have a table, or no FDE *)
Definition described pc : Prop := forall p, fde_at pc = Some p -> exists t, tables p = Some t.

Lemma on_base_run {B} (m : SEC B) s r b :
  m (base s) = Done (r, b) -> on_base base put_base m s = Done (r, put_base b s).
Proof. intros Hm. unfold on_base, zoom. by rewrite Hm. Qed.

Lemma same_search_error e b : same_search b (put_sec_error e b).
Proof. by repeat split. Qed.

(** The row is stored and read back. *)
Lemma store_run pc c cie l s :
  step_inv s -> cie_entries_ (base s) !! c = Some cie -> locs_pc_start l <= pc < locs_pc_end l ->
  (forall pc', locs_pc_start l <= pc' < locs_pc_end l -> row_of pc' = Some (locs l, cie)) ->
  exists o s',
    (let l := put_locs_cie (Some c) l in
     on_base base put_base
       (modify (fun b => put_sec_loc_regs (map_emplace (locs_pc_end l) l (loc_regs_ b)) b)) ;;
     b <- gets base ;;
     l <- some_or (Undef UbNull) (map_find (locs_pc_end l) (loc_regs_ b)) ;;
     ret (Some l)) s = Done (o, s') /\ step_inv s' /\ located pc o s'.
Proof.
  intros Hs Hcie Hin Hr. cbv zeta. set (l' := put_locs_cie (Some c) l). pose proof Hs as (_ & _ & Hc).
  destruct (emplace_cached (base s) l' c cie pc Hc eq_refl Hcie Hin Hr) as (Hc2 & l1 & c1 & Hf & Hl1 & cie1 & Hci1 & Hrow).
  unfold bind at 1. rewrite (on_base_run _ _ tt _ eq_refl).
  set (s3 := put_base _ _). unfold bind at 1, gets. unfold s3 at 1. rewrite base_put. unfold bind at 1. rewrite Hf. cbn [some_or ret].
  exists (Some l1), s3. split; [done|]. split; [apply step_inv_put; [done|by repeat split|done]|].
  exists c1, cie1. split; [done|]. split; [|done]. subst s3. by rewrite base_put.
Qed.

Lemma compute_locations_run pc s :
  step_inv s -> described pc ->
  exists o s', compute_locations base put_base A get_fde_from_pc fuel pc s = Done (o, s') /\ step_inv s' /\
    located pc o s'.
Proof.
  intros Hs Hd. unfold compute_locations. unfold bind at 1. rewrite (on_base_run _ _ tt _ eq_refl). 
  set (s0 := put_base _ s). assert (step_inv s0) as Hs0.
  { apply step_inv_put; [done|apply same_search_error|]. destruct Hs as (_ & _ & Hc). by eapply caches_ok_mono. }
  clearbody s0. clear Hs. pose proof Hs0 as (HI & Hb & Hc).
  destruct (search_run pc s0 HI) as (s1 & Hrun & HI1 & Hb1 & E1 & E2 & Hsub & Hent).
  assert (step_inv s1) as Hs1.
  { split; [done|]. split; [by apply Hb1|]. by eapply caches_ok_mono. }
  unfold bind at 1. rewrite Hrun. destruct (fde_at pc) as [p|] eqn:Ep.
  2:{ exists None. eexists. split; [by apply on_base_run|]. split; [|exact Ep].
      apply step_inv_put; [done|apply same_search_error|]. by eapply caches_ok_mono; [..|apply Hs1]. }
  destruct (Hd p Ep) as [t Ht]. destruct (Hent _ _ eq_refl Ht) as [Hfde Hcie].
  pose proof (proj1 (tables_at _ _ pc Ht) Ep) as Hpc.
  unfold bind at 1. rewrite (on_base_run _ _ (t_fde t) (base s1)).
  2:{ unfold deref_fde, bind, get. by rewrite Hfde. }
  assert (step_inv (put_base (base s1) s1)) as Hs2 by (apply step_inv_put; [done|done|apply Hs1]).
  set (s2 := put_base (base s1) s1) in *. assert (base s2 = base s1) as Eb by apply base_put. clearbody s2.
  rewrite (ok_key _ _ _ _ _ (tables_ok _ _ Ht)). destruct Hs1 as (_ & Hd1 & Hc1).
  destruct (cfa_info_run A bm d tables fde_at fuel (base s1) p t pc Ht Hpc Hd1 Hcie) as (l & b' & Hinfo & Hin & Hr & Hb' & El' & Hcc);
    [apply Hc1|]. rewrite <- Eb in Hinfo.
  rewrite (obind_run _ _ _ _ _ (on_base_run _ _ _ _ Hinfo)).
  apply (store_run pc _ (t_cie t)); [|by rewrite base_put; destruct Hb' as (_ & _ & -> & _)|done|done].
  apply step_inv_put; [done|by rewrite Eb|]. split; [rewrite El'; apply Hc1|]. split; [|done].
  intros e x. rewrite El'. intros Hf. eapply cached_mono; [|by apply Hc1]. by destruct Hb' as (_ & _ & -> & _).
Qed.

Lemma step_locations_run pc s :
  step_inv s -> described pc ->
  exists o s', step_locations base put_base A get_fde_from_pc fuel pc s = Done (o, s') /\ step_inv s' /\
    located pc o s'.
Proof.
  intros Hs Hd. unfold step_locations. unfold bind at 1, gets. pose proof Hs as (_ & _ & (lo & Hlo) & Hc & _).
  pose proof (upper_bound_spec lo pc _ Hlo) as Hu.
  destruct (upper_bound pc (loc_regs_ (base s))) as [|[e l] rest]; [by apply compute_locations_run|].
  destruct (Z.ltb_spec pc (locs_pc_start l)); [by apply compute_locations_run|].
  destruct Hu as (He & Hf & _). destruct (Hc _ _ Hf) as (_ & c & cie & Hl & Hci & Hr).
  exists (Some l), s. split; [done|]. split; [done|]. exists c, cie. split; [done|]. split; [done|]. apply Hr. lia.
Qed.

(** * Steps *)

Context (order : gmap Z DwarfLocation -> list (Z * DwarfLocation)).
Context (Horder : forall m, order m ≡ₚ map_to_list m).

(** A call of [Step]: the pc, the registers of the frame, and the memory of the process. *)
Definition request : Type := Z * Regs * Memory.
Implicit Types (q : request).

Fixpoint step_all (qs : list request) : M T (list (bool * Regs * bool)) :=
  match qs with
  | [] => ret []
  | (pc, regs, m) :: qs =>
      r <- Step base put_base A get_fde_from_pc order fuel pc regs m false ;;
      rs <- step_all qs ;;
      ret (r :: rs)
  end.

(** The rules of the row, if there is one, can be evaluated. *)
Definition answerable q : Prop :=
  let '(pc, regs, m) := q in
  described pc /\
  match row_of pc with
  | Some (r, cie) => exists cfa ra, frame_rules A m d cie r regs cfa ra
  | None => True
  end.

(** What a step should return: the registers of the caller, or a failure where no FDE is. *)
Definition step_answer q (a : bool * Regs * bool) : Prop :=
  let '(pc, regs, m) := q in
  match row_of pc with
  | Some (r, cie) => exists cfa ra regs',
      frame_rules A m d cie r regs cfa ra /\ caller_regs A m d r regs cfa ra regs' /\
      a = (true, regs', addr A ra =? 0)
  | None => a = (false, regs, false)
  end.

Lemma caches_ok_same b b' :
  same_search b b' -> loc_regs_ b' = loc_regs_ b -> sec_cie_loc_regs b' = sec_cie_loc_regs b ->
  caches_ok b -> caches_ok b'.
Proof. intros (_ & _ & Ec & _) E1 E2. apply caches_ok_mono; [done|done|by rewrite Ec]. Qed.

Lemma moved_same b b' : moved b b' ->
  same_search b b' /\ loc_regs_ b' = loc_regs_ b /\ sec_cie_loc_regs b' = sec_cie_loc_regs b.
Proof. intros [E Hb]. split; [split; [exact Hb|]|]; rewrite E; by split_and!. Qed.

Lemma Step_run pc regs m s :
  step_inv s -> answerable (pc, regs, m) ->
  exists a s', Step base put_base A get_fde_from_pc order fuel pc regs m false s = Done (a, s') /\ step_inv s' /\
    step_answer (pc, regs, m) a.
Proof.
  intros Hs (Hd & Hq). destruct (step_locations_run pc s Hs Hd) as (o & s1 & Hrun & Hs1 & Ho).
  unfold Step, step_answer. unfold bind at 1. rewrite Hrun. destruct o as [l|].
  2:{ exists (false, regs, false), s1. split; [done|]. split; [done|]. unfold DwarfSectionStep.row_of. cbn in Ho. by rewrite Ho. }
  destruct Ho as (c & cie & Hl & Hc & Hr). rewrite Hr in Hq |- *. destruct Hq as (cfa & ra & Hf).
  unfold bind at 1. rewrite Hl. cbn [some_or ret]. unfold bind at 1.
  rewrite (on_base_run _ _ cie (base s1)) by (unfold deref_cie, bind, get; by rewrite Hc).
  set (s2 := put_base (base s1) s1). assert (step_inv s2) as Hs2 by (apply step_inv_put; [done|done|apply Hs1]).
  clearbody s2. pose proof Hs2 as (_ & Hb2 & Hc2).
  destruct (Eval_caller_regs A m d (base s2) regs l cie (order (locs l)) false cfa ra Hb2 (Horder _) Hf)
    as (b & regs' & Hev & Hm & Hregs).
  destruct (moved_same _ _ Hm) as (Hsame & E1 & E2).
  eexists _, (put_base b s2). split; [by apply on_base_run|]. split; [|by exists cfa, ra, regs'].
  apply step_inv_put; [done|done|]. by eapply caches_ok_same.
Qed.

Lemma step_all_run qs s :
  step_inv s -> Forall answerable qs ->
  exists rs s', step_all qs s = Done (rs, s') /\ step_inv s' /\ Forall2 step_answer qs rs.
Proof.
  revert s. induction qs as [|[[pc regs] m] qs IH]; intros s Hs Hq; [by exists [], s|].
  apply Forall_cons in Hq as [Hq Hqs]. destruct (Step_run pc regs m s Hs Hq) as (a & s1 & Hrun & Hs1 & Ha).
  destruct (IH s1 Hs1 Hqs) as (rs & s2 & Hrun2 & Hs2 & Hrs). exists (a :: rs), s2.
  split; [cbn [step_all]; unfold bind; by rewrite Hrun, Hrun2|]. split; [done|]. by constructor.
Qed.

(** Any sequence of steps of a section, from empty caches, is answered by the unwind tables of
    its FDEs: each one returns the registers that the row of its pc gives over its registers and its
    memory, or [false] with the registers unchanged where no FDE contains the pc. What the steps
    before it left in the two caches never shows, although an entry of [loc_regs_] is found by the
    end of its range alone and [emplace] keeps the entry that is there. This holds for every kind of
    section whose search for an FDE satisfies [FdeSearch]. *)
Lemma steps_refine_tables qs s (HI : I s) (Hd : same_memory d (sec_memory (base s)))
    (Hlocs : loc_regs_ (base s) = []) (Hcies : sec_cie_loc_regs (base s) = ∅) (Hqs : Forall answerable qs) :
  exists rs s', step_all qs s = Done (rs, s') /\ Forall2 step_answer qs rs.
Proof.
  destruct (step_all_run qs s) as (rs & s' & Hrun & _ & Hrs); [|done|by exists rs, s'].
  split; [done|]. split; [done|]. split; [rewrite Hlocs; by exists 0|]. split.
  - intros e l. by rewrite Hlocs.
  - intros off l p t. by rewrite Hcies.
Qed.

(** ** A step as a function *)

(** What a step returns, where that is determined: see [caller_of]. *)
Definition section_call q : option (bool * Regs * bool) :=
  let '(pc, regs, m) := q in
  match row_of pc with
  | Some (r, cie) =>
      if bool_decide (regs_wf A regs) then (fun a => (true, a.1, a.2)) <$> caller_of A m d cie r regs else None
  | None => Some (false, regs, false)
  end.

Lemma Step_call pc regs m s a :
  (forall pc, described pc) -> step_inv s -> section_call (pc, regs, m) = Some a ->
  exists s', Step base put_base A get_fde_from_pc order fuel pc regs m false s = Done (a, s') /\ step_inv s'.
Proof.
  intros Hd Hs Hc. unfold section_call in Hc.
  assert (answerable (pc, regs, m) /\ forall a', step_answer (pc, regs, m) a' -> a' = a) as [Hans Hu].
  { unfold answerable, step_answer. destruct (row_of pc) as [[r cie]|].
    2:{ injection Hc as <-. by split; [split; [apply Hd|]|]. }
    destruct (bool_decide_reflect (regs_wf A regs)) as [Hwf|]; [|done].
    apply fmap_Some in Hc as ([regs' fin] & Hc & ->). cbn [fst snd].
    destruct (caller_of_rules _ _ _ _ _ _ _ _ Hwf Hc) as (cfa & ra & Hf). split; [split; [apply Hd|by exists cfa, ra]|].
    intros a' (cfa' & ra' & regs1 & Hf' & Hr & ->).
    by destruct (caller_of_unique _ _ _ _ _ _ _ _ _ _ _ Hwf Hc Hf' Hr) as [-> ->]. }
  destruct (Step_run pc regs m s Hs Hans) as (a' & s' & Hrun & Hs' & Ha'). rewrite (Hu a' Ha') in Hrun. by exists s'.
Qed.

Lemma step_all_call qs rs s :
  (forall pc, described pc) -> step_inv s -> Forall2 (fun q a => section_call q = Some a) qs rs ->
  exists s', step_all qs s = Done (rs, s') /\ step_inv s'.
Proof.
  intros Hd Hs Hq. revert s Hs. induction Hq as [|[[pc regs] m] a qs rs Hc _ IH]; intros s Hs; [by exists s|].
  destruct (Step_call pc regs m s a Hd Hs Hc) as (s1 & Hr1 & Hs1). destruct (IH s1 Hs1) as (s2 & Hr2 & Hs2).
  exists s2. split; [|done]. cbn [step_all]. unfold bind. by rewrite Hr1, Hr2.
Qed.
End Steps.
