(* ===== verification/DwarfFrames.v ===== *)
(** The contents of an unwind section: its FDEs with their CIEs and their code, the rows that the code
    denotes, and the tables of [DwarfSectionStep] that this gives, for every kind of section and
    whatever way the FDE of a pc is found. *)
From Stdlib Require Import ZArith Lia Bool Strings.Byte.
From stdpp Require Import base numbers list gmap.
From S2P Require Import Prelude StdMap Memory DwarfMemory DwarfEncode DwarfStructs Regs DwarfCfaTable DwarfCfa DwarfCfaRows.
From S2P Require Import DwarfSection DwarfSectionEval DwarfSectionEntries DwarfSectionStep.
#[local] Open Scope Z_scope.

(** * The contents of a section *)

(** An FDE with its CIE, the instructions of both, and the rows that they denote. *)
Record frame_entry := mkEntry {
  en_cie_offset : Z;
  en_cie : cie_fields;
  en_fde : fde_fields;
  en_cie_code : list cfa_instr;
  en_code : list cfa_instr;
  en_cie_row : row;
  en_rows : list (Z * row)
}.

Section Frames.
Context (A : addr_type) (kind : section_kind) (bm : Z -> option byte) (fuel : nat).
Context (base_memory : DwarfMemory) (bias pc_base section_start : Z) (fdes : gmap Z frame_entry).
Implicit Types (b : DwarfSection) (e : frame_entry).

Definition entry_cie e : DwarfCie := cie_of A pc_base base_memory (en_cie_offset e) (en_cie e).
Definition entry_fde (off : Z) e : DwarfFde :=
  fde_of A kind bias pc_base base_memory off (en_cie_offset e) (entry_cie e) (en_fde e).
Definition tables (off : Z) : option fde_table :=
  (fun e => mkTable (entry_fde off e) (en_cie_offset e) (entry_cie e) (en_cie_code e) (en_code e) (en_cie_row e) (en_rows e))
  <$> fdes !! off.

Definition runnable (l : list cfa_instr) : Prop :=
  Forall (cfa_instr_ok A) l /\ last l <> Some RestoreState /\ (length l < fuel)%nat.

(** The bytes of an entry, and the table of its instructions. *)
Record entry_ok (off : Z) e : Prop := {
  eo_bytes : holds_fde A bm kind section_start bias pc_base base_memory fuel off (en_cie_offset e) (en_cie e) (en_fde e);
  eo_cie_code : cf_instructions (en_cie e) = encode_cfas A (en_cie_code e);
  eo_code : ff_instructions (en_fde e) = encode_cfas A (en_code e);
  eo_cie_runs : runnable (en_cie_code e);
  eo_runs : runnable (en_code e);
  eo_remember : RememberState ∉ en_cie_code e;
  eo_start : in_u (bits A) (pc_start (entry_fde off e));
  eo_range : pc_start (entry_fde off e) < pc_end (entry_fde off e);
  eo_cie_row : rows A (entry_cie e) None (cie_cfa_instructions_offset (entry_cie e))
                 (mkC (pc_start (entry_fde off e)) ∅ []) (en_cie_code e)
               = Some [(pc_start (entry_fde off e), en_cie_row e)];
  eo_rows : rows A (entry_cie e) (Some (en_cie_row e)) (cfa_instructions_offset (entry_fde off e))
              (mkC (pc_start (entry_fde off e)) (en_cie_row e) []) (en_code e) = Some (en_rows e);
  eo_increasing : increasing (en_rows e);
  eo_end : Forall (fun x => x.1 <= pc_end (entry_fde off e)) (en_rows e)
}.

(** The FDEs of the section have disjoint ranges, and one CIE for an offset. *)
Record entries_ok : Prop := {
  fo_entries : forall off e, fdes !! off = Some e -> entry_ok off e;
  fo_disjoint : forall off off' e e', fdes !! off = Some e -> fdes !! off' = Some e' -> off <> off' ->
    pc_end (entry_fde off e) <= pc_start (entry_fde off' e') \/ pc_end (entry_fde off' e') <= pc_start (entry_fde off e);
  fo_cies : forall off off' e e', fdes !! off = Some e -> fdes !! off' = Some e' ->
    en_cie_offset e = en_cie_offset e' -> en_cie e = en_cie e' /\ en_cie_row e = en_cie_row e'
}.

(** The FDE whose range contains the pc. *)
Definition in_range (pc : Z) (x : Z * frame_entry) : bool :=
  (pc_start (entry_fde x.1 x.2) <=? pc) && (pc <? pc_end (entry_fde x.1 x.2)).
Definition fde_at (pc : Z) : option Z := fst <$> List.find (in_range pc) (map_to_list fdes).

Context (Hok : entries_ok).

Lemma fde_at_some pc off :
  fde_at pc = Some off -> exists e, fdes !! off = Some e /\ pc_start (entry_fde off e) <= pc < pc_end (entry_fde off e).
Proof.
  intros ([o e] & Hf & ->)%fmap_Some. apply List.find_some in Hf as [Hin Hr]. exists e.
  split; [by apply elem_of_map_to_list, list_elem_of_In|]. apply andb_true_iff in Hr as [?%Z.leb_le ?%Z.ltb_lt]. done.
Qed.

Lemma fde_at_spec pc off e :
  fdes !! off = Some e -> fde_at pc = Some off <-> pc_start (entry_fde off e) <= pc < pc_end (entry_fde off e).
Proof.
  intros He. split.
  - intros (e' & He' & Hr)%fde_at_some. by replace e with e' by congruence.
  - intros Hr. destruct (fde_at pc) as [off'|] eqn:E.
    + apply fde_at_some in E as (e' & He' & Hr'). destruct (decide (off = off')) as [->|Hne]; [done|].
      destruct (fo_disjoint Hok _ _ _ _ He He' Hne); lia.
    + exfalso. unfold fde_at in E. destruct (List.find _ _) as [|] eqn:Ef; [done|].
      assert (in_range pc (off, e) = true) as Hin
        by (apply andb_true_iff; split; [apply Z.leb_le|apply Z.ltb_lt]; apply Hr).
      rewrite (List.find_none _ _ Ef (off, e)) in Hin; [done|]. by apply list_elem_of_In, elem_of_map_to_list.
Qed.

Lemma frames_described pc : described (tables) (fde_at) pc.
Proof. intros off (e & He & _)%fde_at_some. unfold tables. rewrite He. by eexists. Qed.

(** ** The tables of the section *)

(** The instructions at the end of the bytes of an entry. *)
Lemma holds_tail off bs1 bs2 :
  ByteMemory (memory_ base_memory) bm -> 0 <= off -> off + len (bs1 ++ bs2) < 2 ^ 64 -> holds bm off (bs1 ++ bs2) ->
  at_bytes bm (put_cur (off + len bs1) base_memory) bs2.
Proof.
  intros Hm Ho He Hh. rewrite len_app in He. pose proof (len_nonneg bs1). pose proof (len_nonneg bs2).
  assert (at_bytes bm (put_cur off base_memory) (bs1 ++ bs2)) as Ha by (split; [done|split; [unfold in_u; cbn; lia|done]]).
  apply at_bytes_split in Ha as [_ (_ & _ & Hh2)]. cbn in Hh2. rewrite wrap_small in Hh2 by (unfold in_u; lia).
  split; [done|]. split; [unfold in_u; cbn; lia|done].
Qed.

Lemma entry_cie_code e :
  let c := entry_cie e in
  let f := en_cie e in
  cie_cfa_instructions_offset c + len (cf_instructions f) = cie_cfa_instructions_end c /\
  cie_cfa_instructions_end c = en_cie_offset e + len (encode_cie A kind f) /\
  exists bs, encode_cie A kind f = bs ++ cf_instructions f /\ cie_cfa_instructions_offset c = en_cie_offset e + len bs.
Proof.
  cbv zeta. unfold entry_cie, cie_of. cbv zeta.
  match goal with |- context [foldl _ ?c0 ?l] => destruct (foldl_augmentation pc_base base_memory c0 l) as [-> ->] end.
  cbn [cie_cfa_instructions_offset cie_cfa_instructions_end]. set (f := en_cie e).
  split; [unfold cie_length; lia|]. split; [rewrite len_encode_cie; unfold cie_length; lia|].
  exists (encode_length (cf_wide f) (cie_length A f) ++ le_bytes (id_size (cf_wide f)) (cie_id kind (cf_wide f)) ++ encode_cie_body A f).
  split; [by rewrite <- !app_assoc|]. rewrite !len_app, len_le_bytes. lia.
Qed.

Lemma entry_fde_code off e :
  let x := entry_fde off e in
  let f := en_fde e in
  let bytes := encode_fde A kind section_start off (en_cie_offset e) (entry_cie e) f in
  cfa_instructions_offset x + len (ff_instructions f) = cfa_instructions_end x /\
  cfa_instructions_end x = off + len bytes /\
  exists bs, bytes = bs ++ ff_instructions f /\ cfa_instructions_offset x = off + len bs.
Proof.
  cbv zeta. unfold entry_fde, fde_of. cbn [cfa_instructions_offset cfa_instructions_end]. set (f := en_fde e).
  split; [unfold fde_length, pointer_pos; lia|]. split; [rewrite len_encode_fde; unfold pointer_pos; lia|].
  eexists (encode_length (ff_wide f) (fde_length A (entry_cie e) f) ++ le_bytes (id_size (ff_wide f)) _ ++ encode_fde_body A (entry_cie e) f).
  split; [by rewrite <- !app_assoc|]. rewrite !len_app, len_le_bytes. unfold pointer_pos. lia.
Qed.

Lemma entry_table off e : entry_ok off e ->
  fde_table_ok A bm base_memory fuel
    (mkTable (entry_fde off e) (en_cie_offset e) (entry_cie e) (en_cie_code e) (en_code e) (en_cie_row e) (en_rows e)).
Proof.
  intros Ho. pose proof (eo_bytes _ _ Ho) as Hb. pose proof (fa_cie _ _ _ _ _ _ _ _ _ _ _ _ Hb) as Hc.
  destruct (entry_cie_code e) as (E1 & E2 & bs1 & E3 & E4). destruct (entry_fde_code off e) as (E5 & E6 & bs2 & E7 & E8).
  pose proof (ca_memory _ _ _ _ _ _ _ _ Hc) as Hm.
  destruct (eo_cie_runs _ _ Ho) as (R1 & R2 & R3), (eo_runs _ _ Ho) as (R4 & R5 & R6).
  split; cbn [t_fde t_cie_key t_cie t_cie_code t_code t_cie_row t_rows]; try apply Ho; [done| |].
  - pose proof (ca_end _ _ _ _ _ _ _ _ Hc) as He. unfold code_at. rewrite <- (eo_cie_code _ _ Ho).
    split; [|split; [lia|split; [by rewrite E2|done]]].
    rewrite E4. apply holds_tail; [done|apply Hc|by rewrite <- E3|rewrite <- E3; apply Hc].
  - pose proof (fa_end _ _ _ _ _ _ _ _ _ _ _ _ Hb) as He. fold (entry_cie e) in He.
    unfold code_at. rewrite <- (eo_code _ _ Ho). split; [|split; [lia|split; [by rewrite E6|done]]].
    rewrite E8. apply holds_tail; [done|apply Hb|by rewrite <- E7|rewrite <- E7; apply Hb].
Qed.

Lemma tables_some off t :
  tables off = Some t -> exists e, fdes !! off = Some e /\
    t = mkTable (entry_fde off e) (en_cie_offset e) (entry_cie e) (en_cie_code e) (en_code e) (en_cie_row e) (en_rows e).
Proof. intros (e & He & ->)%fmap_Some. by exists e. Qed.

#[export] Instance frames_tables : UnwindTables A bm base_memory tables fde_at fuel.
Proof.
  split.
  - intros off t (e & He & ->)%tables_some. by apply entry_table, (fo_entries Hok).
  - intros off t pc (e & He & ->)%tables_some. by apply fde_at_spec.
  - intros off off' t t' (e & He & ->)%tables_some (e' & He' & ->)%tables_some Ho. by apply (fo_cies Hok off off').
Qed.

(** The entries that were read before are those of the section. *)
Definition entries_agree b : Prop :=
  forall off e, fdes !! off = Some e ->
    (cie_entries_ b !! en_cie_offset e = None \/ cie_entries_ b !! en_cie_offset e = Some (entry_cie e)) /\
    (fde_entries_ b !! off = None \/
     fde_entries_ b !! off = Some (entry_fde off e) /\ cie_entries_ b !! en_cie_offset e = Some (entry_cie e)).

(** Reading the entries of an FDE keeps the entries in agreement. *)
Lemma entries_agree_with off e d b :
  fdes !! off = Some e -> entries_agree b ->
  entries_agree (with_entries off (entry_fde off e) (en_cie_offset e) (entry_cie e) d b).
Proof.
  intros He Hb off' e' He'. destruct (Hb _ _ He') as [Hc Hf]. cbn.
  assert (en_cie_offset e = en_cie_offset e' -> entry_cie e = entry_cie e') as Hsame.
  { intros E. destruct (fo_cies Hok _ _ _ _ He He' E) as [E' _]. unfold entry_cie. by rewrite E, E'. }
  destruct (decide (en_cie_offset e = en_cie_offset e')) as [E|E].
  - rewrite <- E, lookup_insert_eq. split; [right; by rewrite Hsame|].
    destruct (decide (off = off')) as [<-|Hne].
    + assert (e' = e) as -> by congruence. rewrite lookup_insert_eq. by right.
    + rewrite lookup_insert_ne by done. destruct Hf as [?|[? ?]]; [by left|right]. by rewrite Hsame.
  - rewrite lookup_insert_ne by done. split; [done|]. destruct (decide (off = off')) as [<-|Hne]; [congruence|].
    by rewrite lookup_insert_ne.
Qed.

(** What a search leaves alone. *)
Definition keeps b b' : Prop :=
  memory_ (sec_memory b') = memory_ (sec_memory b) /\ loc_regs_ b' = loc_regs_ b /\
  sec_cie_loc_regs b' = sec_cie_loc_regs b /\ cie_entries_ b ⊆ cie_entries_ b'.

#[export] Instance keeps_preorder : PreOrder keeps.
Proof.
  split; [by intros b|]. intros b1 b2 b3 (E1 & E2 & E3 & E4) (F1 & F2 & F3 & F4).
  split_and!; [congruence..|]. by etransitivity.
Qed.

Lemma with_entries_keeps off fde cie_off c d b :
  memory_ d = memory_ (sec_memory b) -> cie_entries_ b !! cie_off = None \/ cie_entries_ b !! cie_off = Some c ->
  keeps b (with_entries off fde cie_off c d b).
Proof.
  intros Em Hc. split_and!; [done..|]. cbn. destruct Hc as [Hc|Hc]; [by apply insert_subseteq|by rewrite insert_id].
Qed.

End Frames.
Arguments fo_entries {_ _ _ _ _ _ _ _ _}.
Arguments fo_disjoint {_ _ _ _ _ _ _ _ _}.
Arguments fo_cies {_ _ _ _ _ _ _ _ _}.
Arguments fde_at_spec {_ _ _ _ _ _ _ _ _}.
Arguments entries_agree_with {_ _ _ _ _ _ _ _ _}.
Arguments fde_at_some {_ _ _ _ _ _ _ _}.
Arguments tables_some {_ _ _ _ _ _ _ _}.
Arguments eo_bytes {_ _ _ _ _ _ _ _ _ _}.
Arguments eo_range {_ _ _ _ _ _ _ _ _ _}.
