(* ===== verification/DwarfSectionScan.v ===== *)
(** Sections without a header: [GetFdeFromPc] of [DwarfSectionImplNoHdr] ([DwarfSection.cpp]) reads
    the entries one after the other, as far as it needs to, and remembers the ranges of the FDEs in
    [fdes_]. Over the bytes of a section it finds the FDE of every pc, in every state in between. *)
From Stdlib Require Import ZArith Lia Bool Strings.Byte.
From stdpp Require Import base numbers list gmap.
From S2P Require Import Prelude StdMap Memory DwarfMemory DwarfEncode DwarfStructs Regs DwarfCfaTable DwarfCfa DwarfCfaRows.
From S2P Require Import DwarfSection DwarfSectionFdes DwarfSectionEval DwarfSectionEntries DwarfSectionStep DwarfFrames.
#[local] Open Scope Z_scope.

(** * The bytes of a section *)

Inductive item : Type :=
| CieItem (f : cie_fields)
| FdeItem (e : frame_entry).

Section Scan.
Context (A : addr_type) (kind : section_kind) (bm : Z -> option byte) (fuel : nat).
Context (base_memory : DwarfMemory) (bias pc_base section_start section_end : Z) (fdes : gmap Z frame_entry).
Context (items : list (Z * item)).
Implicit Types (s : DwarfSection) (e : frame_entry) (it : item) (l pre suf : list (Z * item)).

Local Abbreviation entry_fde := (entry_fde A kind base_memory bias pc_base).
Local Abbreviation entry_cie := (entry_cie A base_memory pc_base).
Local Abbreviation cie_at := (cie_of A pc_base base_memory).

Definition item_bytes (off : Z) it : list byte :=
  match it with
  | CieItem f => encode_cie A kind f
  | FdeItem e => encode_fde A kind section_start off (en_cie_offset e) (entry_cie e) (en_fde e)
  end.

(** The entries follow each other from [off] to the end of the section. *)
Fixpoint chained (off : Z) l : Prop :=
  match l with
  | [] => off = section_end
  | (o, it) :: l => o = off /\ chained (off + len (item_bytes off it)) l
  end.

Definition fde_items l : list (Z * frame_entry) :=
  omap (fun '(off, it) => match it with FdeItem e => Some (off, e) | CieItem _ => None end) l.
Definition fde_list l : list (Z * DwarfFde) := (fun x => (x.1, entry_fde x.1 x.2)) <$> fde_items l.

Record section_ok : Prop := {
  so_entries : entries_ok A kind bm fuel base_memory bias pc_base section_start fdes;
  so_cies : forall off f, (off, CieItem f) ∈ items -> holds_cie A bm kind pc_base base_memory fuel off f;
  so_chained : chained section_start items;
  (** every CIE comes before the FDEs that refer to it *)
  so_first : forall pre off e suf, items = pre ++ (off, FdeItem e) :: suf -> (en_cie_offset e, CieItem (en_cie e)) ∈ pre;
  so_fdes : forall off e, fdes !! off = Some e <-> (off, FdeItem e) ∈ items;
  so_separated : separated (fde_list items);
  so_range : 0 <= section_start /\ section_end < 2 ^ 64;
  so_fuel : (length items < fuel)%nat
}.
Context (Hok : section_ok).

(** * Reading the next entry *)

Lemma put_next_skip x n s : sskip n (put_next_entries x s) = put_next_entries x (sskip n s).
Proof. done. Qed.

Lemma next_entry_header_cie f rest s :
  on_bytes bm s (encode_length (cf_wide f) (cie_length A f) ++
                 le_bytes (id_size (cf_wide f)) (cie_id kind (cf_wide f)) ++ rest) ->
  length_ok (cf_wide f) (cie_length A f) ->
  let n := len (encode_length (cf_wide f) (cie_length A f)) in
  let s' := put_next_entries (u64 (cur_offset_ (sec_memory s) + n + cie_length A f)) (sskip (n + Z.of_nat (id_size (cf_wide f))) s) in
  next_entry_header kind s = Done (Some (inl (if cf_wide f then DW_EH_PE_sdata8 else DW_EH_PE_sdata4)), s') /\ on_bytes bm s' rest.
Proof.
  intros Hs Hlen. cbv zeta. unfold next_entry_header. pose proof (cie_id_range kind (cf_wide f)) as Hid.
  match goal with |- obind _ (fun v => if _ then obind _ ?k64 else @?k32 v) _ = _ /\ _ =>
    destruct (read_length bm k32 k64 _ _ _ s Hs Hlen) as [E Hs1] end.
  cbv beta in E. rewrite E. clear E. destruct (cf_wide f); cbn [id_size] in *; rewrite bind_cur, bind_modify;
    match goal with |- context [put_next_entries ?x ?s0] => set (s1 := put_next_entries x s0) end;
    match type of Hs1 with on_bytes _ _ ?bs => assert (on_bytes bm s1 bs) as Hs2 by exact Hs1 end.
  - reading (fun k => read_le bm k 8 8 _ _ _ eq_refl Hs2 Hid ltac:(lia)) as Hs3. unfold cie_id. rewrite Z.eqb_refl.
    subst s1. rewrite put_next_skip, sskip_sskip, cur_sskip, wrap_add_l in * by lia. by split.
  - reading (fun k => read_le bm k 4 4 _ _ _ eq_refl Hs2 Hid ltac:(lia)) as Hs3. unfold cie_id. rewrite Z.eqb_refl.
    subst s1. rewrite put_next_skip, sskip_sskip, cur_sskip, wrap_add_l in * by lia. by split.
Qed.

Lemma next_entry_header_fde off cie_off c f rest s :
  on_bytes bm s (encode_length (ff_wide f) (fde_length A c f) ++
                 le_bytes (id_size (ff_wide f)) (cie_pointer A kind section_start off cie_off c f) ++ rest) ->
  fde_ok A kind section_start bias pc_base base_memory off cie_off c f -> cur_offset_ (sec_memory s) = off ->
  entries_offset_ s = section_start -> in_u 64 cie_off ->
  let n := len (encode_length (ff_wide f) (fde_length A c f)) in
  let s' := put_next_entries (u64 (pointer_pos A off c f + fde_length A c f)) (sskip (n + Z.of_nat (id_size (ff_wide f))) s) in
  next_entry_header kind s = Done (Some (inr cie_off), s') /\ on_bytes bm s' rest.
Proof.
  intros Hs Hf Hc He Hr. cbv zeta. unfold next_entry_header.
  pose proof (fk_pointer _ _ _ _ _ _ _ _ _ _ Hf) as Hp. pose proof (fk_id _ _ _ _ _ _ _ _ _ _ Hf) as Hid.
  match goal with |- obind _ (fun v => if _ then obind _ ?k64 else @?k32 v) _ = _ /\ _ =>
    destruct (read_length bm k32 k64 _ _ _ s Hs (fk_length _ _ _ _ _ _ _ _ _ _ Hf)) as [E Hs1] end.
  cbv beta in E. rewrite E. clear E.
  set (x := u64 (pointer_pos A off c f + fde_length A c f)).
  pose proof (GetCieOffset_run A kind (ff_wide f) section_start off cie_off c f
    (put_next_entries x (sskip (len (encode_length (ff_wide f) (fde_length A c f)) + Z.of_nat (id_size (ff_wide f))) s))) as Hg.
  cbn [sec_memory put_next_entries] in Hg. rewrite cur_sskip, Hc, Z.add_assoc in Hg. specialize (Hg eq_refl He Hr). unfold cie_id in Hid.
  assert (u64 (cur_offset_ (sec_memory (sskip (len (encode_length (ff_wide f) (fde_length A c f))) s)) + fde_length A c f) = x) as Ex
    by (rewrite cur_sskip, Hc, wrap_add_l by lia; reflexivity).
  destruct (ff_wide f) eqn:Ew; cbn [id_size] in *;
    change (Z.of_nat 8) with 8 in *; change (Z.of_nat 4) with 4 in *; rewrite bind_cur, Ex, bind_modify;
    match goal with |- context [put_next_entries x ?s0] => set (s1 := put_next_entries x s0) end;
    match type of Hs1 with on_bytes _ _ ?bs => assert (on_bytes bm s1 bs) as Hs2 by exact Hs1 end.
  - reading (fun k => read_le bm k 8 8 _ _ _ eq_refl Hs2 Hp ltac:(lia)) as Hs3. subst s1. rewrite put_next_skip, sskip_sskip in *.
    rewrite (proj2 (Z.eqb_neq _ _) Hid). split; [|exact Hs3]. unfold bind at 1. by rewrite Hg.
  - reading (fun k => read_le bm k 4 4 _ _ _ eq_refl Hs2 Hp ltac:(lia)) as Hs3. subst s1. rewrite put_next_skip, sskip_sskip in *.
    rewrite (proj2 (Z.eqb_neq _ _) Hid). split; [|exact Hs3]. unfold bind at 1. by rewrite Hg.
Qed.

(** * The state of a scan *)

(** The entries of [pre] were read, those of [suf] were not. *)
Record scanned pre suf s : Prop := {
  sc_items : items = pre ++ suf;
  sc_next : section_start <= next_entries_offset_ s;
  sc_chained : chained (next_entries_offset_ s) suf;
  sc_before : forall off it, (off, it) ∈ pre -> off < next_entries_offset_ s;
  sc_cie : forall off f, (off, CieItem f) ∈ pre -> cie_entries_ s !! off = Some (cie_at off f);
  sc_cie_only : forall off, is_Some (cie_entries_ s !! off) -> exists f, (off, CieItem f) ∈ pre;
  sc_fde : forall off e, (off, FdeItem e) ∈ pre -> fde_entries_ s !! off = Some (entry_fde off e);
  sc_fde_only : forall off, is_Some (fde_entries_ s !! off) -> off < next_entries_offset_ s;
  sc_fdes : fdes_ s = insert_fdes (fde_list pre) [];
  sc_constants : entries_offset_ s = section_start /\ entries_end_ s = section_end /\ load_bias_ s = bias /\
    sec_pc_offset s = pc_base /\ same_but_pc base_memory (sec_memory s)
}.


Lemma chained_end off l : chained off l -> off <= section_end.
Proof.
  revert off. induction l as [|[o it] l IH]; intros off; [cbn; lia|]. intros (-> & Hc). specialize (IH _ Hc).
  pose proof (len_nonneg (item_bytes off it)). lia.
Qed.

Lemma fde_list_snoc pre off it :
  fde_list (pre ++ [(off, it)]) = fde_list pre ++ match it with FdeItem e => [(off, entry_fde off e)] | CieItem _ => [] end.
Proof. unfold fde_list, fde_items. rewrite omap_app, fmap_app. by destruct it. Qed.

Lemma elem_of_snoc {B} (x y : B) (l : list B) : x ∈ l ++ [y] <-> x ∈ l \/ x = y.
Proof. by rewrite elem_of_app, list_elem_of_singleton. Qed.

Lemma len_item_pos off it : 0 < len (item_bytes off it).
Proof.
  assert (forall wide n, 0 < len (encode_length wide n)) as Hl
    by (intros [] n; unfold encode_length; rewrite ?len_app, ?len_le_bytes; lia).
  destruct it as [f|e]; cbn [item_bytes]; unfold encode_cie, encode_fde; rewrite len_app;
    match goal with |- 0 < len (encode_length ?w ?n) + len ?x => pose proof (Hl w n); pose proof (len_nonneg x); lia end.
Qed.

(** The state after the next entry was stored. *)
Lemma scanned_next pre off it suf s s' :
  scanned pre ((off, it) :: suf) s -> next_entries_offset_ s' = off + len (item_bytes off it) ->
  match it with
  | CieItem f => cie_entries_ s' = <[off := cie_at off f]> (cie_entries_ s) /\ fde_entries_ s' = fde_entries_ s /\ fdes_ s' = fdes_ s
  | FdeItem e => cie_entries_ s' = cie_entries_ s /\ fde_entries_ s' = <[off := entry_fde off e]> (fde_entries_ s) /\
      fdes_ s' = insert_fde off (entry_fde off e) (fdes_ s)
  end ->
  entries_offset_ s' = entries_offset_ s -> entries_end_ s' = entries_end_ s -> load_bias_ s' = load_bias_ s ->
  sec_pc_offset s' = sec_pc_offset s -> same_but_pc base_memory (sec_memory s') ->
  scanned (pre ++ [(off, it)]) suf s'.
Proof.
  intros [Hit Hst (-> & Hch) Hbef Hc Hco Hf Hfo Hfd (Ho & He & Hb & Hp & Hd)] En Hent E1 E2 E3 E4 Hd'.
  set (off := next_entries_offset_ s) in *. pose proof (len_item_pos off it) as Hpos.
  split; rewrite ?En; try done.
  - by rewrite Hit, <- app_assoc.
  - lia.
  - intros o i [?%Hbef|[= -> ->]]%elem_of_snoc; lia.
  - intros o g [Hin|[= -> <-]]%elem_of_snoc.
    + pose proof (Hbef _ _ Hin). destruct it; destruct Hent as (-> & _); [rewrite lookup_insert_ne by lia|]; by apply Hc.
    + destruct Hent as (-> & _). apply lookup_insert_eq.
  - intros o Ho'. destruct it as [f|e]; destruct Hent as (Ec & _); rewrite Ec in Ho'.
    + apply lookup_insert_is_Some in Ho' as [<-|[_ [g ?]%Hco]]; [exists f|exists g]; apply elem_of_snoc; auto.
    + destruct (Hco _ Ho') as [g ?]. exists g. apply elem_of_snoc. auto.
  - intros o e [Hin|[= -> <-]]%elem_of_snoc.
    + pose proof (Hbef _ _ Hin). destruct it; destruct Hent as (_ & -> & _); [|rewrite lookup_insert_ne by lia]; by apply Hf.
    + destruct Hent as (_ & -> & _). apply lookup_insert_eq.
  - intros o Ho'. destruct it; destruct Hent as (_ & Ec & _); rewrite Ec in Ho'.
    + pose proof (Hfo _ Ho'). lia.
    + apply lookup_insert_is_Some in Ho' as [->|[_ ?%Hfo]]; lia.
  - rewrite fde_list_snoc. unfold insert_fdes. rewrite fold_left_app. fold (insert_fdes (fde_list pre) []).
    rewrite <- Hfd. destruct it; destruct Hent as (_ & _ & ->); done.
  - split_and!; congruence || done.
Qed.

Lemma next_cie pre off f suf s :
  scanned pre ((off, CieItem f) :: suf) s ->
  exists s', GetNextCieOrFde A kind fuel s = Done (Some None, s') /\ scanned (pre ++ [(off, CieItem f)]) suf s' /\
    cur_offset_ (sec_memory s') <= next_entries_offset_ s' /\ keeps s s'.
Proof.
  intros Hsc. pose proof Hsc as [Hit Hst (-> & Hch) Hbef Hc Hco Hf Hfo Hfd (Ho & He & Hb & Hp & Hd)].
  set (off := next_entries_offset_ s) in *.
  assert (holds_cie A bm kind pc_base base_memory fuel off f) as Hca.
  { apply (so_cies Hok). rewrite Hit. apply elem_of_app. right. by left. }
  destruct Hca as [Hcok Hm H0 Hh Hend Hfuel].
  unfold GetNextCieOrFde. unfold bind at 1, get at 1. cbv zeta. rewrite bind_set_cur. fold off.
  pose proof (at_put_cur bm _ _ base_memory s Hm Hd H0 Hend Hh) as Hs. set (s0 := put_sec_memory _ s) in *.
  rewrite (len_encode_cie A kind f) in Hend. pose proof (len_nonneg (encode_cie_body A f)). pose proof (len_nonneg (cf_instructions f)).
  pose proof (len_nonneg (encode_length (cf_wide f) (cie_length A f))).
  destruct (next_entry_header_cie f _ s0 Hs (ck_length _ _ _ _ Hcok)) as [Hr1 Hs1].
  set (n := len (encode_length (cf_wide f) (cie_length A f))) in *. set (n' := n + Z.of_nat _) in *.
  change (cur_offset_ (sec_memory s0)) with off in Hr1, Hs1. set (s1 := put_next_entries _ _) in *.
  assert (cie_length A f = Z.of_nat (id_size (cf_wide f)) + len (encode_cie_body A f) + len (cf_instructions f)) as El by reflexivity.
  assert (next_entries_offset_ s1 = off + n + cie_length A f) as En by (apply wrap_small; unfold in_u; lia).
  rewrite (obind_run _ _ _ _ _ Hr1). unfold bind at 1, get at 1. cbv iota.
  assert (cie_entries_ s1 !! off = None) as ->.
  { change (cie_entries_ s1) with (cie_entries_ s). apply eq_None_not_Some. intros [? ?%Hbef]%Hco. lia. }
  cbn [default]. rewrite En.
  destruct (FillInCie_run A bm fuel pc_base base_memory f
     (with_header (if cf_wide f then DW_EH_PE_sdata8 else DW_EH_PE_sdata4) (off + n + cie_length A f) new_cie) _
     s1 Hs1 Hcok Hp Hd eq_refl) as (d' & Hr2 & Hd' & Hcur); [lia|done|].
  unfold bind at 1. rewrite Hr2, bind_modify.
  match goal with |- context [<[off := ?x]> _] => assert (x = cie_at off f) as -> end.
  { change (cur_offset_ (sec_memory s1)) with (u64 (off + n')). unfold cie_of. cbv zeta. fold n.
    rewrite wrap_add_l, wrap_small by (unfold in_u; lia). subst n'. by rewrite !Z.add_assoc. }
  change (cur_offset_ (sec_memory s1)) with (u64 (off + n')) in Hcur. rewrite wrap_add_l, wrap_small in Hcur by (unfold in_u; lia).
  eexists. split; [reflexivity|]. split; [|split].
  - eapply scanned_next; try done. cbn [next_entries_offset_ put_cie_entries put_sec_memory]. rewrite En.
    cbn [item_bytes]. rewrite (len_encode_cie A kind f). fold n. lia.
  - cbn [next_entries_offset_ put_cie_entries put_sec_memory sec_memory]. rewrite En, Hcur. lia.
  - split; [cbn; by destruct Hd as (-> & _), Hd' as (-> & _)|]. do 2 (split; [done|]). cbn. apply insert_subseteq.
    apply eq_None_not_Some. intros [? ?%Hbef]%Hco. lia.
Qed.

Lemma next_fde pre off e suf s :
  scanned pre ((off, FdeItem e) :: suf) s ->
  exists s', GetNextCieOrFde A kind fuel s = Done (Some (Some off), s') /\
    fde_entries_ s' !! off = Some (entry_fde off e) /\
    scanned (pre ++ [(off, FdeItem e)]) suf (put_fdes (insert_fde off (entry_fde off e) (fdes_ s')) s') /\
    cur_offset_ (sec_memory s') <= next_entries_offset_ s' /\ keeps s s'.
Proof.
  intros Hsc. pose proof Hsc as [Hit Hst (-> & Hch) Hbef Hc Hco Hf Hfo Hfd (Ho & He & Hb & Hp & Hd)].
  set (off := next_entries_offset_ s) in *.
  assert (fdes !! off = Some e) as Hin
    by (apply (so_fdes Hok); rewrite Hit; apply elem_of_app; right; by left).
  pose proof (eo_bytes (fo_entries (so_entries Hok) _ _ Hin)) as Hby.
  pose proof (Hc _ _ (so_first Hok _ _ _ _ Hit)) as Hcie. fold (entry_cie e) in Hcie.
  destruct Hby as [Hca Hfok H0 Hh Hend]. fold (entry_cie e) in Hfok, Hh, Hend.
  unfold GetNextCieOrFde. unfold bind at 1, get at 1. cbv zeta. rewrite bind_set_cur. fold off.
  pose proof (at_put_cur bm _ _ base_memory s (ca_memory _ _ _ _ _ _ _ _ Hca) Hd H0 Hend Hh) as Hs.
  set (s0 := put_sec_memory _ s) in *. rewrite len_encode_fde in Hend.
  assert (in_u 64 (en_cie_offset e)) as Hcr.
  { pose proof (ca_end _ _ _ _ _ _ _ _ Hca). pose proof (ca_offset _ _ _ _ _ _ _ _ Hca).
    pose proof (len_nonneg (encode_cie A kind (en_cie e))). unfold in_u. lia. }
  set (c := entry_cie e) in *. set (f := en_fde e) in *.
  pose proof (len_nonneg (encode_length (ff_wide f) (fde_length A c f))). pose proof (len_nonneg (encode_fde_body A c f)).
  pose proof (len_nonneg (ff_instructions f)).
  destruct (next_entry_header_fde off (en_cie_offset e) c f _ s0 Hs Hfok eq_refl Ho Hcr) as [Hr1 Hs1].
  set (n := len (encode_length (ff_wide f) (fde_length A c f))) in *. set (s1 := put_next_entries _ _) in *.
  assert (fde_length A c f = Z.of_nat (id_size (ff_wide f)) + len (encode_fde_body A c f) + len (ff_instructions f)) as El by reflexivity.
  assert (pointer_pos A off c f = off + n) as Epos by reflexivity.
  assert (next_entries_offset_ s1 = pointer_pos A off c f + fde_length A c f) as En
    by (apply wrap_small; unfold in_u; lia).
  rewrite (obind_run _ _ _ _ _ Hr1). unfold bind at 1, get at 1. cbv iota.
  assert (fde_entries_ s1 !! off = None) as ->.
  { change (fde_entries_ s1) with (fde_entries_ s). apply eq_None_not_Some. intros ?%Hfo. lia. }
  cbn [default]. rewrite En.
  assert (cur_offset_ (sec_memory s1) = pointer_pos A off c f + Z.of_nat (id_size (ff_wide f))) as Ecur.
  { change (cur_offset_ (sec_memory s1)) with (u64 (off + (n + Z.of_nat (id_size (ff_wide f))))).
    rewrite wrap_small by (unfold in_u; lia). lia. }
  destruct (FillInFde_run A bm kind fuel section_start bias pc_base base_memory off (en_cie_offset e) (en_cie e) f
     (pointer_pos A off c f + fde_length A c f) _ s1 Hs1 Hca Hfok (or_intror Hcie) Ecur H0 ltac:(fold (entry_cie e); fold c; lia) Hb Hp Hd)
    as (d' & Hr2 & Hd' & Hcur).
  unfold bind at 1. rewrite Hr2, bind_modify.
  match goal with |- context [<[off := ?x]> _] => change x with (entry_fde off e) end.
  eexists. split; [reflexivity|]. split; [cbn; apply lookup_insert_eq|]. split; [|split].
  - eapply scanned_next; try done.
    + cbn [next_entries_offset_ put_fdes put_fde_entries put_cie_entries put_sec_memory item_bytes]. rewrite En.
      rewrite len_encode_fde. fold c f n. lia.
    + cbn. split; [|done]. by apply insert_id.
  - cbn [next_entries_offset_ put_fde_entries put_cie_entries put_sec_memory sec_memory]. rewrite En, Hcur. fold (entry_cie e). fold c. lia.
  - split; [cbn; by destruct Hd as (-> & _), Hd' as (-> & _)|]. do 2 (split; [done|]). cbn. by rewrite insert_id.
Qed.

(** * The scan *)

Local Abbreviation in_range := (in_range A kind base_memory bias pc_base).
Local Abbreviation fde_at := (fde_at A kind base_memory bias pc_base fdes).

(** The first FDE of some entries whose range contains the pc. *)
Definition first_fde (pc : Z) l : option Z := fst <$> List.find (in_range pc) (fde_items l).

Lemma fde_items_elem off e l : (off, e) ∈ fde_items l <-> (off, FdeItem e) ∈ l.
Proof.
  unfold fde_items. rewrite list_elem_of_omap. split.
  - by intros ([o [f|e']] & Hin & [= <- <-]).
  - intros Hin. by exists (off, FdeItem e).
Qed.

Lemma next_lt_end o off it suf : chained o ((off, it) :: suf) -> o < section_end.
Proof. intros [-> Hc]. apply chained_end in Hc. pose proof (len_item_pos o it). lia. Qed.

(** The entries before a state are read in the order in which they lie. *)
Definition scan_state s : Prop := exists pre suf, scanned pre suf s.

Lemma insert_fde_run off x s : InsertFde off x s = Done (tt, put_fdes (insert_fde off x (fdes_ s)) s).
Proof. done. Qed.

(** The test of the loop after an entry. *)
Lemma scan_continue {B} (x y : SEC B) s :
  cur_offset_ (sec_memory s) <= next_entries_offset_ s ->
  bind get (fun s => cur <- on_sec_memory cur_offset ;; if next_entries_offset_ s <? cur then x else y) s = y s.
Proof.
  intros Hc. unfold bind at 1, get at 1. rewrite bind_cur. by rewrite (proj2 (Z.ltb_ge _ _)).
Qed.

Lemma scan_for_pc_run n pc pre suf s :
  scanned pre suf s -> (length suf < n)%nat ->
  exists pre' suf' s', scan_for_pc A kind n fuel pc s = Done (first_fde pc suf, s') /\ scanned pre' suf' s' /\ keeps s s' /\
    forall off, first_fde pc suf = Some off -> exists e, (off, FdeItem e) ∈ pre'.
Proof.
  revert n pre s. induction suf as [|[off it] suf IH]; intros n pre s Hsc Hn; destruct n as [|n]; try (cbn in Hn; lia); cbn [scan_for_pc];
    unfold bind at 1, get at 1; pose proof (sc_chained _ _ _ Hsc) as Hch; destruct (sc_constants _ _ _ Hsc) as (_ & -> & _).
  { cbn in Hch. rewrite Hch, Z.ltb_irrefl. by exists pre, [], s. }
  rewrite (proj2 (Z.ltb_lt _ _) (next_lt_end _ _ _ _ Hch)). destruct it as [f|e].
  - destruct (next_cie pre off f suf s Hsc) as (s1 & Hr & Hsc1 & Hcur & Hk).
    rewrite (obind_run _ _ _ _ _ Hr). unfold bind at 1, ret at 1. rewrite scan_continue by done.
    destruct (IH n (pre ++ [(off, CieItem f)]) s1 Hsc1 ltac:(cbn in Hn; lia)) as (pre' & suf' & s2 & Hr2 & Hsc2 & Hk2 & Hin).
    exists pre', suf', s2. split; [exact Hr2|]. split; [done|]. split; [by etransitivity|done].
  - destruct (next_fde pre off e suf s Hsc) as (s1 & Hr & Hf & Hsc1 & Hcur & Hk).
    rewrite (obind_run _ _ _ _ _ Hr). unfold bind at 1. unfold bind at 1, deref_fde at 1. unfold bind at 1, get at 1. rewrite Hf.
    unfold some_or, ret at 1. unfold bind at 1. rewrite insert_fde_run. set (s2 := put_fdes _ s1) in *.
    assert (keeps s s2) as Hk2 by exact Hk. unfold first_fde. change (fde_items ((off, FdeItem e) :: suf)) with ((off, e) :: fde_items suf).
    cbn [List.find in_range fst snd]. unfold ret at 1. destruct (in_range pc (off, e)) eqn:Er; unfold in_range in Er; cbn [fst snd] in Er; rewrite Er.
    + exists (pre ++ [(off, FdeItem e)]), suf, s2. split; [done|]. split; [done|]. split; [done|]. intros o [= <-].
      exists e. apply elem_of_app. right. by left.
    + rewrite scan_continue by done.
      destruct (IH n (pre ++ [(off, FdeItem e)]) s2 Hsc1 ltac:(cbn in Hn; lia)) as (pre' & suf' & s3 & Hr3 & Hsc3 & Hk3 & Hin).
      exists pre', suf', s3. split; [exact Hr3|]. split; [done|]. split; [by etransitivity|done].
Qed.

(** What was read before is in [fdes_]. *)
Lemma separated_app (xs ys : list (Z * DwarfFde)) : separated (xs ++ ys) -> separated xs.
Proof.
  induction xs as [|[p f] xs IH]; [done|]. cbn. intros (Hlt & Hf & Hs). apply Forall_app in Hf as [Hf _]. auto.
Qed.

Lemma fde_list_elem off x l : (off, x) ∈ fde_list l <-> exists e, x = entry_fde off e /\ (off, FdeItem e) ∈ l.
Proof.
  unfold fde_list. rewrite list_elem_of_fmap. split.
  - intros ([o e] & [= -> ->] & Hin%fde_items_elem). by exists e.
  - intros (e & -> & Hin). exists (off, e). by rewrite fde_items_elem.
Qed.

Lemma find_fde_scanned pc pre suf s off :
  scanned pre suf s ->
  find_fde pc (fdes_ s) = Some off <-> exists e, (off, FdeItem e) ∈ pre /\ pc_start (entry_fde off e) <= pc < pc_end (entry_fde off e).
Proof.
  intros Hsc. pose proof (so_separated Hok) as Hsep. rewrite (sc_items _ _ _ Hsc) in Hsep.
  unfold fde_list, fde_items in Hsep. rewrite omap_app, fmap_app in Hsep. apply separated_app in Hsep. fold (fde_items pre) in Hsep. fold (fde_list pre) in Hsep.
  destruct (insert_fdes_complete [] (fde_list pre) [] fdes_wf_nil) as [Hwf [H1 H2]]; [split; [|by intros k s0 q ?]|by apply Forall_nil|done|].
  { intros q g Hg. by apply not_elem_of_nil in Hg. }
  rewrite (sc_fdes _ _ _ Hsc), (find_fde_spec _ _ _ Hwf). cbn [app] in H1, H2. split.
  - intros (k & st & Hm & Hr). destruct (H2 _ _ _ Hm) as (x & (e & -> & Hin)%fde_list_elem & <- & <-). by exists e.
  - intros (e & Hin & Hr). eexists _, _. split; [|exact Hr]. apply H1, fde_list_elem. by exists e.
Qed.

Lemma first_fde_some pc l off :
  first_fde pc l = Some off -> exists e, (off, FdeItem e) ∈ l /\ pc_start (entry_fde off e) <= pc < pc_end (entry_fde off e).
Proof.
  intros ([o e] & Hf & ->)%fmap_Some. apply List.find_some in Hf as [Hin Hr]. exists e.
  split; [by apply fde_items_elem, list_elem_of_In|]. apply andb_true_iff in Hr as [?%Z.leb_le ?%Z.ltb_lt]. done.
Qed.

Lemma first_fde_none pc l off e :
  first_fde pc l = None -> (off, FdeItem e) ∈ l -> ~ pc_start (entry_fde off e) <= pc < pc_end (entry_fde off e).
Proof.
  unfold first_fde. destruct (List.find _ _) eqn:Ef; [done|]. intros _ Hin%fde_items_elem%list_elem_of_In Hr.
  pose proof (List.find_none _ _ Ef _ Hin) as Hn. unfold in_range in Hn. cbn [fst snd] in Hn.
  rewrite (proj2 (Z.leb_le _ _)), (proj2 (Z.ltb_lt _ _)) in Hn by lia. done.
Qed.

(** [GetFdeFromPc] finds the FDE of the pc, among the entries read before or further on. *)
Lemma GetFdeFromPc_scan pc s :
  scan_state s ->
  exists s', GetFdeFromPc A kind fuel fuel pc s = Done (fde_at pc, s') /\ scan_state s' /\ keeps s s' /\
    forall off e, fde_at pc = Some off -> fdes !! off = Some e ->
      fde_entries_ s' !! off = Some (entry_fde off e) /\ cie_entries_ s' !! en_cie_offset e = Some (entry_cie e).
Proof.
  intros (pre & suf & Hsc).
  assert (forall pre suf s off e, scanned pre suf s -> (off, FdeItem e) ∈ pre ->
    fde_entries_ s !! off = Some (entry_fde off e) /\ cie_entries_ s !! en_cie_offset e = Some (entry_cie e)) as Hread.
  { clear pre suf s Hsc. intros pre suf s off e Hsc Hin. split; [by apply (sc_fde _ _ _ Hsc)|]. apply (sc_cie _ _ _ Hsc).
    pose proof Hin as (pre1 & pre2 & ->)%list_elem_of_split. apply elem_of_app. left. apply (so_first Hok pre1 off e (pre2 ++ suf)).
    rewrite (sc_items _ _ _ Hsc), <- app_assoc. done. }
  assert (forall off e, (off, FdeItem e) ∈ items -> pc_start (entry_fde off e) <= pc < pc_end (entry_fde off e) -> fde_at pc = Some off) as Hat.
  { intros off e Hin%(so_fdes Hok) Hr. by apply (fde_at_spec (so_entries Hok) pc off e Hin). }
  assert (forall pre suf s off off' e, scanned pre suf s -> fde_at pc = Some off -> (off', FdeItem e) ∈ pre ->
    pc_start (entry_fde off' e) <= pc < pc_end (entry_fde off' e) -> off = off') as Hsame.
  { intros p q s0 off off' e Hp E Hin Hr. rewrite (Hat off' e) in E; [by injection E|rewrite (sc_items _ _ _ Hp); apply elem_of_app; by left|done]. }
  unfold GetFdeFromPc. unfold bind at 1, get at 1. destruct (find_fde pc (fdes_ s)) as [off|] eqn:Ef.
  - apply (find_fde_scanned pc pre suf s off Hsc) in Ef as (e & Hin & Hr).
    assert (fde_at pc = Some off) as E by (apply (Hat off e); [rewrite (sc_items _ _ _ Hsc); apply elem_of_app; by left|done]).
    exists s. rewrite E. split; [done|]. split; [by exists pre, suf|]. split; [done|]. intros o e' [= <-] He'.
    assert ((off, FdeItem e) ∈ items) as Hin'%(so_fdes Hok) by (rewrite (sc_items _ _ _ Hsc); apply elem_of_app; by left).
    assert (e' = e) as -> by congruence. by apply (Hread pre suf).
  - assert (length suf < fuel)%nat as Hn.
    { pose proof (so_fuel Hok) as Hf. rewrite (sc_items _ _ _ Hsc), length_app in Hf. lia. }
    destruct (scan_for_pc_run fuel pc pre suf s Hsc Hn) as (pre' & suf' & s' & Hr & Hsc' & Hk & Hin). exists s'.
    assert (fde_at pc = first_fde pc suf) as E.
    { destruct (first_fde pc suf) as [off|] eqn:E.
      - apply first_fde_some in E as (e & Hi & Hrange). apply (Hat off e); [|done]. rewrite (sc_items _ _ _ Hsc). apply elem_of_app. by right.
      - destruct (fde_at pc) as [off|] eqn:E'; [|done]. exfalso. apply fde_at_some in E' as (e & He%(so_fdes Hok) & Hrange).
        rewrite (sc_items _ _ _ Hsc) in He. apply elem_of_app in He as [He|He]; [|by eapply first_fde_none].
        assert (find_fde pc (fdes_ s) = Some off) by (apply (find_fde_scanned pc pre suf s off Hsc); by exists e). congruence. }
    rewrite E. split; [done|]. split; [by exists pre', suf'|]. split; [done|]. intros off e Hoff He.
    destruct (Hin off Hoff) as (e' & Hin').
    assert ((off, FdeItem e') ∈ items) as Hi%(so_fdes Hok) by (rewrite (sc_items _ _ _ Hsc'); apply elem_of_app; by left).
    assert (e' = e) as -> by congruence. by apply (Hread pre' suf').
Qed.

(** * The list of the FDEs *)

Lemma chained_le o l off it : chained o l -> (off, it) ∈ l -> o <= off.
Proof.
  revert o. induction l as [|[o' it'] l IH]; intros o; [by intros _ ?%not_elem_of_nil|]. intros [-> Hc] [[= -> ->]|Hin]%elem_of_cons; [lia|].
  specialize (IH _ Hc Hin). pose proof (len_item_pos o it'). lia.
Qed.

Lemma chained_unique o l off x y : chained o l -> (off, x) ∈ l -> (off, y) ∈ l -> x = y.
Proof.
  revert o. induction l as [|[o' it'] l IH]; intros o; [by intros _ ?%not_elem_of_nil|]. intros [-> Hc].
  pose proof (len_item_pos o it'). intros [[= -> ->]|Hx]%elem_of_cons [[= ->]|Hy]%elem_of_cons; [done| | |by eapply IH].
  - pose proof (chained_le _ _ _ _ Hc Hy). lia.
  - subst. pose proof (chained_le _ _ _ _ Hc Hx). lia.
Qed.

Lemma cie_at_end off f : cie_cfa_instructions_end (cie_at off f) = off + len (encode_cie A kind f).
Proof.
  unfold cie_of. cbv zeta. match goal with |- context [foldl _ ?c0 ?l] => destruct (foldl_augmentation pc_base base_memory c0 l) as [_ ->] end.
  cbn [cie_cfa_instructions_end]. rewrite (len_encode_cie A kind f). unfold cie_length. lia.
Qed.

Lemma entry_fde_end off e : cfa_instructions_end (entry_fde off e) = off + len (item_bytes off (FdeItem e)).
Proof. apply (entry_fde_code A kind base_memory bias pc_base section_start off e). Qed.

(** The entries that were read before *)
Lemma cached_fdes_run n pre suf s acc rest read o :
  scanned pre suf s -> pre = read ++ rest -> chained o (rest ++ suf) -> (length rest < n)%nat ->
  cached_fdes n o acc s = Done ((true, acc ++ (fde_items rest).*1), s).
Proof.
  intros Hsc. revert n acc read o. induction rest as [|[off it] rest IH]; intros n acc read o Hpre Hch Hn; destruct n as [|n]; try (cbn in Hn; lia);
    cbn [cached_fdes]; unfold bind at 1, get at 1.
  { assert (o = next_entries_offset_ s) as ->.
    { pose proof (sc_chained _ _ _ Hsc) as Hc. destruct suf as [|[o' x] suf]; cbn in *; [congruence|]. destruct Hc, Hch. congruence. }
    rewrite Z.ltb_irrefl. by rewrite app_nil_r. }
  cbn [app chained] in Hch. destruct Hch as [-> Hch].
  assert ((o, it) ∈ pre) as Hin by (rewrite Hpre; apply elem_of_app; right; by left).
  rewrite (proj2 (Z.ltb_lt _ _) (sc_before _ _ _ Hsc _ _ Hin)).
  assert (pre = (read ++ [(o, it)]) ++ rest) as Hpre' by (by rewrite <- app_assoc). destruct it as [f|e].
  - rewrite (sc_cie _ _ _ Hsc _ _ Hin), cie_at_end. by apply (IH n acc (read ++ [(o, CieItem f)])); [..|cbn in Hn; lia].
  - assert (cie_entries_ s !! o = None) as ->.
    { apply eq_None_not_Some. intros [f Hf]%(sc_cie_only _ _ _ Hsc). pose proof (so_chained Hok) as Hc. rewrite (sc_items _ _ _ Hsc) in Hc.
      by discriminate (chained_unique _ _ o (CieItem f) (FdeItem e) Hc); apply elem_of_app; left. }
    rewrite (sc_fde _ _ _ Hsc _ _ Hin), entry_fde_end.
    rewrite (IH n (acc ++ [o]) (read ++ [(o, FdeItem e)])); [|done|done|cbn in Hn; lia].
    by rewrite <- app_assoc.
Qed.

Lemma scan_fdes_run n pre suf s acc :
  scanned pre suf s -> (length suf < n)%nat ->
  exists s', scan_fdes A kind n fuel acc s = Done (acc ++ (fde_items suf).*1, s') /\ scanned items [] s' /\ keeps s s'.
Proof.
  revert n pre s acc. induction suf as [|[off it] suf IH]; intros n pre s acc Hsc Hn; destruct n as [|n]; try (cbn in Hn; lia); cbn [scan_fdes];
    unfold bind at 1, get at 1; pose proof (sc_chained _ _ _ Hsc) as Hch; destruct (sc_constants _ _ _ Hsc) as (_ & -> & _).
  { cbn in Hch. rewrite Hch, Z.ltb_irrefl. exists s. split; [by rewrite app_nil_r|]. split; [|done].
    pose proof (sc_items _ _ _ Hsc) as E. rewrite app_nil_r in E. by rewrite E. }
  rewrite (proj2 (Z.ltb_lt _ _) (next_lt_end _ _ _ _ Hch)). destruct it as [f|e].
  - destruct (next_cie pre off f suf s Hsc) as (s1 & Hr & Hsc1 & Hcur & Hk).
    unfold bind at 1. rewrite Hr. unfold bind at 1, ret at 1. rewrite scan_continue by done.
    destruct (IH n (pre ++ [(off, CieItem f)]) s1 acc Hsc1 ltac:(cbn in Hn; lia)) as (s2 & Hr2 & Hsc2 & Hk2).
    exists s2. split; [exact Hr2|]. split; [done|by etransitivity].
  - destruct (next_fde pre off e suf s Hsc) as (s1 & Hr & Hf & Hsc1 & Hcur & Hk).
    unfold bind at 1. rewrite Hr. unfold bind at 1. unfold bind at 1, deref_fde at 1. unfold bind at 1, get at 1. rewrite Hf.
    unfold some_or, ret at 1. unfold bind at 1. rewrite insert_fde_run. set (s2 := put_fdes _ s1) in *. unfold ret at 1.
    rewrite scan_continue by done.
    destruct (IH n (pre ++ [(off, FdeItem e)]) s2 (acc ++ [off]) Hsc1 ltac:(cbn in Hn; lia)) as (s3 & Hr3 & Hsc3 & Hk3).
    exists s3. split; [rewrite Hr3; do 2 f_equal; by rewrite <- app_assoc|]. split; [done|]. by transitivity s2.
Qed.

(** [GetFdes] returns the FDEs of the section in their order, and reads what is left of it. *)
Lemma GetFdes_run s :
  scan_state s ->
  exists s', GetFdes A kind fuel fuel s = Done ((fde_items items).*1, s') /\ scanned items [] s' /\ keeps s s'.
Proof.
  intros (pre & suf & Hsc). pose proof (so_fuel Hok) as Hf. pose proof (so_chained Hok) as Hc.
  pose proof (sc_items _ _ _ Hsc) as E. rewrite E in Hc, Hf. rewrite length_app in Hf.
  unfold GetFdes. unfold bind at 1, get at 1. destruct (sc_constants _ _ _ Hsc) as (-> & _).
  unfold bind at 1. rewrite (cached_fdes_run fuel pre suf s [] pre [] section_start Hsc eq_refl Hc) by lia.
  destruct (scan_fdes_run fuel pre suf s ([] ++ (fde_items pre).*1) Hsc) as (s' & Hr & Hrest); [lia|].
  exists s'. split; [|done]. rewrite Hr, E. unfold fde_items. by rewrite omap_app, fmap_app.
Qed.

(** ** [FdeSearch] for these sections *)

Lemma scanned_same pre suf s b : scanned pre suf s -> same_search s b -> scanned pre suf b.
Proof.
  intros [Hit Hst Hch Hbef Hc Hco Hf Hfo Hfd (Ho & He & Hb & Hp & Hd)] (Hm & Ef & Ec & El & Eo & Ee & Ep & En & Efd).
  split; rewrite ?En, ?Ef, ?Ec, ?El, ?Eo, ?Ee, ?Ep, ?Efd; try done. split_and!; try done.
  destruct Hd as (?&?&?&?), Hm as (?&?&?&?&?). by split_and!; congruence.
Qed.

#[export] Instance scan_search :
  FdeSearch (fun s => s) (fun b _ => b) (GetFdeFromPc A kind fuel fuel) base_memory
    (tables A kind base_memory bias pc_base fdes) fde_at scan_state.
Proof.
  split; [done| |].
  - intros b s (pre & suf & Hsc) Hs. exists pre, suf. by eapply scanned_same.
  - intros pc s Hs. destruct (GetFdeFromPc_scan pc s Hs) as (s' & Hr & Hs' & (K1 & K2 & K3 & K4) & He).
    exists s'. split; [done|]. split; [done|]. split; [unfold same_memory; by rewrite K1|].
    do 3 (split; [done|]). intros off t Hat (e & Hf & ->)%tables_some. by apply He.
Qed.
End Scan.

(** A section that [Init] set up. *)
Definition fresh_section (s : DwarfSection) : Prop :=
  fde_entries_ s = ∅ /\ cie_entries_ s = ∅ /\ sec_cie_loc_regs s = ∅ /\ loc_regs_ s = [] /\ fdes_ s = [] /\
  next_entries_offset_ s = entries_offset_ s.

(** The section of [s] holds [items], with the FDEs [fdes]. *)
Definition plain_ok A kind bm fuel (s : DwarfSection) (fdes : gmap Z frame_entry) (items : list (Z * item)) : Prop :=
  section_ok A kind bm fuel (sec_memory s) (load_bias_ s) (sec_pc_offset s) (entries_offset_ s) (entries_end_ s) fdes items.
Definition plain_tables A kind (s : DwarfSection) (fdes : gmap Z frame_entry) : Z -> option fde_table :=
  tables A kind (sec_memory s) (load_bias_ s) (sec_pc_offset s) fdes.
Definition plain_fde_at A kind (s : DwarfSection) (fdes : gmap Z frame_entry) : Z -> option Z :=
  fde_at A kind (sec_memory s) (load_bias_ s) (sec_pc_offset s) fdes.
Definition plain_inv A kind (s : DwarfSection) (items : list (Z * item)) : DwarfSection -> Prop :=
  scan_state A kind (sec_memory s) (load_bias_ s) (sec_pc_offset s) (entries_offset_ s) (entries_end_ s) items.

Lemma fresh_scanned A kind bm fuel s fdes items :
  plain_ok A kind bm fuel s fdes items -> fresh_section s -> plain_inv A kind s items s.
Proof.
  intros Hok (Hf & Hc & _ & _ & Hd & Hn). exists [], items. split; try done; rewrite ?Hn, ?Hf, ?Hc, ?Hd; try done.
  - apply Hok.
  - by intros off it ?%not_elem_of_nil.
  - by intros off f ?%not_elem_of_nil.
  - intros off. rewrite lookup_empty. by intros [? ?].
  - by intros off e ?%not_elem_of_nil.
  - intros off. rewrite lookup_empty. by intros [? ?].
Qed.

(** * Property *)

(** C3. A section without a header from its bytes: over a memory that holds the encoded CIEs and FDEs,
    one after the other, any sequence of steps of the fresh section returns for each pc the registers
    that the row of the pc gives over the registers and the memory of the frame, and [false] with the
    registers unchanged where no FDE contains the pc; and whatever part of the section these steps have
    read, [GetFdes] then returns all its FDEs in their order. *)
Theorem section_scan_steps A kind bm fuel s fdes items order qs rs
  (Horder : forall m, order m ≡ₚ map_to_list m) (Hok : plain_ok A kind bm fuel s fdes items) (Hfresh : fresh_section s)
  (Hcalls : Forall2 (fun q a => section_call A (sec_memory s) (plain_tables A kind s fdes) (plain_fde_at A kind s fdes) q = Some a) qs rs) :
  exists s' s'',
    step_all A fuel (base := fun s => s) (put_base := fun b _ => b) (get_fde_from_pc := GetFdeFromPc A kind fuel fuel) order qs s
      = Done (rs, s') /\
    GetFdes A kind fuel fuel s' = Done ((fde_items items).*1, s'').
Proof.
  pose proof (frames_tables A kind bm fuel _ _ _ _ _ (so_entries _ _ _ _ _ _ _ _ _ _ _ Hok)) as HT.
  pose proof (scan_search A kind bm fuel _ _ _ _ _ _ _ Hok) as HS.
  destruct (step_all_call A bm (sec_memory s) _ _ fuel order Horder qs rs s) as (s' & Hr & Hs' & _); try done.
  - intros pc. apply frames_described.
  - destruct Hfresh as (Hf & Hc & Hl & Hr & Hd & Hn). split; [by apply (fresh_scanned A kind bm fuel s fdes items)|].
    split; [done|]. split; [rewrite Hr; by exists 0|]. split; [intros e l; by rewrite Hr|intros off l p t; by rewrite Hl].
  - destruct (GetFdes_run A kind bm fuel _ _ _ _ _ _ _ Hok s' Hs') as (s'' & Hg & _). by exists s', s''.
Qed.

(** * Witness *)

(** A [.debug_frame] with a CIE at 0 and the FDEs of two functions, of which the first saves register 6. *)
Definition scan_cie : cie_fields :=
  mkCieFields false x03 None x00 x00 1 (-8) 16 (encode_cfas U64 [DefCfa 7 8; Offset 16 1]).
Definition scan_code : list cfa_instr := [Advance 1; DefCfaOffset 16; Offset 6 2; AdvanceLoc1 3; DefCfaRegister 6].
Definition scan_ff1 : fde_fields := mkFdeFields false [] 0x1000 0x64 0 [] (encode_cfas U64 scan_code).
Definition scan_ff2 : fde_fields := mkFdeFields false [] 0x2000 0x10 0 [] (encode_cfas U64 [Nop]).
Definition scan_c : DwarfCie := cie_of U64 0 (new_DwarfMemory (mkMemory (fun _ _ => []))) 0 scan_cie.
Definition scan_off1 : Z := len (encode_cie U64 DebugFrame scan_cie).
Definition scan_off2 : Z := scan_off1 + len (encode_fde U64 DebugFrame 0 scan_off1 0 scan_c scan_ff1).
Definition scan_bytes : list byte :=
  encode_cie U64 DebugFrame scan_cie ++ encode_fde U64 DebugFrame 0 scan_off1 0 scan_c scan_ff1 ++
  encode_fde U64 DebugFrame 0 scan_off2 0 scan_c scan_ff2.

Definition scan_section : DwarfSection :=
  match Init 0 (len scan_bytes) 0 (new_section (MemoryBuffer.memory (MemoryBuffer.mk scan_bytes))) with
  | Done (_, s) => s
  | Fault _ => demo_section
  end.

Definition scan_row : row := {[CFA_REG := mkLoc DWARF_LOCATION_REGISTER 7 8; 16 := mkLoc DWARF_LOCATION_OFFSET (2 ^ 64 - 8) 0]}.
Definition scan_entry (f : fde_fields) (code : list cfa_instr) : frame_entry :=
  mkEntry 0 scan_cie f [DefCfa 7 8; Offset 16 1] code scan_row
    (default [] (rows U64 scan_c (Some scan_row) 0 (mkC (ff_start f) scan_row []) code)).
Definition scan_e1 : frame_entry := scan_entry scan_ff1 scan_code.
Definition scan_e2 : frame_entry := scan_entry scan_ff2 [Nop].
Definition scan_fdes_map : gmap Z frame_entry := {[scan_off1 := scan_e1; scan_off2 := scan_e2]}.
Definition scan_items : list (Z * item) := [(0, CieItem scan_cie); (scan_off1, FdeItem scan_e1); (scan_off2, FdeItem scan_e2)].

Lemma scan_cie_ok : holds_cie U64 (buffer_bytes scan_bytes) DebugFrame 0 (sec_memory scan_section) 9 0 scan_cie.
Proof.
  split.
  - split.
    + vm_compute. repeat split; discriminate || reflexivity.
    + vm_compute. right. left.
    + by repeat constructor.
    + unfold in_u. vm_compute. repeat split; discriminate || reflexivity.
    + unfold in_s. vm_compute. repeat split; discriminate || reflexivity.
    + unfold in_u. vm_compute. repeat split; discriminate || reflexivity.
  - apply (MemoryBuffer_bytes (MemoryBuffer.mk scan_bytes)). vm_compute. discriminate.
  - done.
  - vm_compute. reflexivity.
  - vm_compute. reflexivity.
  - vm_compute. lia.
Qed.

(** What an FDE of the example must satisfy, by evaluation. *)
Ltac scan_entry_ok :=
  split;
  [ split; [exact scan_cie_ok| |vm_compute; discriminate|vm_compute; reflexivity..];
    split; try (vm_compute; repeat split; discriminate || reflexivity); left; vm_compute; reflexivity
  | reflexivity | reflexivity
  | split; [|split; [discriminate|simpl; lia]];
    repeat (apply Forall_cons; split); [..|apply Forall_nil]; vm_compute; repeat split; discriminate || reflexivity
  | split; [|split; [discriminate|simpl; lia]];
    repeat (apply Forall_cons; split); [..|apply Forall_nil]; vm_compute; repeat split; discriminate || reflexivity
  | cbn; rewrite !not_elem_of_cons; split_and!; [done|done|apply not_elem_of_nil]
  | vm_compute; repeat split; discriminate || reflexivity
  | vm_compute; reflexivity | vm_compute; reflexivity | vm_compute; reflexivity | vm_compute; repeat split
  | vm_compute; repeat constructor; discriminate ].

Lemma scan_entry_1 : entry_ok U64 DebugFrame (buffer_bytes scan_bytes) 9 (sec_memory scan_section) 0 0 0 scan_off1 scan_e1.
Proof. scan_entry_ok. Qed.
Lemma scan_entry_2 : entry_ok U64 DebugFrame (buffer_bytes scan_bytes) 9 (sec_memory scan_section) 0 0 0 scan_off2 scan_e2.
Proof. scan_entry_ok. Qed.

Lemma scan_fdes_map_elem off e :
  scan_fdes_map !! off = Some e <-> off = scan_off1 /\ e = scan_e1 \/ off = scan_off2 /\ e = scan_e2.
Proof.
  assert (scan_off1 <> scan_off2) as Hne by (vm_compute; discriminate).
  unfold scan_fdes_map. rewrite lookup_insert_Some, lookup_singleton_Some. split.
  - intros [[<- <-]|(_ & <- & <-)]; auto.
  - intros [[-> ->]|[-> ->]]; auto.
Qed.

Lemma scan_items_elem off e : (off, FdeItem e) ∈ scan_items <-> off = scan_off1 /\ e = scan_e1 \/ off = scan_off2 /\ e = scan_e2.
Proof.
  unfold scan_items. rewrite !elem_of_cons. split.
  - intros [[=]|[[= -> ->]|[[= -> ->]|[]%not_elem_of_nil]]]; auto.
  - intros [[-> ->]|[-> ->]]; auto.
Qed.

Lemma scan_plain_ok : plain_ok U64 DebugFrame (buffer_bytes scan_bytes) 9 scan_section scan_fdes_map scan_items.
Proof.
  split.
  - split.
    + intros off e [[-> ->]|[-> ->]]%scan_fdes_map_elem; [exact scan_entry_1|exact scan_entry_2].
    + intros off off' e e' [[-> ->]|[-> ->]]%scan_fdes_map_elem [[-> ->]|[-> ->]]%scan_fdes_map_elem Hne; try done;
        vm_compute; [left|right]; discriminate.
    + by intros off off' e e' [[-> ->]|[-> ->]]%scan_fdes_map_elem [[-> ->]|[-> ->]]%scan_fdes_map_elem _.
  - intros off f [[= -> ->]|[[=]|[[=]|[]%not_elem_of_nil]%elem_of_cons]%elem_of_cons]%elem_of_cons. exact scan_cie_ok.
  - vm_compute. by repeat split.
  - intros pre off e suf E. destruct pre as [|x pre]; [discriminate E|]. injection E as <- E. assert (en_cie e = scan_cie /\ en_cie_offset e = 0) as [-> ->].
    { assert ((off, FdeItem e) ∈ scan_items) as [[_ ->]|[_ ->]]%scan_items_elem; [|by split..].
      unfold scan_items. rewrite E. right. apply elem_of_app. right. by left. }
    by left.
  - intros off e. by rewrite scan_fdes_map_elem, scan_items_elem.
  - split; [by vm_compute|]. split; [constructor; [left; vm_compute; discriminate|constructor]|].
    split; [by vm_compute|]. split; constructor.
  - vm_compute. by split; [discriminate|].
  - vm_compute. lia.
Qed.

(** A stack with the registers of the callers. *)
Definition scan_stack : Memory := MemoryBuffer.memory (MemoryBuffer.mk (le_bytes 64 (2 ^ 64 * 0x77 + 2 ^ 128 * 0x5678))).
Definition scan_regs : Regs := put_reg 7 8 (put_reg 6 5 (new_regs 17 16 7)).
Definition scan_caller : Regs :=
  match step_all U64 9 (base := fun s => s) (put_base := fun b _ => b) (get_fde_from_pc := GetFdeFromPc U64 DebugFrame 9 9)
    map_to_list [(0x1002, scan_regs, scan_stack)] scan_section with
  | Done ([(_, r, _)], _) => r
  | _ => scan_regs
  end.

Lemma section_scan_steps_witness :
  exists s' s'',
    step_all U64 9 (base := fun s => s) (put_base := fun b _ => b) (get_fde_from_pc := GetFdeFromPc U64 DebugFrame 9 9)
      map_to_list [(0x1002, scan_regs, scan_stack); (0x1002, scan_regs, scan_stack)] scan_section
      = Done ([(true, scan_caller, false); (true, scan_caller, false)], s') /\
    GetFdes U64 DebugFrame 9 9 s' = Done ([scan_off1; scan_off2], s'').
Proof.
  apply (section_scan_steps U64 DebugFrame (buffer_bytes scan_bytes) 9 scan_section scan_fdes_map scan_items map_to_list
    [(0x1002, scan_regs, scan_stack); (0x1002, scan_regs, scan_stack)]).
  - done.
  - exact scan_plain_ok.
  - vm_compute. by repeat split.
  - assert (section_call U64 (sec_memory scan_section) (plain_tables U64 DebugFrame scan_section scan_fdes_map)
      (plain_fde_at U64 DebugFrame scan_section scan_fdes_map) (0x1002, scan_regs, scan_stack) = Some (true, scan_caller, false)) as E
      by (vm_compute; reflexivity).
    repeat constructor; exact E.
Defined.
