(* ===== verification/DwarfEhFrameWithHdr.v ===== *)
(** [DwarfEhFrameWithHdr.cpp], [DwarfEhFrameWithHdr.h]: an [.eh_frame] section that is found through
    the binary search table of an [.eh_frame_hdr] section.

    The record [DwarfEhFrameWithHdr] adds the members of the class to those of its base class. *)
From Stdlib Require Import ZArith Lia Bool Strings.Byte.
From stdpp Require Import base numbers list gmap.
From S2P Require Import Prelude StdMap Memory DwarfMemory DwarfEncode DwarfStructs DwarfSection.
#[local] Open Scope Z_scope.

(** * The section object *)

Record FdeInfo := mkFdeInfo { info_pc : Z; info_offset : Z }.

Record DwarfEhFrameWithHdr := mkHdr {
  hdr_base : DwarfSection;
  version_ : Z;
  ptr_encoding_ : Z;
  table_encoding_ : Z;
  table_entry_size_ : Z;
  ptr_offset_ : Z;
  entries_data_offset_ : Z;
  cur_entries_offset_ : Z;
  fde_count_ : Z;
  fde_info_ : gmap Z FdeInfo
}.

(** Only [cur_entries_offset_] has an initializer: the other members hold arbitrary values until
    [Init] sets them. *)
Definition new_hdr (m : Memory) (version ptr_encoding table_encoding table_entry_size ptr_offset
    entries_data_offset fde_count : Z) : DwarfEhFrameWithHdr :=
  mkHdr (new_section m) version ptr_encoding table_encoding table_entry_size ptr_offset
    entries_data_offset 0 fde_count ∅.

Definition put_hdr_base (s : DwarfSection) (h : DwarfEhFrameWithHdr) : DwarfEhFrameWithHdr :=
  mkHdr s (version_ h) (ptr_encoding_ h) (table_encoding_ h) (table_entry_size_ h) (ptr_offset_ h)
    (entries_data_offset_ h) (cur_entries_offset_ h) (fde_count_ h) (fde_info_ h).
Definition put_hdr_version (v : Z) (h : DwarfEhFrameWithHdr) : DwarfEhFrameWithHdr :=
  mkHdr (hdr_base h) v (ptr_encoding_ h) (table_encoding_ h) (table_entry_size_ h) (ptr_offset_ h)
    (entries_data_offset_ h) (cur_entries_offset_ h) (fde_count_ h) (fde_info_ h).
Definition put_hdr_encodings (ptr table size : Z) (h : DwarfEhFrameWithHdr) : DwarfEhFrameWithHdr :=
  mkHdr (hdr_base h) (version_ h) ptr table size (ptr_offset_ h)
    (entries_data_offset_ h) (cur_entries_offset_ h) (fde_count_ h) (fde_info_ h).
Definition put_ptr_offset (v : Z) (h : DwarfEhFrameWithHdr) : DwarfEhFrameWithHdr :=
  mkHdr (hdr_base h) (version_ h) (ptr_encoding_ h) (table_encoding_ h) (table_entry_size_ h) v
    (entries_data_offset_ h) (cur_entries_offset_ h) (fde_count_ h) (fde_info_ h).
Definition put_fde_count (v : Z) (h : DwarfEhFrameWithHdr) : DwarfEhFrameWithHdr :=
  mkHdr (hdr_base h) (version_ h) (ptr_encoding_ h) (table_encoding_ h) (table_entry_size_ h) (ptr_offset_ h)
    (entries_data_offset_ h) (cur_entries_offset_ h) v (fde_info_ h).
Definition put_hdr_entries (data cur : Z) (h : DwarfEhFrameWithHdr) : DwarfEhFrameWithHdr :=
  mkHdr (hdr_base h) (version_ h) (ptr_encoding_ h) (table_encoding_ h) (table_entry_size_ h) (ptr_offset_ h)
    data cur (fde_count_ h) (fde_info_ h).
Definition put_fde_info (i : gmap Z FdeInfo) (h : DwarfEhFrameWithHdr) : DwarfEhFrameWithHdr :=
  mkHdr (hdr_base h) (version_ h) (ptr_encoding_ h) (table_encoding_ h) (table_entry_size_ h) (ptr_offset_ h)
    (entries_data_offset_ h) (cur_entries_offset_ h) (fde_count_ h) i.

Abbreviation HDR := (M DwarfEhFrameWithHdr).

Definition on_hdr_base {B} (m : SEC B) : HDR B := zoom hdr_base put_hdr_base m.
Definition on_hdr_memory {B} (m : DM B) : HDR B := on_hdr_base (on_sec_memory m).

(** * Operations *)

Definition IsEncodingRelative (encoding : Z) : bool :=
  let encoding := Z.shiftr encoding 4 in (0 <? encoding) && (encoding <=? DW_EH_PE_funcrel).

Section Hdr.
Variable (A : addr_type).

(** The offsets that [Init] sets before it reads. *)
Definition init_offsets (offset load_bias : Z) (s : DwarfSection) : DwarfSection :=
  put_sec_memory (put_cur offset (put_data offset (put_text UINT64_MAX (put_func UINT64_MAX (sec_memory s)))))
    (put_entries load_bias (entries_offset_ s) (entries_end_ s) offset s).

(** [false] is [None]: the object is then of no use, and the member that was being read keeps its
    value here. *)
Definition Init (offset size load_bias : Z) : HDR (option unit) :=
  on_hdr_base (modify (init_offsets offset load_bias)) ;;
  data <-? on_hdr_base (sec_read (ReadBytes 4)) ;;
  let data := map byte_val data in
  let version := nth 0 data 0 in
  modify (put_hdr_version version) ;;
  if negb (version =? 1) then on_hdr_base (sec_code DWARF_ERROR_UNSUPPORTED_VERSION)
  else
    let ptr_encoding := nth 1 data 0 in
    let fde_count_encoding := nth 2 data 0 in
    let table_encoding := nth 3 data 0 in
    let entry_size := GetEncodedSize A table_encoding in
    modify (put_hdr_encodings ptr_encoding table_encoding entry_size) ;;
    if entry_size =? 0 then on_hdr_base (sec_code DWARF_ERROR_ILLEGAL_VALUE)
    else
      cur <- on_hdr_memory cur_offset ;;
      on_hdr_memory (set_pc_offset cur) ;;
      ptr <-? on_hdr_base (sec_read (ReadEncodedValue A ptr_encoding)) ;;
      modify (put_ptr_offset ptr) ;;
      cur <- on_hdr_memory cur_offset ;;
      on_hdr_memory (set_pc_offset cur) ;;
      count <-? on_hdr_base (sec_read (ReadEncodedValue A fde_count_encoding)) ;;
      modify (put_fde_count count) ;;
      if count =? 0 then on_hdr_base (sec_code DWARF_ERROR_NO_FDES)
      else
        cur <- on_hdr_memory cur_offset ;;
        on_hdr_base (modify (fun s => put_entries (load_bias_ s) cur (u64 (offset + size)) (sec_pc_offset s) s)) ;;
        modify (put_hdr_entries offset cur) ;;
        ret (Some tt).

(** The entry of the table at [index], read on its first use and cached. An entry whose values
    cannot be read is removed from the cache again. *)
Definition GetFdeInfoFromIndex (index : Z) : HDR (option FdeInfo) :=
  h <- get ;;
  match fde_info_ h !! index with
  | Some info => ret (Some info)
  | None =>
      on_hdr_memory (set_data_offset (entries_data_offset_ h)) ;;
      on_hdr_memory (set_cur_offset
        (u64 (entries_offset_ (hdr_base h) + u64 (2 * index * table_entry_size_ h)))) ;;
      on_hdr_memory (set_pc_offset 0) ;;
      value <-? on_hdr_base (sec_read (ReadEncodedValue A (table_encoding_ h))) ;;
      offset <-? on_hdr_base (sec_read (ReadEncodedValue A (table_encoding_ h))) ;;
      let value := if IsEncodingRelative (table_encoding_ h)
                   then u64 (value + load_bias_ (hdr_base h)) else value in
      let info := mkFdeInfo (addr A value) offset in
      modify (fun h => put_fde_info (<[index := info]> (fde_info_ h)) h) ;;
      ret (Some info)
  end.

(** The binary search: [inl] is the offset of an entry with exactly this address, [inr] the final
    value of [last]; [None] is [return false]. *)
Fixpoint search_loop (fuel : nat) (pc first last : Z) : HDR (option (Z + Z)) :=
  match fuel with
  | O => fail OutOfFuel
  | S fuel' =>
      if first <? last then
        let current := u64 (first + last) / 2 in
        info <-? GetFdeInfoFromIndex current ;;
        if pc =? info_pc info then ret (Some (inl (info_offset info)))
        else if pc <? info_pc info then search_loop fuel' pc first current
        else search_loop fuel' pc (u64 (current + 1)) last
      else ret (Some (inr last))
  end.

(** The interval halves in every iteration. *)
Definition search_fuel : nat := 66.

Definition GetFdeOffsetFromPc (pc : Z) : HDR (option Z) :=
  h <- get ;;
  if fde_count_ h =? 0 then ret None
  else
    r <-? search_loop search_fuel pc 0 (fde_count_ h) ;;
    match r with
    | inl offset => ret (Some offset)
    | inr last =>
        if negb (last =? 0) then
          info <-? GetFdeInfoFromIndex (last - 1) ;;
          ret (Some (info_offset info))
        else ret None
    end.

Definition GetFdeFromPc (fuel : nat) (pc : Z) : HDR (option Z) :=
  fde_offset <-? GetFdeOffsetFromPc pc ;;
  p <-? on_hdr_base (GetFdeFromOffset A EhFrame fuel fde_offset) ;;
  fde <- on_hdr_base (deref_fde p) ;;
  if pc <? pc_end fde then ret (Some p)
  else on_hdr_base (sec_code DWARF_ERROR_ILLEGAL_STATE).

(** The loop of [GetFdes] over the [n] entries from [i] on. *)
Fixpoint get_fdes_loop (fuel n : nat) (i : Z) (fdes : list Z) : HDR (list Z) :=
  match n with
  | O => ret fdes
  | S n' =>
      info <- GetFdeInfoFromIndex i ;;
      match info with
      | None => ret fdes
      | Some info =>
          p <- on_hdr_base (GetFdeFromOffset A EhFrame fuel (info_offset info)) ;;
          match p with
          | None => ret fdes
          | Some p => get_fdes_loop fuel n' (i + 1) (fdes ++ [p])
          end
      end
  end.

Definition GetFdes (fuel : nat) : HDR (list Z) :=
  h <- get ;; get_fdes_loop fuel (Z.to_nat (fde_count_ h)) 0 [].
End Hdr.
