(* ===== verification/DwarfEhFrameSearch.v ===== *)
(** The binary search table of [.eh_frame_hdr] ([DwarfEhFrameWithHdr.cpp]): [Init] accepts an encoded
    header, the entries are read where the table has them, and the search finds the entry with the
    greatest address not above the one that is looked for. *)
From Stdlib Require Import ZArith Lia Bool Strings.Byte.
From stdpp Require Import base numbers list gmap.
From S2P Require Import Prelude StdMap Memory DwarfMemory DwarfEncode DwarfStructs DwarfSection DwarfEhFrameWithHdr.
#[local] Open Scope Z_scope.

(** * The table in memory *)

Section Table.
Context (A : addr_type) (bm : Z -> option byte).
Implicit Types (h : DwarfEhFrameWithHdr) (entries : list (Z * Z)).

(** An entry is an address and the offset of an FDE, both in the encoding of the table. *)
Definition encode_entry (e : Z) (x : Z * Z) : list byte :=
  encode_operand A (Z.land e 0x0f) (fst x) ++ encode_operand A (Z.land e 0x0f) (snd x).
Definition encode_table (e : Z) entries : list byte := entries ≫= encode_entry e.

(** The base of the values of the table. *)
Definition table_base h : Z :=
  if Z.land (table_encoding_ h) 0x70 =? DW_EH_PE_datarel then entries_data_offset_ h else 0.

(** What an entry means. *)
Definition entry_info h (x : Z * Z) : FdeInfo :=
  let pc := u64 (fst x + table_base h) in
  mkFdeInfo (addr A (if IsEncodingRelative (table_encoding_ h) then u64 (pc + load_bias_ (hdr_base h)) else pc))
    (u64 (snd x + table_base h)).

(** The bases an entry of the table can have: absolute, relative to the entry (of which the code
    makes an absolute value) and to the start of the header. *)
Definition table_base_ok (e : Z) : bool :=
  let b := Z.land e 0x70 in (b =? DW_EH_PE_absptr) || (b =? DW_EH_PE_pcrel) || (b =? DW_EH_PE_datarel).

(** The memory holds the table, and the cache agrees with it. *)
Record table_ok h entries : Prop := {
  tk_memory : ByteMemory (memory_ (sec_memory (hdr_base h))) bm;
  tk_start : in_u 64 (entries_offset_ (hdr_base h));
  tk_bytes : holds bm (entries_offset_ (hdr_base h)) (encode_table (table_encoding_ h) entries);
  tk_values : Forall (fun x => operand_ok A (Z.land (table_encoding_ h) 0x0f) (fst x) /\
                               operand_ok A (Z.land (table_encoding_ h) 0x0f) (snd x)) entries;
  tk_size : table_entry_size_ h = GetEncodedSize A (table_encoding_ h);
  tk_fixed : GetEncodedSize A (table_encoding_ h) <> 0;
  tk_enc : table_base_ok (table_encoding_ h) = true;
  tk_base : table_base h <> UINT64_MAX;
  tk_count : fde_count_ h = Z.of_nat (length entries);
  tk_cache : forall i info, fde_info_ h !! i = Some info ->
    exists n, i = Z.of_nat n /\ entry_info h <$> entries !! n = Some info
}.

(** What the operations on the table change: the cursor, two of its bases, and the cache. *)
Definition moved h h' : Prop :=
  exists d c, h' = put_fde_info c (put_hdr_base (put_sec_memory d (hdr_base h)) h) /\
              memory_ d = memory_ (sec_memory (hdr_base h)) /\
              func_offset_ d = func_offset_ (sec_memory (hdr_base h)) /\
              text_offset_ d = text_offset_ (sec_memory (hdr_base h)) /\
              (data_offset_ d = data_offset_ (sec_memory (hdr_base h)) \/ data_offset_ d = entries_data_offset_ h).

Lemma hdr_moved_refl h : moved h h.
Proof. exists (sec_memory (hdr_base h)), (fde_info_ h). split; [by destruct h as [[]]|]. do 3 (split; [done|]). by left. Qed.

Lemma hdr_moved_trans h1 h2 h3 : moved h1 h2 -> moved h2 h3 -> moved h1 h3.
Proof.
  intros (d & c & -> & Hm & Hf & Ht & Hd) (d' & c' & -> & Hm' & Hf' & Ht' & Hd'). exists d', c'. split; [done|].
  cbn in *. split; [congruence|]. split; [congruence|]. split; [congruence|]. destruct Hd' as [-> | ->]; [done|by right].
Qed.

Lemma moved_entry_info h h' x : moved h h' -> entry_info h' x = entry_info h x.
Proof. by intros (d & c & -> & _). Qed.

Lemma len_encode_table e entries :
  GetEncodedSize A e <> 0 -> len (encode_table e entries) = 2 * Z.of_nat (length entries) * GetEncodedSize A e.
Proof.
  intros He. induction entries as [|x entries IH]; [done|].
  change (encode_table e (x :: entries)) with (encode_entry e x ++ encode_table e entries).
  rewrite len_app, IH. unfold encode_entry. rewrite len_app, !encode_operand_size by done. simpl length. lia.
Qed.

(** The bytes of an entry are where the code looks for them. *)
Lemma table_entry_bytes h entries n x d :
  table_ok h entries -> entries !! n = Some x -> memory_ d = memory_ (sec_memory (hdr_base h)) ->
  at_bytes bm (put_cur (u64 (entries_offset_ (hdr_base h) + u64 (2 * Z.of_nat n * table_entry_size_ h))) d)
    (encode_entry (table_encoding_ h) x).
Proof.
  intros Hok Hx Hd. set (e := table_encoding_ h). set (o := entries_offset_ (hdr_base h)).
  assert (at_bytes bm (put_cur o d) (encode_table e entries)) as Ha.
  { split; [simpl; rewrite Hd; apply Hok|]. split; apply Hok. }
  rewrite <- (take_drop_middle entries n x Hx) in Ha. unfold encode_table in Ha.
  rewrite bind_app, bind_cons in Ha.
  apply (at_bytes_split bm) in Ha as [_ Ha]. apply (at_bytes_split bm) in Ha as [Ha _].
  fold (encode_table e (take n entries)) in Ha.
  rewrite len_encode_table, length_take_le in Ha by (apply Hok || (apply lookup_lt_Some in Hx; lia)).
  unfold skip in Ha. rewrite put_cur_cur in Ha. cbn [cur_offset_ put_cur] in Ha.
  rewrite wrap_add_r, (tk_size _ _ Hok) by lia. exact Ha.
Qed.

Lemma on_base_read_run {B} (m : DM (option B)) h b d :
  m (sec_memory (hdr_base h)) = Done (Some b, d) ->
  on_hdr_base (sec_read m) h = Done (Some b, put_hdr_base (put_sec_memory d (hdr_base h)) h).
Proof. intros Hm. unfold on_hdr_base, zoom. by rewrite (sec_read_run _ _ _ _ Hm). Qed.

(** An encoding that [GetEncodedSize] knows and that has one of the bases above. *)
Lemma table_encoding_cases e :
  GetEncodedSize A e <> 0 -> table_base_ok e = true -> e <> DW_EH_PE_omit /\ e <> DW_EH_PE_aligned.
Proof. intros H1 H2. split; intros ->; done. Qed.

Lemma table_base_of h d :
  table_base_ok (table_encoding_ h) = true -> pc_offset_ d = 0 -> data_offset_ d = entries_data_offset_ h ->
  base_of (table_encoding_ h) d = table_base h.
Proof.
  unfold table_base_ok, base_of, table_base. cbv zeta. generalize (Z.land (table_encoding_ h) 0x70).
  intros b Hb -> ->.
  apply orb_true_iff in Hb as [[Hb|Hb]%orb_true_iff|Hb]; apply Z.eqb_eq in Hb; by rewrite Hb.
Qed.

(** ** [GetFdeInfoFromIndex] *)

Lemma GetFdeInfoFromIndex_run h entries n x :
  table_ok h entries -> entries !! n = Some x ->
  exists h', GetFdeInfoFromIndex A (Z.of_nat n) h = Done (Some (entry_info h x), h') /\
             moved h h' /\ table_ok h' entries.
Proof.
  intros Hok Hx. unfold GetFdeInfoFromIndex. unfold bind at 1, get.
  destruct (fde_info_ h !! Z.of_nat n) as [info|] eqn:Hc.
  { destruct (tk_cache _ _ Hok _ _ Hc) as (n' & Hn & He). assert (n' = n) as -> by lia.
    rewrite Hx in He. injection He as <-. exists h. split; [done|]. split; [apply hdr_moved_refl|done]. }
  destruct (table_encoding_cases (table_encoding_ h)) as [He1 He2]; [apply Hok..|].
  set (s := hdr_base h). set (e := table_encoding_ h).
  set (d0 := put_pc 0 (put_cur (u64 (entries_offset_ s + u64 (2 * Z.of_nat n * table_entry_size_ h)))
               (put_data (entries_data_offset_ h) (sec_memory s)))).
  assert (at_bytes bm d0 (encode_entry e x)) as Ha.
  { exact (table_entry_bytes h entries n x (put_pc 0 (put_data (entries_data_offset_ h) (sec_memory s))) Hok Hx eq_refl). }
  apply (at_bytes_split bm) in Ha as [Ha1 Ha2].
  destruct (proj1 (Forall_lookup _ _) (tk_values _ _ Hok) n x Hx) as [Hv1 Hv2].
  assert (forall k, base_of e (skip k d0) = table_base h) as Hb by (intros k; by apply table_base_of; [apply Hok|..]).
  assert (base_of e d0 = table_base h) as Hb0 by (by apply table_base_of; [apply Hok|..]).
  pose proof (ReadEncodedValue_based A bm e (fst x) d0 He1 He2 ltac:(rewrite Hb0; apply Hok) Hv1 Ha1) as Hr1.
  pose proof (ReadEncodedValue_based A bm e (snd x) _ He1 He2 ltac:(rewrite Hb; apply Hok) Hv2 Ha2) as Hr2.
  rewrite Hb0 in Hr1. rewrite Hb in Hr2. rewrite skip_skip in Hr2.
  set (h0 := put_hdr_base (put_sec_memory d0 s) h).
  change (exists h', obind (on_hdr_base (sec_read (ReadEncodedValue A e))) (fun value =>
    obind (on_hdr_base (sec_read (ReadEncodedValue A e))) (fun offset =>
      let value := if IsEncodingRelative e then u64 (value + load_bias_ s) else value in
      let info := mkFdeInfo (addr A value) offset in
      bind (modify (fun h => put_fde_info (<[Z.of_nat n := info]> (fde_info_ h)) h)) (fun _ => ret (Some info)))) h0
    = Done (Some (entry_info h x), h') /\ moved h h' /\ table_ok h' entries).
  erewrite (obind_run _ _ h0); [|apply (on_base_read_run _ h0), Hr1].
  erewrite obind_run; [|apply on_base_read_run, Hr2].
  cbv zeta. unfold bind, modify, ret. fold e.
  eexists. split; [reflexivity|]. split.
  { eexists _, _. split; [reflexivity|]. do 3 (split; [done|]). by right. }
  split; try (apply Hok); try done.
  intros i info Hi. cbn [fde_info_ put_fde_info] in Hi. apply lookup_insert_Some in Hi as [[<- <-]|[_ Hi]].
  - exists n. split; [done|]. rewrite Hx. done.
  - exact (tk_cache _ _ Hok i info Hi).
Qed.

(** ** The search *)

Lemma holds_length a bs m : ByteMemory m bm -> in_u 64 a -> holds bm a bs -> len bs <= 2 ^ 64.
Proof.
  intros Hm Ha Hh. destruct bs as [|b bs _] using rev_ind; [unfold len; simpl; lia|].
  apply holds_app in Hh as [_ Hb]. apply holds_cons in Hb as [Hb _]. apply (bm_range (ByteMemory := Hm)) in Hb.
  rewrite len_app, len_cons. unfold in_u in *. change (len []) with 0. lia.
Qed.

(** The table fits in the address space: the sum of two indices does not overflow. *)
Lemma table_length h entries : table_ok h entries -> 2 * Z.of_nat (length entries) <= 2 ^ 64.
Proof.
  intros Hok. pose proof (holds_length _ _ _ (tk_memory _ _ Hok) (tk_start _ _ Hok) (tk_bytes _ _ Hok)) as Hl.
  rewrite len_encode_table in Hl by apply Hok. pose proof (tk_fixed _ _ Hok) as Hsz.
  assert (1 <= GetEncodedSize A (table_encoding_ h)) by (unfold GetEncodedSize in *; repeat case_match; destruct A; simpl; lia).
  nia.
Qed.

(** The addresses of the table. *)
Definition pc_at h entries (n : nat) : option Z := (fun x => info_pc (entry_info h x)) <$> entries !! n.

Definition table_sorted h entries : Prop :=
  forall i j a b, (i <= j)%nat -> pc_at h entries i = Some a -> pc_at h entries j = Some b -> a <= b.

Lemma pc_at_moved h h' entries n : moved h h' -> pc_at h' entries n = pc_at h entries n.
Proof. intros Hm. unfold pc_at. apply option_fmap_ext. intros x. by rewrite (moved_entry_info h h'). Qed.

(** Where the loop ends: at an entry with exactly this address, or between the entries below it and
    those above. *)
Definition search_post h entries pc (r : Z + Z) : Prop :=
  match r with
  | inl offset => exists n x, entries !! n = Some x /\ offset = info_offset (entry_info h x) /\ pc_at h entries n = Some pc
  | inr last => exists l, last = Z.of_nat l /\ (l <= length entries)%nat /\
      (forall j a, (j < l)%nat -> pc_at h entries j = Some a -> a < pc) /\
      (forall j a, (l <= j)%nat -> pc_at h entries j = Some a -> pc < a)
  end.

Lemma search_post_moved h h' entries pc r :
  moved h h' -> search_post h' entries pc r -> search_post h entries pc r.
Proof.
  intros Hm. destruct r as [offset|last]; cbn [search_post].
  - intros (n & x & Hx & Ho & Hp). exists n, x. rewrite (pc_at_moved h h') in Hp by done.
    by rewrite (moved_entry_info h h') in Ho.
  - intros (l & -> & Hl & Hlo & Hhi). exists l. split; [done|]. split; [done|].
    split; intros j a Hj Ha; [eapply Hlo|eapply Hhi]; try done; by rewrite (pc_at_moved h h').
Qed.

Lemma search_loop_run fuel h entries pc first last :
  table_ok h entries -> table_sorted h entries -> (first <= last <= length entries)%nat ->
  Z.of_nat last - Z.of_nat first < 2 ^ Z.of_nat fuel ->
  (forall j a, (j < first)%nat -> pc_at h entries j = Some a -> a < pc) ->
  (forall j a, (last <= j)%nat -> pc_at h entries j = Some a -> pc < a) ->
  exists r h', search_loop A (S fuel) pc (Z.of_nat first) (Z.of_nat last) h = Done (Some r, h') /\
    moved h h' /\ table_ok h' entries /\ search_post h entries pc r.
Proof.
  revert h first last. induction fuel as [|fuel IH]; intros h first last Hok Hs Hlen Hf Hlo Hhi;
    cbn [search_loop].
  { change (2 ^ Z.of_nat 0) with 1 in Hf. rewrite (proj2 (Z.ltb_ge _ _)) by lia.
    eexists _, h. split; [reflexivity|]. split; [apply hdr_moved_refl|]. split; [done|].
    exists last. split; [done|]. split; [lia|]. split; [|done]. intros j a ?. apply Hlo. lia. }
  destruct (Z.ltb_spec (Z.of_nat first) (Z.of_nat last)) as [Hlt|Hge].
  2:{ eexists _, h. split; [reflexivity|]. split; [apply hdr_moved_refl|]. split; [done|].
      exists last. split; [done|]. split; [lia|]. split; [|done]. intros j a ?. apply Hlo. lia. }
  pose proof (table_length _ _ Hok) as Hmax. rewrite (wrap_small 64) by (unfold in_u; lia).
  set (c := ((first + last) / 2)%nat).
  assert ((Z.of_nat first + Z.of_nat last) / 2 = Z.of_nat c) as -> by (unfold c; rewrite Nat2Z.inj_div; f_equal; lia).
  assert (first <= c < last)%nat as Hc by (unfold c; split; [apply Nat.div_le_lower_bound; lia|apply Nat.Div0.div_lt_upper_bound; lia]).
  assert (2 * c <= first + last < 2 * c + 2)%nat as Hc2.
  { unfold c. pose proof (Nat.div_mod_eq (first + last) 2). pose proof (Nat.mod_upper_bound (first + last) 2). lia. }
  destruct (lookup_lt_is_Some_2 entries c) as [x Hx]; [lia|].
  destruct (GetFdeInfoFromIndex_run h entries c x Hok Hx) as (h1 & Hrun & Hm1 & Hok1).
  rewrite (obind_run _ _ _ _ _ Hrun).
  assert (pc_at h entries c = Some (info_pc (entry_info h x))) as Hpc by (unfold pc_at; by rewrite Hx).
  assert (table_sorted h1 entries) as Hs1.
  { intros i j a b. rewrite !(pc_at_moved h h1) by done. apply Hs. }
  rewrite Nat2Z.inj_succ, Z.pow_succ_r in Hf by lia.
  destruct (Z.eqb_spec pc (info_pc (entry_info h x))) as [Heq|Hne].
  { eexists _, h1. split; [reflexivity|]. split; [done|]. split; [done|]. exists c, x. by rewrite Heq. }
  destruct (Z.ltb_spec pc (info_pc (entry_info h x))) as [Hb|Hb].
  - destruct (IH h1 first c Hok1 Hs1) as (r & h2 & Hr & Hm2 & Hok2 & Hp); [lia|lia| | |].
    + intros j a Hj. rewrite (pc_at_moved h h1) by done. by apply Hlo.
    + intros j a Hj. rewrite (pc_at_moved h h1) by done. intros Ha. pose proof (Hs _ _ _ _ Hj Hpc Ha). lia.
    + exists r, h2. split; [exact Hr|]. split; [by eapply hdr_moved_trans|]. split; [done|].
      by apply (search_post_moved h h1).
  - rewrite (wrap_small 64) by (unfold in_u; lia). replace (Z.of_nat c + 1) with (Z.of_nat (S c)) by lia.
    destruct (IH h1 (S c) last Hok1 Hs1) as (r & h2 & Hr & Hm2 & Hok2 & Hp); [lia|lia| | |].
    + intros j a Hj. rewrite (pc_at_moved h h1) by done. intros Ha.
      pose proof (Hs _ _ _ _ (proj1 (Nat.lt_succ_r j c) Hj) Ha Hpc). lia.
    + intros j a Hj. rewrite (pc_at_moved h h1) by done. by apply Hhi.
    + exists r, h2. split; [exact Hr|]. split; [by eapply hdr_moved_trans|]. split; [done|].
      by apply (search_post_moved h h1).
Qed.

(** The entry whose address is the greatest that is not above [pc]. *)
Definition best_entry h entries pc (x : Z * Z) : Prop :=
  x ∈ entries /\ info_pc (entry_info h x) <= pc /\
  forall y, y ∈ entries -> info_pc (entry_info h y) <= pc -> info_pc (entry_info h y) <= info_pc (entry_info h x).

Lemma pc_at_in h entries y :
  y ∈ entries -> exists n, entries !! n = Some y /\ pc_at h entries n = Some (info_pc (entry_info h y)).
Proof. intros [n Hn]%list_elem_of_lookup. exists n. unfold pc_at. by rewrite Hn. Qed.

Lemma best_exact h entries n x pc :
  entries !! n = Some x -> pc_at h entries n = Some pc -> best_entry h entries pc x.
Proof.
  unfold pc_at. intros Hx. rewrite Hx. intros [= <-]. split; [by eapply list_elem_of_lookup_2|]. done.
Qed.

Lemma best_below h entries l x pc :
  table_sorted h entries -> entries !! l = Some x ->
  (forall j a, (j < S l)%nat -> pc_at h entries j = Some a -> a < pc) ->
  (forall j a, (S l <= j)%nat -> pc_at h entries j = Some a -> pc < a) ->
  best_entry h entries pc x.
Proof.
  intros Hs Hx Hlo Hhi. assert (pc_at h entries l = Some (info_pc (entry_info h x))) as Hl by (unfold pc_at; by rewrite Hx).
  pose proof (Hlo l _ ltac:(lia) Hl). split; [by eapply list_elem_of_lookup_2|]. split; [lia|].
  intros y [n [_ Hn]]%(pc_at_in h) Hy. destruct (Nat.le_gt_cases n l) as [Hle|Hgt]; [by apply (Hs n l)|].
  pose proof (Hhi n _ Hgt Hn). lia.
Qed.

(** The search, as the clients of the table use it. *)
Lemma GetFdeOffsetFromPc_run h entries pc :
  table_ok h entries -> table_sorted h entries ->
  exists r h', GetFdeOffsetFromPc A pc h = Done (r, h') /\ table_ok h' entries /\ moved h h' /\
    match r with
    | Some offset => exists x, best_entry h entries pc x /\ offset = info_offset (entry_info h x)
    | None => forall y, y ∈ entries -> pc < info_pc (entry_info h y)
    end.
Proof.
  intros Hok Hs. unfold GetFdeOffsetFromPc. unfold bind at 1, get. rewrite (tk_count _ _ Hok).
  destruct (Z.eqb_spec (Z.of_nat (length entries)) 0) as [Hz|Hz].
  { exists None, h. split; [done|]. split; [done|]. split; [apply hdr_moved_refl|].
    destruct entries; [by intros y ?%not_elem_of_nil|done]. }
  pose proof (table_length _ _ Hok) as Hmax.
  destruct (search_loop_run 65 h entries pc 0 (length entries) Hok Hs) as (r & h1 & Hr & Hm & Hok1 & Hp);
    [lia|change (Z.of_nat 65) with 65; lia|lia| |].
  { intros j a Hj. unfold pc_at. by rewrite lookup_ge_None_2. }
  unfold search_fuel. rewrite (obind_run _ _ _ _ _ Hr). destruct r as [offset|last].
  { destruct Hp as (n & x & Hx & -> & Hpc). eexists _, h1. split; [reflexivity|]. split; [done|]. split; [done|].
    exists x. split; [by eapply best_exact|done]. }
  destruct Hp as (l & -> & Hl & Hlo & Hhi). destruct l as [|l].
  - exists None, h1. split; [done|]. split; [done|]. split; [done|].
    intros y [n [_ Hn]]%(pc_at_in h). apply (Hhi n); [lia|done].
  - destruct (lookup_lt_is_Some_2 entries l Hl) as [x Hx].
    destruct (GetFdeInfoFromIndex_run h1 entries l x Hok1 Hx) as (h2 & Hr2 & Hm2 & Hok2).
    rewrite (proj2 (Z.eqb_neq _ _)) by lia. cbn [negb]. replace (Z.of_nat (S l) - 1) with (Z.of_nat l) by lia.
    rewrite (obind_run _ _ _ _ _ Hr2). eexists _, h2. split; [reflexivity|]. split; [done|].
    split; [by eapply hdr_moved_trans|]. exists x. rewrite (moved_entry_info h h1) by done.
    split; [by eapply best_below|done].
Qed.

(** ** [Init] *)

Lemma bind_base_modify {B} f (k : unit -> HDR B) h :
  bind (on_hdr_base (modify f)) k h = k tt (put_hdr_base (f (hdr_base h)) h).
Proof. reflexivity. Qed.

Lemma hdr_bind_set_pc {B} o (k : unit -> HDR B) h :
  bind (on_hdr_memory (set_pc_offset o)) k h
  = k tt (put_hdr_base (put_sec_memory (put_pc o (sec_memory (hdr_base h))) (hdr_base h)) h).
Proof. reflexivity. Qed.

Lemma hdr_bind_cur {B} (k : Z -> HDR B) h :
  bind (on_hdr_memory cur_offset) k h = k (cur_offset_ (sec_memory (hdr_base h))) h.
Proof. by destruct h as [[]]. Qed.

Lemma obind_read {B C} (m : DM (option B)) (k : B -> HDR (option C)) h d b d' :
  sec_memory (hdr_base h) = d -> m d = Done (Some b, d') ->
  obind (on_hdr_base (sec_read m)) k h = k b (put_hdr_base (put_sec_memory d' (hdr_base h)) h).
Proof. intros <- Hr. by rewrite (obind_run _ _ _ _ _ (on_base_read_run _ _ _ _ Hr)). Qed.

(** The base of a value of the header that is at the offset [pos]. *)
Definition header_base (e offset pos : Z) : Z :=
  let b := Z.land e 0x70 in
  if b =? DW_EH_PE_pcrel then pos else if b =? DW_EH_PE_datarel then offset else 0.

Lemma header_base_of e offset pos d :
  table_base_ok e = true -> pc_offset_ d = pos -> data_offset_ d = offset -> base_of e d = header_base e offset pos.
Proof.
  unfold table_base_ok, base_of, header_base. cbv zeta. generalize (Z.land e 0x70). intros b Hb -> ->.
  apply orb_true_iff in Hb as [[Hb|Hb]%orb_true_iff|Hb]; apply Z.eqb_eq in Hb; by rewrite Hb.
Qed.

(** The bytes of a header section: the version, the encodings, the address of [.eh_frame], the
    number of entries, the entries. *)
Definition encode_header (ep ec et : byte) (ptr : Z) entries : list byte :=
  [x01; ep; ec; et] ++ encode_operand A (Z.land (byte_val ep) 0x0f) ptr ++
  encode_operand A (byte_val ec) (Z.of_nat (length entries)) ++ encode_table (byte_val et) entries.
End Table.

(** * Theorems *)

(** The binary search: on a table whose addresses do not decrease, [GetFdeOffsetFromPc] ends and
    returns the offset of the entry with the greatest address that is not above [pc]; it returns
    [false] exactly when all entries are above. What it caches agrees with the table, so that later
    searches do as well. *)
Theorem eh_frame_hdr_search A bm h entries pc
  (Hok : table_ok A bm h entries) (Hs : table_sorted A h entries) :
  exists r h', GetFdeOffsetFromPc A pc h = Done (r, h') /\ table_ok A bm h' entries /\ moved h h' /\
    match r with
    | Some offset => exists x, best_entry A h entries pc x /\ offset = info_offset (entry_info A h x)
    | None => forall y, y ∈ entries -> pc < info_pc (entry_info A h y)
    end.
Proof. by apply GetFdeOffsetFromPc_run. Qed.

(** C33. [Init] on the bytes of a header section returns [true], with the address of [.eh_frame]
    relative to its own position when its encoding says so, and puts the object in the state in
    which the search is correct. *)
Theorem eh_frame_hdr_init A bm h offset size load_bias ep ec et ptr entries
  (Hm : ByteMemory (memory_ (sec_memory (hdr_base h))) bm) (Ho : in_u 64 offset) (Ho4 : offset + 4 < UINT64_MAX)
  (Hh : holds bm offset (encode_header A ep ec et ptr entries))
  (Hep : byte_val ep <> DW_EH_PE_omit) (Hpb : table_base_ok (byte_val ep) = true)
  (Hp : operand_ok A (Z.land (byte_val ep) 0x0f) ptr)
  (Hc : operand_ok A (byte_val ec) (Z.of_nat (length entries))) (Hne : entries <> [])
  (Het : GetEncodedSize A (byte_val et) <> 0) (Htb : table_base_ok (byte_val et) = true)
  (Hx : Forall (fun x => operand_ok A (Z.land (byte_val et) 0x0f) (fst x) /\
                         operand_ok A (Z.land (byte_val et) 0x0f) (snd x)) entries)
  (Hcache : fde_info_ h = ∅) :
  exists h', Init A offset size load_bias h = Done (Some tt, h') /\ table_ok A bm h' entries /\
    table_encoding_ h' = byte_val et /\ entries_data_offset_ h' = offset /\ load_bias_ (hdr_base h') = load_bias /\
    ptr_offset_ h' = u64 (ptr + header_base (byte_val ep) offset (offset + 4)).
Proof.
  set (d0 := put_cur offset (put_data offset (put_text UINT64_MAX (put_func UINT64_MAX (sec_memory (hdr_base h)))))).
  assert (at_bytes bm d0 (encode_header A ep ec et ptr entries)) as Ha by (split; [exact Hm|split; [exact Ho|exact Hh]]).
  apply at_bytes_split in Ha as [Ha1 Ha]. apply at_bytes_split in Ha as [Ha2 Ha].
  apply at_bytes_split in Ha as [Ha3 Ha4]. change (len [x01; ep; ec; et]) with 4 in *.
  set (lp := len (encode_operand A (Z.land (byte_val ep) 15) ptr)) in *.
  set (lc := len (encode_operand A (byte_val ec) (Z.of_nat (length entries)))) in *.
  assert (byte_val ep <> DW_EH_PE_aligned) as Hea by (intros E; by rewrite E in Hpb).
  set (d1 := put_pc (u64 (offset + 4)) (skip 4 d0)).
  assert (at_bytes bm d1 (encode_operand A (Z.land (byte_val ep) 15) ptr)) as Hb2 by exact Ha2.
  assert (base_of (byte_val ep) d1 = header_base (byte_val ep) offset (offset + 4)) as Hbase.
  { apply header_base_of; [done| |done]. cbn. apply wrap_small. unfold in_u in *. lia. }
  assert (header_base (byte_val ep) offset (offset + 4) <> UINT64_MAX) as Hbm.
  { unfold header_base. cbv zeta. unfold in_u in *. repeat case_match; lia. }
  pose proof (ReadEncodedValue_based A bm _ ptr d1 Hep Hea ltac:(by rewrite Hbase) Hp Hb2) as Hr2. fold lp in Hr2.
  rewrite Hbase in Hr2.
  set (d2 := put_pc (u64 (u64 (offset + 4) + lp)) (skip lp d1)).
  assert (at_bytes bm d2 (encode_operand A (byte_val ec) (Z.of_nat (length entries)))) as Hb3 by exact Ha3.
  pose proof (ReadEncodedValue_run A bm _ _ d2 Hc Hb3) as Hr3. fold lc in Hr3.
  pose proof (holds_length _ _ _ _ (proj1 Ha4) (proj1 (proj2 Ha4)) (proj2 (proj2 Ha4))) as Hlen.
  rewrite len_encode_table in Hlen by done.
  assert (1 <= GetEncodedSize A (byte_val et)) as Hsz1
    by (unfold GetEncodedSize in *; repeat case_match; destruct A; simpl; lia).
  rewrite (wrap_small 64 (Z.of_nat (length entries))) in Hr3 by (unfold in_u; nia).
  assert (length entries <> 0%nat) as Hn0 by (by destruct entries).
  pose proof (ReadBytes_run bm d0 _ Ha1) as Hr1. change (len [x01; ep; ec; et]) with 4 in Hr1.
  unfold Init. rewrite bind_base_modify. erewrite (obind_read _ _ _ d0); [|reflexivity|exact Hr1].
  cbv zeta. cbn [map nth]. rewrite bind_modify. change (byte_val x01 =? 1) with true. cbn [negb].
  rewrite bind_modify, (proj2 (Z.eqb_neq _ _) Het), hdr_bind_cur, hdr_bind_set_pc.
  erewrite (obind_read _ _ _ d1); [|reflexivity|exact Hr2]. rewrite bind_modify, hdr_bind_cur, hdr_bind_set_pc.
  erewrite (obind_read _ _ _ d2); [|reflexivity|exact Hr3]. rewrite bind_modify, (proj2 (Z.eqb_neq _ _)) by lia.
  rewrite hdr_bind_cur, bind_base_modify, bind_modify.
  eexists. split; [reflexivity|]. split; [|done].
  destruct Ha4 as (_ & Hc4 & Hh4).
  split; cbn; try done.
  - unfold table_base. cbn. unfold in_u in *. case_match; lia.
  - intros i info. by rewrite Hcache, lookup_empty.
Qed.

(** * Witnesses *)

Definition example_entries : list (Z * Z) := [(0x100, 0x40); (0x200, 0x60); (0x200, 0x80); (0x300, 0xa0)].

(** A header at offset 0, with the encodings that linkers use: [pcrel | sdata4], [udata4] and
    [datarel | sdata4]. *)
Definition example_header : list byte := encode_header U64 x1b x03 x3b (-4) example_entries.

Definition fresh_hdr (bs : list byte) : DwarfEhFrameWithHdr :=
  new_hdr (MemoryBuffer.memory (MemoryBuffer.mk bs)) 0 0 0 0 0 0 0.

(** The same table without a header, ready to be searched. *)
Definition example_table : list byte := encode_table U64 0x3b example_entries.
Definition table_hdr : DwarfEhFrameWithHdr :=
  mkHdr (put_entries 0x1000 0 (len example_table) 0 (new_section (MemoryBuffer.memory (MemoryBuffer.mk example_table))))
    1 0x1b 0x3b 4 0 0 0 4 ∅.

Lemma eh_frame_hdr_search_witness :
  exists r h', GetFdeOffsetFromPc U64 0x12ff table_hdr = Done (r, h') /\
    match r with
    | Some offset => exists x, best_entry U64 table_hdr example_entries 0x12ff x /\
                               offset = info_offset (entry_info U64 table_hdr x)
    | None => forall y, y ∈ example_entries -> 0x12ff < info_pc (entry_info U64 table_hdr y)
    end.
Proof.
  destruct (eh_frame_hdr_search U64 (buffer_bytes example_table) table_hdr example_entries 0x12ff)
    as (r & h' & H1 & _ & _ & H2).
  - split.
    + apply (MemoryBuffer_bytes (MemoryBuffer.mk example_table)). vm_compute. discriminate.
    + split; [reflexivity|simpl; lia].
    + apply holds_buffer.
    + repeat constructor; unfold in_s; simpl; lia.
    + reflexivity.
    + discriminate.
    + reflexivity.
    + discriminate.
    + reflexivity.
    + intros i info Hi. discriminate Hi.
  - intros i j a b Hij Hi Hj.
    do 4 (destruct i as [|i]; [do 4 (destruct j as [|j]; [vm_compute in Hi, Hj; injection Hi as <-; injection Hj as <-; lia|]); discriminate|]).
    discriminate.
  - exists r, h'. split; [exact H1|exact H2].
Defined.

Lemma eh_frame_hdr_init_witness :
  exists h', Init U64 0 (len example_header) 0x1000 (fresh_hdr example_header) = Done (Some tt, h') /\
    table_ok U64 (buffer_bytes example_header) h' example_entries /\ ptr_offset_ h' = 0.
Proof.
  destruct (eh_frame_hdr_init U64 (buffer_bytes example_header) (fresh_hdr example_header) 0 (len example_header)
    0x1000 x1b x03 x3b (-4) example_entries) as (h' & H1 & H2 & _ & _ & _ & H3).
  - apply (MemoryBuffer_bytes (MemoryBuffer.mk example_header)). vm_compute. discriminate.
  - split; [reflexivity|simpl; lia].
  - lia.
  - apply holds_buffer.
  - discriminate.
  - reflexivity.
  - unfold operand_ok. simpl. unfold in_s. lia.
  - unfold operand_ok. simpl. unfold in_u. simpl. lia.
  - discriminate.
  - discriminate.
  - reflexivity.
  - repeat constructor; unfold in_s; simpl; lia.
  - reflexivity.
  - exists h'. split; [exact H1|]. split; [exact H2|]. exact H3.
Defined.

(** * What the search does not check *)

(** A CIE at 0, an FDE at 13 for the addresses from 0x200 to 0x300, and a header at 29 whose one
    entry gives the address 0x100 to the FDE. *)
Definition inconsistent_sections : list byte :=
  le_bytes 4 9 ++ le_bytes 4 0 ++ [x01; x00; x01; x7c; x10] ++
  le_bytes 4 12 ++ le_bytes 4 17 ++ le_bytes 4 (0x200 - 21) ++ le_bytes 4 0x100 ++
  encode_header U64 x1b x03 x3b 0 [(0x100 - 29, 13 - 29)].

Definition search_inconsistent : HDR (option Z * option DwarfFde) :=
  Init U64 29 0 0 ;; p <- GetFdeFromPc U64 2 0x150 ;; h <- get ;;
  ret (p, p ≫= fun p => fde_entries_ (hdr_base h) !! p).

(** [GetFdeFromPc] takes [pc >= pc_start] for granted and compares only with [pc_end]: when the table
    and the FDE disagree, it returns an FDE that does not contain the address. *)
Lemma eh_frame_hdr_start_unchecked :
  exists p fde h', search_inconsistent (fresh_hdr inconsistent_sections) = Done ((Some p, Some fde), h') /\
    0x150 < pc_start fde.
Proof. vm_compute. eexists _, _, _. split; reflexivity. Qed.
