(* ===== verification/DwarfEhFrameStep.v ===== *)
(** The composition of the DWARF components: from the bytes of [.eh_frame] and the table of
    [.eh_frame_hdr] to the registers of the caller. The binary search finds the entry of a pc
    ([DwarfEhFrameWithHdr.cpp]), the entry is read ([DwarfSection.cpp]), its instructions are run
    ([DwarfCfa.cpp]), and the row is evaluated, with four caches in between. *)
From Stdlib Require Import ZArith Lia Bool Strings.Byte.
From stdpp Require Import base numbers list gmap.
From S2P Require Import Prelude StdMap Memory DwarfMemory DwarfEncode DwarfStructs Regs DwarfCfaTable DwarfCfa DwarfCfaRows.
From S2P Require Import DwarfSection DwarfSectionEval DwarfSectionEntries DwarfSectionStep DwarfFrames DwarfEhFrameWithHdr DwarfEhFrameSearch.
#[local] Open Scope Z_scope.

Section Frames.
Context (A : addr_type) (bm : Z -> option byte) (fuel : nat).
Context (h0 : DwarfEhFrameWithHdr) (entries : list (Z * Z)) (fdes : gmap Z frame_entry).
Implicit Types (h : DwarfEhFrameWithHdr) (b : DwarfSection) (e : frame_entry).

Local Abbreviation base_memory := (sec_memory (hdr_base h0)).
Local Abbreviation bias := (load_bias_ (hdr_base h0)).
Local Abbreviation pc_base := (sec_pc_offset (hdr_base h0)).
Local Abbreviation section_start := (entries_offset_ (hdr_base h0)).

Local Abbreviation entry_fde := (entry_fde A EhFrame base_memory bias pc_base).
Local Abbreviation entry_cie := (entry_cie A base_memory pc_base).
Local Abbreviation entries_agree := (entries_agree A EhFrame base_memory bias pc_base fdes).

(** The entries of the section are well formed, and the table lists each FDE with its start. *)
Record frames_ok : Prop := {
  fo_frames : entries_ok A EhFrame bm fuel base_memory bias pc_base section_start fdes;
  fo_table : forall x, x ∈ entries -> exists e, fdes !! info_offset (entry_info A h0 x) = Some e /\
    pc_start (entry_fde (info_offset (entry_info A h0 x)) e) = info_pc (entry_info A h0 x);
  fo_listed : forall off e, fdes !! off = Some e -> exists x, x ∈ entries /\ info_offset (entry_info A h0 x) = off
}.

(** The tables of the section, and the FDE whose range contains a pc. *)
Definition hdr_tables : Z -> option fde_table := tables A EhFrame base_memory bias pc_base fdes.
Definition hdr_fde_at : Z -> option Z := fde_at A EhFrame base_memory bias pc_base fdes.

Context (Hok : frames_ok).

Local Abbreviation Hframes := (fo_frames Hok).

#[export] Instance hdr_frames_tables : UnwindTables A bm base_memory hdr_tables hdr_fde_at fuel.
Proof. exact (frames_tables A EhFrame bm fuel base_memory bias pc_base section_start fdes Hframes). Qed.

Lemma hdr_described pc : described hdr_tables hdr_fde_at pc.
Proof. apply frames_described. Qed.

(** * The search *)

(** The state of the object between steps. *)
Definition hdr_inv h : Prop :=
  table_ok A bm h entries /\ table_sorted A h entries /\ (forall x, entry_info A h x = entry_info A h0 x) /\
  load_bias_ (hdr_base h) = bias /\ sec_pc_offset (hdr_base h) = pc_base /\ entries_offset_ (hdr_base h) = section_start /\
  entries_data_offset_ h = data_offset_ base_memory /\ same_but_pc base_memory (sec_memory (hdr_base h)) /\
  entries_agree (hdr_base h).

(** Changes of the base object that the search does not see. *)
Lemma hdr_inv_base h b :
  hdr_inv h -> same_but_pc (sec_memory (hdr_base h)) (sec_memory b) -> load_bias_ b = load_bias_ (hdr_base h) ->
  sec_pc_offset b = sec_pc_offset (hdr_base h) -> entries_offset_ b = entries_offset_ (hdr_base h) ->
  entries_agree b -> hdr_inv (put_hdr_base b h).
Proof.
  intros (Hk & Hs & Hi & Hb & Hp & He & Hdat & Hm & Ha) Hm' Eb Ep Ee Ha'.
  assert (forall x, entry_info A (put_hdr_base b h) x = entry_info A h x) as Hei
    by (intros x; unfold entry_info; cbn [hdr_base put_hdr_base table_encoding_]; by rewrite Eb).
  split; [|split; [|split; [|split; [|split; [|split; [|split; [|split]]]]]]]; cbn; try congruence.
  - destruct Hm' as (Em & _). destruct Hk as [K1 K2 K3 K4 K5 K6 K7 K8 K9 K10]. split; cbn; try done; rewrite ?Em, ?Ee; try done.
    intros i info Hc. destruct (K10 i info Hc) as (n & -> & Hn). exists n. split; [done|].
    rewrite <- Hn. apply option_fmap_ext. apply Hei.
  - assert (forall n, pc_at A (put_hdr_base b h) entries n = pc_at A h entries n) as Hpc
      by (intros n; unfold pc_at; apply option_fmap_ext; intros x; by rewrite Hei).
    intros i j x y. rewrite !Hpc. apply Hs.
  - by etransitivity.
  - done.
Qed.

(** The table was searched. *)
Lemma hdr_inv_moved h h' : hdr_inv h -> table_ok A bm h' entries -> DwarfEhFrameSearch.moved h h' -> hdr_inv h'.
Proof.
  intros (Hk & Hs & Hi & Hb & Hp & He & Hdat & Hm & Ha) Hk' Hmv.
  assert (forall x, entry_info A h' x = entry_info A h x) as Hei by (intros x; by apply moved_entry_info).
  assert (table_sorted A h' entries) as Hs'.
  { intros i j x y. rewrite !(pc_at_moved A h h') by done. apply Hs. }
  destruct Hmv as (d & c & -> & Em & Ef & Et & Ed). cbn in *.
  split; [done|]. split; [done|]. split; [intros x; by rewrite Hei|]. do 4 (split; [done|]). split; [|done].
  destruct Hm as (M1 & M2 & M3 & M4). unfold same_but_pc. cbn. split; [congruence|]. split; [|split; congruence]. destruct Ed as [-> | ->]; congruence.
Qed.

(** The entry that the search returns, with the FDE of the pc if there is one. *)
Lemma best_entry_fde h pc x :
  hdr_inv h -> best_entry A h entries pc x ->
  exists e, fdes !! info_offset (entry_info A h x) = Some e /\
    hdr_fde_at pc = (if pc <? pc_end (entry_fde (info_offset (entry_info A h x)) e)
                 then Some (info_offset (entry_info A h x)) else None).
Proof.
  intros (_ & _ & Hi & _) (Hx & Hle & Hbest). rewrite Hi in *. set (off := info_offset (entry_info A h0 x)).
  destruct (fo_table Hok x Hx) as (e & He & Es). fold off in He, Es. exists e. split; [done|].
  pose proof (eo_range (fo_entries Hframes _ _ He)) as Hr.
  destruct (Z.ltb_spec pc (pc_end (entry_fde off e))) as [Hlt|Hge]; [apply (fde_at_spec Hframes pc off e He); lia|].
  destruct (hdr_fde_at pc) as [off'|] eqn:E; [|done]. exfalso. apply fde_at_some in E as (e' & He' & Hr').
  destruct (fo_listed Hok _ _ He') as (y & Hy & Ey). destruct (fo_table Hok y Hy) as (e2 & He2 & Es2).
  rewrite Ey in He2, Es2. assert (e2 = e') as -> by congruence. pose proof (Hbest y Hy) as Hb. rewrite !Hi in Hb.
  specialize (Hb ltac:(lia)). destruct (decide (off = off')) as [E|Hne].
  - rewrite <- E in He', Hr'. assert (e' = e) as -> by congruence. lia.
  - destruct (fo_disjoint Hframes _ _ _ _ He He' Hne); lia.
Qed.

Lemma above_all_none h pc :
  hdr_inv h -> (forall y, y ∈ entries -> pc < info_pc (entry_info A h y)) -> hdr_fde_at pc = None.
Proof.
  intros (_ & _ & Hi & _) Hall. destruct (hdr_fde_at pc) as [off|] eqn:E; [|done]. exfalso.
  apply fde_at_some in E as (e & He & Hr). destruct (fo_listed Hok _ _ He) as (y & Hy & Ey).
  destruct (fo_table Hok y Hy) as (e2 & He2 & Es). rewrite Ey in He2, Es. assert (e2 = e) as -> by congruence.
  specialize (Hall y Hy). rewrite Hi in Hall. lia.
Qed.

Lemma moved_keeps h h' : DwarfEhFrameSearch.moved h h' -> keeps (hdr_base h) (hdr_base h').
Proof. intros (d & c & -> & Em & _). by split_and!. Qed.

Lemma GetFde_run off e h :
  hdr_inv h -> fdes !! off = Some e ->
  exists h', on_hdr_base (GetFdeFromOffset A EhFrame fuel off) h = Done (Some off, h') /\ hdr_inv h' /\
    keeps (hdr_base h) (hdr_base h') /\ fde_entries_ (hdr_base h') !! off = Some (entry_fde off e) /\
    cie_entries_ (hdr_base h') !! en_cie_offset e = Some (entry_cie e).
Proof.
  intros Hh He. pose proof Hh as (_ & _ & _ & Hb & Hp & Hst & _ & Hm & Ha). destruct (Ha _ _ He) as [Hc Hf].
  destruct (GetFdeFromOffset_run A bm EhFrame fuel section_start bias pc_base base_memory off (en_cie_offset e) (en_cie e) (en_fde e)
    (hdr_base h) (eo_bytes (fo_entries Hframes _ _ He)) Hst Hb Hp Hm Hc Hf) as (d' & Hr & Hd').
  fold (entry_cie e) in Hr. fold (entry_fde off e) in Hr.
  exists (put_hdr_base (with_entries off (entry_fde off e) (en_cie_offset e) (entry_cie e) d' (hdr_base h)) h).
  split; [unfold on_hdr_base, zoom; by rewrite Hr|]. cbn [hdr_base put_hdr_base].
  split; [|split; [|by cbn; rewrite !lookup_insert_eq]].
  - apply hdr_inv_base; try done; [|by apply (entries_agree_with Hframes)].
    destruct Hm as (?&?&?&?), Hd' as (?&?&?&?). cbn. split_and!; cbn; congruence.
  - apply with_entries_keeps; [|done]. destruct Hm as (-> & _), Hd' as (-> & _). done.
Qed.

Lemma GetFdeFromPc_run pc h :
  hdr_inv h ->
  exists h', DwarfEhFrameWithHdr.GetFdeFromPc A fuel pc h = Done (hdr_fde_at pc, h') /\ hdr_inv h' /\
    keeps (hdr_base h) (hdr_base h') /\
    forall off e, hdr_fde_at pc = Some off -> fdes !! off = Some e ->
      fde_entries_ (hdr_base h') !! off = Some (entry_fde off e) /\
      cie_entries_ (hdr_base h') !! en_cie_offset e = Some (entry_cie e).
Proof.
  intros Hh. pose proof Hh as (Hk & Hs & _). unfold DwarfEhFrameWithHdr.GetFdeFromPc.
  destruct (GetFdeOffsetFromPc_run A bm h entries pc Hk Hs) as (r & h1 & Hr & Hk1 & Hmv & Hres).
  pose proof (hdr_inv_moved h h1 Hh Hk1 Hmv) as Hh1. pose proof (moved_keeps h h1 Hmv) as Hkeep1.
  destruct r as [off|].
  2:{ exists h1. rewrite (above_all_none h pc Hh Hres). split; [unfold obind, bind; by rewrite Hr|]. by split_and!. }
  rewrite (obind_run _ _ _ _ _ Hr). destruct Hres as (x & Hbest & ->).
  destruct (best_entry_fde h pc x Hh Hbest) as (e & He & Hat). set (off := info_offset (entry_info A h x)) in *.
  destruct (GetFde_run off e h1 Hh1 He) as (h2 & Hr2 & Hh2 & Hkeep2 & Hf2 & Hc2).
  rewrite (obind_run _ _ _ _ _ Hr2). unfold bind at 1.
  assert (on_hdr_base (deref_fde off) h2 = Done (entry_fde off e, h2)) as ->.
  { unfold on_hdr_base, zoom, deref_fde, bind, get. rewrite Hf2. cbn. by destruct h2. }
  rewrite Hat. destruct (pc <? pc_end (entry_fde off e)).
  - exists h2. split; [done|]. split; [done|]. split; [by etransitivity|]. intros off' e' [= <-] He'.
    by assert (e' = e) as -> by congruence.
  - eexists. split; [reflexivity|]. split; [|split; [by etransitivity|done]].
    apply hdr_inv_base; try done. apply Hh2.
Qed.

(** [FdeSearch] for the header section. *)
#[local] Instance hdr_search :
  FdeSearch hdr_base put_hdr_base (DwarfEhFrameWithHdr.GetFdeFromPc A fuel) base_memory hdr_tables hdr_fde_at hdr_inv.
Proof.
  split; [done| |].
  - intros b h Hh (Hb & Ef & Ec & El & Eo & _ & Ep & _ & _). apply hdr_inv_base; try done.
    + destruct Hb as (?&?&?&?&?). by split_and!.
    + destruct Hh as (_ & _ & _ & _ & _ & _ & _ & _ & Ha). intros off e He. rewrite Ef, Ec. by apply Ha.
  - intros pc h Hh. destruct (GetFdeFromPc_run pc h Hh) as (h' & Hr & Hh' & (K1 & K2 & K3 & K4) & He).
    exists h'. split; [done|]. split; [done|]. split; [unfold same_memory; by rewrite K1|].
    do 3 (split; [done|]). intros off t Hat (e & Hf & ->)%tables_some. by apply He.
Qed.
End Frames.

(** An object that has not read any entry yet, as [Init] leaves it. *)
Definition fresh_caches (h : DwarfEhFrameWithHdr) : Prop :=
  let b := hdr_base h in
  fde_entries_ b = ∅ /\ cie_entries_ b = ∅ /\ sec_cie_loc_regs b = ∅ /\ loc_regs_ b = [] /\
  data_offset_ (sec_memory b) = entries_data_offset_ h.

(** * Property *)

(** C2. From the bytes of the sections to the registers of the caller: over a memory that holds the
    encoded table of [.eh_frame_hdr] and the encoded CIEs and FDEs of [.eh_frame], any sequence of
    steps returns for each pc the registers that the row of the pc, in the unwind table that the
    instructions of its FDE denote, gives over the registers and the memory of the frame, and [false]
    with the registers unchanged where no FDE contains the pc. The results do not depend on what the
    steps before left in the caches of the table, of the entries, of the rows of the CIEs, and of the
    rows by address. *)
Theorem eh_frame_steps A bm fuel h entries fdes order qs
  (Horder : forall m, order m ≡ₚ map_to_list m) (Hok : frames_ok A bm fuel h entries fdes)
  (Htable : table_ok A bm h entries) (Hsorted : table_sorted A h entries) (Hfresh : fresh_caches h)
  (Hqs : Forall (answerable A (sec_memory (hdr_base h)) (hdr_tables A h fdes) (hdr_fde_at A h fdes)) qs) :
  exists rs h',
    step_all A fuel (base := hdr_base) (put_base := put_hdr_base)
      (get_fde_from_pc := DwarfEhFrameWithHdr.GetFdeFromPc A fuel) order qs h = Done (rs, h') /\
    Forall2 (step_answer A (sec_memory (hdr_base h)) (hdr_tables A h fdes) (hdr_fde_at A h fdes)) qs rs.
Proof.
  destruct Hfresh as (Hf & Hc & Hl & Hr & Hd).
  pose proof (hdr_frames_tables A bm fuel h entries fdes Hok) as HT. pose proof (hdr_search A bm fuel h entries fdes Hok) as HS.
  eapply (steps_refine_tables A bm _ _ _ fuel order Horder); try done.
  split; [done|]. split; [done|]. do 4 (split; [done|]). split; [done|]. split; [done|].
  intros off e _. rewrite Hf, Hc, !lookup_empty. by split; left.
Qed.

(** * Witness *)

(** The header at 0 with one entry, the CIE at 20 and the FDE at 47 for the addresses from 0x1000 to
    0x1064: the code of a function that saves register 6. *)
Definition demo_cie : cie_fields :=
  mkCieFields false x01 (Some [AugFdeEncoding x1b]) x00 x00 1 (-8) 16 (encode_cfas U64 [DefCfa 7 8; Offset 16 1]).
Definition demo_code : list cfa_instr := [Advance 1; DefCfaOffset 16; Offset 6 2; AdvanceLoc1 3; DefCfaRegister 6].
Definition demo_cie_at : Z := 20.
Definition demo_fde_at : Z := demo_cie_at + len (encode_cie U64 EhFrame demo_cie).
Definition demo_start : Z := 0x1000 - (demo_fde_at + 8).
Definition demo_ff : fde_fields := mkFdeFields false [] demo_start 0x64 0 [] (encode_cfas U64 demo_code).
Definition demo_header : list byte := encode_header U64 x1b x03 x3b (demo_cie_at - 4) [(0x1000, demo_fde_at)].
Definition demo_c : DwarfCie := cie_of U64 0 (new_DwarfMemory (mkMemory (fun _ _ => []))) demo_cie_at demo_cie.
Definition demo_bytes : list byte :=
  demo_header ++ encode_cie U64 EhFrame demo_cie ++ encode_fde U64 EhFrame 16 demo_fde_at demo_cie_at demo_c demo_ff.

Definition demo_hdr : DwarfEhFrameWithHdr :=
  match DwarfEhFrameWithHdr.Init U64 0 (len demo_header) 0 (fresh_hdr demo_bytes) with
  | Done (_, h) => h
  | Fault _ => fresh_hdr demo_bytes
  end.

Definition demo_cie_row : row := {[CFA_REG := mkLoc DWARF_LOCATION_REGISTER 7 8; 16 := mkLoc DWARF_LOCATION_OFFSET (2 ^ 64 - 8) 0]}.
Definition demo_entry : frame_entry :=
  mkEntry demo_cie_at demo_cie demo_ff [DefCfa 7 8; Offset 16 1] demo_code demo_cie_row
    (default [] (rows U64 demo_c (Some demo_cie_row) 0 (mkC 0x1000 demo_cie_row []) demo_code)).

(** A stack with the caller's registers. *)
Definition demo_stack : Memory := MemoryBuffer.memory (MemoryBuffer.mk (le_bytes 64 (2 ^ 64 * 0x77 + 2 ^ 128 * 0x5678))).
Definition demo_regs : Regs := put_reg 7 8 (put_reg 6 5 (new_regs 17 16 7)).

(** The row of 0x1002. *)
Definition demo_row : row :=
  {[CFA_REG := mkLoc DWARF_LOCATION_REGISTER 7 16; 16 := mkLoc DWARF_LOCATION_OFFSET (2 ^ 64 - 8) 0;
    6 := mkLoc DWARF_LOCATION_OFFSET (2 ^ 64 - 16) 0]}.

Definition demo_fdes : gmap Z frame_entry := {[demo_fde_at := demo_entry]}.
Definition demo_requests : list request := [(0x1002, demo_regs, demo_stack); (0x2000, demo_regs, demo_stack)].

Lemma demo_entry_ok :
  entry_ok U64 EhFrame (buffer_bytes demo_bytes) 9 (sec_memory (hdr_base demo_hdr)) (load_bias_ (hdr_base demo_hdr))
    (sec_pc_offset (hdr_base demo_hdr)) (entries_offset_ (hdr_base demo_hdr)) demo_fde_at demo_entry.
Proof.
  split.
  - split.
    + split.
      * split.
        -- vm_compute. repeat split; discriminate || reflexivity.
        -- vm_compute. left.
        -- by repeat constructor.
        -- unfold in_u. vm_compute. repeat split; discriminate || reflexivity.
        -- unfold in_s. vm_compute. repeat split; discriminate || reflexivity.
        -- unfold in_u. vm_compute. repeat split; discriminate || reflexivity.
      * apply (MemoryBuffer_bytes (MemoryBuffer.mk demo_bytes)). vm_compute. discriminate.
      * vm_compute. discriminate.
      * vm_compute. reflexivity.
      * vm_compute. reflexivity.
      * vm_compute. lia.
    + split.
      * vm_compute. repeat split; discriminate || reflexivity.
      * vm_compute. repeat split; discriminate || reflexivity.
      * vm_compute. discriminate.
      * vm_compute. reflexivity.
      * vm_compute. repeat split; discriminate || reflexivity.
      * vm_compute. repeat split; discriminate || reflexivity.
      * left. vm_compute. reflexivity.
    + vm_compute. discriminate.
    + vm_compute. reflexivity.
    + vm_compute. reflexivity.
  - reflexivity.
  - reflexivity.
  - split; [|split; [discriminate|simpl; lia]].
    repeat (apply Forall_cons; split); [..|apply Forall_nil]; vm_compute; repeat split; discriminate || reflexivity.
  - split; [|split; [discriminate|simpl; lia]].
    repeat (apply Forall_cons; split); [..|apply Forall_nil]; vm_compute; repeat split; discriminate || reflexivity.
  - cbn. rewrite !not_elem_of_cons. split_and!; [done|done|apply not_elem_of_nil].
  - vm_compute. repeat split; discriminate || reflexivity.
  - vm_compute. reflexivity.
  - vm_compute. reflexivity.
  - vm_compute. reflexivity.
  - vm_compute. repeat split.
  - vm_compute. repeat constructor; discriminate.
Qed.

Lemma demo_frames_ok : frames_ok U64 (buffer_bytes demo_bytes) 9 demo_hdr [(0x1000, demo_fde_at)] demo_fdes.
Proof.
  assert (forall off e, demo_fdes !! off = Some e -> off = demo_fde_at /\ e = demo_entry) as Hone
    by (unfold demo_fdes; by intros off e [<- <-]%lookup_singleton_Some).
  split.
  - split.
    + intros off e [-> ->]%Hone. apply demo_entry_ok.
    + intros off off' e e' [-> _]%Hone [-> _]%Hone Hne. done.
    + by intros off off' e e' [-> ->]%Hone [-> ->]%Hone _.
  - intros x ->%list_elem_of_singleton. exists demo_entry.
    assert (info_offset (entry_info U64 demo_hdr (0x1000, demo_fde_at)) = demo_fde_at) as -> by (vm_compute; reflexivity).
    split; [apply lookup_singleton_eq|]. vm_compute. reflexivity.
  - intros off e [-> _]%Hone. exists (0x1000, demo_fde_at). split; [by left|]. vm_compute. reflexivity.
Qed.

(** The header section that [Init] accepted. *)
Lemma demo_hdr_ok :
  table_ok U64 (buffer_bytes demo_bytes) demo_hdr [(0x1000, demo_fde_at)] /\
  table_sorted U64 demo_hdr [(0x1000, demo_fde_at)] /\ fresh_caches demo_hdr.
Proof.
  split; [|split].
  - split.
    + apply (MemoryBuffer_bytes (MemoryBuffer.mk demo_bytes)). vm_compute. discriminate.
    + vm_compute. by split; [discriminate|].
    + vm_compute. reflexivity.
    + constructor; [|constructor]. vm_compute. repeat split; discriminate.
    + vm_compute. reflexivity.
    + vm_compute. discriminate.
    + vm_compute. reflexivity.
    + vm_compute. discriminate.
    + vm_compute. reflexivity.
    + intros i info Hi. assert (fde_info_ demo_hdr = ∅) as E by (vm_compute; reflexivity).
      by rewrite E in Hi.
  - intros i j x y. unfold pc_at. destruct i as [|i]; [|done]. destruct j as [|j]; [|done].
    intros _ Hx Hy. assert (x = y) as -> by congruence. done.
  - by vm_compute.
Qed.

Lemma demo_answerable :
  Forall (answerable U64 (sec_memory (hdr_base demo_hdr)) (hdr_tables U64 demo_hdr demo_fdes) (hdr_fde_at U64 demo_hdr demo_fdes))
    demo_requests.
Proof.
  apply Forall_cons. split; [|apply Forall_singleton]; (split; [apply hdr_described|]).
  - assert (row_of (hdr_tables U64 demo_hdr demo_fdes) (hdr_fde_at U64 demo_hdr demo_fdes) 0x1002 = Some (demo_row, demo_c)) as ->
      by (vm_compute; reflexivity).
    exists 24, 0x5678. split; [|split; [|split; [|split; [|split]]]].
    + split; [reflexivity|]. split; [simpl; lia|]. split; [|simpl; lia].
      do 2 (apply Forall_insert; [|unfold in_u; simpl; lia]). by apply Forall_replicate.
    + intros k x Hk. unfold demo_row in Hk. rewrite !lookup_insert_Some in Hk.
      destruct Hk as [[<- _]|[_ [[<- _]|[_ [<- _]%lookup_singleton_Some]]]]; vm_compute; discriminate.
    + vm_compute. by split; [discriminate|].
    + exists (mkLoc DWARF_LOCATION_REGISTER 7 16). split; [reflexivity|]. split; [vm_compute; discriminate|vm_compute; reflexivity].
    + intros k x old Hk _. unfold demo_row in Hk. rewrite !lookup_insert_Some in Hk.
      destruct Hk as [[<- <-]|[_ [[<- <-]|[_ [<- <-]%lookup_singleton_Some]]]]; vm_compute; eexists; reflexivity.
    + vm_compute. reflexivity.
  - assert (row_of (hdr_tables U64 demo_hdr demo_fdes) (hdr_fde_at U64 demo_hdr demo_fdes) 0x2000 = None) as ->
      by (vm_compute; reflexivity). done.
Qed.

Example demo_steps :
  match step_all U64 9 (base := hdr_base) (put_base := put_hdr_base)
    (get_fde_from_pc := DwarfEhFrameWithHdr.GetFdeFromPc U64 9) map_to_list demo_requests demo_hdr with
  | Done ([(true, r1, false); (false, r2, false)], _) =>
      regs_ r1 !! 16%nat = Some 0x5678 /\ regs_ r1 !! 7%nat = Some 24 /\ regs_ r1 !! 6%nat = Some 0x77
  | _ => False
  end.
Proof. vm_compute. by split. Qed.

Lemma eh_frame_steps_witness :
  exists rs h',
    step_all U64 9 (base := hdr_base) (put_base := put_hdr_base)
      (get_fde_from_pc := DwarfEhFrameWithHdr.GetFdeFromPc U64 9) map_to_list demo_requests demo_hdr = Done (rs, h') /\
    Forall2 (step_answer U64 (sec_memory (hdr_base demo_hdr)) (hdr_tables U64 demo_hdr demo_fdes) (hdr_fde_at U64 demo_hdr demo_fdes))
      demo_requests rs.
Proof.
  apply (eh_frame_steps U64 (buffer_bytes demo_bytes) 9 demo_hdr [(0x1000, demo_fde_at)] demo_fdes map_to_list demo_requests).
  - done.
  - exact demo_frames_ok.
  - exact (proj1 demo_hdr_ok).
  - exact (proj1 (proj2 demo_hdr_ok)).
  - exact (proj2 (proj2 demo_hdr_ok)).
  - exact demo_answerable.
Defined.
