(* ===== verification/ElfTypes.v ===== *)
(** The structures of the ELF format ([elf.h]) for the two classes, as the code reads them: a record
    is the fields that it uses, decoded from the little-endian bytes of the structure. *)
From Stdlib Require Import ZArith Lia Bool Strings.Byte.
From stdpp Require Import base numbers list.
From S2P Require Import Prelude Memory.
#[local] Open Scope Z_scope.

(** * Structures *)

(** The consecutive fields of the widths [ws], in bytes. *)
Fixpoint decode_fields (ws : list nat) (bs : list byte) : list Z :=
  match ws with
  | [] => []
  | w :: ws' => le_val (take w bs) :: decode_fields ws' (drop w bs)
  end.

Fixpoint encode_fields (ws : list nat) (vs : list Z) : list byte :=
  match ws, vs with
  | w :: ws', v :: vs' => le_bytes w v ++ encode_fields ws' vs'
  | _, _ => []
  end.

Definition struct_size (ws : list nat) : Z := Z.of_nat (sum_list ws).

(** A structure at [a]: its fields, when all of it can be read. *)
Definition read_struct (ws : list nat) (m : Memory) (a : Z) : option (list Z) :=
  decode_fields ws <$> ReadFully m a (struct_size ws).

Definition fld (i : nat) (l : list Z) : Z := nth i l 0.

(** [Elf32_Ehdr] and [Elf64_Ehdr], from [e_type] on: [e_ident] is one field of 16 bytes. *)
Record Ehdr := mkEhdr {
  e_machine : Z; e_phoff : Z; e_shoff : Z; e_phentsize : Z; e_phnum : Z; e_shentsize : Z; e_shnum : Z;
  e_shstrndx : Z
}.
Definition ehdr_widths (A : addr_type) : list nat :=
  match A with
  | U32 => [16; 2; 2; 4; 4; 4; 4; 4; 2; 2; 2; 2; 2; 2]
  | U64 => [16; 2; 2; 4; 8; 8; 8; 4; 2; 2; 2; 2; 2; 2]
  end%nat.
Definition ehdr_of (l : list Z) : Ehdr :=
  mkEhdr (fld 2 l) (fld 5 l) (fld 6 l) (fld 9 l) (fld 10 l) (fld 11 l) (fld 12 l) (fld 13 l).
Definition read_ehdr (A : addr_type) (m : Memory) (a : Z) : option Ehdr := ehdr_of <$> read_struct (ehdr_widths A) m a.

Record Phdr := mkPhdr { p_type : Z; p_flags : Z; p_offset : Z; p_vaddr : Z; p_filesz : Z; p_memsz : Z }.
Definition phdr_widths (A : addr_type) : list nat :=
  match A with U32 => [4; 4; 4; 4; 4; 4; 4; 4] | U64 => [4; 4; 8; 8; 8; 8; 8; 8] end%nat.
Definition phdr_of (A : addr_type) (l : list Z) : Phdr :=
  match A with
  | U32 => mkPhdr (fld 0 l) (fld 6 l) (fld 1 l) (fld 2 l) (fld 4 l) (fld 5 l)
  | U64 => mkPhdr (fld 0 l) (fld 1 l) (fld 2 l) (fld 3 l) (fld 5 l) (fld 6 l)
  end.
Definition read_phdr (A : addr_type) (m : Memory) (a : Z) : option Phdr := phdr_of A <$> read_struct (phdr_widths A) m a.

Record Shdr := mkShdr {
  sh_name : Z; sh_type : Z; sh_addr : Z; sh_offset : Z; sh_size : Z; sh_link : Z; sh_entsize : Z
}.
Definition shdr_widths (A : addr_type) : list nat :=
  match A with U32 => [4; 4; 4; 4; 4; 4; 4; 4; 4; 4] | U64 => [4; 4; 8; 8; 8; 8; 4; 4; 8; 8] end%nat.
Definition shdr_of (l : list Z) : Shdr :=
  mkShdr (fld 0 l) (fld 1 l) (fld 3 l) (fld 4 l) (fld 5 l) (fld 6 l) (fld 9 l).
Definition read_shdr (A : addr_type) (m : Memory) (a : Z) : option Shdr := shdr_of <$> read_struct (shdr_widths A) m a.

Record Sym := mkSym { st_name : Z; st_value : Z; st_size : Z; st_info : Z; st_shndx : Z }.
Definition sym_widths (A : addr_type) : list nat :=
  match A with U32 => [4; 4; 4; 1; 1; 2] | U64 => [4; 1; 1; 2; 8; 8] end%nat.
Definition sym_of (A : addr_type) (l : list Z) : Sym :=
  match A with
  | U32 => mkSym (fld 0 l) (fld 1 l) (fld 2 l) (fld 3 l) (fld 5 l)
  | U64 => mkSym (fld 0 l) (fld 4 l) (fld 5 l) (fld 1 l) (fld 3 l)
  end.
Definition read_sym (A : addr_type) (m : Memory) (a : Z) : option Sym := sym_of A <$> read_struct (sym_widths A) m a.

(** [Elf32_Dyn] and [Elf64_Dyn]: the tag and the value. *)
Definition dyn_widths (A : addr_type) : list nat := match A with U32 => [4; 4] | U64 => [8; 8] end%nat.

(** [Elf32_Nhdr] and [Elf64_Nhdr] *)
Record Nhdr := mkNhdr { n_namesz : Z; n_descsz : Z; n_type : Z }.
Definition nhdr_widths : list nat := [4; 4; 4]%nat.
Definition nhdr_of (l : list Z) : Nhdr := mkNhdr (fld 0 l) (fld 1 l) (fld 2 l).
Definition read_nhdr (m : Memory) (a : Z) : option Nhdr := nhdr_of <$> read_struct nhdr_widths m a.

(** * Constants *)

Definition SELFMAG : Z := 4.
Definition ELFMAG : list byte := [x7f; x45; x4c; x46].
Definition EI_CLASS : Z := 4.
Definition EI_NIDENT : Z := 16.
Definition ELFCLASS32 : Z := 1.
Definition ELFCLASS64 : Z := 2.
Definition PT_LOAD : Z := 1.
Definition PT_DYNAMIC : Z := 2.
Definition PT_GNU_EH_FRAME : Z := 0x6474e550.
Definition PT_ARM_EXIDX : Z := 0x70000001.
Definition PF_X : Z := 1.
Definition SHT_PROGBITS : Z := 1.
Definition SHT_SYMTAB : Z := 2.
Definition SHT_STRTAB : Z := 3.
Definition SHT_NOTE : Z := 7.
Definition SHT_DYNSYM : Z := 11.
Definition SHN_UNDEF : Z := 0.
Definition STT_OBJECT : Z := 1.
Definition STT_FUNC : Z := 2.
Definition STB_GLOBAL : Z := 1.
Definition DT_NULL : Z := 0.
Definition DT_STRTAB : Z := 5.
Definition DT_STRSZ : Z := 10.
Definition DT_SONAME : Z := 14.
Definition NT_GNU_BUILD_ID : Z := 3.

(** [ELF32_ST_TYPE] and [ELF32_ST_BIND] of an [unsigned char] *)
Definition ST_TYPE (info : Z) : Z := Z.land info 0xf.
Definition ST_BIND (info : Z) : Z := Z.shiftr info 4.

(** * Reading what was encoded *)

Lemma decode_encode_fields ws vs rest :
  Forall2 (fun w v => in_u (8 * Z.of_nat w) v) ws vs -> decode_fields ws (encode_fields ws vs ++ rest) = vs.
Proof.
  intros Hf. revert rest. induction Hf as [|w v ws vs Hv _ IH]; intros rest; [done|].
  cbn [encode_fields decode_fields]. rewrite <- app_assoc.
  rewrite take_app_length', drop_app_length', IH by by rewrite le_bytes_length.
  rewrite le_val_bytes. by rewrite Z.mod_small.
Qed.

Lemma len_encode_fields ws vs : length ws = length vs -> len (encode_fields ws vs) = struct_size ws.
Proof.
  unfold len, struct_size. revert vs. induction ws as [|w ws IH]; intros [|v vs] Hl; try done.
  cbn [encode_fields]. rewrite length_app, le_bytes_length. simpl in *. rewrite Nat2Z.inj_add, IH by lia. lia.
Qed.

Lemma read_struct_run ws vs m bm a {Hm : ByteMemory m bm} :
  Forall2 (fun w v => in_u (8 * Z.of_nat w) v) ws vs -> in_u 64 a -> holds bm a (encode_fields ws vs) ->
  read_struct ws m a = Some vs.
Proof.
  intros Hf Ha Hh. unfold read_struct. rewrite <- (len_encode_fields ws vs) by by eapply Forall2_length.
  rewrite (ReadFully_holds bm a _ Ha Hh). cbn [fmap option_fmap option_map].
  rewrite <- (app_nil_r (encode_fields ws vs)). by rewrite decode_encode_fields.
Qed.
