(* ===== verification/Symbols.v ===== *)
(** [Symbols.cpp] and [Symbols.h]: the symbol table of an ELF object, with its cache of functions. *)
From Stdlib Require Import ZArith Lia Bool Strings.Byte.
From stdpp Require Import base numbers list sorting.
From S2P Require Import Prelude Memory ElfTypes.
#[local] Open Scope Z_scope.

(** * The class *)

Record Info := mkInfo { start_offset : Z; end_offset : Z; info_str_offset : Z }.

#[export] Instance Info_eq_dec : EqDecision Info.
Proof. solve_decision. Defined.

Record Symbols := mkSymbols {
  cur_offset_ : Z;
  sym_offset_ : Z;
  end_ : Z;
  entry_size_ : Z;
  str_offset_ : Z;
  str_end_ : Z;
  symbols_ : list Info
}.

Definition new_Symbols (offset size entry_size str_offset str_size : Z) : Symbols :=
  mkSymbols offset offset (u64 (offset + size)) entry_size str_offset (u64 (str_offset + str_size)) [].

Definition put_cur (c : Z) (s : Symbols) : Symbols :=
  mkSymbols c (sym_offset_ s) (end_ s) (entry_size_ s) (str_offset_ s) (str_end_ s) (symbols_ s).
Definition put_symbols (l : list Info) (s : Symbols) : Symbols :=
  mkSymbols (cur_offset_ s) (sym_offset_ s) (end_ s) (entry_size_ s) (str_offset_ s) (str_end_ s) l.

Definition ClearCache (s : Symbols) : Symbols := put_cur (sym_offset_ s) (put_symbols [] s).

(** The binary search; the interval shrinks in every iteration. *)
Fixpoint cache_loop (fuel : nat) (l : list Info) (addr first last : Z) : outcome (option Info) :=
  match fuel with
  | O => Fault OutOfFuel
  | S fuel' =>
      if first <? last then
        let current := first + (last - first) / 2 in
        match l !! Z.to_nat current with
        | None => Fault (Undef UbNull)
        | Some info =>
            if addr <? start_offset info then cache_loop fuel' l addr first current
            else if addr <? end_offset info then Done (Some info)
            else cache_loop fuel' l addr (current + 1) last
        end
      else Done None
  end.

Definition GetInfoFromCache (addr : Z) (s : Symbols) : outcome (option Info) :=
  cache_loop (S (length (symbols_ s))) (symbols_ s) addr 0 (Z.of_nat (length (symbols_ s))).

Definition is_function (e : Sym) : bool :=
  negb (st_shndx e =? SHN_UNDEF) && (ST_TYPE (st_info e) =? STT_FUNC).
Definition is_global_object (e : Sym) : bool :=
  negb (st_shndx e =? SHN_UNDEF) && (ST_TYPE (st_info e) =? STT_OBJECT) && (ST_BIND (st_info e) =? STB_GLOBAL).

Section Operations.
(** [SymType], the memory of the object, and [std::sort] with the comparison of the start offsets,
    which leaves the order of equal elements open. *)
Context (A : addr_type) (elf_memory : Memory) (sort : list Info -> list Info).

(** The result of [ReadString] as the code uses it: a name only when [true] is returned. *)
Definition read_name (a max_read : Z) : outcome (option (list byte)) :=
  match ReadString elf_memory a max_read with
  | Done (true, name) => Done (Some name)
  | Done (false, _) => Done None
  | Fault f => Fault f
  end.

(** What the function at the cached or new entry [info] gives for [addr]: the name and the offset in
    the function. *)
Definition named (addr : Z) (info : Info) (name : option (list byte)) : option (list byte * Z) :=
  (fun n => (n, u64 (addr - start_offset info))) <$> name.

(** The loop over the symbols that are not cached yet: whether one was added and the result; [None]
    where the whole function returns [false] because the table cannot be read. *)
Fixpoint name_loop (fuel : nat) (addr : Z) (symbol_added : bool)
    : M Symbols (option (bool * option (list byte * Z))) :=
  match fuel with
  | O => fail OutOfFuel
  | S fuel' =>
      s <- get ;;
      if u64 (cur_offset_ s + entry_size_ s) <=? end_ s then
        match read_sym A elf_memory (cur_offset_ s) with
        | None => modify (put_cur UINT64_MAX) ;; ret None
        | Some entry =>
            modify (put_cur (u64 (cur_offset_ s + entry_size_ s))) ;;
            if is_function entry then
              let start := st_value entry in
              let info := mkInfo start (u64 (start + st_size entry)) (u64 (str_offset_ s + st_name entry)) in
              modify (put_symbols (symbols_ s ++ [info])) ;;
              if (start <=? addr) && (addr <? end_offset info) then
                if info_str_offset info <? str_end_ s then
                  name <- lift (read_name (info_str_offset info) (u64 (str_end_ s - info_str_offset info))) ;;
                  ret (Some (true, named addr info name))
                else ret (Some (true, None))
              else name_loop fuel' addr true
            else name_loop fuel' addr symbol_added
        end
      else ret (Some (symbol_added, None))
  end.

(** [None] is [return false]: the output parameters then hold nothing that a caller uses. *)
Definition GetName (fuel : nat) (addr : Z) : M Symbols (option (list byte * Z)) :=
  s <- get ;;
  cached <- (if negb (Z.of_nat (length (symbols_ s)) =? 0) then lift (GetInfoFromCache addr s) else ret None) ;;
  match cached with
  | Some info =>
      if (start_offset info <=? addr) && (addr <=? end_offset info) then
        name <- lift (read_name (info_str_offset info) (u64 (str_end_ s - info_str_offset info))) ;;
        ret (named addr info name)
      else fail Aborted
  | None =>
      r <- name_loop fuel addr false ;;
      match r with
      | None => ret None
      | Some (symbol_added, result) =>
          (if (symbol_added : bool) then modify (fun s => put_symbols (sort (symbols_ s)) s) else ret tt) ;;
          ret result
      end
  end.

Fixpoint global_loop (fuel : nat) (s : Symbols) (cur_offset : Z) (name : list byte) : outcome (option Z) :=
  match fuel with
  | O => Fault OutOfFuel
  | S fuel' =>
      if u64 (cur_offset + entry_size_ s) <=? end_ s then
        match read_sym A elf_memory cur_offset with
        | None => Done None
        | Some entry =>
            let next := global_loop fuel' s (u64 (cur_offset + entry_size_ s)) name in
            if is_global_object entry then
              let str_offset := u64 (str_offset_ s + st_name entry) in
              if str_offset <? str_end_ s then
                match read_name str_offset (u64 (str_end_ s - str_offset)) with
                | Fault f => Fault f
                | Done (Some symbol) => if decide (symbol = name) then Done (Some (st_value entry)) else next
                | Done None => next
                end
              else next
            else next
        end
      else Done None
  end.

(** [None] is [return false]. *)
Definition GetGlobal (fuel : nat) (s : Symbols) (name : list byte) : outcome (option Z) :=
  global_loop fuel s (sym_offset_ s) name.

End Operations.

(** * The search in the cache *)

(** [x] lies below [y]: it starts below and ends where [y] starts, at the latest. *)
Definition below (x y : Info) : Prop := start_offset x < start_offset y /\ end_offset x <= start_offset y.
Definition same_range (x y : Info) : Prop := start_offset x = start_offset y /\ end_offset x = end_offset y.

Definition info_contains (addr : Z) (x : Info) : Prop := start_offset x <= addr < end_offset x.

(** Functions that do not overlap, unless they are names of the same range. *)
Definition separated (l : list Info) : Prop :=
  forall x y, x ∈ l -> y ∈ l -> below x y \/ below y x \/ same_range x y.

Definition by_start (x y : Info) : Prop := start_offset x <= start_offset y.

(** What [std::sort] promises. *)
Definition sorts (sort : list Info -> list Info) : Prop := forall l, sort l ≡ₚ l /\ StronglySorted by_start (sort l).

Lemma sorted_lookup l i j x y :
  StronglySorted by_start l -> l !! i = Some x -> l !! j = Some y -> (i <= j)%nat -> by_start x y.
Proof.
  intros Hs Hi Hj Hle. destruct (Nat.eq_dec i j) as [<-|]; [rewrite Hi in Hj; injection Hj as <-; unfold by_start; lia|].
  by apply (strongly_sorted_lookup by_start l i j); [..|lia].
Qed.

(** The binary search finds a range that contains the address, when one does. *)
Lemma cache_loop_correct l addr fuel first last :
  StronglySorted by_start l -> separated l -> Forall (fun x => start_offset x <= end_offset x) l ->
  0 <= first -> last <= Z.of_nat (length l) -> (Z.to_nat (last - first) < fuel)%nat ->
  (forall i x, l !! i = Some x -> info_contains addr x -> first <= Z.of_nat i < last) ->
  exists r, cache_loop fuel l addr first last = Done r /\
    match r with
    | Some x => x ∈ l /\ info_contains addr x
    | None => forall x, x ∈ l -> ~ info_contains addr x
    end.
Proof.
  intros Hs Hsep Hwf. revert first last. induction fuel as [|fuel IH]; intros first last Hf Hl Hfuel Hin; [lia|].
  cbn [cache_loop]. destruct (Z.ltb_spec first last).
  2:{ exists None. split; [done|]. intros x Hx Hc. apply list_elem_of_lookup in Hx as [i Hi]. specialize (Hin i x Hi Hc). lia. }
  set (cur := first + (last - first) / 2).
  assert (first <= cur < last) as Hcur by (unfold cur; Z.to_euclidean_division_equations; lia).
  destruct (lookup_lt_is_Some_2 l (Z.to_nat cur)) as [info Hi]; [lia|]. rewrite Hi.
  assert (info ∈ l) as Hel by (by eapply list_elem_of_lookup_2).
  assert (start_offset info <= end_offset info) as Hle by (by apply (proj1 (Forall_forall _ _) Hwf)).
  destruct (Z.ltb_spec addr (start_offset info)) as [Hlt|Hge].
  - apply IH; [done|lia|lia|]. intros i x Hx Hc. specialize (Hin i x Hx Hc).
    destruct (decide (Z.to_nat cur <= i)%nat) as [Hci|]; [|lia].
    pose proof (sorted_lookup l _ _ _ _ Hs Hi Hx Hci) as Hb. unfold by_start, info_contains in *. lia.
  - destruct (Z.ltb_spec addr (end_offset info)).
    { exists (Some info). split; [done|]. by split. }
    apply IH; [lia|done|lia|]. intros i x Hx Hc. specialize (Hin i x Hx Hc).
    destruct (decide (i <= Z.to_nat cur)%nat) as [Hci|]; [|lia].
    pose proof (sorted_lookup l _ _ _ _ Hs Hx Hi Hci) as Hb.
    destruct (Hsep x info) as [[? ?]|[[? ?]|[? ?]]]; [by eapply list_elem_of_lookup_2|done|..];
      unfold by_start, info_contains in *; lia.
Qed.

(** * A table of symbols *)

Section Table.
Context (A : addr_type) (m : Memory) (sort : list Info -> list Info) (Hsort : sorts sort).
(** The entries of the table, and the object as it was constructed. *)
Context (tab : list Sym) (s0 : Symbols).

Definition info_of (e : Sym) : Info :=
  mkInfo (st_value e) (st_value e + st_size e) (str_offset_ s0 + st_name e).

(** The functions of the first [k] entries. *)
Definition functions (k : nat) : list Info := info_of <$> filter (fun e => is_function e = true) (take k tab).

(** The table is where the constructor was told. *)
Record table_at : Prop := {
  tab_entry : 0 < entry_size_ s0;
  tab_start : 0 <= sym_offset_ s0;
  tab_end : sym_offset_ s0 + entry_size_ s0 * Z.of_nat (length tab) = end_ s0;
  tab_fits : end_ s0 + entry_size_ s0 < 2 ^ 64;
  tab_read : forall i e, tab !! i = Some e -> read_sym A m (sym_offset_ s0 + entry_size_ s0 * Z.of_nat i) = Some e;
  tab_strings : in_u 64 (str_end_ s0)
}.

(** Its functions are ranges of addresses that do not overlap, with a name in the string table. *)
Record table_ok : Prop := {
  tab_at :> table_at;
  tab_func : forall e, e ∈ tab -> is_function e = true ->
    0 <= st_value e /\ 0 <= st_size e /\ st_value e + st_size e < 2 ^ 64 /\
    0 <= str_offset_ s0 + st_name e < str_end_ s0;
  tab_separated : separated (functions (length tab))
}.
Context (Htab : table_ok).

(** The first [k] entries are cached. *)
Definition cached (k : nat) (s : Symbols) : Prop :=
  (k <= length tab)%nat /\ symbols_ s ≡ₚ functions k /\ StronglySorted by_start (symbols_ s) /\
  s = put_cur (sym_offset_ s0 + entry_size_ s0 * Z.of_nat k) (put_symbols (symbols_ s) s0).

(** The name of a function symbol that contains the address, with the offset in the function. *)
Definition resolves (addr : Z) (r : option (list byte * Z)) : Prop :=
  (exists e name, e ∈ tab /\ is_function e = true /\ info_contains addr (info_of e) /\
     read_name m (str_offset_ s0 + st_name e) (str_end_ s0 - (str_offset_ s0 + st_name e)) = Done name /\
     r = (fun n => (n, addr - st_value e)) <$> name) \/
  (r = None /\ forall e, e ∈ tab -> is_function e = true -> ~ info_contains addr (info_of e)).

Lemma functions_all k : functions k ⊆ functions (length tab).
Proof.
  unfold functions. rewrite (take_ge tab (length tab)) by done. intros x. rewrite !list_elem_of_fmap.
  intros (e & -> & He). exists e. split; [done|]. apply list_elem_of_filter in He as [? He].
  apply list_elem_of_filter. split; [done|]. by eapply subseteq_take.
Qed.

Lemma functions_S k e : tab !! k = Some e ->
  functions (S k) = functions k ++ (if is_function e then [info_of e] else []).
Proof.
  intros He. unfold functions. rewrite (take_S_r tab k e) by done. rewrite filter_app, fmap_app. f_equal.
  rewrite filter_cons. destruct (is_function e); reflexivity.
Qed.

Lemma in_functions k x : x ∈ functions k -> exists e, x = info_of e /\ e ∈ tab /\ is_function e = true.
Proof.
  intros Hx. unfold functions in Hx. apply list_elem_of_fmap in Hx as (e & -> & He).
  apply list_elem_of_filter in He as [? He]. exists e. split_and!; [done| |done]. by eapply subseteq_take.
Qed.

Lemma read_name_ends a mx : in_u 64 mx -> exists name, read_name m a mx = Done name.
Proof. intros Hmx. unfold read_name. destruct (ReadString_ends m a mx Hmx) as [[[] ?] ->]; eauto. Qed.

(** Reading the name of a function of the table that contains the address. *)
Lemma name_found e addr :
  e ∈ tab -> is_function e = true -> info_contains addr (info_of e) ->
  exists name, read_name m (str_offset_ s0 + st_name e) (u64 (str_end_ s0 - (str_offset_ s0 + st_name e))) = Done name /\
    resolves addr (named addr (info_of e) name).
Proof.
  intros He Hf Hc. destruct (tab_func Htab e He Hf) as (? & ? & ? & ?). pose proof (tab_strings Htab) as Hs.
  unfold in_u in Hs. destruct (read_name_ends (str_offset_ s0 + st_name e) (str_end_ s0 - (str_offset_ s0 + st_name e)))
    as [name Hn]; [unfold in_u; lia|].
  rewrite wrap_small by (unfold in_u; lia). exists name. split; [done|]. left. exists e, name. split_and!; try done.
  unfold named, info_contains in *. simpl in *. by rewrite wrap_small by (unfold in_u; lia).
Qed.

(** The state after [k] entries with the functions [l]. *)
Definition at_entry (k : nat) (l : list Info) : Symbols :=
  put_cur (sym_offset_ s0 + entry_size_ s0 * Z.of_nat k) (put_symbols l s0).

Lemma entry_bound k : (k <= length tab)%nat -> 0 <= sym_offset_ s0 + entry_size_ s0 * Z.of_nat k <= end_ s0.
Proof. pose proof (tab_entry Htab). pose proof (tab_start Htab). rewrite <- (tab_end Htab). nia. Qed.

(** One iteration at an entry of the table, and the end of the loop. *)
Lemma name_loop_entry fuel k l e added addr :
  tab !! k = Some e ->
  name_loop A m (S fuel) addr added (at_entry k l) =
    if is_function e then
      let s := at_entry (S k) (l ++ [info_of e]) in
      if (st_value e <=? addr) && (addr <? st_value e + st_size e) then
        (name <- lift (read_name m (str_offset_ s0 + st_name e) (u64 (str_end_ s0 - (str_offset_ s0 + st_name e)))) ;;
         ret (Some (true, named addr (info_of e) name))) s
      else name_loop A m fuel addr true s
    else name_loop A m fuel addr added (at_entry (S k) l).
Proof.
  intros He. pose proof (lookup_lt_Some _ _ _ He) as Hk. pose proof (entry_bound (S k) ltac:(lia)) as Hb.
  pose proof (tab_entry Htab). pose proof (tab_fits Htab). pose proof (entry_bound k ltac:(lia)).
  cbn [name_loop]. unfold bind at 1, get. cbn [at_entry put_cur put_symbols cur_offset_ entry_size_ end_].
  rewrite wrap_small by (unfold in_u; lia).
  destruct (Z.leb_spec (sym_offset_ s0 + entry_size_ s0 * Z.of_nat k + entry_size_ s0) (end_ s0)); [|lia].
  rewrite (tab_read Htab k e He).
  replace (sym_offset_ s0 + entry_size_ s0 * Z.of_nat k + entry_size_ s0)
    with (sym_offset_ s0 + entry_size_ s0 * Z.of_nat (S k)) by lia.
  unfold bind at 1, modify. destruct (is_function e) eqn:Hf; [|done].
  destruct (tab_func Htab e (list_elem_of_lookup_2 _ _ _ He) Hf) as (? & ? & ? & ?).
  pose proof (tab_strings Htab) as Hs. unfold in_u in Hs.
  cbn [at_entry put_cur put_symbols str_offset_ str_end_ symbols_].
  rewrite (wrap_small 64 (st_value e + st_size e)), (wrap_small 64 (str_offset_ s0 + st_name e)) by (unfold in_u; lia).
  unfold bind at 1. cbn [at_entry put_cur put_symbols symbols_ end_offset info_str_offset].
  destruct ((st_value e <=? addr) && (addr <? st_value e + st_size e)); [|done].
  destruct (Z.ltb_spec (str_offset_ s0 + st_name e) (str_end_ s0)); [|lia]. done.
Qed.

Lemma name_loop_end fuel l added addr :
  name_loop A m (S fuel) addr added (at_entry (length tab) l) = Done (Some (added, None), at_entry (length tab) l).
Proof.
  pose proof (tab_entry Htab). pose proof (tab_fits Htab). pose proof (tab_end Htab).
  pose proof (entry_bound (length tab) ltac:(lia)).
  cbn [name_loop]. unfold bind at 1, get. cbn [at_entry put_cur put_symbols cur_offset_ entry_size_ end_].
  rewrite wrap_small by (unfold in_u; lia).
  destruct (Z.leb_spec (sym_offset_ s0 + entry_size_ s0 * Z.of_nat (length tab) + entry_size_ s0) (end_ s0)); [lia|].
  done.
Qed.

Definition none_before (addr : Z) (k : nat) : Prop := forall x, x ∈ functions k -> ~ info_contains addr x.

Lemma name_loop_run fuel k l added addr :
  (k <= length tab)%nat -> (length tab - k < fuel)%nat -> l ≡ₚ functions k -> none_before addr k ->
  exists k' l' added' r, name_loop A m fuel addr added (at_entry k l) = Done (Some (added', r), at_entry k' l') /\
    (k' <= length tab)%nat /\ l' ≡ₚ functions k' /\ resolves addr r /\ (added' = false -> l' = l /\ added = false).
Proof.
  revert k l added. induction fuel as [|fuel IH]; intros k l added Hk Hfuel Hl Hn; [lia|].
  destruct (tab !! k) as [e|] eqn:He.
  2:{ apply lookup_ge_None in He. replace k with (length tab) in * by lia. rewrite name_loop_end.
      exists (length tab), l, added, None. split_and!; [done..| |done]. right. split; [done|].
      intros e He' Hf. apply Hn. unfold functions. rewrite take_ge by done. apply list_elem_of_fmap_2, list_elem_of_filter. done. }
  pose proof (lookup_lt_Some _ _ _ He) as Hlt. rewrite (name_loop_entry _ _ _ e) by done.
  pose proof (functions_S k e He) as HS. destruct (is_function e) eqn:Hf.
  2:{ rewrite app_nil_r in HS. apply IH; [lia|lia|by rewrite HS|]. unfold none_before. by rewrite HS. }
  assert (l ++ [info_of e] ≡ₚ functions (S k)) as Hl' by (by rewrite HS, Hl).
  cbn zeta. destruct ((st_value e <=? addr) && (addr <? st_value e + st_size e)) eqn:Hc.
  - destruct (name_found e addr) as (name & Hname & Hr); [by eapply list_elem_of_lookup_2|done|unfold info_contains; simpl; lia|].
    unfold bind, lift. rewrite Hname. exists (S k), (l ++ [info_of e]), true, (named addr (info_of e) name). done.
  - destruct (IH (S k) (l ++ [info_of e]) true) as (k' & l' & a' & r & ? & ? & ? & ? & Ha); [lia|lia|done| |].
    { intros x. rewrite HS, elem_of_app, list_elem_of_singleton. intros [Hx| ->]; [by apply Hn|].
      unfold info_contains. simpl. lia. }
    exists k', l', a', r. split_and!; try done. intros Ha0. by destruct (Ha Ha0).
Qed.

(** [GetName] from a state in which the first entries are cached. *)
Lemma GetName_cached fuel k s addr :
  cached k s -> (length tab < fuel)%nat ->
  exists k' s' r, GetName A m sort fuel addr s = Done (r, s') /\ cached k' s' /\ resolves addr r.
Proof.
  intros (Hk & Hp & Hs & Hst) Hfuel. set (l := symbols_ s) in *. fold (at_entry k l) in Hst. clearbody l. subst s.
  assert (separated l) as Hsep.
  { intros x y. rewrite Hp. intros Hx Hy. apply (tab_separated Htab); by eapply functions_all. }
  assert (Forall (fun x => start_offset x <= end_offset x) l) as Hwf.
  { apply Forall_forall. intros x Hx. rewrite Hp in Hx. destruct (in_functions k x Hx) as (e & -> & He & Hf).
    destruct (tab_func Htab e He Hf) as (? & ? & ?). simpl. lia. }
  destruct (cache_loop_correct l addr (S (length l)) 0 (Z.of_nat (length l)) Hs Hsep Hwf) as (r & Hr & Hspec);
    [lia|lia|lia| |].
  { intros i x Hx _. apply lookup_lt_Some in Hx. lia. }
  assert (exists c, (if negb (Z.of_nat (length l) =? 0) then lift (GetInfoFromCache addr (at_entry k l)) else ret None)
            (at_entry k l) = Done (c, at_entry k l) /\ c = r) as (c & Hc & ->).
  { unfold GetInfoFromCache. cbn [at_entry put_cur put_symbols symbols_]. rewrite Hr.
    destruct (Z.eqb_spec (Z.of_nat (length l)) 0) as [E|E]; simpl; [|eauto].
    destruct l; [|simpl in E; lia]. simpl in Hr. exists None. by inversion Hr. }
  unfold GetName. unfold bind at 1, get. unfold bind at 1. change (symbols_ (at_entry k l)) with l. rewrite Hc.
  destruct r as [x|].
  - destruct Hspec as [Hx Hcx]. rewrite Hp in Hx. destruct (in_functions k x Hx) as (e & -> & He & Hf).
    destruct (name_found e addr He Hf Hcx) as (name & Hn & Hres).
    assert ((start_offset (info_of e) <=? addr) && (addr <=? end_offset (info_of e)) = true) as ->.
    { unfold info_contains in Hcx. lia. }
    unfold bind, lift. cbn [at_entry put_cur put_symbols str_end_ info_str_offset info_of]. rewrite Hn.
    eexists k, _, _. by split_and!.
  - destruct (name_loop_run fuel k l false addr) as (k' & l' & added & r & Hrun & Hk' & Hl' & Hres & Hsame);
      [done|lia|done|intros x Hx; apply Hspec; by rewrite Hp|].
    unfold bind at 1. rewrite Hrun. destruct added.
    + destruct (Hsort l') as [Hperm Hsorted]. eexists k', (at_entry k' (sort l')), r. split_and!; [done| |done].
      by split_and!; [|rewrite <- Hl'| |].
    + destruct (Hsame eq_refl) as [-> _]. eexists k', _, r. split_and!; [done| |done]. by split_and!.
Qed.

Lemma ClearCache_cached k s : cached k s -> cached 0 (ClearCache s).
Proof.
  intros (_ & _ & _ & ->). split_and!; [lia|done|constructor|].
  unfold ClearCache, put_cur, put_symbols. simpl. by rewrite Z.mul_0_r, Z.add_0_r.
Qed.
End Table.

(** * Global variables *)

Section Globals.
Context (A : addr_type) (m : Memory) (tab : list Sym) (s0 : Symbols) (Hat : table_at A m tab s0).

(** The name under which an entry can be found. *)
Definition global_name (e : Sym) : option (list byte) :=
  let str_offset := u64 (str_offset_ s0 + st_name e) in
  if is_global_object e && (str_offset <? str_end_ s0) then
    match read_name m str_offset (str_end_ s0 - str_offset) with Done name => name | Fault _ => None end
  else None.

Definition global_value (name : list byte) (l : list Sym) : option Z :=
  st_value <$> head (filter (fun e => global_name e = Some name) l).

Lemma global_loop_run fuel k name :
  (k <= length tab)%nat -> (length tab - k < fuel)%nat ->
  global_loop A m fuel s0 (sym_offset_ s0 + entry_size_ s0 * Z.of_nat k) name = Done (global_value name (drop k tab)).
Proof.
  pose proof (tab_entry _ _ _ _ Hat). pose proof (tab_fits _ _ _ _ Hat). pose proof (tab_end _ _ _ _ Hat) as He.
  pose proof (tab_start _ _ _ _ Hat). pose proof (tab_strings _ _ _ _ Hat) as Hs. unfold in_u in Hs.
  revert k. induction fuel as [|fuel IH]; intros k Hk Hfuel; [lia|]. cbn [global_loop].
  rewrite wrap_small by (unfold in_u; nia). destruct (tab !! k) as [e|] eqn:Hl.
  2:{ apply lookup_ge_None in Hl. rewrite drop_ge by done.
      destruct (Z.leb_spec (sym_offset_ s0 + entry_size_ s0 * Z.of_nat k + entry_size_ s0) (end_ s0)); [nia|done]. }
  pose proof (lookup_lt_Some _ _ _ Hl) as Hlt. rewrite (tab_read _ _ _ _ Hat k e Hl).
  destruct (Z.leb_spec (sym_offset_ s0 + entry_size_ s0 * Z.of_nat k + entry_size_ s0) (end_ s0)); [|nia].
  replace (sym_offset_ s0 + entry_size_ s0 * Z.of_nat k + entry_size_ s0)
    with (sym_offset_ s0 + entry_size_ s0 * Z.of_nat (S k)) by lia.
  rewrite (IH (S k)) by lia. rewrite (drop_S tab e k Hl). unfold global_value. rewrite filter_cons.
  destruct (global_name e) as [g|] eqn:Hg; unfold global_name in Hg;
    (destruct (is_global_object e); [|by rewrite decide_False; simplify_eq/=]).
  all: pose proof (wrap_range 64 (str_offset_ s0 + st_name e) ltac:(lia)) as Hw; unfold in_u in Hw.
  all: cbn [andb] in Hg; destruct (Z.ltb_spec (u64 (str_offset_ s0 + st_name e)) (str_end_ s0)); [|by rewrite decide_False; simplify_eq/=].
  all: rewrite (wrap_small 64 (str_end_ s0 - _)) by (unfold in_u; lia).
  all: destruct (read_name_ends m (u64 (str_offset_ s0 + st_name e)) (str_end_ s0 - u64 (str_offset_ s0 + st_name e)))
    as [nm Hn]; [unfold in_u; lia|]; rewrite Hn in Hg |- *; subst nm.
  - destruct (decide (g = name)) as [->|Hne]; [by rewrite decide_True|]. by rewrite decide_False by congruence.
  - by rewrite decide_False.
Qed.
End Globals.

(** * Properties *)

(** A use of the object: the name of an address is asked for, or the cache is cleared. *)
Inductive sym_op : Set := Lookup (addr : Z) | Clear.

Fixpoint run_ops (A : addr_type) (m : Memory) (sort : list Info -> list Info) (fuel : nat) (ops : list sym_op)
    : M Symbols (list (Z * option (list byte * Z))) :=
  match ops with
  | [] => ret []
  | Lookup addr :: ops' =>
      r <- GetName A m sort fuel addr ;; rs <- run_ops A m sort fuel ops' ;; ret ((addr, r) :: rs)
  | Clear :: ops' => modify ClearCache ;; run_ops A m sort fuel ops'
  end.

Definition lookup_addrs (ops : list sym_op) : list Z :=
  omap (fun o => match o with Lookup addr => Some addr | Clear => None end) ops.

Lemma run_ops_cached A m sort tab s0 fuel ops k s :
  sorts sort -> table_ok A m tab s0 -> (length tab < fuel)%nat -> cached tab s0 k s ->
  exists rs s', run_ops A m sort fuel ops s = Done (rs, s') /\ fst <$> rs = lookup_addrs ops /\
    Forall (fun '(addr, r) => resolves m tab s0 addr r) rs.
Proof.
  intros Hsort Htab Hfuel. revert k s. induction ops as [|[addr|] ops IH]; intros k s Hs.
  - exists [], s. by split_and!.
  - destruct (GetName_cached A m sort Hsort tab s0 Htab fuel k s addr Hs Hfuel) as (k' & s' & r & Hr & Hs' & Hres).
    destruct (IH k' s' Hs') as (rs & s'' & Hrs & Haddrs & Hall). exists ((addr, r) :: rs), s''. split_and!.
    + cbn [run_ops]. unfold bind. by rewrite Hr, Hrs.
    + cbn [fmap list_fmap fst]. by rewrite Haddrs.
    + by constructor.
  - destruct (IH 0%nat (ClearCache s) (ClearCache_cached tab s0 k s Hs)) as (rs & s' & Hrs & ?).
    exists rs, s'. by split.
Qed.

(** C17. [GetName] answers every sequence of lookups, with the cache cleared at any point, by the
    symbol table alone: each lookup ends and gives the name and the offset of a function symbol that
    contains the address, or fails when there is none, whatever was cached by the lookups before it
    and however [std::sort] orders symbols of the same range. *)
Theorem symbols_lookups A m sort tab offset size entry_size str_offset str_size fuel ops
  (Hsort : sorts sort) (Htab : table_ok A m tab (new_Symbols offset size entry_size str_offset str_size))
  (Hfuel : (length tab < fuel)%nat) :
  exists rs s', run_ops A m sort fuel ops (new_Symbols offset size entry_size str_offset str_size) = Done (rs, s') /\
    fst <$> rs = lookup_addrs ops /\
    Forall (fun '(addr, r) => resolves m tab (new_Symbols offset size entry_size str_offset str_size) addr r) rs.
Proof.
  apply (run_ops_cached A m sort tab _ fuel ops 0%nat); [done..|]. split_and!; [lia|done|constructor|].
  unfold new_Symbols, put_cur, put_symbols. cbn -[wrap]. by rewrite Z.mul_0_r, Z.add_0_r.
Qed.

(** [GetGlobal] ends and returns the value of the first global object of the table that has the
    name, and fails when there is none. *)
Theorem symbols_get_global A m tab s fuel name
  (Hat : table_at A m tab s) (Hfuel : (length tab < fuel)%nat) :
  GetGlobal A m fuel s name = Done (global_value m s name tab).
Proof.
  unfold GetGlobal. pose proof (global_loop_run A m tab s Hat fuel 0 name) as Hrun.
  rewrite Z.mul_0_r, Z.add_0_r, drop_0 in Hrun. apply Hrun; lia.
Qed.

(** A section header with an entry size of zero makes [GetName] loop for ever: when the first
    symbol does not contain the address, no number of iterations is enough. *)
Theorem symbols_entry_size_zero_diverges A m sort offset size str_offset str_size e addr fuel
  (Hoff : in_u 64 offset) (Hend : offset <= u64 (offset + size)) (Hread : read_sym A m offset = Some e)
  (Hmiss : ~ (st_value e <= addr < u64 (st_value e + st_size e))) :
  GetName A m sort fuel addr (new_Symbols offset size 0 str_offset str_size) = Fault OutOfFuel.
Proof.
  set (s0 := new_Symbols offset size 0 str_offset str_size).
  enough (forall added l, name_loop A m fuel addr added (put_symbols l s0) = Fault OutOfFuel) as Hall.
  { specialize (Hall false []). change (put_symbols [] s0) with s0 in Hall. assert (symbols_ s0 = []) as Hnil by done.
    clearbody s0. unfold GetName, bind, get. rewrite Hnil. simpl. by rewrite Hall. }
  induction fuel as [|fuel IH]; intros added l; [done|]. cbn [name_loop]. unfold bind at 1, get.
  cbn [put_symbols cur_offset_ entry_size_ end_ s0 new_Symbols]. rewrite Z.add_0_r, wrap_small by done.
  destruct (Z.leb_spec offset (u64 (offset + size))); [|lia]. rewrite Hread. unfold bind at 1, modify.
  destruct (is_function e); [|apply (IH added l)]. unfold bind at 1. cbn [start_offset end_offset].
  destruct ((st_value e <=? addr) && (addr <? u64 (st_value e + st_size e))) eqn:Hc; [lia|]. apply IH.
Qed.

(** * Witnesses *)

(** The functions [f] at 16 to 32 and [g] at 32 to 40 and the global object [v], in this order, as
    [Elf32_Sym]; the string table follows them at 48. *)
Definition example_syms : list Sym := [mkSym 1 16 16 2 1; mkSym 3 32 8 2 1; mkSym 5 64 4 0x11 1].
Definition example_symtab : list byte :=
  flat_map (encode_fields (sym_widths U32)) [[1; 16; 16; 2; 0; 1]; [3; 32; 8; 2; 0; 1]; [5; 64; 4; 0x11; 0; 1]] ++
  [x00; x66; x00; x67; x00; x76; x00].
Definition example_sym_memory : Memory := MemoryBuffer.memory (MemoryBuffer.mk example_symtab).
Definition example_symbols : Symbols := new_Symbols 0 48 16 48 16.

#[local] Instance by_start_dec : RelDecision by_start.
Proof. intros x y. unfold by_start. apply _. Defined.
Definition example_sort : list Info -> list Info := merge_sort by_start.

#[local] Instance by_start_total : Total by_start.
Proof. intros x y. unfold by_start. lia. Qed.
#[local] Instance by_start_trans : Transitive by_start.
Proof. intros x y z. unfold by_start. lia. Qed.

Lemma example_sorts : sorts example_sort.
Proof. intros l. split; [apply merge_sort_Permutation|]. apply (StronglySorted_merge_sort by_start). Qed.

Lemma example_table_at : table_at U32 example_sym_memory example_syms example_symbols.
Proof.
  split; [done|reflexivity|reflexivity|reflexivity| |by compute].
  intros i e He. do 3 (destruct i as [|i]; [by inversion He|]). done.
Qed.

Lemma example_table_ok : table_ok U32 example_sym_memory example_syms example_symbols.
Proof.
  split; [exact example_table_at| |].
  - change (str_end_ example_symbols) with 64. change (str_offset_ example_symbols) with 48.
    intros e He _. unfold example_syms in He. rewrite !elem_of_cons in He.
    destruct He as [->|[->|[->|He]]]; [simpl; lia..|]. by apply elem_of_nil in He.
  - intros x y. change (functions example_syms example_symbols (length example_syms)) with [mkInfo 16 32 49; mkInfo 32 40 51].
    unfold below, same_range. rewrite !elem_of_cons, !elem_of_nil. intros [->|[->|[]]] [->|[->|[]]]; simpl; lia.
Qed.

Lemma symbols_lookups_witness :
  run_ops U32 example_sym_memory example_sort 4 [Lookup 33; Lookup 20; Lookup 50; Clear; Lookup 20] example_symbols =
    Done ([(33, Some ([x67], 1)); (20, Some ([x66], 4)); (50, None); (20, Some ([x66], 4))],
          mkSymbols 16 0 48 16 48 64 [mkInfo 16 32 49]) /\
  (exists rs s', run_ops U32 example_sym_memory example_sort 4 [Lookup 33; Lookup 20; Lookup 50; Clear; Lookup 20] example_symbols =
      Done (rs, s') /\ fst <$> rs = [33; 20; 50; 20] /\
    Forall (fun '(addr, r) => resolves example_sym_memory example_syms example_symbols addr r) rs).
Proof.
  split; [vm_compute; reflexivity|].
  apply (symbols_lookups U32 example_sym_memory example_sort example_syms 0 48 16 48 16 4
           [Lookup 33; Lookup 20; Lookup 50; Clear; Lookup 20]).
  - exact example_sorts.
  - exact example_table_ok.
  - simpl. lia.
Defined.

Lemma symbols_get_global_witness :
  GetGlobal U32 example_sym_memory 4 example_symbols [x76] = Done (Some 64) /\
  GetGlobal U32 example_sym_memory 4 example_symbols [x76] =
    Done (global_value example_sym_memory example_symbols [x76] example_syms).
Proof.
  split; [vm_compute; reflexivity|].
  apply (symbols_get_global U32 example_sym_memory example_syms example_symbols 4 [x76]).
  - exact example_table_at.
  - simpl. lia.
Defined.

Lemma symbols_entry_size_zero_diverges_witness :
  GetName U32 example_sym_memory example_sort 100 40 (new_Symbols 0 48 0 48 16) = Fault OutOfFuel.
Proof.
  apply (symbols_entry_size_zero_diverges U32 example_sym_memory example_sort 0 48 48 16 (mkSym 1 16 16 2 1) 40 100).
  - by compute.
  - by compute.
  - reflexivity.
  - vm_compute. intros [_ H]. discriminate H.
Defined.
