(* ===== verification/ArmExidx.v ===== *)
(** [ArmExidx.cpp], [ArmExidx.h], [MachineArm.h]: the unwind instructions of the ARM exception tables.

    The record [ArmExidx] holds the members of the class but those for logging, and the methods are those
    of an object with [log_type_ = ARM_LOG_NONE], as an unwind uses it. [ArmExidxLog] has the others, and
    the theorem that they execute the same. *)
From Stdlib Require Import ZArith Lia Bool Strings.Byte.
From stdpp Require Import base numbers list.
From S2P Require Import Prelude Memory Regs.
#[local] Open Scope Z_scope.

(** * Data *)

Inductive ArmStatus : Set :=
| ARM_STATUS_NONE | ARM_STATUS_NO_UNWIND | ARM_STATUS_FINISH | ARM_STATUS_RESERVED | ARM_STATUS_SPARE
| ARM_STATUS_TRUNCATED | ARM_STATUS_READ_FAILED | ARM_STATUS_MALFORMED | ARM_STATUS_INVALID_ALIGNMENT
| ARM_STATUS_INVALID_PERSONALITY.

#[export] Instance ArmStatus_eq_dec : EqDecision ArmStatus.
Proof. solve_decision. Defined.

Definition ARM_OP_FINISH : Z := 0xb0.

Definition ARM_REG_SP : Z := 13.
Definition ARM_REG_LR : Z := 14.
Definition ARM_REG_PC : Z := 15.
Definition ARM_REG_LAST : Z := 16.

(** [RegsArm()] *)
Definition new_regs_arm : Regs := new_regs ARM_REG_LAST ARM_REG_PC ARM_REG_SP.

Record ArmExidx := mkArm {
  arm_regs : Regs;
  cfa_ : Z;
  data_ : list Z;
  status_ : ArmStatus;
  status_address_ : Z;
  elf_memory_ : Memory;
  process_memory_ : Memory;
  pc_set_ : bool
}.

Definition new_ArmExidx (regs : Regs) (elf_memory process_memory : Memory) : ArmExidx :=
  mkArm regs 0 [] ARM_STATUS_NONE 0 elf_memory process_memory false.

Definition put_arm_regs (r : Regs) (s : ArmExidx) : ArmExidx :=
  mkArm r (cfa_ s) (data_ s) (status_ s) (status_address_ s) (elf_memory_ s) (process_memory_ s) (pc_set_ s).
Definition put_cfa (c : Z) (s : ArmExidx) : ArmExidx :=
  mkArm (arm_regs s) c (data_ s) (status_ s) (status_address_ s) (elf_memory_ s) (process_memory_ s) (pc_set_ s).
Definition put_data (d : list Z) (s : ArmExidx) : ArmExidx :=
  mkArm (arm_regs s) (cfa_ s) d (status_ s) (status_address_ s) (elf_memory_ s) (process_memory_ s) (pc_set_ s).
Definition put_status (x : ArmStatus) (s : ArmExidx) : ArmExidx :=
  mkArm (arm_regs s) (cfa_ s) (data_ s) x (status_address_ s) (elf_memory_ s) (process_memory_ s) (pc_set_ s).
Definition put_status_address (a : Z) (s : ArmExidx) : ArmExidx :=
  mkArm (arm_regs s) (cfa_ s) (data_ s) (status_ s) a (elf_memory_ s) (process_memory_ s) (pc_set_ s).
Definition put_pc_set (b : bool) (s : ArmExidx) : ArmExidx :=
  mkArm (arm_regs s) (cfa_ s) (data_ s) (status_ s) (status_address_ s) (elf_memory_ s) (process_memory_ s) b.

Abbreviation AX := (M ArmExidx).

(** [status_ = x; return false;], and a failed read at [a]. *)
Definition arm_fail (x : ArmStatus) : AX bool := modify (put_status x) ;; ret false.
Definition arm_read_failed (a : Z) : AX bool :=
  modify (put_status ARM_STATUS_READ_FAILED) ;; modify (put_status_address a) ;; ret false.

Definition push_data (l : list Z) : AX unit := modify (fun s => put_data (data_ s ++ l) s).

(** * The data of an entry *)

(** [(w >> 24) & 0xff], [(w >> 16) & 0xff], [(w >> 8) & 0xff] and [w & 0xff]. *)
Definition byte3 (w : Z) : Z := Z.land (Z.shiftr w 24) 0xff.
Definition byte2 (w : Z) : Z := Z.land (Z.shiftr w 16) 0xff.
Definition byte1 (w : Z) : Z := Z.land (Z.shiftr w 8) 0xff.
Definition byte0 (w : Z) : Z := Z.land w 0xff.

(** [data_.push_back(ARM_OP_FINISH)] unless the last instruction is that. *)
Definition add_finish (last : Z) : AX bool :=
  (if negb (last =? ARM_OP_FINISH) then push_data [ARM_OP_FINISH] else ret tt) ;; ret true.

(** The loop over the [n] words of instructions from [a] on. *)
Fixpoint read_table_words (n : nat) (a : Z) : AX bool :=
  match n with
  | O => ret true
  | S n' =>
      s <- get ;;
      match Read32 (elf_memory_ s) a with
      | None => arm_read_failed a
      | Some w => push_data [byte3 w; byte2 w; byte1 w; byte0 w] ;; read_table_words n' (u32 (a + 4))
      end
  end.

(** The end of [ExtractEntryData], from the test of the number of words on. *)
Definition read_table (num_table_words a : Z) : AX bool :=
  if 5 <? num_table_words then arm_fail ARM_STATUS_MALFORMED
  else
    ok <- read_table_words (Z.to_nat num_table_words) a ;;
    if (ok : bool) then s <- get ;; add_finish (List.last (data_ s) 0) else ret false.

Definition ExtractEntryData (entry_offset : Z) : AX bool :=
  modify (put_data []) ;;
  modify (put_status ARM_STATUS_NONE) ;;
  if negb (Z.land entry_offset 1 =? 0) then arm_fail ARM_STATUS_INVALID_ALIGNMENT
  else
    let a := u32 (entry_offset + 4) in
    s <- get ;;
    match Read32 (elf_memory_ s) a with
    | None => arm_read_failed a
    | Some data =>
        if data =? 1 then arm_fail ARM_STATUS_NO_UNWIND
        else if negb (Z.land data (Z.shiftl 1 31) =? 0) then
          if negb (Z.land (Z.shiftr data 24) 0xf =? 0) then arm_fail ARM_STATUS_INVALID_PERSONALITY
          else push_data [byte2 data; byte1 data; byte0 data] ;; add_finish (byte0 data)
        else
          let signed_data := Z.shiftr (sgn 32 (Z.shiftl data 1)) 1 in
          let a := u32 (a + signed_data) in
          match Read32 (elf_memory_ s) a with
          | None => arm_read_failed a
          | Some data =>
              if negb (Z.land data (Z.shiftl 1 31) =? 0) then
                let index := Z.land (Z.shiftr data 24) 0xf in
                if index =? 0 then
                  push_data [byte2 data] ;; push_data [byte1 data; byte0 data] ;; read_table 0 a
                else if (index =? 1) || (index =? 2) then
                  push_data [byte1 data; byte0 data] ;; read_table (byte2 data) (u32 (a + 4))
                else arm_fail ARM_STATUS_INVALID_PERSONALITY
              else
                let a := u32 (a + 4) in
                match Read32 (elf_memory_ s) a with
                | None => arm_read_failed a
                | Some data =>
                    push_data [byte2 data; byte1 data; byte0 data] ;; read_table (byte3 data) (u32 (a + 4))
                end
          end
    end.

(** * The instructions *)

(** [None] is [return false]. *)
Definition GetByte : AX (option Z) :=
  s <- get ;;
  match data_ s with
  | [] => modify (put_status ARM_STATUS_TRUNCATED) ;; ret None
  | byte :: rest => modify (put_data rest) ;; ret (Some byte)
  end.

(** A byte of an instruction after the first: its absence ends the instruction. *)
Definition next_byte (k : Z -> AX bool) : AX bool :=
  o <- GetByte ;; match o with Some byte => k byte | None => ret false end.

Definition add_cfa (n : Z) : AX unit := modify (fun s => put_cfa (u32 (cfa_ s + n)) s).

(** [process_memory_->Read32(cfa_, &( *regs_)[reg])], and [cfa_ += 4] when it succeeds: a read that
    fails may have changed a part of the register. *)
Definition pop_reg (reg : Z) : AX bool :=
  s <- get ;;
  let bs := Read (process_memory_ s) (cfa_ s) 4 in
  old <- read_reg reg (arm_regs s) ;;
  modify (put_arm_regs (put_reg reg (overlay 4 old bs) (arm_regs s))) ;;
  if len bs =? 4 then add_cfa 4 ;; ret true else arm_read_failed (cfa_ s).

Fixpoint pop_regs (regs : list Z) : AX bool :=
  match regs with
  | [] => ret true
  | reg :: rest => ok <- pop_reg reg ;; if (ok : bool) then pop_regs rest else ret false
  end.

(** The registers from [first] on, [n] of them, whose bit is set in [mask]. *)
Definition masked (mask first n : Z) : list Z :=
  filter (fun reg => negb (Z.land mask (Z.shiftl 1 reg) =? 0) = true) (seqZ first n).

Definition DecodePrefix_10_00 (byte : Z) : AX bool :=
  if negb (Z.shiftr byte 4 =? 0x8) then fail Aborted
  else
    let registers := Z.shiftl (Z.land byte 0xf) 8 in
    next_byte (fun byte =>
      let registers := Z.lor registers byte in
      if registers =? 0 then arm_fail ARM_STATUS_NO_UNWIND
      else
        let registers := u16 (Z.shiftl registers 4) in
        ok <- pop_regs (masked registers 4 12) ;;
        if (ok : bool) then
          (if negb (Z.land registers (Z.shiftl 1 ARM_REG_SP) =? 0) then
             s <- get ;; v <- read_reg ARM_REG_SP (arm_regs s) ;; modify (put_cfa v)
           else ret tt) ;;
          (if negb (Z.land registers (Z.shiftl 1 ARM_REG_PC) =? 0) then modify (put_pc_set true) else ret tt) ;;
          ret true
        else ret false).

Definition DecodePrefix_10_01 (byte : Z) : AX bool :=
  if negb (Z.shiftr byte 4 =? 0x9) then fail Aborted
  else
    let bits := Z.land byte 0xf in
    if (bits =? 13) || (bits =? 15) then arm_fail ARM_STATUS_RESERVED
    else s <- get ;; v <- read_reg bits (arm_regs s) ;; modify (put_cfa v) ;; ret true.

Definition DecodePrefix_10_10 (byte : Z) : AX bool :=
  if negb (Z.shiftr byte 4 =? 0xa) then fail Aborted
  else
    ok <- pop_regs (seqZ 4 (Z.land byte 0x7 + 1)) ;;
    if (ok : bool) then
      if negb (Z.land byte 0x8 =? 0) then pop_reg ARM_REG_LR else ret true
    else ret false.

Definition DecodePrefix_10_11_0000 : AX bool := arm_fail ARM_STATUS_FINISH.

Definition DecodePrefix_10_11_0001 : AX bool :=
  next_byte (fun byte =>
    if byte =? 0 then arm_fail ARM_STATUS_SPARE
    else if negb (Z.shiftr byte 4 =? 0) then arm_fail ARM_STATUS_SPARE
    else pop_regs (masked byte 0 4)).

(** The loop over the ULEB128 bytes, which [next] takes one by one; [byte & 0x7f] is an [int], whose
    shift is undefined when the count or the result does not fit. *)
Fixpoint uleb_loop {T} (next : (Z -> M T bool) -> M T bool) (fuel : nat) (result shift : Z) (k : Z -> M T bool) : M T bool :=
  match fuel with
  | O => fail OutOfFuel
  | S fuel' =>
      next (fun byte =>
        if 32 <=? shift then fail (Undef UbShift)
        else
          let digit := Z.shiftl (Z.land byte 0x7f) shift in
          if 2 ^ 32 <=? digit then fail (Undef UbOverflow)
          else
            let result := Z.lor result digit in
            let shift := u32 (shift + 7) in
            if negb (Z.land byte 0x80 =? 0) then uleb_loop next fuel' result shift k else k result)
  end.

Definition DecodePrefix_10_11_0010 : AX bool :=
  s <- get ;;
  uleb_loop next_byte (S (length (data_ s))) 0 0 (fun result =>
    let result := u32 (Z.shiftl result 2) in add_cfa (u32 (0x204 + result)) ;; ret true).

Definition DecodePrefix_10_11_0011 : AX bool :=
  next_byte (fun byte => add_cfa (Z.land byte 0xf * 8 + 12) ;; ret true).

Definition DecodePrefix_10_11_01nn : AX bool := arm_fail ARM_STATUS_SPARE.

Definition DecodePrefix_10_11_1nnn (byte : Z) : AX bool :=
  if negb (Z.land byte (Z.lnot 0x07) =? 0xb8) then fail Aborted
  else add_cfa (Z.land byte 0x7 * 8 + 12) ;; ret true.

Definition DecodePrefix_10 (byte : Z) : AX bool :=
  if negb (Z.shiftr byte 6 =? 0x2) then fail Aborted
  else
    let n := Z.land (Z.shiftr byte 4) 0x3 in
    if n =? 0 then DecodePrefix_10_00 byte
    else if n =? 1 then DecodePrefix_10_01 byte
    else if n =? 2 then DecodePrefix_10_10 byte
    else
      let m := Z.land byte 0xf in
      if m =? 0 then DecodePrefix_10_11_0000
      else if m =? 1 then DecodePrefix_10_11_0001
      else if m =? 2 then DecodePrefix_10_11_0010
      else if m =? 3 then DecodePrefix_10_11_0011
      else if negb (Z.land byte 0x8 =? 0) then DecodePrefix_10_11_1nnn byte
      else DecodePrefix_10_11_01nn.

(** [__builtin_popcount] of a byte *)
Definition popcount (x : Z) : Z := Z.of_nat (length (masked x 0 8)).

Definition DecodePrefix_11_000 (byte : Z) : AX bool :=
  if negb (Z.land byte (Z.lnot 0x07) =? 0xc0) then fail Aborted
  else
    let bits := Z.land byte 0x7 in
    if bits =? 6 then next_byte (fun byte => add_cfa (Z.land byte 0xf * 8 + 8) ;; ret true)
    else if bits =? 7 then
      next_byte (fun byte =>
        if byte =? 0 then arm_fail ARM_STATUS_SPARE
        else if Z.shiftr byte 4 =? 0 then add_cfa (popcount byte * 4) ;; ret true
        else arm_fail ARM_STATUS_SPARE)
    else add_cfa (Z.land byte 0x7 * 8 + 8) ;; ret true.

Definition DecodePrefix_11_001 (byte : Z) : AX bool :=
  if negb (Z.land byte (Z.lnot 0x07) =? 0xc8) then fail Aborted
  else
    let bits := Z.land byte 0x7 in
    if bits =? 0 then next_byte (fun byte => add_cfa (Z.land byte 0xf * 8 + 8) ;; ret true)
    else if bits =? 1 then next_byte (fun byte => add_cfa (Z.land byte 0xf * 8 + 8) ;; ret true)
    else arm_fail ARM_STATUS_SPARE.

Definition DecodePrefix_11_010 (byte : Z) : AX bool :=
  if negb (Z.land byte (Z.lnot 0x07) =? 0xd0) then fail Aborted
  else add_cfa (Z.land byte 0x7 * 8 + 8) ;; ret true.

Definition DecodePrefix_11 (byte : Z) : AX bool :=
  if negb (Z.shiftr byte 6 =? 0x3) then fail Aborted
  else
    let n := Z.land (Z.shiftr byte 3) 0x7 in
    if n =? 0 then DecodePrefix_11_000 byte
    else if n =? 1 then DecodePrefix_11_001 byte
    else if n =? 2 then DecodePrefix_11_010 byte
    else arm_fail ARM_STATUS_SPARE.

Definition Decode : AX bool :=
  modify (put_status ARM_STATUS_NONE) ;;
  next_byte (fun byte =>
    let n := Z.shiftr byte 6 in
    if n =? 0 then add_cfa (Z.shiftl (Z.land byte 0x3f) 2 + 4) ;; ret true
    else if n =? 1 then add_cfa (- (Z.shiftl (Z.land byte 0x3f) 2 + 4)) ;; ret true
    else if n =? 2 then DecodePrefix_10 byte
    else DecodePrefix_11 byte).

Fixpoint decode_loop (fuel : nat) : AX unit :=
  match fuel with
  | O => fail OutOfFuel
  | S fuel' => ok <- Decode ;; if (ok : bool) then decode_loop fuel' else ret tt
  end.

(** Every instruction consumes a byte. *)
Definition Eval : AX bool :=
  modify (put_pc_set false) ;;
  s <- get ;;
  decode_loop (S (length (data_ s))) ;;
  gets (fun s => bool_decide (status_ s = ARM_STATUS_FINISH)).
