(* ===== verification/ArmExidxEval.v ===== *)
(** Theorems on the ARM unwind instructions ([ArmExidx.cpp]): what each byte does, that [Eval] is safe
    and ends on arbitrary bytes, that it computes what the exception handling ABI for ARM defines,
    and that [ExtractEntryData] finds the instructions of an entry. *)
From Stdlib Require Import ZArith Lia Bool Strings.Byte.
From stdpp Require Import base numbers list.
From S2P Require Import Prelude Memory DwarfMemory Regs ArmExidx.
#[local] Open Scope Z_scope.

(** * The instruction table *)

(** The bodies of the handlers behind their [CHECK]s. *)
Definition pop_mask (high : Z) : AX bool :=
  next_byte (fun byte =>
    let registers := Z.lor high byte in
    if registers =? 0 then arm_fail ARM_STATUS_NO_UNWIND
    else
      let registers := u16 (Z.shiftl registers 4) in
      ok <- pop_regs (masked registers 4 12) ;;
      if (ok : bool) then
        (if negb (Z.land registers (Z.shiftl 1 ARM_REG_SP) =? 0) then
           s <- get ;; v <- read_reg ARM_REG_SP (arm_regs s) ;; modify (put_cfa v)
         else ret tt) ;;
        (if negb (Z.land registers (Z.shiftl 1 ARM_REG_PC) =? 0) then modify (put_pc_set true) else ret tt) ;;
        ret true
      else ret false).

Definition set_vsp (n : Z) : AX bool :=
  if (n =? 13) || (n =? 15) then arm_fail ARM_STATUS_RESERVED
  else s <- get ;; v <- read_reg n (arm_regs s) ;; modify (put_cfa v) ;; ret true.

Definition pop_range (n : Z) (lr : bool) : AX bool :=
  ok <- pop_regs (seqZ 4 (n + 1)) ;;
  if (ok : bool) then if lr then pop_reg ARM_REG_LR else ret true else ret false.

(** A step of the virtual stack pointer, by a fixed amount and by a count in the next byte. *)
Definition move_vsp (n : Z) : AX bool := add_cfa n ;; ret true.
Definition skip_counted (extra : Z) : AX bool :=
  next_byte (fun byte => add_cfa (Z.land byte 0xf * 8 + extra) ;; ret true).
Definition skip_wcgr : AX bool :=
  next_byte (fun byte =>
    if byte =? 0 then arm_fail ARM_STATUS_SPARE
    else if Z.shiftr byte 4 =? 0 then add_cfa (popcount byte * 4) ;; ret true
    else arm_fail ARM_STATUS_SPARE).

(** The meaning of the first byte of an instruction, by ranges. *)
Definition decode_table (byte : Z) : AX bool :=
  if byte <? 0x40 then move_vsp (4 * byte + 4)
  else if byte <? 0x80 then move_vsp (- (4 * (byte - 0x40) + 4))
  else if byte <? 0x90 then pop_mask (Z.shiftl (byte - 0x80) 8)
  else if byte <? 0xa0 then set_vsp (byte - 0x90)
  else if byte <? 0xa8 then pop_range (byte - 0xa0) false
  else if byte <? 0xb0 then pop_range (byte - 0xa8) true
  else if byte =? 0xb0 then arm_fail ARM_STATUS_FINISH
  else if byte =? 0xb1 then DecodePrefix_10_11_0001
  else if byte =? 0xb2 then DecodePrefix_10_11_0010
  else if byte =? 0xb3 then skip_counted 12
  else if byte <? 0xb8 then arm_fail ARM_STATUS_SPARE
  else if byte <? 0xc0 then move_vsp ((byte - 0xb8) * 8 + 12)
  else if byte <? 0xc6 then move_vsp ((byte - 0xc0) * 8 + 8)
  else if byte =? 0xc6 then skip_counted 8
  else if byte =? 0xc7 then skip_wcgr
  else if byte <? 0xca then skip_counted 8
  else if byte <? 0xd0 then arm_fail ARM_STATUS_SPARE
  else if byte <? 0xd8 then move_vsp ((byte - 0xd0) * 8 + 8)
  else arm_fail ARM_STATUS_SPARE.

(** The [switch]es of [Decode], whose [CHECK]s never fail. *)
Definition decode_byte (byte : Z) : AX bool :=
  let n := Z.shiftr byte 6 in
  if n =? 0 then add_cfa (Z.shiftl (Z.land byte 0x3f) 2 + 4) ;; ret true
  else if n =? 1 then add_cfa (- (Z.shiftl (Z.land byte 0x3f) 2 + 4)) ;; ret true
  else if n =? 2 then DecodePrefix_10 byte
  else DecodePrefix_11 byte.

Lemma decode_byte_table byte : 0 <= byte < 256 -> decode_byte byte = decode_table byte.
Proof.
  intros Hb. rewrite <- (Z2Nat.id byte) by lia. assert (Z.to_nat byte < 256)%nat as Hn by lia.
  generalize (Z.to_nat byte), Hn. clear. intros n Hn.
  do 256 (destruct n as [|n]; [reflexivity|]). lia.
Qed.

(** * Safety *)

(** A well-formed object: sixteen registers of 32 bits, a 32-bit virtual stack pointer, bytes of
    instructions, and a memory whose reads return no more than was asked for. *)
Record arm_wf (s : ArmExidx) : Prop := {
  aw_regs : length (regs_ (arm_regs s)) = 16%nat;
  aw_vals : Forall (in_u 32) (regs_ (arm_regs s));
  aw_cfa : in_u 32 (cfa_ s);
  aw_data : Forall (in_u 8) (data_ s);
  aw_mem : forall a, in_u 32 a -> len (Read (process_memory_ s) a 4) <= 4
}.

(** What an instruction keeps: the memories, and that bytes are only consumed. *)
Definition arm_rel (s s' : ArmExidx) : Prop :=
  (length (data_ s') <= length (data_ s))%nat /\ elf_memory_ s' = elf_memory_ s /\
  process_memory_ s' = process_memory_ s.

(** The faults of a ULEB128 operand with more digits than fit. *)
Definition arm_fault (f : fault) : Prop := f = Undef UbShift \/ f = Undef UbOverflow.

Definition preserves {B} (m : AX B) : Prop :=
  forall s, arm_wf s -> wp arm_fault m (fun _ s' => arm_wf s' /\ arm_rel s s') s.

Lemma arm_rel_refl s : arm_rel s s.
Proof. done. Qed.

Lemma arm_rel_trans s1 s2 s3 : arm_rel s1 s2 -> arm_rel s2 s3 -> arm_rel s1 s3.
Proof. intros (H1 & H2 & H3) (H4 & H5 & H6). split; [lia|]. split; congruence. Qed.

Lemma preserves_bind {B C} (m : AX B) (k : B -> AX C) :
  preserves m -> (forall b, preserves (k b)) -> preserves (bind m k).
Proof.
  intros Hm Hk s Hs. rewrite wp_bind. eapply wp_mono; [by apply Hm|done|].
  intros b s1 [Hs1 Hr1]. eapply wp_mono; [by apply Hk|done|]. intros c s2 [Hs2 Hr2].
  split; [done|]. by eapply arm_rel_trans.
Qed.

Lemma preserves_ret {B} (b : B) : preserves (ret b).
Proof. by intros s Hs. Qed.

Lemma preserves_modify f : (forall s, arm_wf s -> arm_wf (f s) /\ arm_rel s (f s)) -> preserves (modify f).
Proof. intros Hf s Hs. by apply Hf. Qed.

Lemma preserves_status x : preserves (modify (put_status x)).
Proof. apply preserves_modify. by intros s []. Qed.

Lemma preserves_fail x : preserves (arm_fail x).
Proof. apply preserves_bind; [apply preserves_status|intros; apply preserves_ret]. Qed.

Lemma preserves_read_failed a : preserves (arm_read_failed a).
Proof.
  apply preserves_bind; [apply preserves_status|]. intros _.
  apply preserves_bind; [|intros; apply preserves_ret]. apply preserves_modify. by intros s [].
Qed.

Lemma arm_wf_cfa s v : arm_wf s -> in_u 32 v -> arm_wf (put_cfa v s).
Proof. by intros [] Hv. Qed.

Lemma preserves_add n : preserves (add_cfa n).
Proof.
  apply preserves_modify. intros s Hs. split; [|done]. apply arm_wf_cfa; [done|]. apply wrap_range. lia.
Qed.

Lemma preserves_move n : preserves (move_vsp n).
Proof. apply preserves_bind; [apply preserves_add|intros; apply preserves_ret]. Qed.

Lemma preserves_if {B} (b : bool) (m1 m2 : AX B) : preserves m1 -> preserves m2 -> preserves (if b then m1 else m2).
Proof. by destruct b. Qed.

(** The byte that was read is gone, whatever follows. *)
Lemma next_byte_run k byte rest s :
  data_ s = byte :: rest -> next_byte k s = k byte (put_data rest s).
Proof. intros Hd. unfold next_byte, GetByte, bind, get, modify, ret. by rewrite Hd. Qed.

Lemma next_byte_truncated k s :
  data_ s = [] -> next_byte k s = Done (false, put_status ARM_STATUS_TRUNCATED s).
Proof. intros Hd. unfold next_byte, GetByte, bind, get, modify, ret. by rewrite Hd. Qed.

Lemma arm_wf_consume s byte rest :
  arm_wf s -> data_ s = byte :: rest -> in_u 8 byte /\ arm_wf (put_data rest s).
Proof. intros [] Hd. rewrite Hd in *. apply Forall_cons in aw_data0 as [Hb Hr]. split; [done|]. by split. Qed.

Lemma preserves_next k : (forall byte, in_u 8 byte -> preserves (k byte)) -> preserves (next_byte k).
Proof.
  intros Hk s Hs. unfold wp. destruct (data_ s) as [|byte rest] eqn:Hd.
  { rewrite (next_byte_truncated k s Hd). by apply preserves_status. }
  rewrite (next_byte_run k byte rest s Hd). destruct (arm_wf_consume s byte rest Hs Hd) as [Hb Hs'].
  pose proof (Hk byte Hb _ Hs') as Hw. eapply wp_mono; [exact Hw|done|].
  intros b s' [Hs'' Hr]. split; [done|]. eapply arm_rel_trans; [|exact Hr]. split; [|done]. rewrite Hd. simpl. lia.
Qed.

(** Registers: every index of an instruction is below 16. *)
Lemma reg_ok s i : arm_wf s -> 0 <= i < 16 -> exists v, reg_at i (arm_regs s) = Some v /\ in_u 32 v.
Proof.
  intros Hs Hi. unfold reg_at. rewrite (proj2 (Z.leb_le _ _)) by lia.
  destruct (lookup_lt_is_Some_2 (regs_ (arm_regs s)) (Z.to_nat i)) as [v Hv]; [rewrite (aw_regs s Hs); lia|].
  exists v. split; [done|]. by eapply Forall_lookup_1, Hv; apply Hs.
Qed.

Lemma overlay_range old bs : len bs <= 4 -> in_u 32 (overlay 4 old bs).
Proof.
  intros Hl. unfold overlay, len in *. eapply in_u_mono; [|apply le_val_range].
  rewrite length_app, length_drop, le_bytes_length. lia.
Qed.

Lemma preserves_put_reg s i v :
  arm_wf s -> in_u 32 v -> arm_wf (put_arm_regs (put_reg i v (arm_regs s)) s).
Proof.
  intros [] Hv. split; try done; cbn [arm_regs put_arm_regs put_reg regs_].
  - by rewrite length_insert.
  - by apply Forall_insert.
Qed.

Lemma preserves_pop_reg reg : 0 <= reg < 16 -> preserves (pop_reg reg).
Proof.
  intros Hr s Hs. unfold pop_reg. destruct (reg_ok s reg Hs Hr) as (old & Hold & _).
  wp_simpl. unfold read_reg. rewrite Hold. wp_simpl.
  set (s1 := put_arm_regs _ s). assert (arm_wf s1) as Hs1.
  { apply preserves_put_reg; [done|]. by apply overlay_range, Hs, Hs. }
  unfold add_cfa, arm_read_failed. case_goal; wp_simpl; (split; [|done]).
  - apply arm_wf_cfa; [done|]. apply wrap_range. lia.
  - by destruct Hs1.
Qed.

Lemma preserves_pop_regs regs : Forall (fun r => 0 <= r < 16) regs -> preserves (pop_regs regs).
Proof.
  induction 1 as [|r regs Hr _ IH]; cbn [pop_regs]; [apply preserves_ret|].
  apply preserves_bind; [by apply preserves_pop_reg|]. intros b. apply preserves_if; [done|apply preserves_ret].
Qed.

Lemma masked_below mask first n : 0 <= first -> first + n <= 16 -> Forall (fun r => 0 <= r < 16) (masked mask first n).
Proof.
  intros H1 H2. apply Forall_forall. intros r Hr. apply list_elem_of_filter in Hr as [_ Hr%elem_of_seqZ]. lia.
Qed.

(** [cfa_ = ( *regs_)[i]] *)
Lemma preserves_cfa_reg {B} i (m : AX B) :
  0 <= i < 16 -> preserves m ->
  preserves (s <- get ;; v <- read_reg i (arm_regs s) ;; modify (put_cfa v) ;; m).
Proof.
  intros Hi Hm s Hs. destruct (reg_ok s i Hs Hi) as (v & Hv & Hr).
  wp_simpl. unfold read_reg. rewrite Hv. wp_simpl. exact (Hm _ (arm_wf_cfa s v Hs Hr)).
Qed.

Lemma preserves_cfa_reg_unit i :
  0 <= i < 16 -> preserves (s <- get ;; v <- read_reg i (arm_regs s) ;; modify (put_cfa v)).
Proof.
  intros Hi s Hs. destruct (reg_ok s i Hs Hi) as (v & Hv & Hr).
  wp_simpl. unfold read_reg. rewrite Hv. wp_simpl. split; [by apply arm_wf_cfa|done].
Qed.

Lemma preserves_pc_set : preserves (modify (put_pc_set true)).
Proof. apply preserves_modify. by intros s []. Qed.

Create HintDb arm.
#[local] Hint Resolve preserves_ret preserves_fail preserves_move preserves_add preserves_pop_reg
  preserves_pc_set preserves_cfa_reg_unit : arm.

Lemma preserves_pop_mask high : preserves (pop_mask high).
Proof.
  apply preserves_next. intros byte _. apply preserves_if; [auto with arm|]. cbv zeta.
  apply preserves_bind; [by apply preserves_pop_regs, masked_below|]. intros b. apply preserves_if; [|auto with arm].
  apply preserves_bind; [apply preserves_if; [by apply preserves_cfa_reg_unit|auto with arm]|]. intros _.
  apply preserves_bind; [apply preserves_if; auto with arm|auto with arm].
Qed.

Lemma preserves_set_vsp n : 0 <= n < 16 -> preserves (set_vsp n).
Proof. intros Hn. apply preserves_if; [auto with arm|]. apply preserves_cfa_reg; auto with arm. Qed.

Lemma preserves_pop_range n lr : 0 <= n < 8 -> preserves (pop_range n lr).
Proof.
  intros Hn. apply preserves_bind.
  - apply preserves_pop_regs, Forall_forall. intros r Hr%elem_of_seqZ. lia.
  - intros b. apply preserves_if; [|auto with arm]. apply preserves_if; [by apply preserves_pop_reg|auto with arm].
Qed.

Lemma preserves_counted extra : preserves (skip_counted extra).
Proof. apply preserves_next. intros. apply preserves_bind; auto with arm. Qed.

Lemma preserves_wcgr : preserves skip_wcgr.
Proof.
  apply preserves_next. intros. repeat apply preserves_if; auto with arm. apply preserves_bind; auto with arm.
Qed.

Lemma preserves_uleb fuel result shift k :
  (forall r, preserves (k r)) ->
  forall s, arm_wf s -> (length (data_ s) < fuel)%nat ->
  wp arm_fault (uleb_loop next_byte fuel result shift k) (fun _ s' => arm_wf s' /\ arm_rel s s') s.
Proof.
  intros Hk. revert result shift. induction fuel as [|fuel IH]; intros result shift s Hs Hf; [lia|].
  cbn [uleb_loop]. unfold wp. destruct (data_ s) as [|byte rest] eqn:Hd.
  { rewrite (next_byte_truncated _ s Hd). by apply preserves_status. }
  rewrite (next_byte_run _ byte rest s Hd). destruct (arm_wf_consume s byte rest Hs Hd) as [_ Hs'].
  assert (arm_rel s (put_data rest s)) as Hr by (split; [rewrite Hd; simpl; lia|done]).
  destruct (32 <=? shift); [by left|]. cbv zeta. destruct (2 ^ 32 <=? _); [by right|].
  destruct (negb _).
  - eapply wp_mono; [apply (IH _ _ (put_data rest s) Hs'); simpl in *; lia|done|].
    intros b s' [? ?]. split; [done|]. by eapply arm_rel_trans.
  - eapply wp_mono; [exact (Hk _ _ Hs')|done|]. intros b s' [? ?]. split; [done|]. by eapply arm_rel_trans.
Qed.

Lemma preserves_uleb_vsp : preserves DecodePrefix_10_11_0010.
Proof.
  intros s Hs. unfold DecodePrefix_10_11_0010. rewrite wp_bind, wp_get. apply preserves_uleb; [|done|lia].
  intros r. apply preserves_bind; auto with arm.
Qed.

Lemma preserves_pop_low : preserves DecodePrefix_10_11_0001.
Proof.
  apply preserves_next. intros. repeat apply preserves_if; auto with arm. by apply preserves_pop_regs, masked_below.
Qed.

Lemma preserves_table byte : 0 <= byte < 256 -> preserves (decode_table byte).
Proof.
  intros Hb. unfold decode_table.
  repeat match goal with
  | |- preserves (if byte <? ?c then _ else _) => destruct (Z.ltb_spec byte c)
  | |- preserves (if ?b then _ else _) => destruct b
  end; auto using preserves_pop_mask, preserves_counted, preserves_wcgr, preserves_uleb_vsp, preserves_pop_low with arm.
  - apply preserves_set_vsp. lia.
  - apply preserves_pop_range. lia.
  - apply preserves_pop_range. lia.
Qed.

(** One instruction: the state before its first byte is consumed, and after. *)
Lemma arm_Decode_run s byte rest :
  data_ s = byte :: rest -> 0 <= byte < 256 ->
  Decode s = decode_table byte (put_data rest (put_status ARM_STATUS_NONE s)).
Proof.
  intros Hd Hb. rewrite <- decode_byte_table by done. unfold Decode. unfold bind at 1, modify at 1.
  by rewrite (next_byte_run _ byte rest).
Qed.

Lemma Decode_empty s :
  data_ s = [] -> Decode s = Done (false, put_status ARM_STATUS_TRUNCATED (put_status ARM_STATUS_NONE s)).
Proof. intros Hd. unfold Decode. unfold bind at 1, modify at 1. by rewrite next_byte_truncated. Qed.

Lemma arm_wf_status s x : arm_wf s -> arm_wf (put_status x s).
Proof. by intros []. Qed.

Lemma decode_loop_safe fuel s :
  arm_wf s -> (length (data_ s) < fuel)%nat ->
  wp arm_fault (decode_loop fuel) (fun _ s' => arm_wf s' /\ arm_rel s s') s.
Proof.
  revert s. induction fuel as [|fuel IH]; intros s Hs Hf; [lia|]. cbn [decode_loop]. rewrite wp_bind.
  destruct (data_ s) as [|byte rest] eqn:Hd.
  { rewrite (wp_done _ _ _ _ _ _ (Decode_empty s Hd)). split; [by apply arm_wf_status, arm_wf_status|done]. }
  destruct (arm_wf_consume s byte rest Hs Hd) as [Hb Hs'].
  pose proof (preserves_table byte Hb _ (arm_wf_status _ ARM_STATUS_NONE Hs')) as Hw.
  unfold wp at 1. rewrite (arm_Decode_run s byte rest Hd Hb). eapply wp_mono; [exact Hw|done|].
  intros b s1 [Hs1 Hr1]. rewrite wp_if. assert (arm_rel s s1) as Hr.
  { eapply arm_rel_trans; [|exact Hr1]. split; [|done]. rewrite Hd. simpl. lia. }
  destruct b; [|done]. eapply wp_mono; [apply (IH s1 Hs1); destruct Hr1 as [Hr1 _]; simpl in *; lia|done|].
  intros ? s' [? ?]. split; [done|]. by eapply arm_rel_trans.
Qed.

(** C31. [Eval] is safe and ends on arbitrary instructions: no [CHECK] fails, no register index is out
    of range, every iteration consumes a byte, the registers and the virtual stack pointer stay
    32-bit values, and the result is [true] exactly when a finish instruction was reached. The only
    fault is the shift of a ULEB128 operand of more than 32 bits. *)
Theorem arm_eval_safe s (Hs : arm_wf s) :
  wp arm_fault Eval
    (fun b s' => arm_wf s' /\ elf_memory_ s' = elf_memory_ s /\ process_memory_ s' = process_memory_ s /\
                 (b = true <-> status_ s' = ARM_STATUS_FINISH)) s.
Proof.
  unfold Eval. wp_simpl. assert (arm_wf (put_pc_set false s)) as Hs1 by (by destruct Hs).
  eapply wp_mono; [apply (decode_loop_safe _ _ Hs1); cbn [data_ put_pc_set]; lia|done|].
  intros _ s' [Hs' (_ & H1 & H2)]. rewrite wp_gets. split; [done|]. split; [done|]. split; [done|].
  apply bool_decide_eq_true.
Qed.

(** * The instructions of the ABI *)

(** The unwind instructions, by their effect on the registers and the virtual stack pointer. *)
Inductive arm_instr : Set :=
| VspAdd (n : Z) | VspSub (n : Z)          (* vsp +/- (n << 2) + 4 *)
| PopMask (m : Z)                          (* pop r4 to r15 under a mask of 12 bits *)
| SetVsp (n : Z)                           (* vsp = r[n] *)
| PopRange (n : Z) (lr : bool)             (* pop r4 to r[4 + n], and r14 *)
| PopLow (m : Z)                           (* pop r0 to r3 under a mask of 4 bits *)
| VspAddBig (u : Z)                        (* vsp += 0x204 + (u << 2) *)
| PopFstmfdx (first count : Z) | PopFstmfdx8 (count : Z)
| PopWr10 (count : Z) | PopWr (first count : Z) | PopWcgr (m : Z)
| PopVfp16 (first count : Z) | PopVfp (first count : Z) | PopVfp8 (count : Z).

Definition arm_instr_ok (i : arm_instr) : Prop :=
  match i with
  | VspAdd n | VspSub n => 0 <= n < 64
  | PopMask m => 0 < m < 4096
  | SetVsp n => 0 <= n < 16 /\ n <> 13 /\ n <> 15
  | PopRange n _ => 0 <= n < 8
  | PopLow m | PopWcgr m => 0 < m < 16
  | VspAddBig u => in_u 32 u
  | PopFstmfdx8 n | PopVfp8 n => 0 <= n < 8
  | PopWr10 n => 0 <= n < 6
  | PopFstmfdx first count | PopWr first count | PopVfp16 first count | PopVfp first count =>
      0 <= first < 16 /\ 0 <= count < 16
  end.

Definition encode_arm (i : arm_instr) : list Z :=
  match i with
  | VspAdd n => [n]
  | VspSub n => [0x40 + n]
  | PopMask m => [0x80 + m / 256; m mod 256]
  | SetVsp n => [0x90 + n]
  | PopRange n lr => [(if lr then 0xa8 else 0xa0) + n]
  | PopLow m => [0xb1; m]
  | VspAddBig u => 0xb2 :: map byte_val (uleb_encode 5 u)
  | PopFstmfdx first count => [0xb3; 16 * first + count]
  | PopFstmfdx8 n => [0xb8 + n]
  | PopWr10 n => [0xc0 + n]
  | PopWr first count => [0xc6; 16 * first + count]
  | PopWcgr m => [0xc7; m]
  | PopVfp16 first count => [0xc8; 16 * first + count]
  | PopVfp first count => [0xc9; 16 * first + count]
  | PopVfp8 n => [0xd0 + n]
  end.

(** The state of the virtual machine of the ABI. *)
Record vframe := mkV { vsp : Z; vregs : list Z; vpc : bool }.

(** The registers whose bit is set in a mask, in ascending order. *)
Definition mask_regs (m first n : Z) : list Z :=
  filter (fun r => Z.testbit m (r - first) = true) (seqZ first n).

(** The registers [l] hold the words from [sp] on, and the others what they held. *)
Definition popped (mem : Memory) (sp : Z) (l : list Z) (regs regs' : list Z) : Prop :=
  length regs' = length regs /\
  (forall i r, l !! i = Some r ->
     exists w, Read32 mem (u32 (sp + 4 * Z.of_nat i)) = Some w /\ regs' !! Z.to_nat r = Some w) /\
  (forall n, ~ (Z.of_nat n ∈ l) -> regs' !! n = regs !! n).

Definition at_vsp (n : Z) (f : vframe) : vframe := mkV (u32 n) (vregs f) (vpc f).

(** The words of eight bytes that the instructions for coprocessor registers skip. *)
Definition double_words (n : Z) : Z := 8 * n.

Definition arm_sem (mem : Memory) (i : arm_instr) (f f' : vframe) : Prop :=
  match i with
  | VspAdd n => f' = at_vsp (vsp f + (4 * n + 4)) f
  | VspSub n => f' = at_vsp (vsp f - (4 * n + 4)) f
  | PopMask m =>
      let l := mask_regs m 4 12 in
      exists regs', popped mem (vsp f) l (vregs f) regs' /\
        f' = mkV (if Z.testbit m 9 then nth 13 regs' 0 else u32 (vsp f + 4 * Z.of_nat (length l))) regs'
               (vpc f || Z.testbit m 11)
  | SetVsp n => f' = mkV (nth (Z.to_nat n) (vregs f) 0) (vregs f) (vpc f)
  | PopRange n lr =>
      let l := seqZ 4 (n + 1) ++ (if lr then [14] else []) in
      exists regs', popped mem (vsp f) l (vregs f) regs' /\
        f' = mkV (u32 (vsp f + 4 * Z.of_nat (length l))) regs' (vpc f)
  | PopLow m =>
      let l := mask_regs m 0 4 in
      exists regs', popped mem (vsp f) l (vregs f) regs' /\
        f' = mkV (u32 (vsp f + 4 * Z.of_nat (length l))) regs' (vpc f)
  | VspAddBig u => f' = at_vsp (vsp f + (0x204 + 4 * u)) f
  | PopFstmfdx _ count | PopFstmfdx8 count => f' = at_vsp (vsp f + (double_words (count + 1) + 4)) f
  | PopWr _ count | PopWr10 count | PopVfp16 _ count | PopVfp _ count | PopVfp8 count =>
      f' = at_vsp (vsp f + double_words (count + 1)) f
  | PopWcgr m => f' = at_vsp (vsp f + 4 * Z.of_nat (length (mask_regs m 0 4))) f
  end.

Inductive arm_run (mem : Memory) : list arm_instr -> vframe -> vframe -> Prop :=
| arm_run_nil f : arm_run mem [] f f
| arm_run_cons i l f f1 f' : arm_sem mem i f f1 -> arm_run mem l f1 f' -> arm_run mem (i :: l) f f'.

(** The frame that an object holds, and the object that holds a frame. *)
Definition frame_of (s : ArmExidx) : vframe := mkV (cfa_ s) (regs_ (arm_regs s)) (pc_set_ s).
Definition with_regs (l : list Z) (r : Regs) : Regs := mkRegs (total_regs_ r) l (dex_pc_ r) (pc_reg r) (sp_reg r).
Definition set_frame (f : vframe) (s : ArmExidx) : ArmExidx :=
  put_pc_set (vpc f) (put_cfa (vsp f) (put_arm_regs (with_regs (vregs f) (arm_regs s)) s)).

(** ** The handlers *)

Lemma set_frame_of s : set_frame (frame_of s) s = s.
Proof. by destruct s as [[]]. Qed.

Lemma Read32_run m a w : Read32 m a = Some w -> len (Read m a 4) = 4 /\ w = le_val (Read m a 4).
Proof.
  unfold Read32, ReadFully. destruct (Z.eqb_spec (len (Read m a 4)) 4); [|done]. by intros [= <-].
Qed.

Lemma pop_reg_run s r w :
  arm_wf s -> 0 <= r < 16 -> Read32 (process_memory_ s) (cfa_ s) = Some w ->
  pop_reg r s = Done (true, set_frame (mkV (u32 (cfa_ s + 4)) (<[Z.to_nat r := w]> (regs_ (arm_regs s))) (pc_set_ s)) s).
Proof.
  intros Hs Hr [Hl ->]%Read32_run. destruct (reg_ok s r Hs Hr) as (old & Hold & _).
  unfold pop_reg, read_reg, add_cfa, bind, get, modify. cbv zeta. rewrite Hold. cbn [some_or ret].
  rewrite (proj2 (Z.eqb_eq _ _) Hl). unfold overlay.
  rewrite drop_ge by (rewrite le_bytes_length; unfold len in Hl; simpl; lia). rewrite app_nil_r. by destruct s as [[]].
Qed.

Lemma popped_nil mem sp regs regs' : popped mem sp [] regs regs' -> regs' = regs.
Proof. intros (_ & _ & H). apply list_eq. intros n. apply H. apply not_elem_of_nil. Qed.

Lemma popped_cons mem sp r l regs regs' :
  0 <= r -> (Z.to_nat r < length regs)%nat -> popped mem sp (r :: l) regs regs' ->
  exists w, Read32 mem (u32 sp) = Some w /\ popped mem (u32 (sp + 4)) l (<[Z.to_nat r := w]> regs) regs'.
Proof.
  intros Hr Hlt (Hlen & Hin & Hout). destruct (Hin 0%nat r eq_refl) as (w & Hw & Hr').
  rewrite Z.add_0_r in Hw. exists w. split; [done|]. split; [by rewrite length_insert|]. split.
  - intros i q Hq. destruct (Hin (S i) q Hq) as (v & Hv & Hq'). exists v. split; [|done].
    rewrite <- Hv. f_equal. rewrite wrap_add_l by lia. f_equal. lia.
  - intros n Hn. destruct (decide (n = Z.to_nat r)) as [->|Hne]; [by rewrite list_lookup_insert_eq|].
    rewrite list_lookup_insert_ne by done. apply Hout. intros [Heq|?]%elem_of_cons; [lia|done].
Qed.

Lemma arm_wf_frame s f :
  arm_wf s -> length (vregs f) = 16%nat -> Forall (in_u 32) (vregs f) -> in_u 32 (vsp f) -> arm_wf (set_frame f s).
Proof. by intros []. Qed.

Lemma word_range m a w : Read32 m a = Some w -> in_u 32 w.
Proof. intros [Hl ->]%Read32_run. unfold len in Hl. pose proof (le_val_range (Read m a 4)) as H. by rewrite Hl in H. Qed.

Lemma pop_regs_run l s regs' :
  arm_wf s -> Forall (fun r => 0 <= r < 16) l ->
  popped (process_memory_ s) (cfa_ s) l (regs_ (arm_regs s)) regs' ->
  let s' := set_frame (mkV (u32 (cfa_ s + 4 * Z.of_nat (length l))) regs' (pc_set_ s)) s in
  pop_regs l s = Done (true, s') /\ arm_wf s'.
Proof.
  revert s. induction l as [|r l IH]; intros s Hs Hl Hp.
  - apply popped_nil in Hp as ->. cbn [length Z.of_nat]. rewrite Z.mul_0_r, Z.add_0_r, wrap_small by apply Hs.
    change (mkV _ _ _) with (frame_of s). rewrite set_frame_of. split; [done|exact Hs].
  - apply Forall_cons in Hl as [Hr Hl].
    apply popped_cons in Hp as (w & Hw & Hp); [|lia|rewrite (aw_regs s Hs); lia].
    rewrite wrap_small in Hw by apply Hs. cbn [pop_regs]. unfold bind. rewrite (pop_reg_run s r w Hs Hr Hw).
    set (s1 := set_frame _ s). assert (arm_wf s1) as Hs1.
    { apply arm_wf_frame; [done|cbn; rewrite length_insert; apply Hs| |apply wrap_range; lia].
      apply Forall_insert; [apply Hs|by eapply word_range]. }
    destruct (IH s1 Hs1 Hl Hp) as [Hrun Hwf]. subst s1. cbn [cfa_ set_frame put_pc_set put_cfa vsp] in Hrun, Hwf.
    rewrite wrap_add_l in Hrun, Hwf by lia.
    replace (cfa_ s + 4 * Z.of_nat (length (r :: l))) with (cfa_ s + 4 + 4 * Z.of_nat (length l)) by (simpl length; lia).
    split; [exact Hrun|exact Hwf].
Qed.

(** ** One instruction *)

Lemma masked_mask m first n :
  0 <= first -> masked (Z.shiftl m first) first n = mask_regs m first n.
Proof.
  intros Hf. unfold masked, mask_regs. apply list_filter_iff. intros r. destruct (Z.neg_nonneg_cases r).
  - rewrite (Z.testbit_neg_r m) by lia. replace r with (- - r) by lia. rewrite Z.shiftl_opp_r, Z.shiftr_div_pow2 by lia.
    rewrite Z.div_small; [by rewrite Z.land_0_r|]. split; [lia|]. apply Z.pow_gt_1; lia.
  - rewrite land_bit, negb_involutive by lia. by rewrite Z.shiftl_spec by lia.
Qed.

Lemma mask_registers m : 0 < m < 4096 ->
  Z.lor (Z.shiftl (m / 256) 8) (m mod 256) = m /\ u16 (Z.shiftl m 4) = Z.shiftl m 4.
Proof.
  intros Hm. split.
  - rewrite lor_shiftl_add; [change (2 ^ 8) with 256; pose proof (Z.div_mod m 256); lia|lia|].
    apply Z.mod_pos_bound. lia.
  - apply wrap_small. unfold in_u. rewrite Z.shiftl_mul_pow2 by lia. change (2 ^ 4) with 16. change (2 ^ 16) with 65536. lia.
Qed.

Lemma mask_regs_below m first n : 0 <= first -> first + n <= 16 -> Forall (fun r => 0 <= r < 16) (mask_regs m first n).
Proof.
  intros H1 H2. apply Forall_forall. intros r Hr. apply list_elem_of_filter in Hr as [_ Hr%elem_of_seqZ]. lia.
Qed.

Lemma pop_mask_run s m rest f' :
  arm_wf s -> 0 < m < 4096 -> data_ s = m mod 256 :: rest -> arm_sem (process_memory_ s) (PopMask m) (frame_of s) f' ->
  pop_mask (Z.shiftl (m / 256) 8) s = Done (true, put_data rest (set_frame f' s)).
Proof.
  intros Hs Hm Hd (regs' & Hp & ->). destruct (mask_registers m Hm) as [E1 E2].
  unfold pop_mask. rewrite (next_byte_run _ _ _ _ Hd). cbv zeta. rewrite E1, (proj2 (Z.eqb_neq m 0)), E2 by lia.
  rewrite masked_mask by lia. set (s0 := put_data rest s).
  destruct (arm_wf_consume s _ _ Hs Hd) as [_ Hs0]. fold s0 in Hs0.
  destruct (pop_regs_run _ s0 regs' Hs0 (mask_regs_below m 4 12 ltac:(lia) ltac:(lia)) Hp) as [Hrun Hwf].
  unfold bind at 1. rewrite Hrun. unfold ARM_REG_SP, ARM_REG_PC. rewrite !land_bit, !negb_involutive by lia.
  rewrite !Z.shiftl_spec by lia. change (13 - 4) with 9. change (15 - 4) with 11.
  assert (reg_at 13 (with_regs regs' (arm_regs s0)) = Some (nth 13 regs' 0)) as Hsp.
  { unfold reg_at. cbn [Z.leb Z.compare]. destruct Hp as [Hl _]. cbn [vregs frame_of] in Hl. rewrite (aw_regs s Hs) in Hl.
    change (Z.to_nat 13) with 13%nat. cbn [regs_ with_regs].
    destruct (lookup_lt_is_Some_2 regs' 13) as [v Hv]; [lia|]. rewrite Hv. by rewrite (nth_lookup_Some _ _ _ _ Hv). }
  destruct (Z.testbit m 9), (Z.testbit m 11); unfold read_reg, bind, get, modify, ret;
    cbn [arm_regs set_frame put_pc_set put_cfa put_arm_regs vregs]; rewrite ?Hsp; cbn [some_or ret]; rewrite ?orb_true_r, ?orb_false_r; done.
Qed.

(** The digits of a ULEB128 operand, for whatever object holds the bytes. *)
Section Uleb.
Context {T : Type} (next : (Z -> M T bool) -> M T bool) (bytes : T -> list Z) (consume : list Z -> T -> T).
Hypothesis next_run : forall k byte rest s, bytes s = byte :: rest -> next k s = k byte (consume rest s).
Hypothesis bytes_consume : forall l s, bytes (consume l s) = l.
Hypothesis consume_consume : forall l l' s, consume l (consume l' s) = consume l s.

Lemma uleb_loop_run fuel bs result shift k s rest :
  leb_shape bs -> bytes s = map byte_val bs ++ rest -> (length bs <= fuel)%nat ->
  in_u shift result -> 0 <= shift -> shift + 7 * (len bs - 1) < 32 -> 2 ^ shift * leb_val bs < 2 ^ 32 ->
  uleb_loop next fuel result shift k s = k (result + 2 ^ shift * leb_val bs) (consume rest s).
Proof.
  revert fuel result shift s. induction bs as [|b bs IH]; intros fuel result shift s Hs Hd Hf Hr Hsh Hlen Hval; [done|].
  destruct fuel as [|fuel]; [simpl in Hf; lia|]. cbn [uleb_loop]. rewrite (next_run _ _ _ _ Hd).
  assert (len (b :: bs) = 1 + len bs) as El by (unfold len; simpl length; lia).
  pose proof (len_nonneg bs). rewrite (proj2 (Z.leb_gt 32 shift)) by lia. cbv zeta.
  rewrite land_127, land_128 by apply byte_val_range. cbn [leb_val] in *.
  pose proof (pow2_pos shift Hsh) as Hpow. pose proof (leb_val_range bs) as [Hpos _].
  pose proof (Z.mod_pos_bound (byte_val b) 128 ltac:(lia)) as Hdig.
  rewrite Z.shiftl_mul_pow2 by done.
  assert (byte_val b mod 128 * 2 ^ shift < 2 ^ 32) as Hdv by nia. rewrite (proj2 (Z.leb_gt _ _)) by exact Hdv.
  rewrite <- Z.shiftl_mul_pow2, Z.lor_comm, lor_shiftl_add by done.
  rewrite (wrap_small 32 (shift + 7)) by (unfold in_u; change (2 ^ 32) with 4294967296; lia).
  destruct bs as [|b' bs].
  - rewrite (proj2 (Z.ltb_lt _ _)) by exact Hs. cbn [negb map app leb_val]. f_equal. ring.
  - destruct Hs as [Hb Hs]. rewrite (proj2 (Z.ltb_ge _ _)) by lia. cbn [negb].
    rewrite (IH fuel _ (shift + 7) (consume (map byte_val (b' :: bs) ++ rest) s) Hs (bytes_consume _ _)).
    + rewrite consume_consume, Z.pow_add_r by lia. change (2 ^ 7) with 128. f_equal. ring.
    + simpl in *. lia.
    + unfold in_u in *. rewrite Z.pow_add_r by lia. change (2 ^ 7) with 128. nia.
    + lia.
    + lia.
    + rewrite Z.pow_add_r by lia. change (2 ^ 7) with 128. nia.
Qed.

End Uleb.

Lemma uleb_vsp_run s u rest :
  in_u 32 u -> data_ s = map byte_val (uleb_encode 5 u) ++ rest ->
  DecodePrefix_10_11_0010 s
  = Done (true, put_data rest (set_frame (at_vsp (cfa_ s + (0x204 + 4 * u)) (frame_of s)) s)).
Proof.
  intros Hu Hd. unfold in_u in Hu. destruct (uleb_encode_ok 4 u) as (Hs & Hval & Hl).
  { change (128 ^ Z.of_nat 5) with (2 ^ 35). change (2 ^ 32) with 4294967296 in Hu. change (2 ^ 35) with 34359738368. lia. }
  unfold DecodePrefix_10_11_0010. unfold bind at 1, get.
  rewrite (uleb_loop_run next_byte data_ put_data next_byte_run (fun _ _ => eq_refl) (fun _ _ _ => eq_refl) _ (uleb_encode 5 u) 0 0 _ s rest);
    try done; try lia.
  - rewrite Hval, Z.pow_0_r, Z.mul_1_l, Z.add_0_l. unfold add_cfa, bind, modify, ret. cbv zeta.
    rewrite Z.shiftl_mul_pow2, wrap_add_r by lia. change (2 ^ 2) with 4. rewrite (Z.mul_comm u 4).
    cbn [cfa_ put_data]. rewrite Z.add_assoc, wrap_add_r, <- Z.add_assoc by lia. by destruct s as [[]].
  - rewrite Hd, length_app, length_map. lia.
  - unfold len. lia.
Qed.

Lemma nibble first count : 0 <= first < 16 -> 0 <= count < 16 -> Z.land (16 * first + count) 0xf = count.
Proof. intros. change 0xf with (Z.ones 4). rewrite Z.land_ones by lia. change (2 ^ 4) with 16. rewrite Z.mul_comm, Z.add_comm, Z.mod_add by lia. apply Z.mod_small. lia. Qed.

Lemma move_vsp_run n s : move_vsp n s = Done (true, set_frame (at_vsp (cfa_ s + n) (frame_of s)) s).
Proof. by destruct s as [[]]. Qed.

Lemma skip_counted_run extra first count s rest :
  0 <= first < 16 -> 0 <= count < 16 -> data_ s = 16 * first + count :: rest ->
  skip_counted extra s = Done (true, put_data rest (set_frame (at_vsp (cfa_ s + (8 * count + extra)) (frame_of s)) s)).
Proof.
  intros Hf Hc Hd. unfold skip_counted. rewrite (next_byte_run _ _ _ _ Hd), nibble, (Z.mul_comm count) by done.
  by destruct s as [[]].
Qed.

Lemma mask_regs_byte m : 0 < m < 16 -> popcount m = Z.of_nat (length (mask_regs m 0 4)).
Proof.
  intros Hm. rewrite <- (Z2Nat.id m) by lia. assert (Z.to_nat m < 16)%nat as Hn by lia.
  generalize (Z.to_nat m), Hn. clear. intros n Hn.
  do 16 (destruct n as [|n]; [vm_compute; reflexivity|]). lia.
Qed.

Lemma small_high m : 0 < m < 16 -> (m =? 0) = false /\ Z.shiftr m 4 = 0.
Proof. intros. split; [lia|]. rewrite Z.shiftr_div_pow2 by lia. apply Z.div_small. simpl; lia. Qed.

(** Select the branch of [decode_table] for a byte of a known range. *)
Ltac pick_branch :=
  unfold decode_table;
  repeat match goal with
  | |- context [if Z.ltb ?b ?c then _ else _] => destruct (Z.ltb_spec b c); try lia
  | |- context [if Z.eqb ?b ?c then _ else _] => destruct (Z.eqb_spec b c); try lia
  end.

Lemma pop_range_run s n (lr : bool) rest regs' :
  arm_wf s -> 0 <= n < 8 -> data_ s = rest ->
  popped (process_memory_ s) (cfa_ s) (seqZ 4 (n + 1) ++ (if lr then [14] else [])) (regs_ (arm_regs s)) regs' ->
  decode_table ((if lr then 0xa8 else 0xa0) + n) s
  = Done (true, put_data rest (set_frame (mkV (u32 (cfa_ s + 4 * Z.of_nat (length (seqZ 4 (n + 1) ++ (if lr then [14] else []))))) regs' (pc_set_ s)) s)).
Proof.
  intros Hs Hn <- Hp. set (l := seqZ 4 (n + 1) ++ _) in *.
  assert (Forall (fun r => 0 <= r < 16) l) as Hl.
  { apply Forall_app. split; [apply Forall_forall; intros r Hr%elem_of_seqZ; lia|]. destruct lr; repeat constructor; lia. }
  destruct (pop_regs_run l s regs' Hs Hl Hp) as [Hrun _].
  assert (decode_table ((if lr then 0xa8 else 0xa0) + n) s = pop_regs l s) as ->; [|rewrite Hrun; by destruct s as [[]]].
  assert (decode_table ((if lr then 0xa8 else 0xa0) + n) = pop_range n lr) as ->.
  { destruct lr; pick_branch; f_equal; lia. }
  subst l. unfold pop_range. generalize (seqZ 4 (n + 1)). clear. intros l. revert s.
  induction l as [|r l IH]; intros s; cbn [pop_regs app].
  - unfold bind, ret. destruct lr; cbn [pop_regs]; [|done]. unfold bind, ret, ARM_REG_LR. by destruct (pop_reg 14 s) as [[[] ?]|].
  - unfold bind at 1 2 3. destruct (pop_reg r s) as [[[] s']|]; [|done|done]. rewrite <- IH. done.
Qed.

Lemma pop_low_run s m rest regs' :
  arm_wf s -> 0 < m < 16 -> data_ s = m :: rest ->
  popped (process_memory_ s) (cfa_ s) (mask_regs m 0 4) (regs_ (arm_regs s)) regs' ->
  decode_table 0xb1 s
  = Done (true, put_data rest (set_frame (mkV (u32 (cfa_ s + 4 * Z.of_nat (length (mask_regs m 0 4)))) regs' (pc_set_ s)) s)).
Proof.
  intros Hs Hm Hd Hp. change (decode_table 0xb1) with DecodePrefix_10_11_0001. unfold DecodePrefix_10_11_0001.
  rewrite (next_byte_run _ _ _ _ Hd). destruct (small_high m Hm) as [-> ->]. cbn [Z.eqb negb].
  rewrite <- (Z.shiftl_0_r m) at 1. rewrite masked_mask by lia.
  destruct (arm_wf_consume s _ _ Hs Hd) as [_ Hs0].
  destruct (pop_regs_run _ (put_data rest s) regs' Hs0 (mask_regs_below m 0 4 ltac:(lia) ltac:(lia)) Hp) as [Hrun _].
  rewrite Hrun. by destruct s as [[]].
Qed.

(** What the handler of an instruction does, after its first byte. *)
Definition decodes (i : arm_instr) (s : ArmExidx) (f' : vframe) : Prop :=
  exists byte bytes, encode_arm i = byte :: bytes /\ 0 <= byte < 256 /\
    forall s0 rest, process_memory_ s0 = process_memory_ s -> frame_of s0 = frame_of s -> arm_wf s0 ->
      data_ s0 = bytes ++ rest -> decode_table byte s0 = Done (true, put_data rest (set_frame f' s0)).

Lemma decodes_move i n s byte :
  encode_arm i = [byte] -> 0 <= byte < 256 -> decode_table byte = move_vsp n -> decodes i s (at_vsp (vsp (frame_of s) + n) (frame_of s)).
Proof.
  intros He Hb Ht. exists byte, []. split; [done|]. split; [done|]. intros s0 rest _ Hf _ Hd.
  rewrite Ht, move_vsp_run, <- Hf. cbn [app] in Hd. rewrite <- Hd. by destruct s0 as [[]].
Qed.

Lemma decodes_counted i extra first count s byte :
  0 <= first < 16 -> 0 <= count < 16 ->
  encode_arm i = [byte; 16 * first + count] -> 0 <= byte < 256 -> decode_table byte = skip_counted extra ->
  decodes i s (at_vsp (vsp (frame_of s) + (8 * count + extra)) (frame_of s)).
Proof.
  intros Hf Hc He Hb Ht. exists byte, [16 * first + count]. split; [done|]. split; [done|]. intros s0 rest _ Hfr _ Hd.
  rewrite Ht, (skip_counted_run _ first count _ rest), <- Hfr by done. done.
Qed.

Lemma decode_instr i s f' :
  arm_wf s -> arm_instr_ok i -> arm_sem (process_memory_ s) i (frame_of s) f' -> decodes i s f'.
Proof.
  intros Hs Hok. destruct i as [n|n|m|n|n lr|m|u|first count|n|n|first count|m|first count|first count|n]; cbn [arm_sem arm_instr_ok] in *; unfold double_words.
  - intros ->. apply decodes_move with n; [done|lia|]. pick_branch. done.
  - intros ->. replace (vsp (frame_of s) - (4 * n + 4)) with (vsp (frame_of s) + - (4 * n + 4)) by lia.
    apply decodes_move with (0x40 + n); [done|lia|]. pick_branch. do 2 f_equal. lia.
  - intros Hf. exists (0x80 + m / 256), [m mod 256]. split; [done|].
    assert (0 <= m / 256 < 16) as Hq by (split; [apply Z.div_pos; lia|apply Z.div_lt_upper_bound; lia]). split; [lia|].
    intros s0 rest Hm Hfr Hwf Hd. pick_branch. replace (0x80 + m / 256 - 0x80) with (m / 256) by lia.
    apply pop_mask_run; [done|lia|done|]. rewrite Hm, Hfr. exact Hf.
  - intros ->. exists (0x90 + n), []. split; [done|]. split; [lia|]. intros s0 rest Hm Hfr Hwf Hd.
    pick_branch. replace (0x90 + n - 0x90) with n by lia. unfold set_vsp.
    rewrite (proj2 (Z.eqb_neq n 13)), (proj2 (Z.eqb_neq n 15)) by lia. cbn [orb].
    destruct (reg_ok s0 n Hwf ltac:(lia)) as (v & Hv & _). unfold read_reg, bind, get, modify, ret. rewrite Hv. cbn [some_or ret].
    unfold reg_at in Hv. rewrite (proj2 (Z.leb_le _ _)) in Hv by lia. rewrite <- Hfr. cbn [vregs frame_of].
    rewrite (nth_lookup_Some _ _ _ _ Hv). cbn [app] in Hd. rewrite <- Hd. by destruct s0 as [[]].
  - intros (regs' & Hp & ->). exists ((if lr then 0xa8 else 0xa0) + n), []. split; [done|]. split; [destruct lr; lia|].
    intros s0 rest Hm Hfr Hwf Hd. rewrite <- Hm, <- Hfr in Hp. rewrite <- Hfr. apply pop_range_run; (done || lia).
  - intros (regs' & Hp & ->). exists 0xb1, [m]. split; [done|]. split; [lia|].
    intros s0 rest Hm Hfr Hwf Hd. rewrite <- Hm, <- Hfr in Hp. rewrite <- Hfr. apply pop_low_run; (done || lia).
  - intros ->. exists 0xb2, (map byte_val (uleb_encode 5 u)). split; [done|]. split; [lia|].
    intros s0 rest Hm Hfr Hwf Hd. change (decode_table 0xb2) with DecodePrefix_10_11_0010. rewrite <- Hfr.
    by apply uleb_vsp_run.
  - intros ->. replace (8 * (count + 1) + 4) with (8 * count + 12) by lia. destruct Hok. by apply (decodes_counted _ 12 first count _ 0xb3).
  - intros ->. apply decodes_move with (0xb8 + n); [done|lia|]. pick_branch. f_equal. lia.
  - intros ->. apply decodes_move with (0xc0 + n); [done|lia|]. pick_branch. f_equal. lia.
  - intros ->. replace (8 * (count + 1)) with (8 * count + 8) by lia. destruct Hok. by apply (decodes_counted _ 8 first count _ 0xc6).
  - intros ->. exists 0xc7, [m]. split; [done|]. split; [lia|]. intros s0 rest Hm Hfr Hwf Hd.
    change (decode_table 0xc7) with skip_wcgr. unfold skip_wcgr. rewrite (next_byte_run _ _ _ _ Hd).
    destruct (small_high m Hok) as [-> ->]. cbn [Z.eqb]. rewrite (mask_regs_byte m Hok), Z.mul_comm, <- Hfr. by destruct s0 as [[]].
  - intros ->. replace (8 * (count + 1)) with (8 * count + 8) by lia. destruct Hok. by apply (decodes_counted _ 8 first count _ 0xc8).
  - intros ->. replace (8 * (count + 1)) with (8 * count + 8) by lia. destruct Hok. by apply (decodes_counted _ 8 first count _ 0xc9).
  - intros ->. apply decodes_move with (0xd0 + n); [done|lia|]. pick_branch. f_equal. lia.
Qed.

Lemma Decode_instr i s rest f' :
  arm_wf s -> arm_instr_ok i -> data_ s = encode_arm i ++ rest ->
  arm_sem (process_memory_ s) i (frame_of s) f' ->
  let s' := put_data rest (set_frame f' (put_status ARM_STATUS_NONE s)) in
  Decode s = Done (true, s') /\ arm_wf s'.
Proof.
  intros Hs Hok Hd Hsem s'. destruct (decode_instr i s f' Hs Hok Hsem) as (byte & bytes & He & Hb & Hrun).
  rewrite He in Hd. cbn [app] in Hd. destruct (arm_wf_consume s _ _ Hs Hd) as [_ Hs1].
  apply (arm_wf_status _ ARM_STATUS_NONE) in Hs1.
  specialize (Hrun (put_status ARM_STATUS_NONE (put_data (bytes ++ rest) s)) rest eq_refl eq_refl Hs1 eq_refl).
  pose proof (preserves_table byte Hb _ Hs1) as Hw. rewrite (wp_done _ _ _ _ _ _ Hrun) in Hw.
  rewrite (arm_Decode_run s byte _ Hd Hb). split; [exact Hrun|exact (proj1 Hw)].
Qed.

Lemma Decode_finish s rest :
  data_ s = ARM_OP_FINISH :: rest ->
  Decode s = Done (false, put_status ARM_STATUS_FINISH (put_data rest (put_status ARM_STATUS_NONE s))).
Proof. intros Hd. by rewrite (arm_Decode_run s _ _ Hd) by (unfold ARM_OP_FINISH; lia). Qed.

(** The object behind a finish instruction, with the bytes [rest] and the frame [f]. *)
Definition finished_at (rest : list Z) (f : vframe) (s : ArmExidx) : ArmExidx :=
  put_data rest (put_status ARM_STATUS_FINISH (set_frame f s)).

Lemma decode_loop_run l fuel s rest f' :
  arm_wf s -> Forall arm_instr_ok l -> data_ s = (l ≫= encode_arm) ++ ARM_OP_FINISH :: rest ->
  (length l < fuel)%nat -> arm_run (process_memory_ s) l (frame_of s) f' ->
  decode_loop fuel s = Done (tt, finished_at rest f' s).
Proof.
  revert fuel s. induction l as [|i l IH]; intros fuel s Hs Hok Hd Hf Hrun; (destruct fuel as [|fuel]; [simpl in Hf; lia|]);
    cbn [decode_loop]; unfold bind at 1.
  - inversion Hrun; subst. rewrite (Decode_finish s rest Hd). by destruct s as [[]].
  - inversion Hrun; subst. apply Forall_cons in Hok as [Hi Hok]. rewrite bind_cons, <- app_assoc in Hd.
    destruct (Decode_instr i s _ f1 Hs Hi Hd ltac:(done)) as [-> Hwf].
    rewrite (IH fuel _ Hwf Hok) by (done || (simpl in Hf; lia) || by destruct f1). by destruct s as [[]].
Qed.

Lemma Eval_run l s rest f' :
  arm_wf s -> Forall arm_instr_ok l -> data_ s = (l ≫= encode_arm) ++ ARM_OP_FINISH :: rest ->
  arm_run (process_memory_ s) l (mkV (cfa_ s) (regs_ (arm_regs s)) false) f' ->
  Eval s = Done (true, finished_at rest f' s).
Proof.
  intros Hs Hok Hd Hrun. unfold Eval. unfold bind at 1, modify, get. unfold bind at 1.
  assert (arm_wf (put_pc_set false s)) as Hs1 by (by destruct Hs).
  unfold bind at 1. rewrite (decode_loop_run l _ (put_pc_set false s) rest f'); try done.
  cbn [data_ put_pc_set]. rewrite Hd, length_app. simpl length.
  assert (length l <= length (l ≫= encode_arm))%nat as Hle; [|lia].
  clear. induction l as [|i l IH]; [done|]. rewrite bind_cons, length_app. simpl length.
  assert (1 <= length (encode_arm i))%nat by (destruct i; simpl; lia). lia.
Qed.

(** C10. [Eval] implements the unwind instructions of the ABI: on the encoding of a sequence of
    instructions that ends with a finish instruction it returns [true], and the registers, the
    virtual stack pointer and the flag of a restored pc are those that the instructions compute,
    one after the other, over the memory of the process. *)
Theorem arm_eval_refines_abi l s rest f'
  (Hs : arm_wf s) (Hok : Forall arm_instr_ok l) (Hd : data_ s = (l ≫= encode_arm) ++ ARM_OP_FINISH :: rest)
  (Hrun : arm_run (process_memory_ s) l (mkV (cfa_ s) (regs_ (arm_regs s)) false) f') :
  exists s', Eval s = Done (true, s') /\ frame_of s' = f' /\ status_ s' = ARM_STATUS_FINISH /\ data_ s' = rest.
Proof. rewrite (Eval_run l s rest f') by done. eexists. split; [done|]. by destruct f'. Qed.

(** * The data of an entry *)

(** A word with the bytes [b3] (most significant) to [b0]. *)
Definition be_word (b3 b2 b1 b0 : Z) : Z := b3 * 2 ^ 24 + b2 * 2 ^ 16 + b1 * 2 ^ 8 + b0.

Fixpoint pack (l : list Z) : list Z :=
  match l with
  | b3 :: b2 :: b1 :: b0 :: t => be_word b3 b2 b1 b0 :: pack t
  | _ => []
  end.

(** Where the instructions of an entry are: in the entry itself, or in a table in the compact format
    with personality 0, 1 or 2, or in the generic format behind a personality routine. *)
Inductive arm_layout : Set := InEntry | Compact0 | Compact (personality : Z) | Generic (routine : Z).

#[export] Instance arm_layout_eq_dec : EqDecision arm_layout.
Proof. solve_decision. Defined.

(** The words of the table, for the instructions [ops]. *)
Definition layout_words (layout : arm_layout) (ops : list Z) : list Z :=
  match layout, ops with
  | InEntry, [b2; b1; b0] | Compact0, [b2; b1; b0] => [be_word 0x80 b2 b1 b0]
  | Compact p, b1 :: b0 :: t => be_word (0x80 + p) (Z.of_nat (length t) / 4) b1 b0 :: pack t
  | Generic r, b2 :: b1 :: b0 :: t => r :: be_word (Z.of_nat (length t) / 4) b2 b1 b0 :: pack t
  | _, _ => []
  end.

(** The numbers of instructions that a format can hold: at most five further words. *)
Definition layout_ok (layout : arm_layout) (ops : list Z) : Prop :=
  Forall (in_u 8) ops /\
  match layout with
  | InEntry | Compact0 => length ops = 3%nat
  | Compact p => (p = 1 \/ p = 2) /\ exists n, (n <= 5)%nat /\ length ops = (2 + 4 * n)%nat
  | Generic r => in_u 31 r /\ exists n, (n <= 5)%nat /\ length ops = (3 + 4 * n)%nat
  end.

Definition words_at (m : Memory) (a : Z) (ws : list Z) : Prop :=
  forall i w, ws !! i = Some w -> Read32 m (u32 (a + 4 * Z.of_nat i)) = Some w.

(** The entry at [entry]: the instructions themselves, or the distance [prel] to the table. *)
Definition entry_at (m : Memory) (entry : Z) (layout : arm_layout) (prel : Z) (ops : list Z) : Prop :=
  match layout with
  | InEntry => words_at m (entry + 4) (layout_words layout ops)
  | _ => words_at m (entry + 4) [wrap 31 prel] /\ words_at m (entry + 4 + prel) (layout_words layout ops)
  end.

(** The instructions, ended by a finish instruction. *)
Definition finished (ops : list Z) : list Z :=
  if List.last ops 0 =? ARM_OP_FINISH then ops else ops ++ [ARM_OP_FINISH].

Lemma be_word_bytes b3 b2 b1 b0 :
  in_u 8 b3 -> in_u 8 b2 -> in_u 8 b1 -> in_u 8 b0 ->
  let w := be_word b3 b2 b1 b0 in byte3 w = b3 /\ byte2 w = b2 /\ byte1 w = b1 /\ byte0 w = b0.
Proof.
  unfold in_u. change (2 ^ 8) with 256. intros H3 H2 H1 H0. unfold be_word, byte3, byte2, byte1, byte0.
  change 0xff with (Z.ones 8). rewrite !Z.land_ones, !Z.shiftr_div_pow2 by lia.
  change (2 ^ 24) with 16777216. change (2 ^ 16) with 65536. change (2 ^ 8) with 256.
  split; [|split; [|split]]; Z.div_mod_to_equations; lia.
Qed.

Lemma be_word_top b3 b2 b1 b0 :
  in_u 8 b3 -> in_u 8 b2 -> in_u 8 b1 -> in_u 8 b0 ->
  (Z.land (be_word b3 b2 b1 b0) (Z.shiftl 1 31) =? 0) = (b3 <? 128) /\
  Z.land (Z.shiftr (be_word b3 b2 b1 b0) 24) 0xf = b3 mod 16.
Proof.
  unfold in_u. change (2 ^ 8) with 256. intros H3 H2 H1 H0. rewrite land_bit by lia.
  change 0xf with (Z.ones 4). rewrite Z.land_ones, Z.shiftr_div_pow2 by lia.
  assert (be_word b3 b2 b1 b0 / 2 ^ 24 = b3) as Hd.
  { unfold be_word. change (2 ^ 24) with 16777216. change (2 ^ 16) with 65536. change (2 ^ 8) with 256.
    Z.div_mod_to_equations; lia. }
  split; [|by rewrite Hd]. replace 31 with (7 + 24) by lia. rewrite <- Z.shiftr_spec, Z.shiftr_div_pow2, Hd by lia.
  rewrite Z.testbit_odd, Z.shiftr_div_pow2 by lia. change (2 ^ 7) with 128.
  destruct (Z.ltb_spec b3 128).
  - by rewrite Z.div_small by lia.
  - assert (b3 / 128 = 1) as -> by (Z.div_mod_to_equations; lia). done.
Qed.

Lemma small_top w : in_u 31 w -> (Z.land w (Z.shiftl 1 31) =? 0) = true.
Proof.
  intros Hw. rewrite land_bit by lia. rewrite <- (Z.mod_small w (2 ^ 31)) by exact Hw. by rewrite Z.mod_pow2_bits_high by lia.
Qed.

(** The sign extension of a 31-bit distance. *)
Lemma prel31_sign prel : - 2 ^ 30 <= prel < 2 ^ 30 -> Z.shiftr (sgn 32 (Z.shiftl (wrap 31 prel) 1)) 1 = prel.
Proof.
  intros Hp. rewrite Z.shiftl_mul_pow2, Z.shiftr_div_pow2 by lia. change (2 ^ 1) with 2.
  assert (wrap 31 prel * 2 = wrap 32 (prel * 2)) as ->.
  { unfold wrap. change (2 ^ 32) with (2 ^ 31 * 2). by rewrite Z.mul_mod_distr_r. }
  rewrite sgn_wrap; [by apply Z.div_mul|lia|]. change (2 ^ (32 - 1)) with (2 ^ 30 * 2). lia.
Qed.

Lemma words_at_cons m a w ws :
  words_at m a (w :: ws) -> Read32 m (u32 a) = Some w /\ words_at m (u32 (a + 4)) ws.
Proof.
  intros Hw. split; [specialize (Hw 0%nat w eq_refl); by rewrite Z.add_0_r in Hw|].
  intros i x Hx. rewrite <- (Hw (S i) x Hx). f_equal. rewrite wrap_add_l by lia. f_equal. lia.
Qed.

Lemma push_data_app l1 l2 s : put_data (data_ s ++ l1 ++ l2) s = put_data (data_ (put_data (data_ s ++ l1) s) ++ l2) (put_data (data_ s ++ l1) s).
Proof. cbn. by rewrite app_assoc. Qed.

Lemma read_table_words_run n l a s :
  length l = (4 * n)%nat -> Forall (in_u 8) l -> in_u 32 a -> words_at (elf_memory_ s) a (pack l) ->
  read_table_words n a s = Done (true, put_data (data_ s ++ l) s).
Proof.
  revert l a s. induction n as [|n IH]; intros l a s Hl Hb Ha Hw.
  - destruct l; [|done]. rewrite app_nil_r. by destruct s.
  - destruct l as [|b3 [|b2 [|b1 [|b0 l]]]]; try (simpl in Hl; lia).
    repeat (apply Forall_cons in Hb as [? Hb]). apply words_at_cons in Hw as [Hr Hw]. rewrite wrap_small in Hr by done.
    cbn [read_table_words]. unfold bind at 1, get. rewrite Hr. unfold bind at 1, push_data, modify.
    destruct (be_word_bytes b3 b2 b1 b0) as (-> & -> & -> & ->); [done..|].
    rewrite IH with (l := l); [|simpl in Hl; lia|done|apply wrap_range; lia|exact Hw].
    change (b3 :: b2 :: b1 :: b0 :: l) with ([b3; b2; b1; b0] ++ l). by rewrite (push_data_app [b3; b2; b1; b0] l).
Qed.

Lemma add_finish_run last s ops :
  data_ s = ops -> last = List.last ops 0 -> add_finish last s = Done (true, put_data (finished ops) s).
Proof.
  intros Hd ->. unfold add_finish, finished. unfold bind. destruct (_ =? _); cbn [negb]; [|by rewrite <- Hd].
  rewrite <- Hd. by destruct s.
Qed.

Lemma read_table_run n l a s :
  (n <= 5)%nat -> length l = (4 * n)%nat -> Forall (in_u 8) l -> in_u 32 a -> words_at (elf_memory_ s) a (pack l) ->
  read_table (Z.of_nat n) a s = Done (true, put_data (finished (data_ s ++ l)) s).
Proof.
  intros Hn Hl Hb Ha Hw. unfold read_table. rewrite (proj2 (Z.ltb_ge 5 _)) by lia. unfold bind at 1.
  rewrite Nat2Z.id, (read_table_words_run n l a s) by done. unfold bind at 1, get.
  by rewrite (add_finish_run _ _ (data_ s ++ l)).
Qed.

Section Extract.
Context (s : ArmExidx) (entry : Z).

(** The state in which the words of an entry are read. *)
Let s0 : ArmExidx := put_status ARM_STATUS_NONE (put_data [] s).

(** The reads of the first word, of an entry with the instructions and of one with a distance. *)
Lemma Extract_inline ops :
  Z.land entry 1 = 0 -> layout_ok InEntry ops -> entry_at (elf_memory_ s) entry InEntry 0 ops ->
  ExtractEntryData entry s = Done (true, put_data (finished ops) s0).
Proof.
  intros He [Hb Hl] Hw. destruct ops as [|b2 [|b1 [|b0 [|]]]]; try (simpl in Hl; lia).
  repeat (apply Forall_cons in Hb as [? Hb]). apply words_at_cons in Hw as [Hr _].
  unfold ExtractEntryData. unfold bind at 1 2, modify. fold s0. rewrite He. cbn [negb Z.eqb]. cbv zeta.
  unfold bind at 1, get. change (elf_memory_ s0) with (elf_memory_ s). rewrite Hr.
  assert (in_u 8 0x80) as H80 by (split; simpl; lia).
  destruct (be_word_bytes 0x80 b2 b1 b0) as (_ & E2 & E1 & E0); [done..|].
  destruct (be_word_top 0x80 b2 b1 b0) as [Et Ei]; [done..|].
  rewrite (proj2 (Z.eqb_neq _ 1)).
  2:{ intros E. rewrite E in E2, E1, Et. cbn in Et. done. }
  rewrite Et, Ei, E2, E1, E0. change (0x80 <? 128) with false. change (0x80 mod 16 =? 0) with true. cbn [negb].
  unfold bind, push_data, modify. by rewrite (add_finish_run _ _ [b2; b1; b0]).
Qed.

(** The part of [ExtractEntryData] that follows the distance. *)
Definition extract_table (a : Z) : AX bool :=
  s <- get ;;
  match Read32 (elf_memory_ s) a with
  | None => arm_read_failed a
  | Some data =>
      if negb (Z.land data (Z.shiftl 1 31) =? 0) then
        let index := Z.land (Z.shiftr data 24) 0xf in
        if index =? 0 then push_data [byte2 data] ;; push_data [byte1 data; byte0 data] ;; read_table 0 a
        else if (index =? 1) || (index =? 2) then
          push_data [byte1 data; byte0 data] ;; read_table (byte2 data) (u32 (a + 4))
        else arm_fail ARM_STATUS_INVALID_PERSONALITY
      else
        let a := u32 (a + 4) in
        match Read32 (elf_memory_ s) a with
        | None => arm_read_failed a
        | Some data => push_data [byte2 data; byte1 data; byte0 data] ;; read_table (byte3 data) (u32 (a + 4))
        end
  end.

Lemma Extract_distance prel :
  Z.land entry 1 = 0 -> - 2 ^ 30 <= prel < 2 ^ 30 -> prel <> 1 -> words_at (elf_memory_ s) (entry + 4) [wrap 31 prel] ->
  ExtractEntryData entry s = extract_table (u32 (entry + 4 + prel)) s0.
Proof.
  intros He Hp Hp1 Hw. apply words_at_cons in Hw as [Hr _].
  unfold ExtractEntryData. unfold bind at 1 2, modify. fold s0. rewrite He. cbn [negb Z.eqb]. cbv zeta.
  unfold bind at 1, get. change (elf_memory_ s0) with (elf_memory_ s). rewrite Hr.
  rewrite (proj2 (Z.eqb_neq _ 1)).
  2:{ pose proof (prel31_sign prel Hp) as E. intros E1. rewrite E1 in E.
      change (Z.shiftr (sgn 32 (Z.shiftl 1 1)) 1) with 1 in E. lia. }
  rewrite small_top by (apply wrap_range; lia). cbn [negb]. by rewrite prel31_sign, wrap_add_l by lia.
Qed.

Lemma extract_table_run a layout ops :
  layout <> InEntry -> layout_ok layout ops -> words_at (elf_memory_ s) a (layout_words layout ops) ->
  extract_table (u32 a) s0 = Done (true, put_data (finished ops) s0).
Proof.
  intros Hne [Hb Hl] Hw. unfold extract_table. unfold bind at 1, get. change (elf_memory_ s0) with (elf_memory_ s).
  assert (forall x, 0 <= x < 256 -> in_u 8 x) as H8 by done.
  destruct layout as [| |p|r]; [done| | |]; cbn [layout_words] in Hw.
  - destruct ops as [|b2 [|b1 [|b0 [|]]]]; try (simpl in Hl; lia). repeat (apply Forall_cons in Hb as [? Hb]).
    apply words_at_cons in Hw as [Hr Hw]. rewrite Hr.
    destruct (be_word_bytes 0x80 b2 b1 b0) as (_ & -> & -> & ->); [apply H8; lia|done..|].
    destruct (be_word_top 0x80 b2 b1 b0) as [-> ->]; [apply H8; lia|done..|]. change (0x80 <? 128) with false. cbn [negb]. cbv zeta.
    change (0x80 mod 16 =? 0) with true. cbv iota. unfold bind, push_data, modify.
    by rewrite (read_table_run 0 [] (u32 a)) by (done || lia || (apply wrap_range; lia)).
  - destruct Hl as [Hp (n & Hn & Hl)]. destruct ops as [|b1 [|b0 t]]; try (simpl in Hl; lia).
    repeat (apply Forall_cons in Hb as [? Hb]). apply words_at_cons in Hw as [Hr Hw]. rewrite Hr.
    assert (Z.of_nat (length t) / 4 = Z.of_nat n) as Ht.
    { replace (Z.of_nat (length t)) with (Z.of_nat n * 4) by (simpl in Hl; lia). by apply Z.div_mul. }
    rewrite Ht in *.
    destruct (be_word_bytes (0x80 + p) (Z.of_nat n) b1 b0) as (_ & -> & -> & ->); [apply H8; lia|apply H8; lia|done..|].
    destruct (be_word_top (0x80 + p) (Z.of_nat n) b1 b0) as [-> ->]; [apply H8; lia|apply H8; lia|done..|].
    rewrite (proj2 (Z.ltb_ge _ _)) by lia. cbn [negb]. cbv zeta.
    assert (((0x80 + p) mod 16 =? 0) = false /\ ((0x80 + p) mod 16 =? 1) || ((0x80 + p) mod 16 =? 2) = true) as [-> ->]
      by (by destruct Hp as [-> | ->]).
    unfold bind, push_data, modify. rewrite wrap_add_l by lia.
    by rewrite (read_table_run n t) by (done || (simpl in Hl; lia) || (apply wrap_range; lia)).
  - destruct Hl as [Hr31 (n & Hn & Hl)]. destruct ops as [|b2 [|b1 [|b0 t]]]; try (simpl in Hl; lia).
    repeat (apply Forall_cons in Hb as [? Hb]). apply words_at_cons in Hw as [Hr Hw]. rewrite Hr.
    rewrite small_top by done. cbn [negb]. cbv zeta. apply words_at_cons in Hw as [Hr' Hw].
    rewrite wrap_idemp in Hr' by lia. rewrite wrap_add_l, Hr' by lia.
    assert (Z.of_nat (length t) / 4 = Z.of_nat n) as Ht.
    { replace (Z.of_nat (length t)) with (Z.of_nat n * 4) by (simpl in Hl; lia). by apply Z.div_mul. }
    rewrite Ht in *.
    destruct (be_word_bytes (Z.of_nat n) b2 b1 b0) as (-> & -> & -> & ->); [apply H8; lia|done..|].
    unfold bind, push_data, modify.
    by rewrite (read_table_run n t) by (done || (simpl in Hl; lia) || (apply wrap_range; lia)).
Qed.
End Extract.

Lemma ExtractEntryData_run layout entry prel ops s :
  Z.land entry 1 = 0 -> layout_ok layout ops -> - 2 ^ 30 <= prel < 2 ^ 30 -> prel <> 1 ->
  entry_at (elf_memory_ s) entry layout prel ops ->
  ExtractEntryData entry s = Done (true, put_data (finished ops) (put_status ARM_STATUS_NONE (put_data [] s))).
Proof.
  intros He Hok Hp Hp1 Hm. destruct (decide (layout = InEntry)) as [->|Hne].
  - by apply Extract_inline.
  - assert (words_at (elf_memory_ s) (entry + 4) [wrap 31 prel] /\
            words_at (elf_memory_ s) (entry + 4 + prel) (layout_words layout ops)) as [Hw1 Hw2] by (by destruct layout).
    rewrite (Extract_distance s entry prel) by done. by apply (extract_table_run s _ layout).
Qed.

(** The word 1 marks a function that cannot be unwound. *)
Lemma ExtractEntryData_never entry s :
  Z.land entry 1 = 0 -> Read32 (elf_memory_ s) (u32 (entry + 4)) = Some 1 ->
  ExtractEntryData entry s = Done (false, put_status ARM_STATUS_NO_UNWIND (put_data [] s)).
Proof.
  intros He Hr. unfold ExtractEntryData. unfold bind at 1 2, modify. rewrite He. cbn [negb Z.eqb]. cbv zeta.
  unfold bind at 1, get. cbn [elf_memory_ put_status put_data]. by rewrite Hr.
Qed.

(** C32. [ExtractEntryData] finds the instructions of an entry in every format of the exception tables
    and returns them ended by a finish instruction. *)
Theorem arm_extract_entry_data layout entry prel ops s
  (He : Z.land entry 1 = 0) (Hok : layout_ok layout ops) (Hp : - 2 ^ 30 <= prel < 2 ^ 30) (Hp1 : prel <> 1)
  (Hm : entry_at (elf_memory_ s) entry layout prel ops) :
  ExtractEntryData entry s = Done (true, put_data (finished ops) (put_status ARM_STATUS_NONE (put_data [] s))).
Proof. by apply (ExtractEntryData_run layout entry prel). Qed.

(** * Witnesses *)

(** A stack with the words 1 to 6, and a program that pops r4 and r5, pops r14 and pc, and ends. *)
Definition example_stack : list byte := flat_map (le_bytes 4) [1; 2; 3; 4; 5; 6].
Definition example_arm_memory : Memory := MemoryBuffer.memory (MemoryBuffer.mk example_stack).
Definition example_instrs : list arm_instr := [VspAdd 0; PopRange 1 false; PopMask 0xc00].
Definition example_arm : ArmExidx :=
  put_data ((example_instrs ≫= encode_arm) ++ [ARM_OP_FINISH])
    (new_ArmExidx new_regs_arm example_arm_memory example_arm_memory).

Lemma buffer_read_len bs a : len (MemoryBuffer.read (MemoryBuffer.mk bs) a 4) <= 4.
Proof.
  unfold MemoryBuffer.read, slice, len. destruct (_ <=? _); [simpl; lia|]. rewrite length_take. lia.
Qed.

Lemma example_arm_wf : arm_wf example_arm.
Proof.
  split.
  - reflexivity.
  - by apply Forall_replicate.
  - done.
  - repeat apply Forall_cons_2; [..|apply Forall_nil_2]; by vm_compute.
  - intros a _. apply buffer_read_len.
Qed.

Lemma arm_eval_safe_witness :
  arm_wf example_arm /\ wp arm_fault Eval (fun b s' => arm_wf s' /\ (b = true <-> status_ s' = ARM_STATUS_FINISH)) example_arm.
Proof.
  split; [apply example_arm_wf|].
  eapply wp_mono; [apply (arm_eval_safe example_arm example_arm_wf)|done|].
  intros b s' (H1 & _ & _ & H2). split; [exact H1|exact H2].
Defined.

Definition example_frame : vframe := mkV 20 [0; 0; 0; 0; 2; 3; 0; 0; 0; 0; 0; 0; 0; 0; 4; 5] true.

Lemma example_run :
  arm_run example_arm_memory example_instrs (mkV 0 (replicate 16 0) false) example_frame.
Proof.
  assert (forall sp l regs regs', length regs' = length regs ->
    Forall (fun x => match Read32 example_arm_memory (u32 (sp + 4 * Z.of_nat (fst x))) with
                     | Some w => regs' !! Z.to_nat (snd x) = Some w | None => False end) (imap pair l) ->
    (forall n, ~ (Z.of_nat n ∈ l) -> regs' !! n = regs !! n) ->
    popped example_arm_memory sp l regs regs') as Hpop.
  { intros sp l regs regs' Hl Hin Hout. split; [done|]. split; [|done]. intros i r Hi.
    assert (imap pair l !! i = Some (i, r)) as Hi' by (by rewrite list_lookup_imap, Hi).
    pose proof (Forall_lookup_1 _ _ _ _ Hin Hi') as H. cbn [fst snd] in H.
    destruct (Read32 _ _) as [w|]; [by exists w|done]. }
  eapply arm_run_cons; [reflexivity|]. eapply arm_run_cons; [|eapply arm_run_cons; [|apply arm_run_nil]].
  - exists [0; 0; 0; 0; 2; 3; 0; 0; 0; 0; 0; 0; 0; 0; 0; 0]. split; [|reflexivity]. apply Hpop.
    + reflexivity.
    + repeat constructor.
    + intros n Hn. do 4 (destruct n as [|n]; [reflexivity|]).
      do 2 (destruct n as [|n]; [destruct Hn; vm_compute; repeat constructor|]). do 10 (destruct n as [|n]; [reflexivity|]). done.
  - exists [0; 0; 0; 0; 2; 3; 0; 0; 0; 0; 0; 0; 0; 0; 4; 5]. split; [|reflexivity]. apply Hpop.
    + reflexivity.
    + repeat constructor.
    + intros n Hn. do 14 (destruct n as [|n]; [reflexivity|]).
      do 2 (destruct n as [|n]; [destruct Hn; vm_compute; repeat constructor|]). done.
Qed.

Lemma arm_eval_refines_abi_witness :
  exists s', Eval example_arm = Done (true, s') /\ frame_of s' = example_frame.
Proof.
  destruct (arm_eval_refines_abi example_instrs example_arm [] example_frame) as (s' & H1 & H2 & _).
  - apply example_arm_wf.
  - repeat constructor; lia.
  - reflexivity.
  - exact example_run.
  - exists s'. split; [exact H1|exact H2].
Defined.

(** A generic entry at 0 whose table, with one further word, is at 8. *)
Definition example_exidx : list byte :=
  flat_map (le_bytes 4) ([0; 4] ++ layout_words (Generic 0x100) [1; 2; 3; 4; 5; 6; 7]).

Lemma arm_extract_entry_data_witness :
  let s := new_ArmExidx new_regs_arm (MemoryBuffer.memory (MemoryBuffer.mk example_exidx)) example_arm_memory in
  ExtractEntryData 0 s = Done (true, put_data [1; 2; 3; 4; 5; 6; 7; 0xb0] (put_status ARM_STATUS_NONE (put_data [] s))).
Proof.
  intros s. apply (arm_extract_entry_data (Generic 0x100) 0 4 [1; 2; 3; 4; 5; 6; 7] s).
  - reflexivity.
  - split; [repeat constructor; done|]. cbn [layout_ok]. split; [split; [lia|simpl; lia]|].
    exists 1%nat. split; [lia|reflexivity].
  - lia.
  - lia.
  - split; intros i w Hi.
    + destruct i as [|i]; [|discriminate]. injection Hi as <-. reflexivity.
    + do 3 (destruct i as [|i]; [injection Hi as <-; reflexivity|]). discriminate.
Defined.
