(* ===== verification/ElfInterface.v ===== *)
(** [ElfInterface.cpp], [ElfInterface.h], [Error.h]: the headers of an ELF object and the unwind
    sections that they lead to.

    The record [ElfInterface] holds the members of the class; [any_section] is the dynamic type of
    its two section pointers. The methods of [ElfInterface32] and [ElfInterface64] are those of the
    address type [U32] and [U64]. A loop over the bytes of a section takes its fuel as an argument. *)
From Stdlib Require Import ZArith Lia Bool Strings.Byte Strings.String.
From stdpp Require Import base numbers list gmap.
From S2P Require Import Prelude Memory DwarfMemory DwarfStructs Regs DwarfSection DwarfEhFrameWithHdr ElfTypes Symbols.
#[local] Open Scope Z_scope.

(** * Errors *)

Inductive ErrorCode : Set :=
| ERROR_NONE | ERROR_MEMORY_INVALID | ERROR_UNWIND_INFO | ERROR_UNSUPPORTED | ERROR_INVALID_MAP
| ERROR_MAX_FRAMES_EXCEEDED | ERROR_REPEATED_FRAME | ERROR_INVALID_ELF.

#[export] Instance ErrorCode_eq_dec : EqDecision ErrorCode.
Proof. solve_decision. Defined.

Record ErrorData := mkErrorData { err_code : ErrorCode; err_address : Z }.

(** [last_error_.code = c] *)
Definition set_code (c : ErrorCode) (d : ErrorData) : ErrorData := mkErrorData c (err_address d).

(** * The section pointers *)

Inductive any_section : Type :=
| PlainSection (kind : section_kind) (s : DwarfSection)
| HdrSection (h : DwarfEhFrameWithHdr).

Definition any_base (s : any_section) : DwarfSection :=
  match s with PlainSection _ s => s | HdrSection h => hdr_base h end.
Definition put_any_base (b : DwarfSection) (s : any_section) : any_section :=
  match s with PlainSection k _ => PlainSection k b | HdrSection h => HdrSection (put_hdr_base b h) end.

(** The virtual methods of a section. *)
Section AnySection.
Context (A : addr_type) (fuel : nat) (order : gmap Z DwarfLocation -> list (Z * DwarfLocation)).

Definition any_GetFdeFromPc (pc : Z) : M any_section (option Z) := fun s =>
  match s with
  | PlainSection k s =>
      match DwarfSection.GetFdeFromPc A k fuel fuel pc s with
      | Done (r, s) => Done (r, PlainSection k s)
      | Fault f => Fault f
      end
  | HdrSection h =>
      match DwarfEhFrameWithHdr.GetFdeFromPc A fuel pc h with
      | Done (r, h) => Done (r, HdrSection h)
      | Fault f => Fault f
      end
  end.

Definition any_Step (pc : Z) (regs : Regs) (process_memory : Memory) (finished : bool) : M any_section (bool * Regs * bool) :=
  DwarfSection.Step any_base put_any_base A any_GetFdeFromPc order fuel pc regs process_memory finished.
End AnySection.

(** * The class *)

Record LoadInfo := mkLoadInfo { li_offset : Z; table_offset : Z; table_size : Z }.

Inductive soname_type : Set := SONAME_UNKNOWN | SONAME_VALID | SONAME_INVALID.

#[export] Instance soname_type_eq_dec : EqDecision soname_type.
Proof. solve_decision. Defined.

Record ElfInterface := mkElf {
  ei_memory : Memory;
  pt_loads_ : gmap Z LoadInfo;
  dynamic_offset_ : Z;
  dynamic_vaddr_ : Z;
  dynamic_size_ : Z;
  eh_frame_hdr_offset_ : Z;
  eh_frame_hdr_size_ : Z;
  eh_frame_offset_ : Z;
  eh_frame_size_ : Z;
  debug_frame_offset_ : Z;
  debug_frame_size_ : Z;
  gnu_debugdata_offset_ : Z;
  gnu_debugdata_size_ : Z;
  gnu_build_id_offset_ : Z;
  gnu_build_id_size_ : Z;
  soname_type_ : soname_type;
  soname_ : list byte;
  ei_error : ErrorData;
  eh_frame_ : option any_section;
  debug_frame_ : option any_section;
  ei_symbols : list Symbols;
  strtabs_ : list (Z * Z)
}.
Definition put_pt_loads (v : gmap Z LoadInfo) (e : ElfInterface) : ElfInterface :=
  mkElf (ei_memory e) v (dynamic_offset_ e) (dynamic_vaddr_ e) (dynamic_size_ e) (eh_frame_hdr_offset_ e)
    (eh_frame_hdr_size_ e) (eh_frame_offset_ e) (eh_frame_size_ e) (debug_frame_offset_ e)
    (debug_frame_size_ e) (gnu_debugdata_offset_ e) (gnu_debugdata_size_ e) (gnu_build_id_offset_ e)
    (gnu_build_id_size_ e) (soname_type_ e) (soname_ e) (ei_error e) (eh_frame_ e) (debug_frame_ e)
    (ei_symbols e) (strtabs_ e).
Definition put_dynamic (v0 : Z) (v1 : Z) (v2 : Z) (e : ElfInterface) : ElfInterface :=
  mkElf (ei_memory e) (pt_loads_ e) v0 v1 v2 (eh_frame_hdr_offset_ e) (eh_frame_hdr_size_ e)
    (eh_frame_offset_ e) (eh_frame_size_ e) (debug_frame_offset_ e) (debug_frame_size_ e)
    (gnu_debugdata_offset_ e) (gnu_debugdata_size_ e) (gnu_build_id_offset_ e) (gnu_build_id_size_ e)
    (soname_type_ e) (soname_ e) (ei_error e) (eh_frame_ e) (debug_frame_ e) (ei_symbols e) (strtabs_ e).
Definition put_eh_frame_hdr_range (v0 : Z) (v1 : Z) (e : ElfInterface) : ElfInterface :=
  mkElf (ei_memory e) (pt_loads_ e) (dynamic_offset_ e) (dynamic_vaddr_ e) (dynamic_size_ e) v0 v1
    (eh_frame_offset_ e) (eh_frame_size_ e) (debug_frame_offset_ e) (debug_frame_size_ e)
    (gnu_debugdata_offset_ e) (gnu_debugdata_size_ e) (gnu_build_id_offset_ e) (gnu_build_id_size_ e)
    (soname_type_ e) (soname_ e) (ei_error e) (eh_frame_ e) (debug_frame_ e) (ei_symbols e) (strtabs_ e).
Definition put_eh_frame_range (v0 : Z) (v1 : Z) (e : ElfInterface) : ElfInterface :=
  mkElf (ei_memory e) (pt_loads_ e) (dynamic_offset_ e) (dynamic_vaddr_ e) (dynamic_size_ e)
    (eh_frame_hdr_offset_ e) (eh_frame_hdr_size_ e) v0 v1 (debug_frame_offset_ e) (debug_frame_size_ e)
    (gnu_debugdata_offset_ e) (gnu_debugdata_size_ e) (gnu_build_id_offset_ e) (gnu_build_id_size_ e)
    (soname_type_ e) (soname_ e) (ei_error e) (eh_frame_ e) (debug_frame_ e) (ei_symbols e) (strtabs_ e).
Definition put_debug_frame_range (v0 : Z) (v1 : Z) (e : ElfInterface) : ElfInterface :=
  mkElf (ei_memory e) (pt_loads_ e) (dynamic_offset_ e) (dynamic_vaddr_ e) (dynamic_size_ e)
    (eh_frame_hdr_offset_ e) (eh_frame_hdr_size_ e) (eh_frame_offset_ e) (eh_frame_size_ e) v0 v1
    (gnu_debugdata_offset_ e) (gnu_debugdata_size_ e) (gnu_build_id_offset_ e) (gnu_build_id_size_ e)
    (soname_type_ e) (soname_ e) (ei_error e) (eh_frame_ e) (debug_frame_ e) (ei_symbols e) (strtabs_ e).
Definition put_gnu_debugdata_range (v0 : Z) (v1 : Z) (e : ElfInterface) : ElfInterface :=
  mkElf (ei_memory e) (pt_loads_ e) (dynamic_offset_ e) (dynamic_vaddr_ e) (dynamic_size_ e)
    (eh_frame_hdr_offset_ e) (eh_frame_hdr_size_ e) (eh_frame_offset_ e) (eh_frame_size_ e)
    (debug_frame_offset_ e) (debug_frame_size_ e) v0 v1 (gnu_build_id_offset_ e) (gnu_build_id_size_ e)
    (soname_type_ e) (soname_ e) (ei_error e) (eh_frame_ e) (debug_frame_ e) (ei_symbols e) (strtabs_ e).
Definition put_gnu_build_id_range (v0 : Z) (v1 : Z) (e : ElfInterface) : ElfInterface :=
  mkElf (ei_memory e) (pt_loads_ e) (dynamic_offset_ e) (dynamic_vaddr_ e) (dynamic_size_ e)
    (eh_frame_hdr_offset_ e) (eh_frame_hdr_size_ e) (eh_frame_offset_ e) (eh_frame_size_ e)
    (debug_frame_offset_ e) (debug_frame_size_ e) (gnu_debugdata_offset_ e) (gnu_debugdata_size_ e) v0 v1
    (soname_type_ e) (soname_ e) (ei_error e) (eh_frame_ e) (debug_frame_ e) (ei_symbols e) (strtabs_ e).
Definition put_soname (v0 : soname_type) (v1 : list byte) (e : ElfInterface) : ElfInterface :=
  mkElf (ei_memory e) (pt_loads_ e) (dynamic_offset_ e) (dynamic_vaddr_ e) (dynamic_size_ e)
    (eh_frame_hdr_offset_ e) (eh_frame_hdr_size_ e) (eh_frame_offset_ e) (eh_frame_size_ e)
    (debug_frame_offset_ e) (debug_frame_size_ e) (gnu_debugdata_offset_ e) (gnu_debugdata_size_ e)
    (gnu_build_id_offset_ e) (gnu_build_id_size_ e) v0 v1 (ei_error e) (eh_frame_ e) (debug_frame_ e)
    (ei_symbols e) (strtabs_ e).
Definition put_ei_error (v : ErrorData) (e : ElfInterface) : ElfInterface :=
  mkElf (ei_memory e) (pt_loads_ e) (dynamic_offset_ e) (dynamic_vaddr_ e) (dynamic_size_ e)
    (eh_frame_hdr_offset_ e) (eh_frame_hdr_size_ e) (eh_frame_offset_ e) (eh_frame_size_ e)
    (debug_frame_offset_ e) (debug_frame_size_ e) (gnu_debugdata_offset_ e) (gnu_debugdata_size_ e)
    (gnu_build_id_offset_ e) (gnu_build_id_size_ e) (soname_type_ e) (soname_ e) v (eh_frame_ e)
    (debug_frame_ e) (ei_symbols e) (strtabs_ e).
Definition put_eh_frame (v : option any_section) (e : ElfInterface) : ElfInterface :=
  mkElf (ei_memory e) (pt_loads_ e) (dynamic_offset_ e) (dynamic_vaddr_ e) (dynamic_size_ e)
    (eh_frame_hdr_offset_ e) (eh_frame_hdr_size_ e) (eh_frame_offset_ e) (eh_frame_size_ e)
    (debug_frame_offset_ e) (debug_frame_size_ e) (gnu_debugdata_offset_ e) (gnu_debugdata_size_ e)
    (gnu_build_id_offset_ e) (gnu_build_id_size_ e) (soname_type_ e) (soname_ e) (ei_error e) v
    (debug_frame_ e) (ei_symbols e) (strtabs_ e).
Definition put_debug_frame (v : option any_section) (e : ElfInterface) : ElfInterface :=
  mkElf (ei_memory e) (pt_loads_ e) (dynamic_offset_ e) (dynamic_vaddr_ e) (dynamic_size_ e)
    (eh_frame_hdr_offset_ e) (eh_frame_hdr_size_ e) (eh_frame_offset_ e) (eh_frame_size_ e)
    (debug_frame_offset_ e) (debug_frame_size_ e) (gnu_debugdata_offset_ e) (gnu_debugdata_size_ e)
    (gnu_build_id_offset_ e) (gnu_build_id_size_ e) (soname_type_ e) (soname_ e) (ei_error e) (eh_frame_ e) v
    (ei_symbols e) (strtabs_ e).
Definition put_ei_symbols (v : list Symbols) (e : ElfInterface) : ElfInterface :=
  mkElf (ei_memory e) (pt_loads_ e) (dynamic_offset_ e) (dynamic_vaddr_ e) (dynamic_size_ e)
    (eh_frame_hdr_offset_ e) (eh_frame_hdr_size_ e) (eh_frame_offset_ e) (eh_frame_size_ e)
    (debug_frame_offset_ e) (debug_frame_size_ e) (gnu_debugdata_offset_ e) (gnu_debugdata_size_ e)
    (gnu_build_id_offset_ e) (gnu_build_id_size_ e) (soname_type_ e) (soname_ e) (ei_error e) (eh_frame_ e)
    (debug_frame_ e) v (strtabs_ e).
Definition put_strtabs (v : list (Z * Z)) (e : ElfInterface) : ElfInterface :=
  mkElf (ei_memory e) (pt_loads_ e) (dynamic_offset_ e) (dynamic_vaddr_ e) (dynamic_size_ e)
    (eh_frame_hdr_offset_ e) (eh_frame_hdr_size_ e) (eh_frame_offset_ e) (eh_frame_size_ e)
    (debug_frame_offset_ e) (debug_frame_size_ e) (gnu_debugdata_offset_ e) (gnu_debugdata_size_ e)
    (gnu_build_id_offset_ e) (gnu_build_id_size_ e) (soname_type_ e) (soname_ e) (ei_error e) (eh_frame_ e)
    (debug_frame_ e) (ei_symbols e) v.

Definition new_ElfInterface (memory : Memory) : ElfInterface :=
  mkElf memory ∅ 0 0 0 0 0 0 0 0 0 0 0 0 0 SONAME_UNKNOWN [] (mkErrorData ERROR_NONE 0) None None [] [].

Abbreviation EI := (M ElfInterface).

Definition set_ei_code (c : ErrorCode) : EI unit := modify (fun e => put_ei_error (set_code c (ei_error e)) e).

(** The product of two [uint16_t], which is computed as an [int]. *)
Definition mul16 {S} (x y : Z) : M S Z := if 2 ^ 31 <=? x * y then fail (Undef UbOverflow) else ret (x * y).

Definition str (s : string) : list byte := list_byte_of_string s.

(** * Program headers *)

Section Headers.
Context (A : addr_type).

(** The loop of [GetLoadBias] over the [n] headers from [offset] on. *)
Fixpoint load_bias_loop (n : nat) (memory : Memory) (offset entsize : Z) : Z :=
  match n with
  | O => 0
  | S n' =>
      match read_phdr A memory offset with
      | None => 0
      | Some phdr =>
          if (p_type phdr =? PT_LOAD) && (p_offset phdr =? 0) then p_vaddr phdr
          else load_bias_loop n' memory (u64 (offset + entsize)) entsize
      end
  end.

Definition GetLoadBias (memory : Memory) : Z :=
  match read_ehdr A memory 0 with
  | None => 0
  | Some ehdr => load_bias_loop (Z.to_nat (e_phnum ehdr)) memory (e_phoff ehdr) (e_phentsize ehdr)
  end.

(** The methods of the base class that call virtual methods are those of a derived class [T]. *)
Section Derived.
Context {T : Type} (base : T -> ElfInterface) (put_base : ElfInterface -> T -> T).
Context (HandleUnknownType : Z -> Z -> Z -> M T unit).

Definition on_interface {B} (m : EI B) : M T B := zoom base put_base m.

(** One program header: the new value of [*load_bias]. *)
Definition read_program_header (phdr : Phdr) (load_bias : Z) : M T Z :=
  if p_type phdr =? PT_LOAD then
    if Z.land (p_flags phdr) PF_X =? 0 then ret load_bias
    else
      on_interface (modify (fun e =>
        put_pt_loads (<[p_offset phdr := mkLoadInfo (p_offset phdr) (p_vaddr phdr) (p_memsz phdr)]> (pt_loads_ e)) e)) ;;
      ret (if p_offset phdr =? 0 then p_vaddr phdr else load_bias)
  else if p_type phdr =? PT_GNU_EH_FRAME then
    on_interface (modify (put_eh_frame_hdr_range (p_offset phdr) (p_memsz phdr))) ;; ret load_bias
  else if p_type phdr =? PT_DYNAMIC then
    on_interface (modify (put_dynamic (p_offset phdr) (p_vaddr phdr) (p_memsz phdr))) ;; ret load_bias
  else HandleUnknownType (p_type phdr) (p_offset phdr) (p_filesz phdr) ;; ret load_bias.

Fixpoint program_headers_loop (n : nat) (offset entsize load_bias : Z) : M T Z :=
  match n with
  | O => ret load_bias
  | S n' =>
      s <- get ;;
      match read_phdr A (ei_memory (base s)) offset with
      | None => ret load_bias
      | Some phdr =>
          load_bias <- read_program_header phdr load_bias ;;
          program_headers_loop n' (u64 (offset + entsize)) entsize load_bias
      end
  end.

Definition ReadProgramHeaders (ehdr : Ehdr) (load_bias : Z) : M T Z :=
  program_headers_loop (Z.to_nat (e_phnum ehdr)) (e_phoff ehdr) (e_phentsize ehdr) load_bias.

(** * Section headers *)

(** [ReadString] of a section name: [None] when it returns [false]. *)
Definition section_name (memory : Memory) (a : Z) : outcome (option (list byte)) := read_name memory a UINT64_MAX.

(** The section that holds the names: its offset and size, or zero. *)
Definition section_names (ehdr : Ehdr) : EI (Z * Z) :=
  if e_shstrndx ehdr <? e_shnum ehdr then
    d <- mul16 (e_shstrndx ehdr) (e_shentsize ehdr) ;;
    e <- get ;;
    match read_shdr A (ei_memory e) (u64 (e_shoff ehdr + d)) with
    | Some shdr => ret (sh_offset shdr, sh_size shdr)
    | None => ret (0, 0)
    end
  else ret (0, 0).

(** One section header, for names at [sec_offset]. *)
Definition read_section_header (ehdr : Ehdr) (sec_offset sec_size : Z) (shdr : Shdr) : EI unit :=
  e <- get ;;
  let memory := ei_memory e in
  if (sh_type shdr =? SHT_SYMTAB) || (sh_type shdr =? SHT_DYNSYM) then
    if e_shnum ehdr <=? sh_link shdr then ret tt
    else
      match read_shdr A memory (addr A (e_shoff ehdr + u32 (sh_link shdr * e_shentsize ehdr))) with
      | None => ret tt
      | Some str_shdr =>
          if negb (sh_type str_shdr =? SHT_STRTAB) then ret tt
          else modify (fun e => put_ei_symbols (ei_symbols e ++
                 [new_Symbols (sh_offset shdr) (sh_size shdr) (sh_entsize shdr) (sh_offset str_shdr) (sh_size str_shdr)]) e)
      end
  else if (sh_type shdr =? SHT_PROGBITS) && negb (sec_size =? 0) then
    if sh_name shdr <? sec_size then
      name <- lift (section_name memory (u64 (sec_offset + sh_name shdr))) ;;
      match name with
      | None => ret tt
      | Some name =>
          if decide (name = str ".debug_frame") then modify (put_debug_frame_range (sh_offset shdr) (sh_size shdr))
          else if decide (name = str ".gnu_debugdata") then modify (put_gnu_debugdata_range (sh_offset shdr) (sh_size shdr))
          else if decide (name = str ".eh_frame") then modify (put_eh_frame_range (sh_offset shdr) (sh_size shdr))
          else if (eh_frame_hdr_offset_ e =? 0) && bool_decide (name = str ".eh_frame_hdr") then
            modify (put_eh_frame_hdr_range (sh_offset shdr) (sh_size shdr))
          else ret tt
      end
    else ret tt
  else if sh_type shdr =? SHT_STRTAB then
    modify (fun e => put_strtabs (strtabs_ e ++ [(sh_addr shdr, sh_offset shdr)]) e)
  else if sh_type shdr =? SHT_NOTE then
    if sh_name shdr <? sec_size then
      name <- lift (section_name memory (u64 (sec_offset + sh_name shdr))) ;;
      if decide (name = Some (str ".note.gnu.build-id")) then
        modify (put_gnu_build_id_range (sh_offset shdr) (sh_size shdr))
      else ret tt
    else ret tt
  else ret tt.

Fixpoint section_headers_loop (n : nat) (ehdr : Ehdr) (offset sec_offset sec_size : Z) : EI unit :=
  match n with
  | O => ret tt
  | S n' =>
      e <- get ;;
      match read_shdr A (ei_memory e) offset with
      | None => ret tt
      | Some shdr =>
          read_section_header ehdr sec_offset sec_size shdr ;;
          section_headers_loop n' ehdr (u64 (offset + e_shentsize ehdr)) sec_offset sec_size
      end
  end.

Definition ReadSectionHeaders (ehdr : Ehdr) : EI unit :=
  names <- section_names ehdr ;;
  section_headers_loop (Z.to_nat (e_shnum ehdr - 1)) ehdr (u64 (e_shoff ehdr + e_shentsize ehdr)) (fst names) (snd names).

(** [None] is [return false]; otherwise the new value of [*load_bias]. *)
Definition ReadAllHeaders (load_bias : Z) : M T (option Z) :=
  s <- get ;;
  match read_ehdr A (ei_memory (base s)) 0 with
  | None => on_interface (modify (put_ei_error (mkErrorData ERROR_MEMORY_INVALID 0))) ;; ret None
  | Some ehdr =>
      load_bias <- ReadProgramHeaders ehdr load_bias ;;
      on_interface (ReadSectionHeaders ehdr) ;;
      ret (Some load_bias)
  end.
End Derived.

(** [*size], when it is set: the end of the section headers. *)
Definition GetMaxSize (memory : Memory) : outcome (option Z) :=
  match read_ehdr A memory 0 with
  | None => Done None
  | Some ehdr =>
      if e_shnum ehdr =? 0 then Done None
      else
        match mul16 (e_shentsize ehdr) (e_shnum ehdr) tt with
        | Done (n, _) => Done (Some (addr A (e_shoff ehdr + n)))
        | Fault f => Fault f
        end
  end.

End Headers.

(** * The unwind sections *)

Section Sections.
Context (A : addr_type) (fuel : nat) (order : gmap Z DwarfLocation -> list (Z * DwarfLocation)).
(** The members of a new [DwarfEhFrameWithHdr] that have no initializer. *)
Context (uninit : Z).

(** [new DwarfEhFrameWithHdr], [Init], and [reset] when that fails. *)
Definition init_hdr_section (memory : Memory) (offset size load_bias : Z) : outcome (option any_section) :=
  match DwarfEhFrameWithHdr.Init A offset size load_bias
          (new_hdr memory uninit uninit uninit uninit uninit uninit uninit) with
  | Done (Some _, h) => Done (Some (HdrSection h))
  | Done (None, _) => Done None
  | Fault f => Fault f
  end.

(** [new DwarfEhFrame] or [new DwarfDebugFrame], [Init], and [reset] when that fails. *)
Definition init_plain_section (kind : section_kind) (memory : Memory) (offset size load_bias : Z)
    : outcome (option any_section) :=
  match DwarfSection.Init offset size load_bias (new_section memory) with
  | Done (true, s) => Done (Some (PlainSection kind s))
  | Done (false, _) => Done None
  | Fault f => Fault f
  end.

Definition InitHeaders (load_bias : Z) : EI unit :=
  e <- get ;;
  (if negb (eh_frame_hdr_offset_ e =? 0) then
     s <- lift (init_hdr_section (ei_memory e) (eh_frame_hdr_offset_ e) (eh_frame_hdr_size_ e) load_bias) ;;
     modify (put_eh_frame s)
   else ret tt) ;;
  eh_frame <- gets eh_frame_ ;;
  (if negb (bool_decide (is_Some eh_frame)) && negb (eh_frame_offset_ e =? 0) then
     s <- lift (init_plain_section EhFrame (ei_memory e) (eh_frame_offset_ e) (eh_frame_size_ e) load_bias) ;;
     modify (put_eh_frame s)
   else ret tt) ;;
  eh_frame <- gets eh_frame_ ;;
  (if negb (bool_decide (is_Some eh_frame)) then
     modify (put_eh_frame_hdr_range 0 UINT64_MAX) ;; modify (put_eh_frame_range 0 UINT64_MAX)
   else ret tt) ;;
  if negb (debug_frame_offset_ e =? 0) then
    s <- lift (init_plain_section DebugFrame (ei_memory e) (debug_frame_offset_ e) (debug_frame_size_ e) load_bias) ;;
    modify (put_debug_frame s) ;;
    if negb (bool_decide (is_Some s)) then modify (put_debug_frame_range 0 UINT64_MAX) else ret tt
  else ret tt.

(** A method of a section pointer: [None] when the pointer is null. *)
Definition on_pointer {B} (get_ptr : ElfInterface -> option any_section)
    (put_ptr : option any_section -> ElfInterface -> ElfInterface) (m : M any_section B) : EI (option B) :=
  fun e =>
    match get_ptr e with
    | None => Done (None, e)
    | Some s =>
        match m s with
        | Done (b, s) => Done (Some b, put_ptr (Some s) e)
        | Fault f => Fault f
        end
    end.

Definition on_debug_frame {B} (m : M any_section B) : EI (option B) := on_pointer debug_frame_ put_debug_frame m.
Definition on_eh_frame {B} (m : M any_section B) : EI (option B) := on_pointer eh_frame_ put_eh_frame m.

Definition in_load (pc : Z) (entry : Z * LoadInfo) : bool :=
  let start := table_offset (snd entry) in
  let fin := u64 (start + table_size (snd entry)) in
  (start <=? pc) && (pc <? fin).

Definition IsValidPc (pc : Z) : EI bool :=
  e <- get ;;
  if negb (Z.of_nat (size (pt_loads_ e)) =? 0) then ret (existsb (in_load pc) (map_to_list (pt_loads_ e)))
  else
    fde <- on_debug_frame (any_GetFdeFromPc A fuel pc) ;;
    if bool_decide (is_Some (mjoin fde)) then ret true
    else
      fde <- on_eh_frame (any_GetFdeFromPc A fuel pc) ;;
      ret (bool_decide (is_Some (mjoin fde))).

(** ** A step *)

(** The interface of [.gnu_debugdata], which belongs to the [Elf] object: what [Step] calls of it. *)
Record gnu_interface (G : Type) := mkGnu {
  gnu_Step : Z -> Regs -> Memory -> bool -> M G (bool * Regs * bool);
  gnu_error : G -> ErrorData
}.

(** The conversion of the error of a section. *)
Definition convert_error (d : DwarfErrorData) (e : ErrorData) : ErrorData :=
  match code d with
  | DWARF_ERROR_NONE => set_code ERROR_NONE e
  | DWARF_ERROR_MEMORY_INVALID => mkErrorData ERROR_MEMORY_INVALID (address d)
  | DWARF_ERROR_ILLEGAL_VALUE | DWARF_ERROR_ILLEGAL_STATE | DWARF_ERROR_STACK_INDEX_NOT_VALID
  | DWARF_ERROR_TOO_MANY_ITERATIONS | DWARF_ERROR_CFA_NOT_DEFINED | DWARF_ERROR_NO_FDES => set_code ERROR_UNWIND_INFO e
  | DWARF_ERROR_NOT_IMPLEMENTED | DWARF_ERROR_UNSUPPORTED_VERSION => set_code ERROR_UNSUPPORTED e
  end.

Section Step.
Context {G : Type} (gnu : option (gnu_interface G)).

Definition on_self {B} (m : EI B) : M (ElfInterface * G) B := zoom fst (fun e p => (e, snd p)) m.
Definition on_gnu {B} (m : M G B) : M (ElfInterface * G) B := zoom snd (fun g p => (fst p, g)) m.

(** The error of the first object that there is. *)
Definition step_error : M (ElfInterface * G) unit :=
  p <- get ;;
  match debug_frame_ (fst p), eh_frame_ (fst p), gnu with
  | Some s, _, _ | None, Some s, _ =>
      on_self (modify (fun e => put_ei_error (convert_error (sec_error (any_base s)) (ei_error e)) e))
  | None, None, Some g => on_self (modify (put_ei_error (gnu_error _ g (snd p))))
  | None, None, None => ret tt
  end.

(** The registers change in place: a section that fails leaves what it has changed to the next. *)
Definition Step (pc : Z) (regs : Regs) (process_memory : Memory) (finished : bool)
    : M (ElfInterface * G) (bool * Regs * bool) :=
  on_self (modify (put_ei_error (mkErrorData ERROR_NONE 0))) ;;
  r <- on_self (on_debug_frame (any_Step A fuel order pc regs process_memory finished)) ;;
  let '(ok, regs, finished) := default (false, regs, finished) r in
  if (ok : bool) then ret (true, regs, finished)
  else
    r <- on_self (on_eh_frame (any_Step A fuel order pc regs process_memory finished)) ;;
    let '(ok, regs, finished) := default (false, regs, finished) r in
    if (ok : bool) then ret (true, regs, finished)
    else
      r <- match gnu with
           | Some g => on_gnu (gnu_Step _ g pc regs process_memory finished)
           | None => ret (false, regs, finished)
           end ;;
      let '(ok, regs, finished) := r in
      if (ok : bool) then ret (true, regs, finished)
      else step_error ;; ret (false, regs, finished).
End Step.
End Sections.

(** * Build identifiers *)

(** [(n + 3) & ~3] of a [uint32_t] *)
Definition align4 (n : Z) : Z := Z.land (u32 (n + 3)) (u32 (Z.lnot 3)).

(** Without its terminator. *)
Definition trim_name (name : list byte) : list byte :=
  if decide (List.last name x00 = x00) then removelast name else name.

(** The loop over the notes of [size] bytes at [start]; [finish] makes the result from the address of
    the identifier and its length. [""] is an empty list. *)
Fixpoint notes_loop (fuel : nat) (memory : Memory) (start size offset : Z)
    (finish : Z -> Z -> outcome (list byte)) : outcome (list byte) :=
  match fuel with
  | O => Fault OutOfFuel
  | S fuel' =>
      if offset <? size then
        if u64 (size - offset) <? struct_size nhdr_widths then Done []
        else
          match read_nhdr memory (u64 (start + offset)) with
          | None => Done []
          | Some hdr =>
              let offset := u64 (offset + struct_size nhdr_widths) in
              if u64 (size - offset) <? n_namesz hdr then Done []
              else if 0 <? n_namesz hdr then
                match ReadFully memory (u64 (start + offset)) (n_namesz hdr) with
                | None => Done []
                | Some name =>
                    let offset := u64 (offset + align4 (n_namesz hdr)) in
                    if bool_decide (trim_name name = str "GNU") && (n_type hdr =? NT_GNU_BUILD_ID) then
                      if (u64 (size - offset) <? n_descsz hdr) || (n_descsz hdr =? 0) then Done []
                      else finish (u64 (start + offset)) (n_descsz hdr)
                    else notes_loop fuel' memory start size (u64 (offset + align4 (n_descsz hdr))) finish
                end
              else notes_loop fuel' memory start size (u64 (offset + align4 (n_descsz hdr))) finish
          end
      else Done []
  end.

(** A string of [n_descsz] bytes. *)
Definition whole_id (memory : Memory) (a n : Z) : outcome (list byte) :=
  Done (default [] (ReadFully memory a n)).

(** A string of [n_descsz - 1] bytes into which [n_descsz] bytes are read: the last one goes to the
    position of the terminator, which may only be overwritten by a zero. *)
Definition short_id (memory : Memory) (a n : Z) : outcome (list byte) :=
  match ReadFully memory a n with
  | None => Done []
  | Some bs => if decide (List.last bs x00 = x00) then Done (removelast bs) else Fault (Undef UbStringEnd)
  end.

Definition ReadBuildID (fuel : nat) (e : ElfInterface) : outcome (list byte) :=
  if 2 ^ 64 <=? gnu_build_id_offset_ e + gnu_build_id_size_ e then Done []
  else notes_loop fuel (ei_memory e) (gnu_build_id_offset_ e) (gnu_build_id_size_ e) 0 (whole_id (ei_memory e)).

Section BuildIdInfo.
Context (A : addr_type) (memory : Memory).

Fixpoint build_id_loop (n : nat) (ehdr : Ehdr) (offset sec_offset sec_size : Z) : outcome (option (Z * Z)) :=
  match n with
  | O => Done None
  | S n' =>
      match read_shdr A memory offset with
      | None => Done None
      | Some shdr =>
          let next := build_id_loop n' ehdr (u64 (offset + e_shentsize ehdr)) sec_offset sec_size in
          if (sh_type shdr =? SHT_NOTE) && (sh_name shdr <? sec_size) then
            match section_name memory (u64 (sec_offset + sh_name shdr)) with
            | Fault f => Fault f
            | Done name =>
                if decide (name = Some (str ".note.gnu.build-id")) then Done (Some (sh_offset shdr, sh_size shdr)) else next
            end
          else next
      end
  end.

Definition GetBuildIDInfo : outcome (option (Z * Z)) :=
  match read_ehdr A memory 0 with
  | None => Done None
  | Some ehdr =>
      if e_shnum ehdr <=? e_shstrndx ehdr then Done None
      else
        match mul16 (e_shstrndx ehdr) (e_shentsize ehdr) tt with
        | Fault f => Fault f
        | Done (d, _) =>
            match read_shdr A memory (u64 (e_shoff ehdr + d)) with
            | None => Done None
            | Some shdr =>
                build_id_loop (Z.to_nat (e_shnum ehdr - 1)) ehdr (u64 (e_shoff ehdr + e_shentsize ehdr))
                  (sh_offset shdr) (sh_size shdr)
            end
        end
  end.

Definition ReadBuildIDFromMemory (fuel : nat) : outcome (list byte) :=
  match GetBuildIDInfo with
  | Fault f => Fault f
  | Done None => Done []
  | Done (Some (note_offset, note_size)) =>
      if 2 ^ 64 <=? note_offset + note_size then Done []
      else notes_loop fuel memory note_offset note_size 0 (short_id memory)
  end.
End BuildIdInfo.

(** * The name of the object *)

(** The loop over the dynamic section: the offset of the name and the address and size of the string
    table; [inl] is the offset of an entry that cannot be read. *)
Fixpoint dynamic_loop (fuel : nat) (A : addr_type) (memory : Memory) (offset max_offset : Z)
    (soname_offset strtab_addr strtab_size : Z) : outcome (Z + Z * Z * Z) :=
  match fuel with
  | O => Fault OutOfFuel
  | S fuel' =>
      if offset <? max_offset then
        match read_struct (dyn_widths A) memory offset with
        | None => Done (inl offset)
        | Some l =>
            let d_tag := fld 0 l in
            let d_val := fld 1 l in
            let next := dynamic_loop fuel' A memory (u64 (offset + struct_size (dyn_widths A))) max_offset in
            if d_tag =? DT_STRTAB then next soname_offset d_val strtab_size
            else if d_tag =? DT_STRSZ then next soname_offset strtab_addr d_val
            else if d_tag =? DT_SONAME then next d_val strtab_addr strtab_size
            else if d_tag =? DT_NULL then Done (inr (soname_offset, strtab_addr, strtab_size))
            else next soname_offset strtab_addr strtab_size
        end
      else Done (inr (soname_offset, strtab_addr, strtab_size))
  end.

Definition GetSoname (A : addr_type) (fuel : nat) : EI (list byte) :=
  e <- get ;;
  match soname_type_ e with
  | SONAME_INVALID => ret []
  | SONAME_VALID => ret (soname_ e)
  | SONAME_UNKNOWN =>
      modify (put_soname SONAME_INVALID (soname_ e)) ;;
      r <- lift (dynamic_loop fuel A (ei_memory e) (dynamic_offset_ e) (u64 (dynamic_offset_ e + dynamic_size_ e)) 0 0 0) ;;
      match r with
      | inl offset => modify (put_ei_error (mkErrorData ERROR_MEMORY_INVALID offset)) ;; ret []
      | inr (soname_offset, strtab_addr, strtab_size) =>
          match list_find (fun entry => fst entry = strtab_addr) (strtabs_ e) with
          | None => ret []
          | Some (_, (_, strtab_offset)) =>
              let soname_offset := u64 (strtab_offset + soname_offset) in
              if u64 (strtab_offset + strtab_size) <=? soname_offset then ret []
              else
                r <- lift (ReadString (ei_memory e) soname_offset UINT64_MAX) ;;
                let '(ok, name) := r in
                modify (put_soname (if (ok : bool) then SONAME_VALID else SONAME_INVALID) name) ;;
                ret (if (ok : bool) then name else [])
          end
      end
  end.

(** * Symbols *)

Section Names.
Context (A : addr_type) (sort : list Info -> list Info) (fuel : nat).

Fixpoint function_name_loop (memory : Memory) (addr : Z) (l : list Symbols)
    : outcome (option (list byte * Z) * list Symbols) :=
  match l with
  | [] => Done (None, [])
  | s :: rest =>
      match GetName A memory sort fuel addr s with
      | Fault f => Fault f
      | Done (Some r, s) => Done (Some r, s :: rest)
      | Done (None, s) =>
          match function_name_loop memory addr rest with
          | Fault f => Fault f
          | Done (r, rest) => Done (r, s :: rest)
          end
      end
  end.

Definition GetFunctionName (addr : Z) : EI (option (list byte * Z)) :=
  e <- get ;;
  r <- lift (function_name_loop (ei_memory e) addr (ei_symbols e)) ;;
  modify (put_ei_symbols (snd r)) ;;
  ret (fst r).

Fixpoint global_variable_loop (memory : Memory) (name : list byte) (l : list Symbols) : outcome (option Z) :=
  match l with
  | [] => Done None
  | s :: rest =>
      match GetGlobal A memory fuel s name with
      | Fault f => Fault f
      | Done (Some v) => Done (Some v)
      | Done None => global_variable_loop memory name rest
      end
  end.

Definition GetGlobalVariable (name : list byte) (e : ElfInterface) : outcome (option Z) :=
  global_variable_loop (ei_memory e) name (ei_symbols e).
End Names.

(** * Compressed debug data *)

Section GnuDebugdata.
(** The XZ decoder: its state, the state after [XzUnpacker_Construct], [XzUnpacker_Code] on the
    remaining input with the room in the output (the produced bytes, the number of consumed bytes,
    whether the result is [SZ_OK] and whether the status is [CODER_STATUS_NOT_FINISHED]), and
    [XzUnpacker_IsStreamWasFinished]. *)
Context {X : Type} (xz_new : X) (xz_code : X -> list byte -> Z -> X * list byte * Z * bool * bool)
  (xz_finished : X -> bool).

Fixpoint unpack_loop (fuel : nat) (size : Z) (x : X) (src dst : list byte) (dst_size : Z) : outcome (option (list byte)) :=
  match fuel with
  | O => Fault OutOfFuel
  | S fuel' =>
      let dst_remaining := u64 (dst_size - len dst) in
      let grow := dst_remaining <? u64 (2 * size) in
      let dst_size := if grow then u64 (dst_size + 2 * size) else dst_size in
      let dst_remaining := if grow then u64 (dst_remaining + 2 * size) else dst_remaining in
      let '(x, out, consumed, ok, not_finished) := xz_code x src dst_remaining in
      let src := drop (Z.to_nat consumed) src in
      let dst := dst ++ out in
      if (ok : bool) && (not_finished : bool) then unpack_loop fuel' size x src dst dst_size
      else if (ok : bool) && xz_finished x then Done (Some dst) else Done None
  end.

(** [None] is [nullptr]. *)
Definition CreateGnuDebugdataMemory (fuel : nat) : EI (option MemoryBuffer.t) :=
  e <- get ;;
  if (gnu_debugdata_offset_ e =? 0) || (gnu_debugdata_size_ e =? 0) then ret None
  else
    let failed := modify (put_gnu_debugdata_range 0 UINT64_MAX) ;; ret None in
    match ReadFully (ei_memory e) (gnu_debugdata_offset_ e) (gnu_debugdata_size_ e) with
    | None => failed
    | Some src =>
        r <- lift (unpack_loop fuel (gnu_debugdata_size_ e) xz_new src [] (u64 (5 * gnu_debugdata_size_ e))) ;;
        match r with
        | None => failed
        | Some dst => ret (Some (MemoryBuffer.mk dst))
        end
    end.
End GnuDebugdata.
