(* ===== verification/ElfHeaders.v ===== *)
(** The headers of an ELF object: what [ReadAllHeaders] finds, the pcs that are valid, the load bias,
    and the build identifier. *)
From Stdlib Require Import ZArith Lia Bool Strings.Byte Strings.String.
From stdpp Require Import base numbers list gmap.
From S2P Require Import Prelude Memory DwarfMemory DwarfStructs ElfTypes Symbols ElfInterface.
#[local] Open Scope Z_scope.

(** * Program headers *)

(** [ElfInterface32] and [ElfInterface64], whose [HandleUnknownType] does nothing. *)
Definition base_ReadAllHeaders (A : addr_type) (load_bias : Z) : EI (option Z) :=
  ReadAllHeaders A id (fun e _ => e) (fun _ _ _ => ret tt) load_bias.

(** The table of the program headers at the offset that the ELF header gives. *)
Definition phdrs_at (A : addr_type) (m : Memory) (ehdr : Ehdr) (phdrs : list Phdr) : Prop :=
  e_phnum ehdr = Z.of_nat (length phdrs) /\
  forall i p, phdrs !! i = Some p -> read_phdr A m (u64 (e_phoff ehdr + e_phentsize ehdr * Z.of_nat i)) = Some p.

Definition load_segment (p : Phdr) : bool := p_type p =? PT_LOAD.
Definition exec_segment (p : Phdr) : bool := load_segment p && negb (Z.land (p_flags p) PF_X =? 0).

(** The effect of one program header on the object and on the load bias. *)
Definition add_phdr (p : Phdr) (e : ElfInterface) : ElfInterface :=
  if p_type p =? PT_LOAD then
    if exec_segment p then put_pt_loads (<[p_offset p := mkLoadInfo (p_offset p) (p_vaddr p) (p_memsz p)]> (pt_loads_ e)) e
    else e
  else if p_type p =? PT_GNU_EH_FRAME then put_eh_frame_hdr_range (p_offset p) (p_memsz p) e
  else if p_type p =? PT_DYNAMIC then put_dynamic (p_offset p) (p_vaddr p) (p_memsz p) e
  else e.
Definition bias_phdr (p : Phdr) (bias : Z) : Z := if exec_segment p && (p_offset p =? 0) then p_vaddr p else bias.

Lemma read_program_header_run p bias e :
  read_program_header (@id ElfInterface) (fun e _ => e) (fun _ _ _ => ret tt) p bias e =
    Done (bias_phdr p bias, add_phdr p e).
Proof.
  unfold read_program_header, bias_phdr, add_phdr, exec_segment, load_segment.
  destruct (p_type p =? PT_LOAD); [destruct (Z.land (p_flags p) PF_X =? 0); [done|by destruct (p_offset p =? 0)]|].
  destruct (p_type p =? PT_GNU_EH_FRAME); [done|]. by destruct (p_type p =? PT_DYNAMIC).
Qed.

Lemma add_phdr_memory p e : ei_memory (add_phdr p e) = ei_memory e.
Proof. unfold add_phdr. by repeat case_match. Qed.

Section Phdrs.
Context (A : addr_type) (m : Memory) (ehdr : Ehdr) (phdrs : list Phdr) (Hat : phdrs_at A m ehdr phdrs).

(** The offset of header [i], as the loops compute it. *)
Definition phdr_off (i : nat) : Z := u64 (e_phoff ehdr + e_phentsize ehdr * Z.of_nat i).

Lemma phdr_off_S i : u64 (phdr_off i + e_phentsize ehdr) = phdr_off (S i).
Proof. unfold phdr_off. rewrite wrap_add_l by lia. f_equal. lia. Qed.

Lemma program_headers_loop_run n i bias e :
  ei_memory e = m -> (i + n = length phdrs)%nat ->
  program_headers_loop A (@id ElfInterface) (fun e _ => e) (fun _ _ _ => ret tt) n (phdr_off i) (e_phentsize ehdr) bias e =
    Done (fold_left (fun b p => bias_phdr p b) (drop i phdrs) bias, fold_left (fun e p => add_phdr p e) (drop i phdrs) e).
Proof.
  revert i bias e. induction n as [|n IH]; intros i bias e Hm Hn; [by rewrite drop_ge by lia|].
  destruct (lookup_lt_is_Some_2 phdrs i) as [p Hp]; [lia|]. cbn [program_headers_loop]. unfold bind at 1, get. cbn [id].
  rewrite Hm, (proj2 Hat i p Hp : read_phdr A m (phdr_off i) = Some p). unfold bind at 1.
  rewrite read_program_header_run, phdr_off_S, (drop_S phdrs p i Hp).
  rewrite IH by (by rewrite ?add_phdr_memory || lia). done.
Qed.

Lemma ReadProgramHeaders_run bias e :
  in_u 64 (e_phoff ehdr) -> ei_memory e = m ->
  ReadProgramHeaders A (@id ElfInterface) (fun e _ => e) (fun _ _ _ => ret tt) ehdr bias e =
    Done (fold_left (fun b p => bias_phdr p b) phdrs bias, fold_left (fun e p => add_phdr p e) phdrs e).
Proof.
  intros Ho Hm. unfold ReadProgramHeaders. rewrite (proj1 Hat), Nat2Z.id.
  pose proof (program_headers_loop_run (length phdrs) 0 bias e Hm eq_refl) as Hrun.
  unfold phdr_off in Hrun. by rewrite Z.mul_0_r, Z.add_0_r, wrap_small in Hrun by done.
Qed.

Lemma load_bias_loop_run n i :
  (i + n = length phdrs)%nat ->
  load_bias_loop A n m (phdr_off i) (e_phentsize ehdr) =
    default 0 (p_vaddr <$> head (filter (fun p => load_segment p && (p_offset p =? 0) = true) (drop i phdrs))).
Proof.
  revert i. induction n as [|n IH]; intros i Hn; [by rewrite drop_ge by lia|].
  destruct (lookup_lt_is_Some_2 phdrs i) as [p Hp]; [lia|]. cbn [load_bias_loop].
  rewrite (proj2 Hat i p Hp : read_phdr A m (phdr_off i) = Some p), (drop_S phdrs p i Hp), filter_cons.
  fold (load_segment p). destruct (load_segment p && (p_offset p =? 0)); [done|].
  rewrite phdr_off_S. apply IH. lia.
Qed.
End Phdrs.

(** The executable segments after a number of headers. *)
Lemma pt_loads_fold phdrs e :
  pt_loads_ (fold_left (fun e p => add_phdr p e) phdrs e) =
    fold_left (fun l p => if exec_segment p then <[p_offset p := mkLoadInfo (p_offset p) (p_vaddr p) (p_memsz p)]> l else l)
      phdrs (pt_loads_ e).
Proof.
  revert e. induction phdrs as [|p phdrs IH]; intros e; [done|]. cbn [fold_left]. rewrite IH. f_equal.
  unfold add_phdr, exec_segment, load_segment. repeat case_match; simplify_eq/=; congruence.
Qed.

(** The executable segments that [pt_loads_] keeps: it has one entry for each file offset, and a later segment replaces an earlier one. *)
Definition listed (phdrs : list Phdr) (p : Phdr) : Prop :=
  exists before after, phdrs = before ++ p :: after /\ exec_segment p = true /\
    forall q, q ∈ after -> exec_segment q = true -> p_offset q <> p_offset p.

Lemma listed_cons q phdrs p :
  listed (q :: phdrs) p <->
  listed phdrs p \/ p = q /\ exec_segment q = true /\ forall r, r ∈ phdrs -> exec_segment r = true -> p_offset r <> p_offset q.
Proof.
  split.
  - intros ([|x before] & after & E & Hx & Hlast); injection E as <- ->; [by right|left; by exists before, after].
  - intros [(before & after & -> & H)|(-> & H)]; [by exists (q :: before), after|by exists [], phdrs].
Qed.

Lemma loads_lookup phdrs (l : gmap Z LoadInfo) k info :
  fold_left (fun l p => if exec_segment p then <[p_offset p := mkLoadInfo (p_offset p) (p_vaddr p) (p_memsz p)]> l else l)
    phdrs l !! k = Some info <->
  (exists p, listed phdrs p /\ k = p_offset p /\ info = mkLoadInfo (p_offset p) (p_vaddr p) (p_memsz p)) \/
  l !! k = Some info /\ forall p, p ∈ phdrs -> exec_segment p = true -> p_offset p <> k.
Proof.
  revert l. induction phdrs as [|p phdrs IH]; intros l.
  { cbn. split; [right; split; [done|]; by intros p Hp%not_elem_of_nil|]. intros [(p & (before & after & E & _) & _)|[H _]]; [by destruct before|done]. }
  cbn [fold_left]. rewrite IH. clear IH. setoid_rewrite listed_cons. setoid_rewrite elem_of_cons. destruct (exec_segment p) eqn:Hx.
  - rewrite lookup_insert_Some. split.
    + intros [(q & Hq & E)|[[[<- <-]|[Hne Hk]] Hlast]]; [left; exists q; by auto|left; exists p; by auto|].
      right. split; [done|]. intros q [->|Hq]; [done|by apply Hlast].
    + intros [(q & [Hq|(-> & _ & Hlast)] & -> & ->)|[Hk Hlast]]; [left; by exists q|right; by auto|].
      right. split; [right|]; by auto.
  - split.
    + intros [(q & Hq & E)|[Hk Hlast]]; [left; exists q; by auto|]. right. split; [done|]. intros q [->|Hq]; [congruence|by apply Hlast].
    + intros [(q & [Hq|(_ & E & _)] & H)|[Hk Hlast]]; [left; by exists q|done|]. right. by auto.
Qed.

Lemma listed_exists phdrs : existsb exec_segment phdrs = true -> exists p, listed phdrs p.
Proof.
  induction phdrs as [|p phdrs IH]; [done|]. cbn [existsb]. setoid_rewrite listed_cons. intros H.
  destruct (existsb exec_segment phdrs) eqn:E; [destruct (IH eq_refl) as [q Hq]; eauto|]. rewrite orb_false_r in H.
  exists p. right. split; [done|]. split; [done|]. intros r Hr%list_elem_of_In Hx. exfalso.
  assert (existsb exec_segment phdrs = true) by (apply existsb_exists; eauto). congruence.
Qed.

Lemma listed_none phdrs p : existsb exec_segment phdrs = false -> ~ listed phdrs p.
Proof.
  intros H (before & after & -> & Hx & _). rewrite existsb_app in H. cbn [existsb] in H. by rewrite Hx, orb_true_r in H.
Qed.

(** * Section headers *)

(** The section headers change neither the segments nor the memory, and reading them ends. *)
Definition keeps_segments (e e' : ElfInterface) : Prop := pt_loads_ e' = pt_loads_ e /\ ei_memory e' = ei_memory e.

Lemma section_name_ends m a : exists name, section_name m a = Done name.
Proof. apply read_name_ends. unfold in_u. lia. Qed.

Lemma read_section_header_keeps A ehdr off size shdr e :
  wp no_fault (read_section_header A ehdr off size shdr) (fun _ e' => keeps_segments e e') e.
Proof.
  unfold read_section_header. wp_simpl. destruct (section_name_ends (ei_memory e) (u64 (off + sh_name shdr))) as [name Hn].
  repeat (case_goal; wp_simpl; try rewrite !Hn; try done).
Qed.

Lemma section_headers_loop_keeps A n ehdr o off size e :
  wp no_fault (section_headers_loop A n ehdr o off size) (fun _ e' => keeps_segments e e') e.
Proof.
  revert o e. induction n as [|n IH]; intros o e; [done|]. cbn [section_headers_loop]. wp_simpl.
  destruct (read_shdr A (ei_memory e) o) as [shdr|]; [|done]. wp_simpl.
  eapply wp_mono; [apply read_section_header_keeps|done|]. intros _ e1 [H1 H2].
  eapply wp_mono; [apply IH|done|]. intros _ e2 [H3 H4]. split; congruence.
Qed.

(** The product of two 16-bit members is an [int]: it overflows from [2 ^ 31] on. *)
Definition names_offset_fits (ehdr : Ehdr) : Prop :=
  e_shstrndx ehdr < e_shnum ehdr -> e_shstrndx ehdr * e_shentsize ehdr < 2 ^ 31.

Lemma ReadSectionHeaders_overflow A ehdr e :
  e_shstrndx ehdr < e_shnum ehdr -> 2 ^ 31 <= e_shstrndx ehdr * e_shentsize ehdr ->
  ReadSectionHeaders A ehdr e = Fault (Undef UbOverflow).
Proof.
  intros Hlt Hmul. unfold ReadSectionHeaders, section_names, mul16. by rewrite (proj2 (Z.ltb_lt _ _) Hlt), (proj2 (Z.leb_le _ _) Hmul).
Qed.

Lemma ReadSectionHeaders_keeps A ehdr e :
  names_offset_fits ehdr ->
  wp no_fault (ReadSectionHeaders A ehdr) (fun _ e' => keeps_segments e e') e.
Proof.
  intros Hmul. unfold ReadSectionHeaders, section_names. wp_simpl.
  destruct (Z.ltb_spec (e_shstrndx ehdr) (e_shnum ehdr)) as [Hlt|]; wp_simpl; [|apply section_headers_loop_keeps].
  unfold mul16. rewrite (proj2 (Z.leb_gt _ _)) by exact (Hmul Hlt). wp_simpl.
  destruct (read_shdr _ _ _); apply section_headers_loop_keeps.
Qed.

(** * The object after its headers are read *)

Definition at_start (p : Phdr) : Prop := load_segment p && (p_offset p =? 0) = true.

Lemma bias_fold phdrs bias :
  (forall p, p ∈ phdrs -> at_start p -> exec_segment p = true) ->
  fold_left (fun b p => bias_phdr p b) phdrs bias = default bias (p_vaddr <$> last (filter at_start phdrs)).
Proof.
  induction phdrs as [|p phdrs IH] using rev_ind; intros Hx; [done|].
  rewrite fold_left_app, filter_app. cbn [fold_left].
  rewrite filter_cons, filter_nil. unfold bias_phdr at 1. unfold at_start in *. case_decide as Hp.
  - rewrite last_snoc, (Hx p) by (done || (apply elem_of_app; right; by left)).
    apply andb_true_iff in Hp as [_ ->]. done.
  - assert (exec_segment p && (p_offset p =? 0) = false) as ->.
    { apply not_true_iff_false. intros [[Hl _]%andb_true_iff Ho]%andb_true_iff. apply Hp. by rewrite Hl, Ho. }
    rewrite app_nil_r. apply IH. intros q Hq. apply Hx. apply elem_of_app. by left.
Qed.

Lemma ReadAllHeaders_run A m ehdr phdrs :
  read_ehdr A m 0 = Some ehdr -> in_u 64 (e_phoff ehdr) -> phdrs_at A m ehdr phdrs ->
  names_offset_fits ehdr ->
  exists e', base_ReadAllHeaders A 0 (new_ElfInterface m) =
      Done (Some (fold_left (fun b p => bias_phdr p b) phdrs 0), e') /\
    pt_loads_ e' = pt_loads_ (fold_left (fun e p => add_phdr p e) phdrs (new_ElfInterface m)).
Proof.
  intros He Ho Hat Hmul. unfold base_ReadAllHeaders, ReadAllHeaders, bind, get. cbn [id new_ElfInterface ei_memory].
  rewrite He. fold (new_ElfInterface m). rewrite (ReadProgramHeaders_run A m ehdr phdrs Hat 0 (new_ElfInterface m) Ho eq_refl).
  set (e1 := fold_left _ phdrs _). destruct (wp_elim _ _ _ (ReadSectionHeaders_keeps A ehdr e1 Hmul)) as (u & e2 & Hrun & Hk & _).
  unfold on_interface, zoom. cbn [id]. rewrite Hrun. by exists e2.
Qed.

Lemma ReadAllHeaders_overflow A m ehdr phdrs :
  read_ehdr A m 0 = Some ehdr -> in_u 64 (e_phoff ehdr) -> phdrs_at A m ehdr phdrs ->
  e_shstrndx ehdr < e_shnum ehdr -> 2 ^ 31 <= e_shstrndx ehdr * e_shentsize ehdr ->
  base_ReadAllHeaders A 0 (new_ElfInterface m) = Fault (Undef UbOverflow).
Proof.
  intros He Ho Hat Hlt Hmul. unfold base_ReadAllHeaders, ReadAllHeaders, bind, get. cbn [id new_ElfInterface ei_memory].
  rewrite He. fold (new_ElfInterface m). rewrite (ReadProgramHeaders_run A m ehdr phdrs Hat 0 (new_ElfInterface m) Ho eq_refl).
  unfold on_interface, zoom. cbn [id]. by rewrite ReadSectionHeaders_overflow.
Qed.

(** An FDE of one of the sections covers the pc. *)
Definition fde_covers (A : addr_type) (fuel : nat) (pc : Z) : EI bool :=
  fde <- on_debug_frame (any_GetFdeFromPc A fuel pc) ;;
  if bool_decide (is_Some (mjoin fde)) then ret true
  else
    fde <- on_eh_frame (any_GetFdeFromPc A fuel pc) ;;
    ret (bool_decide (is_Some (mjoin fde))).

Lemma valid_pc_listed A phdrs e fuel pc :
  pt_loads_ e = fold_left (fun l p => if exec_segment p then <[p_offset p := mkLoadInfo (p_offset p) (p_vaddr p) (p_memsz p)]> l else l) phdrs ∅ ->
  if existsb exec_segment phdrs then
    exists b, IsValidPc A fuel pc e = Done (b, e) /\
      (b = true <-> exists p, listed phdrs p /\ p_vaddr p <= pc < u64 (p_vaddr p + p_memsz p))
  else IsValidPc A fuel pc e = fde_covers A fuel pc e.
Proof.
  intros Hl. pose proof (fun k info => loads_lookup phdrs ∅ k info) as Hlook. rewrite <- Hl in Hlook.
  unfold IsValidPc, fde_covers. rewrite bind_get. destruct (existsb exec_segment phdrs) eqn:Hx.
  - assert (size (pt_loads_ e) <> 0%nat) as Hsz.
    { intros Hz%map_size_empty_iff. destruct (listed_exists phdrs Hx) as [p Hp].
      assert (pt_loads_ e !! p_offset p = Some (mkLoadInfo (p_offset p) (p_vaddr p) (p_memsz p))) as E by (apply Hlook; left; by exists p).
      by rewrite Hz, lookup_empty in E. }
    rewrite (proj2 (Z.eqb_neq _ _)) by lia. cbn [negb]. eexists. split; [reflexivity|]. rewrite existsb_exists. setoid_rewrite <- list_elem_of_In.
    unfold in_load. split.
    + intros ([k info] & Hin & Hpc). apply elem_of_map_to_list, Hlook in Hin as [(p & Hp & -> & ->)|[Hk _]]; [|by rewrite lookup_empty in Hk].
      exists p. split; [done|]. cbn [snd table_offset table_size] in Hpc. lia.
    + intros (p & Hp & Hpc). eexists (p_offset p, _). split; [apply elem_of_map_to_list, Hlook; left; by exists p|].
      cbn [snd table_offset table_size]. lia.
  - assert (pt_loads_ e = ∅) as ->; [|by rewrite map_size_empty].
    apply map_empty. intros k. apply eq_None_not_Some. intros [info Hk]. apply Hlook in Hk as [(p & Hp & _)|[Hk _]]; [by apply (listed_none phdrs p)|].
    by rewrite lookup_empty in Hk.
Qed.

(** C37. The valid pcs of an object with a readable ELF header and program header table, whatever its section headers hold.
    [ReadAllHeaders] succeeds unless the [int] product of [e_shstrndx] and [e_shentsize] overflows. For any later state of the object with
    the same segments, [IsValidPc] then returns [true] exactly for an address in an executable segment that is [listed]: one that
    no later executable segment with the same file offset replaces. The end of a segment is computed in 64 bits, so that one
    that wraps around has no address. For an object without executable segments the answer is that of the FDEs. *)
Theorem elf_valid_pc A m ehdr phdrs
  (He : read_ehdr A m 0 = Some ehdr) (Ho : in_u 64 (e_phoff ehdr)) (Hat : phdrs_at A m ehdr phdrs) :
  match base_ReadAllHeaders A 0 (new_ElfInterface m) with
  | Done (Some bias, e') =>
      forall e fuel pc, pt_loads_ e = pt_loads_ e' ->
        if existsb exec_segment phdrs then
          exists b, IsValidPc A fuel pc e = Done (b, e) /\
            (b = true <-> exists p, listed phdrs p /\ p_vaddr p <= pc < u64 (p_vaddr p + p_memsz p))
        else IsValidPc A fuel pc e = fde_covers A fuel pc e
  | Done (None, _) => False
  | Fault f => f = Undef UbOverflow /\ e_shstrndx ehdr < e_shnum ehdr /\ 2 ^ 31 <= e_shstrndx ehdr * e_shentsize ehdr
  end.
Proof.
  destruct (decide (e_shstrndx ehdr < e_shnum ehdr /\ 2 ^ 31 <= e_shstrndx ehdr * e_shentsize ehdr)) as [[Hlt Hmul]|Hno].
  { by rewrite (ReadAllHeaders_overflow A m ehdr phdrs). }
  destruct (ReadAllHeaders_run A m ehdr phdrs He Ho Hat) as (e' & -> & Hl); [unfold names_offset_fits; lia|].
  rewrite pt_loads_fold in Hl. cbn [new_ElfInterface pt_loads_] in Hl. intros e fuel pc Hpl. rewrite Hl in Hpl. by apply valid_pc_listed.
Qed.

(** The two ways to the load bias: the one that [ReadAllHeaders] reports, from the executable
    segments, is the one that [GetLoadBias] reads directly from the program headers, from all
    loaded segments, when there is at most one segment at offset 0 and it is executable. Without an
    executable segment at offset 0 [ReadAllHeaders] reports 0, also where [GetLoadBias] does not. *)
Theorem elf_load_bias_agree A m ehdr phdrs
  (He : read_ehdr A m 0 = Some ehdr) (Ho : in_u 64 (e_phoff ehdr)) (Hat : phdrs_at A m ehdr phdrs)
  (Hmul : e_shstrndx ehdr * e_shentsize ehdr < 2 ^ 31)
  (Hone : (length (filter at_start phdrs) <= 1)%nat) :
  exists bias e', base_ReadAllHeaders A 0 (new_ElfInterface m) = Done (Some bias, e') /\
    GetLoadBias A m = default 0 (p_vaddr <$> head (filter at_start phdrs)) /\
    ((forall p, p ∈ phdrs -> at_start p -> exec_segment p = true) -> bias = GetLoadBias A m) /\
    ((forall p, p ∈ phdrs -> at_start p -> exec_segment p = false) -> bias = 0).
Proof.
  destruct (ReadAllHeaders_run A m ehdr phdrs He Ho Hat (fun _ => Hmul)) as (e' & Hrun & _). eexists _, e'. split; [exact Hrun|].
  assert (GetLoadBias A m = default 0 (p_vaddr <$> head (filter at_start phdrs))) as Hg.
  { unfold GetLoadBias. rewrite He, (proj1 Hat), Nat2Z.id.
    pose proof (load_bias_loop_run A m ehdr phdrs Hat (length phdrs) 0 eq_refl) as Hb.
    unfold phdr_off in Hb. by rewrite Z.mul_0_r, Z.add_0_r, wrap_small in Hb by done. }
  split; [done|]. split; intros Hx.
  - rewrite (bias_fold phdrs 0 Hx), Hg. do 2 f_equal. destruct (filter at_start phdrs) as [|p [|q l]]; simpl in *; (done || lia).
  - clear -Hx. assert (forall b, fold_left (fun b p => bias_phdr p b) phdrs b = b) as Hb; [|by rewrite Hb].
    induction phdrs as [|p phdrs IH]; intros b; [done|]. cbn [fold_left]. rewrite IH by (intros q Hq; apply Hx; by right).
    unfold bias_phdr. destruct (exec_segment p && (p_offset p =? 0)) eqn:Hp; [|done]. exfalso.
    apply andb_true_iff in Hp as [Hp Ho']. pose proof Hp as Hl. unfold exec_segment in Hl. apply andb_true_iff in Hl as [Hl _].
    rewrite (Hx p) in Hp; [done|by left|]. unfold at_start. by rewrite Hl, Ho'.
Qed.

(** * Build identifiers *)

(** A note: its name as it is stored, with the terminator, its type and its descriptor. *)
Record note := mkNote { note_name : list byte; note_type : Z; note_desc : list byte }.

Definition pad4 (bs : list byte) : list byte := bs ++ replicate (Z.to_nat (align4 (len bs) - len bs)) x00.

Definition encode_note (n : note) : list byte :=
  encode_fields nhdr_widths [len (note_name n); len (note_desc n); note_type n] ++ pad4 (note_name n) ++ pad4 (note_desc n).

Definition note_ok (n : note) : Prop :=
  len (note_name n) < 2 ^ 32 - 3 /\ len (note_desc n) < 2 ^ 32 - 3 /\ in_u 32 (note_type n).

Definition is_build_id (n : note) : bool :=
  bool_decide (trim_name (note_name n) = str "GNU") && (note_type n =? NT_GNU_BUILD_ID).

Lemma align4_eq n : 0 <= n < 2 ^ 32 - 3 -> align4 n = 4 * ((n + 3) / 4).
Proof.
  intros Hn. unfold align4. rewrite wrap_small by (unfold in_u; lia).
  assert (Z.land (n + 3) (u32 (Z.lnot 3)) = Z.ldiff (n + 3) (Z.ones 2)) as ->.
  { change (u32 (Z.lnot 3)) with (Z.ldiff (Z.ones 32) (Z.ones 2)).
    apply Z.bits_inj'. intros k Hk. rewrite Z.land_spec, !Z.ldiff_spec.
    destruct (Z.ltb_spec k 32); [rewrite Z.ones_spec_low by lia; by rewrite andb_true_l|].
    rewrite <- (Z.mod_small (n + 3) (2 ^ 32)) by lia. by rewrite Z.mod_pow2_bits_high by lia. }
  rewrite Z.ldiff_ones_r, Z.shiftl_mul_pow2, Z.shiftr_div_pow2 by lia. change (2 ^ 2) with 4. lia.
Qed.

Lemma len_pad4 bs : len bs < 2 ^ 32 - 3 -> len (pad4 bs) = align4 (len bs) /\ len bs <= align4 (len bs).
Proof.
  intros Hl. pose proof (len_nonneg bs). pose proof (align4_eq (len bs) ltac:(lia)) as Ha.
  assert (len bs <= align4 (len bs)) as Hle by (rewrite Ha; Z.div_mod_to_equations; lia).
  split; [|done]. unfold pad4. rewrite len_app. unfold len at 2. rewrite length_replicate. lia.
Qed.

Section Notes.
Context (m : Memory) (bm : Z -> option byte) {Hm : ByteMemory m bm} (start size : Z).
Context (Hstart : 0 <= start) (Hsize : start + size < 2 ^ 64) (finish : Z -> Z -> outcome (list byte)).

Lemma len_encode_note n : note_ok n ->
  len (encode_note n) = 12 + align4 (len (note_name n)) + align4 (len (note_desc n)).
Proof.
  intros (H1 & H2 & _). unfold encode_note. rewrite !len_app, (len_encode_fields nhdr_widths) by done.
  rewrite (proj1 (len_pad4 _ H1)), (proj1 (len_pad4 _ H2)). change (struct_size nhdr_widths) with 12. lia.
Qed.

(** One note of the section. *)
Lemma notes_loop_note n fuel o :
  note_ok n -> 0 <= o -> o + len (encode_note n) <= size -> holds bm (start + o) (encode_note n) ->
  notes_loop (S fuel) m start size o finish =
    let d := o + 12 + align4 (len (note_name n)) in
    if is_build_id n then
      if len (note_desc n) =? 0 then Done [] else finish (start + d) (len (note_desc n))
    else notes_loop fuel m start size (o + len (encode_note n)) finish.
Proof.
  intros Hok Ho Hfit Hh. pose proof (len_encode_note n Hok) as Hlen. destruct Hok as (H1 & H2 & H3).
  pose proof (len_pad4 _ H1) as [Hp1 Hq1]. pose proof (len_pad4 _ H2) as [Hp2 Hq2].
  pose proof (len_nonneg (note_name n)) as Hn1. pose proof (len_nonneg (note_desc n)) as Hn2.
  unfold encode_note in Hh. apply holds_app in Hh as [Hhdr Hh]. apply holds_app in Hh as [Hname _].
  rewrite (len_encode_fields nhdr_widths) in Hname by done. change (struct_size nhdr_widths) with 12 in *.
  unfold pad4 in Hname. apply holds_app in Hname as [Hname _].
  cbn [notes_loop]. rewrite (proj2 (Z.ltb_lt o size)) by lia. change (struct_size nhdr_widths) with 12.
  rewrite (wrap_small 64 (size - o)), (proj2 (Z.ltb_ge (size - o) 12)) by (unfold in_u; lia).
  rewrite (wrap_small 64 (start + o)) by (unfold in_u; lia).
  assert (Forall2 (fun w v => in_u (8 * Z.of_nat w) v) nhdr_widths [len (note_name n); len (note_desc n); note_type n]) as Hf.
  { constructor; [|constructor; [|constructor; [exact H3|constructor]]]; unfold in_u; simpl; lia. }
  unfold read_nhdr. rewrite (read_struct_run nhdr_widths _ m bm (start + o) Hf ltac:(unfold in_u; lia) Hhdr).
  cbn [fmap option_fmap option_map]. change (nhdr_of _) with (mkNhdr (len (note_name n)) (len (note_desc n)) (note_type n)).
  cbn [n_namesz n_descsz n_type]. cbv zeta.
  rewrite (wrap_small 64 (o + 12)), (wrap_small 64 (size - (o + 12))), (proj2 (Z.ltb_ge (size - _) _)) by (unfold in_u; lia).
  destruct (Z.ltb_spec 0 (len (note_name n))) as [Hpos|Hz].
  - rewrite (wrap_small 64 (start + (o + 12))) by (unfold in_u; lia).
    replace (start + (o + 12)) with (start + o + 12) by lia.
    rewrite (ReadFully_holds bm (start + o + 12) _ ltac:(unfold in_u; lia) Hname). unfold is_build_id.
    rewrite (wrap_small 64 (o + 12 + align4 (len (note_name n)))) by (unfold in_u; lia).
    destruct (bool_decide _ && _).
    + rewrite (wrap_small 64 (size - _)), (proj2 (Z.ltb_ge (size - _) _)) by (unfold in_u; lia). cbn [orb].
      destruct (len (note_desc n) =? 0); [done|]. rewrite wrap_small by (unfold in_u; lia). done.
    + rewrite wrap_small by (unfold in_u; lia). f_equal. lia.
  - assert (note_name n = []) as Hnil by (unfold len in *; destruct (note_name n); [done|simpl in *; lia]).
    unfold is_build_id. rewrite Hnil in *. rewrite bool_decide_eq_false_2 by done. cbn [andb].
    change (align4 (len [])) with 0 in *. rewrite wrap_small by (unfold in_u; lia). f_equal. lia.
Qed.

Lemma notes_loop_run pre n fuel o :
  Forall note_ok pre -> Forall (fun n => is_build_id n = false) pre -> note_ok n -> is_build_id n = true ->
  note_desc n <> [] -> (length pre < fuel)%nat -> 0 <= o ->
  o + len (pre ≫= encode_note) + len (encode_note n) <= size -> holds bm (start + o) ((pre ≫= encode_note) ++ encode_note n) ->
  exists a, notes_loop fuel m start size o finish = finish a (len (note_desc n)) /\ in_u 64 a /\ holds bm a (note_desc n).
Proof.
  intros Hpre Hno Hn Hid Hne. revert fuel o. induction Hpre as [|p pre Hp Hpre IH]; intros fuel o Hfuel Ho Hfit Hh;
    (destruct fuel as [|fuel]; [simpl in Hfuel; lia|]).
  - cbn [mbind list_bind app] in Hh, Hfit. change (len []) with 0 in Hfit. rewrite (notes_loop_note n) by (done || lia).
    cbv zeta. rewrite Hid. rewrite (proj2 (Z.eqb_neq _ _)) by (unfold len; destruct (note_desc n); [done|simpl; lia]).
    exists (start + (o + 12 + align4 (len (note_name n)))). split; [done|].
    pose proof (len_encode_note n Hn) as Hlen. destruct Hn as (H1 & H2 & _).
    pose proof (len_pad4 _ H1) as [Hp1 Hq1]. pose proof (len_pad4 _ H2) as [Hp2 Hq2].
    pose proof (len_nonneg (note_name n)). pose proof (len_nonneg (note_desc n)).
    split; [unfold in_u; lia|]. unfold encode_note in Hh. apply holds_app in Hh as [_ Hh].
    apply holds_app in Hh as [_ Hh]. rewrite (len_encode_fields nhdr_widths), Hp1 in Hh by done.
    change (struct_size nhdr_widths) with 12 in Hh. unfold pad4 in Hh. apply holds_app in Hh as [Hh _].
    replace (start + (o + 12 + align4 (len (note_name n)))) with (start + o + 12 + align4 (len (note_name n))) by lia. done.
  - rewrite bind_cons, <- app_assoc in Hh. rewrite bind_cons, len_app in Hfit. apply Forall_cons in Hno as [Hpid Hno].
    apply holds_app in Hh as [Hh1 Hh2]. pose proof (len_nonneg (pre ≫= encode_note)). pose proof (len_nonneg (encode_note n)).
    rewrite (notes_loop_note p) by (done || lia). cbv zeta. rewrite Hpid. pose proof (len_nonneg (encode_note p)).
    apply IH; [done|simpl in Hfuel; lia|lia|lia|]. by replace (start + (o + len (encode_note p))) with (start + o + len (encode_note p)) by lia.
Qed.
End Notes.

(** C38. The build identifier of a section of notes: [ReadBuildID] skips the notes before it, ends, and
    returns all of its bytes. [ReadBuildIDFromMemory], which reads the same section through the
    section headers, returns it without its last byte, and overwrites the terminator of the
    string when that byte is not zero. *)
Theorem elf_build_id A bm e pre n fuel
  (Hm : ByteMemory (ei_memory e) bm) (Hpre : Forall note_ok pre) (Hno : Forall (fun n => is_build_id n = false) pre)
  (Hn : note_ok n) (Hid : is_build_id n = true) (Hne : note_desc n <> []) (Hfuel : (length pre < fuel)%nat)
  (Hstart : 0 <= gnu_build_id_offset_ e) (Hfit : gnu_build_id_offset_ e + gnu_build_id_size_ e < 2 ^ 64)
  (Hsize : len (pre ≫= encode_note) + len (encode_note n) <= gnu_build_id_size_ e)
  (Hh : holds bm (gnu_build_id_offset_ e) ((pre ≫= encode_note) ++ encode_note n))
  (Hinfo : GetBuildIDInfo A (ei_memory e) = Done (Some (gnu_build_id_offset_ e, gnu_build_id_size_ e))) :
  ReadBuildID fuel e = Done (note_desc n) /\
  ReadBuildIDFromMemory A (ei_memory e) fuel =
    if decide (List.last (note_desc n) x00 = x00) then Done (removelast (note_desc n)) else Fault (Undef UbStringEnd).
Proof.
  rewrite <- (Z.add_0_r (gnu_build_id_offset_ e)) in Hh.
  assert (forall finish, exists a, notes_loop fuel (ei_memory e) (gnu_build_id_offset_ e) (gnu_build_id_size_ e) 0 finish =
    finish a (len (note_desc n)) /\ in_u 64 a /\ holds bm a (note_desc n)) as Hloop.
  { intros finish. by eapply notes_loop_run. }
  unfold ReadBuildID, ReadBuildIDFromMemory. rewrite Hinfo, (proj2 (Z.leb_gt _ _)) by done. split.
  - destruct (Hloop (whole_id (ei_memory e))) as (a & -> & Ha & Hd). unfold whole_id. by rewrite (ReadFully_holds bm a _ Ha Hd).
  - destruct (Hloop (short_id (ei_memory e))) as (a & -> & Ha & Hd). unfold short_id. by rewrite (ReadFully_holds bm a _ Ha Hd).
Qed.

(** * Witnesses *)

(** A 32-bit object with two executable segments, a build identifier at 116, the section names at 136
    and three section headers at 156. *)
Definition example_phdrs : list Phdr := [mkPhdr 1 5 0 0x1000 0x100 0x100; mkPhdr 1 5 0x200 0x3000 0x80 0x80].
Definition example_ehdr : Ehdr := mkEhdr 40 52 156 32 2 40 3 2.
Definition example_note : note := mkNote [x47; x4e; x55; x00] 3 [x01; x02; x03; x00].
Definition example_elf : list byte :=
  encode_fields (ehdr_widths U32) [0; 3; 40; 1; 0; 52; 156; 0; 52; 32; 2; 40; 3; 2] ++
  encode_fields (phdr_widths U32) [1; 0; 0x1000; 0x1000; 0x100; 0x100; 5; 0x1000] ++
  encode_fields (phdr_widths U32) [1; 0x200; 0x3000; 0x3000; 0x80; 0x80; 5; 0x1000] ++
  encode_note example_note ++ (x00 :: str ".note.gnu.build-id" ++ [x00]) ++
  encode_fields (shdr_widths U32) [0; 0; 0; 0; 0; 0; 0; 0; 0; 0] ++
  encode_fields (shdr_widths U32) [1; 7; 0; 0; 116; 20; 0; 0; 4; 0] ++
  encode_fields (shdr_widths U32) [0; 3; 0; 0; 136; 20; 0; 0; 1; 0].
Definition example_elf_memory : Memory := MemoryBuffer.memory (MemoryBuffer.mk example_elf).

Lemma example_phdrs_at : phdrs_at U32 example_elf_memory example_ehdr example_phdrs.
Proof. split; [reflexivity|]. intros i p Hp. do 2 (destruct i as [|i]; [injection Hp as <-; vm_compute; reflexivity|]). discriminate Hp. Qed.

Lemma elf_valid_pc_witness :
  exists bias e, base_ReadAllHeaders U32 0 (new_ElfInterface example_elf_memory) = Done (Some bias, e) /\
    forall fuel pc, exists b, IsValidPc U32 fuel pc e = Done (b, e) /\
      (b = true <-> exists p, listed example_phdrs p /\ p_vaddr p <= pc < u64 (p_vaddr p + p_memsz p)).
Proof.
  pose proof (elf_valid_pc U32 example_elf_memory example_ehdr example_phdrs) as H.
  destruct (base_ReadAllHeaders U32 0 (new_ElfInterface example_elf_memory)) as [[[bias|] e]|f].
  - exists bias, e. split; [reflexivity|]. intros fuel pc. refine (H _ _ _ e fuel pc eq_refl).
    + vm_compute. reflexivity.
    + unfold in_u. cbn. lia.
    + exact example_phdrs_at.
  - exfalso. refine (H _ _ _); [vm_compute; reflexivity|unfold in_u; cbn; lia|exact example_phdrs_at].
  - exfalso. destruct H as (_ & _ & H); [vm_compute; reflexivity|unfold in_u; cbn; lia|exact example_phdrs_at|]. cbn in H. lia.
Defined.

Lemma elf_load_bias_agree_witness :
  exists bias e', base_ReadAllHeaders U32 0 (new_ElfInterface example_elf_memory) = Done (Some bias, e') /\
    GetLoadBias U32 example_elf_memory = 0x1000 /\ bias = 0x1000.
Proof.
  destruct (elf_load_bias_agree U32 example_elf_memory example_ehdr example_phdrs) as (bias & e' & Hrun & Hg & Heq & _).
  - vm_compute. reflexivity.
  - unfold in_u. cbn. lia.
  - exact example_phdrs_at.
  - cbn. lia.
  - vm_compute. reflexivity.
  - assert (GetLoadBias U32 example_elf_memory = 0x1000) as Hv by (rewrite Hg; reflexivity).
    exists bias, e'. split; [exact Hrun|]. split; [exact Hv|]. rewrite <- Hv. apply Heq.
    intros p Hp _. unfold example_phdrs in Hp. rewrite !elem_of_cons in Hp.
    destruct Hp as [->|[->|Hp]]; [reflexivity..|]. apply elem_of_nil in Hp. destruct Hp.
Defined.

Definition example_note_elf : ElfInterface := put_gnu_build_id_range 116 20 (new_ElfInterface example_elf_memory).

Lemma elf_build_id_witness :
  ReadBuildID 1 example_note_elf = Done [x01; x02; x03; x00] /\
  ReadBuildIDFromMemory U32 example_elf_memory 1 = Done [x01; x02; x03].
Proof.
  apply (elf_build_id U32 (buffer_bytes example_elf) example_note_elf [] example_note 1).
  - apply (MemoryBuffer_bytes (MemoryBuffer.mk example_elf)). vm_compute. discriminate.
  - constructor.
  - constructor.
  - split; [reflexivity|]. split; [reflexivity|]. split; [discriminate|reflexivity].
  - reflexivity.
  - discriminate.
  - simpl. lia.
  - cbn. lia.
  - cbn. lia.
  - vm_compute. discriminate.
  - vm_compute. reflexivity.
  - lazy. reflexivity.
Defined.
