(* ===== verification/ElfInterfaceArm.v ===== *)
(** [ElfInterfaceArm.cpp], [ElfInterfaceArm.h]: an ELF object of ARM with its index of exception
    tables.

    The record adds the members of the class to those of [ElfInterface]. *)
From Stdlib Require Import ZArith Lia Bool Strings.Byte.
From stdpp Require Import base numbers list gmap.
From S2P Require Import Prelude Memory DwarfMemory DwarfStructs Regs DwarfEhFrameWithHdr ElfTypes Symbols ElfInterface ArmExidx.
#[local] Open Scope Z_scope.

(** * The class *)

Record ElfInterfaceArm := mkElfArm {
  arm_base : ElfInterface;
  start_offset_ : Z;
  total_entries_ : Z;
  arm_load_bias_ : Z;
  addrs_ : gmap Z Z
}.

Definition new_ElfInterfaceArm (memory : Memory) : ElfInterfaceArm := mkElfArm (new_ElfInterface memory) 0 0 0 ∅.

Definition put_arm_base (b : ElfInterface) (e : ElfInterfaceArm) : ElfInterfaceArm :=
  mkElfArm b (start_offset_ e) (total_entries_ e) (arm_load_bias_ e) (addrs_ e).
Definition put_exidx (start entries : Z) (e : ElfInterfaceArm) : ElfInterfaceArm :=
  mkElfArm (arm_base e) start entries (arm_load_bias_ e) (addrs_ e).
Definition set_load_bias (b : Z) (e : ElfInterfaceArm) : ElfInterfaceArm :=
  mkElfArm (arm_base e) (start_offset_ e) (total_entries_ e) b (addrs_ e).
Definition put_addrs (m : gmap Z Z) (e : ElfInterfaceArm) : ElfInterfaceArm :=
  mkElfArm (arm_base e) (start_offset_ e) (total_entries_ e) (arm_load_bias_ e) m.

Abbreviation EA := (M ElfInterfaceArm).

Definition on_arm_base {B} (m : EI B) : EA B := zoom arm_base put_arm_base m.

(** * Headers *)

Definition HandleUnknownType (type ph_offset ph_filesz : Z) : EA unit :=
  if negb (type =? PT_ARM_EXIDX) then ret tt else modify (put_exidx ph_offset (ph_filesz / 8)).

(** [None] is [return false]; otherwise the new value of [*load_bias]. *)
Definition Init (load_bias : Z) : EA (option Z) :=
  r <- ReadAllHeaders U32 arm_base put_arm_base HandleUnknownType load_bias ;;
  match r with
  | None => ret None
  | Some load_bias => modify (set_load_bias load_bias) ;; ret (Some load_bias)
  end.

(** * The index *)

(** The left shift is one of an [int32_t], which is undefined when the value is negative. *)
Definition GetPrel31Addr (offset : Z) : EA (option Z) :=
  e <- get ;;
  match Read32 (ei_memory (arm_base e)) offset with
  | None => on_arm_base (modify (put_ei_error (mkErrorData ERROR_MEMORY_INVALID offset))) ;; ret None
  | Some data =>
      if sgn 32 data <? 0 then fail (Undef UbShift)
      else ret (Some (u32 (offset + Z.shiftr (sgn 32 (Z.shiftl data 1)) 1)))
  end.

(** The address of entry [index]: 0 in [addrs_] means that it was not read yet. [None] is
    [return false]. *)
Definition entry_addr (index : Z) : EA (option Z) :=
  e <- get ;;
  let a := default 0 (addrs_ e !! index) in
  modify (put_addrs (<[index := a]> (addrs_ e))) ;;
  if a =? 0 then
    a <-? GetPrel31Addr (u32 (start_offset_ e + index * 8)) ;;
    modify (fun e => put_addrs (<[index := a]> (addrs_ e)) e) ;;
    ret (Some a)
  else ret (Some a).

(** [*it] of an iterator at [index] *)
Definition iterator_deref (index : Z) : EA Z := a <- entry_addr index ;; ret (default 0 a).

(** The binary search: [inl] is the offset of an entry with exactly this address, [inr] the final
    value of [last]; [None] is [return false]. *)
Fixpoint find_entry_loop (fuel : nat) (pc first last : Z) : EA (option (Z + Z)) :=
  match fuel with
  | O => fail OutOfFuel
  | S fuel' =>
      if first <? last then
        let current := u64 (first + last) / 2 in
        a <-? entry_addr current ;;
        if pc =? a then e <- get ;; ret (Some (inl (u64 (start_offset_ e + u64 (current * 8)))))
        else if pc <? a then find_entry_loop fuel' pc first current
        else find_entry_loop fuel' pc (u64 (current + 1)) last
      else ret (Some (inr last))
  end.

Definition FindEntry (pc : Z) : EA (option Z) :=
  e <- get ;;
  if (start_offset_ e =? 0) || (total_entries_ e =? 0) then
    on_arm_base (set_ei_code ERROR_UNWIND_INFO) ;; ret None
  else
    r <-? find_entry_loop search_fuel pc 0 (total_entries_ e) ;;
    match r with
    | inl entry_offset => ret (Some entry_offset)
    | inr last =>
        if negb (last =? 0) then ret (Some (u64 (start_offset_ e + u64 ((last - 1) * 8))))
        else on_arm_base (set_ei_code ERROR_UNWIND_INFO) ;; ret None
    end.

(** * A step *)

(** [arm.ExtractEntryData(entry_offset) && arm.Eval()] *)
Definition run_exidx (entry_offset : Z) : AX bool :=
  ok <- ExtractEntryData (u32 entry_offset) ;; if (ok : bool) then ArmExidx.Eval else ret false.

(** The error for a status with which [StepExidx] fails. *)
Definition exidx_error (status : ArmStatus) (status_address : Z) (e : ErrorData) : ErrorData :=
  match status with
  | ARM_STATUS_NONE | ARM_STATUS_NO_UNWIND | ARM_STATUS_FINISH => set_code ERROR_NONE e
  | ARM_STATUS_RESERVED | ARM_STATUS_SPARE | ARM_STATUS_TRUNCATED | ARM_STATUS_MALFORMED
  | ARM_STATUS_INVALID_ALIGNMENT | ARM_STATUS_INVALID_PERSONALITY => set_code ERROR_UNWIND_INFO e
  | ARM_STATUS_READ_FAILED => mkErrorData ERROR_MEMORY_INVALID status_address
  end.

(** The PC and the SP of the caller, and [*finished]. *)
Definition finish_exidx (arm : ArmExidx) : EA (Regs * bool) :=
  let regs := arm_regs arm in
  regs <- (if pc_set_ arm then ret regs
           else lr <- read_reg ARM_REG_LR regs ;; ret (put_reg ARM_REG_PC lr regs)) ;;
  let regs := put_reg ARM_REG_SP (cfa_ arm) regs in
  pc <- read_reg ARM_REG_PC regs ;;
  ret (regs, pc =? 0).

Definition StepExidx (pc : Z) (regs : Regs) (process_memory : Memory) (finished : bool) : EA (bool * Regs * bool) :=
  e <- get ;;
  if pc <? arm_load_bias_ e then on_arm_base (set_ei_code ERROR_UNWIND_INFO) ;; ret (false, regs, finished)
  else
    entry <- FindEntry (u32 (pc - arm_load_bias_ e)) ;;
    match entry with
    | None => ret (false, regs, finished)
    | Some entry_offset =>
        sp <- read_reg ARM_REG_SP regs ;;
        let arm := put_cfa sp (new_ArmExidx regs (ei_memory (arm_base e)) process_memory) in
        r <- lift (run_exidx entry_offset arm) ;;
        let '(return_value, arm) := r in
        r <- (if (return_value : bool) then finish_exidx arm else ret (arm_regs arm, finished)) ;;
        let '(regs, finished) := r in
        if decide (status_ arm = ARM_STATUS_NO_UNWIND) then ret (true, regs, true)
        else
          (if (return_value : bool) then ret tt
           else on_arm_base (modify (fun b =>
                  put_ei_error (exidx_error (status_ arm) (status_address_ arm) (ei_error b)) b))) ;;
          ret (return_value, regs, finished)
    end.

Section Step.
Context (fuel : nat) (order : gmap Z DwarfLocation -> list (Z * DwarfLocation)).
Context {G : Type} (gnu : option (gnu_interface G)).

Definition put_base_pair (b : ElfInterface * G) (p : ElfInterfaceArm * G) : ElfInterfaceArm * G :=
  (put_arm_base (fst b) (fst p), snd b).

Definition Step (pc : Z) (regs : Regs) (process_memory : Memory) (finished : bool)
    : M (ElfInterfaceArm * G) (bool * Regs * bool) :=
  r <- zoom (fun p => (arm_base (fst p), snd p)) put_base_pair
         (ElfInterface.Step U32 fuel order gnu pc regs process_memory finished) ;;
  let '(ok, regs, finished) := r in
  if (ok : bool) then ret (true, regs, finished)
  else zoom fst (fun e p => (e, snd p)) (StepExidx pc regs process_memory finished).
End Step.

(** * Symbols *)

(** [*offset &= ~1] *)
Definition GetFunctionName (sort : list Info -> list Info) (fuel : nat) (a : Z) : EA (option (list byte * Z)) :=
  r <- on_arm_base (ElfInterface.GetFunctionName U32 sort fuel (Z.lor a 1)) ;;
  ret ((fun '(name, offset) => (name, Z.land offset (u64 (Z.lnot 1)))) <$> r).
