(* ===== verification/ElfArmUnwind.v ===== *)
(** The index of exception tables of an ARM object: its search and a step that uses it. *)
From Stdlib Require Import ZArith Lia Bool Strings.Byte.
From stdpp Require Import base numbers list gmap.
From S2P Require Import Prelude Memory DwarfMemory Regs DwarfEhFrameWithHdr ElfInterface ArmExidx ArmExidxEval ElfInterfaceArm.
#[local] Open Scope Z_scope.

(** * The table *)

Section Index.
Context (m : Memory) (start : Z) (addrs : list Z).

(** The offset of entry [i]. *)
Definition entry_off (i : nat) : Z := start + 8 * Z.of_nat i.

(** The index at [start] has an entry for each address of [addrs], as a distance of 31 bits. *)
Record index_at : Prop := {
  ix_start : 0 < start;
  ix_end : entry_off (length addrs) < 2 ^ 32;
  ix_entry : forall i a, addrs !! i = Some a ->
    in_u 32 a /\ - 2 ^ 30 <= a - entry_off i < 2 ^ 30 /\ Read32 m (entry_off i) = Some (wrap 31 (a - entry_off i))
}.

Definition index_sorted : Prop := forall i j a b, (i <= j)%nat -> addrs !! i = Some a -> addrs !! j = Some b -> a <= b.

(** The object knows the table, and what it has cached are addresses of it. *)
Record index_ok (e : ElfInterfaceArm) : Prop := {
  io_memory : ei_memory (arm_base e) = m;
  io_start : start_offset_ e = start;
  io_total : total_entries_ e = Z.of_nat (length addrs);
  io_cache : forall i a, addrs_ e !! Z.of_nat i = Some a -> a = 0 \/ addrs !! i = Some a
}.

Context (Hix : index_at).

Lemma entry_off_u32 i : (i <= length addrs)%nat -> in_u 32 (entry_off i).
Proof. pose proof (ix_start Hix). pose proof (ix_end Hix). unfold in_u, entry_off in *. lia. Qed.

Lemma GetPrel31Addr_run i a e :
  index_ok e -> addrs !! i = Some a -> GetPrel31Addr (entry_off i) e = Done (Some a, e).
Proof.
  intros He Ha. destruct (ix_entry Hix i a Ha) as (Hr & Hd & Hm).
  unfold GetPrel31Addr, bind, get. rewrite (io_memory e He), Hm.
  pose proof (wrap_range 31 (a - entry_off i) ltac:(lia)) as Hw. unfold in_u in Hw.
  rewrite sgn_small by lia. rewrite (proj2 (Z.ltb_ge _ _)) by lia. rewrite prel31_sign by done.
  replace (entry_off i + (a - entry_off i)) with a by lia. by rewrite wrap_small.
Qed.

(** An entry of the table is read, and cached. *)
Lemma entry_addr_run i a e :
  index_ok e -> addrs !! i = Some a ->
  exists c, entry_addr (Z.of_nat i) e = Done (Some a, put_addrs c e) /\ index_ok (put_addrs c e).
Proof.
  intros He Ha. pose proof (lookup_lt_Some _ _ _ Ha) as Hi.
  assert (forall c, (forall j b, c !! Z.of_nat j = Some b -> b = 0 \/ addrs !! j = Some b) -> index_ok (put_addrs c e)) as Hput.
  { intros c Hc. destruct He. by split. }
  assert (forall b, b = 0 \/ b = a -> index_ok (put_addrs (<[Z.of_nat i := b]> (addrs_ e)) e)) as Hins.
  { intros b Hb. apply Hput. intros j d. rewrite lookup_insert_Some. intros [[E <-]|[_ Hd]]; [|by apply (io_cache e He)].
    apply Nat2Z.inj in E as <-. destruct Hb as [->| ->]; [by left|by right]. }
  unfold entry_addr. unfold bind at 1, get. cbv zeta. unfold bind at 1, modify.
  assert (default 0 (addrs_ e !! Z.of_nat i) = 0 \/ default 0 (addrs_ e !! Z.of_nat i) = a) as Hdef.
  { destruct (addrs_ e !! Z.of_nat i) as [b|] eqn:Hb; [|by left]. destruct (io_cache e He _ _ Hb) as [->|Hb']; [by left|].
    right. cbn. congruence. }
  destruct (Z.eqb_spec (default 0 (addrs_ e !! Z.of_nat i)) 0) as [E|E].
  - rewrite E. unfold obind, bind. rewrite (io_start e He).
    replace (u32 (start + Z.of_nat i * 8)) with (entry_off i).
    2:{ rewrite wrap_small; unfold entry_off; [lia|]. pose proof (entry_off_u32 i ltac:(lia)) as Hu.
        unfold in_u, entry_off in *. lia. }
    rewrite (GetPrel31Addr_run i a) by (done || by apply Hins; left).
    exists (<[Z.of_nat i := a]> (addrs_ e)). split; [|apply Hins; by right].
    unfold ret, put_addrs. cbn [addrs_ arm_base start_offset_ total_entries_ arm_load_bias_]. by rewrite insert_insert_eq.
  - destruct Hdef as [?|Hdef]; [done|]. rewrite Hdef. eexists. split; [reflexivity|]. apply Hins. by right.
Qed.

(** * The search *)

(** What the loop returns: an entry with exactly the address, or the number of entries below it. *)
Definition find_post (pc : Z) (r : Z + Z) : Prop :=
  match r with
  | inl o => exists i, addrs !! i = Some pc /\ o = entry_off i
  | inr l => exists n, l = Z.of_nat n /\ (n <= length addrs)%nat /\
      (forall j b, (j < n)%nat -> addrs !! j = Some b -> b < pc) /\
      (forall j b, (n <= j)%nat -> addrs !! j = Some b -> pc < b)
  end.

Lemma find_entry_loop_S fuel pc first last :
  find_entry_loop (S fuel) pc first last =
    if first <? last then
      a <-? entry_addr (u64 (first + last) / 2) ;;
      if pc =? a then e <- get ;; ret (Some (inl (u64 (start_offset_ e + u64 (u64 (first + last) / 2 * 8)))))
      else if pc <? a then find_entry_loop fuel pc first (u64 (first + last) / 2)
      else find_entry_loop fuel pc (u64 (u64 (first + last) / 2 + 1)) last
    else ret (Some (inr last)).
Proof. reflexivity. Qed.

Lemma find_entry_loop_run fuel e pc first last :
  index_ok e -> index_sorted -> (first <= last <= length addrs)%nat -> Z.of_nat (last - first) < 2 ^ Z.of_nat fuel ->
  (forall j b, (j < first)%nat -> addrs !! j = Some b -> b < pc) ->
  (forall j b, (last <= j)%nat -> addrs !! j = Some b -> pc < b) ->
  exists r c, find_entry_loop (S fuel) pc (Z.of_nat first) (Z.of_nat last) e = Done (Some r, put_addrs c e) /\
    index_ok (put_addrs c e) /\ find_post pc r.
Proof.
  intros He Hs. revert e first last He. induction fuel as [|fuel IH]; intros e first last He Hr Hf Hlo Hhi;
    rewrite find_entry_loop_S; destruct (Z.ltb_spec (Z.of_nat first) (Z.of_nat last)).
  1: change (2 ^ Z.of_nat 0) with 1 in Hf; lia.
  1,3: exists (inr (Z.of_nat last)), (addrs_ e); (split; [by destruct e|]); (split; [by destruct e, He; split|]);
    exists last; split_and!; [done|lia| |done]; intros j b Hj; apply Hlo; lia.
  pose proof (ix_end Hix) as Hend. pose proof (ix_start Hix). unfold entry_off in Hend.
  rewrite (wrap_small 64) by (unfold in_u; lia). set (c := ((first + last) / 2)%nat).
  replace ((Z.of_nat first + Z.of_nat last) / 2) with (Z.of_nat c) by (unfold c; rewrite Nat2Z.inj_div, Nat2Z.inj_add; done).
  assert (2 * c <= first + last < 2 * c + 2)%nat as Hc.
  { unfold c. pose proof (Nat.div_mod_eq (first + last) 2). pose proof (Nat.mod_upper_bound (first + last) 2 ltac:(done)). lia. }
  clearbody c.
  rewrite Nat2Z.inj_succ, Z.pow_succ_r in Hf by lia.
  destruct (lookup_lt_is_Some_2 addrs c) as [a Ha]; [lia|].
  destruct (entry_addr_run c a e He Ha) as (c1 & Hrun & He1). unfold obind, bind. rewrite Hrun.
  assert (forall r c2, index_ok (put_addrs c2 (put_addrs c1 e)) -> find_post pc r ->
    exists r' c', Done (Some r, put_addrs c2 (put_addrs c1 e)) = Done (Some r', put_addrs c' e) /\
      index_ok (put_addrs c' e) /\ find_post pc r') as Hwrap by (intros r c2 ? ?; by exists r, c2).
  destruct (Z.eqb_spec pc a) as [->|Hne].
  { exists (inl (entry_off c)), c1. split_and!; [|done|by exists c]. unfold bind, get, ret. do 3 f_equal. cbn.
    rewrite (io_start e He). pose proof (entry_off_u32 c ltac:(lia)) as Hu. unfold in_u, entry_off in *.
    rewrite (wrap_small 64 (_ * 8)), wrap_small by (unfold in_u; lia). f_equal. lia. }
  destruct (Z.ltb_spec pc a) as [Hb|Hb].
  - destruct (IH (put_addrs c1 e) first c He1) as (r & c2 & -> & He2 & Hp); [lia|lia|done| |by apply Hwrap].
    intros j b Hj Hjb. pose proof (Hs _ _ _ _ Hj Ha Hjb). lia.
  - rewrite (wrap_small 64) by (unfold in_u; lia). replace (Z.of_nat c + 1) with (Z.of_nat (S c)) by lia.
    destruct (IH (put_addrs c1 e) (S c) last He1) as (r & c2 & -> & He2 & Hp); [lia|lia| |done|by apply Hwrap].
    intros j b Hj Hjb. pose proof (Hs _ _ _ _ (proj1 (Nat.lt_succ_r j c) Hj) Hjb Ha). lia.
Qed.

(** Entry [i] is the one with the greatest address that is not above [pc]. *)
Definition covers (pc : Z) (i : nat) : Prop :=
  exists a, addrs !! i = Some a /\ a <= pc /\ forall j b, addrs !! j = Some b -> b <= pc -> b <= a.

Lemma FindEntry_run pc e :
  index_ok e -> index_sorted ->
  exists c, index_ok (put_addrs c e) /\
    ((exists i, covers pc i /\ FindEntry pc e = Done (Some (entry_off i), put_addrs c e)) \/
     ((forall a, a ∈ addrs -> pc < a) /\
      FindEntry pc e = Done (None, put_arm_base (put_ei_error (set_code ERROR_UNWIND_INFO (ei_error (arm_base e))) (arm_base e)) (put_addrs c e)))).
Proof.
  intros He Hs. pose proof (ix_start Hix). pose proof (ix_end Hix) as Hend. unfold entry_off in Hend.
  remember (FindEntry pc e) as F eqn:HF. unfold FindEntry in HF. rewrite bind_get in HF.
  rewrite (io_start e He), (io_total e He), (proj2 (Z.eqb_neq start 0)) in HF by lia. cbn [orb] in HF.
  destruct (Z.eqb_spec (Z.of_nat (length addrs)) 0) as [E|E].
  { exists (addrs_ e). split; [by destruct e, He; split|]. right. split; [|subst F; by destruct e].
    destruct addrs; [by intros a ?%not_elem_of_nil|done]. }
  destruct (find_entry_loop_run 65 e pc 0 (length addrs) He Hs) as (r & c & Hrun & He1 & Hp);
    [lia|change (Z.of_nat 65) with 65; lia|lia| |].
  { intros j b Hj Hb. apply lookup_lt_Some in Hb. lia. }
  exists c. split; [done|]. rewrite (obind_run _ _ _ _ _ Hrun) in HF. destruct r as [o|l].
  { left. destruct Hp as (i & Hi & ->). exists i. split; [|done]. by exists pc. }
  destruct Hp as (n & -> & Hn & Hlo & Hhi). destruct n as [|n].
  - right. split; [|done]. intros a [i Hi]%list_elem_of_lookup. apply (Hhi i); [lia|done].
  - left. destruct (lookup_lt_is_Some_2 addrs n Hn) as [a Ha]. exists n. split.
    + exists a. split_and!; [done|pose proof (Hlo n a ltac:(lia) Ha); lia|]. intros j b Hb Hle.
      destruct (Nat.le_gt_cases (S n) j) as [Hj|Hj]; [pose proof (Hhi j b Hj Hb); lia|]. apply (Hs j n); [lia|done|done].
    + rewrite (proj2 (Z.eqb_neq _ _)) in HF by lia. cbn [negb] in HF. pose proof (entry_off_u32 n ltac:(lia)) as Hu.
      unfold in_u, entry_off in *. rewrite (wrap_small 64 (_ * 8)), wrap_small in HF by (unfold in_u; lia).
      rewrite HF. unfold ret. do 3 f_equal. lia.
Qed.
End Index.

(** * A step *)

(** The registers of the caller, for the frame that the instructions compute: LR is the pc unless they
    restore it, and the virtual stack pointer is SP. *)
Definition caller_regs (f : vframe) (regs : Regs) : Regs :=
  let regs := with_regs (vregs f) regs in
  let regs := if vpc f then regs else put_reg ARM_REG_PC (nth 14 (vregs f) 0) regs in
  put_reg ARM_REG_SP (vsp f) regs.

(** What the entry at [entry] says about the caller of a frame with the registers [regs]: that it has
    none, or the instructions that compute its registers. *)
Inductive entry_unwinds (m process_memory : Memory) (entry : Z) (regs : Regs) : Regs -> bool -> Prop :=
| unwinds_never :
    Read32 m (u32 (entry + 4)) = Some 1 -> entry_unwinds m process_memory entry regs regs true
| unwinds_by l layout prel ops rest f' :
    layout_ok layout ops -> - 2 ^ 30 <= prel < 2 ^ 30 -> prel <> 1 -> entry_at m entry layout prel ops ->
    Forall arm_instr_ok l -> finished ops = (l ≫= encode_arm) ++ ARM_OP_FINISH :: rest ->
    arm_run process_memory l (mkV (nth 13 (regs_ regs) 0) (regs_ regs) false) f' -> length (vregs f') = 16%nat ->
    entry_unwinds m process_memory entry regs (caller_regs f' regs) (nth 15 (regs_ (caller_regs f' regs)) 0 =? 0).

(** Sixteen registers of 32 bits, and a memory that returns no more than was asked for. *)
Definition arm_frame_wf (regs : Regs) (process_memory : Memory) : Prop :=
  length (regs_ regs) = 16%nat /\ Forall (in_u 32) (regs_ regs) /\
  forall a, in_u 32 a -> len (Read process_memory a 4) <= 4.

Lemma reg_at_nth i (r : Regs) : 0 <= i < Z.of_nat (length (regs_ r)) -> reg_at i r = Some (nth (Z.to_nat i) (regs_ r) 0).
Proof.
  intros Hi. unfold reg_at. rewrite (proj2 (Z.leb_le _ _)) by lia.
  destruct (lookup_lt_is_Some_2 (regs_ r) (Z.to_nat i)) as [v Hv]; [lia|]. by rewrite Hv, (nth_lookup_Some _ _ _ _ Hv).
Qed.

Lemma finished_bytes ops : Forall (in_u 8) ops -> Forall (in_u 8) (finished ops).
Proof.
  intros Hf. unfold finished. destruct (_ =? _); [done|]. apply Forall_app. split; [done|].
  constructor; [unfold in_u, ARM_OP_FINISH; lia|done].
Qed.

(** The end of [StepExidx] after the instructions. *)
Lemma finish_exidx_run f rest arm e :
  length (vregs f) = 16%nat ->
  finish_exidx (finished_at rest f arm) e =
    Done ((caller_regs f (arm_regs arm), nth 15 (regs_ (caller_regs f (arm_regs arm))) 0 =? 0), e).
Proof.
  intros Hl. set (c := caller_regs f (arm_regs arm)).
  assert (length (regs_ c) = 16%nat) as Hc.
  { unfold c, caller_regs. destruct (vpc f); cbn [put_reg regs_ with_regs]; by rewrite !length_insert. }
  unfold finish_exidx, bind, read_reg.
  change (arm_regs (finished_at rest f arm)) with (with_regs (vregs f) (arm_regs arm)).
  change (cfa_ (finished_at rest f arm)) with (vsp f). change (pc_set_ (finished_at rest f arm)) with (vpc f).
  assert (forall r, put_reg ARM_REG_SP (vsp f) r = c -> (pc <- some_or (Undef UbRegIndex) (reg_at ARM_REG_PC (put_reg ARM_REG_SP (vsp f) r)) ;;
     ret (put_reg ARM_REG_SP (vsp f) r, pc =? 0)) e = Done ((c, nth 15 (regs_ c) 0 =? 0), e)) as Hend.
  { intros r ->. rewrite (reg_at_nth ARM_REG_PC c) by (rewrite Hc; unfold ARM_REG_PC; lia). done. }
  destruct (vpc f) eqn:Hv.
  - apply (Hend (with_regs (vregs f) (arm_regs arm))). unfold c, caller_regs. by rewrite Hv.
  - rewrite (reg_at_nth ARM_REG_LR (with_regs (vregs f) (arm_regs arm))) by (cbn [regs_ with_regs]; rewrite Hl; unfold ARM_REG_LR; lia).
    apply (Hend (put_reg ARM_REG_PC (nth 14 (vregs f) 0) (with_regs (vregs f) (arm_regs arm)))).
    unfold c, caller_regs. by rewrite Hv.
Qed.

(** [StepExidx] behind the search. *)
Lemma StepExidx_entry pc regs pm fin e e' entry regs' fin' :
  arm_frame_wf regs pm -> arm_load_bias_ e <= pc ->
  FindEntry (u32 (pc - arm_load_bias_ e)) e = Done (Some entry, e') ->
  in_u 32 entry -> Z.land entry 1 = 0 -> entry_unwinds (ei_memory (arm_base e)) pm entry regs regs' fin' ->
  StepExidx pc regs pm fin e = Done ((true, regs', fin'), e').
Proof.
  intros (Hl & Hv & Hmem) Hpc Hfind Hu He Hun. unfold StepExidx. rewrite bind_get.
  rewrite (proj2 (Z.ltb_ge _ _)) by done. unfold bind at 1. rewrite Hfind.
  unfold bind at 1, read_reg. rewrite (reg_at_nth ARM_REG_SP) by (rewrite Hl; unfold ARM_REG_SP; lia). cbn [some_or ret].
  change (Z.to_nat ARM_REG_SP) with 13%nat. set (arm := put_cfa _ _). unfold bind at 1, lift, run_exidx.
  rewrite (wrap_small 32) by done. destruct Hun as [H1|l layout prel ops rest f' Hok Hp Hp1 Hat Hil Hops Hrun Hf'].
  - unfold bind at 1. by rewrite (ExtractEntryData_never entry arm) by done.
  - unfold bind at 1. rewrite (ExtractEntryData_run layout entry prel ops arm) by done.
    rewrite (Eval_run l _ rest f'); [|split| |exact Hops|exact Hrun]; try done.
    + unfold bind at 1. rewrite (finish_exidx_run f' rest) by done. done.
    + apply (proj1 (Forall_lookup (in_u 32) (regs_ regs)) Hv 13%nat). cbn.
      destruct (lookup_lt_is_Some_2 (regs_ regs) 13) as [v Hv13]; [lia|]. by rewrite Hv13, (nth_lookup_Some _ _ _ _ Hv13).
    + apply finished_bytes, Hok.
Qed.

(** * Theorems *)

(** [FindEntry] ends and finds the entry of the index with the greatest address that is not above
    [pc]; it fails, with [ERROR_UNWIND_INFO], exactly when all entries are above. The addresses that
    it caches are those of the index, so that later searches find the same. *)
Theorem exidx_find_entry m start addrs pc e
  (Hix : index_at m start addrs) (Hok : index_ok m start addrs e) (Hs : index_sorted addrs) :
  exists r e', FindEntry pc e = Done (r, e') /\ index_ok m start addrs e' /\
    match r with
    | Some o => exists i, covers addrs pc i /\ o = entry_off start i
    | None => (forall a, a ∈ addrs -> pc < a) /\ err_code (ei_error (arm_base e')) = ERROR_UNWIND_INFO
    end.
Proof.
  destruct (FindEntry_run m start addrs Hix pc e Hok Hs) as (c & Hok' & [(i & Hi & ->)|[Hall ->]]).
  - eexists _, _. split; [reflexivity|]. split; [done|]. by exists i.
  - eexists _, _. split; [reflexivity|]. split; [by destruct Hok'; split|]. done.
Qed.

(** C11. [StepExidx] unwinds one frame: for a [pc] in the function of entry [i] of the index it returns
    [true] with the registers that the instructions of that entry compute for the caller, and marks
    the frame as the last one when the caller's pc is zero or the entry says that there is no caller. *)
Theorem exidx_step m start addrs pc regs pm fin e i a regs' fin'
  (Hix : index_at m start addrs) (Hok : index_ok m start addrs e) (Heven : Z.land start 1 = 0)
  (Hfr : arm_frame_wf regs pm) (Hs : forall j k b c, (j < k)%nat -> addrs !! j = Some b -> addrs !! k = Some c -> b < c)
  (Hpc : 0 <= pc - arm_load_bias_ e < 2 ^ 32)
  (Ha : addrs !! i = Some a) (Hlo : a <= pc - arm_load_bias_ e)
  (Hhi : forall b, addrs !! S i = Some b -> pc - arm_load_bias_ e < b)
  (Hun : entry_unwinds m pm (entry_off start i) regs regs' fin') :
  exists e', StepExidx pc regs pm fin e = Done ((true, regs', fin'), e') /\ index_ok m start addrs e'.
Proof.
  assert (index_sorted addrs) as Hle.
  { intros j k b c Hjk Hb Hc. destruct (Nat.eq_dec j k) as [->|]; [simplify_eq; lia|].
    pose proof (Hs j k b c ltac:(lia) Hb Hc). lia. }
  pose proof (lookup_lt_Some _ _ _ Ha) as Hi.
  destruct (FindEntry_run m start addrs Hix (pc - arm_load_bias_ e) e Hok Hle) as (c & Hok' & [(j & Hj & Hrun)|[Hall _]]).
  2:{ pose proof (Hall a ltac:(by eapply list_elem_of_lookup_2)). lia. }
  destruct Hj as (b & Hb & Hbpc & Hbest). pose proof (Hbest i a Ha Hlo) as Hab.
  assert (j = i) as ->.
  { destruct (Nat.lt_trichotomy j i) as [Hlt|[?|Hlt]]; [|done|].
    - pose proof (Hs j i b a Hlt Hb Ha). lia.
    - destruct (lookup_lt_is_Some_2 addrs (S i)) as [d Hd]; [apply lookup_lt_Some in Hb; lia|].
      pose proof (Hhi d Hd). pose proof (Hle (S i) j d b ltac:(lia) Hd Hb). lia. }
  exists (put_addrs c e). split; [|done]. eapply StepExidx_entry; [done|lia| | | |].
  - rewrite wrap_small by done. exact Hrun.
  - eapply entry_off_u32; [done|lia].
  - unfold entry_off. change 1 with (Z.ones 1) in Heven |- *. rewrite Z.land_ones in Heven |- * by lia.
    change (2 ^ 1) with 2 in *. Z.div_mod_to_equations. lia.
  - by rewrite (io_memory _ _ _ _ Hok).
Qed.

(** * Witnesses *)

(** An index at 8 with two entries: the first has its instructions in the entry, the second says
    that there is no caller. *)
Definition example_index : list byte :=
  flat_map (le_bytes 4) [0; 0; 0x100 - 8; be_word 0x80 0x00 0x01 0xb0; 0x200 - 16; 1].
Definition example_index_memory : Memory := MemoryBuffer.memory (MemoryBuffer.mk example_index).
Definition example_elf_arm : ElfInterfaceArm :=
  set_load_bias 0x1000 (put_exidx 8 2 (new_ElfInterfaceArm example_index_memory)).
Definition example_regs_arm : Regs := put_reg ARM_REG_LR 77 new_regs_arm.

Lemma example_index_at : index_at example_index_memory 8 [0x100; 0x200].
Proof.
  split; [lia|unfold entry_off; simpl; lia|]. intros i a Ha.
  do 2 (destruct i as [|i]; [injection Ha as <-; split; [unfold in_u; lia|]; split; [unfold entry_off; simpl; lia|reflexivity]|]).
  discriminate Ha.
Qed.

Lemma example_index_ok : index_ok example_index_memory 8 [0x100; 0x200] example_elf_arm.
Proof. split; [done..|]. intros i a Ha. discriminate Ha. Qed.

Lemma example_index_strict : forall j k b c, (j < k)%nat -> [0x100; 0x200] !! j = Some b -> [0x100; 0x200] !! k = Some c -> b < c.
Proof.
  intros j k b c Hjk Hb Hc. destruct k as [|[|k]]; [lia| |discriminate Hc]. destruct j as [|j]; [|lia].
  injection Hb as <-. injection Hc as <-. lia.
Qed.

Lemma example_index_sorted : index_sorted [0x100; 0x200].
Proof.
  intros j k b c Hjk Hb Hc. destruct (Nat.eq_dec j k) as [->|]; [rewrite Hb in Hc; injection Hc as <-; lia|].
  pose proof (example_index_strict j k b c ltac:(lia) Hb Hc). lia.
Qed.

Lemma example_arm_frame_wf : arm_frame_wf example_regs_arm example_arm_memory.
Proof.
  split; [reflexivity|]. split; [|intros a _; apply buffer_read_len].
  apply Forall_insert; [by apply Forall_replicate|unfold in_u; lia].
Qed.

Lemma exidx_find_entry_witness :
  (exists e', FindEntry 0x1f0 example_elf_arm = Done (Some 8, e')) /\
  exists r e', FindEntry 0x1f0 example_elf_arm = Done (r, e') /\ index_ok example_index_memory 8 [0x100; 0x200] e' /\
    match r with
    | Some o => exists i, covers [0x100; 0x200] 0x1f0 i /\ o = entry_off 8 i
    | None => (forall a, a ∈ [0x100; 0x200] -> 0x1f0 < a) /\ err_code (ei_error (arm_base e')) = ERROR_UNWIND_INFO
    end.
Proof.
  split; [eexists; vm_compute; reflexivity|].
  apply (exidx_find_entry example_index_memory 8 [0x100; 0x200] 0x1f0 example_elf_arm).
  - exact example_index_at.
  - exact example_index_ok.
  - exact example_index_sorted.
Defined.

Lemma exidx_step_witness :
  exists regs' e', StepExidx 0x1180 example_regs_arm example_arm_memory false example_elf_arm = Done ((true, regs', false), e') /\
    regs_ regs' = [0; 0; 0; 0; 0; 0; 0; 0; 0; 0; 0; 0; 0; 12; 77; 77].
Proof.
  destruct (exidx_step example_index_memory 8 [0x100; 0x200] 0x1180 example_regs_arm example_arm_memory false
              example_elf_arm 0 0x100 (caller_regs (mkV 12 (regs_ example_regs_arm) false) example_regs_arm) false)
    as (e' & Hrun & _).
  - exact example_index_at.
  - exact example_index_ok.
  - reflexivity.
  - exact example_arm_frame_wf.
  - exact example_index_strict.
  - cbn. lia.
  - reflexivity.
  - cbn. lia.
  - intros b Hb. injection Hb as <-. cbn. lia.
  - apply (unwinds_by _ _ _ _ [VspAdd 0; VspAdd 1] InEntry 0 [0x00; 0x01; 0xb0] []).
    + split; [repeat constructor; done|reflexivity].
    + lia.
    + lia.
    + intros i w Hi. destruct i as [|i]; [injection Hi as <-; reflexivity|discriminate Hi].
    + repeat constructor; lia.
    + reflexivity.
    + eapply arm_run_cons; [reflexivity|]. eapply arm_run_cons; [reflexivity|apply arm_run_nil].
    + reflexivity.
  - eexists _, e'. split; [exact Hrun|reflexivity].
Defined.
