(* ===== verification/RegsArch.v ===== *)
(** [Regs.cpp], [RegsArm.cpp], [RegsArm64.cpp], [RegsX86.cpp], [RegsX86_64.cpp], [RegsMips.cpp],
    [RegsMips64.cpp]: what an unwind asks of an architecture.

    The registers are those of the file [Regs]; a method that changes them is a computation over
    them. A structure of the kernel is the list of its fields, decoded from its bytes. *)
From Stdlib Require Import ZArith Lia Bool Strings.Byte.
From stdpp Require Import base numbers list.
From S2P Require Import Prelude Memory Regs ElfTypes ArmExidx.
#[local] Open Scope Z_scope.

Inductive ArchEnum : Set :=
| ARCH_UNKNOWN | ARCH_ARM | ARCH_ARM64 | ARCH_X86 | ARCH_X86_64 | ARCH_MIPS | ARCH_MIPS64.

#[export] Instance ArchEnum_eq_dec : EqDecision ArchEnum.
Proof. solve_decision. Defined.

Abbreviation RG := (M Regs).

(** [regs_[i]] and [regs_[i] = v] *)
Definition reg (i : Z) : RG Z := r <- get ;; read_reg i r.
Definition set_reg (i v : Z) : RG unit := modify (put_reg i v).

Definition put_regs (l : list Z) (r : Regs) : Regs := mkRegs (total_regs_ r) l (dex_pc_ r) (pc_reg r) (sp_reg r).

(** A read of [n] registers of [w] bytes into [regs_.data()]: the number of bytes that were read. A
    read that fails may have changed some of the registers. *)
Definition read_regs (w : nat) (n : Z) (m : Memory) (a : Z) : RG Z :=
  let bs := Read m a (Z.of_nat w * n) in
  modify (fun r => put_regs (decode_fields (replicate (length (regs_ r)) w)
                              (bs ++ drop (length bs) (flat_map (le_bytes w) (regs_ r)))) r) ;;
  ret (len bs).

(** [memcpy] of [n] registers of [w] bytes to [regs_.data()] *)
Definition copy_regs (w n : nat) (bs : list byte) (r : Regs) : Regs :=
  put_regs (decode_fields (replicate n w) bs ++ drop n (regs_ r)) r.

(** The assignments of fields to registers, in their order. *)
Definition set_fields (l : list (Z * nat)) (fields : list Z) (r : Regs) : Regs :=
  fold_left (fun r '(i, f) => put_reg i (fld f fields) r) l r.

(** A [Memory::ReadFully] into a local variable of [n] bytes *)
Definition read_value (m : Memory) (a : Z) (n : Z) : option Z := le_val <$> ReadFully m a n.

(** The return address register as the new pc. *)
Definition pc_from_register (ra pc : Z) : RG bool :=
  v <- reg ra ;;
  old <- reg pc ;;
  if old =? v then ret false else set_reg pc v ;; ret true.

(** The word of [n] bytes at the top of the stack as the new pc. *)
Definition pc_from_stack (sp pc n : Z) (process_memory : Memory) : RG bool :=
  a <- reg sp ;;
  match read_value process_memory a n with
  | None => ret false
  | Some new_pc => old <- reg pc ;; if new_pc =? old then ret false else set_reg pc new_pc ;; ret true
  end.

(** * ARM *)

Module RegsArm.

(** What is asked of the object: whether it is valid, its load bias and its memory. *)
Definition GetPcAdjustment (valid : bool) (load_bias : Z) (elf_memory : Memory) (rel_pc : Z) : Z :=
  if negb valid then 2
  else if rel_pc <? load_bias then (if rel_pc <? 2 then 0 else 2)
  else
    let adjusted_rel_pc := rel_pc - load_bias in
    if adjusted_rel_pc <? 5 then (if adjusted_rel_pc <? 2 then 0 else 2)
    else if negb (Z.land adjusted_rel_pc 1 =? 0) then
      match read_value elf_memory (adjusted_rel_pc - 5) 4 with
      | None => 2
      | Some value => if negb (Z.land value 0xe000f000 =? 0xe000f000) then 2 else 4
      end
    else 4.

Definition SetPcFromReturnAddress (_ : Memory) : RG bool := pc_from_register ARM_REG_LR ARM_REG_PC.

Definition Read (user : list byte) : Regs := copy_regs 4 16 user new_regs_arm.

(** [uc_mcontext.regs] *)
Definition CreateFromUcontext (uc : list byte) : Regs := copy_regs 4 16 (drop 32 uc) new_regs_arm.

Definition StepIfSignalHandler (rel_pc : Z) (elf_memory process_memory : Memory) : RG bool :=
  match read_value elf_memory rel_pc 4 with
  | None => ret false
  | Some data =>
      offset <- (if (data =? 0xe3a07077) || (data =? 0xef900077) || (data =? 0xdf002777) then
                   sp <- reg ARM_REG_SP ;;
                   match read_value process_memory sp 4 with
                   | None => ret None
                   | Some data => ret (Some (if data =? 0x5ac3c35a then u64 (sp + 0x14 + 0xc) else u64 (sp + 0xc)))
                   end
                 else if (data =? 0xe3a070ad) || (data =? 0xef9000ad) || (data =? 0xdf0027ad) then
                   sp <- reg ARM_REG_SP ;;
                   match read_value process_memory sp 4 with
                   | None => ret None
                   | Some data =>
                       ret (Some (if data =? u64 (sp + 8) then u64 (sp + 8 + 0x80 + 0x14 + 0xc) else u64 (sp + 0x80 + 0x14 + 0xc)))
                   end
                 else ret None) ;;
      match offset with
      | None => ret false
      | Some offset =>
          if offset =? 0 then ret false
          else n <- read_regs 4 ARM_REG_LAST process_memory offset ;; ret (n =? 4 * ARM_REG_LAST)
      end
  end.

End RegsArm.

(** * ARM64 *)

Module RegsArm64.

Definition ARM64_REG_LR : Z := 30.
Definition ARM64_REG_SP : Z := 31.
Definition ARM64_REG_PC : Z := 32.
Definition ARM64_REG_LAST : Z := 33.

Definition new : Regs := new_regs ARM64_REG_LAST ARM64_REG_PC ARM64_REG_SP.

Definition GetPcAdjustment (rel_pc : Z) : Z := if rel_pc <? 4 then 0 else 4.

Definition SetPcFromReturnAddress (_ : Memory) : RG bool := pc_from_register ARM64_REG_LR ARM64_REG_PC.

(** [user->regs] has 31 elements: the copy of 32 also takes [user->sp]. *)
Definition Read (user : list byte) : Regs :=
  let w := decode_fields (replicate 34 8%nat) user in
  put_reg ARM64_REG_SP (fld 31 w) (put_reg ARM64_REG_PC (fld 32 w) (copy_regs 8 32 user new)).

Definition CreateFromUcontext (uc : list byte) : Regs := copy_regs 8 33 (drop 184 uc) new.

Definition StepIfSignalHandler (rel_pc : Z) (elf_memory process_memory : Memory) : RG bool :=
  match read_value elf_memory rel_pc 8 with
  | None => ret false
  | Some data =>
      if negb (data =? 0xd4000001d2801168) then ret false
      else
        sp <- reg ARM64_REG_SP ;;
        n <- read_regs 8 ARM64_REG_LAST process_memory (u64 (sp + 0x80 + 0xb0 + 0x08)) ;;
        ret (n =? 8 * ARM64_REG_LAST)
  end.

End RegsArm64.

(** * X86 *)

Module RegsX86.

Definition X86_REG_EAX : Z := 0.
Definition X86_REG_ECX : Z := 1.
Definition X86_REG_EDX : Z := 2.
Definition X86_REG_EBX : Z := 3.
Definition X86_REG_ESP : Z := 4.
Definition X86_REG_EBP : Z := 5.
Definition X86_REG_ESI : Z := 6.
Definition X86_REG_EDI : Z := 7.
Definition X86_REG_EIP : Z := 8.
Definition X86_REG_LAST : Z := 16.

Definition new : Regs := new_regs X86_REG_LAST X86_REG_EIP X86_REG_ESP.

Definition GetPcAdjustment (rel_pc : Z) : Z := if rel_pc =? 0 then 0 else 1.

Definition SetPcFromReturnAddress (process_memory : Memory) : RG bool :=
  pc_from_stack X86_REG_ESP X86_REG_EIP 4 process_memory.

(** [x86_user_regs] has 17 words. *)
Definition Read (user : list byte) : Regs :=
  set_fields [(X86_REG_EAX, 6); (X86_REG_EBX, 0); (X86_REG_ECX, 1); (X86_REG_EDX, 2); (X86_REG_EBP, 5);
              (X86_REG_EDI, 4); (X86_REG_ESI, 3); (X86_REG_ESP, 15); (X86_REG_EIP, 12)]%nat
    (decode_fields (replicate 17 4%nat) user) new.

(** [x86_mcontext_t] has 19 words. *)
Definition mcontext_widths : list nat := replicate 19 4%nat.
Definition set_mcontext (mc : list Z) : Regs -> Regs :=
  set_fields [(X86_REG_EDI, 4); (X86_REG_ESI, 5); (X86_REG_EBP, 6); (X86_REG_ESP, 7); (X86_REG_EBX, 8);
              (X86_REG_EDX, 9); (X86_REG_ECX, 10); (X86_REG_EAX, 11); (X86_REG_EIP, 14)]%nat mc.

Definition SetFromUcontext (uc : list byte) (r : Regs) : Regs :=
  set_mcontext (decode_fields mcontext_widths (drop 20 uc)) r.
Definition CreateFromUcontext (uc : list byte) : Regs := SetFromUcontext uc new.

Definition StepIfSignalHandler (rel_pc : Z) (elf_memory process_memory : Memory) : RG bool :=
  match read_value elf_memory rel_pc 8 with
  | None => ret false
  | Some data =>
      if data =? 0x80cd00000077b858 then
        sp <- reg X86_REG_ESP ;;
        match read_struct mcontext_widths process_memory (u32 (sp + 4)) with
        | None => ret false
        | Some mc =>
            modify (set_fields [(X86_REG_EBP, 6); (X86_REG_ESP, 7); (X86_REG_EBX, 8); (X86_REG_EDX, 9);
                                (X86_REG_ECX, 10); (X86_REG_EAX, 11); (X86_REG_EIP, 14)]%nat mc) ;;
            ret true
        end
      else if Z.land data 0x00ffffffffffffff =? 0x0080cd000000adb8 then
        sp <- reg X86_REG_ESP ;;
        match read_value process_memory (u32 (sp + 8)) 4 with
        | None => ret false
        | Some ptr =>
            match read_struct mcontext_widths process_memory (u32 (ptr + 0x14)) with
            | None => ret false
            | Some mc => modify (set_mcontext mc) ;; ret true
            end
        end
      else ret false
  end.

End RegsX86.

(** * X86_64 *)

Module RegsX86_64.

Definition X86_64_REG_RAX : Z := 0.
Definition X86_64_REG_RDX : Z := 1.
Definition X86_64_REG_RCX : Z := 2.
Definition X86_64_REG_RBX : Z := 3.
Definition X86_64_REG_RSI : Z := 4.
Definition X86_64_REG_RDI : Z := 5.
Definition X86_64_REG_RBP : Z := 6.
Definition X86_64_REG_RSP : Z := 7.
Definition X86_64_REG_R8 : Z := 8.
Definition X86_64_REG_R9 : Z := 9.
Definition X86_64_REG_R10 : Z := 10.
Definition X86_64_REG_R11 : Z := 11.
Definition X86_64_REG_R12 : Z := 12.
Definition X86_64_REG_R13 : Z := 13.
Definition X86_64_REG_R14 : Z := 14.
Definition X86_64_REG_R15 : Z := 15.
Definition X86_64_REG_RIP : Z := 16.
Definition X86_64_REG_LAST : Z := 17.

Definition new : Regs := new_regs X86_64_REG_LAST X86_64_REG_RIP X86_64_REG_RSP.

Definition GetPcAdjustment (rel_pc : Z) : Z := if rel_pc =? 0 then 0 else 1.

Definition SetPcFromReturnAddress (process_memory : Memory) : RG bool :=
  pc_from_stack X86_64_REG_RSP X86_64_REG_RIP 8 process_memory.

(** [x86_64_user_regs] has 27 words, R15 to R12 and R11 to R8 in descending order. *)
Definition Read (user : list byte) : Regs :=
  set_fields [(X86_64_REG_RAX, 10); (X86_64_REG_RBX, 5); (X86_64_REG_RCX, 11); (X86_64_REG_RDX, 12);
              (X86_64_REG_R8, 9); (X86_64_REG_R9, 8); (X86_64_REG_R10, 7); (X86_64_REG_R11, 6);
              (X86_64_REG_R12, 3); (X86_64_REG_R13, 2); (X86_64_REG_R14, 1); (X86_64_REG_R15, 0);
              (X86_64_REG_RDI, 14); (X86_64_REG_RSI, 13); (X86_64_REG_RBP, 4); (X86_64_REG_RSP, 19);
              (X86_64_REG_RIP, 16)]%nat
    (decode_fields (replicate 27 8%nat) user) new.

(** [x86_64_mcontext_t] has 23 words. *)
Definition mcontext_widths : list nat := replicate 23 8%nat.
Definition set_mcontext (mc : list Z) : Regs -> Regs :=
  set_fields [(X86_64_REG_R8, 0); (X86_64_REG_R9, 1); (X86_64_REG_R10, 2); (X86_64_REG_R11, 3);
              (X86_64_REG_R12, 4); (X86_64_REG_R13, 5); (X86_64_REG_R14, 6); (X86_64_REG_R15, 7);
              (X86_64_REG_RDI, 8); (X86_64_REG_RSI, 9); (X86_64_REG_RBP, 10); (X86_64_REG_RBX, 11);
              (X86_64_REG_RDX, 12); (X86_64_REG_RAX, 13); (X86_64_REG_RCX, 14); (X86_64_REG_RSP, 15);
              (X86_64_REG_RIP, 16)]%nat mc.

Definition SetFromUcontext (uc : list byte) (r : Regs) : Regs :=
  set_mcontext (decode_fields mcontext_widths (drop 40 uc)) r.
Definition CreateFromUcontext (uc : list byte) : Regs := SetFromUcontext uc new.

Definition StepIfSignalHandler (rel_pc : Z) (elf_memory process_memory : Memory) : RG bool :=
  match read_value elf_memory rel_pc 8 with
  | None => ret false
  | Some data =>
      if negb (data =? 0x0f0000000fc0c748) then ret false
      else
        match read_value elf_memory (u64 (rel_pc + 8)) 2 with
        | None => ret false
        | Some data2 =>
            if negb (data2 =? 0x0f05) then ret false
            else
              sp <- reg X86_64_REG_RSP ;;
              match read_struct mcontext_widths process_memory (u64 (sp + 0x28)) with
              | None => ret false
              | Some mc => modify (set_mcontext mc) ;; ret true
              end
        end
  end.

End RegsX86_64.

(** * MIPS *)

Module RegsMips.

Definition MIPS_REG_SP : Z := 29.
Definition MIPS_REG_RA : Z := 31.
Definition MIPS_REG_PC : Z := 32.
Definition MIPS_REG_LAST : Z := 33.

Definition new : Regs := new_regs MIPS_REG_LAST MIPS_REG_PC MIPS_REG_SP.

Definition GetPcAdjustment (rel_pc : Z) : Z := if rel_pc <? 8 then 0 else 8.

Definition SetPcFromReturnAddress (_ : Memory) : RG bool := pc_from_register MIPS_REG_RA MIPS_REG_PC.

(** [user->regs] from [MIPS32_EF_R0] on, and [MIPS32_EF_CP0_EPC]. *)
Definition Read (user : list byte) : Regs :=
  put_reg MIPS_REG_PC (fld 40 (decode_fields (replicate 45 4%nat) user)) (copy_regs 4 32 (drop 24 user) new).

(** [regs_[MIPS_REG_R0 + i] = values[1 + i]] for the 32 registers, truncated to 32 bits. *)
Definition set_sc_regs (values : list Z) (r : Regs) : Regs :=
  fold_left (fun r i => put_reg (Z.of_nat i) (u32 (fld (1 + i) values)) r) (seq 0 32) r.

(** [sc_pc] and [sc_regs] *)
Definition sigcontext_widths : list nat := replicate 33 8%nat.

Definition CreateFromUcontext (uc : list byte) : Regs :=
  let values := decode_fields sigcontext_widths (drop 32 uc) in
  put_reg MIPS_REG_PC (u32 (fld 0 values)) (set_sc_regs values new).

Definition StepIfSignalHandler (rel_pc : Z) (elf_memory process_memory : Memory) : RG bool :=
  match read_value elf_memory rel_pc 8 with
  | None => ret false
  | Some data =>
      let offset := if data =? 0x0000000c24021061 then Some (24 + 128 + 24 + 8)
                    else if data =? 0x0000000c24021017 then Some (24 + 8)
                    else None in
      match offset with
      | None => ret false
      | Some offset =>
          sp <- reg MIPS_REG_SP ;;
          match read_struct sigcontext_widths process_memory (u64 (sp + offset)) with
          | None => ret false
          | Some values => set_reg MIPS_REG_PC (u32 (fld 0 values)) ;; modify (set_sc_regs values) ;; ret true
          end
      end
  end.

End RegsMips.

(** * MIPS64 *)

Module RegsMips64.

Definition MIPS64_REG_SP : Z := 29.
Definition MIPS64_REG_RA : Z := 31.
Definition MIPS64_REG_PC : Z := 32.
Definition MIPS64_REG_LAST : Z := 33.

Definition new : Regs := new_regs MIPS64_REG_LAST MIPS64_REG_PC MIPS64_REG_SP.

Definition GetPcAdjustment (rel_pc : Z) : Z := if rel_pc <? 8 then 0 else 8.

Definition SetPcFromReturnAddress (_ : Memory) : RG bool := pc_from_register MIPS64_REG_RA MIPS64_REG_PC.

Definition Read (user : list byte) : Regs :=
  put_reg MIPS64_REG_PC (fld 34 (decode_fields (replicate 45 8%nat) user)) (copy_regs 8 32 user new).

Definition CreateFromUcontext (uc : list byte) : Regs := put_reg MIPS64_REG_PC (le_val (take 8 (drop 616 uc))) (copy_regs 8 32 (drop 40 uc) new).

(** [Memory::Read] succeeds when at least one byte can be read: the comparison with a word of which
    only a part was read is one with uninitialized bytes. *)
Definition StepIfSignalHandler (rel_pc : Z) (elf_memory process_memory : Memory) : RG bool :=
  let bs := Memory.Read elf_memory rel_pc 8 in
  if len bs =? 0 then ret false
  else if negb (len bs =? 8) then fail (Undef UbUninit)
  else if negb (le_val bs =? 0x0000000c2402145b) then ret false
  else
    sp <- reg MIPS64_REG_SP ;;
    n <- read_regs 8 (MIPS64_REG_LAST - 1) process_memory (u64 (sp + 24 + 128 + 40)) ;;
    if n =? 0 then ret false
    else
      let bs := Memory.Read process_memory (u64 (sp + 24 + 128 + 40 + 576)) 8 in
      old <- reg MIPS64_REG_PC ;;
      set_reg MIPS64_REG_PC (overlay 8 old bs) ;;
      ret (negb (len bs =? 0)).

End RegsMips64.

(** * The virtual methods, and the choice of the class *)

(** [ARCH_UNKNOWN] is the architecture of no register set. *)
Definition StepIfSignalHandler (arch : ArchEnum) (rel_pc : Z) (elf_memory process_memory : Memory) : RG bool :=
  match arch with
  | ARCH_ARM => RegsArm.StepIfSignalHandler rel_pc elf_memory process_memory
  | ARCH_ARM64 => RegsArm64.StepIfSignalHandler rel_pc elf_memory process_memory
  | ARCH_X86 => RegsX86.StepIfSignalHandler rel_pc elf_memory process_memory
  | ARCH_X86_64 => RegsX86_64.StepIfSignalHandler rel_pc elf_memory process_memory
  | ARCH_MIPS => RegsMips.StepIfSignalHandler rel_pc elf_memory process_memory
  | ARCH_MIPS64 => RegsMips64.StepIfSignalHandler rel_pc elf_memory process_memory
  | ARCH_UNKNOWN => fail Aborted
  end.

Definition GetPcAdjustment (arch : ArchEnum) (valid : bool) (load_bias : Z) (elf_memory : Memory) (rel_pc : Z) : Z :=
  match arch with
  | ARCH_ARM => RegsArm.GetPcAdjustment valid load_bias elf_memory rel_pc
  | ARCH_ARM64 => RegsArm64.GetPcAdjustment rel_pc
  | ARCH_X86 => RegsX86.GetPcAdjustment rel_pc
  | ARCH_X86_64 => RegsX86_64.GetPcAdjustment rel_pc
  | ARCH_MIPS => RegsMips.GetPcAdjustment rel_pc
  | ARCH_MIPS64 => RegsMips64.GetPcAdjustment rel_pc
  | ARCH_UNKNOWN => 0
  end.

Definition SetPcFromReturnAddress (arch : ArchEnum) (process_memory : Memory) : RG bool :=
  match arch with
  | ARCH_ARM => RegsArm.SetPcFromReturnAddress process_memory
  | ARCH_ARM64 => RegsArm64.SetPcFromReturnAddress process_memory
  | ARCH_X86 => RegsX86.SetPcFromReturnAddress process_memory
  | ARCH_X86_64 => RegsX86_64.SetPcFromReturnAddress process_memory
  | ARCH_MIPS => RegsMips.SetPcFromReturnAddress process_memory
  | ARCH_MIPS64 => RegsMips64.SetPcFromReturnAddress process_memory
  | ARCH_UNKNOWN => fail Aborted
  end.

Definition Is32Bit (arch : ArchEnum) : bool :=
  match arch with ARCH_ARM | ARCH_X86 | ARCH_MIPS => true | _ => false end.

Definition CreateFromUcontext (arch : ArchEnum) (uc : list byte) : option Regs :=
  match arch with
  | ARCH_X86 => Some (RegsX86.CreateFromUcontext uc)
  | ARCH_X86_64 => Some (RegsX86_64.CreateFromUcontext uc)
  | ARCH_ARM => Some (RegsArm.CreateFromUcontext uc)
  | ARCH_ARM64 => Some (RegsArm64.CreateFromUcontext uc)
  | ARCH_MIPS => Some (RegsMips.CreateFromUcontext uc)
  | ARCH_MIPS64 => Some (RegsMips64.CreateFromUcontext uc)
  | ARCH_UNKNOWN => None
  end.

(** The registers that [PTRACE_GETREGSET] returned, [None] when it failed: the class is that of the
    structure with their size. *)
Definition RemoteGet (user : option (list byte)) : option (ArchEnum * Regs) :=
  match user with
  | None => None
  | Some bs =>
      let n := len bs in
      if n =? 68 then Some (ARCH_X86, RegsX86.Read bs)
      else if n =? 216 then Some (ARCH_X86_64, RegsX86_64.Read bs)
      else if n =? 72 then Some (ARCH_ARM, RegsArm.Read bs)
      else if n =? 272 then Some (ARCH_ARM64, RegsArm64.Read bs)
      else if n =? 180 then Some (ARCH_MIPS, RegsMips.Read bs)
      else if n =? 360 then Some (ARCH_MIPS64, RegsMips64.Read bs)
      else None
  end.
