(* ===== verification/RegsSignal.v ===== *)
(** A step through a signal handler: the registers become those of the context that the kernel saved. *)
From Stdlib Require Import ZArith Lia Bool Strings.Byte.
From stdpp Require Import base numbers list.
From S2P Require Import Prelude Memory Regs ElfTypes ArmExidx RegsArch.
#[local] Open Scope Z_scope.

(** * The signal frame of an architecture *)

(** The instructions of the return from a handler that was installed with [SA_SIGINFO]. *)
Definition sigreturn_code (arch : ArchEnum) (m : Memory) (rel_pc : Z) : Prop :=
  match arch with
  | ARCH_ARM => read_value m rel_pc 4 ∈ Some <$> [0xe3a070ad; 0xef9000ad; 0xdf0027ad]
  | ARCH_ARM64 => read_value m rel_pc 8 = Some 0xd4000001d2801168
  | ARCH_X86 => exists b, 0 <= b < 256 /\ read_value m rel_pc 8 = Some (b * 2 ^ 56 + 0x80cd000000adb8)
  | ARCH_X86_64 => read_value m rel_pc 8 = Some 0x0f0000000fc0c748 /\ read_value m (u64 (rel_pc + 8)) 2 = Some 0x0f05
  | ARCH_MIPS => read_value m rel_pc 8 = Some 0x0000000c24021061
  | ARCH_MIPS64 => read_value m rel_pc 8 = Some 0x0000000c2402145b
  | ARCH_UNKNOWN => False
  end.

(** Where the [ucontext] is, for the stack pointer of the frame. *)
Definition ucontext_addr (arch : ArchEnum) (m : Memory) (sp : Z) : option Z :=
  match arch with
  | ARCH_ARM => (fun d => if d =? sp + 8 then sp + 8 + 0x80 else sp + 0x80) <$> read_value m sp 4
  | ARCH_ARM64 => Some (sp + 0x80)
  | ARCH_X86 => read_value m (u32 (sp + 8)) 4
  | ARCH_X86_64 => Some sp
  | ARCH_MIPS | ARCH_MIPS64 => Some (sp + 24 + 128)
  | ARCH_UNKNOWN => None
  end.

Definition ucontext_size (arch : ArchEnum) : Z :=
  match arch with
  | ARCH_ARM => 104 | ARCH_ARM64 => 456 | ARCH_X86 => 96 | ARCH_X86_64 => 224 | ARCH_MIPS => 296
  | ARCH_MIPS64 => 624 | ARCH_UNKNOWN => 0
  end.

(** The registers that a context holds: on X86 not those of the flags and the segments. *)
Definition in_context (arch : ArchEnum) (i : nat) : bool :=
  match arch with ARCH_X86 => (i <? 9)%nat | _ => true end.

Definition arch_regs (arch : ArchEnum) : Regs :=
  match arch with
  | ARCH_ARM => new_regs_arm
  | ARCH_ARM64 => RegsArm64.new
  | ARCH_X86 => RegsX86.new
  | ARCH_X86_64 => RegsX86_64.new
  | ARCH_MIPS => RegsMips.new
  | ARCH_MIPS64 => RegsMips64.new
  | ARCH_UNKNOWN => new_regs 0 0 0
  end.

(** A register set of the architecture. *)
Definition regs_of (arch : ArchEnum) (r : Regs) : Prop :=
  length (regs_ r) = length (regs_ (arch_regs arch)) /\ sp_reg r = sp_reg (arch_regs arch) /\
  forall v, reg_at (sp_reg r) r = Some v -> in_u (if Is32Bit arch then 32 else 64) v.

(** * Lemmas *)

Lemma decode_fields_app ws bs cs :
  (sum_list ws <= length bs)%nat -> decode_fields ws (bs ++ cs) = decode_fields ws bs.
Proof.
  revert bs. induction ws as [|w ws IH]; intros bs Hl; [done|]. simpl in Hl. cbn [decode_fields].
  rewrite take_app_le, drop_app_le by lia. f_equal. apply IH. rewrite length_drop. lia.
Qed.

Lemma decode_fields_length ws bs : length (decode_fields ws bs) = length ws.
Proof. revert bs. induction ws; intros bs; simpl; auto. Qed.

Lemma sum_list_replicate n w : sum_list (replicate n w) = (n * w)%nat.
Proof. induction n; simpl; lia. Qed.

Section Context.
Context (pm : Memory) (bm : Z -> option byte) {Hm : ByteMemory pm bm} (a : Z) (uc : list byte).
Context (Ha : 0 <= a) (Hfit : a + len uc < 2 ^ 64) (Hh : holds bm a uc).

(** A part of the context. *)
Lemma context_part (d n : nat) :
  (d + n <= length uc)%nat -> Read pm (a + Z.of_nat d) (Z.of_nat n) = take n (drop d uc).
Proof.
  intros Hl. rewrite <- (take_drop d uc) in Hh. rewrite <- (take_drop n (drop d uc)) in Hh.
  apply holds_app in Hh as [_ Hd]. apply holds_app in Hd as [Hd _].
  unfold len in *. rewrite length_take_le in Hd by lia.
  pose proof (ReadFully_holds bm (a + Z.of_nat d) (take n (drop d uc))) as Hr.
  unfold ReadFully, len in Hr. rewrite length_take, length_drop in Hr.
  replace (n `min` (length uc - d))%nat with n in Hr by lia.
  specialize (Hr ltac:(unfold in_u; lia) Hd). by destruct (_ =? _); [injection Hr|].
Qed.

Lemma context_struct ws d :
  (d + sum_list ws <= length uc)%nat -> read_struct ws pm (a + Z.of_nat d) = Some (decode_fields ws (drop d uc)).
Proof.
  intros Hl. unfold read_struct, ReadFully, struct_size. rewrite context_part by done. unfold len.
  rewrite length_take, length_drop. replace (sum_list ws `min` (length uc - d))%nat with (sum_list ws) by lia.
  rewrite Z.eqb_refl. cbn [fmap option_fmap option_map]. f_equal.
  rewrite <- (take_drop (sum_list ws) (drop d uc)) at 2. rewrite decode_fields_app; [done|].
  rewrite length_take, length_drop. lia.
Qed.

(** A read of all or the first registers from the context. *)
Lemma read_regs_context w n d r :
  (0 < w)%nat -> (d + n * w <= length uc)%nat -> (n <= length (regs_ r))%nat ->
  read_regs w (Z.of_nat n) pm (a + Z.of_nat d) r =
    Done (Z.of_nat (n * w), put_regs (decode_fields (replicate n w) (drop d uc) ++
      decode_fields (replicate (length (regs_ r) - n) w) (drop (n * w) (flat_map (le_bytes w) (regs_ r)))) r).
Proof.
  intros Hw Hl Hn. unfold read_regs. replace (Z.of_nat w * Z.of_nat n) with (Z.of_nat (n * w)) by lia.
  rewrite context_part by lia. rewrite bind_modify. unfold ret. unfold len.
  assert (length (take (n * w) (drop d uc)) = (n * w)%nat) as Ht by (rewrite length_take, length_drop; lia).
  rewrite Ht. do 2 f_equal. f_equal.
  replace (length (regs_ r)) with (n + (length (regs_ r) - n))%nat at 1 by lia. rewrite replicate_add.
  set (X := drop (n * w) _). clearbody X. set (k := (length (regs_ r) - n)%nat). clearbody k.
  assert (forall bs, (n * w <= length bs)%nat -> decode_fields (replicate n w ++ replicate k w) bs =
    decode_fields (replicate n w) bs ++ decode_fields (replicate k w) (drop (n * w) bs)) as Hsplit.
  { clear. induction n as [|n IH]; intros bs Hb; [done|]. cbn [replicate app decode_fields]. f_equal.
    rewrite IH by (rewrite length_drop; lia). rewrite drop_drop. done. }
  rewrite Hsplit by (rewrite length_app, Ht; lia). rewrite drop_app_length' by done. f_equal.
  rewrite decode_fields_app by (rewrite sum_list_replicate, Ht; lia).
  rewrite <- (take_drop (n * w) (drop d uc)) at 2. by rewrite decode_fields_app by (rewrite sum_list_replicate, Ht; lia).
Qed.
End Context.

Lemma read_value_range m a n v : 0 <= n -> read_value m a n = Some v -> 0 <= v < 2 ^ (8 * n).
Proof.
  intros Hn. unfold read_value, ReadFully, len. destruct (Z.eqb_spec (Z.of_nat (length (Read m a n))) n) as [E|]; [|done].
  intros [= <-]. pose proof (le_val_range (Read m a n)) as Hv. by rewrite E in Hv.
Qed.

Lemma reg_run i r v : reg_at i r = Some v -> reg i r = Done (v, r).
Proof. intros Hv. unfold reg. rewrite bind_get. unfold read_reg. by rewrite Hv. Qed.

Lemma set_mcontext_x86 mc l dex pc sp t :
  length l = 16%nat ->
  forall i, regs_ (RegsX86.set_mcontext mc (mkRegs t l dex pc sp)) !! i =
    if (i <? 9)%nat then regs_ (RegsX86.set_mcontext mc RegsX86.new) !! i else l !! i.
Proof.
  intros Hl i. do 16 (destruct l as [|? l]; [discriminate Hl|]; injection Hl as Hl). destruct l; [|discriminate Hl].
  do 17 (destruct i as [|i]; [reflexivity|]). reflexivity.
Qed.

Lemma set_mcontext_x86_64 mc l dex pc sp t :
  length l = 17%nat -> regs_ (RegsX86_64.set_mcontext mc (mkRegs t l dex pc sp)) = regs_ (RegsX86_64.set_mcontext mc RegsX86_64.new).
Proof.
  intros Hl. do 17 (destruct l as [|? l]; [discriminate Hl|]; injection Hl as Hl). destruct l; [|discriminate Hl]. reflexivity.
Qed.

Lemma set_sc_regs_mips values l dex pc sp t v :
  length l = 33%nat ->
  regs_ (RegsMips.set_sc_regs values (put_reg RegsMips.MIPS_REG_PC v (mkRegs t l dex pc sp))) =
  regs_ (put_reg RegsMips.MIPS_REG_PC v (RegsMips.set_sc_regs values RegsMips.new)).
Proof.
  intros Hl. do 33 (destruct l as [|? l]; [discriminate Hl|]; injection Hl as Hl). destruct l; [|discriminate Hl]. reflexivity.
Qed.

(** ** The step of each architecture *)

Section Step.
Context (em pm : Memory) (bm : Z -> option byte) {Hm : ByteMemory pm bm} (rel_pc : Z) (r : Regs) (sp a : Z) (uc : list byte).
Context (Ha : 0 <= a) (Hh : holds bm a uc).

Lemma arm_signal :
  sigreturn_code ARCH_ARM em rel_pc -> length (regs_ r) = 16%nat -> reg_at ARM_REG_SP r = Some sp -> 0 <= sp ->
  ucontext_addr ARCH_ARM pm sp = Some a -> a + len uc < 2 ^ 32 -> len uc = 104 ->
  exists r', RegsArm.StepIfSignalHandler rel_pc em pm r = Done (true, r') /\ regs_ r' = regs_ (RegsArm.CreateFromUcontext uc).
Proof.
  intros Hcode Hr Hsp Hsp0 Haddr Hfit Hlen. cbn in Haddr. destruct (read_value pm sp 4) as [d|] eqn:Hd; [|done]. injection Haddr as Haddr.
  assert (sp < 2 ^ 32) by (destruct (d =? sp + 8); lia).
  unfold RegsArm.StepIfSignalHandler. cbn in Hcode. rewrite !elem_of_cons, elem_of_nil in Hcode.
  assert (exists x, read_value em rel_pc 4 = Some x /\ (x =? 0xe3a07077) || (x =? 0xef900077) || (x =? 0xdf002777) = false /\
    (x =? 0xe3a070ad) || (x =? 0xef9000ad) || (x =? 0xdf0027ad) = true) as (x & -> & -> & ->).
  { destruct Hcode as [->|[->|[->|[]]]]; eexists; split_and!; reflexivity. }
  rewrite (bind_run _ _ (Some (a + 32)) r r).
  2:{ rewrite (bind_run _ _ _ _ _ (reg_run _ _ _ Hsp)), Hd. rewrite !(wrap_small 64) by (unfold in_u; lia).
      unfold ret. do 3 f_equal. destruct (d =? sp + 8); lia. }
  rewrite (proj2 (Z.eqb_neq _ _)) by lia.
  rewrite (bind_run _ _ _ _ _ (read_regs_context pm bm a uc Ha ltac:(lia) Hh 4 16 32 r ltac:(lia) ltac:(unfold len in *; lia) ltac:(lia))).
  eexists. split; [reflexivity|]. cbn [put_regs regs_ RegsArm.CreateFromUcontext copy_regs]. by rewrite Hr, !app_nil_r.
Qed.

Lemma arm64_signal :
  sigreturn_code ARCH_ARM64 em rel_pc -> length (regs_ r) = 33%nat -> reg_at RegsArm64.ARM64_REG_SP r = Some sp -> 0 <= sp ->
  ucontext_addr ARCH_ARM64 pm sp = Some a -> a + len uc < 2 ^ 64 -> len uc = 456 ->
  exists r', RegsArm64.StepIfSignalHandler rel_pc em pm r = Done (true, r') /\ regs_ r' = regs_ (RegsArm64.CreateFromUcontext uc).
Proof.
  intros Hcode Hr Hsp Hsp0 [= <-] Hfit Hlen. unfold RegsArm64.StepIfSignalHandler. cbn in Hcode. rewrite Hcode, Z.eqb_refl. cbn [negb].
  rewrite (bind_run _ _ _ _ _ (reg_run _ _ _ Hsp)), wrap_small by (unfold in_u; lia).
  replace (sp + 128 + 176 + 8) with (sp + 128 + Z.of_nat 184) by lia.
  rewrite (bind_run _ _ _ _ _ (read_regs_context pm bm (sp + 128) uc Ha ltac:(lia) Hh 8 33 184 r ltac:(lia) ltac:(unfold len in *; lia) ltac:(lia))).
  eexists. split; [reflexivity|]. cbn [put_regs regs_ RegsArm64.CreateFromUcontext copy_regs]. by rewrite Hr, !app_nil_r.
Qed.

Lemma x86_signal :
  sigreturn_code ARCH_X86 em rel_pc -> reg_at RegsX86.X86_REG_ESP r = Some sp ->
  ucontext_addr ARCH_X86 pm sp = Some a -> a + len uc < 2 ^ 32 -> len uc = 96 ->
  RegsX86.StepIfSignalHandler rel_pc em pm r = Done (true, RegsX86.SetFromUcontext uc r).
Proof.
  intros (b & Hb & Hcode) Hsp Haddr Hfit Hlen. unfold RegsX86.StepIfSignalHandler. rewrite Hcode.
  rewrite (proj2 (Z.eqb_neq _ _)) by (intros E; assert (b = 128) by lia; subst b; lia).
  change 0x00ffffffffffffff with (Z.ones 56). rewrite Z.land_ones, (Z.add_comm (b * _)), Z.mod_add by lia.
  rewrite Z.mod_small, Z.eqb_refl by lia. rewrite (bind_run _ _ _ _ _ (reg_run _ _ _ Hsp)).
  cbn [ucontext_addr] in Haddr. rewrite Haddr, wrap_small by (unfold in_u; lia).
  change 0x14 with (Z.of_nat 20).
  rewrite (context_struct pm bm a uc Ha ltac:(lia) Hh RegsX86.mcontext_widths 20 ltac:(unfold len in *; simpl; lia)). done.
Qed.

Lemma x86_64_signal :
  sigreturn_code ARCH_X86_64 em rel_pc -> reg_at RegsX86_64.X86_64_REG_RSP r = Some sp ->
  ucontext_addr ARCH_X86_64 pm sp = Some a -> a + len uc < 2 ^ 64 -> len uc = 224 ->
  RegsX86_64.StepIfSignalHandler rel_pc em pm r = Done (true, RegsX86_64.SetFromUcontext uc r).
Proof.
  intros (Hc1 & Hc2) Hsp [= ->] Hfit Hlen. unfold RegsX86_64.StepIfSignalHandler. rewrite Hc1, Z.eqb_refl. cbn [negb].
  rewrite Hc2, Z.eqb_refl. cbn [negb]. rewrite (bind_run _ _ _ _ _ (reg_run _ _ _ Hsp)), wrap_small by (unfold in_u; lia).
  change 0x28 with (Z.of_nat 40).
  rewrite (context_struct pm bm a uc Ha ltac:(lia) Hh RegsX86_64.mcontext_widths 40 ltac:(unfold len in *; simpl; lia)). done.
Qed.

Lemma mips_signal :
  sigreturn_code ARCH_MIPS em rel_pc -> length (regs_ r) = 33%nat -> reg_at RegsMips.MIPS_REG_SP r = Some sp ->
  ucontext_addr ARCH_MIPS pm sp = Some a -> a + len uc < 2 ^ 32 -> len uc = 296 ->
  exists r', RegsMips.StepIfSignalHandler rel_pc em pm r = Done (true, r') /\ regs_ r' = regs_ (RegsMips.CreateFromUcontext uc).
Proof.
  intros Hcode Hr Hsp Haddr Hfit Hlen. cbn in Haddr. assert (a = sp + 24 + 128) as -> by congruence.
  unfold RegsMips.StepIfSignalHandler. cbn in Hcode. rewrite Hcode, Z.eqb_refl.
  cbv zeta. rewrite (bind_run _ _ _ _ _ (reg_run _ _ _ Hsp)), wrap_small by (unfold in_u; lia).
  replace (sp + (24 + 128 + 24 + 8)) with (sp + 24 + 128 + Z.of_nat 32) by lia.
  rewrite (context_struct pm bm _ uc Ha ltac:(lia) Hh RegsMips.sigcontext_widths 32 ltac:(unfold len in *; simpl; lia)).
  eexists. split; [reflexivity|]. destruct r. by apply set_sc_regs_mips.
Qed.

Lemma mips64_signal :
  sigreturn_code ARCH_MIPS64 em rel_pc -> length (regs_ r) = 33%nat -> reg_at RegsMips64.MIPS64_REG_SP r = Some sp ->
  ucontext_addr ARCH_MIPS64 pm sp = Some a -> a + len uc < 2 ^ 64 -> len uc = 624 ->
  exists r', RegsMips64.StepIfSignalHandler rel_pc em pm r = Done (true, r') /\ regs_ r' = regs_ (RegsMips64.CreateFromUcontext uc).
Proof.
  intros Hcode Hr Hsp Haddr Hfit Hlen. cbn in Haddr. assert (a = sp + 24 + 128) as Ea by congruence. clear Haddr.
  unfold RegsMips64.StepIfSignalHandler. cbn in Hcode. unfold read_value, ReadFully in Hcode.
  destruct (Z.eqb_spec (len (Read em rel_pc 8)) 8) as [H8|]; [|done]. injection Hcode as Hcode. cbv zeta.
  rewrite H8, Hcode, !Z.eqb_refl. change (8 =? 0) with false. cbn [negb]. rewrite (bind_run _ _ _ _ _ (reg_run _ _ _ Hsp)).
  rewrite !(wrap_small 64) by (unfold in_u; lia). replace (sp + 24 + 128 + 40) with (a + Z.of_nat 40) by lia.
  change (RegsMips64.MIPS64_REG_LAST - 1) with (Z.of_nat 32).
  rewrite (bind_run _ _ _ _ _ (read_regs_context pm bm a uc Ha ltac:(lia) Hh 8 32 40 r ltac:(lia) ltac:(unfold len in *; lia) ltac:(lia))).
  change (Z.of_nat (32 * 8) =? 0) with false. cbn iota.
  replace (a + Z.of_nat 40 + 576) with (a + Z.of_nat 616) by lia. change 8 with (Z.of_nat 8).
  rewrite (context_part pm bm a uc Ha ltac:(lia) Hh 616 8) by (unfold len in *; lia).
  set (pcb := take 8 (drop 616 uc)). assert (length pcb = 8%nat) as Hpcb by (unfold pcb, len in *; rewrite length_take, length_drop; lia).
  set (l := decode_fields (replicate 32 8%nat) (drop 40 uc)).
  assert (length l = 32%nat) as Hl by (unfold l; by rewrite decode_fields_length, length_replicate).
  rewrite Hr. change (33 - 32)%nat with 1%nat. set (X := drop (32 * 8) _). cbn [replicate decode_fields].
  set (x := le_val (take 8 X)). erewrite bind_run by (apply reg_run; unfold reg_at; cbn [put_regs regs_];
    change (0 <=? RegsMips64.MIPS64_REG_PC) with true; cbn iota; rewrite lookup_app_r by (rewrite Hl; done); rewrite Hl; reflexivity).
  unfold set_reg. rewrite bind_modify. unfold len. rewrite Hpcb. eexists. split; [reflexivity|].
  cbn [put_reg put_regs regs_ RegsMips64.CreateFromUcontext copy_regs]. fold l pcb. unfold overlay.
  rewrite Hpcb, (drop_ge (le_bytes _ _)), app_nil_r by by rewrite le_bytes_length.
  change (Z.to_nat RegsMips64.MIPS64_REG_PC) with 32%nat. by rewrite !insert_app_r_alt, Hl by (rewrite Hl; done).
Qed.
End Step.

(** * Theorem *)

(** C19. A step through a signal handler agrees with the context of the signal on all architectures:
    at the code of the return from the handler, [StepIfSignalHandler] returns [true] and leaves in
    every register what [CreateFromUcontext] reads for it from the context that the kernel saved on
    the stack; the registers that a context does not hold keep their values. *)
Theorem signal_step_restores arch em pm bm rel_pc r sp a uc
  (Hm : ByteMemory pm bm) (Hcode : sigreturn_code arch em rel_pc) (Hr : regs_of arch r)
  (Hsp : reg_at (sp_reg r) r = Some sp) (Haddr : ucontext_addr arch pm sp = Some a)
  (Hlen : len uc = ucontext_size arch) (Hfit : a + len uc < 2 ^ (if Is32Bit arch then 32 else 64)) (Hh : holds bm a uc) :
  exists r' c, StepIfSignalHandler arch rel_pc em pm r = Done (true, r') /\ CreateFromUcontext arch uc = Some c /\
    forall i, regs_ r' !! i = if in_context arch i then regs_ c !! i else regs_ r !! i.
Proof.
  destruct Hr as (Hl & Hs & Hv). specialize (Hv sp Hsp). rewrite Hs in Hsp. unfold in_u in Hv.
  assert (0 <= a) as Ha.
  { destruct arch; cbn in Haddr, Hv; try (injection Haddr as <-; lia); [done| |].
    - destruct (read_value pm sp 4) as [d|]; [|done]. injection Haddr as <-. destruct (d =? sp + 8); lia.
    - apply read_value_range in Haddr; lia. }
  destruct arch; cbn [StepIfSignalHandler CreateFromUcontext in_context Is32Bit ucontext_size] in *; [done| | | | | |].
  - destruct (arm_signal em pm bm rel_pc r sp a uc Ha Hh) as (r' & ? & E); try (done || lia). exists r'. eexists. by rewrite E.
  - destruct (arm64_signal em pm bm rel_pc r sp a uc Ha Hh) as (r' & ? & E); try (done || lia). exists r'. eexists. by rewrite E.
  - rewrite (x86_signal em pm bm rel_pc r sp a uc Ha Hh) by done. do 2 eexists. split; [reflexivity|]. split; [reflexivity|].
    intros i. destruct r. by apply set_mcontext_x86.
  - rewrite (x86_64_signal em pm bm rel_pc r sp a uc Ha Hh) by done. do 2 eexists. split; [reflexivity|]. split; [reflexivity|].
    intros i. destruct r. unfold RegsX86_64.SetFromUcontext. by rewrite set_mcontext_x86_64.
  - destruct (mips_signal em pm bm rel_pc r sp a uc Ha Hh) as (r' & ? & E); try (done || lia). exists r'. eexists. by rewrite E.
  - destruct (mips64_signal em pm bm rel_pc r sp a uc Ha Hh) as (r' & ? & E); try (done || lia). exists r'. eexists. by rewrite E.
Qed.

(** The context of X86_64 at address 16 of a stack, and the code of the handler's return. *)
Definition example_ucontext : list byte := flat_map (le_bytes 8) (Z.of_nat <$> seq 100 28).
Definition example_signal_stack : list byte := replicate 16 x00 ++ example_ucontext.
Definition example_sigreturn : list byte := le_bytes 8 0x0f0000000fc0c748 ++ le_bytes 2 0x0f05.
Definition example_signal_regs : Regs := put_reg RegsX86_64.X86_64_REG_RSP 16 RegsX86_64.new.

Lemma signal_step_restores_witness :
  exists r', StepIfSignalHandler ARCH_X86_64 0 (MemoryBuffer.memory (MemoryBuffer.mk example_sigreturn))
      (MemoryBuffer.memory (MemoryBuffer.mk example_signal_stack)) example_signal_regs = Done (true, r') /\
    regs_ r' !! 16%nat = Some 121 /\ regs_ r' !! 7%nat = Some 120.
Proof.
  destruct (signal_step_restores ARCH_X86_64 (MemoryBuffer.memory (MemoryBuffer.mk example_sigreturn))
    (MemoryBuffer.memory (MemoryBuffer.mk example_signal_stack)) (buffer_bytes example_signal_stack) 0
    example_signal_regs 16 16 example_ucontext) as (r' & c & Hstep & Hc & Hregs).
  - apply (MemoryBuffer_bytes (MemoryBuffer.mk example_signal_stack)). vm_compute. discriminate.
  - split; vm_compute; reflexivity.
  - split; [reflexivity|]. split; [reflexivity|]. intros v Hv. injection Hv as <-. unfold in_u. cbn. lia.
  - reflexivity.
  - reflexivity.
  - vm_compute. reflexivity.
  - vm_compute. reflexivity.
  - vm_compute. reflexivity.
  - exists r'. split; [exact Hstep|]. injection Hc as <-. rewrite !Hregs. split; vm_compute; reflexivity.
Defined.
