(* ===== verification/RegsNames.v ===== *)
(** [IterateRegisters] of the six architectures: the names of the registers and their values. *)
From Stdlib Require Import ZArith Lia Bool Strings.Byte Strings.String.
From stdpp Require Import base numbers list strings.
From S2P Require Import Prelude Memory Regs ElfTypes RegsArch.
#[local] Open Scope Z_scope.
#[local] Open Scope string_scope.

(** The names in the order of the calls, with the index of the register *)
Definition arm_names : list (string * Z) :=
  [("r0", 0); ("r1", 1); ("r2", 2); ("r3", 3); ("r4", 4); ("r5", 5); ("r6", 6); ("r7", 7); ("r8", 8);
   ("r9", 9); ("r10", 10); ("r11", 11); ("ip", 12); ("sp", 13); ("lr", 14); ("pc", 15)].
Definition arm64_names : list (string * Z) :=
  [("x0", 0); ("x1", 1); ("x2", 2); ("x3", 3); ("x4", 4); ("x5", 5); ("x6", 6); ("x7", 7); ("x8", 8);
   ("x9", 9); ("x10", 10); ("x11", 11); ("x12", 12); ("x13", 13); ("x14", 14); ("x15", 15); ("x16", 16);
   ("x17", 17); ("x18", 18); ("x19", 19); ("x20", 20); ("x21", 21); ("x22", 22); ("x23", 23); ("x24", 24);
   ("x25", 25); ("x26", 26); ("x27", 27); ("x28", 28); ("x29", 29); ("sp", 31); ("lr", 30); ("pc", 32)].
Definition x86_names : list (string * Z) :=
  [("eax", 0); ("ebx", 3); ("ecx", 1); ("edx", 2); ("ebp", 5); ("edi", 7); ("esi", 6); ("esp", 4); ("eip", 8)].
Definition x86_64_names : list (string * Z) :=
  [("rax", 0); ("rbx", 3); ("rcx", 2); ("rdx", 1); ("r8", 8); ("r9", 9); ("r10", 10); ("r11", 11);
   ("r12", 12); ("r13", 13); ("r14", 14); ("r15", 15); ("rdi", 5); ("rsi", 4); ("rbp", 6); ("rsp", 7);
   ("rip", 16)].
Definition mips_names : list (string * Z) :=
  [("r0", 0); ("r1", 1); ("r2", 2); ("r3", 3); ("r4", 4); ("r5", 5); ("r6", 6); ("r7", 7); ("r8", 8);
   ("r9", 9); ("r10", 10); ("r11", 11); ("r12", 12); ("r13", 13); ("r14", 14); ("r15", 15); ("r16", 16);
   ("r17", 17); ("r18", 18); ("r19", 19); ("r20", 20); ("r21", 21); ("r22", 22); ("r23", 23); ("r24", 24);
   ("r25", 25); ("r26", 26); ("r27", 27); ("r28", 28); ("sp", 29); ("r30", 30); ("ra", 31); ("pc", 32)].
Definition mips64_names : list (string * Z) :=
  [("r0", 0); ("r1", 1); ("r2", 2); ("r3", 3); ("r4", 4); ("r5", 5); ("r6", 6); ("r7", 7); ("r8", 8);
   ("r9", 9); ("r10", 10); ("r11", 11); ("r12", 12); ("r13", 13); ("r14", 14); ("r15", 15); ("r16", 16);
   ("r17", 17); ("r18", 18); ("r19", 19); ("r20", 20); ("r21", 21); ("r22", 22); ("r23", 23); ("r24", 24);
   ("r25", 25); ("r26", 26); ("r27", 27); ("r28", 28); ("sp", 29); ("r30", 30); ("ra", 31); ("pc", 32)].

Definition register_names (arch : ArchEnum) : list (string * Z) :=
  match arch with
  | ARCH_ARM => arm_names
  | ARCH_ARM64 => arm64_names
  | ARCH_X86 => x86_names
  | ARCH_X86_64 => x86_64_names
  | ARCH_MIPS => mips_names
  | ARCH_MIPS64 => mips64_names
  | ARCH_UNKNOWN => []
  end.

(** The calls of [fn], in their order *)
Fixpoint iterate (names : list (string * Z)) : RG (list (string * Z)) :=
  match names with
  | [] => ret []
  | (name, i) :: names' => v <- reg i ;; rest <- iterate names' ;; ret ((name, v) :: rest)
  end.

Definition IterateRegisters (arch : ArchEnum) : RG (list (string * Z)) := iterate (register_names arch).

(** * What is iterated *)

(** The registers that an unwind keeps: of x86 only the first nine of 16. *)
Definition iterated_regs (arch : ArchEnum) : nat :=
  match arch with
  | ARCH_ARM => 16 | ARCH_ARM64 | ARCH_MIPS | ARCH_MIPS64 => 33 | ARCH_X86 => 9 | ARCH_X86_64 => 17 | ARCH_UNKNOWN => 0
  end.

(** Each register has one name, and each name is that of one register. *)
Lemma register_names_distinct arch :
  NoDup (map fst (register_names arch)) /\ Permutation (map snd (register_names arch)) (map Z.of_nat (seq 0 (iterated_regs arch))).
Proof.
  split; apply (bool_decide_unpack _); by destruct arch; vm_compute.
Qed.

Lemma iterate_run names r :
  Forall (fun p => is_Some (reg_at (snd p) r)) names ->
  iterate names r = Done (map (fun p => (fst p, default 0 (reg_at (snd p) r))) names, r).
Proof.
  induction 1 as [|[name i] names [v Hv] _ IH]; [done|]. cbn [iterate]. unfold reg, read_reg. rewrite (bind_run _ _ v r r).
  - rewrite (bind_run _ _ _ _ _ IH). cbn. cbn in Hv. by rewrite Hv.
  - rewrite bind_get. cbn in Hv. by rewrite Hv.
Qed.

(** The values are those of the registers. *)
Lemma IterateRegisters_values arch r :
  (iterated_regs arch <= length (regs_ r))%nat ->
  IterateRegisters arch r = Done (map (fun p => (fst p, default 0 (reg_at (snd p) r))) (register_names arch), r).
Proof.
  intros Hl. apply iterate_run, Forall_forall. intros p Hp.
  assert (snd p ∈ map snd (register_names arch)) as Hin by (apply list_elem_of_fmap; by exists p).
  rewrite (proj2 (register_names_distinct arch)) in Hin. apply list_elem_of_fmap in Hin as (k & -> & Hk).
  apply elem_of_seq in Hk. unfold reg_at. rewrite (proj2 (Z.leb_le _ _)) by lia. rewrite Nat2Z.id. apply lookup_lt_is_Some. lia.
Qed.
