(* ===== verification/Maps.v ===== *)
(** [Maps.cpp], [Maps.h] and the data of [MapInfo.h]: the maps of a process.

    A pointer to a [MapInfo] is a key of [infos]; a [std::unique_ptr] in a vector is such a key, or
    [None] when it is null. *)
From Stdlib Require Import ZArith Lia Bool Strings.Byte Strings.String.
From stdpp Require Import base numbers list gmap.
From S2P Require Import Prelude.
#[local] Open Scope Z_scope.

(** * Data *)

(** [map_elf] is the object that [elf] points to, [None] when it is null; [load_bias] is -1 until it
    is known; [build_id] is [None] until it was read. *)
Record MapInfo := mkMapInfo {
  map_start : Z;
  map_end : Z;
  map_offset : Z;
  map_flags : Z;
  map_name : list byte;
  map_elf : option Z;
  elf_offset : Z;
  elf_start_offset : Z;
  prev_map : option Z;
  map_load_bias : Z;
  build_id : option (list byte);
  memory_backed_elf : bool
}.

Definition new_MapInfo (prev : option Z) (start fin offset flags : Z) (name : list byte) : MapInfo :=
  mkMapInfo start fin offset (u16 flags) name None 0 0 prev UINT64_MAX None false.

Definition put_prev_map (p : option Z) (i : MapInfo) : MapInfo :=
  mkMapInfo (map_start i) (map_end i) (map_offset i) (map_flags i) (map_name i) (map_elf i) (elf_offset i)
    (elf_start_offset i) p (map_load_bias i) (build_id i) (memory_backed_elf i).
Definition put_map_load_bias (b : Z) (i : MapInfo) : MapInfo :=
  mkMapInfo (map_start i) (map_end i) (map_offset i) (map_flags i) (map_name i) (map_elf i) (elf_offset i)
    (elf_start_offset i) (prev_map i) b (build_id i) (memory_backed_elf i).

Definition MAPS_FLAGS_DEVICE_MAP : Z := 0x8000.
Definition MAPS_FLAGS_JIT_SYMFILE_MAP : Z := 0x4000.

(** [fresh] is a key that no object has yet. *)
Record Maps := mkMaps {
  infos : gmap Z MapInfo;
  fresh : Z;
  maps_ : list (option Z);
  saved_maps_ : list (option Z)
}.

Definition new_Maps : Maps := mkMaps ∅ 0 [] [].

Definition put_maps (l : list (option Z)) (s : Maps) : Maps := mkMaps (infos s) (fresh s) l (saved_maps_ s).
Definition put_saved (l : list (option Z)) (s : Maps) : Maps := mkMaps (infos s) (fresh s) (maps_ s) l.
Definition put_infos (h : gmap Z MapInfo) (s : Maps) : Maps := mkMaps h (fresh s) (maps_ s) (saved_maps_ s).

Abbreviation MS := (M Maps).

(** [p->...] of a pointer that may be null *)
Definition deref_map (p : option Z) : MS MapInfo :=
  s <- get ;; some_or (Undef UbNull) (p ≫= fun k => infos s !! k).

(** [maps_[i]] *)
Definition map_at (i : Z) : MS (option Z) := s <- get ;; some_or (Undef UbNull) (maps_ s !! Z.to_nat i).

Definition total_maps (s : Maps) : Z := Z.of_nat (length (maps_ s)).

(** * Operations *)

(** The binary search: [None] is [nullptr]. *)
Fixpoint find_loop (fuel : nat) (pc first last : Z) : MS (option Z) :=
  match fuel with
  | O => fail OutOfFuel
  | S fuel' =>
      if first <? last then
        let index := u64 (first + last) / 2 in
        p <- map_at index ;;
        cur <- deref_map p ;;
        if (map_start cur <=? pc) && (pc <? map_end cur) then ret p
        else if pc <? map_start cur then find_loop fuel' pc first index
        else find_loop fuel' pc (u64 (index + 1)) last
      else ret None
  end.

(** The interval shrinks in every iteration. *)
Definition Find (pc : Z) : MS (option Z) :=
  s <- get ;;
  if total_maps s =? 0 then ret None else find_loop (S (length (maps_ s))) pc 0 (total_maps s).

Definition Get (index : Z) (s : Maps) : option Z :=
  if total_maps s <=? index then None else mjoin (maps_ s !! Z.to_nat index).

(** [maps_.empty() ? nullptr : maps_.back().get()] *)
Definition last_map (s : Maps) : option Z := mjoin (last (maps_ s)).

(** [maps_.emplace_back(new MapInfo(...))] *)
Definition emplace_map (info : MapInfo) : MS unit :=
  modify (fun s => mkMaps (<[fresh s := info]> (infos s)) (fresh s + 1) (maps_ s ++ [Some (fresh s)]) (saved_maps_ s)).

Definition Add (start fin offset flags : Z) (name : list byte) (load_bias : Z) : MS unit :=
  s <- get ;; emplace_map (put_map_load_bias load_bias (new_MapInfo (last_map s) start fin offset flags name)).

(** A line of a maps file: start, end, flags, offset and name. *)
Record map_entry := mkEntry { me_start : Z; me_end : Z; me_flags : Z; me_pgoff : Z; me_name : list byte }.

Definition starts_with (prefix s : list byte) : bool := bool_decide (take (length prefix) s = prefix).

(** A map in [/dev/] and not in [/dev/ashmem/] *)
Definition is_device (name : list byte) : bool :=
  let dev := list_byte_of_string "/dev/" in
  starts_with dev name && negb (starts_with (list_byte_of_string "ashmem/") (drop (length dev) name)).

Definition parse_entry (e : map_entry) : MS unit :=
  s <- get ;;
  let flags := if is_device (me_name e) then Z.lor (me_flags e) MAPS_FLAGS_DEVICE_MAP else me_flags e in
  emplace_map (new_MapInfo (last_map s) (me_start e) (me_end e) (me_pgoff e) flags (me_name e)).

Fixpoint parse_entries (l : list map_entry) : MS unit :=
  match l with
  | [] => ret tt
  | e :: l' => parse_entry e ;; parse_entries l'
  end.

(** [ReadMapFile], which belongs to libprocinfo, calls back for each of the entries [l] and returns
    [ok]: it stops at a line that it cannot parse. *)
Definition Parse (l : list map_entry) (ok : bool) : MS bool := parse_entries l ;; ret ok.

(** Each map is linked to the one before it. *)
Fixpoint link_maps (prev : option Z) (l : list (option Z)) : MS unit :=
  match l with
  | [] => ret tt
  | p :: l' =>
      info <- deref_map p ;;
      modify (fun s => put_infos (match p with Some k => <[k := put_prev_map prev info]> (infos s) | None => infos s end) s) ;;
      link_maps p l'
  end.

Section Sorting.
(** [std::sort] of pointers, for a heap and a comparison by [start]: null pointers last. *)
Context (sort : gmap Z MapInfo -> list (option Z) -> list (option Z)).

Definition Sort : MS unit :=
  modify (fun s => put_maps (sort (infos s) (maps_ s)) s) ;;
  s <- get ;;
  link_maps None (maps_ s).

(** * [LocalUpdatableMaps::Reparse] *)

(** The destructor of a [std::unique_ptr] *)
Definition destroy (p : option Z) (h : gmap Z MapInfo) : gmap Z MapInfo :=
  match p with Some k => delete k h | None => h end.

(** [maps_[i] = nullptr], which destroys the map *)
Definition reset_map (i : Z) : MS unit :=
  p <- map_at i ;;
  modify (fun s => put_maps (<[Z.to_nat i := None]> (maps_ s)) (put_infos (destroy p (infos s)) s)).

(** [saved_maps_.emplace_back(std::move(maps_[i]))], which leaves a null pointer; the assignment of
    [nullptr] after it changes nothing. *)
Definition save_map (i : Z) : MS unit :=
  p <- map_at i ;;
  modify (fun s => put_saved (saved_maps_ s ++ [p]) (put_maps (<[Z.to_nat i := None]> (maps_ s)) s)).

(** The loop over the old maps from [old_map_idx] on, for the new map at [new_map_idx]: the new values
    of [search_map_idx] and of [total_entries]. *)
Fixpoint old_maps_loop (n : nat) (new_map_idx : Z) (new : MapInfo) (old_map_idx search_map_idx total_entries : Z)
    : MS (Z * Z) :=
  match n with
  | O => ret (search_map_idx, total_entries)
  | S n' =>
      p <- map_at old_map_idx ;;
      info <- deref_map p ;;
      if (map_start new =? map_start info) && (map_end new =? map_end info) && (map_flags new =? map_flags info)
         && bool_decide (map_name new = map_name info) then
        reset_map new_map_idx ;; ret (old_map_idx + 1, u64 (total_entries - 1))
      else if map_start new <? map_start info then ret (old_map_idx, total_entries)
      else
        save_map old_map_idx ;;
        old_maps_loop n' new_map_idx new (old_map_idx + 1) search_map_idx (u64 (total_entries - 1))
  end.

(** The loop over the new maps, [n] of them from [new_map_idx] on. *)
Fixpoint new_maps_loop (n : nat) (new_map_idx last_map_idx search_map_idx total_entries : Z) : MS (Z * Z) :=
  match n with
  | O => ret (search_map_idx, total_entries)
  | S n' =>
      p <- map_at new_map_idx ;;
      new <- deref_map p ;;
      r <- old_maps_loop (Z.to_nat (last_map_idx - search_map_idx)) new_map_idx new search_map_idx search_map_idx total_entries ;;
      let '(search_map_idx, total_entries) := r in
      if last_map_idx <=? search_map_idx then ret (search_map_idx, total_entries)
      else new_maps_loop n' (new_map_idx + 1) last_map_idx search_map_idx total_entries
  end.

(** The old maps that were not found, [n] of them from [i] on. *)
Fixpoint save_rest (n : nat) (i total_entries : Z) : MS Z :=
  match n with
  | O => ret total_entries
  | S n' => save_map i ;; save_rest n' (i + 1) (u64 (total_entries - 1))
  end.

(** [max_size()] of a vector of pointers: a larger one cannot be made, and there are no exceptions *)
Definition vector_max_size : Z := 2 ^ 61 - 1.

(** [maps_.resize(n)], which destroys the maps behind, or appends null pointers when the vector grows *)
Definition resize_maps (n : Z) : MS unit :=
  if vector_max_size <? n then fail Aborted
  else modify (fun s =>
    put_maps (take (Z.to_nat n) (maps_ s ++ replicate (Z.to_nat (n - total_maps s)) None))
      (put_infos (fold_right destroy (infos s) (drop (Z.to_nat n) (maps_ s))) s)).

Definition Reparse (l : list map_entry) (ok : bool) : MS bool :=
  last_map_idx <- gets total_maps ;;
  parsed <- Parse l ok ;;
  if negb parsed then resize_maps last_map_idx ;; ret false
  else
    total <- gets total_maps ;;
    r <- new_maps_loop (Z.to_nat (total - last_map_idx)) last_map_idx last_map_idx 0 total ;;
    let '(search_map_idx, total_entries) := r in
    total_entries <- save_rest (Z.to_nat (last_map_idx - search_map_idx)) search_map_idx total_entries ;;
    modify (fun s => put_maps (sort (infos s) (maps_ s)) s) ;;
    resize_maps total_entries ;;
    ret true.
End Sorting.
