(* ===== verification/MapsFind.v ===== *)
(** The search of a map, the links between maps, and what a reparse loses. *)
From Stdlib Require Import ZArith Lia Bool Strings.Byte.
From stdpp Require Import base numbers list gmap sorting.
From S2P Require Import Prelude Maps.
#[local] Open Scope Z_scope.

(** * The search *)

Section Find.
Context (s : Maps) (l : list MapInfo).

(** The vector holds, in this order, maps that end before the next one starts. *)
Record maps_ok : Prop := {
  mo_maps : forall i, l !! i = (maps_ s !! i) ≫= (fun p => p ≫= fun k => infos s !! k);
  mo_length : length l = length (maps_ s);
  mo_size : Z.of_nat (length l) < 2 ^ 62;
  mo_nonempty : forall m, m ∈ l -> map_start m < map_end m;
  mo_disjoint : forall i j m n, (i < j)%nat -> l !! i = Some m -> l !! j = Some n -> map_end m <= map_start n
}.
Context (Hok : maps_ok).

Definition contains (pc : Z) (m : MapInfo) : Prop := map_start m <= pc < map_end m.

Lemma map_at_run i m : l !! i = Some m ->
  exists k, maps_ s !! i = Some (Some k) /\ infos s !! k = Some m /\
    map_at (Z.of_nat i) s = Done (Some k, s) /\ deref_map (Some k) s = Done (m, s).
Proof.
  intros Hi. rewrite (mo_maps Hok) in Hi. destruct (maps_ s !! i) as [[k|]|] eqn:E; try discriminate Hi. cbn in Hi.
  exists k. split; [done|]. split; [done|]. unfold map_at, deref_map. rewrite !bind_get, Nat2Z.id, E. cbn. by rewrite Hi.
Qed.

Lemma find_loop_run fuel pc first last :
  (first <= last <= length l)%nat -> (last - first < fuel)%nat ->
  (forall i m, l !! i = Some m -> contains pc m -> (first <= i < last)%nat) ->
  exists r, find_loop fuel pc (Z.of_nat first) (Z.of_nat last) s = Done (r, s) /\
    match r with
    | Some k => exists m, m ∈ l /\ infos s !! k = Some m /\ contains pc m
    | None => forall m, m ∈ l -> ~ contains pc m
    end.
Proof.
  pose proof (mo_size Hok) as Hsz. revert first last. induction fuel as [|fuel IH]; intros first last Hr Hf Hin; [lia|].
  cbn [find_loop]. destruct (Z.ltb_spec (Z.of_nat first) (Z.of_nat last)).
  2:{ exists None. split; [done|]. intros m [i Hi]%list_elem_of_lookup Hc. specialize (Hin i m Hi Hc). lia. }
  cbv zeta. rewrite (wrap_small 64) by (unfold in_u; lia). set (c := ((first + last) / 2)%nat).
  replace ((Z.of_nat first + Z.of_nat last) / 2) with (Z.of_nat c) by (unfold c; by rewrite Nat2Z.inj_div, Nat2Z.inj_add).
  assert (2 * c <= first + last < 2 * c + 2)%nat as Hc.
  { unfold c. pose proof (Nat.div_mod_eq (first + last) 2). pose proof (Nat.mod_upper_bound (first + last) 2 ltac:(done)). lia. }
  clearbody c. destruct (lookup_lt_is_Some_2 l c) as [m Hm]; [lia|].
  destruct (map_at_run c m Hm) as (k & _ & Hk & Hat & Hd).
  rewrite (bind_run _ _ _ _ _ Hat), (bind_run _ _ _ _ _ Hd). pose proof (list_elem_of_lookup_2 _ _ _ Hm) as Hel.
  pose proof (mo_nonempty Hok m Hel) as Hne.
  destruct ((map_start m <=? pc) && (pc <? map_end m)) eqn:Hcon.
  { exists (Some k). split; [done|]. exists m. split_and!; [done..|]. unfold contains. lia. }
  destruct (Z.ltb_spec pc (map_start m)).
  - apply IH; [lia|lia|]. intros i n Hi Hn. specialize (Hin i n Hi Hn). split; [lia|].
    destruct (Nat.lt_trichotomy i c) as [?|[->|Hlt]]; [done|rewrite Hm in Hi; injection Hi as <-; unfold contains in Hn; lia|].
    pose proof (mo_disjoint Hok c i m n Hlt Hm Hi). unfold contains in Hn. lia.
  - rewrite (wrap_small 64) by (unfold in_u; lia). replace (Z.of_nat c + 1) with (Z.of_nat (S c)) by lia.
    apply IH; [lia|lia|]. intros i n Hi Hn. specialize (Hin i n Hi Hn). split; [|lia].
    destruct (Nat.lt_trichotomy i c) as [Hlt|[->|?]]; [|rewrite Hm in Hi; injection Hi as <-; unfold contains in Hn; lia|lia].
    pose proof (mo_disjoint Hok i c n m Hlt Hi Hm). unfold contains in Hn. lia.
Qed.

Lemma Find_run pc :
  exists r, Find pc s = Done (r, s) /\
    match r with
    | Some k => exists m, m ∈ l /\ infos s !! k = Some m /\ contains pc m
    | None => forall m, m ∈ l -> ~ contains pc m
    end.
Proof.
  unfold Find. rewrite bind_get. unfold total_maps. rewrite <- (mo_length Hok).
  destruct (Z.eqb_spec (Z.of_nat (length l)) 0) as [E|E].
  - exists None. split; [done|]. intros m Hm. destruct l; [by apply not_elem_of_nil in Hm|simpl in E; lia].
  - apply (find_loop_run (S (length l)) pc 0 (length l)); [lia|lia|]. intros i m Hi _. apply lookup_lt_Some in Hi. lia.
Qed.

(** The map that contains a pc. *)
Definition map_of (pc : Z) : option MapInfo :=
  List.find (fun m => (map_start m <=? pc) && (pc <? map_end m)) l.

Lemma contains_unique pc m n : m ∈ l -> n ∈ l -> contains pc m -> contains pc n -> m = n.
Proof.
  intros [i Hi]%list_elem_of_lookup [j Hj]%list_elem_of_lookup Hm Hn. unfold contains in *.
  destruct (Nat.lt_trichotomy i j) as [Hlt|[->|Hlt]]; [|congruence|].
  - pose proof (mo_disjoint Hok i j m n Hlt Hi Hj). lia.
  - pose proof (mo_disjoint Hok j i n m Hlt Hj Hi). lia.
Qed.

Lemma Find_map_of pc :
  exists r, Find pc s = Done (r, s) /\
    match r with
    | Some k => exists m, map_of pc = Some m /\ infos s !! k = Some m
    | None => map_of pc = None
    end.
Proof.
  destruct (Find_run pc) as (r & Hr & Hspec). exists r. split; [done|]. unfold map_of.
  destruct (List.find _ l) as [m|] eqn:E.
  - apply List.find_some in E as [Hin [?%Z.leb_le ?%Z.ltb_lt]%andb_true_iff]. apply list_elem_of_In in Hin.
    destruct r as [k|]; [|by destruct (Hspec m Hin)]. destruct Hspec as (m' & Hin' & Hk & Hc).
    exists m. split; [done|]. by rewrite (contains_unique pc m m').
  - destruct r as [k|]; [|done]. destruct Hspec as (m' & Hin' & _ & [? ?]). exfalso.
    pose proof (List.find_none _ _ E m' ltac:(by apply list_elem_of_In)) as Hn. cbn in Hn.
    apply andb_false_iff in Hn as [?%Z.leb_gt|?%Z.ltb_ge]; lia.
Qed.
End Find.

(** * Maps that are added one by one *)

(** What [std::sort] promises for the comparison of the maps: null pointers are last. *)
Definition start_of (h : gmap Z MapInfo) (k : Z) : Z := default 0 (map_start <$> h !! k).
Definition map_le (h : gmap Z MapInfo) (p q : option Z) : Prop :=
  match p, q with
  | _, None => True
  | None, Some _ => False
  | Some a, Some b => start_of h a <= start_of h b
  end.
Definition sorts_maps (sort : gmap Z MapInfo -> list (option Z) -> list (option Z)) : Prop :=
  forall h l, sort h l ≡ₚ l /\ StronglySorted (map_le h) (sort h l).

(** The arguments of an [Add]. *)
Record added := mkAdded { ad_start : Z; ad_end : Z; ad_offset : Z; ad_flags : Z; ad_name : list byte; ad_bias : Z }.

Definition is_added (e : added) (m : MapInfo) : Prop :=
  map_start m = ad_start e /\ map_end m = ad_end e /\ map_offset m = ad_offset e /\ map_flags m = u16 (ad_flags e) /\
  map_name m = ad_name e /\ map_load_bias m = ad_bias e.

Fixpoint add_all (es : list added) : MS unit :=
  match es with
  | [] => ret tt
  | e :: es' => Add (ad_start e) (ad_end e) (ad_offset e) (ad_flags e) (ad_name e) (ad_bias e) ;; add_all es'
  end.

Definition holds_added (es : list added) (s : Maps) : Prop :=
  fresh s = Z.of_nat (length es) /\ maps_ s = (fun i => Some (Z.of_nat i)) <$> seq 0 (length es) /\
  forall i e, es !! i = Some e -> exists m, infos s !! Z.of_nat i = Some m /\ is_added e m.

Lemma add_all_run es0 es s :
  holds_added es0 s -> exists s', add_all es s = Done (tt, s') /\ holds_added (es0 ++ es) s'.
Proof.
  revert es0 s. induction es as [|e es IH]; intros es0 s Hs; [exists s; by rewrite app_nil_r|].
  cbn [add_all]. unfold Add, emplace_map. unfold bind at 1. rewrite bind_get. unfold modify.
  replace (es0 ++ e :: es) with ((es0 ++ [e]) ++ es) by (by rewrite <- app_assoc). apply IH.
  destruct Hs as (Hf & Hm & Hi). unfold holds_added. cbn [fresh maps_ infos]. rewrite length_app. split_and!.
  - simpl length. lia.
  - rewrite seq_app, fmap_app, Hm, Hf. done.
  - intros i x Hx. apply lookup_app_Some in Hx as [Hx|[Hle Hx]].
    + destruct (Hi i x Hx) as (m & Hl & ?). exists m. split; [|done]. rewrite lookup_insert_ne; [done|].
      apply lookup_lt_Some in Hx. lia.
    + apply list_lookup_singleton_Some in Hx as [Hz ->]. replace (Z.of_nat i) with (fresh s) by lia.
      eexists. split; [apply lookup_insert_eq|done].
Qed.

(** ** The links *)

Lemma link_maps_run ks prev s :
  NoDup ks -> (forall k, k ∈ ks -> is_Some (infos s !! k)) ->
  exists h, link_maps prev (Some <$> ks) s = Done (tt, put_infos h s) /\
    (forall k m, infos s !! k = Some m -> exists p, h !! k = Some (put_prev_map p m)) /\
    (forall k, k ∉ ks -> h !! k = infos s !! k) /\
    (forall i k, ks !! i = Some k -> prev_map <$> h !! k = Some (if decide (i = 0%nat) then prev else ks !! pred i)).
Proof.
  revert prev s. induction ks as [|k ks IH]; intros prev s Hnd Hin.
  { exists (infos s). split; [by destruct s|]. split; [|done]. intros k m Hm. exists (prev_map m). rewrite Hm. by destruct m. }
  apply NoDup_cons in Hnd as [Hk Hnd]. destruct (Hin k ltac:(by left)) as [m Hm].
  cbn [fmap list_fmap link_maps]. unfold deref_map at 1. unfold bind at 1. rewrite bind_get. cbn [mbind option_bind]. rewrite Hm.
  cbn [some_or ret]. rewrite bind_modify.
  destruct (IH (Some k) (put_infos (<[k := put_prev_map prev m]> (infos s)) s) Hnd) as (h & -> & Hh & Hout & Hlink).
  { intros k' Hk'. cbn. destruct (decide (k = k')) as [->|]; [rewrite lookup_insert_eq; eauto|].
    rewrite lookup_insert_ne by done. apply Hin. by right. }
  cbn [infos put_infos] in *. exists h. split; [done|]. split_and!.
  - intros k' m' Hm'. destruct (decide (k = k')) as [<-|Hne].
    + rewrite Hm in Hm'. injection Hm' as <-. destruct (Hh k (put_prev_map prev m) ltac:(by rewrite lookup_insert_eq)) as [p Hp].
      exists p. by rewrite Hp.
    + apply Hh. by rewrite lookup_insert_ne.
  - intros k' Hk'. apply not_elem_of_cons in Hk' as [? ?]. by rewrite Hout, lookup_insert_ne.
  - intros [|i] k' Hi; cbn in Hi.
    + injection Hi as <-. rewrite Hout, lookup_insert_eq by done. done.
    + rewrite (Hlink i k' Hi). cbn. destruct i; [done|]. done.
Qed.

(** ** Adding, sorting, searching *)

Definition entries_disjoint (es : list added) : Prop :=
  forall i j d e, i <> j -> es !! i = Some d -> es !! j = Some e -> ad_end d <= ad_start e \/ ad_end e <= ad_start d.

(** Every map is linked to the one before it. *)
Definition linked (s : Maps) : Prop :=
  forall i k, maps_ s !! i = Some (Some k) ->
    exists m, infos s !! k = Some m /\ prev_map m = if decide (i = 0%nat) then None else mjoin (maps_ s !! pred i).

Section Added.
Context (sort : gmap Z MapInfo -> list (option Z) -> list (option Z)) (Hsort : sorts_maps sort) (es : list added).
Context (Hne : forall e, e ∈ es -> ad_start e < ad_end e) (Hdis : entries_disjoint es) (Hsz : Z.of_nat (length es) < 2 ^ 62).

Lemma Sort_run s :
  holds_added es s ->
  exists s' ks, Sort sort s = Done (tt, s') /\ maps_ s' = Some <$> ks /\ (Z.of_nat <$> seq 0 (length es)) ≡ₚ ks /\ linked s' /\
    StronglySorted (map_le (infos s')) (maps_ s') /\
    forall i e, es !! i = Some e -> exists m, infos s' !! Z.of_nat i = Some m /\ is_added e m.
Proof.
  intros (Hf & Hm & Hi). destruct (Hsort (infos s) (maps_ s)) as [Hp Hst]. unfold Sort. rewrite bind_modify, bind_get.
  set (v := sort (infos s) (maps_ s)) in *. clearbody v. cbn [maps_ put_maps].
  rewrite Hm, (list_fmap_compose Z.of_nat Some) in Hp. destruct (Permutation_map_inv _ _ Hp) as (ks & -> & Hpk).
  change (map Some ks) with (Some <$> ks) in *.
  assert (forall k, k ∈ ks -> is_Some (infos s !! k)) as Hin.
  { intros k Hk. rewrite <- Hpk in Hk. apply list_elem_of_fmap in Hk as (i & -> & [_ Hlt]%elem_of_seq).
    destruct (lookup_lt_is_Some_2 es i) as [e He]; [lia|]. destruct (Hi i e He) as (m & -> & _). eauto. }
  destruct (link_maps_run ks None (put_maps (Some <$> ks) s)) as (h & Hrun & Hh & Hout & Hlink); [|done|].
  { rewrite <- Hpk. apply NoDup_fmap_2; [intros x y; lia|apply NoDup_seq]. }
  eexists _, ks. split; [exact Hrun|]. cbn [maps_ put_infos put_maps infos] in *.
  assert (forall k, start_of h k = start_of (infos s) k) as Hstart.
  { intros k. unfold start_of. destruct (decide (k ∈ ks)) as [Hk|Hk]; [|by rewrite Hout].
    destruct (Hin k Hk) as [m E]. destruct (Hh k m E) as [p ->]. by rewrite E. }
  split_and!; [done|done| | |].
  - intros i k Hk. cbn [maps_ infos put_infos put_maps] in Hk |- *. rewrite list_lookup_fmap in Hk. destruct (ks !! i) as [k'|] eqn:E; [|done].
    injection Hk as ->. pose proof (Hlink i k E) as Hl. destruct (h !! k) as [m|]; [|done]. injection Hl as Hl.
    exists m. split; [done|]. rewrite Hl. destruct (decide (i = 0%nat)); [done|]. rewrite list_lookup_fmap. by destruct (ks !! pred i).
  - clear -Hst Hstart. induction Hst as [|p l Hst IH Hp]; constructor; [done|]. eapply Forall_impl; [exact Hp|].
    intros q. unfold map_le. destruct p, q; try done. by rewrite !Hstart.
  - intros i e He. destruct (Hi i e He) as (m & Hl & Had). destruct (Hh _ m Hl) as [p Hp'].
    eexists. split; [exact Hp'|]. exact Had.
Qed.

Lemma added_maps_ok s ks :
  maps_ s = Some <$> ks -> (Z.of_nat <$> seq 0 (length es)) ≡ₚ ks -> StronglySorted (map_le (infos s)) (maps_ s) ->
  (forall i e, es !! i = Some e -> exists m, infos s !! Z.of_nat i = Some m /\ is_added e m) ->
  exists l, maps_ok s l /\ (forall m, m ∈ l -> exists e, e ∈ es /\ is_added e m) /\
    (forall e, e ∈ es -> exists m, m ∈ l /\ is_added e m).
Proof.
  intros Hm Hp Hst Hi.
  assert (forall k, k ∈ ks -> exists i e m, k = Z.of_nat i /\ es !! i = Some e /\ infos s !! k = Some m /\ is_added e m) as Hk.
  { intros k Hk. rewrite <- Hp in Hk. apply list_elem_of_fmap in Hk as (i & -> & [_ Hlt]%elem_of_seq).
    destruct (lookup_lt_is_Some_2 es i) as [e He]; [lia|]. destruct (Hi i e He) as (m & ? & ?). by exists i, e, m. }
  set (l := omap (fun k => infos s !! k) ks).
  assert (forall i, l !! i = ks !! i ≫= fun k => infos s !! k) as Hl.
  { unfold l. clear -Hk. induction ks as [|k ks IH]; intros i; [by destruct i|].
    destruct (Hk k ltac:(by left)) as (j & e & m & _ & _ & Hm & _). cbn [omap list_omap]. rewrite Hm.
    destruct i as [|i]; [cbn; by rewrite Hm|]. apply IH. intros k' Hk'. apply Hk. by right. }
  assert (length l = length ks) as Hlen.
  { unfold l. clear -Hk. induction ks as [|k ks IH]; [done|].
    destruct (Hk k ltac:(by left)) as (j & e & m & _ & _ & Hm & _). cbn [omap list_omap]. rewrite Hm. simpl. f_equal.
    apply IH. intros k' Hk'. apply Hk. by right. }
  assert (forall i m, l !! i = Some m -> exists k j e, ks !! i = Some k /\ k = Z.of_nat j /\ es !! j = Some e /\ infos s !! k = Some m /\ is_added e m) as Hlm.
  { intros i m E. rewrite Hl in E. destruct (ks !! i) as [k|] eqn:Ek; [|done]. cbn in E.
    destruct (Hk k ltac:(by eapply list_elem_of_lookup_2)) as (j & e & m' & -> & He & Hm' & Ha).
    exists (Z.of_nat j), j, e. rewrite E in Hm'. injection Hm' as <-. done. }
  exists l. split; [split|split].
  - intros i. rewrite Hl, Hm, list_lookup_fmap. by destruct (ks !! i).
  - by rewrite Hlen, Hm, length_fmap.
  - rewrite Hlen, <- (Permutation_length Hp), length_fmap, length_seq. done.
  - intros m [i E]%list_elem_of_lookup. destruct (Hlm i m E) as (k & j & e & _ & _ & He & _ & (-> & -> & _)).
    apply Hne. by eapply list_elem_of_lookup_2.
  - intros i j m n Hij Em En. destruct (Hlm i m Em) as (k & a & d & Hki & -> & Hd & Hmi & (Hs1 & He1 & _)).
    destruct (Hlm j n En) as (k' & b & e & Hkj & -> & He & Hni & (Hs2 & He2 & _)).
    assert (map_le (infos s) (Some (Z.of_nat a)) (Some (Z.of_nat b))) as Hle.
    { apply (strongly_sorted_lookup _ (maps_ s) i j); [done|rewrite Hm, list_lookup_fmap, Hki; done|rewrite Hm, list_lookup_fmap, Hkj; done|done]. }
    unfold map_le, start_of in Hle. rewrite Hmi, Hni in Hle. cbn in Hle.
    assert (a <> b) as Hab.
    { intros ->. assert (NoDup ks) as Hnd by (rewrite <- Hp; apply NoDup_fmap_2; [intros x y; lia|apply NoDup_seq]).
      pose proof (NoDup_lookup _ _ _ _ Hnd Hki Hkj). lia. }
    pose proof (Hne e ltac:(by eapply list_elem_of_lookup_2)). destruct (Hdis a b d e Hab Hd He); lia.
  - intros m [i E]%list_elem_of_lookup. destruct (Hlm i m E) as (k & j & e & _ & _ & He & _ & Ha).
    exists e. split; [by eapply list_elem_of_lookup_2|done].
  - intros e [j He]%list_elem_of_lookup. destruct (Hi j e He) as (m & Hmj & Ha). exists m. split; [|done].
    assert (Z.of_nat j ∈ ks) as Hin.
    { rewrite <- Hp. apply list_elem_of_fmap_2, elem_of_seq. apply lookup_lt_Some in He. lia. }
    apply list_elem_of_lookup in Hin as [i Hki]. apply list_elem_of_lookup. exists i. by rewrite Hl, Hki.
Qed.
End Added.

(** * Theorems *)

(** C20. Maps that are added in any order and then sorted: every pc is found in the map that contains
    it, with the properties that were added, no map is found for the others, and each map is linked
    to the one before it. *)
Theorem maps_add_sort_find sort es
  (Hsort : sorts_maps sort) (Hne : forall e, e ∈ es -> ad_start e < ad_end e) (Hdis : entries_disjoint es)
  (Hsz : Z.of_nat (length es) < 2 ^ 62) :
  exists s, (add_all es ;; Sort sort) new_Maps = Done (tt, s) /\ linked s /\
    forall pc, exists r, Find pc s = Done (r, s) /\
      match r with
      | Some k => exists e m, e ∈ es /\ infos s !! k = Some m /\ is_added e m /\ ad_start e <= pc < ad_end e
      | None => forall e, e ∈ es -> ~ (ad_start e <= pc < ad_end e)
      end.
Proof.
  destruct (add_all_run [] es new_Maps) as (s1 & Hrun & Hs1); [by split_and!|]. cbn [app] in Hs1.
  destruct (Sort_run sort Hsort es s1 Hs1) as (s & ks & Hsr & Hm & Hp & Hlink & Hst & Hi).
  exists s. rewrite (bind_run _ _ _ _ _ Hrun). split; [done|]. split; [done|]. intros pc.
  destruct (added_maps_ok es Hne Hdis Hsz s ks Hm Hp Hst Hi) as (l & Hok & Hl & He).
  destruct (Find_run s l Hok pc) as (r & Hr & Hspec). exists r. split; [done|]. destruct r as [k|].
  - destruct Hspec as (m & Hml & Hk & Hc). destruct (Hl m Hml) as (e & Hel & Ha). exists e, m.
    unfold contains in Hc. pose proof Ha as (Hs' & He' & _). rewrite Hs', He' in Hc. done.
  - intros e Hel Hc. destruct (He e Hel) as (m & Hml & Ha). apply (Hspec m Hml). unfold contains. by destruct Ha as (-> & -> & _).
Qed.

(** ** An instance of the sort *)

#[export] Instance map_le_dec h : RelDecision (map_le h).
Proof. intros [a|] [b|]; unfold map_le; apply _. Defined.
#[export] Instance map_le_total h : Total (map_le h).
Proof. intros [a|] [b|]; unfold map_le; [lia|by left|by right|by left]. Qed.
#[export] Instance map_le_trans h : Transitive (map_le h).
Proof. intros [a|] [b|] [c|]; unfold map_le; try done. lia. Qed.

Definition sort_maps (h : gmap Z MapInfo) (l : list (option Z)) : list (option Z) := merge_sort (map_le h) l.

Lemma sort_maps_sorts : sorts_maps sort_maps.
Proof. intros h l. split; [apply merge_sort_Permutation|apply (StronglySorted_merge_sort _)]. Qed.

Lemma maps_add_sort_find_witness :
  exists s, (add_all [mkAdded 0x3000 0x4000 0 5 [] 0; mkAdded 0x1000 0x2000 0 5 [] 0] ;; Sort sort_maps) new_Maps = Done (tt, s) /\
    Find 0x1fff s = Done (Some 1, s) /\ Find 0x2000 s = Done (None, s).
Proof.
  destruct (maps_add_sort_find sort_maps [mkAdded 0x3000 0x4000 0 5 [] 0; mkAdded 0x1000 0x2000 0 5 [] 0]) as (s & Hs & _ & Hf).
  - apply sort_maps_sorts.
  - intros e He. repeat (apply elem_of_cons in He as [->|He]; [cbn; lia|]). by apply not_elem_of_nil in He.
  - intros [|[|i]] [|[|j]] d e Hne Hd He; cbn in Hd, He; simplify_eq; cbn; lia.
  - cbn. lia.
  - exists s. split; [exact Hs|]. vm_compute in Hs. injection Hs as <-. split; reflexivity.
Defined.

(** ** One map and a maps file of one line *)

Lemma sort_one sort h l k : sorts_maps sort -> l ≡ₚ [Some k; None] -> sort h l = [Some k; None].
Proof.
  intros Hsort Hl. destruct (Hsort h l) as [Hp Hs]. pose proof (transitivity Hp Hl) as Hq.
  destruct (Permutation_length_2_inv (Permutation_sym Hq)) as [E|E]; rewrite E in *; [done|].
  apply StronglySorted_inv in Hs as [_ Hs]. apply Forall_cons in Hs as [[] _].
Qed.

Definition same_map (e : map_entry) (a : MapInfo) : bool :=
  let flags := if is_device (me_name e) then Z.lor (me_flags e) MAPS_FLAGS_DEVICE_MAP else me_flags e in
  (me_start e =? map_start a) && (me_end e =? map_end a) && (u16 flags =? map_flags a) && bool_decide (me_name e = map_name a).

Ltac step_maps := change (Z.to_nat 0) with 0%nat; change (Z.to_nat 1) with 1%nat; change (Z.to_nat 2) with 2%nat;
  change (Z.to_nat (1 - 0)) with 1%nat; change (Z.to_nat (1 - 1)) with 0%nat; cbn.

(** The loops, for one old map and one new map. *)
Lemma new_maps_one h n k a j new sv :
  h !! k = Some a -> h !! j = Some new ->
  new_maps_loop 1 1 1 0 2 (mkMaps h n [Some k; Some j] sv) =
    if (map_start new =? map_start a) && (map_end new =? map_end a) && (map_flags new =? map_flags a)
       && bool_decide (map_name new = map_name a) then Done ((1, 1), mkMaps (delete j h) n [Some k; None] sv)
    else if map_start new <? map_start a then Done ((0, 2), mkMaps h n [Some k; Some j] sv)
    else Done ((0, 1), mkMaps h n [None; Some j] (sv ++ [Some k])).
Proof.
  intros Hk Hj. unfold new_maps_loop, map_at, deref_map, bind, get. step_maps. rewrite Hj. step_maps.
  unfold old_maps_loop, map_at, deref_map, bind, get. step_maps. rewrite Hk. cbn.
  destruct (_ && _ && _ && _); [done|]. destruct (_ <? _); [done|]. done.
Qed.

(** [Reparse] of one map when the maps file has one line. The map stays when nothing changed;
    a new map that starts below it replaces it, and it is saved. But a different map that starts at
    the same address or above is lost: it is destroyed, and no map is left. *)
Theorem reparse_one_map sort s k a e
  (Hsort : sorts_maps sort) (Hmaps : maps_ s = [Some k]) (Hk : infos s !! k = Some a) (Hf : k < fresh s) :
  exists s', Reparse sort [e] true s = Done (true, s') /\
    (maps_ s', saved_maps_ s') =
      (if same_map e a then ([Some k], saved_maps_ s)
       else if me_start e <? map_start a then ([Some (fresh s)], saved_maps_ s ++ [Some k])
       else ([], saved_maps_ s ++ [Some k; None])) /\
    infos s' !! k = Some a /\
    (is_Some (infos s' !! fresh s) <-> same_map e a = false /\ me_start e < map_start a).
Proof.
  destruct s as [h n ms sv]. cbn in Hmaps, Hk, Hf. subst ms. unfold Reparse, Parse, parse_entries, parse_entry, emplace_map.
  unfold total_maps, gets, modify. unfold bind at 1 2 3 4 5 6 7, get at 1, ret. cbn.
  set (new := new_MapInfo _ _ _ _ _ _). assert (<[n := new]> h !! k = Some a) as Hk' by (rewrite lookup_insert_ne by lia; done).
  pose proof (lookup_insert_eq h n new) as Hn.
  change (Z.to_nat (Z.of_nat 2 - Z.of_nat 1)) with 1%nat. change (Z.of_nat 1) with 1. change (Z.of_nat 2) with 2.
  unfold bind at 1. rewrite (new_maps_one _ _ _ a _ new) by done. cbn [new map_start map_end map_flags map_name new_MapInfo].
  fold (same_map e a). destruct (same_map e a) eqn:Hsame; [|destruct (Z.ltb_spec (me_start e) (map_start a)) as [Hlt|Hlt]].
  all: unfold bind; step_maps; unfold save_map, map_at, modify, bind, get, put_maps, put_saved, put_infos;
    step_maps; change (u64 (2 - 1)) with 1; change (u64 (1 - 1)) with 0; step_maps.
  - rewrite (sort_one sort _ _ k Hsort) by done. eexists. split; [reflexivity|]. step_maps.
    split_and!; [done|rewrite lookup_delete_ne by lia; done|]. rewrite lookup_delete_eq. split; [intros [? ?]|intros [? _]]; done.
  - rewrite (sort_one sort _ _ n Hsort) by apply Permutation_swap. eexists. split; [reflexivity|]. step_maps.
    split_and!; [done|done|]. rewrite Hn. split; [done|eauto].
  - rewrite (sort_one sort _ _ n Hsort) by apply Permutation_swap. eexists. split; [reflexivity|]. step_maps.
    split_and!; [by rewrite <- app_assoc|rewrite lookup_delete_ne by lia; done|]. rewrite lookup_delete_eq. split; [intros [? ?]; done|lia].
Qed.

Lemma reparse_one_map_witness :
  exists s', Reparse sort_maps [mkEntry 0x5000 0x6000 5 0 []] true
      (mkMaps {[0 := new_MapInfo None 0x1000 0x2000 0 5 []]} 1 [Some 0] []) = Done (true, s') /\ maps_ s' = [].
Proof.
  destruct (reparse_one_map sort_maps (mkMaps {[0 := new_MapInfo None 0x1000 0x2000 0 5 []]} 1 [Some 0] []) 0
    (new_MapInfo None 0x1000 0x2000 0 5 []) (mkEntry 0x5000 0x6000 5 0 [])) as (s' & Hs & Hm & _).
  - apply sort_maps_sorts.
  - reflexivity.
  - reflexivity.
  - reflexivity.
  - exists s'. split; [exact Hs|]. vm_compute in Hm. by injection Hm.
Defined.
