(* ===== verification/MapsReparse.v ===== *)
(** [LocalUpdatableMaps::Reparse] for any number of maps: a maps file that did not change keeps the
    maps; and a file that goes on, behind some of the first old maps, with a map above the old ones that are left. *)
From Stdlib Require Import ZArith Lia Bool Strings.Byte.
From stdpp Require Import base numbers list gmap sorting.
From S2P Require Import Prelude Maps MapsFind.
#[local] Open Scope Z_scope.

(** The map of an entry *)
Definition entry_info (prev : option Z) (e : map_entry) : MapInfo :=
  new_MapInfo prev (me_start e) (me_end e) (me_pgoff e)
    (if is_device (me_name e) then Z.lor (me_flags e) MAPS_FLAGS_DEVICE_MAP else me_flags e) (me_name e).

Lemma same_map_info prev e a :
  ((map_start (entry_info prev e) =? map_start a) && (map_end (entry_info prev e) =? map_end a)
   && (map_flags (entry_info prev e) =? map_flags a) && bool_decide (map_name (entry_info prev e) = map_name a)) = same_map e a.
Proof. reflexivity. Qed.

(** The keys of [n] new maps *)
Definition new_keys (first : Z) (n : nat) : list Z := (fun i => first + Z.of_nat i) <$> seq 0 n.

Lemma new_keys_S first n : new_keys first (S n) = first :: new_keys (first + 1) n.
Proof.
  unfold new_keys. cbn [seq fmap list_fmap]. f_equal; [lia|]. rewrite <- fmap_S_seq, <- list_fmap_compose.
  apply list_fmap_ext. intros i x _. cbn. lia.
Qed.

Lemma new_keys_lookup first n i : (i < n)%nat -> new_keys first n !! i = Some (first + Z.of_nat i).
Proof. intros. unfold new_keys. rewrite list_lookup_fmap, lookup_seq_lt by done. done. Qed.

(** Two heaps with the same maps at the keys *)
Lemma holds_agree (h h' : gmap Z MapInfo) ks olds :
  Forall2 (fun k a => h !! k = Some a) ks olds -> (forall k, k ∈ ks -> h' !! k = h !! k) -> Forall2 (fun k a => h' !! k = Some a) ks olds.
Proof. intros Hks Heq. induction Hks; constructor; [by rewrite Heq by (by left)|]. apply IHHks. intros. apply Heq. by right. Qed.

(** ** Parsing *)

Lemma parse_entries_run l s :
  exists h, parse_entries l s =
      Done (tt, mkMaps h (fresh s + Z.of_nat (length l)) (maps_ s ++ (Some <$> new_keys (fresh s) (length l))) (saved_maps_ s)) /\
    (forall i e, l !! i = Some e -> exists prev, h !! (fresh s + Z.of_nat i) = Some (entry_info prev e)) /\
    (forall k, k < fresh s \/ fresh s + Z.of_nat (length l) <= k -> h !! k = infos s !! k).
Proof.
  revert s. induction l as [|e l IH]; intros s.
  { exists (infos s). cbn. rewrite Z.add_0_r, app_nil_r. split; [by destruct s|]. split; [done|]. done. }
  cbn [parse_entries]. unfold parse_entry, emplace_map. rewrite (bind_run _ _ tt s
    (mkMaps (<[fresh s := entry_info (last_map s) e]> (infos s)) (fresh s + 1) (maps_ s ++ [Some (fresh s)]) (saved_maps_ s))) by done.
  destruct (IH (mkMaps (<[fresh s := entry_info (last_map s) e]> (infos s)) (fresh s + 1) (maps_ s ++ [Some (fresh s)]) (saved_maps_ s)))
    as (h & -> & Hnew & Hold). cbn [fresh maps_ saved_maps_ infos] in *. exists h. split_and!.
  - cbn [length]. rewrite new_keys_S, fmap_cons, <- app_assoc. cbn [app].
    by replace (fresh s + 1 + Z.of_nat (length l)) with (fresh s + Z.of_nat (S (length l))) by lia.
  - intros [|i] x Hx; cbn in Hx.
    + injection Hx as <-. exists (last_map s). rewrite Z.add_0_r, Hold by lia. by rewrite lookup_insert_eq.
    + replace (fresh s + Z.of_nat (S i)) with (fresh s + 1 + Z.of_nat i) by lia. by apply Hnew.
  - intros k Hk. cbn [length] in Hk. rewrite Hold by lia. rewrite lookup_insert_ne; [done|lia].
Qed.

Lemma Forall2_same_keys j (h : gmap Z MapInfo) ks (l : list map_entry) :
  Forall2 (fun k e => exists prev, h !! k = Some (entry_info prev e)) ks l -> j ∉ ks ->
  Forall2 (fun k e => exists prev, delete j h !! k = Some (entry_info prev e)) ks l.
Proof.
  intros H Hj. induction H as [|k e ks l [p Hp] _ IH]; constructor.
  - exists p. rewrite lookup_delete_ne; [done|]. intros ->. apply Hj. by left.
  - apply IH. intros ?. apply Hj. by right.
Qed.

(** ** One step of the search *)

Lemma map_at_mid s l1 p l2 i : maps_ s = l1 ++ p :: l2 -> Z.to_nat i = length l1 -> map_at i s = Done (p, s).
Proof. intros Hm Hi. unfold map_at. rewrite bind_get, Hi, Hm, list_lookup_middle by done. done. Qed.

Lemma deref_some s k a : infos s !! k = Some a -> deref_map (Some k) s = Done (a, s).
Proof. intros Hk. unfold deref_map. rewrite bind_get. cbn. by rewrite Hk. Qed.

Lemma save_map_mid s l1 p l2 i : maps_ s = l1 ++ p :: l2 -> Z.to_nat i = length l1 ->
  save_map i s = Done (tt, put_saved (saved_maps_ s ++ [p]) (put_maps (l1 ++ None :: l2) s)).
Proof.
  intros Hm Hi. unfold save_map. rewrite (bind_run _ _ _ _ _ (map_at_mid s l1 p l2 i Hm Hi)). unfold modify.
  do 4 f_equal. by rewrite Hi, Hm, insert_app_r_alt, Nat.sub_diag by lia.
Qed.

Lemma reset_map_mid s l1 p l2 i : maps_ s = l1 ++ p :: l2 -> Z.to_nat i = length l1 ->
  reset_map i s = Done (tt, put_maps (l1 ++ None :: l2) (put_infos (destroy p (infos s)) s)).
Proof.
  intros Hm Hi. unfold reset_map. rewrite (bind_run _ _ _ _ _ (map_at_mid s l1 p l2 i Hm Hi)). unfold modify.
  do 4 f_equal. by rewrite Hi, Hm, insert_app_r_alt, Nat.sub_diag by lia.
Qed.

(** ** New maps above all old ones *)

(** The old maps [ks] are all saved, and the index from which the next new map searches is not moved. *)
Lemma old_maps_loop_above ks olds pre rest new_idx new s i total search :
  maps_ s = pre ++ (Some <$> ks) ++ rest -> i = Z.of_nat (length pre) -> Forall2 (fun k a => infos s !! k = Some a) ks olds ->
  (forall a, a ∈ olds -> map_start a <= map_start new /\
    ((map_start new =? map_start a) && (map_end new =? map_end a) && (map_flags new =? map_flags a)
     && bool_decide (map_name new = map_name a)) = false) ->
  old_maps_loop (length ks) new_idx new i search total s =
    Done ((search, Nat.iter (length ks) (fun t => u64 (t - 1)) total),
          put_saved (saved_maps_ s ++ (Some <$> ks)) (put_maps (pre ++ replicate (length ks) None ++ rest) s)).
Proof.
  revert ks olds pre s i total. induction ks as [|k ks IH]; intros olds pre s i total Hm -> Hk Hab.
  { cbn in *. rewrite app_nil_r, <- Hm. by destruct s. }
  apply Forall2_cons_inv_l in Hk as (a & olds' & Ha & Hk' & ->). destruct (Hab a ltac:(by left)) as [Hle Hne].
  cbn [length old_maps_loop fmap list_fmap app] in *.
  rewrite (bind_run _ _ _ _ _ (map_at_mid s pre (Some k) ((Some <$> ks) ++ rest) _ Hm (Nat2Z.id _))), (bind_run _ _ _ _ _ (deref_some s k a Ha)).
  rewrite Hne. destruct (Z.ltb_spec (map_start new) (map_start a)); [lia|].
  rewrite (bind_run _ _ _ _ _ (save_map_mid s pre (Some k) ((Some <$> ks) ++ rest) _ Hm (Nat2Z.id _))).
  rewrite (IH olds' (pre ++ [None])).
  - rewrite Nat.iter_succ_r. cbn [saved_maps_ put_saved put_maps fresh infos maps_]. rewrite <- !app_assoc. done.
  - cbn. by rewrite <- app_assoc.
  - rewrite length_app. simpl. lia.
  - exact Hk'.
  - intros a' Ha'. apply Hab. by right.
Qed.

(** [total_entries] after [n] decrements *)
Lemma iter_pred n t : 0 <= t < 2 ^ 64 -> Nat.iter n (fun t => u64 (t - 1)) t = u64 (t - Z.of_nat n).
Proof.
  intros Ht. induction n as [|n IH]; [by rewrite Z.sub_0_r, wrap_small|]. rewrite Nat.iter_succ, IH. unfold wrap.
  rewrite Zminus_mod_idemp_l. f_equal. lia.
Qed.

Lemma save_rest_run l pre rest s i total :
  maps_ s = pre ++ l ++ rest -> i = Z.of_nat (length pre) ->
  save_rest (length l) i total s =
    Done (Nat.iter (length l) (fun t => u64 (t - 1)) total,
          put_saved (saved_maps_ s ++ l) (put_maps (pre ++ replicate (length l) None ++ rest) s)).
Proof.
  revert pre s i total. induction l as [|p l IH]; intros pre s i total Hm ->.
  { cbn in *. rewrite app_nil_r, <- Hm. by destruct s. }
  cbn [length save_rest app] in *. rewrite (bind_run _ _ _ _ _ (save_map_mid s pre p (l ++ rest) _ Hm (Nat2Z.id _))).
  rewrite (IH (pre ++ [None])).
  - rewrite Nat.iter_succ_r. cbn [saved_maps_ put_saved put_maps fresh infos maps_]. rewrite <- !app_assoc. done.
  - cbn. by rewrite <- app_assoc.
  - rewrite length_app. simpl. lia.
Qed.

(** [Reparse] behind the search *)
Definition reparse_end (sort : gmap Z MapInfo -> list (option Z) -> list (option Z)) (last_map_idx search_map_idx total_entries : Z) : MS bool :=
  total_entries <- save_rest (Z.to_nat (last_map_idx - search_map_idx)) search_map_idx total_entries ;;
  modify (fun s => put_maps (sort (infos s) (maps_ s)) s) ;;
  resize_maps total_entries ;;
  ret true.

Lemma Reparse_parsed sort l s s1 n n1 :
  parse_entries l s = Done (tt, s1) -> total_maps s = n -> total_maps s1 = n1 ->
  Reparse sort l true s = bind (new_maps_loop (Z.to_nat (n1 - n)) n n 0 n1) (fun r => reparse_end sort n (fst r) (snd r)) s1.
Proof.
  intros Hp <- <-. unfold Reparse. rewrite (bind_run _ _ (total_maps s) s s) by done.
  rewrite (bind_run _ _ true s s1) by (unfold Parse; by rewrite (bind_run _ _ _ _ _ Hp)). cbn [negb].
  rewrite (bind_run _ _ (total_maps s1) s1 s1) by done. unfold reparse_end, bind.
  by destruct (new_maps_loop _ _ _ _ _ _) as [[[]]|].
Qed.

(** ** One new map *)

(** The next old map is the new one: the new one is destroyed, and the search goes on behind the old one. *)
Lemma new_maps_loop_hit m ks1 k ks2 j news e prev a s n total :
  infos s !! k = Some a -> infos s !! j = Some (entry_info prev e) -> same_map e a = true ->
  n = Z.of_nat (length ks1 + length (k :: ks2)) -> 1 <= total < 2 ^ 64 ->
  maps_ s = (Some <$> ks1 ++ k :: ks2) ++ replicate (length ks1) None ++ (Some <$> j :: news) ->
  let s1 := mkMaps (delete j (infos s)) (fresh s)
              ((Some <$> (ks1 ++ [k]) ++ ks2) ++ replicate (length (ks1 ++ [k])) None ++ (Some <$> news)) (saved_maps_ s) in
  let i := Z.of_nat (length (ks1 ++ [k])) in
  new_maps_loop (S m) (n + Z.of_nat (length ks1)) n (Z.of_nat (length ks1)) total s =
    if n <=? i then Done ((i, total - 1), s1) else new_maps_loop m (n + i) n i (total - 1) s1.
Proof.
  intros Hk He Ha Hn Htot Hm s1 i.
  assert (n = Z.of_nat (length ks1) + 1 + Z.of_nat (length ks2)) as En by (rewrite Hn; cbn [length]; lia). clear Hn.
  set (pre := (Some <$> ks1 ++ k :: ks2) ++ replicate (length ks1) None).
  assert (maps_ s = pre ++ Some j :: (Some <$> news)) as Hm1 by (rewrite Hm; unfold pre; by rewrite <- app_assoc).
  assert (length pre = Z.to_nat (n + Z.of_nat (length ks1))) as Hpre.
  { unfold pre. rewrite length_app, length_fmap, length_app, length_replicate. cbn [length]. lia. }
  cbn [new_maps_loop].
  rewrite (bind_run _ _ _ _ _ (map_at_mid s pre (Some j) _ _ Hm1 (eq_sym Hpre))), (bind_run _ _ _ _ _ (deref_some s j _ He)).
  destruct (Z.to_nat (n - Z.of_nat (length ks1))) as [|m'] eqn:Em; [lia|]. cbn [old_maps_loop].
  assert (map_at (Z.of_nat (length ks1)) s = Done (Some k, s)) as Hat.
  { apply (map_at_mid s (Some <$> ks1) _ ((Some <$> ks2) ++ replicate (length ks1) None ++ (Some <$> j :: news))); [|rewrite length_fmap; lia].
    rewrite Hm, fmap_app, <- app_assoc. done. }
  unfold bind at 1. rewrite (bind_run _ _ _ _ _ Hat), (bind_run _ _ _ _ _ (deref_some s k a Hk)), same_map_info, Ha.
  rewrite (bind_run _ _ _ _ _ (reset_map_mid s pre (Some j) _ _ Hm1 (eq_sym Hpre))). cbn [ret].
  rewrite wrap_small by (unfold in_u; lia).
  assert (put_maps (pre ++ None :: (Some <$> news)) (put_infos (destroy (Some j) (infos s)) s) = s1) as ->.
  { unfold s1, put_maps, put_infos, pre. cbn [infos fresh maps_ saved_maps_ destroy]. f_equal.
    rewrite length_app, Nat.add_1_r, replicate_S_end, <- !app_assoc. done. }
  assert (Z.of_nat (length ks1) + 1 = i) as -> by (unfold i; rewrite length_app; cbn [length]; lia).
  replace (n + Z.of_nat (length ks1) + 1) with (n + i) by (unfold i; rewrite length_app; cbn [length]; lia). by destruct (n <=? i).
Qed.

(** The new map is above the old ones that are left, and none of them: they are all saved. *)
Lemma new_maps_loop_above m ks1 ks2 olds j rest e prev s n total :
  Forall2 (fun k a => infos s !! k = Some a) ks2 olds -> infos s !! j = Some (entry_info prev e) ->
  (forall a, a ∈ olds -> map_start a <= me_start e /\ same_map e a = false) ->
  ks2 <> [] -> n = Z.of_nat (length ks1 + length ks2) -> Z.of_nat (length ks2) <= total < 2 ^ 64 ->
  maps_ s = (Some <$> ks1 ++ ks2) ++ replicate (length ks1) None ++ (Some <$> j :: rest) ->
  new_maps_loop (S m) (n + Z.of_nat (length ks1)) n (Z.of_nat (length ks1)) total s =
  new_maps_loop m (n + Z.of_nat (length ks1) + 1) n (Z.of_nat (length ks1)) (total - Z.of_nat (length ks2))
    (mkMaps (infos s) (fresh s) ((Some <$> ks1) ++ replicate (length ks2) None ++ replicate (length ks1) None ++ (Some <$> j :: rest))
       (saved_maps_ s ++ (Some <$> ks2))).
Proof.
  intros Hks He Hab Hne -> Htot Hm. set (n := Z.of_nat (length ks1 + length ks2)).
  assert (0 < Z.of_nat (length ks2)) as Hpos by (destruct ks2; [done|simpl; lia]).
  assert (length ((Some <$> ks1 ++ ks2) ++ replicate (length ks1) None) = Z.to_nat (n + Z.of_nat (length ks1))) as Hpre.
  { rewrite length_app, length_fmap, length_app, length_replicate. lia. }
  pose proof Hm as Hm1. rewrite app_assoc, fmap_cons in Hm1. cbn [new_maps_loop].
  rewrite (bind_run _ _ _ _ _ (map_at_mid s _ (Some j) _ _ Hm1 (eq_sym Hpre))), (bind_run _ _ _ _ _ (deref_some s j _ He)).
  replace (Z.to_nat (n - Z.of_nat (length ks1))) with (length ks2) by lia. rewrite fmap_app, <- app_assoc in Hm.
  rewrite (bind_run _ _ _ _ _ (old_maps_loop_above ks2 olds (Some <$> ks1) _ (n + Z.of_nat (length ks1)) (entry_info prev e) s _ total _ Hm
    ltac:(by rewrite length_fmap) Hks Hab)).
  rewrite iter_pred, wrap_small by (unfold in_u; lia). destruct (Z.leb_spec n (Z.of_nat (length ks1))); [lia|]. done.
Qed.

(** The search for another new map starts with the null pointer of the first saved one. *)
Lemma new_maps_loop_null m pre j rest x s i n search total :
  maps_ s = pre ++ Some j :: rest -> Z.to_nat i = length pre -> infos s !! j = Some x ->
  maps_ s !! Z.to_nat search = Some None -> 0 <= search < n ->
  new_maps_loop (S m) i n search total s = Fault (Undef UbNull).
Proof.
  intros Hm Hi Hx Hnull Hs. cbn [new_maps_loop].
  rewrite (bind_run _ _ _ _ _ (map_at_mid s pre (Some j) rest i Hm Hi)), (bind_run _ _ _ _ _ (deref_some s _ _ Hx)).
  destruct (Z.to_nat (n - search)) as [|c] eqn:Ec; [lia|]. cbn [old_maps_loop].
  assert (map_at search s = Done (None, s)) as Hat by (unfold map_at; rewrite bind_get, Hnull; done).
  unfold bind. by rewrite Hat.
Qed.

(** ** New maps that are the first old ones *)

(** Each of the new maps is the old one at the same place, and is destroyed; old maps are left. *)
Lemma new_maps_loop_prefix n ks3 rest news : forall ks1 ks2 olds l s total,
  Forall2 (fun k a => infos s !! k = Some a) ks2 olds ->
  Forall2 (fun k e => exists prev, infos s !! k = Some (entry_info prev e)) news l ->
  Forall2 (fun e a => same_map e a = true) l olds -> NoDup news -> (forall k, k ∈ ks2 -> k ∉ news) ->
  n = Z.of_nat (length ks1 + length ks2 + length ks3) -> ks3 <> [] -> Z.of_nat (length ks2) <= total < 2 ^ 64 ->
  maps_ s = (Some <$> ks1 ++ ks2 ++ ks3) ++ replicate (length ks1) None ++ (Some <$> news ++ rest) ->
  exists h, (forall m, new_maps_loop (length news + m) (n + Z.of_nat (length ks1)) n (Z.of_nat (length ks1)) total s =
      new_maps_loop m (n + Z.of_nat (length (ks1 ++ ks2))) n (Z.of_nat (length (ks1 ++ ks2))) (total - Z.of_nat (length ks2))
        (mkMaps h (fresh s) ((Some <$> ks1 ++ ks2 ++ ks3) ++ replicate (length (ks1 ++ ks2)) None ++ (Some <$> rest)) (saved_maps_ s))) /\
    (forall k, h !! k = if decide (k ∈ news) then None else infos s !! k).
Proof.
  induction news as [|j news IH]; intros ks1 ks2 olds l s total Hks Hnews Hsame Hnd Hdis Hn Hne Htot Hm.
  { apply Forall2_nil_inv_l in Hnews as ->. apply Forall2_nil_inv_l in Hsame as ->. apply Forall2_nil_inv_r in Hks as ->.
    exists (infos s). rewrite app_nil_r. cbn [length app Nat.add] in *. rewrite Z.sub_0_r, <- Hm. split; [by destruct s|].
    intros k. destruct (decide (k ∈ [])) as [H|]; [by apply not_elem_of_nil in H|done]. }
  apply Forall2_cons_inv_l in Hnews as (e & l' & [prev He] & Hnews & ->). apply Forall2_cons_inv_l in Hsame as (a & olds' & Ha & Hsame & ->).
  apply Forall2_cons_inv_r in Hks as (k & ks2' & Hk & Hks & ->). apply NoDup_cons in Hnd as [Hj Hnd]. cbn [length app] in *.
  set (s1 := mkMaps (delete j (infos s)) (fresh s)
               ((Some <$> (ks1 ++ [k]) ++ ks2' ++ ks3) ++ replicate (length (ks1 ++ [k])) None ++ (Some <$> news ++ rest)) (saved_maps_ s)).
  destruct (IH (ks1 ++ [k]) ks2' olds' l' s1 (total - 1)) as (h & Hrun & Hh).
  - apply (holds_agree (infos s)); [done|]. intros k' Hk'. cbn. rewrite lookup_delete_ne; [done|]. intros ->.
    apply (Hdis k'); [by right|by left].
  - by apply Forall2_same_keys.
  - exact Hsame.
  - exact Hnd.
  - intros k' Hk' Hin. apply (Hdis k'); by right.
  - rewrite Hn, length_app. cbn [length]. lia.
  - exact Hne.
  - lia.
  - done.
  - exists h. split.
    + intros m. cbn [Nat.add].
      rewrite (new_maps_loop_hit _ ks1 k (ks2' ++ ks3) j (news ++ rest) e prev a s n total); [|done..|rewrite Hn; cbn [length]; rewrite length_app; lia|lia|exact Hm].
      assert ((n <=? Z.of_nat (length (ks1 ++ [k]))) = false) as ->.
      { apply Z.leb_gt. rewrite Hn, length_app. cbn [length]. destruct ks3; [done|cbn [length]; lia]. }
      fold s1. rewrite Hrun, <- !app_assoc. cbn [app]. replace (total - 1 - Z.of_nat (length ks2')) with (total - Z.of_nat (S (length ks2'))) by lia. done.
    + intros k'. rewrite Hh. cbn [s1 infos]. destruct (decide (k' = j)) as [->|Hnj].
      * rewrite lookup_delete_eq, (decide_True _ _ (list_elem_of_here j news)). by destruct (decide _).
      * rewrite lookup_delete_ne by done. destruct (decide (k' ∈ news)) as [Hin|Hin].
        -- by rewrite (decide_True _ _ (list_elem_of_further _ _ _ Hin)).
        -- rewrite decide_False; [done|]. by rewrite not_elem_of_cons.
Qed.

(** All of the maps are found again. *)
Lemma new_maps_loop_same news ks olds l s n total :
  Forall2 (fun k a => infos s !! k = Some a) ks olds ->
  Forall2 (fun k e => exists prev, infos s !! k = Some (entry_info prev e)) news l ->
  Forall2 (fun e a => same_map e a = true) l olds -> NoDup news -> (forall k, k ∈ ks -> k ∉ news) ->
  n = Z.of_nat (length ks) -> Z.of_nat (length ks) <= total < 2 ^ 64 ->
  maps_ s = (Some <$> ks) ++ (Some <$> news) ->
  exists h, new_maps_loop (length news) n n 0 total s =
      Done ((n, total - Z.of_nat (length ks)), mkMaps h (fresh s) ((Some <$> ks) ++ replicate (length ks) None) (saved_maps_ s)) /\
    (forall k, h !! k = if decide (k ∈ news) then None else infos s !! k).
Proof.
  intros Hks Hnews Hsame Hnd Hdis Hn Htot Hm. destruct ks as [|k ks _] using rev_ind.
  { apply Forall2_nil_inv_l in Hks as ->. apply Forall2_nil_inv_r in Hsame as ->. apply Forall2_nil_inv_r in Hnews as ->.
    exists (infos s). rewrite Hn. cbn in *. rewrite Z.sub_0_r, <- Hm. split; [by destruct s|].
    intros k. destruct (decide (k ∈ [])) as [H|]; [by apply not_elem_of_nil in H|done]. }
  apply Forall2_app_inv_l in Hks as (olds' & olda & Hks & (a & la & Hk & Hla & ->)%Forall2_cons_inv_l & ->). apply Forall2_nil_inv_l in Hla as ->.
  apply Forall2_app_inv_r in Hsame as (l' & lb & Hsame & (e & le & He & Hle & ->)%Forall2_cons_inv_r & ->). apply Forall2_nil_inv_r in Hle as ->.
  apply Forall2_app_inv_r in Hnews as (news' & nb & Hnews & (j & lj & [prev Hj] & Hlj & ->)%Forall2_cons_inv_r & ->). apply Forall2_nil_inv_r in Hlj as ->.
  apply NoDup_app in Hnd as (Hnd & Hnj & _). rewrite length_app in Hn, Htot. cbn [length] in Hn, Htot.
  destruct (new_maps_loop_prefix n [k] [j] news' [] ks olds' l' s total) as (h & Hrun & Hh); try done.
  - intros k' Hk' Hin. apply (Hdis k'); apply elem_of_app; by left.
  - cbn [length]. lia.
  - specialize (Hrun 1%nat). cbn [app length] in Hrun. change (Z.of_nat 0) with 0 in Hrun. rewrite Z.add_0_r in Hrun. rewrite (length_app news' [j]). cbn [length]. rewrite Hrun.
    assert (forall x, x ∉ news' -> h !! x = infos s !! x) as Hout by (intros x Hx; by rewrite Hh, decide_False).
    erewrite (new_maps_loop_hit 0 ks k [] j []); cbn [infos fresh maps_ saved_maps_].
    + assert ((n <=? Z.of_nat (length (ks ++ [k]))) = true) as -> by (apply Z.leb_le; rewrite length_app; cbn [length]; lia).
      exists (delete j h). rewrite !app_nil_r. split.
      * do 3 f_equal; [f_equal|]; rewrite length_app; cbn [length]; lia.
      * intros x. destruct (decide (x = j)) as [->|Hx]; [rewrite lookup_delete_eq, decide_True; [done|apply elem_of_app; right; by left]|].
        rewrite lookup_delete_ne, Hh by done. destruct (decide (x ∈ news')) as [Hin|Hin].
        -- rewrite decide_True; [done|]. apply elem_of_app. by left.
        -- rewrite decide_False; [done|]. rewrite not_elem_of_app, list_elem_of_singleton. done.
    + rewrite Hout; [done|]. intros Hin. apply (Hdis k); apply elem_of_app; [right; by left|by left].
    + rewrite Hout; [done|]. intros Hin. apply (Hnj j Hin). by left.
    + done.
    + cbn [length]. lia.
    + lia.
    + done.
Qed.

Lemma new_keys_NoDup first n : NoDup (new_keys first n).
Proof. apply NoDup_fmap_2; [intros x y; lia|apply NoDup_seq]. Qed.

Lemma elem_of_new_keys k first n : k ∈ new_keys first n <-> first <= k < first + Z.of_nat n.
Proof.
  unfold new_keys. rewrite list_elem_of_fmap. split.
  - intros (i & -> & [_ Hi]%elem_of_seq). lia.
  - intros Hk. exists (Z.to_nat (k - first)). split; [lia|]. apply elem_of_seq. lia.
Qed.

Lemma new_keys_app first a b : new_keys first (a + b) = new_keys first a ++ new_keys (first + Z.of_nat a) b.
Proof.
  unfold new_keys. rewrite seq_app, fmap_app, Nat.add_0_l. f_equal.
  replace (seq a b) with (Nat.add a <$> seq 0 b) by (by rewrite fmap_add_seq, Nat.add_0_r). rewrite <- list_fmap_compose.
  apply list_fmap_ext. intros i x _. cbn. lia.
Qed.

(** Null pointers behind maps in the order of their starts are what the sort makes of them. *)
Lemma sort_maps_perm sort h ks olds n l :
  sorts_maps sort -> Forall2 (fun k a => h !! k = Some a) ks olds -> StronglySorted Z.lt (map_start <$> olds) ->
  l ≡ₚ (Some <$> ks) ++ replicate n None -> sort h l = (Some <$> ks) ++ replicate n None.
Proof.
  intros Hsort Hks Hs Hl. destruct (Hsort h l) as [Hp Hst]. pose proof (Permutation_trans Hp Hl) as Hp'. clear Hp Hl. rename Hp' into Hp.
  assert (StronglySorted (map_le h) ((Some <$> ks) ++ replicate n None)) as Hst2.
  { clear Hp Hst. revert Hs. induction Hks as [|k a ks olds Hk Hks IH]; cbn; intros Hs.
    - induction n as [|n IH]; cbn; [constructor|]. constructor; [done|]. by apply Forall_replicate.
    - apply StronglySorted_inv in Hs as [Hs Hlt]. constructor; [by apply IH|]. apply Forall_app. split; [|by apply Forall_replicate].
      apply Forall_fmap. clear -Hk Hks Hlt. induction Hks as [|k' a' ks olds Hk' Hks IH]; [done|]. apply Forall_cons in Hlt as [Ha Hlt].
      constructor; [|by apply IH]. cbn. unfold start_of. rewrite Hk, Hk'. cbn. lia. }
  apply (StronglySorted_unique_strong (map_le h)); [|done..].
  intros p q Hin1 Hin2 H1 H2. rewrite Hp in Hin1. destruct p as [k|], q as [k'|]; [|done..].
  assert (forall k, Some k ∈ (Some <$> ks) ++ replicate n None -> k ∈ ks) as Hin.
  { intros x [Hx|Hx]%elem_of_app; [|apply elem_of_replicate in Hx as [? _]; done]. by apply list_elem_of_fmap in Hx as (? & [= ->] & ?). }
  apply Hin in Hin1, Hin2. apply list_elem_of_lookup in Hin1 as [i Hi], Hin2 as [j Hj].
  destruct (Forall2_lookup_l _ _ _ _ _ Hks Hi) as (a & Ha & Hka), (Forall2_lookup_l _ _ _ _ _ Hks Hj) as (b & Hb & Hkb).
  unfold map_le, start_of in H1, H2. rewrite Hka, Hkb in H1, H2. cbn in H1, H2.
  destruct (Nat.lt_trichotomy i j) as [Hij|[->|Hij]]; [|congruence|]; exfalso.
  - assert (map_start a < map_start b); [|lia].
    apply (strongly_sorted_lookup _ _ i j _ _ Hs); [by rewrite list_lookup_fmap, Ha|by rewrite list_lookup_fmap, Hb|done].
  - assert (map_start b < map_start a); [|lia].
    apply (strongly_sorted_lookup _ _ j i _ _ Hs); [by rewrite list_lookup_fmap, Hb|by rewrite list_lookup_fmap, Ha|done].
Qed.

Lemma destroy_none h n : fold_right destroy h (replicate n None) = h.
Proof. by induction n. Qed.

(** C25. [Reparse] when the maps file did not change: every map stays where it is, none is saved or
    destroyed, and the maps that were parsed anew are gone. *)
Theorem reparse_unchanged sort s ks olds l
  (Hsort : sorts_maps sort) (Hmaps : maps_ s = Some <$> ks) (Hks : Forall2 (fun k a => infos s !! k = Some a) ks olds)
  (Hfresh : forall k, fresh s <= k -> infos s !! k = None) (Hsorted : StronglySorted Z.lt (map_start <$> olds))
  (Hsz : Z.of_nat (length ks) < 2 ^ 60) (Hsame : Forall2 (fun e a => same_map e a = true) l olds) :
  exists s', Reparse sort l true s = Done (true, s') /\
    maps_ s' = maps_ s /\ saved_maps_ s' = saved_maps_ s /\ infos s' = infos s.
Proof.
  pose proof (Forall2_length _ _ _ Hks) as Hl1. pose proof (Forall2_length _ _ _ Hsame) as Hl2.
  destruct (parse_entries_run l s) as (h & Hp & Hnew & Hold). rewrite Hmaps in Hp.
  assert (total_maps s = Z.of_nat (length ks)) as Htot by (unfold total_maps; by rewrite Hmaps, length_fmap).
  rewrite (Reparse_parsed _ _ _ _ (Z.of_nat (length ks)) (Z.of_nat (length ks) + Z.of_nat (length ks)) Hp Htot).
  2:{ unfold total_maps. cbn [maps_]. rewrite length_app, !length_fmap. unfold new_keys. rewrite length_fmap, length_seq. lia. }
  assert (forall k, k ∈ ks -> k < fresh s) as Hlt.
  { intros k [i Hi]%list_elem_of_lookup. destruct (Forall2_lookup_l _ _ _ _ _ Hks Hi) as (a & _ & Ha).
    destruct (Z.lt_ge_cases k (fresh s)) as [|Hge]; [done|]. by rewrite Hfresh in Ha. }
  set (news := new_keys (fresh s) (length l)). set (s1 := mkMaps h _ _ _) in *.
  assert (length news = length ks) as Hln by (unfold news, new_keys; rewrite length_fmap, length_seq; lia).
  destruct (new_maps_loop_same news ks olds l s1 (Z.of_nat (length ks)) (Z.of_nat (length ks) + Z.of_nat (length ks)))
    as (h' & Hrun & Hh').
  - apply (holds_agree (infos s)); [done|]. intros k Hk. apply Hold. left. by apply Hlt.
  - apply Forall2_same_length_lookup. split; [unfold news, new_keys; by rewrite length_fmap, length_seq|]. intros i k e Hk He.
    unfold news in Hk. rewrite new_keys_lookup in Hk by (by eapply lookup_lt_Some). injection Hk as <-. by apply Hnew.
  - done.
  - apply new_keys_NoDup.
  - intros k Hk Hin. apply elem_of_new_keys in Hin. specialize (Hlt k Hk). lia.
  - done.
  - lia.
  - done.
  - rewrite Hln in Hrun. replace (Z.to_nat _) with (length ks) by lia.
    rewrite (bind_run _ _ _ _ _ Hrun). cbn [fst snd]. unfold reparse_end. rewrite Z.sub_diag. cbn [Z.to_nat save_rest].
    rewrite (bind_run _ _ (Z.of_nat (length ks) + Z.of_nat (length ks) - Z.of_nat (length ks)) _ _) by reflexivity.
    rewrite bind_modify. cbn [infos maps_ put_maps fresh saved_maps_ app].
    assert (h' = infos s) as ->.
    { apply map_eq. intros k. rewrite Hh'. destruct (decide (k ∈ news)) as [Hin|Hin].
      - apply elem_of_new_keys in Hin. by rewrite Hfresh by lia.
      - cbn [s1 infos]. apply Hold. unfold news in Hin. rewrite elem_of_new_keys in Hin. lia. }
    rewrite (sort_maps_perm sort (infos s) ks olds (length ks)) by done. unfold resize_maps, vector_max_size.
    replace (Z.of_nat (length ks) + Z.of_nat (length ks) - Z.of_nat (length ks)) with (Z.of_nat (length ks)) by lia.
    destruct (Z.ltb_spec (2 ^ 61 - 1) (Z.of_nat (length ks))); [lia|]. rewrite bind_modify. eexists. split; [reflexivity|].
    cbn [maps_ saved_maps_ infos put_maps put_infos]. rewrite Nat2Z.id, Hmaps. split_and!; [|done|].
    + rewrite <- app_assoc. by rewrite take_app_length' by (by rewrite length_fmap).
    + rewrite drop_app_length' by (by rewrite length_fmap). apply destroy_none.
Qed.

(** ** A maps file with a new map above the old ones that are left *)

Lemma destroy_maps_none h ks n k : k ∈ ks -> fold_right destroy h ((Some <$> ks) ++ replicate n None) !! k = None.
Proof.
  rewrite foldr_app, destroy_none. induction ks as [|x ks IH]; intros Hk; [by apply not_elem_of_nil in Hk|]. cbn [fmap list_fmap foldr destroy].
  destruct (decide (k = x)) as [->|]; [by rewrite lookup_delete_eq|]. rewrite lookup_delete_ne by done. apply IH.
  by apply elem_of_cons in Hk as [|].
Qed.

(** The state after the first new maps were found, the next one was compared with the old ones that are left, and [l] follows in
    the file: [h] has the new maps and the old ones. *)
Section Above.
Context (s : Maps) (ks1 ks2 : list Z) (olds1 olds2 : list MapInfo) (l1 : list map_entry) (e : map_entry).
Context (Hmaps : maps_ s = Some <$> ks1 ++ ks2).
Context (Hks1 : Forall2 (fun k a => infos s !! k = Some a) ks1 olds1) (Hks2 : Forall2 (fun k a => infos s !! k = Some a) ks2 olds2).
Context (Hfresh : forall k, fresh s <= k -> infos s !! k = None) (Hne : ks2 <> []) (Hsz : Z.of_nat (length (ks1 ++ ks2)) < 2 ^ 60).
Context (Hsame : Forall2 (fun e a => same_map e a = true) l1 olds1).
Context (Habove : forall a, a ∈ olds2 -> map_start a <= me_start e /\ same_map e a = false).

Definition above_state (h : gmap Z MapInfo) (f : Z) (news : list Z) : Maps :=
  mkMaps h f ((Some <$> ks1) ++ replicate (length ks2) None ++ replicate (length ks1) None ++ (Some <$> news)) (saved_maps_ s ++ (Some <$> ks2)).

Lemma old_keys_below k a : infos s !! k = Some a -> k < fresh s.
Proof using Hfresh. intros Hk. destruct (Z.lt_ge_cases k (fresh s)) as [|Hge]; [done|]. by rewrite Hfresh in Hk. Qed.

Lemma search_above l :
  Z.of_nat (length l) < 2 ^ 60 ->
  let n := Z.of_nat (length (ks1 ++ ks2)) in
  let j := Z.of_nat (length ks1) in
  let news := new_keys (fresh s + j) (S (length l)) in
  exists h s1, parse_entries (l1 ++ e :: l) s = Done (tt, s1) /\ total_maps s1 = n + j + 1 + Z.of_nat (length l) /\
    (exists prev, h !! (fresh s + j) = Some (entry_info prev e)) /\
    (forall i x, l !! i = Some x -> exists prev, h !! (fresh s + j + 1 + Z.of_nat i) = Some (entry_info prev x)) /\
    (forall k, k < fresh s -> h !! k = infos s !! k) /\
    forall m, new_maps_loop (length ks1 + S m) n n 0 (n + j + 1 + Z.of_nat (length l)) s1 =
      new_maps_loop m (n + j + 1) n j (j + 1 + Z.of_nat (length l)) (above_state h (fresh s1) news).
Proof using Hmaps Hks1 Hks2 Hfresh Hne Hsz Hsame Habove.
  intros Hl n j news. pose proof (Forall2_length _ _ _ Hks1) as Hl1. pose proof (Forall2_length _ _ _ Hsame) as Hl2. rewrite length_app in Hsz.
  destruct (parse_entries_run (l1 ++ e :: l) s) as (h & Hp & Hnew & Hold). rewrite Hmaps in Hp.
  assert (new_keys (fresh s) (length (l1 ++ e :: l)) = new_keys (fresh s) (length ks1) ++ news) as Hkeys.
  { unfold news, j. rewrite length_app. cbn [length]. replace (length l1) with (length ks1) by lia. apply new_keys_app. }
  set (s1 := mkMaps h _ _ _) in Hp.
  assert (forall k a, infos s !! k = Some a -> infos s1 !! k = Some a) as Hkeep.
  { intros k a Hk. cbn [s1 infos]. rewrite Hold; [done|]. left. by apply (old_keys_below k a). }
  destruct (new_maps_loop_prefix n ks2 news (new_keys (fresh s) (length ks1)) [] ks1 olds1 l1 s1 (n + j + 1 + Z.of_nat (length l)))
    as (h' & Hrun & Hh').
  { eapply Forall2_impl; [exact Hks1|]. exact Hkeep. }
  { apply Forall2_same_length_lookup. unfold new_keys at 1. rewrite length_fmap, length_seq. split; [lia|]. intros i k x Hk Hx.
    rewrite new_keys_lookup in Hk by (apply lookup_lt_Some in Hx; lia). injection Hk as <-. apply Hnew. by apply lookup_app_l_Some. }
  { done. }
  { apply new_keys_NoDup. }
  { intros k Hk Hin. apply elem_of_new_keys in Hin. apply list_elem_of_lookup in Hk as [i Hi].
    destruct (Forall2_lookup_l _ _ _ _ _ Hks1 Hi) as (a & _ & Ha). pose proof (old_keys_below k a Ha). lia. }
  { unfold n. rewrite length_app. cbn [length]. lia. }
  { done. }
  { unfold n, j. rewrite length_app. lia. }
  { cbn [s1 maps_ length replicate app]. by rewrite Hkeys. }
  exists h', s1. split; [exact Hp|]. split.
  { unfold total_maps, n, j. cbn [s1 maps_]. rewrite !length_app, !length_fmap. unfold new_keys. rewrite length_fmap, length_seq, !length_app. cbn [length]. lia. }
  assert (forall k, k < fresh s \/ fresh s + j <= k -> h' !! k = h !! k) as Hh.
  { intros k Hk. rewrite Hh', decide_False; [done|]. intros Hin%elem_of_new_keys. unfold j in Hk. lia. }
  assert (forall k, k < fresh s -> h' !! k = infos s !! k) as Hh2 by (intros k Hk; rewrite Hh by (by left); apply Hold; by left).
  assert (forall i x, (e :: l) !! i = Some x -> exists prev, h' !! (fresh s + j + Z.of_nat i) = Some (entry_info prev x)) as Hnews.
  { intros i x Hx. rewrite Hh by (right; lia). destruct (Hnew (length l1 + i)%nat x) as [prev Hprev].
    - rewrite lookup_app_r by lia. by replace (length l1 + i - length l1)%nat with i by lia.
    - exists prev. rewrite <- Hprev. f_equal. unfold j. lia. }
  destruct (Hnews 0%nat e eq_refl) as [prev He]. rewrite Z.add_0_r in He.
  split; [by exists prev|]. split.
  { intros i x Hx. replace (fresh s + j + 1 + Z.of_nat i) with (fresh s + j + Z.of_nat (S i)) by lia. by apply Hnews. }
  split; [exact Hh2|]. intros m. specialize (Hrun (S m)).
  replace (length (new_keys (fresh s) (length ks1))) with (length ks1) in Hrun by (unfold new_keys; by rewrite length_fmap, length_seq).
  cbn [app length] in Hrun. change (Z.of_nat 0) with 0 in Hrun. rewrite Z.add_0_r in Hrun. rewrite Hrun. clear Hrun.
  rewrite (new_maps_loop_above m ks1 ks2 olds2 (fresh s + j) (new_keys (fresh s + j + 1) (length l)) e prev).
  - cbn [infos fresh saved_maps_ s1]. unfold above_state, news. rewrite new_keys_S. f_equal. unfold n, j. rewrite length_app. lia.
  - eapply Forall2_impl; [exact Hks2|]. intros k a Hk. cbn [infos]. rewrite Hh2; [exact Hk|by apply (old_keys_below k a)].
  - exact He.
  - exact Habove.
  - exact Hne.
  - unfold n. rewrite length_app. lia.
  - unfold n, j. rewrite length_app. lia.
  - cbn [maps_]. unfold news. by rewrite new_keys_S.
Qed.
End Above.

(** The end of [Reparse] in that state: the null pointers are saved and counted again. *)
Lemma reparse_end_above sort s ks1 ks2 h f newk :
  let n := length (ks1 ++ ks2) in
  let j := length ks1 in
  Z.of_nat n < 2 ^ 60 ->
  reparse_end sort (Z.of_nat n) (Z.of_nat j) (Z.of_nat j + 1) (above_state s ks1 ks2 h f [newk]) =
    bind (resize_maps (u64 (2 * Z.of_nat j + 1 - Z.of_nat n))) (fun _ => ret true)
      (mkMaps h f (sort h ((Some <$> ks1) ++ replicate (length ks2) None ++ replicate j None ++ [Some newk]))
         (saved_maps_ s ++ (Some <$> ks2) ++ replicate (length ks2) None)).
Proof.
  intros n j Hn. assert (n = j + length ks2)%nat as En by (unfold n, j; by rewrite length_app). unfold reparse_end.
  replace (Z.to_nat (Z.of_nat n - Z.of_nat j)) with (length (replicate (length ks2) (@None Z))) by (rewrite length_replicate; lia).
  rewrite (bind_run _ _ _ _ _ (save_rest_run (replicate (length ks2) None) (Some <$> ks1) (replicate j None ++ [Some newk]) (above_state s ks1 ks2 h f [newk])
    (Z.of_nat j) _ eq_refl ltac:(by rewrite length_fmap))).
  rewrite bind_modify, iter_pred, length_replicate by lia. unfold above_state. cbn [infos fresh maps_ saved_maps_ put_maps put_saved].
  rewrite <- app_assoc. do 3 f_equal. lia.
Qed.

(** [resize] to fewer maps than the first ones destroys the others. *)
Lemma resize_first h f ks1 newk n sv c :
  (c <= length ks1)%nat -> Z.of_nat (length ks1) < 2 ^ 60 ->
  exists s', bind (resize_maps (Z.of_nat c)) (fun _ => ret true) (mkMaps h f ((Some <$> ks1 ++ [newk]) ++ replicate n None) sv) = Done (true, s') /\
    maps_ s' = Some <$> take c ks1 /\ (forall k, k ∈ drop c ks1 \/ k = newk -> infos s' !! k = None).
Proof.
  intros Hc Hlt. unfold resize_maps, vector_max_size. destruct (Z.ltb_spec (2 ^ 61 - 1) (Z.of_nat c)); [lia|]. rewrite bind_modify.
  eexists. split; [reflexivity|]. cbn [maps_ infos put_maps put_infos]. rewrite Nat2Z.id. split.
  - rewrite <- app_assoc, take_app_le by (by rewrite length_fmap, length_app; simpl; lia). rewrite <- fmap_take, take_app_le by done. done.
  - intros k Hk. rewrite drop_app_le by (by rewrite length_fmap, length_app; simpl; lia). rewrite <- fmap_drop, drop_app_le by done.
    apply destroy_maps_none. rewrite elem_of_app, list_elem_of_singleton. tauto.
Qed.

(** A start above those of the maps that are left is above all. *)
Lemma sorted_above olds1 olds2 e prev :
  StronglySorted Z.lt (map_start <$> olds1 ++ olds2) -> olds2 <> [] -> (forall a, a ∈ olds2 -> map_start a <= me_start e) ->
  StronglySorted Z.lt ((map_start <$> olds1) ++ (map_start <$> [entry_info prev e])).
Proof.
  rewrite fmap_app. intros Hs Hne Hab. apply StronglySorted_app in Hs as (Hlt & Hs1 & _). apply StronglySorted_app. split_and!; [|done|by repeat constructor].
  destruct olds2 as [|a olds2]; [done|]. intros x y Hx Hy. cbn in Hy. apply list_elem_of_singleton in Hy as ->.
  specialize (Hlt x (map_start a) Hx ltac:(by left)). specialize (Hab a ltac:(by left)). cbn. lia.
Qed.

(** C40. [Reparse] when the maps file first has [j] of the [n] old maps, all those before one, and then a map that starts at or above all old
    ones that are left, at least one, and is none of them. The search for it saves those and leaves null pointers, but does not move the index of the
    search behind them. When another entry follows, the next search dereferences one of the null pointers. When none follows, the
    null pointers are saved and counted a second time: with [2 * j + 1 < n] the number of maps wraps around and [resize] aborts; otherwise the result is
    [true], but of the [j + 1] maps of the file only the first [2 * j + 1 - n] are kept, the others and the new one are destroyed. A file that has
    all of the old maps first is not one of these: there the search has ended before the new map. *)
Theorem reparse_new_on_top sort s ks1 ks2 olds1 olds2 l e
  (Hsort : sorts_maps sort) (Hmaps : maps_ s = Some <$> ks1 ++ ks2)
  (Hks1 : Forall2 (fun k a => infos s !! k = Some a) ks1 olds1) (Hks2 : Forall2 (fun k a => infos s !! k = Some a) ks2 olds2)
  (Hfresh : forall k, fresh s <= k -> infos s !! k = None) (Hsorted : StronglySorted Z.lt (map_start <$> olds1 ++ olds2))
  (Hne : ks2 <> []) (Hsz : Z.of_nat (length (ks1 ++ ks2)) < 2 ^ 60)
  (Hsame : Forall2 (fun e a => same_map e a = true) l olds1)
  (Habove : forall a, a ∈ olds2 -> map_start a <= me_start e /\ same_map e a = false) :
  let n := length (ks1 ++ ks2) in
  let j := length ks1 in
  (forall e2 rest, Z.of_nat (length rest) < 2 ^ 59 -> Reparse sort (l ++ e :: e2 :: rest) true s = Fault (Undef UbNull)) /\
  ((2 * j + 1 < n)%nat -> Reparse sort (l ++ [e]) true s = Fault Aborted) /\
  ((n <= 2 * j + 1)%nat -> exists s', Reparse sort (l ++ [e]) true s = Done (true, s') /\
     maps_ s' = Some <$> take (2 * j + 1 - n) ks1 /\
     (forall k, k ∈ drop (2 * j + 1 - n) ks1 \/ k = fresh s + Z.of_nat j -> infos s' !! k = None)).
Proof.
  intros n j. assert (total_maps s = Z.of_nat n) as Htot by (unfold total_maps; by rewrite Hmaps, length_fmap).
  assert ((j < n)%nat) as Hjn by (unfold n, j; rewrite length_app; destruct ks2; [done|cbn [length]; lia]).
  pose proof (search_above s ks1 ks2 olds1 olds2 l e Hmaps Hks1 Hks2 Hfresh Hne Hsz Hsame Habove) as Hsearch. fold n j in Hsearch. split.
  - intros e2 rest Hr. destruct (Hsearch (e2 :: rest)) as (h & s1 & Hp & Hs1 & _ & Hnext & _ & Hrun); [cbn [length]; lia|].
    rewrite (Reparse_parsed _ _ _ _ _ _ Hp Htot Hs1). unfold bind at 1. cbn [length] in *.
    replace (Z.to_nat _) with (length ks1 + S (S (length rest)))%nat by lia. rewrite Hrun. destruct (Hnext 0%nat e2 eq_refl) as [prev He2].
    rewrite Z.add_0_r in He2.
    rewrite (new_maps_loop_null _ ((Some <$> ks1) ++ replicate (length ks2) None ++ replicate j None ++ [Some (fresh s + Z.of_nat j)])
      (fresh s + Z.of_nat j + 1) (Some <$> new_keys (fresh s + Z.of_nat j + 1 + 1) (length rest)) (entry_info prev e2)); [done|..].
    + unfold above_state. cbn [maps_]. rewrite !new_keys_S, <- !app_assoc. done.
    + rewrite !length_app, length_fmap, !length_replicate. cbn [length]. unfold n, j in *. rewrite length_app in *. lia.
    + exact He2.
    + unfold above_state. cbn [maps_]. rewrite Nat2Z.id, lookup_app_r by (by rewrite length_fmap). rewrite length_fmap, Nat.sub_diag.
      by destruct ks2.
    + lia.
  - destruct (Hsearch []) as (h & s1 & Hp & Hs1 & [prev He] & _ & Hh & Hrun); [cbn [length]; lia|]. cbn [length] in *. specialize (Hrun 0%nat).
    change (Z.of_nat 0) with 0 in *. rewrite Z.add_0_r in *. assert (Reparse sort (l ++ [e]) true s = reparse_end sort (Z.of_nat n) (Z.of_nat j) (Z.of_nat j + 1)
      (above_state s ks1 ks2 h (fresh s1) [fresh s + Z.of_nat j])) as ->.
    { rewrite (Reparse_parsed _ _ _ _ _ _ Hp Htot Hs1). replace (Z.to_nat _) with (j + 1)%nat by lia. unfold bind at 1. rewrite Hrun, new_keys_S, Z.add_0_r. done. }
    unfold n, j. rewrite reparse_end_above by done. fold n j. split.
    + intros Hlt. unfold resize_maps.
      replace (u64 _) with (2 ^ 64 + (2 * Z.of_nat j + 1 - Z.of_nat n)).
      2:{ unfold wrap. rewrite <- (Z.mod_add _ 1) by lia. rewrite Z.mod_small; lia. }
      unfold vector_max_size. destruct (Z.ltb_spec (2 ^ 61 - 1) (2 ^ 64 + (2 * Z.of_nat j + 1 - Z.of_nat n))); [done|lia].
    + intros Hle. rewrite wrap_small by (unfold in_u; lia). replace (2 * Z.of_nat j + 1 - Z.of_nat n) with (Z.of_nat (2 * j + 1 - n)) by lia.
      rewrite (sort_maps_perm sort h (ks1 ++ [fresh s + Z.of_nat j]) (olds1 ++ [entry_info prev e]) n).
      * apply resize_first; clear -Hle Hsz Hjn; rewrite length_app in Hsz; lia.
      * exact Hsort.
      * apply Forall2_app; [|by repeat constructor]. eapply Forall2_impl; [exact Hks1|]. intros k a Hk. cbn beta.
        rewrite Hh; [exact Hk|by apply (old_keys_below s Hfresh k a)].
      * rewrite fmap_app. apply (sorted_above _ olds2); [done| |intros a Ha; by apply Habove]. intros ->. by apply Forall2_nil_inv_r in Hks2.
      * rewrite fmap_app, <- app_assoc. apply Permutation_app_head. rewrite app_assoc, <- replicate_add, Permutation_app_comm.
        replace (length ks2 + j)%nat with n by (unfold n, j; rewrite length_app; lia). done.
Qed.

(** ** Two maps *)

Definition two_entries : list map_entry := [mkEntry 0x1000 0x2000 5 0 [x61]; mkEntry 0x3000 0x4000 1 0 []].
Definition two_infos : list MapInfo := [entry_info None (mkEntry 0x1000 0x2000 5 0 [x61]); entry_info (Some 0) (mkEntry 0x3000 0x4000 1 0 [])].
Definition two_state : Maps := mkMaps (<[0 := entry_info None (mkEntry 0x1000 0x2000 5 0 [x61])]>
  {[1 := entry_info (Some 0) (mkEntry 0x3000 0x4000 1 0 [])]}) 2 [Some 0; Some 1] [].

Lemma two_infos_hold : Forall2 (fun k a => infos two_state !! k = Some a) [0; 1] two_infos.
Proof. by repeat constructor. Qed.

Lemma reparse_unchanged_witness :
  exists s', Reparse sort_maps two_entries true two_state = Done (true, s') /\ maps_ s' = [Some 0; Some 1] /\ saved_maps_ s' = [].
Proof.
  destruct (reparse_unchanged sort_maps two_state [0; 1] two_infos two_entries) as (s' & Hs & Hm & Hsv & _).
  - apply sort_maps_sorts.
  - reflexivity.
  - apply two_infos_hold.
  - intros k Hk. cbn in Hk. unfold two_state. cbn [infos]. rewrite lookup_insert_ne by lia. by rewrite lookup_singleton_ne by lia.
  - by repeat constructor.
  - done.
  - by repeat constructor.
  - exists s'. by split_and!.
Defined.

(** The second map is replaced by one above it, behind the first one or alone; or it is replaced by two. *)
Lemma reparse_new_on_top_witness :
  let first := mkEntry 0x1000 0x2000 5 0 [x61] in
  let top := mkEntry 0x5000 0x6000 5 0 [] in
  let higher := mkEntry 0x7000 0x8000 5 0 [] in
  Reparse sort_maps [first; top; higher] true two_state = Fault (Undef UbNull) /\
  Reparse sort_maps [top] true two_state = Fault Aborted /\
  exists s', Reparse sort_maps [first; top] true two_state = Done (true, s') /\ maps_ s' = [Some 0] /\ infos s' !! 3 = None.
Proof.
  intros first top higher.
  assert (forall k, 2 <= k -> infos two_state !! k = None) as Hfresh.
  { intros k Hk. unfold two_state. cbn [infos]. rewrite lookup_insert_ne by lia. by rewrite lookup_singleton_ne by lia. }
  assert (StronglySorted Z.lt (map_start <$> two_infos)) as Hsorted by (by repeat constructor).
  destruct (reparse_new_on_top sort_maps two_state [0] [1] [entry_info None first] [entry_info (Some 0) (mkEntry 0x3000 0x4000 1 0 [])] [first] top)
    as (H1 & _ & H3); [apply sort_maps_sorts|reflexivity|by repeat constructor|by repeat constructor|exact Hfresh|exact Hsorted|done|done|
      by repeat constructor|intros a Ha; apply list_elem_of_singleton in Ha as ->; split; [cbn; lia|reflexivity]|].
  destruct (reparse_new_on_top sort_maps two_state [] [0; 1] [] two_infos [] top) as (_ & H2 & _);
    [apply sort_maps_sorts|reflexivity|constructor|apply two_infos_hold|exact Hfresh|exact Hsorted|done|done|constructor|
      intros a Ha; repeat (apply elem_of_cons in Ha as [->|Ha]; [by split; [cbn; lia|]|]); by apply not_elem_of_nil in Ha|].
  split; [by apply (H1 higher [])|]. split; [apply H2; cbn; lia|]. destruct H3 as (s' & Hs & Hm & Hd); [cbn; lia|].
  exists s'. split; [exact Hs|]. split; [exact Hm|]. apply Hd. right. reflexivity.
Defined.
