(* ===== verification/Elf.v ===== *)
(** [Elf.cpp], [Elf.h]: an ELF object: the choice of its interface, its validity, its load bias, and
    the requests that it passes on.

    The global cache of objects is in [MapInfo], which is its only client. *)
From Stdlib Require Import ZArith Lia Bool Strings.Byte.
From stdpp Require Import base numbers list gmap.
From S2P Require Import Prelude Memory DwarfStructs Regs ElfTypes Symbols ElfInterface ElfInterfaceArm RegsArch.
#[local] Open Scope Z_scope.

(** * What the objects of the library depend on *)

(** The XZ decoder of [.gnu_debugdata], which belongs to the LZMA library. *)
Record unpacker := mkUnpacker {
  xz_state : Type;
  xz_new : xz_state;
  xz_code : xz_state -> list byte -> Z -> xz_state * list byte * Z * bool * bool;
  xz_finished : xz_state -> bool
}.

(** The bound of the loops over a memory, the order of an unordered map of locations, [std::sort] of
    symbols, the value of storage without an initializer, and the decoder. *)
Record params := mkParams {
  p_fuel : nat;
  p_order : gmap Z DwarfLocation -> list (Z * DwarfLocation);
  p_sort : list Info -> list Info;
  p_uninit : Z;
  p_xz : unpacker
}.

(** * The interfaces *)

(** [ElfInterface32] and [ElfInterface64], and [ElfInterfaceArm], which is derived from the first. *)
Inductive any_interface : Type :=
| Interface (A : addr_type) (e : ElfInterface)
| InterfaceArm (e : ElfInterfaceArm).

Definition interface_addr (i : any_interface) : addr_type := match i with Interface A _ => A | InterfaceArm _ => U32 end.
Definition interface_base (i : any_interface) : ElfInterface :=
  match i with Interface _ e => e | InterfaceArm e => arm_base e end.
Definition put_interface_base (b : ElfInterface) (i : any_interface) : any_interface :=
  match i with Interface A _ => Interface A b | InterfaceArm e => InterfaceArm (put_arm_base b e) end.

Abbreviation AI := (M any_interface).

Definition on_ei {B} (m : addr_type -> EI B) : AI B := fun i => zoom interface_base put_interface_base (m (interface_addr i)) i.

Section Interfaces.
Context (P : params).

Definition interface_Init (load_bias : Z) : AI (option Z) := fun i =>
  match i with
  | Interface A e =>
      match ReadAllHeaders A (fun e => e) (fun b _ => b) (fun _ _ _ => ret tt) load_bias e with
      | Done (r, e) => Done (r, Interface A e)
      | Fault f => Fault f
      end
  | InterfaceArm e =>
      match ElfInterfaceArm.Init load_bias e with
      | Done (r, e) => Done (r, InterfaceArm e)
      | Fault f => Fault f
      end
  end.

Definition interface_InitHeaders (load_bias : Z) : AI unit := on_ei (fun A => InitHeaders A (p_uninit P) load_bias).
Definition interface_GetSoname : AI (list byte) := on_ei (fun A => GetSoname A (p_fuel P)).
Definition interface_IsValidPc (pc : Z) : AI bool := on_ei (fun A => IsValidPc A (p_fuel P) pc).

Definition interface_GetFunctionName (addr : Z) : AI (option (list byte * Z)) := fun i =>
  match i with
  | Interface A e =>
      match ElfInterface.GetFunctionName A (p_sort P) (p_fuel P) addr e with
      | Done (r, e) => Done (r, Interface A e)
      | Fault f => Fault f
      end
  | InterfaceArm e =>
      match ElfInterfaceArm.GetFunctionName (p_sort P) (p_fuel P) addr e with
      | Done (r, e) => Done (r, InterfaceArm e)
      | Fault f => Fault f
      end
  end.

Definition interface_GetGlobalVariable (name : list byte) (i : any_interface) : outcome (option Z) :=
  GetGlobalVariable (interface_addr i) (p_fuel P) name (interface_base i).

Definition interface_GetBuildID (i : any_interface) : outcome (list byte) := ReadBuildID (p_fuel P) (interface_base i).

(** The virtual [Step], with the interface of the debug data if it is set. *)
Section Step.
Context {G : Type} (gnu : option (gnu_interface G)).

Definition interface_Step (pc : Z) (regs : Regs) (process_memory : Memory) (finished : bool)
    : M (any_interface * G) (bool * Regs * bool) := fun p =>
  match fst p with
  | Interface A e =>
      match ElfInterface.Step A (p_fuel P) (p_order P) gnu pc regs process_memory finished (e, snd p) with
      | Done (r, (e, g)) => Done (r, (Interface A e, g))
      | Fault f => Fault f
      end
  | InterfaceArm e =>
      match ElfInterfaceArm.Step (p_fuel P) (p_order P) gnu pc regs process_memory finished (e, snd p) with
      | Done (r, (e, g)) => Done (r, (InterfaceArm e, g))
      | Fault f => Fault f
      end
  end.
End Step.

(** The interface of the debug data has none of its own. *)
Definition gnu_of_interface : gnu_interface any_interface :=
  mkGnu any_interface
    (fun pc regs process_memory finished i =>
       match interface_Step (G := unit) None pc regs process_memory finished (i, tt) with
       | Done (r, (i, _)) => Done (r, i)
       | Fault f => Fault f
       end)
    (fun i => ei_error (interface_base i)).

End Interfaces.

(** * The class *)

(** [gnu_set_] tells whether the interface has a pointer to [gnu_debugdata_interface_]. The types of
    the class and of the machine and the architecture have no initializer. *)
Record Elf := mkElfObject {
  valid_ : bool;
  load_bias_ : Z;
  interface_ : option any_interface;
  elf_memory : option Memory;
  machine_type_ : Z;
  class_type_ : Z;
  arch_ : ArchEnum;
  gnu_debugdata_memory_ : option MemoryBuffer.t;
  gnu_debugdata_interface_ : option any_interface;
  gnu_set_ : bool
}.

Definition new_Elf (P : params) (memory : option Memory) : Elf :=
  mkElfObject false 0 None memory (p_uninit P) (p_uninit P) ARCH_UNKNOWN None None false.

Definition put_valid (v : bool) (e : Elf) : Elf :=
  mkElfObject v (load_bias_ e) (interface_ e) (elf_memory e) (machine_type_ e) (class_type_ e) (arch_ e)
    (gnu_debugdata_memory_ e) (gnu_debugdata_interface_ e) (gnu_set_ e).
Definition put_elf_load_bias (v : Z) (e : Elf) : Elf :=
  mkElfObject (valid_ e) v (interface_ e) (elf_memory e) (machine_type_ e) (class_type_ e) (arch_ e)
    (gnu_debugdata_memory_ e) (gnu_debugdata_interface_ e) (gnu_set_ e).
Definition put_interface (v : option any_interface) (e : Elf) : Elf :=
  mkElfObject (valid_ e) (load_bias_ e) v (elf_memory e) (machine_type_ e) (class_type_ e) (arch_ e)
    (gnu_debugdata_memory_ e) (gnu_debugdata_interface_ e) (gnu_set_ e).
Definition put_machine (machine class : Z) (arch : ArchEnum) (e : Elf) : Elf :=
  mkElfObject (valid_ e) (load_bias_ e) (interface_ e) (elf_memory e) machine class arch
    (gnu_debugdata_memory_ e) (gnu_debugdata_interface_ e) (gnu_set_ e).
Definition put_gnu (m : option MemoryBuffer.t) (i : option any_interface) (e : Elf) : Elf :=
  mkElfObject (valid_ e) (load_bias_ e) (interface_ e) (elf_memory e) (machine_type_ e) (class_type_ e) (arch_ e)
    m i (gnu_set_ e).
Definition put_gnu_set (v : bool) (e : Elf) : Elf :=
  mkElfObject (valid_ e) (load_bias_ e) (interface_ e) (elf_memory e) (machine_type_ e) (class_type_ e) (arch_ e)
    (gnu_debugdata_memory_ e) (gnu_debugdata_interface_ e) v.

Abbreviation ME := (M Elf).

(** [interface_->...] and [gnu_debugdata_interface_->...] *)
Definition on_pointee {B} (ptr : Elf -> option any_interface) (put_ptr : option any_interface -> Elf -> Elf) (m : AI B) : ME B := fun e =>
  match ptr e with
  | None => Fault (Undef UbNull)
  | Some i =>
      match m i with
      | Done (r, i) => Done (r, put_ptr (Some i) e)
      | Fault f => Fault f
      end
  end.

Definition on_iface {B} (m : AI B) : ME B := on_pointee interface_ put_interface m.
Definition on_gnu_iface {B} (m : AI B) : ME B :=
  on_pointee gnu_debugdata_interface_ (fun i e => put_gnu (gnu_debugdata_memory_ e) i e) m.

(** * Static functions on a memory *)

Section Methods.
Context (P : params).

Definition IsValidElf (memory : option Memory) : bool :=
  match memory with
  | None => false
  | Some m => match ReadFully m 0 SELFMAG with Some e_ident => bool_decide (e_ident = ELFMAG) | None => false end
  end.

Definition read_class (m : Memory) : option Z := le_val <$> ReadFully m EI_CLASS 1.

(** [None] is [return false]; otherwise [*size], which stays 0 when the header cannot be read. *)
Definition GetInfo (memory : option Memory) : outcome (option Z) :=
  match memory with
  | None => Done None
  | Some m =>
      if negb (IsValidElf memory) then Done None
      else
        match read_class m with
        | None => Done None
        | Some class_type =>
            if class_type =? ELFCLASS32 then
              match GetMaxSize U32 m with Done size => Done (Some (default 0 size)) | Fault f => Fault f end
            else if class_type =? ELFCLASS64 then
              match GetMaxSize U64 m with Done size => Done (Some (default 0 size)) | Fault f => Fault f end
            else Done None
        end
  end.

Definition static_GetLoadBias (memory : option Memory) : Z :=
  match memory with
  | None => 0
  | Some m =>
      if negb (IsValidElf memory) then 0
      else
        match read_class m with
        | None => 0
        | Some class_type =>
            if class_type =? ELFCLASS32 then ElfInterface.GetLoadBias U32 m
            else if class_type =? ELFCLASS64 then ElfInterface.GetLoadBias U64 m
            else 0
        end
  end.

Definition static_GetBuildID (memory : option Memory) : outcome (list byte) :=
  match memory with
  | None => Done []
  | Some m =>
      if negb (IsValidElf memory) then Done []
      else
        match read_class m with
        | None => Done []
        | Some class_type =>
            if class_type =? ELFCLASS32 then ReadBuildIDFromMemory U32 m (p_fuel P)
            else if class_type =? ELFCLASS64 then ReadBuildIDFromMemory U64 m (p_fuel P)
            else Done []
        end
  end.

(** * Operations *)

Definition EM_386 : Z := 3.
Definition EM_MIPS : Z := 8.
Definition EM_ARM : Z := 40.
Definition EM_X86_64 : Z := 62.
Definition EM_AARCH64 : Z := 183.

(** [None] is [nullptr]. The members for the class, the machine and the architecture are those of the
    object, also when [memory] is that of its debug data. *)
Definition CreateInterfaceFromMemory (memory : option Memory) : ME (option any_interface) :=
  match memory with
  | None => ret None
  | Some m =>
      if negb (IsValidElf memory) then ret None
      else
        match read_class m with
        | None => ret None
        | Some class_type =>
            modify (fun e => put_machine (machine_type_ e) class_type (arch_ e) e) ;;
            let machine := le_val <$> ReadFully m (EI_NIDENT + 2) 2 in
            let set machine arch := modify (fun e => put_machine machine (class_type_ e) (default (arch_ e) arch) e) in
            if class_type =? ELFCLASS32 then
              match machine with
              | None => ret None
              | Some e_machine =>
                  if e_machine =? EM_ARM then set e_machine (Some ARCH_ARM) ;; ret (Some (InterfaceArm (new_ElfInterfaceArm m)))
                  else if e_machine =? EM_386 then set e_machine (Some ARCH_X86) ;; ret (Some (Interface U32 (new_ElfInterface m)))
                  else if e_machine =? EM_MIPS then set e_machine (Some ARCH_MIPS) ;; ret (Some (Interface U32 (new_ElfInterface m)))
                  else set e_machine None ;; ret None
              end
            else if class_type =? ELFCLASS64 then
              match machine with
              | None => ret None
              | Some e_machine =>
                  if e_machine =? EM_AARCH64 then set e_machine (Some ARCH_ARM64) ;; ret (Some (Interface U64 (new_ElfInterface m)))
                  else if e_machine =? EM_X86_64 then set e_machine (Some ARCH_X86_64) ;; ret (Some (Interface U64 (new_ElfInterface m)))
                  else if e_machine =? EM_MIPS then set e_machine (Some ARCH_MIPS64) ;; ret (Some (Interface U64 (new_ElfInterface m)))
                  else set e_machine None ;; ret None
              end
            else ret None
        end
  end.

(** The load bias of the debug data has no initializer. *)
Definition InitGnuDebugdata : ME unit :=
  e <- get ;;
  if negb (valid_ e) then ret tt
  else
    i <- some_or (Undef UbNull) (interface_ e) ;;
    if gnu_debugdata_offset_ (interface_base i) =? 0 then ret tt
    else
      buffer <- on_iface (on_ei (fun _ =>
                  CreateGnuDebugdataMemory (xz_new (p_xz P)) (xz_code (p_xz P)) (xz_finished (p_xz P)) (p_fuel P))) ;;
      modify (fun e => put_gnu buffer (gnu_debugdata_interface_ e) e) ;;
      gnu <- CreateInterfaceFromMemory (MemoryBuffer.memory <$> buffer) ;;
      modify (put_gnu buffer gnu) ;;
      match gnu with
      | None => ret tt
      | Some _ =>
          ok <- on_gnu_iface (interface_Init (p_uninit P)) ;;
          match ok with
          | Some load_bias => on_gnu_iface (interface_InitHeaders P load_bias) ;; modify (put_gnu_set true)
          | None => modify (put_gnu None None)
          end
      end.

Definition Init : ME bool :=
  modify (put_elf_load_bias 0) ;;
  e <- get ;;
  match elf_memory e with
  | None => ret false
  | Some _ =>
      i <- CreateInterfaceFromMemory (elf_memory e) ;;
      modify (fun e => put_gnu_set false (put_interface i e)) ;;
      match i with
      | None => ret false
      | Some _ =>
          ok <- on_iface (interface_Init 0) ;;
          match ok with
          | Some load_bias =>
              modify (fun e => put_valid true (put_elf_load_bias load_bias e)) ;;
              on_iface (interface_InitHeaders P load_bias) ;;
              InitGnuDebugdata ;;
              ret true
          | None => modify (fun e => put_interface None (put_valid false e)) ;; ret false
          end
      end
  end.

Definition Invalidate (e : Elf) : Elf := put_valid false (put_gnu_set false (put_interface None e)).

Definition GetSoname : ME (list byte) :=
  e <- get ;; if negb (valid_ e) then ret [] else on_iface (interface_GetSoname P).

Definition GetRelPc (pc map_start elf_offset : Z) (e : Elf) : Z := u64 (pc - map_start + load_bias_ e + elf_offset).

Definition GetFunctionName (addr : Z) : ME (option (list byte * Z)) :=
  e <- get ;;
  if negb (valid_ e) then ret None
  else
    r <- on_iface (interface_GetFunctionName P addr) ;;
    match r with
    | Some _ => ret r
    | None =>
        match gnu_debugdata_interface_ e with
        | None => ret None
        | Some _ => on_gnu_iface (interface_GetFunctionName P addr)
        end
    end.

(** The address without the load bias, in the file when it is in the dynamic section. *)
Definition adjust_global (load_bias : Z) (i : ElfInterface) (a : Z) : option Z :=
  if a <? load_bias then None
  else
    let a := a - load_bias in
    let dynamic_end := u64 (dynamic_vaddr_ i + dynamic_size_ i) in
    Some (if (dynamic_vaddr_ i <=? a) && (a <? dynamic_end) then
            if dynamic_offset_ i <? dynamic_vaddr_ i then u64 (a - (dynamic_vaddr_ i - dynamic_offset_ i))
            else u64 (a + (dynamic_offset_ i - dynamic_vaddr_ i))
          else a).

Definition elf_GetGlobalVariable (name : list byte) : ME (option Z) :=
  e <- get ;;
  if negb (valid_ e) then ret None
  else
    i <- some_or (Undef UbNull) (interface_ e) ;;
    r <- lift (interface_GetGlobalVariable P name i) ;;
    r <- match r, gnu_debugdata_interface_ e with
         | None, Some g => lift (interface_GetGlobalVariable P name g)
         | _, _ => ret r
         end ;;
    ret (r ≫= adjust_global (load_bias_ e) (interface_base i)).

Definition elf_GetBuildID : ME (list byte) :=
  e <- get ;;
  if negb (valid_ e) then ret []
  else i <- some_or (Undef UbNull) (interface_ e) ;; lift (interface_GetBuildID P i).

(** [*data] after the call *)
Definition GetLastError (data : ErrorData) : ME ErrorData :=
  e <- get ;;
  if valid_ e then i <- some_or (Undef UbNull) (interface_ e) ;; ret (ei_error (interface_base i)) else ret data.

Definition GetLastErrorCode : ME ErrorCode :=
  e <- get ;;
  if valid_ e then i <- some_or (Undef UbNull) (interface_ e) ;; ret (err_code (ei_error (interface_base i)))
  else ret ERROR_INVALID_ELF.

Definition GetLastErrorAddress : ME Z :=
  e <- get ;;
  if valid_ e then i <- some_or (Undef UbNull) (interface_ e) ;; ret (err_address (ei_error (interface_base i)))
  else ret 0.

(** The memory of an object without one reads nothing. *)
Definition memory_or_empty (m : option Memory) : Memory := default (mkMemory (fun _ _ => [])) m.

(** The registers are of the architecture [arch]. *)
Definition elf_StepIfSignalHandler (arch : ArchEnum) (rel_pc : Z) (regs : Regs) (process_memory : Memory) : ME (bool * Regs) :=
  e <- get ;;
  if negb (valid_ e) then ret (false, regs)
  else lift (RegsArch.StepIfSignalHandler arch rel_pc (memory_or_empty (elf_memory e)) process_memory regs).

Definition Step (rel_pc : Z) (regs : Regs) (process_memory : Memory) (finished : bool) : ME (bool * Regs * bool) := fun e =>
  if negb (valid_ e) then Done ((false, regs, finished), e)
  else
    match interface_ e with
    | None => Fault (Undef UbNull)
    | Some i =>
        if gnu_set_ e then
          match gnu_debugdata_interface_ e with
          | None => Fault (Undef UbNull)
          | Some g =>
              match interface_Step P (Some (gnu_of_interface P)) rel_pc regs process_memory finished (i, g) with
              | Done (r, (i, g)) => Done (r, put_gnu (gnu_debugdata_memory_ e) (Some g) (put_interface (Some i) e))
              | Fault f => Fault f
              end
          end
        else
          match interface_Step P (G := unit) None rel_pc regs process_memory finished (i, tt) with
          | Done (r, (i, _)) => Done (r, put_interface (Some i) e)
          | Fault f => Fault f
          end
    end.

Definition elf_IsValidPc (pc : Z) : ME bool :=
  e <- get ;;
  if negb (valid_ e) || (pc <? load_bias_ e) then ret false
  else
    ok <- on_iface (interface_IsValidPc P pc) ;;
    if (ok : bool) then ret true
    else
      match gnu_debugdata_interface_ e with
      | None => ret false
      | Some _ => on_gnu_iface (interface_IsValidPc P pc)
      end.
End Methods.
