(* ===== verification/MapInfo.v ===== *)
(** [MapInfo.cpp] and the cache of [Elf.cpp]: the ELF object of a map, where its bytes come from, its
    load bias and its build identifier.

    The state is the one that maps share: the maps of a process, the ELF objects, and the global
    cache. An ELF object is named by its key in [elfs]; a method of a [MapInfo] takes the key of the
    map. The mutexes order the threads that use a map; the model is that of one thread. *)
From Stdlib Require Import ZArith Lia Bool Strings.Byte Strings.String DecimalString.
From stdpp Require Import base numbers list gmap.
From S2P Require Import Prelude Memory Regs ElfTypes Symbols ElfInterface RegsArch Maps Elf.
#[local] Open Scope Z_scope.

(** * State *)

(** [cache_] maps a name, or a name and an offset, to an object, and tells whether [elf_offset] is
    the offset of the map. *)
Record World := mkWorld {
  w_maps : Maps;
  elfs : gmap Z Elf;
  next_elf : Z;
  cache_enabled_ : bool;
  cache_ : gmap (list byte) (Z * bool)
}.

Definition put_w_maps (m : Maps) (w : World) : World := mkWorld m (elfs w) (next_elf w) (cache_enabled_ w) (cache_ w).
Definition put_elfs (h : gmap Z Elf) (w : World) : World := mkWorld (w_maps w) h (next_elf w) (cache_enabled_ w) (cache_ w).
Definition put_cache (c : gmap (list byte) (Z * bool)) (w : World) : World :=
  mkWorld (w_maps w) (elfs w) (next_elf w) (cache_enabled_ w) c.

Abbreviation MW := (M World).

Definition on_maps {B} (m : MS B) : MW B := zoom w_maps put_w_maps m.

(** [info->...] and the assignment to a member *)
Definition map_info (k : Z) : MW MapInfo := on_maps (deref_map (Some k)).
Definition update_info (k : Z) (f : MapInfo -> MapInfo) : MW unit :=
  info <- map_info k ;;
  modify (fun w => put_w_maps (put_infos (<[k := f info]> (infos (w_maps w))) (w_maps w)) w).

Definition put_map_elf (e : Z) (i : MapInfo) : MapInfo :=
  mkMapInfo (map_start i) (map_end i) (map_offset i) (map_flags i) (map_name i) (Some e) (elf_offset i)
    (elf_start_offset i) (prev_map i) (map_load_bias i) (build_id i) (memory_backed_elf i).
Definition put_elf_offset (v : Z) (i : MapInfo) : MapInfo :=
  mkMapInfo (map_start i) (map_end i) (map_offset i) (map_flags i) (map_name i) (map_elf i) v
    (elf_start_offset i) (prev_map i) (map_load_bias i) (build_id i) (memory_backed_elf i).
Definition put_elf_start_offset (v : Z) (i : MapInfo) : MapInfo :=
  mkMapInfo (map_start i) (map_end i) (map_offset i) (map_flags i) (map_name i) (map_elf i) (elf_offset i)
    v (prev_map i) (map_load_bias i) (build_id i) (memory_backed_elf i).
Definition put_build_id (v : list byte) (i : MapInfo) : MapInfo :=
  mkMapInfo (map_start i) (map_end i) (map_offset i) (map_flags i) (map_name i) (map_elf i) (elf_offset i)
    (elf_start_offset i) (prev_map i) (map_load_bias i) (Some v) (memory_backed_elf i).
Definition put_memory_backed (v : bool) (i : MapInfo) : MapInfo :=
  mkMapInfo (map_start i) (map_end i) (map_offset i) (map_flags i) (map_name i) (map_elf i) (elf_offset i)
    (elf_start_offset i) (prev_map i) (map_load_bias i) (build_id i) v.

(** [prev_map->...], when [prev_map] is not null *)
Definition prev_info (i : MapInfo) : MW (option MapInfo) :=
  match prev_map i with
  | None => ret None
  | Some p => prev <- map_info p ;; ret (Some prev)
  end.

(** A method of the object [e] *)
Definition on_elf {B} (e : Z) (m : ME B) : MW B := fun w =>
  match elfs w !! e with
  | None => Fault (Undef UbNull)
  | Some obj =>
      match m obj with
      | Done (r, obj) => Done (r, put_elfs (<[e := obj]> (elfs w)) w)
      | Fault f => Fault f
      end
  end.

(** [new Elf(memory)] *)
Definition alloc_elf (obj : Elf) : MW Z := fun w =>
  Done (next_elf w, mkWorld (w_maps w) (<[next_elf w := obj]> (elfs w)) (next_elf w + 1) (cache_enabled_ w) (cache_ w)).

(** * The cache *)

Definition SetCachingEnabled (enable : bool) (w : World) : World :=
  if negb (cache_enabled_ w) && enable then mkWorld (w_maps w) (elfs w) (next_elf w) true ∅
  else if cache_enabled_ w && negb enable then mkWorld (w_maps w) (elfs w) (next_elf w) false ∅
  else w.

(** [std::to_string] of a [uint64_t] *)
Definition to_string (n : Z) : list byte := list_byte_of_string (NilZero.string_of_uint (N.to_uint (Z.to_N n))).

(** [info->name + ':' + std::to_string(info->offset)] *)
Definition offset_name (i : MapInfo) : list byte := map_name i ++ list_byte_of_string ":" ++ to_string (map_offset i).

Definition CacheAdd (k : Z) : MW unit :=
  info <- map_info k ;;
  e <- some_or (Undef UbNull) (map_elf info) ;;
  (if (map_offset info =? 0) || negb (elf_offset info =? 0) then
     modify (fun w => put_cache (<[map_name info := (e, true)]> (cache_ w)) w)
   else ret tt) ;;
  if negb (map_offset info =? 0) then
    modify (fun w => put_cache (<[offset_name info := (e, negb (elf_offset info =? 0))]> (cache_ w)) w)
  else ret tt.

Definition CacheAfterCreateMemory (k : Z) : MW bool :=
  info <- map_info k ;;
  if bool_decide (map_name info = []) || (map_offset info =? 0) || (elf_offset info =? 0) then ret false
  else
    w <- get ;;
    match cache_ w !! map_name info with
    | None => ret false
    | Some (e, _) =>
        update_info k (put_map_elf e) ;;
        modify (fun w => put_cache (<[offset_name info := (e, true)]> (cache_ w)) w) ;;
        ret true
    end.

Definition CacheGet (k : Z) : MW bool :=
  info <- map_info k ;;
  w <- get ;;
  match cache_ w !! (if negb (map_offset info =? 0) then offset_name info else map_name info) with
  | None => ret false
  | Some (e, set_offset) =>
      update_info k (fun i => let i := put_map_elf e i in if (set_offset : bool) then put_elf_offset (map_offset i) i else i) ;;
      ret true
  end.

(** * The memory of a map *)

Definition PROT_READ : Z := 1.

(** The operating system: the size of a page, the contents of a file ([None] when it cannot be
    opened), and whether [mmap] succeeds for the offset and the size. *)
Record system := mkSystem {
  pagesize : Z;
  file_contents : list byte -> option (list byte);
  mmap_ok : list byte -> Z -> Z -> bool
}.

Section Objects.
Context (os : system) (P : params).

(** [memory->Init(name, offset, size)] *)
Definition file_Init (name : list byte) (offset size : Z) (f : MemoryFileAtOffset.t) : bool * MemoryFileAtOffset.t :=
  MemoryFileAtOffset.Init (pagesize os) (file_contents os name) (mmap_ok os name offset size) f offset size.

Definition file_memory (f : MemoryFileAtOffset.t) : option Memory := Some (MemoryFileAtOffset.memory f).

Definition InitFileMemoryFromPreviousReadOnlyMap (k : Z) (f : MemoryFileAtOffset.t) : MW (bool * MemoryFileAtOffset.t) :=
  info <- map_info k ;;
  prev <- prev_info info ;;
  match prev with
  | None => ret (false, f)
  | Some prev =>
      if negb (map_flags prev =? PROT_READ) then ret (false, f)
      else
        let map_size := u64 (map_end info - map_end prev) in
        let '(ok, f) := file_Init (map_name info) (map_offset prev) map_size f in
        if negb ok then ret (false, f)
        else
          size <- lift (GetInfo (file_memory f)) ;;
          match size with
          | None => ret (false, f)
          | Some max_size =>
              if max_size <? map_size then ret (false, f)
              else
                let '(ok, f) := file_Init (map_name info) (map_offset prev) max_size f in
                if negb ok then ret (false, f)
                else
                  update_info k (fun i => put_elf_start_offset (map_offset prev)
                                            (put_elf_offset (u64 (map_offset i - map_offset prev)) i)) ;;
                  ret (true, f)
          end
  end.

(** The last attempts, when there is no object at the offset of the map. *)
Definition whole_file_memory (k : Z) (map_size : Z) (f : MemoryFileAtOffset.t) : MW (option Memory) :=
  info <- map_info k ;;
  let '(ok, f) := file_Init (map_name info) 0 UINT64_MAX f in
  if ok && IsValidElf (file_memory f) then
    update_info k (put_elf_offset (map_offset info)) ;;
    prev <- prev_info info ;;
    (match prev with
     | Some prev =>
         if negb (map_offset prev =? 0) || negb (map_flags prev =? PROT_READ) || negb (bool_decide (map_name prev = map_name info))
         then update_info k (put_elf_start_offset (map_offset info)) else ret tt
     | None => update_info k (put_elf_start_offset (map_offset info))
     end) ;;
    ret (file_memory f)
  else
    r <- InitFileMemoryFromPreviousReadOnlyMap k f ;;
    let '(ok, f) := r in
    if (ok : bool) then ret (file_memory f)
    else
      let '(ok, f) := file_Init (map_name info) (map_offset info) map_size f in
      ret (if ok then file_memory f else None).

(** [None] is [nullptr]. *)
Definition GetFileMemory (k : Z) : MW (option Memory) :=
  info <- map_info k ;;
  let name := map_name info in
  let offset := map_offset info in
  let f := MemoryFileAtOffset.init_state in
  if offset =? 0 then
    let '(ok, f) := file_Init name 0 UINT64_MAX f in ret (if ok then file_memory f else None)
  else
    let map_size := u64 (map_end info - map_start info) in
    let '(ok, f) := file_Init name offset map_size f in
    if negb ok then ret None
    else
      size <- lift (GetInfo (file_memory f)) ;;
      match size with
      | None => whole_file_memory k map_size f
      | Some max_size =>
          update_info k (put_elf_start_offset offset) ;;
          if map_size <? max_size then
            let '(ok, f) := file_Init name offset max_size f in
            if ok then ret (file_memory f)
            else
              let '(ok, f) := file_Init name offset map_size f in
              if ok then ret (file_memory f) else update_info k (put_elf_start_offset 0) ;; ret None
          else ret (file_memory f)
      end.

(** The memory of the process, when there is no file. *)
Definition process_backed_memory (k : Z) (process_memory : Memory) : MW (option Memory) :=
  info <- map_info k ;;
  let range := MemoryRange.mk process_memory (map_start info) (map_end info - map_start info) 0 in
  if IsValidElf (Some (MemoryRange.memory range)) then
    update_info k (put_memory_backed true) ;; ret (Some (MemoryRange.memory range))
  else
    prev <- prev_info info ;;
    match prev with
    | None => ret None
    | Some prev =>
        if (map_offset info =? 0) || bool_decide (map_name info = []) || negb (bool_decide (map_name prev = map_name info))
           || (map_offset info <=? map_offset prev) then ret None
        else
          let elf_offset := map_offset info - map_offset prev in
          update_info k (fun i => put_elf_start_offset (map_offset prev) (put_elf_offset elf_offset i)) ;;
          let ranges := MemoryRanges.Insert MemoryRanges.empty
                          (MemoryRange.mk process_memory (map_start prev) (u64 (map_end prev - map_start prev)) 0) in
          let ranges := MemoryRanges.Insert ranges
                          (MemoryRange.mk process_memory (map_start info) (map_end info - map_start info) elf_offset) in
          update_info k (put_memory_backed true) ;;
          ret (Some (MemoryRanges.memory ranges))
    end.

Definition CreateMemory (k : Z) (process_memory : option Memory) : MW (option Memory) :=
  info <- map_info k ;;
  if map_end info <=? map_start info then ret None
  else
    update_info k (put_elf_offset 0) ;;
    if negb (Z.land (map_flags info) MAPS_FLAGS_DEVICE_MAP =? 0) then ret None
    else
      memory <- (if bool_decide (map_name info = []) then ret None else GetFileMemory k) ;;
      match memory, process_memory with
      | Some _, _ => ret memory
      | None, None => ret None
      | None, Some process_memory => process_backed_memory k process_memory
      end.

(** * The ELF object of a map *)

(** The object that is created for the map, and its check against the expected architecture. *)
Definition create_elf (k : Z) (memory : option Memory) (expected_arch : ArchEnum) : MW Z :=
  e <- alloc_elf (new_Elf P memory) ;;
  update_info k (put_map_elf e) ;;
  on_elf e (Elf.Init P ;;
            obj <- get ;;
            if valid_ obj && negb (bool_decide (expected_arch = arch_ obj)) then modify Invalidate else ret tt) ;;
  ret e.

(** The read-only map before this one shares the object. *)
Definition share_with_prev (k e : Z) : MW unit :=
  info <- map_info k ;;
  match prev_map info with
  | None => ret tt
  | Some p =>
      prev <- map_info p ;;
      if negb (elf_start_offset info =? map_offset info) && (map_offset prev =? elf_start_offset info)
         && bool_decide (map_name prev = map_name info) && bool_decide (map_elf prev = None) then
        update_info p (fun i => put_memory_backed (memory_backed_elf info) (put_map_elf e i))
      else ret tt
  end.

Definition GetElf (k : Z) (process_memory : option Memory) (expected_arch : ArchEnum) : MW Z :=
  info <- map_info k ;;
  match map_elf info with
  | Some e => ret e
  | None =>
      w <- get ;;
      let locked := cache_enabled_ w && negb (bool_decide (map_name info = [])) in
      hit <- (if locked then CacheGet k else ret false) ;;
      if (hit : bool) then info <- map_info k ;; some_or (Undef UbNull) (map_elf info)
      else
        memory <- CreateMemory k process_memory ;;
        hit <- (if locked then CacheAfterCreateMemory k else ret false) ;;
        if (hit : bool) then info <- map_info k ;; some_or (Undef UbNull) (map_elf info)
        else
          e <- create_elf k memory expected_arch ;;
          (if locked then CacheAdd k else ret tt) ;;
          share_with_prev k e ;;
          ret e
  end.

Definition map_GetFunctionName (k addr : Z) : MW (option (list byte * Z)) :=
  info <- map_info k ;;
  match map_elf info with
  | None => ret None
  | Some e => on_elf e (Elf.GetFunctionName P addr)
  end.

Definition map_GetLoadBias (k : Z) (process_memory : option Memory) : MW Z :=
  info <- map_info k ;;
  if negb (map_load_bias info =? UINT64_MAX) then ret (map_load_bias info)
  else
    bias <- match map_elf info with
            | Some e => on_elf e (obj <- get ;; ret (if valid_ obj then load_bias_ obj else 0))
            | None => memory <- CreateMemory k process_memory ;; ret (static_GetLoadBias memory)
            end ;;
    update_info k (put_map_load_bias bias) ;;
    ret bias.

(** [compare_exchange_weak] may fail without a reason: [saved] tells whether it succeeds. *)
Definition map_GetBuildID (k : Z) (saved : bool) : MW (list byte) :=
  info <- map_info k ;;
  match build_id info with
  | Some id => ret id
  | None =>
      id <- match map_elf info with
            | Some e => on_elf e (elf_GetBuildID P)
            | None =>
                memory <- GetFileMemory k ;;
                match memory with None => ret [] | Some _ => lift (static_GetBuildID P memory) end
            end ;;
      (if saved then update_info k (put_build_id id) else ret tt) ;;
      ret id
  end.

(** [%02hhx] *)
Definition hex_digit (n : Z) : byte := nth (Z.to_nat n) (list_byte_of_string "0123456789abcdef") x00.
Definition print_byte (b : byte) : list byte := [hex_digit (byte_val b / 16); hex_digit (byte_val b mod 16)].

Definition GetPrintableBuildID (k : Z) (saved : bool) : MW (list byte) :=
  id <- map_GetBuildID k saved ;; ret (flat_map print_byte id).
End Objects.
