(* ===== verification/Global.v ===== *)
(** [Global.cpp] and [Global.h]: the search for a global variable of the runtime in the maps of the
    process.

    [Global] is a base class: [GlobalClass] states what a derived class provides, its part of the
    object and the two virtual methods. The state of a method is the object of the derived class and
    the [World] in which it creates ELF objects. The memory of the process is not null. *)
From Stdlib Require Import ZArith Lia Bool Strings.Byte Strings.String.
From stdpp Require Import base numbers list gmap.
From S2P Require Import Prelude Memory ElfTypes ElfInterface RegsArch Maps Elf MapInfo.
#[local] Open Scope Z_scope.

(** * State *)

(** [g_arch] and [g_memory] are [arch_] and [memory_]. *)
Record Global := mkGlobal { g_arch : ArchEnum; g_memory : Memory; search_libs_ : list (list byte) }.

Definition new_Global (memory : Memory) (search_libs : list (list byte)) : Global :=
  mkGlobal ARCH_UNKNOWN memory search_libs.

(** A class that is derived from [Global] *)
Class GlobalClass (G : Type) := {
  global : G -> Global;
  put_global : Global -> G -> G;
  ProcessArch : M G unit;
  ReadVariableData : Z -> M G bool
}.

(** [c_str()], and the part of a path behind its last slash *)
Fixpoint c_str (s : list byte) : list byte :=
  match s with
  | [] => []
  | b :: s' => if decide (b = x00) then [] else b :: c_str s'
  end.

(** The part behind the last occurrence of a character, when it occurs. *)
Fixpoint after_last (c : byte) (s : list byte) : option (list byte) :=
  match s with
  | [] => None
  | b :: s' =>
      match after_last c s' with
      | Some r => Some r
      | None => if decide (b = c) then Some s' else None
      end
  end.

Definition basename (path : list byte) : list byte := default path (after_last x2f path).

Definition PROT_WRITE : Z := 2.

(** * The methods *)

Section Global.
Context {G : Type} `{GlobalClass G}.

Abbreviation MG := (M (G * World)).

Definition on_object {B} (m : M G B) : MG B := zoom fst (fun g p => (g, snd p)) m.
Definition on_world {B} (m : MW B) : MG B := zoom snd (fun w p => (fst p, w)) m.

Definition set_arch (arch : ArchEnum) (g : G) : G :=
  put_global (mkGlobal arch (g_memory (global g)) (search_libs_ (global g))) g.

Definition SetArch (arch : ArchEnum) : M G unit :=
  g <- get ;;
  if decide (g_arch (global g) = ARCH_UNKNOWN) then modify (set_arch arch) ;; ProcessArch else ret tt.

Context (os : system) (P : params).

Definition GetVariableOffset (k : Z) (variable : list byte) : MG Z :=
  p <- get ;;
  info <- on_world (map_info k) ;;
  let libs := search_libs_ (global (fst p)) in
  if negb (bool_decide (libs = [])) && negb (bool_decide (basename (c_str (map_name info)) ∈ libs)) then ret 0
  else
    e <- on_world (GetElf os P k (Some (g_memory (global (fst p)))) (g_arch (global (fst p)))) ;;
    ptr <- on_world (on_elf e (elf_GetGlobalVariable P variable)) ;;
    info <- on_world (map_info k) ;;
    ret (match ptr with Some ptr => if ptr =? 0 then 0 else u64 (ptr + map_start info) | None => 0 end).

(** The loop over the maps; [map_start] is the readable map that a writable one has to follow. *)
Fixpoint find_variable_loop (l : list (option Z)) (variable : list byte) (start : option Z) : MG unit :=
  match l with
  | [] => ret tt
  | p :: l' =>
      k <- some_or (Undef UbNull) p ;;
      info <- on_world (map_info k) ;;
      r <- match start with
           | None => ret (Some None)
           | Some s =>
               first <- on_world (map_info s) ;;
               if negb (bool_decide (map_name first = map_name info)) then ret (Some None)
               else if negb (map_offset info =? 0) && (Z.land (map_flags info) (Z.lor PROT_READ PROT_WRITE) =? Z.lor PROT_READ PROT_WRITE) then
                 ptr <- GetVariableOffset s variable ;;
                 ok <- (if ptr =? 0 then ret false else on_object (ReadVariableData ptr)) ;;
                 ret (if (ok : bool) then None else Some None)
               else ret (Some start)
           end ;;
      match r with
      | None => ret tt
      | Some start =>
          let start := match start with
                       | None => if negb (Z.land (map_flags info) PROT_READ =? 0) && (map_offset info =? 0)
                                    && negb (bool_decide (map_name info = [])) then Some k else None
                       | Some _ => start
                       end in
          find_variable_loop l' variable start
      end
  end.

Definition FindAndReadVariable (variable : list byte) : MG unit :=
  p <- get ;; find_variable_loop (maps_ (w_maps (snd p))) variable None.
End Global.
