(* ===== verification/JitDebug.v ===== *)
(** [JitDebug.cpp]: the ELF objects of code that the runtime of the process has compiled, found
    through the JIT interface of gdb.

    The state is the object and the [World] in which it creates ELF objects. *)
From Stdlib Require Import ZArith Lia Bool Strings.Byte Strings.String.
From stdpp Require Import base numbers list gmap.
From S2P Require Import Prelude Memory ElfTypes ElfInterface RegsArch Maps Elf MapInfo Global.
#[local] Open Scope Z_scope.

(** * State *)

(** [JITCodeEntry32Pack], [JITCodeEntry32Pad] and [JITCodeEntry64] *)
Inductive entry_format : Set := Entry32Pack | Entry32Pad | Entry64.

(** The function pointers are null before [ProcessArch]; [ReadDescriptor32] and [ReadDescriptor64],
    [ReadEntry32Pack], [ReadEntry32Pad] and [ReadEntry64] are told apart by what they read. *)
Record JitDebug := mkJit {
  j_global : Global;
  read_descriptor_func_ : option addr_type;
  read_entry_func_ : option entry_format;
  entry_addr_ : Z;
  initialized_ : bool;
  elf_list_ : list Z
}.

Definition new_JitDebug (memory : Memory) (search_libs : list (list byte)) : JitDebug :=
  mkJit (new_Global memory search_libs) None None 0 false [].

Definition put_j_global (g : Global) (j : JitDebug) : JitDebug :=
  mkJit g (read_descriptor_func_ j) (read_entry_func_ j) (entry_addr_ j) (initialized_ j) (elf_list_ j).
Definition put_read_funcs (d : addr_type) (f : entry_format) (j : JitDebug) : JitDebug :=
  mkJit (j_global j) (Some d) (Some f) (entry_addr_ j) (initialized_ j) (elf_list_ j).
Definition put_entry_addr (a : Z) (j : JitDebug) : JitDebug :=
  mkJit (j_global j) (read_descriptor_func_ j) (read_entry_func_ j) a (initialized_ j) (elf_list_ j).
Definition put_initialized (j : JitDebug) : JitDebug :=
  mkJit (j_global j) (read_descriptor_func_ j) (read_entry_func_ j) (entry_addr_ j) true (elf_list_ j).
Definition push_elf (e : Z) (j : JitDebug) : JitDebug :=
  mkJit (j_global j) (read_descriptor_func_ j) (read_entry_func_ j) (entry_addr_ j) (initialized_ j) (elf_list_ j ++ [e]).

Abbreviation MJ := (M (JitDebug * World)).

(** * The entries of the runtime *)

(** [JITDescriptor32] and [JITDescriptor64]: the version and the first entry *)
Definition descriptor_widths (A : addr_type) : list nat := match A with U32 => [4; 4; 4; 4] | U64 => [4; 4; 8; 8] end%nat.

Definition ReadDescriptor (A : addr_type) (a : Z) (j : JitDebug) : Z :=
  match read_struct (descriptor_widths A) (g_memory (j_global j)) a with
  | None => 0
  | Some desc => if negb (fld 0 desc =? 1) || (fld 3 desc =? 0) then 0 else fld 3 desc
  end.

Definition entry_widths (f : entry_format) : list nat :=
  match f with Entry32Pack => [4; 4; 4; 8] | Entry32Pad => [4; 4; 4; 4; 8] | Entry64 => [8; 8; 8; 8] end%nat.

(** The next entry, [*start] and [*size]; the last two are not set when the entry cannot be read. *)
Definition ReadEntry (f : entry_format) (uninit : Z) (j : JitDebug) : Z * Z * Z :=
  match read_struct (entry_widths f) (g_memory (j_global j)) (entry_addr_ j) with
  | None => (0, uninit, uninit)
  | Some code => (fld 0 code, fld 2 code, match f with Entry32Pad => fld 4 code | _ => fld 3 code end)
  end.

Definition jit_ProcessArch : M JitDebug unit :=
  j <- get ;;
  match g_arch (j_global j) with
  | ARCH_X86 => modify (put_read_funcs U32 Entry32Pack)
  | ARCH_ARM | ARCH_MIPS => modify (put_read_funcs U32 Entry32Pad)
  | ARCH_ARM64 | ARCH_X86_64 | ARCH_MIPS64 => modify (put_read_funcs U64 Entry64)
  | ARCH_UNKNOWN => fail Aborted
  end.

Definition jit_ReadVariableData (ptr : Z) : M JitDebug bool :=
  j <- get ;;
  A <- some_or (Undef UbNull) (read_descriptor_func_ j) ;;
  modify (put_entry_addr (ReadDescriptor A ptr j)) ;;
  ret (negb (ReadDescriptor A ptr j =? 0)).

#[export] Instance JitDebug_global : GlobalClass JitDebug := {
  global := j_global;
  put_global := put_j_global;
  ProcessArch := jit_ProcessArch;
  ReadVariableData := jit_ReadVariableData
}.

Section Jit.
Context (os : system) (P : params).

Definition jit_Init : MJ unit :=
  p <- get ;;
  if initialized_ (fst p) then ret tt
  else on_object (modify put_initialized) ;; FindAndReadVariable os P (list_byte_of_string "__jit_debug_descriptor").

(** * The object of an address *)

Fixpoint search_elf_list (pc : Z) (l : list Z) : MJ (option Z) :=
  match l with
  | [] => ret None
  | e :: l' =>
      ok <- on_world (on_elf e (elf_IsValidPc P pc)) ;;
      if (ok : bool) then ret (Some e) else search_elf_list pc l'
  end.

(** The loop over the entries that were not read yet. *)
Fixpoint read_entries_loop (fuel : nat) (pc : Z) : MJ (option Z) :=
  match fuel with
  | O => fail OutOfFuel
  | S fuel' =>
      p <- get ;;
      if entry_addr_ (fst p) =? 0 then ret None
      else
        f <- some_or (Undef UbNull) (read_entry_func_ (fst p)) ;;
        let '(next, start, size) := ReadEntry f (p_uninit P) (fst p) in
        on_object (modify (put_entry_addr next)) ;;
        let memory := MemoryRange.memory (MemoryRange.mk (g_memory (j_global (fst p))) start size 0) in
        e <- on_world (alloc_elf (new_Elf P (Some memory))) ;;
        valid <- on_world (on_elf e (Elf.Init P)) ;;
        if negb valid then on_object (modify (put_entry_addr 0)) ;; ret None
        else
          on_object (modify (push_elf e)) ;;
          ok <- on_world (on_elf e (elf_IsValidPc P pc)) ;;
          if (ok : bool) then ret (Some e) else read_entries_loop fuel' pc
  end.

Definition jit_GetElf (pc : Z) : MJ (option Z) :=
  jit_Init ;;
  p <- get ;;
  found <- search_elf_list pc (elf_list_ (fst p)) ;;
  match found with
  | Some e => ret (Some e)
  | None => read_entries_loop (p_fuel P) pc
  end.
End Jit.
