(* ===== verification/DexFiles.v ===== *)
(** [DexFile.cpp] and [DexFiles.cpp]: the methods of the dex files that the runtime of the process
    has loaded.

    A dex file is parsed by libdexfile, whose functions are parameters ([dexlib]). What the component
    does is the bookkeeping: the list of dex files in the memory of the process is read as far as a
    query needs it, and the dex files that were made are kept. [dex_methods] proves that the answers
    do not depend on that. *)
From Stdlib Require Import ZArith Lia Bool Strings.Byte Strings.String.
From stdpp Require Import base numbers list gmap.
From S2P Require Import Prelude Memory ElfTypes ElfInterface RegsArch Maps Elf MapInfo Global.
#[local] Open Scope Z_scope.

(** * libdexfile *)

(** The functions of [art_api::dex::DexFile]; its objects are handles. [OpenFromFd] gets the contents
    of the file, [OpenFromMemory] the bytes and [*size]; its results are the object, [*size] and
    [error_msg]. [GetMethodInfoForOffset] gives [offset] and [name]. *)
Record dexlib := mkDexLib {
  OpenFromFd : list byte -> Z -> list byte -> option Z;
  OpenFromMemory : list byte -> Z -> list byte -> option Z * Z * list byte;
  GetMethodInfoForOffset : Z -> Z -> Z * list byte
}.

(** * State *)

(** [read_entry_ptr_func_] and [read_entry_func_]: the functions for 32 or for 64 bits, null before
    [ProcessArch]. [files_] also keeps null pointers. *)
Record DexFiles := mkDexFiles {
  dex_global : Global;
  dex_initialized_ : bool;
  files_ : gmap Z (option Z);
  dex_entry_addr_ : Z;
  read_entry_ptr_func_ : option addr_type;
  dex_read_entry_func_ : option addr_type;
  addrs_ : list Z
}.

Definition new_DexFiles (memory : Memory) (search_libs : list (list byte)) : DexFiles :=
  mkDexFiles (new_Global memory search_libs) false ∅ 0 None None [].

Definition put_dex_global (g : Global) (d : DexFiles) : DexFiles :=
  mkDexFiles g (dex_initialized_ d) (files_ d) (dex_entry_addr_ d) (read_entry_ptr_func_ d) (dex_read_entry_func_ d) (addrs_ d).
Definition put_dex_initialized (d : DexFiles) : DexFiles :=
  mkDexFiles (dex_global d) true (files_ d) (dex_entry_addr_ d) (read_entry_ptr_func_ d) (dex_read_entry_func_ d) (addrs_ d).
Definition put_file (offset : Z) (file : option Z) (d : DexFiles) : DexFiles :=
  mkDexFiles (dex_global d) (dex_initialized_ d) (<[offset := file]> (files_ d)) (dex_entry_addr_ d) (read_entry_ptr_func_ d)
    (dex_read_entry_func_ d) (addrs_ d).
Definition put_dex_entry (a : Z) (d : DexFiles) : DexFiles :=
  mkDexFiles (dex_global d) (dex_initialized_ d) (files_ d) a (read_entry_ptr_func_ d) (dex_read_entry_func_ d) (addrs_ d).
Definition put_dex_funcs (A : addr_type) (d : DexFiles) : DexFiles :=
  mkDexFiles (dex_global d) (dex_initialized_ d) (files_ d) (dex_entry_addr_ d) (Some A) (Some A) (addrs_ d).
Definition push_addr (a : Z) (d : DexFiles) : DexFiles :=
  mkDexFiles (dex_global d) (dex_initialized_ d) (files_ d) (dex_entry_addr_ d) (read_entry_ptr_func_ d) (dex_read_entry_func_ d)
    (addrs_ d ++ [a]).

Definition dex_memory (d : DexFiles) : Memory := g_memory (dex_global d).

(** * The list of dex files *)

(** [DEXFileEntry32] and [DEXFileEntry64]: next, previous and the dex file *)
Definition dex_entry_widths (A : addr_type) : list nat := match A with U32 => [4; 4; 4] | U64 => [8; 8; 8] end%nat.

(** [ReadEntryPtr32] and [ReadEntryPtr64] *)
Definition ReadEntryPtr (A : addr_type) (a : Z) (d : DexFiles) : Z :=
  default 0 (match A with U32 => Read32 (dex_memory d) (u64 (a + 12)) | U64 => Read64 (dex_memory d) (u64 (a + 16)) end).

(** [ReadEntry32] and [ReadEntry64] *)
Definition dex_ReadEntry (A : addr_type) : M DexFiles bool :=
  d <- get ;;
  match read_struct (dex_entry_widths A) (dex_memory d) (dex_entry_addr_ d) with
  | Some entry =>
      if fld 2 entry =? 0 then modify (put_dex_entry 0) ;; ret false
      else modify (push_addr (fld 2 entry)) ;; modify (put_dex_entry (fld 0 entry)) ;; ret true
  | None => modify (put_dex_entry 0) ;; ret false
  end.

Definition dex_ProcessArch : M DexFiles unit :=
  d <- get ;;
  match g_arch (dex_global d) with
  | ARCH_ARM | ARCH_MIPS | ARCH_X86 => modify (put_dex_funcs U32)
  | ARCH_ARM64 | ARCH_MIPS64 | ARCH_X86_64 => modify (put_dex_funcs U64)
  | ARCH_UNKNOWN => fail Aborted
  end.

Definition dex_ReadVariableData (ptr_offset : Z) : M DexFiles bool :=
  d <- get ;;
  A <- some_or (Undef UbNull) (read_entry_ptr_func_ d) ;;
  modify (put_dex_entry (ReadEntryPtr A ptr_offset d)) ;;
  ret (negb (ReadEntryPtr A ptr_offset d =? 0)).

#[export] Instance DexFiles_global : GlobalClass DexFiles := {
  global := dex_global;
  put_global := put_dex_global;
  ProcessArch := dex_ProcessArch;
  ReadVariableData := dex_ReadVariableData
}.

Definition GetAddr (index : nat) : M DexFiles (option Z) :=
  d <- get ;;
  match addrs_ d !! index with
  | Some a => ret (Some a)
  | None =>
      if dex_entry_addr_ d =? 0 then ret None
      else
        A <- some_or (Undef UbNull) (dex_read_entry_func_ d) ;;
        ok <- dex_ReadEntry A ;;
        if (ok : bool) then gets (fun d => last (addrs_ d)) else ret None
  end.

Section Dex.
Context (L : dexlib) (os : system) (P : params).

(** * One dex file *)

Definition DexFileFromFile_Create (offset : Z) (file : list byte) : option Z :=
  match file_contents os file with
  | None => None
  | Some contents => OpenFromFd L contents offset file
  end.

(** The loop: [backing_memory] and [size]. *)
Fixpoint from_memory_loop (fuel : nat) (offset : Z) (memory : Memory) (name backing_memory : list byte) (size : Z)
    : outcome (option Z) :=
  match fuel with
  | O => Fault OutOfFuel
  | S fuel' =>
      match OpenFromMemory L backing_memory size name with
      | (Some dex, _, _) => Done (Some dex)
      | (None, size, error_msg) =>
          if bool_decide (error_msg = []) then
            match ReadFully memory offset size with
            | None => Done None
            | Some backing_memory => from_memory_loop fuel' offset memory name backing_memory size
            end
          else Done None
      end
  end.

Definition DexFileFromMemory_Create (offset : Z) (memory : Memory) (name : list byte) : outcome (option Z) :=
  from_memory_loop (p_fuel P) offset memory name [] 0.

Definition DexFile_Create (offset : Z) (memory : Memory) (info : MapInfo) : outcome (option Z) :=
  let from_file :=
    if bool_decide (map_name info = []) then None
    else DexFileFromFile_Create (u64 (offset - map_start info + map_offset info)) (map_name info) in
  match from_file with
  | Some dex => Done (Some dex)
  | None => DexFileFromMemory_Create offset memory (map_name info)
  end.

(** [DexFile::GetMethodInformation] *)
Definition dex_method (dex dex_offset : Z) : option (list byte * Z) :=
  let '(offset, name) := GetMethodInfoForOffset L dex dex_offset in
  if offset =? 0 then None else Some (name, u64 (dex_offset - offset)).

(** * [DexFiles] *)

Definition GetDexFile (dex_file_offset : Z) (info : MapInfo) : M DexFiles (option Z) :=
  d <- get ;;
  match files_ d !! dex_file_offset with
  | Some file => ret file
  | None =>
      file <- lift (DexFile_Create dex_file_offset (dex_memory d) info) ;;
      modify (put_file dex_file_offset file) ;;
      ret file
  end.

Abbreviation MD := (M (DexFiles * World)).

Definition dex_Init : MD unit :=
  p <- get ;;
  if dex_initialized_ (fst p) then ret tt
  else
    on_object (modify put_dex_initialized) ;;
    on_object (modify (put_dex_entry 0)) ;;
    FindAndReadVariable os P (list_byte_of_string "__dex_debug_descriptor").

(** The loop over the dex files, [index++] included. *)
Fixpoint method_loop (fuel : nat) (info : MapInfo) (dex_pc : Z) (index : nat) : M DexFiles (option (list byte * Z)) :=
  match fuel with
  | O => fail OutOfFuel
  | S fuel' =>
      r <- GetAddr index ;;
      match r with
      | None => ret None
      | Some addr =>
          if (addr <? map_start info) || (map_end info <=? addr) then method_loop fuel' info dex_pc (S index)
          else
            file <- GetDexFile addr info ;;
            match file ≫= fun dex => dex_method dex (u64 (dex_pc - addr)) with
            | Some r => ret (Some r)
            | None => method_loop fuel' info dex_pc (S index)
            end
      end
  end.

(** [DexFiles::GetMethodInformation]: [None] leaves the name and the offset as they are. *)
Definition GetMethodInformation (k dex_pc : Z) : MD (option (list byte * Z)) :=
  dex_Init ;;
  info <- on_world (map_info k) ;;
  on_object (method_loop (p_fuel P) info dex_pc 0).
End Dex.
