(* ===== verification/Unwinder.v ===== *)
(** [Unwinder.cpp], [Unwinder.h]: the frames of a thread.

    The state holds the registers, which every step changes, and the [World] of maps and ELF objects. *)
From Stdlib Require Import ZArith Lia Bool Strings.Byte Strings.String.
From stdpp Require Import base numbers list gmap.
From S2P Require Import Prelude Memory DwarfMemory Regs ElfTypes ElfInterface RegsArch Maps Elf MapInfo Global JitDebug DexFiles.
#[local] Open Scope Z_scope.

(** * State *)

Record FrameData := mkFrame {
  f_num : Z;
  f_rel_pc : Z;
  f_pc : Z;
  f_sp : Z;
  f_function_name : list byte;
  f_function_offset : Z;
  f_map_name : list byte;
  f_map_elf_start_offset : Z;
  f_map_exact_offset : Z;
  f_map_start : Z;
  f_map_end : Z;
  f_map_load_bias : Z;
  f_map_flags : Z
}.

(** A frame without a map. *)
Definition bare_frame (num rel_pc pc sp : Z) : FrameData := mkFrame num rel_pc pc sp [] 0 [] 0 0 0 0 0 0.

Definition put_function (name : list byte) (offset : Z) (f : FrameData) : FrameData :=
  mkFrame (f_num f) (f_rel_pc f) (f_pc f) (f_sp f) name offset (f_map_name f) (f_map_elf_start_offset f)
    (f_map_exact_offset f) (f_map_start f) (f_map_end f) (f_map_load_bias f) (f_map_flags f).
Definition put_frame_map (name : list byte) (i : MapInfo) (load_bias : Z) (f : FrameData) : FrameData :=
  mkFrame (f_num f) (f_rel_pc f) (f_pc f) (f_sp f) (f_function_name f) (f_function_offset f) name (elf_start_offset i)
    (map_offset i) (map_start i) (map_end i) load_bias (map_flags i).
Definition put_frame_pc (rel_pc pc : Z) (f : FrameData) : FrameData :=
  mkFrame (f_num f) rel_pc pc (f_sp f) (f_function_name f) (f_function_offset f) (f_map_name f) (f_map_elf_start_offset f)
    (f_map_exact_offset f) (f_map_start f) (f_map_end f) (f_map_load_bias f) (f_map_flags f).

(** The architecture is the class of the registers. *)
Record Unwinder := mkUnwinder {
  max_frames_ : Z;
  u_arch : ArchEnum;
  u_regs : Regs;
  frames_ : list FrameData;
  process_memory_ : Memory;
  jit_debug_ : option JitDebug;
  dex_files_ : option DexFiles;
  resolve_names_ : bool;
  embedded_soname_ : bool;
  display_build_id_ : bool;
  elf_from_memory_not_file_ : bool;
  last_error_ : ErrorData;
  u_world : World
}.

Definition put_u_regs (r : Regs) (u : Unwinder) : Unwinder :=
  mkUnwinder (max_frames_ u) (u_arch u) r (frames_ u) (process_memory_ u) (jit_debug_ u) (dex_files_ u)
    (resolve_names_ u) (embedded_soname_ u) (display_build_id_ u) (elf_from_memory_not_file_ u) (last_error_ u)
    (u_world u).
Definition put_frames (l : list FrameData) (u : Unwinder) : Unwinder :=
  mkUnwinder (max_frames_ u) (u_arch u) (u_regs u) l (process_memory_ u) (jit_debug_ u) (dex_files_ u)
    (resolve_names_ u) (embedded_soname_ u) (display_build_id_ u) (elf_from_memory_not_file_ u) (last_error_ u)
    (u_world u).
Definition put_jit (j : JitDebug) (w : World) (u : Unwinder) : Unwinder :=
  mkUnwinder (max_frames_ u) (u_arch u) (u_regs u) (frames_ u) (process_memory_ u) (Some j) (dex_files_ u)
    (resolve_names_ u) (embedded_soname_ u) (display_build_id_ u) (elf_from_memory_not_file_ u) (last_error_ u)
    w.
Definition put_dex_files (d : DexFiles) (w : World) (u : Unwinder) : Unwinder :=
  mkUnwinder (max_frames_ u) (u_arch u) (u_regs u) (frames_ u) (process_memory_ u) (jit_debug_ u) (Some d)
    (resolve_names_ u) (embedded_soname_ u) (display_build_id_ u) (elf_from_memory_not_file_ u) (last_error_ u)
    w.
Definition put_from_memory (b : bool) (u : Unwinder) : Unwinder :=
  mkUnwinder (max_frames_ u) (u_arch u) (u_regs u) (frames_ u) (process_memory_ u) (jit_debug_ u) (dex_files_ u)
    (resolve_names_ u) (embedded_soname_ u) (display_build_id_ u) b (last_error_ u) (u_world u).
Definition put_last_error (d : ErrorData) (u : Unwinder) : Unwinder :=
  mkUnwinder (max_frames_ u) (u_arch u) (u_regs u) (frames_ u) (process_memory_ u) (jit_debug_ u) (dex_files_ u)
    (resolve_names_ u) (embedded_soname_ u) (display_build_id_ u) (elf_from_memory_not_file_ u) d (u_world u).
Definition put_world (w : World) (u : Unwinder) : Unwinder :=
  mkUnwinder (max_frames_ u) (u_arch u) (u_regs u) (frames_ u) (process_memory_ u) (jit_debug_ u) (dex_files_ u)
    (resolve_names_ u) (embedded_soname_ u) (display_build_id_ u) (elf_from_memory_not_file_ u) (last_error_ u)
    w.

Abbreviation MU := (M Unwinder).

Definition in_world {B} (m : MW B) : MU B := zoom u_world put_world m.
Definition set_error_code (c : ErrorCode) : MU unit := modify (fun u => put_last_error (set_code c (last_error_ u)) u).

(** [regs_->pc()] and [regs_->sp()] *)
Definition cur_pc : MU Z := u <- get ;; read_reg (pc_reg (u_regs u)) (u_regs u).
Definition cur_sp : MU Z := u <- get ;; read_reg (sp_reg (u_regs u)) (u_regs u).

Definition find_map (pc : Z) : MU (option Z) := in_world (on_maps (Find pc)).

Definition num_frames (u : Unwinder) : Z := Z.of_nat (length (frames_ u)).

Definition push_frame (f : FrameData) : MU unit := modify (fun u => put_frames (frames_ u ++ [f]) u).

(** An assignment to a member of the last frame *)
Definition update_last (f : FrameData -> FrameData) : MU unit :=
  modify (fun u => put_frames (match last (frames_ u) with Some x => removelast (frames_ u) ++ [f x] | None => [] end) u).

Section Unwind.
Context (L : dexlib) (os : system) (P : params).

(** * A frame *)

(** What the dex files know of a dex pc, when there are dex files. *)
Definition dex_method_information (k dex_pc : Z) : MU (option (list byte * Z)) := fun u =>
  match dex_files_ u with
  | None => Done (None, u)
  | Some d =>
      match GetMethodInformation L os P k dex_pc (d, u_world u) with
      | Done (r, (d, w)) => Done (r, put_dex_files d w u)
      | Fault f => Fault f
      end
  end.

Definition FillInDexFrame : MU unit :=
  u <- get ;;
  let dex_pc := dex_pc_ (u_regs u) in
  sp <- cur_sp ;;
  info <- find_map dex_pc ;;
  match info with
  | None => push_frame (bare_frame (num_frames u) dex_pc dex_pc sp)
  | Some k =>
      info <- in_world (map_info k) ;;
      let name := if resolve_names_ u then map_name info else [] in
      let frame := put_frame_map name info (map_load_bias info) (bare_frame (num_frames u) (u64 (dex_pc - map_start info)) dex_pc sp) in
      method <- (if resolve_names_ u then dex_method_information k dex_pc else ret None) ;;
      push_frame (match method with Some (name, offset) => put_function name offset frame | None => frame end)
  end.

(** Whether a frame is returned: only one with a map is. *)
Definition FillInFrame (map : option (Z * Z)) (rel_pc pc_adjustment : Z) : MU bool :=
  u <- get ;;
  sp <- cur_sp ;;
  pc <- cur_pc ;;
  let frame := bare_frame (num_frames u) (u64 (rel_pc - pc_adjustment)) (u64 (pc - pc_adjustment)) sp in
  match map with
  | None => push_frame frame ;; ret false
  | Some (k, e) =>
      info <- in_world (map_info k) ;;
      name <- (if resolve_names_ u then
                 if embedded_soname_ u && negb (elf_start_offset info =? 0) && negb (bool_decide (map_name info = [])) then
                   soname <- in_world (on_elf e (Elf.GetSoname P)) ;;
                   ret (if bool_decide (soname = []) then map_name info else map_name info ++ [x21] ++ soname)
                 else ret (map_name info)
               else ret []) ;;
      load_bias <- in_world (on_elf e (obj <- get ;; ret (load_bias_ obj))) ;;
      push_frame (put_frame_map name info load_bias frame) ;;
      ret true
  end.

Definition ShouldStop (map_suffixes_to_ignore : option (list (list byte))) (name : list byte) : bool :=
  match map_suffixes_to_ignore with
  | None => false
  | Some l => match after_last x2e name with None => false | Some suffix => bool_decide (suffix ∈ l) end
  end.

(** * One iteration *)

(** The relative pc of the frame, the adjustment, and the pc for the step. *)
Record position := mkPosition { ps_map : option (Z * Z); ps_rel_pc : Z; ps_adjustment : Z; ps_step_pc : Z }.

(** The JIT object of the pc, when the object of the map is not valid. *)
Definition jit_elf (pc : Z) : MU (option Z) := fun u =>
  match jit_debug_ u with
  | None => Done (None, u)
  | Some j =>
      match jit_GetElf os P pc (j, u_world u) with
      | Done (r, (j, w)) => Done (r, put_jit j w u)
      | Fault f => Fault f
      end
  end.

Definition locate_in_map (adjust_pc : bool) (k : Z) : MU position :=
  u <- get ;;
  e <- in_world (GetElf os P k (Some (process_memory_ u)) (u_arch u)) ;;
  info <- in_world (map_info k) ;;
  (if memory_backed_elf info && negb (bool_decide (map_name info = [])) && negb (bool_decide (take 1 (map_name info) = [x5b]))
      && negb (starts_with (list_byte_of_string "/memfd:") (map_name info)) then modify (put_from_memory true) else ret tt) ;;
  pc <- cur_pc ;;
  obj <- in_world (on_elf e get) ;;
  let rel_pc := GetRelPc pc (map_start info) (elf_offset info) obj in
  let step_pc := if Z.land (map_flags info) MAPS_FLAGS_JIT_SYMFILE_MAP =? 0 then rel_pc else pc in
  let adjustment := if adjust_pc then RegsArch.GetPcAdjustment (u_arch u) (valid_ obj) (load_bias_ obj) (memory_or_empty (elf_memory obj)) rel_pc else 0 in
  jit <- (if valid_ obj then ret None else jit_elf (u64 (pc - adjustment))) ;;
  ret (match jit with
       | Some j => mkPosition (Some (k, j)) rel_pc adjustment (u64 (pc - adjustment))
       | None => mkPosition (Some (k, e)) rel_pc adjustment (u64 (step_pc - adjustment))
       end).

(** [None]: the unwind stops at a map that is to be ignored. *)
Definition locate (adjust_pc : bool) (suffixes : option (list (list byte))) : MU (option position) :=
  pc <- cur_pc ;;
  found <- find_map pc ;;
  match found with
  | None => set_error_code ERROR_INVALID_MAP ;; ret (Some (mkPosition None pc 0 pc))
  | Some k =>
      info <- in_world (map_info k) ;;
      if ShouldStop suffixes (map_name info) then ret None
      else p <- locate_in_map adjust_pc k ;; ret (Some p)
  end.

(** The frames of this pc, unless it is in a map that is skipped: [None] when there is no room for
    the second one, otherwise whether there is a frame with a map, and the maps still to skip. *)
Definition add_frames (p : position) (skip : option (list (list byte))) : MU (option (bool * option (list (list byte)))) :=
  skipped <- match ps_map p, skip with
             | Some (k, _), Some names => info <- in_world (map_info k) ;; ret (bool_decide (basename (c_str (map_name info)) ∈ names))
             | _, _ => ret false
             end ;;
  if (skipped : bool) then ret (Some (false, skip))
  else
    u <- get ;;
    full <- (if dex_pc_ (u_regs u) =? 0 then ret false
             else FillInDexFrame ;; modify (fun u => put_u_regs (set_dex_pc 0 (u_regs u)) u) ;;
                  gets (fun u => num_frames u =? max_frames_ u)) ;;
    if (full : bool) then set_error_code ERROR_MAX_FRAMES_EXCEEDED ;; ret None
    else frame <- FillInFrame (ps_map p) (ps_rel_pc p) (ps_adjustment p) ;; ret (Some (frame, None)).

(** The step in an object: whether it succeeded, whether it is the last one, and the pc of the frame. *)
Definition step_elf (p : position) (e : Z) (frame : bool) : MU (bool * bool * Z) :=
  u <- get ;;
  r <- in_world (on_elf e (elf_StepIfSignalHandler (u_arch u) (ps_rel_pc p) (u_regs u) (process_memory_ u))) ;;
  let '(signal, regs) := r in
  modify (put_u_regs regs) ;;
  r <- (if (signal : bool) then
          if frame then
            update_last (fun f => put_frame_pc (ps_rel_pc p) (u64 (f_pc f + ps_adjustment p)) f) ;; ret (true, false, ps_rel_pc p)
          else ret (true, false, ps_step_pc p)
        else
          r <- in_world (on_elf e (Elf.Step P (ps_step_pc p) regs (process_memory_ u) false)) ;;
          let '(ok, regs, finished) := r in
          modify (put_u_regs regs) ;; ret (ok, finished, ps_step_pc p)) ;;
  u <- get ;;
  error <- in_world (on_elf e (GetLastError (last_error_ u))) ;;
  modify (put_last_error error) ;;
  ret r.

Definition is_device_map (k : Z) : MU bool :=
  info <- in_world (map_info k) ;; ret (negb (Z.land (map_flags info) MAPS_FLAGS_DEVICE_MAP =? 0)).

(** [stepped], [in_device_map], [finished] and the pc of the frame *)
Definition step (p : position) (frame : bool) : MU (bool * bool * bool * Z) :=
  match ps_map p with
  | None => ret (false, false, false, ps_step_pc p)
  | Some (k, e) =>
      device <- is_device_map k ;;
      if (device : bool) then ret (false, true, false, ps_step_pc p)
      else
        sp <- cur_sp ;;
        sp_info <- find_map sp ;;
        device <- match sp_info with None => ret false | Some k => is_device_map k end ;;
        if (device : bool) then ret (false, true, false, ps_step_pc p)
        else r <- step_elf p e frame ;; let '(stepped, finished, step_pc) := r in ret (stepped, false, finished, step_pc)
  end.

Definition name_frame (e step_pc : Z) : MU unit :=
  u <- get ;;
  r <- (if resolve_names_ u then in_world (on_elf e (Elf.GetFunctionName P step_pc)) else ret None) ;;
  update_last (match r with Some (name, offset) => put_function name offset | None => put_function [] 0 end).

(** What to do after the step: [None] is [break], otherwise the new [return_address_attempt]. *)
Definition after_step (return_address_attempt stepped in_device_map : bool) : MU (option bool) :=
  u <- get ;;
  if negb stepped then
    if return_address_attempt then
      found <- match frames_ u with
               | [] => ret false
               | f :: _ => if 2 <? num_frames u then ret true else r <- find_map (f_pc f) ;; ret (bool_decide (is_Some r))
               end ;;
      (if (found : bool) then modify (fun u => put_frames (removelast (frames_ u)) u) else ret tt) ;;
      ret None
    else if in_device_map then ret None
    else
      r <- lift (RegsArch.SetPcFromReturnAddress (u_arch u) (process_memory_ u) (u_regs u)) ;;
      modify (put_u_regs (snd r)) ;;
      ret (if fst r then Some true else None)
  else
    (if max_frames_ u =? num_frames u then set_error_code ERROR_MAX_FRAMES_EXCEEDED else ret tt) ;;
    ret (Some false).

(** The variables of the loop: the maps still to skip, [return_address_attempt] and [adjust_pc];
    [None] is [break]. *)
Definition iteration (suffixes skip : option (list (list byte))) (attempt adjust_pc : bool)
    : MU (option (option (list (list byte)) * bool)) :=
  pc <- cur_pc ;;
  sp <- cur_sp ;;
  p <-? locate adjust_pc suffixes ;;
  added <-? add_frames p skip ;;
  let '(frame, skip) := added in
  r <- step p frame ;;
  let '(stepped, in_device_map, finished, step_pc) := r in
  (match ps_map p with Some (_, e) => if (frame : bool) then name_frame e step_pc else ret tt | None => ret tt end) ;;
  if (finished : bool) then ret None
  else
    attempt <-? after_step attempt stepped in_device_map ;;
    pc' <- cur_pc ;;
    sp' <- cur_sp ;;
    if (pc =? pc') && (sp =? sp') then set_error_code ERROR_REPEATED_FRAME ;; ret None
    else ret (Some (skip, attempt)).

Fixpoint unwind_loop (fuel : nat) (suffixes skip : option (list (list byte))) (attempt adjust_pc : bool) : MU unit :=
  match fuel with
  | O => fail OutOfFuel
  | S fuel' =>
      u <- get ;;
      if num_frames u <? max_frames_ u then
        r <- iteration suffixes skip attempt adjust_pc ;;
        match r with
        | None => ret tt
        | Some (skip, attempt) => unwind_loop fuel' suffixes skip attempt true
        end
      else ret tt
  end.

Definition reset_unwind : MU unit :=
  modify (fun u => put_from_memory false (put_last_error (mkErrorData ERROR_NONE 0) (put_frames [] u))).

Definition Unwind (fuel : nat) (initial_map_names_to_skip map_suffixes_to_ignore : option (list (list byte))) : MU unit :=
  reset_unwind ;; unwind_loop fuel map_suffixes_to_ignore initial_map_names_to_skip false false.
End Unwind.
