(* ===== verification/UnwinderLoop.v ===== *)
(** The main loop of an unwind: it ends, its frames, and how it does not end when maps are skipped. *)
From Stdlib Require Import ZArith Lia Bool Strings.Byte.
From stdpp Require Import base numbers list gmap.
From S2P Require Import Prelude Memory DwarfMemory Regs ElfTypes ElfInterface RegsArch Maps Elf MapInfo Global JitDebug DexFiles Unwinder.
#[local] Open Scope Z_scope.

Abbreviation names := (option (list (list byte))).

(** * The loop without fuel *)

Section Loop.
Context (L : dexlib) (os : system) (P : params) (suffixes : names).
Implicit Types (u : Unwinder) (f : FrameData) (skip : names).

(** [n] iterations, from the variables of the loop to its result. *)
Inductive runs : nat -> names -> bool -> bool -> Unwinder -> outcome (unit * Unwinder) -> Prop :=
| runs_full u skip attempt adjust :
    max_frames_ u <= num_frames u -> runs 0 skip attempt adjust u (Done (tt, u))
| runs_fault u skip attempt adjust e :
    num_frames u < max_frames_ u -> iteration L os P suffixes skip attempt adjust u = Fault e ->
    runs 1 skip attempt adjust u (Fault e)
| runs_break u skip attempt adjust u' :
    num_frames u < max_frames_ u -> iteration L os P suffixes skip attempt adjust u = Done (None, u') ->
    runs 1 skip attempt adjust u (Done (tt, u'))
| runs_next u skip attempt adjust u' skip' attempt' n r :
    num_frames u < max_frames_ u -> iteration L os P suffixes skip attempt adjust u = Done (Some (skip', attempt'), u') ->
    runs n skip' attempt' true u' r -> runs (S n) skip attempt adjust u r.

Lemma runs_loop n skip attempt adjust u r fuel :
  runs n skip attempt adjust u r -> (n < fuel)%nat -> unwind_loop L os P fuel suffixes skip attempt adjust u = r.
Proof.
  intros Hr. revert fuel. induction Hr as [u skip a b Hm|u skip a b e Hm Hi|u skip a b u' Hm Hi|u skip a b u' skip' a' n r Hm Hi _ IH];
    intros [|fuel] Hf; try lia; cbn [unwind_loop]; rewrite bind_get.
  - destruct (Z.ltb_spec (num_frames u) (max_frames_ u)); [lia|done].
  - destruct (Z.ltb_spec (num_frames u) (max_frames_ u)); [|lia]. unfold bind. by rewrite Hi.
  - destruct (Z.ltb_spec (num_frames u) (max_frames_ u)); [|lia]. by rewrite (bind_run _ _ _ _ _ Hi).
  - destruct (Z.ltb_spec (num_frames u) (max_frames_ u)); [|lia]. rewrite (bind_run _ _ _ _ _ Hi). apply IH. lia.
Qed.

(** [n] iterations, from the variables of the loop to those of a later iteration. *)
Inductive reaches : nat -> names -> bool -> bool -> Unwinder -> names -> bool -> bool -> Unwinder -> Prop :=
| reaches_here u skip attempt adjust : reaches 0 skip attempt adjust u skip attempt adjust u
| reaches_next u skip attempt adjust u1 skip1 attempt1 n u' skip' attempt' adjust' :
    num_frames u < max_frames_ u -> iteration L os P suffixes skip attempt adjust u = Done (Some (skip1, attempt1), u1) ->
    reaches n skip1 attempt1 true u1 skip' attempt' adjust' u' -> reaches (S n) skip attempt adjust u skip' attempt' adjust' u'.

(** The loop has no fault of its own: a fault is that of one of its iterations. *)
Definition iteration_faults (n : nat) skip u (e : fault) : Prop :=
  exists m skip' attempt' adjust' u', (m < n)%nat /\ reaches m skip false false u skip' attempt' adjust' u' /\
    num_frames u' < max_frames_ u' /\ iteration L os P suffixes skip' attempt' adjust' u' = Fault e.

Lemma runs_Fault n skip attempt adjust u e :
  runs n skip attempt adjust u (Fault e) ->
  exists m skip' attempt' adjust' u', (m < n)%nat /\ reaches m skip attempt adjust u skip' attempt' adjust' u' /\
    num_frames u' < max_frames_ u' /\ iteration L os P suffixes skip' attempt' adjust' u' = Fault e.
Proof.
  intros Hr. remember (Fault e) as r eqn:Er. induction Hr as [| | |u skip a b u1 skip1 a1 n r Hm Hi _ IH]; try discriminate Er.
  - injection Er as ->. exists 0%nat. do 4 eexists. split; [lia|]. split; [by constructor|]. done.
  - destruct (IH Er) as (m & s' & a' & b' & u' & Hmn & Hre & Hfault). exists (S m), s', a', b', u'. split; [lia|]. split; [|done].
    by eapply reaches_next.
Qed.

(** * What an iteration does to the frames *)

(** Everything but the registers, the error and the world. *)
Definition keeps u u' : Prop := frames_ u' = frames_ u /\ max_frames_ u' = max_frames_ u.
Definition keeps_regs u u' : Prop := keeps u u' /\ u_regs u' = u_regs u.

Definition numbered (n : Z) (l : list FrameData) : Prop := forall i f, l !! i = Some f -> f_num f = n + Z.of_nat i.

Lemma numbered_app n l1 l2 : numbered n l1 -> numbered (n + Z.of_nat (length l1)) l2 -> numbered n (l1 ++ l2).
Proof.
  intros H1 H2 i f Hi. apply lookup_app_Some in Hi as [Hi|[Hle Hi]]; [by apply H1|]. rewrite (H2 _ _ Hi). lia.
Qed.

Lemma numbered_one n f : f_num f = n -> numbered n [f].
Proof. intros <- i f' Hi. apply list_lookup_singleton_Some in Hi as [-> ->]. lia. Qed.

Lemma wp_in_world {B} (m : MW B) (Q : B -> Unwinder -> Prop) u :
  (forall r w, Q r (put_world w u)) -> wp any_fault (in_world m) Q u.
Proof. intros HQ. unfold in_world, wp, zoom. destruct (m (u_world u)) as [[r w]|e]; [apply HQ|done]. Qed.

Lemma wp_find_map pc (Q : option Z -> Unwinder -> Prop) u :
  (forall r w, Q r (put_world w u)) -> wp any_fault (find_map pc) Q u.
Proof. apply wp_in_world. Qed.

Lemma wp_cur_pc (Q : Z -> Unwinder -> Prop) u :
  (forall v, reg_at (pc_reg (u_regs u)) (u_regs u) = Some v -> Q v u) -> wp any_fault cur_pc Q u.
Proof. intros HQ. unfold cur_pc, read_reg. wp_simpl. destruct (reg_at _ _) eqn:E; [by apply HQ|done]. Qed.

Lemma wp_cur_sp (Q : Z -> Unwinder -> Prop) u :
  (forall v, reg_at (sp_reg (u_regs u)) (u_regs u) = Some v -> Q v u) -> wp any_fault cur_sp Q u.
Proof. intros HQ. unfold cur_sp, read_reg. wp_simpl. destruct (reg_at _ _) eqn:E; [by apply HQ|done]. Qed.

Lemma wp_dex_method k pc (Q : option (list byte * Z) -> Unwinder -> Prop) u :
  Q None u -> (forall r d w, Q r (put_dex_files d w u)) -> wp any_fault (dex_method_information L os P k pc) Q u.
Proof.
  intros Hn Hs. unfold wp, dex_method_information. destruct (dex_files_ u) as [d|]; [|done].
  destruct (GetMethodInformation L os P k pc (d, u_world u)) as [[r [d' w]]|e]; [apply Hs|done].
Qed.

Lemma wp_jit_elf pc (Q : option Z -> Unwinder -> Prop) u :
  Q None u -> (forall r j w, Q r (put_jit j w u)) -> wp any_fault (jit_elf os P pc) Q u.
Proof.
  intros Hn Hs. unfold wp, jit_elf. destruct (jit_debug_ u) as [j|]; [|done].
  destruct (jit_GetElf os P pc (j, u_world u)) as [[r [j' w]]|e]; [apply Hs|done].
Qed.

Ltac simp := wp_simpl; cbv zeta.
Ltac next := first [progress (wp_simpl; cbv zeta) | apply wp_in_world; intros ?r ?w | apply wp_find_map; intros ?r ?w
  | apply wp_cur_pc; intros ?pc ?Hpc | apply wp_cur_sp; intros ?sp ?Hsp | apply wp_jit_elf; [|intros ?r ?j ?w] | apply wp_dex_method; [|intros ?r ?d ?w] | case_goal].

Lemma locate_in_map_spec adjust k u :
  wp any_fault (locate_in_map os P adjust k)
    (fun p u' => keeps_regs u u' /\ ps_map p <> None /\ (adjust = false -> ps_adjustment p = 0)) u.
Proof. unfold locate_in_map. repeat next; split_and!; try done; intros ->; done. Qed.

Lemma locate_spec adjust u :
  wp any_fault (locate os P adjust suffixes)
    (fun p u' => keeps_regs u u' /\
       match p with Some p => adjust = false -> ps_adjustment p = 0 | None => default [] suffixes <> [] end) u.
Proof.
  unfold locate. next. next. next. next. destruct r as [k|].
  - next. next. destruct (ShouldStop _ _) eqn:E.
    + split; [done|]. intros Hs. unfold ShouldStop in E. destruct suffixes as [[|]|]; [|done|done]. by destruct (after_last _ _).
    + next. eapply wp_mono; [apply locate_in_map_spec|done|]. cbn beta. intros p u' (Hk & _ & Ha). next. done.
  - unfold set_error_code. repeat next. done.
Qed.

Lemma FillInDexFrame_spec u :
  wp any_fault (FillInDexFrame L os P)
    (fun _ u' => exists f, frames_ u' = frames_ u ++ [f] /\ f_num f = num_frames u /\
       max_frames_ u' = max_frames_ u /\ u_regs u' = u_regs u) u.
Proof.
  unfold FillInDexFrame, push_frame. repeat next; eexists; split_and!; try reflexivity.
Qed.

Lemma FillInFrame_spec map rel_pc adj u :
  wp any_fault (FillInFrame P map rel_pc adj)
    (fun _ u' => exists f, frames_ u' = frames_ u ++ [f] /\ f_num f = num_frames u /\
       max_frames_ u' = max_frames_ u /\ u_regs u' = u_regs u /\
       reg_at (sp_reg (u_regs u)) (u_regs u) = Some (f_sp f) /\
       exists pc, reg_at (pc_reg (u_regs u)) (u_regs u) = Some pc /\ f_pc f = u64 (pc - adj)) u.
Proof.
  unfold FillInFrame, push_frame. repeat next; eexists; split_and!; try reflexivity; try eassumption; eexists; split; try eassumption; reflexivity.
Qed.

(** The frames that an iteration adds, when nothing is skipped. *)
Definition adds u (n : nat) u' : Prop :=
  exists l, frames_ u' = frames_ u ++ l /\ length l = n /\ numbered (num_frames u) l /\ max_frames_ u' = max_frames_ u.

Definition frames_added p u (r : option (bool * names)) u' : Prop :=
  match r with
  | None => adds u 1 u' /\ dex_pc_ (u_regs u) <> 0
  | Some (_, skip) => skip = None /\ exists l f, frames_ u' = frames_ u ++ l ++ [f] /\ numbered (num_frames u) (l ++ [f]) /\
      max_frames_ u' = max_frames_ u /\ num_frames u' <= max_frames_ u /\
      (dex_pc_ (u_regs u) = 0 -> l = [] /\ reg_at (sp_reg (u_regs u)) (u_regs u) = Some (f_sp f) /\
         exists pc, reg_at (pc_reg (u_regs u)) (u_regs u) = Some pc /\ f_pc f = u64 (pc - ps_adjustment p))
  end.

Lemma add_frames_none p u :
  num_frames u < max_frames_ u -> wp any_fault (add_frames L os P p None) (frames_added p u) u.
Proof.
  intros Hn. unfold add_frames. replace (match ps_map p with Some (_, _) | _ => ret false end) with (ret (S := Unwinder) false)
    by by destruct (ps_map p) as [[]|]. wp_simpl. destruct (Z.eqb_spec (dex_pc_ (u_regs u)) 0) as [Hd|Hd].
  { wp_simpl. eapply wp_mono; [apply FillInFrame_spec|done|]. cbn beta. unfold frames_added. intros b u' (f & Hf & Hnum & Hmax & _ & Hsp & Hpc).
    wp_simpl. split; [done|]. exists [], f. unfold num_frames in *. rewrite Hf, length_app, Nat2Z.inj_add. simpl.
    split_and!; [done|by apply numbered_one|done|lia|]. intros _. done. }
  wp_simpl. eapply wp_mono; [apply FillInDexFrame_spec|done|]. cbn beta. intros _ u1 (d & Hf1 & Hnum1 & Hmax1 & Hr1). wp_simpl.
  destruct (Z.eqb_spec (num_frames (put_u_regs (set_dex_pc 0 (u_regs u1)) u1)) (max_frames_ (put_u_regs (set_dex_pc 0 (u_regs u1)) u1))) as [E|E].
  { unfold set_error_code. wp_simpl. split; [|done]. exists [d]. split_and!; [done|done|by apply numbered_one|done]. }
  eapply wp_mono; [apply FillInFrame_spec|done|]. cbn beta. intros b u' (f & Hf & Hnum & Hmax & _). wp_simpl. split; [done|].
  cbn in E, Hf, Hnum, Hmax. exists [d], f. unfold num_frames in *. cbn in *. rewrite Hf, Hf1 in *. rewrite !length_app, !Nat2Z.inj_add in *. simpl in *.
  split_and!; [by rewrite <- app_assoc| |by rewrite Hmax|lia|done].
  apply (numbered_app _ [d] [f]); apply numbered_one; [done|]. simpl. lia.
Qed.

(** No maps to skip are the same as none. *)
Lemma add_frames_nil p (Q : option (bool * names) -> Unwinder -> Prop) u :
  (forall w, wp any_fault (add_frames L os P p None) Q (put_world w u)) -> wp any_fault (add_frames L os P p (Some [])) Q u.
Proof.
  unfold add_frames. intros HQ. destruct (ps_map p) as [[k e]|].
  - rewrite !(wp_bind any_fault _ _ _ u). apply wp_in_world. intros info w. rewrite wp_ret.
    rewrite bool_decide_eq_false_2 by apply not_elem_of_nil. exact (HQ w).
  - specialize (HQ (u_world u)). by destruct u.
Qed.

Lemma add_frames_spec p skip u :
  default [] skip = [] -> num_frames u < max_frames_ u -> wp any_fault (add_frames L os P p skip) (frames_added p u) u.
Proof.
  intros Hskip Hn. destruct skip as [[|]|]; [|done|by apply add_frames_none]. apply add_frames_nil. intros w.
  exact (add_frames_none p (put_world w u) Hn).
Qed.

(** A frame whose function, or whose pc after a signal frame, was changed. *)
Definition like adj f f' : Prop :=
  f_num f' = f_num f /\ f_sp f' = f_sp f /\ (f_pc f' = f_pc f \/ f_pc f' = u64 (f_pc f + adj)).

Lemma like_refl adj f : like adj f f.
Proof. unfold like. auto. Qed.

Definition ends_like adj (l : list FrameData) f u u' : Prop :=
  max_frames_ u' = max_frames_ u /\ exists f', frames_ u' = l ++ [f'] /\ like adj f f'.

Lemma wp_update_last g l f (Q : unit -> Unwinder -> Prop) u :
  frames_ u = l ++ [f] -> Q tt (put_frames (l ++ [g f]) u) -> wp any_fault (update_last g) Q u.
Proof. intros Hf HQ. unfold update_last. wp_simpl. rewrite Hf, last_snoc, removelast_last. exact HQ. Qed.

Lemma step_elf_spec p e frame l f u :
  frames_ u = l ++ [f] ->
  wp any_fault (step_elf P p e frame) (fun _ u' => ends_like (ps_adjustment p) l f u u') u.
Proof.
  intros Hf. unfold step_elf. simp. apply wp_in_world. intros [signal regs] w. simp. destruct signal.
  - destruct frame.
    + simp. eapply wp_update_last; [exact Hf|]. simp. apply wp_in_world. intros err w'. simp.
      split; [done|]. eexists. split; [done|]. unfold like. cbn. auto.
    + simp. apply wp_in_world. intros err w'. simp. split; [done|]. exists f. split; [exact Hf|apply like_refl].
  - simp. apply wp_in_world. intros [[ok regs'] fin] w1. simp. apply wp_in_world. intros err w'. simp.
    split; [done|]. exists f. split; [exact Hf|apply like_refl].
Qed.

Lemma step_spec p frame l f u :
  frames_ u = l ++ [f] -> wp any_fault (step P p frame) (fun _ u' => ends_like (ps_adjustment p) l f u u') u.
Proof.
  intros Hf. assert (forall w w', ends_like (ps_adjustment p) l f u (put_world w (put_world w' u))) as Hsame.
  { intros w w'. split; [done|]. exists f. split; [exact Hf|apply like_refl]. }
  unfold step, is_device_map. destruct (ps_map p) as [[k e]|]; [|simp; split; [done|]; exists f; split; [exact Hf|apply like_refl]].
  repeat next; try apply (Hsame _ (u_world u)).
  all: try (eapply wp_mono; [apply (step_elf_spec _ _ _ l f); exact Hf|done|]; cbn beta;
            intros [[stepped fin] spc] u' Hu'; simp; exact Hu').
Qed.

Lemma name_frame_spec e step_pc adj l f0 f u :
  frames_ u = l ++ [f] -> like adj f0 f -> wp any_fault (name_frame P e step_pc) (fun _ u' => ends_like adj l f0 u u') u.
Proof.
  intros Hf Hl. unfold name_frame. simp. destruct (resolve_names_ u).
  - apply wp_in_world. intros [[name offset]|] w; (eapply wp_update_last; [exact Hf|]); (split; [done|]); eexists; (split; [done|]); exact Hl.
  - simp. eapply wp_update_last; [exact Hf|]. split; [done|]. eexists. split; [done|]. exact Hl.
Qed.

Lemma after_step_spec attempt stepped device u :
  wp any_fault (after_step attempt stepped device)
    (fun r u' => max_frames_ u' = max_frames_ u /\
       (frames_ u' = frames_ u \/ (r = None /\ attempt = true /\ frames_ u' = removelast (frames_ u)))) u.
Proof.
  unfold after_step, set_error_code. repeat next; first [exact I|split; [done|]; first [by auto|right; cbn; by repeat match goal with H : frames_ u = _ |- _ => rewrite H end]].
Qed.

Definition iteration_post attempt adjust u (r : option (names * bool)) u' : Prop :=
  max_frames_ u' = max_frames_ u /\
  exists l, frames_ u' = frames_ u ++ l /\ numbered (num_frames u) l /\ num_frames u' <= max_frames_ u /\
    match r with Some (skip, _) => skip = None /\ l <> [] | None => True end /\
    (dex_pc_ (u_regs u) = 0 -> default [] suffixes = [] -> attempt = false -> adjust = false ->
       exists f pc, l = [f] /\ reg_at (sp_reg (u_regs u)) (u_regs u) = Some (f_sp f) /\
         reg_at (pc_reg (u_regs u)) (u_regs u) = Some pc /\ f_pc f = u64 pc).

Lemma numbered_like adj n l f f' : numbered n (l ++ [f]) -> like adj f f' -> numbered n (l ++ [f']).
Proof.
  intros Hn [Hl _] i g Hg. apply lookup_app_Some in Hg as [Hg|[Hle Hg]]; [apply Hn; by apply lookup_app_l_Some|].
  apply list_lookup_singleton_Some in Hg as [Hi <-]. rewrite Hl. apply Hn. rewrite lookup_app_r by done. by rewrite Hi.
Qed.

Lemma numbered_prefix n l l' : numbered n (l ++ l') -> numbered n l.
Proof. intros Hn i f Hi. apply Hn. by apply lookup_app_l_Some. Qed.

(** The end of an iteration that has added the frames [l ++ [f]]. *)
Lemma iteration_end attempt adjust u l f p u' r :
  numbered (num_frames u) (l ++ [f]) -> num_frames u + Z.of_nat (length l) + 1 <= max_frames_ u ->
  (adjust = false -> ps_adjustment p = 0) ->
  (dex_pc_ (u_regs u) = 0 -> l = [] /\ reg_at (sp_reg (u_regs u)) (u_regs u) = Some (f_sp f) /\
     exists pc, reg_at (pc_reg (u_regs u)) (u_regs u) = Some pc /\ f_pc f = u64 (pc - ps_adjustment p)) ->
  max_frames_ u' = max_frames_ u -> match r with Some (skip, _) => skip = None | None => True end ->
  (exists f', frames_ u' = frames_ u ++ l ++ [f'] /\ like (ps_adjustment p) f f') \/
    (r = None /\ attempt = true /\ frames_ u' = frames_ u ++ l) ->
  iteration_post attempt adjust u r u'.
Proof.
  intros Hnum Hle Hadj Hfirst Hmax Hr [(f' & Hf & Hl)|(-> & -> & Hf)]; (split; [done|]).
  - exists (l ++ [f']). split_and!; [done|by eapply numbered_like| | |].
    + unfold num_frames in *. rewrite Hf, !length_app. simpl. lia.
    + destruct r as [[? ?]|]; [|done]. split; [done|]. by destruct l.
    + intros Hd _ _ Ha. destruct (Hfirst Hd) as (-> & Hsp & pc & Hpc & Hfpc). exists f', pc. destruct Hl as (_ & -> & Hl).
      rewrite Hadj, Z.sub_0_r in * by done. split_and!; [done|done|done|].
      destruct Hl as [->| ->]; [done|]. rewrite Hfpc, Z.add_0_r. by apply wrap_idemp.
  - exists l. split_and!; [done|by eapply numbered_prefix| |done|done].
    unfold num_frames in *. rewrite Hf, length_app. lia.
Qed.

(** An iteration without maps to skip: the loop goes on only after it has added a frame. *)
Lemma iteration_spec skip attempt adjust u :
  default [] skip = [] -> num_frames u < max_frames_ u ->
  wp any_fault (iteration L os P suffixes skip attempt adjust) (iteration_post attempt adjust u) u.
Proof.
  intros Hskip Hn. unfold iteration. simp. apply wp_cur_pc. intros pc Hpc. simp. apply wp_cur_sp. intros sp Hsp. simp.
  eapply wp_mono; [apply locate_spec|done|]. cbn beta. intros [p|] u1 [[[Hf1 Hm1] Hr1] Hp].
  2:{ split; [done|]. exists []. rewrite app_nil_r. unfold num_frames in *. rewrite Hf1.
      split_and!; [done|intros ? ? ?; by rewrite lookup_nil in *|lia|done|done]. }
  assert (num_frames u1 < max_frames_ u1) as Hn1 by (unfold num_frames in *; by rewrite Hf1, Hm1).
  simp. eapply wp_mono; [by apply add_frames_spec|done|].
  cbn beta. intros [[frame skip']|] u2 Hadd.
  2:{ destruct Hadd as [(l & Hf2 & Hlen & Hnum & Hm2) Hd]. split; [by rewrite Hm2|]. exists l. unfold num_frames in *.
      rewrite Hf2, Hf1, length_app, Hlen in *. split_and!; [done|done|lia|done|]. rewrite Hr1 in Hd. done. }
  destruct Hadd as (-> & l & f & Hf2 & Hnum & Hm2 & Hle & Hfirst). simp.
  eapply wp_mono; [apply (step_spec p frame (frames_ u1 ++ l) f); by rewrite Hf2, app_assoc|done|].
  cbn beta. intros [[[stepped device] fin] spc] u3 (Hm3 & f3 & Hf3 & Hl3). simp.
  rewrite Hm1, Hr1, Hf1 in *. unfold num_frames in Hnum, Hle. rewrite Hf1, Hf2, !length_app, !Nat2Z.inj_add in *. simpl in Hle.
  assert (num_frames u + Z.of_nat (length l) + 1 <= max_frames_ u) as Hroom by (unfold num_frames; lia).
  assert (forall r u', max_frames_ u' = max_frames_ u -> match r with Some (skip, _) => skip = None | None => True end ->
    (exists f', frames_ u' = (frames_ u ++ l) ++ [f'] /\ like (ps_adjustment p) f f') \/
      (r = None /\ attempt = true /\ frames_ u' = frames_ u ++ l) -> iteration_post attempt adjust u r u') as Hend.
  { intros r u' Hmax Hr Hf. apply (iteration_end _ _ _ l f p); try done.
    destruct Hf as [(f' & Hf & ?)|?]; [left; exists f'; by rewrite app_assoc|by right]. }
  clear Hnum Hfirst Hroom. rewrite Hm2 in Hm3.
  eapply (wp_mono any_fault _ _ (fun _ u4 => ends_like (ps_adjustment p) (frames_ u ++ l) f u3 u4)); [|done|].
  { destruct (ps_map p) as [[k e]|]; [destruct frame|]; [by eapply name_frame_spec|..]; simp; (split; [done|]); by exists f3. }
  cbn beta. intros _ u4 (Hm4 & f4 & Hf4 & Hl4). rewrite Hm3 in Hm4. destruct fin; simp.
  { apply Hend; [done|done|]. left. by exists f4. }
  eapply wp_mono; [apply after_step_spec|done|]. cbn beta. intros [attempt'|] u5 [Hm5 Hf5].
  2:{ apply Hend; [by rewrite Hm5|done|]. destruct Hf5 as [Hf5|(_ & Ha & Hf5)]; rewrite Hf5, Hf4; [left; by exists f4|].
      right. by rewrite removelast_last. }
  destruct Hf5 as [Hf5|(? & _)]; [|done]. simp. apply wp_cur_pc. intros pc' _. simp. apply wp_cur_sp. intros sp' _. simp.
  destruct (_ && _); [unfold set_error_code; simp|]; (apply Hend; [cbn; by rewrite Hm5|done|left; exists f4; cbn; by rewrite Hf5]).
Qed.

(** * The whole loop *)

Lemma loop_runs k skip attempt adjust u :
  default [] skip = [] -> max_frames_ u - num_frames u <= Z.of_nat k ->
  exists n r, (n <= k)%nat /\ runs n skip attempt adjust u r /\
    match r with
    | Done (_, u') => max_frames_ u' = max_frames_ u /\ exists l, frames_ u' = frames_ u ++ l /\ numbered (num_frames u) l /\
        num_frames u' <= Z.max (num_frames u) (max_frames_ u)
    | Fault _ => True
    end.
Proof.
  revert skip attempt adjust u. induction k as [|k IH]; intros skip attempt adjust u Hskip Hk.
  all: destruct (Z.ltb_spec (num_frames u) (max_frames_ u)) as [Hlt|Hge].
  1: lia.
  1,3: exists 0%nat, (Done (tt, u)); split; [lia|]; split; [by constructor|]; split; [done|]; exists []; rewrite app_nil_r;
       split_and!; [done|intros ? ? ?; by rewrite lookup_nil in *|lia].
  pose proof (iteration_spec skip attempt adjust u Hskip Hlt) as Hit. unfold wp in Hit.
  destruct (iteration L os P suffixes skip attempt adjust u) as [[[[skip' attempt']|] u']|e] eqn:E.
  - destruct Hit as (Hm & l & Hf & Hnum & Hle & (-> & Hl) & _). destruct (IH None attempt' true u') as (n & r & Hn & Hr & Hpost); [done|..].
    { unfold num_frames in *. rewrite Hm, Hf, length_app in *. destruct l; [done|]. simpl. lia. }
    exists (S n), r. split; [lia|]. split; [by econstructor|]. destruct r as [[? u'']|]; [|done].
    destruct Hpost as (Hm' & l' & Hf' & Hnum' & Hle'). rewrite Hm' in *. split; [done|]. exists (l ++ l').
    rewrite Hf', Hf, app_assoc. split_and!; [done| |].
    + apply numbered_app; [done|]. intros i f Hi. rewrite (Hnum' i f Hi). unfold num_frames. rewrite Hf, length_app. lia.
    + unfold num_frames in *. lia.
  - exists 1%nat, (Done (tt, u')). split; [lia|]. split; [by constructor|]. destruct Hit as (Hm & l & Hf & Hnum & Hle & _).
    split; [done|]. exists l. split_and!; [done|done|lia].
  - exists 1%nat, (Fault e). split; [lia|]. split; [by constructor|done].
Qed.

(** The first frame is that of the registers. *)
Definition first_frame u (l : list FrameData) : Prop :=
  exists f rest pc, l = f :: rest /\ f_num f = 0 /\ reg_at (sp_reg (u_regs u)) (u_regs u) = Some (f_sp f) /\
    reg_at (pc_reg (u_regs u)) (u_regs u) = Some pc /\ f_pc f = u64 pc.

Lemma first_iteration skip u u' r :
  default [] skip = [] -> frames_ u = [] -> 0 < max_frames_ u -> dex_pc_ (u_regs u) = 0 -> default [] suffixes = [] ->
  iteration L os P suffixes skip false false u = Done (r, u') -> first_frame u (frames_ u').
Proof.
  intros Hskip Hf Hm Hd Hs E. pose proof (iteration_spec skip false false u Hskip) as Hit. unfold wp, num_frames in Hit. rewrite Hf, E in Hit.
  destruct (Hit ltac:(simpl; lia)) as (_ & l & Hl & Hnum & _ & _ & Hfirst).
  destruct (Hfirst Hd Hs eq_refl eq_refl) as (f & pc & -> & Hsp & Hpc & Hfpc). exists f, [], pc. rewrite Hl, Hf.
  unfold num_frames in Hnum. rewrite Hf in Hnum. split_and!; try done. apply (Hnum 0%nat f). done.
Qed.

Lemma loop_first n skip u u' :
  default [] skip = [] -> frames_ u = [] -> 0 < max_frames_ u -> dex_pc_ (u_regs u) = 0 -> default [] suffixes = [] ->
  runs n skip false false u (Done (tt, u')) -> first_frame u (frames_ u').
Proof.
  intros Hskip Hf Hm Hd Hs Hr. assert (num_frames u = 0) as Hn by (unfold num_frames; by rewrite Hf).
  inversion Hr; subst; [lia|by eapply (first_iteration skip)|].
  match goal with H : iteration _ _ _ _ _ _ _ _ = Done (Some (?skip', ?a), ?v), H' : runs ?k _ _ _ _ _ |- _ =>
    pose proof (first_iteration skip u v _ Hskip Hf Hm Hd Hs H) as (f & rest & pc & Hl & Hrest);
    pose proof (iteration_spec skip false false u Hskip) as Hit; unfold wp in Hit; rewrite H in Hit;
    destruct (Hit ltac:(lia)) as (_ & ? & _ & _ & _ & [-> _] & _);
    destruct (loop_runs (Z.to_nat (max_frames_ v - num_frames v)) None a true v) as (k' & r' & _ & Hr' & Hpost); [done|lia|];
    rewrite <- (runs_loop _ _ _ _ _ _ (S (k + k')) Hr'), (runs_loop _ _ _ _ _ _ (S (k + k')) H') in Hpost by lia end.
  destruct Hpost as (_ & l' & Hl' & _). rewrite Hl' , Hl. by exists f, (rest ++ l'), pc.
Qed.
End Loop.

(** * Theorems *)

Definition reset u : Unwinder := put_from_memory false (put_last_error (mkErrorData ERROR_NONE 0) (put_frames [] u)).

(** Without maps to skip, from the state that [reset_unwind] leaves. *)
Lemma unwind_run L os P skip suffixes u :
  default [] skip = [] ->
  exists n r, Z.of_nat n <= Z.max 0 (max_frames_ u) /\
    runs L os P suffixes n skip false false (reset u) r /\
    match r with
    | Done (_, u') => num_frames u' <= Z.max 0 (max_frames_ u) /\ numbered 0 (frames_ u') /\
        (0 < max_frames_ u -> dex_pc_ (u_regs u) = 0 -> default [] suffixes = [] -> first_frame u (frames_ u'))
    | Fault e => iteration_faults L os P suffixes n skip (reset u) e
    end.
Proof.
  intros Hskip. destruct (loop_runs L os P suffixes (Z.to_nat (max_frames_ u)) skip false false (reset u) Hskip) as (n & r & Hn & Hr & Hpost).
  { unfold num_frames. cbn. lia. }
  exists n, r. split; [lia|]. split; [done|]. destruct r as [[[] u']|e]; [|by apply runs_Fault]. destruct Hpost as (_ & l & Hl & Hnum & Hle). cbn in Hl.
  rewrite Hl. unfold num_frames in *. cbn in Hle. split_and!; [lia|done|]. intros Hm Hd Hs. rewrite <- Hl.
  by apply (loop_first L os P suffixes n skip (reset u)).
Qed.

Lemma unwind_runs L os P skip suffixes n u r fuel :
  runs L os P suffixes n skip false false (reset u) r -> (n < fuel)%nat -> Unwind L os P fuel skip suffixes u = r.
Proof. intros Hr Hf. unfold Unwind, reset_unwind. rewrite bind_modify. by apply (runs_loop _ _ _ _ n). Qed.

(** C7. Without maps to skip the loop over the frames is bounded: whatever the process and its files
    contain, it has at most as many iterations as there may be frames. When all of these end, so does the unwind: there
    are never more frames than that, they are numbered from 0, and the first one is that of the registers, with an
    exact pc. Otherwise the fault is that of an iteration that was reached; a step in it whose own loops
    do not end ([cfa_block_wrap_diverges], [symbols_entry_size_zero_diverges], a cyclic list of JIT entries) is
    one that runs out of fuel. *)
Theorem unwind_frames_bounded L os P skip suffixes u (Hskip : default [] skip = []) :
  exists n r, Z.of_nat n <= Z.max 0 (max_frames_ u) /\
    runs L os P suffixes n skip false false (reset u) r /\
    (forall fuel, (n < fuel)%nat -> Unwind L os P fuel skip suffixes u = r) /\
    match r with
    | Done (_, u') => num_frames u' <= Z.max 0 (max_frames_ u) /\ numbered 0 (frames_ u') /\
        (0 < max_frames_ u -> dex_pc_ (u_regs u) = 0 -> default [] suffixes = [] -> first_frame u (frames_ u'))
    | Fault e => iteration_faults L os P suffixes n skip (reset u) e
    end.
Proof.
  destruct (unwind_run L os P skip suffixes u Hskip) as (n & r & Hn & Hr & Hpost). exists n, r. split; [done|]. split; [done|]. split; [|done].
  intros fuel Hfuel. by apply (unwind_runs _ _ _ _ _ n).
Qed.

(** * Skipped maps *)

Section SkipLoop.
Context (L : dexlib) (os : system) (P : params).
(** Two signal frames, at [sp] and [sp'], in a map that is skipped: each returns to the trampoline at
    0x1040 with the stack of the other. *)
Context (elf_mem process_mem : Memory) (name : list byte).

Definition trampoline_elf : Elf :=
  mkElfObject true 0 (Some (Interface U64 (new_ElfInterface elf_mem))) (Some elf_mem) EM_X86_64 ELFCLASS64 ARCH_X86_64 None None false.

Definition trampoline_world : World :=
  mkWorld (mkMaps {[0 := put_map_elf 0 (new_MapInfo None 0x1000 0x2000 0 5 name)]} 1 [Some 0] []) {[0 := trampoline_elf]} 1 false ∅.

Definition trampoline_regs (sp : Z) : Regs :=
  put_reg RegsX86_64.X86_64_REG_RIP 0x1040 (put_reg RegsX86_64.X86_64_REG_RSP sp RegsX86_64.new).

Definition trampoline_unwinder (sp : Z) : Unwinder :=
  mkUnwinder 16 ARCH_X86_64 (trampoline_regs sp) [] process_mem None None true true false false (mkErrorData ERROR_NONE 0) trampoline_world.

(** The words of the context that the handler restores. *)
Definition signal_context (sp : Z) : list Z := replicate 15 0 ++ [sp; 0x1040] ++ replicate 6 0.

Context (Hcode : read_value elf_mem 0x40 8 = Some 0x0f0000000fc0c748) (Hcode2 : read_value elf_mem 0x48 2 = Some 0x0f05).

Context (Hname : basename (c_str name) = name).

Lemma trampoline_locate adjust sp :
  exists p, ps_map p = Some (0, 0) /\ ps_rel_pc p = 0x40 /\
    locate os P adjust None (trampoline_unwinder sp) = Done (Some p, trampoline_unwinder sp).
Proof.
  exists (mkPosition (Some (0, 0)) 0x40 (if adjust then 1 else 0) (if adjust then 0x3f else 0x40)).
  by destruct adjust; split_and!; try reflexivity.
Qed.

Lemma trampoline_skipped p sp :
  ps_map p = Some (0, 0) ->
  add_frames L os P p (Some [name]) (trampoline_unwinder sp) = Done (Some (false, Some [name]), trampoline_unwinder sp).
Proof.
  intros Hp. unfold add_frames. rewrite Hp.
  rewrite (bind_run _ _ true (trampoline_unwinder sp) (trampoline_unwinder sp)); [done|].
  rewrite (bind_run _ _ (put_map_elf 0 (new_MapInfo None 0x1000 0x2000 0 5 name)) _ (trampoline_unwinder sp)) by reflexivity.
  cbn [map_name put_map_elf new_MapInfo]. rewrite Hname, bool_decide_eq_true_2 by (by left). done.
Qed.

Lemma trampoline_stack sp : 0x2000 <= sp -> find_map sp (trampoline_unwinder sp) = Done (None, trampoline_unwinder sp).
Proof.
  intros Hs. transitivity (if (0x1000 <=? sp) && (sp <? 0x2000) then Done (Some 0, trampoline_unwinder sp)
                           else if sp <? 0x1000 then Done (None, trampoline_unwinder sp) else Done (None, trampoline_unwinder sp)).
  - unfold find_map, in_world, on_maps, zoom. cbn [u_world trampoline_unwinder w_maps trampoline_world].
    unfold Find. rewrite bind_get. change (total_maps _) with 1. change (1 =? 0) with false.
    cbn [length maps_ find_loop]. change (0 <? 1) with true. cbv zeta iota. change (u64 (0 + 1) / 2) with 0.
    rewrite (bind_run _ _ (Some 0) _ (w_maps trampoline_world)) by reflexivity.
    rewrite (bind_run _ _ (put_map_elf 0 (new_MapInfo None 0x1000 0x2000 0 5 name)) _ (w_maps trampoline_world)) by reflexivity.
    cbn [map_start map_end put_map_elf new_MapInfo]. by destruct ((4096 <=? sp) && (sp <? 8192)), (sp <? 4096).
  - destruct (Z.leb_spec 0x1000 sp), (Z.ltb_spec sp 0x2000); try lia. by destruct (sp <? 4096).
Qed.

Lemma trampoline_signal sp sp' :
  0 <= sp < 2 ^ 63 ->
  read_struct RegsX86_64.mcontext_widths process_mem (sp + 0x28) = Some (signal_context sp') ->
  RegsArch.StepIfSignalHandler ARCH_X86_64 0x40 elf_mem process_mem (trampoline_regs sp) = Done (true, trampoline_regs sp').
Proof.
  intros Hsp Hctx. cbn [RegsArch.StepIfSignalHandler]. unfold RegsX86_64.StepIfSignalHandler. rewrite Hcode, Z.eqb_refl. cbn [negb].
  change (u64 (64 + 8)) with 0x48. rewrite Hcode2, Z.eqb_refl. cbn [negb].
  rewrite (bind_run _ _ sp _ (trampoline_regs sp)) by reflexivity. rewrite (wrap_small 64) by (unfold in_u; lia). rewrite Hctx.
  reflexivity.
Qed.

Lemma trampoline_step p sp sp' :
  ps_map p = Some (0, 0) -> ps_rel_pc p = 0x40 -> (0x2000 <= sp < 2 ^ 63) ->
  read_struct RegsX86_64.mcontext_widths process_mem (sp + 0x28) = Some (signal_context sp') ->
  step P p false (trampoline_unwinder sp) = Done ((true, false, false, ps_step_pc p), trampoline_unwinder sp').
Proof.
  intros Hp Hrel Hsp Hctx. unfold step. rewrite Hp.
  rewrite (bind_run _ _ false _ (trampoline_unwinder sp)) by reflexivity.
  rewrite (bind_run _ _ sp _ (trampoline_unwinder sp)) by reflexivity.
  rewrite (bind_run _ _ None _ (trampoline_unwinder sp)) by (apply trampoline_stack; lia).
  rewrite (bind_run _ _ false _ (trampoline_unwinder sp)) by reflexivity.
  rewrite (bind_run _ _ (true, false, ps_step_pc p) _ (trampoline_unwinder sp')); [done|].
  unfold step_elf. rewrite bind_get. rewrite (bind_run _ _ (true, trampoline_regs sp') _ (trampoline_unwinder sp)).
  2:{ unfold in_world, on_elf, zoom. change (elfs (u_world (trampoline_unwinder sp)) !! 0) with (Some trampoline_elf). cbv iota.
      unfold elf_StepIfSignalHandler. rewrite bind_get, Hrel. change (negb (valid_ trampoline_elf)) with false. cbv iota.
      cbn [u_arch trampoline_unwinder u_regs process_memory_ elf_memory trampoline_elf memory_or_empty default].
      unfold lift. change (id elf_mem) with elf_mem. by rewrite (trampoline_signal sp sp') by (done || lia). }
  reflexivity.
Qed.

Lemma trampoline_iteration adjust sp sp' :
  (0x2000 <= sp < 2 ^ 63) -> sp <> sp' ->
  read_struct RegsX86_64.mcontext_widths process_mem (sp + 0x28) = Some (signal_context sp') ->
  iteration L os P None (Some [name]) false adjust (trampoline_unwinder sp) =
    Done (Some (Some [name], false), trampoline_unwinder sp').
Proof.
  intros Hsp Hne Hctx. unfold iteration. destruct (trampoline_locate adjust sp) as (p & Hp & Hrel & Hloc).
  rewrite (bind_run _ _ 0x1040 _ (trampoline_unwinder sp)) by reflexivity.
  rewrite (bind_run _ _ sp _ (trampoline_unwinder sp)) by reflexivity.
  rewrite (obind_run _ _ _ _ _ Hloc), (obind_run _ _ _ _ _ (trampoline_skipped p sp Hp)).
  rewrite (bind_run _ _ _ _ _ (trampoline_step p sp sp' Hp Hrel Hsp Hctx)), Hp.
  rewrite (bind_run _ _ tt _ (trampoline_unwinder sp')) by reflexivity. cbv iota.
  rewrite (obind_run _ _ _ false (trampoline_unwinder sp')) by reflexivity.
  rewrite (bind_run _ _ 0x1040 _ (trampoline_unwinder sp')) by reflexivity.
  rewrite (bind_run _ _ sp' _ (trampoline_unwinder sp')) by reflexivity.
  destruct (Z.eqb_spec sp sp'); [done|]. by rewrite andb_false_r.
Qed.
End SkipLoop.

(** With maps to skip there is no such bound: two signal frames in a skipped map that return to
    each other keep the loop running for ever, and no frame is ever added. *)
Theorem unwind_skip_never_ends L os P elf_mem process_mem name sp sp'
  (Hcode : read_value elf_mem 0x40 8 = Some 0x0f0000000fc0c748) (Hcode2 : read_value elf_mem 0x48 2 = Some 0x0f05)
  (Hname : basename (c_str name) = name)
  (Hsp : 0x2000 <= sp < 2 ^ 63) (Hsp' : 0x2000 <= sp' < 2 ^ 63) (Hne : sp <> sp')
  (Hctx : read_struct RegsX86_64.mcontext_widths process_mem (sp + 0x28) = Some (signal_context sp'))
  (Hctx' : read_struct RegsX86_64.mcontext_widths process_mem (sp' + 0x28) = Some (signal_context sp)) :
  let u := trampoline_unwinder elf_mem process_mem name sp in
  (forall fuel, Unwind L os P fuel (Some [name]) None u = Fault OutOfFuel) /\
  (forall n r, ~ runs L os P None n (Some [name]) false false (reset u) r).
Proof.
  set (v := trampoline_unwinder elf_mem process_mem name).
  assert (forall s s' adjust, (s = sp /\ s' = sp' \/ s = sp' /\ s' = sp) ->
    iteration L os P None (Some [name]) false adjust (v s) = Done (Some (Some [name], false), v s')) as Hit.
  { intros s s' adjust Hs. apply (trampoline_iteration L os P elf_mem process_mem name Hcode Hcode2 Hname);
      destruct Hs as [[-> ->]|[-> ->]]; auto. }
  split.
  - assert (forall fuel s s' adjust, (s = sp /\ s' = sp' \/ s = sp' /\ s' = sp) ->
      unwind_loop L os P fuel None (Some [name]) false adjust (v s) = Fault OutOfFuel) as Hloop.
    { induction fuel as [|fuel IH]; intros s s' adjust Hs; [done|]. cbn [unwind_loop]. rewrite bind_get.
      change (num_frames (v s) <? max_frames_ (v s)) with true. cbv iota. rewrite (bind_run _ _ _ _ _ (Hit s s' adjust Hs)). apply (IH s' s). tauto. }
    intros fuel. unfold Unwind, reset_unwind. rewrite bind_modify. apply (Hloop fuel sp sp'). auto.
  - assert (forall n s s' adjust r, (s = sp /\ s' = sp' \/ s = sp' /\ s' = sp) ->
      ~ runs L os P None n (Some [name]) false adjust (v s) r) as Hno.
    { induction n as [|n IH]; intros s s' adjust r Hs Hr; inversion Hr; subst; [done|..];
        match goal with H : iteration _ _ _ _ _ _ _ _ = _ |- _ => rewrite (Hit s s' adjust Hs) in H; try discriminate H end.
      match goal with H : Done _ = Done _ |- _ => injection H as <- <- <- end. eapply (IH s' s); [tauto|eassumption]. }
    intros n r. apply (Hno n sp sp'). auto.
Qed.

(** A process with these frames. *)
Definition signal_frame (sp : Z) : list byte := replicate 40 x00 ++ encode_fields RegsX86_64.mcontext_widths (signal_context sp).
Definition trampoline_code : Memory :=
  MemoryBuffer.memory (MemoryBuffer.mk (replicate 64 x00 ++ le_bytes 8 0x0f0000000fc0c748 ++ le_bytes 2 0x0f05)).
Definition trampoline_stacks : Memory :=
  MemoryOfflineBuffer.memory (MemoryOfflineBuffer.mk (signal_frame 0x2200 ++ replicate 288 x00 ++ signal_frame 0x2000) 0x2000 0x22e0).

Lemma unwind_skip_never_ends_witness :
  let L := mkDexLib (fun _ _ _ => None) (fun _ _ _ => (None, 0, [])) (fun _ _ => (0, [])) in
  let os := mkSystem 4096 (fun _ => None) (fun _ _ _ => false) in
  let P := mkParams 1 (fun _ => []) (fun l => l) 0 (mkUnpacker unit tt (fun _ _ _ => (tt, [], 0, false, false)) (fun _ => false)) in
  let u := trampoline_unwinder trampoline_code trampoline_stacks [x61] 0x2000 in
  (forall fuel, Unwind L os P fuel (Some [[x61]]) None u = Fault OutOfFuel) /\
  (forall n r, ~ runs L os P None n (Some [[x61]]) false false (reset u) r).
Proof.
  apply (unwind_skip_never_ends _ _ _ trampoline_code trampoline_stacks [x61] 0x2000 0x2200).
  - vm_compute. reflexivity.
  - vm_compute. reflexivity.
  - vm_compute. reflexivity.
  - lia.
  - lia.
  - lia.
  - vm_compute. reflexivity.
  - vm_compute. reflexivity.
Defined.

Lemma unwind_frames_bounded_witness :
  let L := mkDexLib (fun _ _ _ => None) (fun _ _ _ => (None, 0, [])) (fun _ _ => (0, [])) in
  let os := mkSystem 4096 (fun _ => None) (fun _ _ _ => false) in
  let P := mkParams 1 (fun _ => []) (fun l => l) 0 (mkUnpacker unit tt (fun _ _ _ => (tt, [], 0, false, false)) (fun _ => false)) in
  let u := trampoline_unwinder trampoline_code trampoline_stacks [x61] 0x2000 in
  exists u', (forall fuel, (16 < fuel)%nat -> Unwind L os P fuel (Some []) None u = Done (tt, u')) /\ numbered 0 (frames_ u') /\
    f_pc <$> frames_ u' !! 0%nat = Some 0x1040.
Proof.
  intros L os P u. destruct (unwind_frames_bounded L os P (Some []) None u eq_refl) as (n & r & Hn & _ & Hfuel & Hr). change (Z.max 0 (max_frames_ u)) with 16 in Hn.
  assert (match Unwind L os P 17 (Some []) None u with Done _ => true | Fault _ => false end = true) as Hd by (vm_compute; reflexivity).
  rewrite (Hfuel 17%nat) in Hd by lia. destruct r as [[[] u']|]; [|done]. destruct Hr as (_ & Hnum & Hfirst).
  destruct (Hfirst eq_refl eq_refl eq_refl) as (f & rest & pc & Hf & _ & _ & Hpc & Hfpc).
  exists u'. split; [intros fuel Hl; apply Hfuel; lia|]. split; [done|]. rewrite Hf. cbn. rewrite Hfpc. injection Hpc as <-. done.
Defined.
