(* ===== verification/ElfSteps.v ===== *)
(** A step in an ELF object ([ElfInterface::Step], [Elf::Step]) from the steps of its unwind sections:
    the promise of a section, the order in which the sections are asked, and the promise of the
    object, which is what an unwinder needs of it. *)
From Stdlib Require Import ZArith Lia Bool Strings.Byte.
From stdpp Require Import base numbers list gmap.
From S2P Require Import Prelude StdMap Memory DwarfMemory DwarfStructs Regs DwarfCfa DwarfSection DwarfSectionEval DwarfSectionStep.
From S2P Require Import DwarfFrames DwarfSectionScan DwarfEhFrameWithHdr DwarfEhFrameSearch DwarfEhFrameStep ElfTypes ElfInterface ElfInterfaceArm RegsArch Elf.
#[local] Open Scope Z_scope.

Definition answer : Type := bool * Regs * bool.

(** * Sections *)

(** What a section answers to a step, where that is determined. *)
Record section_promise := mkPromise {
  sp_inv : any_section -> Prop;
  sp_call : request -> option answer
}.

Class SectionSteps A (fuel : nat) (order : gmap Z DwarfLocation -> list (Z * DwarfLocation)) (p : section_promise) : Prop := {
  section_step : forall pc regs m s a, sp_inv p s -> sp_call p (pc, regs, m) = Some a ->
    exists s', any_Step A fuel order pc regs m false s = Done (a, s') /\ sp_inv p s';
  (** a failed step leaves the registers and [finished] alone *)
  section_fails : forall pc regs m regs' fin, sp_call p (pc, regs, m) = Some (false, regs', fin) -> regs' = regs /\ fin = false
}.

(** A pointer to a section, which may be null. *)
Definition pointer_inv (p : option section_promise) (s : option any_section) : Prop :=
  match p, s with
  | Some p, Some s => sp_inv p s
  | None, None => True
  | _, _ => False
  end.
Definition pointer_call (p : option section_promise) (q : request) : option answer :=
  match p with Some p => sp_call p q | None => let '(_, regs, _) := q in Some (false, regs, false) end.

(** The first section that succeeds answers. *)
Definition interface_call (debug eh : option section_promise) (q : request) : option answer :=
  match pointer_call debug q with
  | Some (true, regs, fin) => Some (true, regs, fin)
  | Some (false, _, _) => pointer_call eh q
  | None => None
  end.

(** The promise of a section whose steps are answered by its tables. *)
Lemma tables_section_steps A bm d tables fde_at fuel order I
    (HT : UnwindTables A bm d tables fde_at fuel) (HS : FdeSearch any_base put_any_base (any_GetFdeFromPc A fuel) d tables fde_at I)
    (Horder : forall m, order m ≡ₚ map_to_list m) (Hd : forall pc, described tables fde_at pc) :
  SectionSteps A fuel order (mkPromise (step_inv d tables fde_at (base := any_base) (I := I)) (section_call A d tables fde_at)).
Proof.
  split.
  - intros pc regs m s a Hs Hc. by apply (Step_call A bm d tables fde_at fuel order Horder).
  - intros pc regs m regs' fin. cbn. destruct (row_of _ _ pc) as [[r cie]|]; [|by intros [= <- <-]].
    destruct (bool_decide _); [|done]. by intros ([? ?] & _ & [= ? ? ?])%fmap_Some.
Qed.

Lemma empty_caches d tables fde_at (I : any_section -> Prop) s :
  I s -> same_memory d (sec_memory (any_base s)) -> loc_regs_ (any_base s) = [] -> sec_cie_loc_regs (any_base s) = ∅ ->
  step_inv d tables fde_at (base := any_base) (I := I) s.
Proof.
  intros HI Hd Hr Hl. split; [done|]. split; [done|]. split; [rewrite Hr; by exists 0|]. split.
  - intros e l. by rewrite Hr.
  - intros off l p t. by rewrite Hl.
Qed.

(** The header section: [any_section] behaves as its alternative. *)
Section HdrPromise.
Context (A : addr_type) (bm : Z -> option byte) (fuel : nat) (h0 : DwarfEhFrameWithHdr).
Context (entries : list (Z * Z)) (fdes : gmap Z frame_entry).
Context (Hok : frames_ok A bm fuel h0 entries fdes).
Local Abbreviation base_memory := (sec_memory (hdr_base h0)).

Definition hdr_only (I : DwarfEhFrameWithHdr -> Prop) (s : any_section) : Prop :=
  match s with HdrSection h => I h | PlainSection _ _ => False end.

#[local] Instance any_hdr_search :
  FdeSearch any_base put_any_base (any_GetFdeFromPc A fuel) base_memory (hdr_tables A h0 fdes) (hdr_fde_at A h0 fdes)
    (hdr_only (hdr_inv A bm h0 entries fdes)).
Proof.
  destruct (hdr_search A bm fuel h0 entries fdes Hok) as [_ Hframe Hrun]. split; [by intros b []| |].
  - intros b [|h]; [done|]. apply Hframe.
  - intros pc [|h]; [done|]. intros Hh. destruct (Hrun pc h Hh) as (h' & Hr & Hrest).
    exists (HdrSection h'). cbn [any_GetFdeFromPc]. by rewrite Hr.
Qed.

Definition hdr_promise : section_promise :=
  mkPromise (step_inv base_memory (hdr_tables A h0 fdes) (hdr_fde_at A h0 fdes) (base := any_base) (I := hdr_only (hdr_inv A bm h0 entries fdes)))
    (section_call A base_memory (hdr_tables A h0 fdes) (hdr_fde_at A h0 fdes)).

#[export] Instance hdr_section_steps order (Horder : forall m, order m ≡ₚ map_to_list m) : SectionSteps A fuel order hdr_promise.
Proof.
  apply (tables_section_steps A bm); [by eapply hdr_frames_tables|apply any_hdr_search|done|intros pc; apply hdr_described].
Qed.

Lemma hdr_promise_fresh :
  table_ok A bm h0 entries -> table_sorted A h0 entries -> fresh_caches h0 -> sp_inv hdr_promise (HdrSection h0).
Proof.
  intros Ht Hs (Hf & Hc & Hl & Hr & Hd). apply empty_caches; try done.
  cbn. split; [done|]. split; [done|]. do 4 (split; [done|]). split; [done|]. split; [done|].
  intros off e _. rewrite Hf, Hc, !lookup_empty. by split; left.
Qed.
End HdrPromise.

(** A section without a header. *)
Section PlainPromise.
Context (A : addr_type) (kind : section_kind) (bm : Z -> option byte) (fuel : nat) (s0 : DwarfSection).
Context (fdes : gmap Z frame_entry) (items : list (Z * item)).
Context (Hok : plain_ok A kind bm fuel s0 fdes items).

Definition plain_only (I : DwarfSection -> Prop) (s : any_section) : Prop :=
  match s with HdrSection _ => False | PlainSection k s => k = kind /\ I s end.

#[local] Instance any_plain_search :
  FdeSearch any_base put_any_base (any_GetFdeFromPc A fuel) (sec_memory s0) (plain_tables A kind s0 fdes) (plain_fde_at A kind s0 fdes)
    (plain_only (plain_inv A kind s0 items)).
Proof.
  destruct (scan_search A kind bm fuel _ _ _ _ _ _ _ Hok) as [_ Hframe Hrun]. split; [by intros b []| |].
  - intros b [k s|]; [|done]. intros [-> Hs] Hb. split; [done|]. by apply (Hframe b s).
  - intros pc [k s|]; [|done]. intros [-> Hs]. destruct (Hrun pc s Hs) as (s' & Hr & Hs' & Hrest).
    exists (PlainSection kind s'). cbn [any_GetFdeFromPc]. rewrite Hr. split; [done|]. split; [by split|]. exact Hrest.
Qed.

Definition plain_promise : section_promise :=
  mkPromise (step_inv (sec_memory s0) (plain_tables A kind s0 fdes) (plain_fde_at A kind s0 fdes) (base := any_base)
      (I := plain_only (plain_inv A kind s0 items)))
    (section_call A (sec_memory s0) (plain_tables A kind s0 fdes) (plain_fde_at A kind s0 fdes)).

#[export] Instance plain_section_steps order (Horder : forall m, order m ≡ₚ map_to_list m) : SectionSteps A fuel order plain_promise.
Proof.
  pose proof (frames_tables A kind bm fuel _ _ _ _ _ (so_entries _ _ _ _ _ _ _ _ _ _ _ Hok)) as HT.
  refine (tables_section_steps A bm (sec_memory s0) (plain_tables A kind s0 fdes) (plain_fde_at A kind s0 fdes) fuel order _
    HT any_plain_search Horder _).
  intros pc. exact (frames_described A kind (sec_memory s0) (DwarfSection.load_bias_ s0) (sec_pc_offset s0) fdes pc).
Qed.

Lemma plain_promise_fresh : fresh_section s0 -> sp_inv plain_promise (PlainSection kind s0).
Proof.
  intros Hf. pose proof Hf as (_ & _ & Hl & Hr & _). apply empty_caches; try done. split; [done|]. by eapply fresh_scanned.
Qed.
End PlainPromise.

(** ** What a section holds, and its promise *)

(** The contents of a section: with the table of a header, or without. *)
Inductive section_contents : Type :=
| WithHeader (bm : Z -> option byte) (h : DwarfEhFrameWithHdr) (entries : list (Z * Z)) (fdes : gmap Z frame_entry)
| WithoutHeader (kind : section_kind) (bm : Z -> option byte) (s : DwarfSection) (fdes : gmap Z frame_entry) (items : list (Z * item)).

Definition section_of (x : section_contents) : any_section :=
  match x with WithHeader _ h _ _ => HdrSection h | WithoutHeader k _ s _ _ => PlainSection k s end.

(** The bytes of the section are those of its contents, and nothing was read yet. *)
Definition contents_ok (A : addr_type) (fuel : nat) (x : section_contents) : Prop :=
  match x with
  | WithHeader bm h entries fdes =>
      frames_ok A bm fuel h entries fdes /\ table_ok A bm h entries /\ table_sorted A h entries /\ fresh_caches h
  | WithoutHeader kind bm s fdes items => plain_ok A kind bm fuel s fdes items /\ fresh_section s
  end.

Definition contents_promise (A : addr_type) (x : section_contents) : section_promise :=
  match x with
  | WithHeader bm h entries fdes => hdr_promise A bm h entries fdes
  | WithoutHeader kind bm s fdes items => plain_promise A kind s fdes items
  end.

#[export] Instance contents_steps A fuel order x (Horder : forall m, order m ≡ₚ map_to_list m) (Hok : contents_ok A fuel x) :
  SectionSteps A fuel order (contents_promise A x).
Proof.
  destruct x; destruct Hok as [Hok ?]; [by apply hdr_section_steps|]. cbn [contents_promise]. by eapply plain_section_steps.
Qed.

Lemma contents_fresh A fuel x : contents_ok A fuel x -> sp_inv (contents_promise A x) (section_of x).
Proof.
  destruct x; [|by intros [Hok Hf]; eapply plain_promise_fresh].
  intros (Hok & Ht & Hs & Hf). by apply hdr_promise_fresh.
Qed.

(** * The interface *)

Section Interface.
Context (A : addr_type) (fuel : nat) (order : gmap Z DwarfLocation -> list (Z * DwarfLocation)).
Context (debug eh : option section_promise).
Context (Hdebug : forall p, debug = Some p -> SectionSteps A fuel order p) (Heh : forall p, eh = Some p -> SectionSteps A fuel order p).

Definition interface_inv (e : ElfInterface) : Prop := pointer_inv debug (debug_frame_ e) /\ pointer_inv eh (eh_frame_ e).

(** A method call on a section pointer *)
Lemma on_pointer_step p get_ptr put_ptr pc regs m a e :
  (forall q, p = Some q -> SectionSteps A fuel order q) -> pointer_inv p (get_ptr e) -> pointer_call p (pc, regs, m) = Some a ->
  exists r e', on_pointer get_ptr put_ptr (any_Step A fuel order pc regs m false) e = Done (r, e') /\
    default (false, regs, false) r = a /\
    (e' = e /\ get_ptr e = None \/ exists s', e' = put_ptr (Some s') e /\ pointer_inv p (Some s')).
Proof.
  intros Hp Hi Hc. unfold on_pointer. destruct p as [p|], (get_ptr e) as [s|] eqn:Es; try done.
  - pose proof (Hp p eq_refl) as HS. destruct (section_step pc regs m s a Hi Hc) as (s' & -> & Hs'). exists (Some a), (put_ptr (Some s') e).
    split; [done|]. split; [done|]. right. by exists s'.
  - injection Hc as <-. exists None, e. split; [done|]. split; [done|]. by left.
Qed.

Lemma pointer_fails p pc regs m regs' fin :
  (forall q, p = Some q -> SectionSteps A fuel order q) -> pointer_call p (pc, regs, m) = Some (false, regs', fin) ->
  regs' = regs /\ fin = false.
Proof.
  intros Hp. destruct p as [p|]; [|by intros [= <- <-]]. cbn. pose proof (Hp p eq_refl) as HS. apply section_fails.
Qed.

(** The step of an interface without debug data. *)
Lemma interface_step pc regs m e a :
  interface_inv e -> interface_call debug eh (pc, regs, m) = Some a ->
  exists e', ElfInterface.Step A fuel order (G := unit) None pc regs m false (e, tt) = Done (a, (e', tt)) /\ interface_inv e'.
Proof.
  intros [Hd Hh] Hc. unfold ElfInterface.Step. unfold on_self at 1. unfold bind at 1, zoom at 1, modify. cbn [fst snd].
  set (e0 := put_ei_error _ _). assert (interface_inv e0) as [Hd0 Hh0] by by split.
  clearbody e0. clear Hd Hh e. unfold interface_call in Hc.
  destruct (pointer_call debug (pc, regs, m)) as [[[ok regs1] fin1]|] eqn:E1; [|done].
  destruct (on_pointer_step debug debug_frame_ put_debug_frame pc regs m _ e0 Hdebug Hd0 E1) as (r & e1 & Hr & Ha & He1).
  unfold on_self at 1, on_debug_frame at 1. unfold bind at 1, zoom at 1. cbn [fst snd]. rewrite Hr, Ha.
  assert (interface_inv e1) as [Hd1 Hh1].
  { destruct He1 as [[-> _]|(s' & -> & Hs')]; by split. }
  destruct ok; [injection Hc as <-; by exists e1|].
  destruct (pointer_fails _ _ _ _ _ _ Hdebug E1) as [-> ->].
  destruct a as [[ok regs2] fin2].
  destruct (on_pointer_step eh eh_frame_ put_eh_frame pc regs m _ e1 Heh Hh1 Hc) as (r2 & e2 & Hr2 & Ha2 & He2).
  unfold on_self at 1, on_eh_frame at 1. unfold bind at 1, zoom at 1. cbn [fst snd]. rewrite Hr2, Ha2.
  assert (interface_inv e2) as H2.
  { destruct He2 as [[-> _]|(s' & -> & Hs')]; by split. }
  destruct ok; [by exists e2|]. destruct (pointer_fails _ _ _ _ _ _ Heh Hc) as [-> ->].
  unfold bind at 1, ret at 1. unfold step_error. unfold bind at 1, get at 1, bind. cbn [fst snd].
  destruct (debug_frame_ e2), (eh_frame_ e2); (eexists; split; [reflexivity|]); destruct H2; by split.
Qed.
End Interface.

(** * The object *)

(** What an object is to an unwinder: its constants, and its answers to steps. *)
Record object_promise := mkObject {
  op_inv : Elf -> Prop;
  op_bias : Z;
  op_memory : Memory;
  op_call : request -> option answer
}.

Class ObjectSteps (P : params) (o : object_promise) : Prop := {
  object_facts : forall e, op_inv o e -> valid_ e = true /\ load_bias_ e = op_bias o /\ memory_or_empty (elf_memory e) = op_memory o;
  object_step : forall pc regs m e a, op_inv o e -> op_call o (pc, regs, m) = Some a ->
    exists e', Elf.Step P pc regs m false e = Done (a, e') /\ op_inv o e';
  object_error : forall x e, op_inv o e -> exists x', GetLastError x e = Done (x', e)
}.

Section Object.
Context (P : params) (A : addr_type) (debug eh : option section_promise) (bias : Z) (memory : Memory).

(** An object with an interface for [A], not one for ARM, and without debug data. *)
Definition elf_inv (e : Elf) : Prop :=
  valid_ e = true /\ load_bias_ e = bias /\ memory_or_empty (elf_memory e) = memory /\ gnu_set_ e = false /\
  exists i, interface_ e = Some (Interface A i) /\ interface_inv debug eh i.

Definition elf_promise : object_promise := mkObject elf_inv bias memory (interface_call debug eh).

#[export] Instance elf_object_steps
    (Hdebug : forall p, debug = Some p -> SectionSteps A (p_fuel P) (p_order P) p)
    (Heh : forall p, eh = Some p -> SectionSteps A (p_fuel P) (p_order P) p) : ObjectSteps P elf_promise.
Proof.
  split.
  - by intros e (? & ? & ? & _).
  - intros pc regs m e a (Hv & Hb & Hm & Hg & i & Hi & Hinv) Hc. unfold Elf.Step. rewrite Hv, Hi, Hg. cbn [negb].
    destruct (interface_step A _ _ debug eh Hdebug Heh pc regs m i a Hinv Hc) as (i' & Hr & Hinv').
    unfold interface_Step. cbn [fst snd]. rewrite Hr. exists (put_interface (Some (Interface A i')) e). split; [done|].
    do 4 (split; [done|]). by exists i'.
  - intros x e (Hv & _ & _ & _ & i & Hi & _). unfold GetLastError. rewrite bind_get, Hv, Hi.
    by exists (ei_error i).
Qed.
End Object.
