(* ===== verification/UnwinderChain.v ===== *)
(** The frames of an unwind as a function of the registers, the maps and the process memory: the chain
    of callers. [Unwinder::Unwind] ([Unwinder.cpp]) computes it, with the maps found by binary search,
    the steps answered by objects that keep caches, and the state of the unwinder in between.

    What an object answers is a promise ([ElfSteps]); the DWARF sections keep it. *)
From Stdlib Require Import ZArith Lia Bool Strings.Byte.
From stdpp Require Import base numbers list gmap.
From S2P Require Import Prelude Memory DwarfMemory Regs DwarfSectionStep ElfTypes ElfInterface RegsArch Maps MapsFind Elf MapInfo.
From S2P Require Import DwarfFrames DwarfEhFrameWithHdr DwarfEhFrameSearch DwarfEhFrameStep Global JitDebug DexFiles Unwinder UnwinderLoop ElfSteps.
#[local] Open Scope Z_scope.

Section Chain.
(** The process: its memory, its maps, and the objects behind them. *)
Context (arch : ArchEnum) (pm : Memory) (l : list MapInfo) (objects : Z -> option object_promise).
Implicit Types (regs : Regs) (i : MapInfo).

(** * The chain of callers *)

Definition object_of i : option object_promise := map_elf i ≫= objects.
Definition device_map i : bool := negb (Z.land (map_flags i) MAPS_FLAGS_DEVICE_MAP =? 0).

(** The address in the object, and how far before it the call of a frame lies. *)
Definition rel_pc_of (o : object_promise) i (pc : Z) : Z := u64 (pc - map_start i + op_bias o + elf_offset i).
Definition adjustment_of (o : object_promise) (adjust : bool) (rel_pc : Z) : Z :=
  if adjust then RegsArch.GetPcAdjustment arch true (op_bias o) (op_memory o) rel_pc else 0.

(** What comes after a frame. *)
Inductive next : Type :=
| Last
| Caller (regs : Regs)
| Stuck (device : bool) (regs : Regs).

Definition mapped_frame (num : Z) (o : object_promise) i (rel_pc pc sp : Z) : FrameData :=
  put_frame_map [] i (op_bias o) (bare_frame num rel_pc pc sp).

(** The frame of registers whose pc is in the map [i] of the object [o]: a signal frame is at its pc,
    the others are at the call. *)
Definition mapped_step (num : Z) (adjust : bool) regs i (o : object_promise) (pc sp : Z) : option (FrameData * next) :=
  let rel_pc := rel_pc_of o i pc in
  let adjustment := adjustment_of o adjust rel_pc in
  let frame := mapped_frame num o i (u64 (rel_pc - adjustment)) (u64 (pc - adjustment)) sp in
  if device_map i || from_option device_map false (map_of l sp) then Some (frame, Stuck true regs)
  else
    match RegsArch.StepIfSignalHandler arch rel_pc (op_memory o) pm regs with
    | Done (true, regs) => Some (mapped_frame num o i rel_pc (u64 pc) sp, Caller regs)
    | Done (false, regs) =>
        let at_pc := if Z.land (map_flags i) MAPS_FLAGS_JIT_SYMFILE_MAP =? 0 then rel_pc else pc in
        a ← op_call o (u64 (at_pc - adjustment), regs, pm);
        let '(ok, regs, finished) := a in
        Some (frame, if (finished : bool) then Last else if (ok : bool) then Caller regs else Stuck false regs)
    | Fault _ => None
    end.

(** The frame of some registers; [None] where the objects promise nothing. *)
Definition step_frame (num : Z) (adjust : bool) regs : option (FrameData * next) :=
  pc ← reg_at (pc_reg regs) regs;
  sp ← reg_at (sp_reg regs) regs;
  if negb (dex_pc_ regs =? 0) then None
  else
    match map_of l pc with
    | None => Some (bare_frame num (u64 (pc - 0)) (u64 (pc - 0)) sp, Stuck false regs)
    | Some i => o ← object_of i; mapped_step num adjust regs i o pc sp
    end.

(** The pc and the sp did not change. *)
Definition same_place regs regs' : option bool :=
  pc ← reg_at (pc_reg regs) regs; sp ← reg_at (sp_reg regs) regs;
  pc' ← reg_at (pc_reg regs') regs'; sp' ← reg_at (sp_reg regs') regs';
  Some ((pc =? pc') && (sp =? sp')).

(** Whether the frame is kept, and the registers to go on with. A frame that is stuck is left by its
    return address; when the frame there is stuck as well, it is dropped ([attempt]). *)
Definition resume (num : Z) (attempt : bool) regs (nx : next) : option (bool * option (bool * Regs)) :=
  let go_on attempt regs' :=
    same ← same_place regs regs'; Some (true, if (same : bool) then None else Some (attempt, regs')) in
  match nx with
  | Last => Some (true, None)
  | Caller regs' => go_on false regs'
  | Stuck device regs' =>
      if attempt then (if num <? 2 then None else Some (false, None))
      else if device then Some (true, None)
      else
        match RegsArch.SetPcFromReturnAddress arch pm regs' with
        | Done (true, regs') => go_on true regs'
        | Done (false, _) => Some (true, None)
        | Fault _ => None
        end
  end.

(** At most [n] frames from [regs] on, numbered from [num]. *)
Fixpoint callers (n : nat) (num : Z) (attempt adjust : bool) regs : option (list FrameData) :=
  match n with
  | O => Some []
  | S n =>
      r ← step_frame num adjust regs;
      let '(frame, nx) := r in
      r ← resume num attempt regs nx;
      let '(keep, go_on) := r in
      rest ← match go_on with
             | None => Some []
             | Some (attempt, regs) => callers n (num + 1) attempt true regs
             end;
      Some (if (keep : bool) then frame :: rest else rest)
  end.

(** * The unwinder *)

Context (L : dexlib) (os : system) (P : params) (ms : Maps).
Context (Hmaps : maps_ok ms l).
Context (Hobjects : forall e o, objects e = Some o -> ObjectSteps P o).
Implicit Types (u : Unwinder) (w : World).

Definition world_inv w : Prop :=
  w_maps w = ms /\ forall e o, objects e = Some o -> exists obj, elfs w !! e = Some obj /\ op_inv o obj.

(** The unwinder of this process, without names. *)
Definition of_process u : Prop :=
  u_arch u = arch /\ process_memory_ u = pm /\ resolve_names_ u = false /\ world_inv (u_world u).

(** ** Reading the world *)

Lemma put_world_id u : put_world (u_world u) u = u.
Proof. by destruct u. Qed.

Lemma in_world_read {B} (m : MW B) b u : m (u_world u) = Done (b, u_world u) -> in_world m u = Done (b, u).
Proof. intros Hm. unfold in_world, zoom. by rewrite Hm, put_world_id. Qed.

Lemma on_maps_read {B} (m : MS B) b w : m (w_maps w) = Done (b, w_maps w) -> on_maps m w = Done (b, w).
Proof. intros Hm. unfold on_maps, zoom. rewrite Hm. by destruct w. Qed.

Lemma on_elf_read {B} e (m : ME B) obj b w :
  elfs w !! e = Some obj -> m obj = Done (b, obj) -> on_elf e m w = Done (b, w).
Proof. intros He Hm. unfold on_elf. rewrite He, Hm, insert_id by done. by destruct w. Qed.

Lemma map_info_run k i u : of_process u -> infos ms !! k = Some i -> in_world (map_info k) u = Done (i, u).
Proof.
  intros (_ & _ & _ & Hms & _) Hk. apply in_world_read, on_maps_read. rewrite Hms. unfold deref_map. rewrite bind_get.
  cbn. by rewrite Hk.
Qed.

Lemma find_map_run pc u :
  of_process u ->
  exists r, find_map pc u = Done (r, u) /\
    match r with
    | Some k => exists i, map_of l pc = Some i /\ infos ms !! k = Some i
    | None => map_of l pc = None
    end.
Proof.
  intros (_ & _ & _ & Hms & _). destruct (Find_map_of ms l Hmaps pc) as (r & Hr & Hspec). exists r. split; [|done].
  apply in_world_read, on_maps_read. by rewrite Hms.
Qed.

Lemma cur_pc_run u pc : reg_at (pc_reg (u_regs u)) (u_regs u) = Some pc -> cur_pc u = Done (pc, u).
Proof. intros H. unfold cur_pc, read_reg. rewrite bind_get. by rewrite H. Qed.

Lemma cur_sp_run u sp : reg_at (sp_reg (u_regs u)) (u_regs u) = Some sp -> cur_sp u = Done (sp, u).
Proof. intros H. unfold cur_sp, read_reg. rewrite bind_get. by rewrite H. Qed.

Lemma object_run i o u :
  of_process u -> object_of i = Some o ->
  exists e obj, map_elf i = Some e /\ objects e = Some o /\ elfs (u_world u) !! e = Some obj /\ op_inv o obj.
Proof.
  intros (_ & _ & _ & _ & Ho) (e & He & Hobj)%bind_Some. destruct (Ho _ _ Hobj) as (obj & ? & ?). by exists e, obj.
Qed.

(** ** One iteration *)

(** The position of a pc in a map. *)
Definition position_of (k e : Z) (adjust : bool) i (o : object_promise) (pc : Z) : position :=
  let rel_pc := rel_pc_of o i pc in
  let adjustment := adjustment_of o adjust rel_pc in
  mkPosition (Some (k, e)) rel_pc adjustment
    (u64 ((if Z.land (map_flags i) MAPS_FLAGS_JIT_SYMFILE_MAP =? 0 then rel_pc else pc) - adjustment)).

(** States that differ in what no frame depends on. *)
Definition similar u u' : Prop :=
  max_frames_ u' = max_frames_ u /\ u_regs u' = u_regs u /\ frames_ u' = frames_ u /\ (of_process u -> of_process u').

Lemma similar_refl u : similar u u.
Proof. unfold similar. auto. Qed.

Lemma similar_trans u1 u2 u3 : similar u1 u2 -> similar u2 u3 -> similar u1 u3.
Proof. unfold similar. intros (?&?&?&?) (?&?&?&?). split_and!; [congruence..|auto]. Qed.

Lemma locate_in_map_run adjust k e i o pc u :
  of_process u -> reg_at (pc_reg (u_regs u)) (u_regs u) = Some pc -> infos ms !! k = Some i ->
  map_elf i = Some e -> objects e = Some o ->
  exists u', locate_in_map os P adjust k u = Done (position_of k e adjust i o pc, u') /\ similar u u'.
Proof.
  intros Hu Hpc Hk He Hobj. pose proof (map_info_run k i u Hu Hk) as Hi. pose proof Hu as (Ha & Hm & _ & Hw & Ho). destruct (Ho _ _ Hobj) as (obj & Hlook & Hinv).
  pose proof (Hobjects _ _ Hobj) as HS. destruct (object_facts obj Hinv) as (Hv & Hb & Hmem).
  unfold locate_in_map. rewrite bind_get.
  assert (map_info k (u_world u) = Done (i, u_world u)) as Hi'.
  { unfold in_world, zoom in Hi. destruct (map_info k (u_world u)) as [[i' w']|]; [|done]. injection Hi as -> E.
    pose proof (f_equal u_world E) as E'. cbn in E'. by rewrite E'. }
  rewrite (bind_run _ _ e u u).
  2:{ apply in_world_read. unfold GetElf. rewrite (bind_run _ _ _ _ _ Hi'), He. done. }
  rewrite (bind_run _ _ _ _ _ Hi).
  match goal with |- context [bind (if ?b then modify (put_from_memory true) else _) _ u] => set (c := b) end.
  set (u1 := if c then put_from_memory true u else u).
  assert (similar u u1 /\ u_world u1 = u_world u) as [Hsim Ew] by (unfold u1, similar; destruct c; auto).
  rewrite (bind_run _ _ tt u u1) by (unfold u1; by destruct c). clearbody c u1.
  destruct Hsim as (E1 & E2 & E3 & Hp1). rewrite (bind_run _ _ pc u1 u1) by (apply cur_pc_run; by rewrite E2).
  rewrite (bind_run _ _ obj u1 u1).
  2:{ apply in_world_read, (on_elf_read e get obj); [by rewrite Ew|done]. }
  cbv zeta. rewrite Hv. unfold bind at 1, ret at 1. unfold ret.
  exists u1. split; [|by unfold similar; split_and!]. unfold position_of, rel_pc_of, adjustment_of, GetRelPc. cbv zeta. by rewrite Ha, Hb, Hmem.
Qed.

Lemma locate_mapped adjust i o pc u :
  of_process u -> reg_at (pc_reg (u_regs u)) (u_regs u) = Some pc -> map_of l pc = Some i -> object_of i = Some o ->
  exists k e u', locate os P adjust None u = Done (Some (position_of k e adjust i o pc), u') /\ similar u u' /\
    infos ms !! k = Some i /\ objects e = Some o.
Proof.
  intros Hu Hpc Hi (e & He & Hobj)%bind_Some. destruct (find_map_run pc u Hu) as (r & Hr & Hspec).
  destruct r as [k|]; [|congruence]. destruct Hspec as (i' & Hi' & Hk). assert (i' = i) as -> by congruence.
  destruct (locate_in_map_run adjust k e i o pc u Hu Hpc Hk He Hobj) as (u' & Hrun & Hsim).
  exists k, e, u'. split; [|done]. unfold locate. rewrite (bind_run _ _ _ _ _ (cur_pc_run u pc Hpc)), (bind_run _ _ _ _ _ Hr).
  rewrite (bind_run _ _ _ _ _ (map_info_run k i u Hu Hk)). cbn [ShouldStop]. by rewrite (bind_run _ _ _ _ _ Hrun).
Qed.

Lemma locate_unmapped adjust pc u :
  of_process u -> reg_at (pc_reg (u_regs u)) (u_regs u) = Some pc -> map_of l pc = None ->
  exists u', locate os P adjust None u = Done (Some (mkPosition None pc 0 pc), u') /\ similar u u'.
Proof.
  intros Hu Hpc Hi. destruct (find_map_run pc u Hu) as (r & Hr & Hspec).
  destruct r as [k|]; [by destruct Hspec as (i' & Hi' & _); congruence|].
  eexists. unfold locate. rewrite (bind_run _ _ _ _ _ (cur_pc_run u pc Hpc)), (bind_run _ _ _ _ _ Hr). split; [done|].
  unfold similar. by repeat (split; [done|]).
Qed.

(** A frame is added. *)
Definition added u (f : FrameData) u' : Prop :=
  max_frames_ u' = max_frames_ u /\ u_regs u' = u_regs u /\ frames_ u' = frames_ u ++ [f] /\ of_process u'.

Lemma add_frames_mapped k e adjust i o pc sp u :
  of_process u -> reg_at (pc_reg (u_regs u)) (u_regs u) = Some pc -> reg_at (sp_reg (u_regs u)) (u_regs u) = Some sp ->
  dex_pc_ (u_regs u) = 0 -> infos ms !! k = Some i -> objects e = Some o ->
  let p := position_of k e adjust i o pc in
  exists u', add_frames L os P p None u = Done (Some (true, None), u') /\
    added u (mapped_frame (num_frames u) o i (u64 (ps_rel_pc p - ps_adjustment p)) (u64 (pc - ps_adjustment p)) sp) u'.
Proof.
  intros Hu Hpc Hsp Hd Hk Hobj p. pose proof Hu as (_ & _ & Hn & _ & Ho). destruct (Ho _ _ Hobj) as (obj & He & Hinv).
  pose proof (Hobjects _ _ Hobj) as HS. destruct (object_facts obj Hinv) as (_ & Hb & _).
  eexists. split.
  - unfold add_frames. cbn [ps_map p position_of]. unfold bind at 1, ret at 1. rewrite bind_get, Hd. cbn [Z.eqb].
    unfold bind at 1, ret at 1. unfold FillInFrame. unfold bind at 1. rewrite bind_get.
    rewrite (bind_run _ _ _ _ _ (cur_sp_run u sp Hsp)), (bind_run _ _ _ _ _ (cur_pc_run u pc Hpc)). cbv zeta.
    rewrite (bind_run _ _ _ _ _ (map_info_run k i u Hu Hk)), Hn. unfold bind at 1, ret at 1.
    rewrite (bind_run _ _ (load_bias_ obj) u u); [|by apply in_world_read, (on_elf_read e _ obj)].
    rewrite Hb. reflexivity.
  - by repeat (split; [done|]).
Qed.

Lemma add_frames_unmapped pc sp u :
  of_process u -> reg_at (pc_reg (u_regs u)) (u_regs u) = Some pc -> reg_at (sp_reg (u_regs u)) (u_regs u) = Some sp ->
  dex_pc_ (u_regs u) = 0 ->
  exists u', add_frames L os P (mkPosition None pc 0 pc) None u = Done (Some (false, None), u') /\
    added u (bare_frame (num_frames u) (u64 (pc - 0)) (u64 (pc - 0)) sp) u'.
Proof.
  intros Hu Hpc Hsp Hd. eexists. split.
  - unfold add_frames. cbn [ps_map]. unfold bind at 1, ret at 1. rewrite bind_get, Hd. cbn [Z.eqb].
    unfold bind at 1, ret at 1. unfold FillInFrame. unfold bind at 1. rewrite bind_get.
    rewrite (bind_run _ _ _ _ _ (cur_sp_run u sp Hsp)), (bind_run _ _ _ _ _ (cur_pc_run u pc Hpc)). reflexivity.
  - by repeat (split; [done|]).
Qed.

(** The result of [step] for what comes next. *)
Definition next_is (nx : next) (r : bool * bool * bool) u : Prop :=
  match nx with
  | Last => r.2 = true
  | Caller regs => r = (true, false, false) /\ u_regs u = regs
  | Stuck device regs => r = (false, device, false) /\ u_regs u = regs
  end.

Definition stepped u (fs : list FrameData) (f : FrameData) u' : Prop :=
  max_frames_ u' = max_frames_ u /\ frames_ u' = fs ++ [f] /\ of_process u'.

Lemma on_elf_run {B} e o obj (m : ME B) b obj' u :
  of_process u -> objects e = Some o -> elfs (u_world u) !! e = Some obj -> m obj = Done (b, obj') -> op_inv o obj' ->
  exists w, in_world (on_elf e m) u = Done (b, put_world w u) /\ elfs w !! e = Some obj' /\ world_inv w.
Proof.
  intros (_ & _ & _ & Hms & Ho) Hobj He Hm Hinv. unfold in_world, zoom, on_elf. rewrite He, Hm.
  eexists. split; [reflexivity|]. cbn. split; [by rewrite lookup_insert_eq|]. split; [done|].
  intros e' o' Ho'. cbn. destruct (decide (e' = e)) as [->|Hne].
  - rewrite lookup_insert_eq. exists obj'. split; [done|]. by assert (o' = o) as -> by congruence.
  - rewrite lookup_insert_ne by done. by apply Ho.
Qed.

Lemma of_process_world w u : of_process u -> world_inv w -> of_process (put_world w u).
Proof. by intros (? & ? & ? & _) Hw. Qed.

Lemma step_elf_run k e adjust i o pc sp num fs f nx u :
  let p := position_of k e adjust i o pc in
  of_process u -> objects e = Some o ->
  frames_ u = fs ++ [mapped_frame num o i (u64 (ps_rel_pc p - ps_adjustment p)) (u64 (pc - ps_adjustment p)) sp] ->
  device_map i || from_option device_map false (map_of l sp) = false ->
  mapped_step num adjust (u_regs u) i o pc sp = Some (f, nx) ->
  exists ok fin spc u', step_elf P p e true u = Done ((ok, fin, spc), u') /\ stepped u fs f u' /\ next_is nx (ok, false, fin) u'.
Proof.
  intros p Hu Hobj Hf Hdev Hs. pose proof Hu as (Ha & Hm & _ & _ & Ho). destruct (Ho _ _ Hobj) as (obj & He & Hinv).
  pose proof (Hobjects _ _ Hobj) as HS. destruct (object_facts obj Hinv) as (Hv & _ & Hmem).
  unfold mapped_step in Hs. rewrite Hdev in Hs. unfold step_elf. rewrite bind_get.
  destruct (RegsArch.StepIfSignalHandler arch (rel_pc_of o i pc) (op_memory o) pm (u_regs u)) as [[signal regs]|] eqn:Esig; [|done].
  rewrite (bind_run _ _ (signal, regs) u u).
  2:{ apply in_world_read, (on_elf_read e _ obj); [done|]. unfold elf_StepIfSignalHandler. rewrite bind_get, Hv. cbn [negb].
      unfold lift. rewrite Hmem, Ha, Hm. cbn [ps_rel_pc p position_of]. by rewrite Esig. }
  rewrite bind_modify. destruct signal.
  - injection Hs as <- <-. unfold update_last. rewrite (bind_run _ _ (true, false, ps_rel_pc p) _
      (put_frames (fs ++ [put_frame_pc (ps_rel_pc p) (u64 (u64 (pc - ps_adjustment p) + ps_adjustment p))
        (mapped_frame num o i (u64 (ps_rel_pc p - ps_adjustment p)) (u64 (pc - ps_adjustment p)) sp)]) (put_u_regs regs u))).
    2:{ rewrite bind_modify. cbn [frames_ put_u_regs]. by rewrite Hf, last_snoc, removelast_last. }
    rewrite bind_get. destruct (object_error (last_error_ u) obj Hinv) as (x & Hx).
    rewrite (bind_run _ _ x _ (put_frames (fs ++ [put_frame_pc (ps_rel_pc p) (u64 (u64 (pc - ps_adjustment p) + ps_adjustment p))
        (mapped_frame num o i (u64 (ps_rel_pc p - ps_adjustment p)) (u64 (pc - ps_adjustment p)) sp)]) (put_u_regs regs u)))
      by (apply in_world_read, (on_elf_read e _ obj); done).
    rewrite bind_modify. do 4 eexists. split; [reflexivity|]. split; [|done]. split; [done|]. split; [|done]. cbn.
    rewrite wrap_add_l, Z.sub_add by lia. reflexivity.
  - apply bind_Some in Hs as ([[ok regs'] fin] & Hc & Hs). injection Hs as <- <-.
    set (v := put_u_regs regs u).
    destruct (object_step _ _ _ obj _ Hinv Hc) as (obj' & Hstep & Hinv').
    destruct (on_elf_run e o obj _ _ obj' v Hu Hobj He Hstep Hinv') as (w & Hrun & He' & Hw).
    rewrite (bind_run _ _ (ok, fin, ps_step_pc p) _ (put_u_regs regs' (put_world w v))).
    2:{ rewrite Hm. cbn [ps_step_pc p position_of]. by rewrite (bind_run _ _ _ _ _ Hrun), bind_modify. }
    rewrite bind_get. destruct (object_error (last_error_ u) obj' Hinv') as (x & Hx).
    rewrite (bind_run _ _ x _ (put_u_regs regs' (put_world w v))) by (apply in_world_read, (on_elf_read e _ obj'); done).
    rewrite bind_modify. do 4 eexists. split; [reflexivity|]. split.
    + split; [done|]. split; [exact Hf|]. by apply (of_process_world w u).
    + by destruct fin, ok.
Qed.

Lemma device_map_run k i u : of_process u -> infos ms !! k = Some i -> is_device_map k u = Done (device_map i, u).
Proof. intros Hu Hk. unfold is_device_map. by rewrite (bind_run _ _ _ _ _ (map_info_run k i u Hu Hk)). Qed.

Lemma step_run k e adjust i o pc sp num fs f nx u :
  let p := position_of k e adjust i o pc in
  of_process u -> infos ms !! k = Some i -> objects e = Some o -> reg_at (sp_reg (u_regs u)) (u_regs u) = Some sp ->
  frames_ u = fs ++ [mapped_frame num o i (u64 (ps_rel_pc p - ps_adjustment p)) (u64 (pc - ps_adjustment p)) sp] ->
  mapped_step num adjust (u_regs u) i o pc sp = Some (f, nx) ->
  exists ok device fin spc u', step P p true u = Done ((ok, device, fin, spc), u') /\ stepped u fs f u' /\
    next_is nx (ok, device, fin) u'.
Proof.
  intros p Hu Hk Hobj Hsp Hf Hs. unfold step. cbn [ps_map p position_of].
  rewrite (bind_run _ _ _ _ _ (device_map_run k i u Hu Hk)).
  assert (device_map i || from_option device_map false (map_of l sp) = true ->
    exists ok device fin spc u', ret (false, true, false, ps_step_pc p) u = Done ((ok, device, fin, spc), u') /\
      stepped u fs f u' /\ next_is nx (ok, device, fin) u') as Hdevice.
  { intros Hd. unfold mapped_step in Hs. rewrite Hd in Hs. injection Hs as <- <-. do 5 eexists. split; [reflexivity|].
    split; [|done]. by repeat (split; [done|]). }
  destruct (device_map i) eqn:Ed; [by apply Hdevice|]. cbn [orb] in Hdevice.
  rewrite (bind_run _ _ _ _ _ (cur_sp_run u sp Hsp)).
  destruct (find_map_run sp u Hu) as (r & Hr & Hspec). rewrite (bind_run _ _ _ _ _ Hr).
  rewrite (bind_run _ _ (from_option device_map false (map_of l sp)) u u).
  2:{ destruct r as [k'|]; [|by rewrite Hspec]. destruct Hspec as (i' & -> & Hk'). by apply device_map_run. }
  destruct (from_option device_map false (map_of l sp)) eqn:Es; [by apply Hdevice|].
  destruct (step_elf_run k e adjust i o pc sp num fs f nx u Hu Hobj Hf) as (ok & fin & spc & u' & Hrun & Hst & Hnx); [|done|].
  { by rewrite Ed, Es. }
  exists ok, false, fin, spc, u'. split; [|done]. by rewrite (bind_run _ _ _ _ _ Hrun).
Qed.

Lemma name_frame_run e spc fs f u :
  of_process u -> frames_ u = fs ++ [f] -> put_function [] 0 f = f -> name_frame P e spc u = Done (tt, put_frames (fs ++ [f]) u).
Proof.
  intros (_ & _ & Hn & _) Hf Hp. unfold name_frame. rewrite bind_get, Hn. unfold bind at 1, ret at 1.
  unfold update_last, modify. by rewrite Hf, last_snoc, removelast_last, Hp.
Qed.

(** What an iteration does: whether its frame is kept, and the new variables of the loop. *)
Definition iteration_is u (f : FrameData) (keep : bool) (go_on : option (bool * Regs)) (r : option (names * bool)) u' : Prop :=
  max_frames_ u' = max_frames_ u /\ of_process u' /\ frames_ u' = frames_ u ++ (if keep then [f] else []) /\
  match go_on with
  | None => r = None
  | Some (attempt, regs) => r = Some (None, attempt) /\ u_regs u' = regs
  end.

Lemma same_place_inv regs regs' same :
  same_place regs regs' = Some same ->
  exists pc sp pc' sp', reg_at (pc_reg regs) regs = Some pc /\ reg_at (sp_reg regs) regs = Some sp /\
    reg_at (pc_reg regs') regs' = Some pc' /\ reg_at (sp_reg regs') regs' = Some sp' /\ same = (pc =? pc') && (sp =? sp').
Proof.
  intros (pc & ? & (sp & ? & (pc' & ? & (sp' & ? & [= <-])%bind_Some)%bind_Some)%bind_Some)%bind_Some.
  by exists pc, sp, pc', sp'.
Qed.

(** The end of an iteration: the comparison with the registers at its start. *)
Lemma compare_run u f u' pc sp attempt regs same :
  reg_at (pc_reg (u_regs u)) (u_regs u) = Some pc -> reg_at (sp_reg (u_regs u)) (u_regs u) = Some sp ->
  same_place (u_regs u) regs = Some same -> u_regs u' = regs ->
  max_frames_ u' = max_frames_ u -> of_process u' -> frames_ u' = frames_ u ++ [f] ->
  exists r u'', (pc' <- cur_pc ;; sp' <- cur_sp ;;
    if (pc =? pc') && (sp =? sp') then set_error_code ERROR_REPEATED_FRAME ;; ret None else ret (Some (None, attempt))) u'
    = Done (r, u'') /\ iteration_is u f true (if same then None else Some (attempt, regs)) r u''.
Proof.
  intros Hpc Hsp (pc1 & sp1 & pc' & sp' & Hpc1 & Hsp1 & Hpc' & Hsp' & ->)%same_place_inv Hr Hm Hu Hf. rewrite <- Hr in *.
  rewrite (bind_run _ _ _ _ _ (cur_pc_run u' pc' Hpc')), (bind_run _ _ _ _ _ (cur_sp_run u' sp' Hsp')).
  assert (pc1 = pc) as -> by congruence. assert (sp1 = sp) as -> by congruence.
  destruct (_ && _).
  - unfold set_error_code. rewrite bind_modify. do 2 eexists. split; [reflexivity|]. by repeat (split; [done|]).
  - do 2 eexists. split; [reflexivity|]. by repeat (split; [done|]).
Qed.

(** What follows the step, for every result of it. *)
Lemma rest_run u f nx attempt keep go_on u' pc sp ok device fin :
  reg_at (pc_reg (u_regs u)) (u_regs u) = Some pc -> reg_at (sp_reg (u_regs u)) (u_regs u) = Some sp ->
  resume (num_frames u) attempt (u_regs u) nx = Some (keep, go_on) ->
  max_frames_ u' = max_frames_ u -> of_process u' -> frames_ u' = frames_ u ++ [f] -> next_is nx (ok, device, fin) u' ->
  exists r u'', (if (fin : bool) then ret None
    else
      attempt <-? after_step attempt ok device ;;
      pc' <- cur_pc ;;
      sp' <- cur_sp ;;
      if (pc =? pc') && (sp =? sp') then set_error_code ERROR_REPEATED_FRAME ;; ret None
      else ret (Some (None, attempt))) u' = Done (r, u'') /\ iteration_is u f keep go_on r u''.
Proof.
  intros Hpc Hsp Hres Hm Hu Hf Hnx. destruct nx as [|regs|dev regs]; cbn in Hres, Hnx.
  - subst fin. injection Hres as <- <-. do 2 eexists. split; [reflexivity|]. by repeat (split; [done|]).
  - destruct Hnx as [[= -> -> ->] Hr]. apply bind_Some in Hres as (same & Hsame & [= <- <-]).
    set (u1 := if max_frames_ u' =? num_frames u' then put_last_error (set_code ERROR_MAX_FRAMES_EXCEEDED (last_error_ u')) u' else u').
    rewrite (obind_run _ _ _ false u1).
    2:{ unfold after_step, set_error_code, u1. rewrite bind_get. cbn [negb]. by destruct (_ =? _). }
    destruct (compare_run u f u1 pc sp false regs same Hpc Hsp Hsame) as (r & u'' & Hrun & His);
      [unfold u1; by destruct (_ =? _)..|]. by exists r, u''.
  - destruct Hnx as [[= -> -> ->] Hr]. unfold obind. destruct attempt.
    + destruct (Z.ltb_spec (num_frames u) 2) as [|Hn]; [done|]. injection Hres as <- <-.
      rewrite (bind_run _ _ None _ (put_frames (frames_ u) u')).
      2:{ unfold after_step. rewrite bind_get. cbn [negb]. rewrite (bind_run _ _ true u' u').
          - rewrite bind_modify, Hf, removelast_last. done.
          - unfold num_frames. rewrite Hf, length_app. unfold num_frames in Hn. destruct (frames_ u) as [|g fs] eqn:Efs; [simpl in Hn; lia|].
            cbn [app]. rewrite (proj2 (Z.ltb_lt _ _)); [done|]. simpl in *. lia. }
      do 2 eexists. split; [reflexivity|]. split; [done|]. split; [done|]. split; [|done]. cbn. by rewrite app_nil_r.
    + destruct dev.
      * injection Hres as <- <-. rewrite (bind_run _ _ None _ u') by done.
        do 2 eexists. split; [reflexivity|]. by repeat (split; [done|]).
      * pose proof Hu as (Ha & Hpm & _).
        destruct (RegsArch.SetPcFromReturnAddress arch pm regs) as [[[] regs2]|] eqn:E; [| |done].
        -- apply bind_Some in Hres as (same & Hsame & [= <- <-]). rewrite (bind_run _ _ (Some true) _ (put_u_regs regs2 u')).
           2:{ unfold after_step. rewrite bind_get. cbn [negb]. unfold bind at 1, lift. by rewrite Ha, Hpm, Hr, E. }
           destruct (compare_run u f (put_u_regs regs2 u') pc sp true regs2 same Hpc Hsp Hsame) as (r & u'' & Hrun & His); [done..|].
           by exists r, u''.
        -- injection Hres as <- <-. rewrite (bind_run _ _ None _ (put_u_regs regs2 u')).
           2:{ unfold after_step. rewrite bind_get. cbn [negb]. unfold bind at 1, lift. by rewrite Ha, Hpm, Hr, E. }
           do 2 eexists. split; [reflexivity|]. by repeat (split; [done|]).
Qed.

Lemma iteration_run attempt adjust u f nx keep go_on :
  of_process u -> step_frame (num_frames u) adjust (u_regs u) = Some (f, nx) ->
  resume (num_frames u) attempt (u_regs u) nx = Some (keep, go_on) ->
  exists r u', iteration L os P None None attempt adjust u = Done (r, u') /\ iteration_is u f keep go_on r u'.
Proof.
  intros Hu (pc & Hpc & (sp & Hsp & Hs)%bind_Some)%bind_Some Hres.
  destruct (Z.eqb_spec (dex_pc_ (u_regs u)) 0) as [Hd|]; [|done]. cbn [negb] in Hs.
  unfold iteration. rewrite (bind_run _ _ _ _ _ (cur_pc_run u pc Hpc)), (bind_run _ _ _ _ _ (cur_sp_run u sp Hsp)).
  destruct (map_of l pc) as [i|] eqn:Ei.
  - apply bind_Some in Hs as (o & Ho & Hs).
    destruct (locate_mapped adjust i o pc u Hu Hpc Ei Ho) as (k & e & u1 & Hloc & (Em1 & Er1 & Ef1 & Hu1) & Hk & Hobj).
    specialize (Hu1 Hu). rewrite (obind_run _ _ _ _ _ Hloc). rewrite <- Er1 in Hpc, Hsp, Hd.
    destruct (add_frames_mapped k e adjust i o pc sp u1 Hu1 Hpc Hsp Hd Hk Hobj) as (u2 & Hadd & Em2 & Er2 & Ef2 & Hu2).
    assert (num_frames u1 = num_frames u) as En by (unfold num_frames; by rewrite Ef1).
    rewrite En in Ef2. rewrite (obind_run _ _ _ _ _ Hadd).
    destruct (step_run k e adjust i o pc sp (num_frames u) (frames_ u1) f nx u2 Hu2 Hk Hobj) as
      (ok & device & fin & spc & u3 & Hstep & (Em3 & Ef3 & Hu3) & Hnx); [by rewrite Er2|exact Ef2|by rewrite Er2, Er1|].
    rewrite (bind_run _ _ _ _ _ Hstep). cbn [ps_map position_of]. cbv iota.
    assert (put_function [] 0 f = f) as Hpf.
    { unfold mapped_step in Hs. destruct (_ || _) in Hs; [by injection Hs as <- _|].
      destruct (RegsArch.StepIfSignalHandler _ _ _ _ _) as [[[] ?]|]; [by injection Hs as <- _| |done].
      by apply bind_Some in Hs as ([[? ?] ?] & _ & [= <- _]). }
    rewrite (bind_run _ _ _ _ _ (name_frame_run e spc (frames_ u1) f u3 Hu3 Ef3 Hpf)).
    rewrite Er1 in Hpc, Hsp.
    apply (rest_run u f nx attempt keep go_on _ pc sp ok device fin); try done; cbn; congruence.
  - injection Hs as <- <-.
    destruct (locate_unmapped adjust pc u Hu Hpc Ei) as (u1 & Hloc & (Em1 & Er1 & Ef1 & Hu1)).
    specialize (Hu1 Hu). rewrite (obind_run _ _ _ _ _ Hloc). rewrite <- Er1 in Hpc, Hsp, Hd.
    destruct (add_frames_unmapped pc sp u1 Hu1 Hpc Hsp Hd) as (u2 & Hadd & Em2 & Er2 & Ef2 & Hu2).
    rewrite (obind_run _ _ _ _ _ Hadd). unfold step. cbn [ps_map]. unfold bind at 1, ret at 1. cbv iota.
    unfold bind at 1, ret at 1. rewrite Er1 in Hpc, Hsp.
    eapply (rest_run u _ (Stuck false (u_regs u)) attempt keep go_on u2 pc sp false false false); try done; [congruence| |].
    + rewrite Ef2, Ef1. unfold num_frames. by rewrite Ef1.
    + split; [done|]. congruence.
Qed.

(** ** The loop *)

Lemma loop_run n attempt adjust u fs :
  of_process u -> Z.of_nat n = max_frames_ u - num_frames u ->
  callers n (num_frames u) attempt adjust (u_regs u) = Some fs ->
  exists k u', (k <= n)%nat /\ runs L os P None k None attempt adjust u (Done (tt, u')) /\ frames_ u' = frames_ u ++ fs.
Proof.
  revert attempt adjust u fs. induction n as [|n IH]; intros attempt adjust u fs Hu Hn Hc.
  { injection Hc as <-. exists 0%nat, u. split; [done|]. split; [constructor; lia|]. by rewrite app_nil_r. }
  cbn [callers] in Hc. apply bind_Some in Hc as ([f nx] & Hs & ([keep go_on] & Hres & (rest & Hrest & [= <-])%bind_Some)%bind_Some).
  destruct (iteration_run attempt adjust u f nx keep go_on Hu Hs Hres) as (r & u1 & Hit & Hm1 & Hu1 & Hf1 & Hr).
  destruct go_on as [[attempt' regs']|].
  2:{ injection Hrest as <-. subst r. exists 1%nat, u1. split; [lia|]. split; [constructor; [lia|done]|].
      rewrite Hf1. by destruct keep. }
  destruct Hr as [-> Hregs]. assert (keep = true) as ->.
  { unfold resume in Hres. destruct nx as [|?|device ?]; [done|by apply bind_Some in Hres as (? & _ & [= <- _])|].
    destruct attempt; [by destruct (_ <? _)|]. destruct device; [done|].
    destruct (RegsArch.SetPcFromReturnAddress _ _ _) as [[[] ?]|]; [|done|done]. by apply bind_Some in Hres as (? & _ & [= <- _]). }
  assert (num_frames u1 = num_frames u + 1) as En by (unfold num_frames; rewrite Hf1, length_app; simpl; lia).
  destruct (IH attempt' true u1 rest Hu1) as (k & u' & Hk & Hrun & Hf'); [lia|by rewrite En, Hregs|].
  exists (S k), u'. split; [lia|]. split; [econstructor; [lia|exact Hit|exact Hrun]|]. rewrite Hf', Hf1. by rewrite <- app_assoc.
Qed.
End Chain.

(** An unwind without names computes the chain of callers: from any state of the caches that the
    objects allow, its frames are those of [callers], at most [max_frames]. *)
Lemma unwind_callers arch pm l objects L os P ms u fs fuel :
  maps_ok ms l -> (forall e o, objects e = Some o -> ObjectSteps P o) -> of_process arch pm objects ms u ->
  (Z.to_nat (max_frames_ u) < fuel)%nat ->
  callers arch pm l objects (Z.to_nat (max_frames_ u)) 0 false false (u_regs u) = Some fs ->
  exists u', Unwind L os P fuel None None u = Done (tt, u') /\ frames_ u' = fs.
Proof.
  intros Hmaps Hobjects Hu Hfuel Hchain. destruct (Z.le_gt_cases (max_frames_ u) 0) as [Hm|Hm].
  - replace (Z.to_nat (max_frames_ u)) with 0%nat in * by lia. injection Hchain as <-. exists (reset u). split; [|done].
    apply (unwind_runs L os P None None 0); [|lia]. constructor. unfold num_frames. cbn. lia.
  - destruct (loop_run arch pm l objects L os P ms Hmaps Hobjects (Z.to_nat (max_frames_ u)) false false (reset u) fs)
      as (k & u' & Hk & Hrun & Hf); [done|unfold num_frames; cbn; lia|done|].
    exists u'. split; [|done]. apply (unwind_runs L os P None None k); [done|lia].
Qed.

(** * Objects with DWARF sections *)

(** An object whose unwind information is the contents of a [.debug_frame] and of an [.eh_frame]; one that
    it does not have is a null pointer. *)
Record dwarf_object := mkDwarf {
  dw_addr : addr_type;
  dw_debug : option section_contents;
  dw_eh : option section_contents;
  dw_bias : Z;
  dw_memory : Memory
}.

Definition dwarf_promise (x : dwarf_object) : object_promise :=
  elf_promise (dw_addr x) (contents_promise (dw_addr x) <$> dw_debug x) (contents_promise (dw_addr x) <$> dw_eh x) (dw_bias x) (dw_memory x).

(** The sections hold their entries. *)
Definition dwarf_ok (P : params) (x : dwarf_object) : Prop :=
  forall s, dw_debug x = Some s \/ dw_eh x = Some s -> contents_ok (dw_addr x) (p_fuel P) s.

(** The object as it is before its first step. *)
Definition fresh_object (x : dwarf_object) (obj : Elf) : Prop :=
  valid_ obj = true /\ load_bias_ obj = dw_bias x /\ memory_or_empty (elf_memory obj) = dw_memory x /\ gnu_set_ obj = false /\
  exists i, interface_ obj = Some (Interface (dw_addr x) i) /\ debug_frame_ i = section_of <$> dw_debug x /\
    eh_frame_ i = section_of <$> dw_eh x.

Lemma dwarf_object_steps P x :
  (forall m, p_order P m ≡ₚ map_to_list m) -> dwarf_ok P x -> ObjectSteps P (dwarf_promise x).
Proof.
  intros Horder Hok. apply elf_object_steps; intros p (s & Hs & ->)%fmap_Some; (apply contents_steps; [done|]); apply Hok; [by left|by right].
Qed.

Lemma fresh_object_inv P x obj : dwarf_ok P x -> fresh_object x obj -> op_inv (dwarf_promise x) obj.
Proof.
  intros Hok (Hv & Hb & Hm & Hg & i & Hi & Hd & He). do 4 (split; [done|]). exists i. split; [done|]. unfold dwarf_ok in Hok.
  split; rewrite ?Hd, ?He.
  - destruct (dw_debug x) as [s|]; [|done]. apply (contents_fresh _ (p_fuel P)), Hok. by left.
  - destruct (dw_eh x) as [s|]; [|done]. apply (contents_fresh _ (p_fuel P)), Hok. by right.
Qed.

(** * Property *)

(** C1. From the bytes of the unwind sections to the frames: in a process whose maps belong to objects
    with an encoded [.debug_frame], [.eh_frame] or both, the latter with a header table or without, an
    unwind without names yields the chain of callers, a function of the registers, the maps, the
    memory of the process and the rows of the FDEs. Each pc is looked up in its map, each step but that of a signal frame is taken at the call
    before the return address, a frame without unwind information is left by its return address, and
    the chain ends where a return address is zero, where nothing changes, or after [max_frames]. *)
Theorem unwind_computes_callers L os P arch l ms (dwarf : gmap Z dwarf_object) u fs fuel
  (Horder : forall m, p_order P m ≡ₚ map_to_list m) (Hmaps : maps_ok ms l)
  (Hdwarf : forall e x, dwarf !! e = Some x -> dwarf_ok P x)
  (Hworld : w_maps (u_world u) = ms)
  (Hfresh : forall e x, dwarf !! e = Some x -> exists obj, elfs (u_world u) !! e = Some obj /\ fresh_object x obj)
  (Harch : u_arch u = arch) (Hnames : resolve_names_ u = false)
  (Hfuel : (Z.to_nat (max_frames_ u) < fuel)%nat)
  (Hchain : callers arch (process_memory_ u) l (fun e => dwarf_promise <$> dwarf !! e) (Z.to_nat (max_frames_ u)) 0 false false (u_regs u)
            = Some fs) :
  exists u', Unwind L os P fuel None None u = Done (tt, u') /\ frames_ u' = fs.
Proof.
  eapply (unwind_callers arch (process_memory_ u) l (fun e => dwarf_promise <$> dwarf !! e)); try done.
  - intros e o (x & Hx & ->)%fmap_Some. by apply dwarf_object_steps; [|by eapply Hdwarf].
  - split; [done|]. split; [done|]. split; [done|]. split; [done|]. intros e o (x & Hx & ->)%fmap_Some.
    destruct (Hfresh e x Hx) as (obj & He & Hobj). exists obj. split; [done|]. eapply fresh_object_inv; [by eapply Hdwarf|done].
Qed.

(** * Witness *)

(** The function of [DwarfEhFrameStep] calls itself: it is at 0x1002, and its caller, in its body, at
    0x1050; that one has no caller. *)
Definition chain_stack : Memory :=
  MemoryBuffer.memory (MemoryBuffer.mk (le_bytes 64 (2 ^ 64 * 40 + 2 ^ 128 * 0x1050 + 2 ^ 320 * 7))).
Definition chain_memory : Memory := MemoryBuffer.memory (MemoryBuffer.mk demo_bytes).
Definition chain_map : MapInfo := put_map_elf 0 (new_MapInfo None 0 0x3000 0 5 [x61]).
Definition chain_maps : Maps := mkMaps {[0 := chain_map]} 1 [Some 0] [].
Definition chain_interface : ElfInterface := put_eh_frame (Some (HdrSection demo_hdr)) (new_ElfInterface chain_memory).
Definition chain_elf : Elf :=
  mkElfObject true 0 (Some (Interface U64 chain_interface)) (Some chain_memory) EM_X86_64 ELFCLASS64 ARCH_X86_64 None None false.
Definition chain_object : dwarf_object :=
  mkDwarf U64 None (Some (WithHeader (buffer_bytes demo_bytes) demo_hdr [(0x1000, demo_fde_at)] demo_fdes)) 0 chain_memory.
Definition chain_regs : Regs :=
  put_reg RegsX86_64.X86_64_REG_RIP 0x1002 (put_reg RegsX86_64.X86_64_REG_RSP 8 (put_reg RegsX86_64.X86_64_REG_RBP 5 RegsX86_64.new)).
Definition chain_unwinder : Unwinder :=
  mkUnwinder 16 ARCH_X86_64 chain_regs [] chain_stack None None false true false false (mkErrorData ERROR_NONE 0)
    (mkWorld chain_maps {[0 := chain_elf]} 1 false ∅).
Definition chain_frames : list FrameData :=
  [put_frame_map [] chain_map 0 (bare_frame 0 0x1002 0x1002 8); put_frame_map [] chain_map 0 (bare_frame 1 0x104f 0x104f 24)].

(** The header is compared, not computed. *)
#[local] Strategy 100 [demo_hdr].

Lemma chain_maps_ok : maps_ok chain_maps [chain_map].
Proof.
  split.
  - by intros [|[|i]].
  - done.
  - simpl. lia.
  - intros m ->%list_elem_of_singleton. simpl. lia.
  - intros [|i] [|j] m n; simpl; try lia; done.
Qed.

Lemma unwind_computes_callers_witness :
  let L := mkDexLib (fun _ _ _ => None) (fun _ _ _ => (None, 0, [])) (fun _ _ => (0, [])) in
  let os := mkSystem 4096 (fun _ => None) (fun _ _ _ => false) in
  let P := mkParams 9 map_to_list (fun l => l) 0 (mkUnpacker unit tt (fun _ _ _ => (tt, [], 0, false, false)) (fun _ => false)) in
  exists u', Unwind L os P 17 None None chain_unwinder = Done (tt, u') /\ frames_ u' = chain_frames.
Proof.
  intros L os P. apply (unwind_computes_callers L os P ARCH_X86_64 [chain_map] chain_maps {[0 := chain_object]}).
  - done.
  - exact chain_maps_ok.
  - intros e x [<- <-]%lookup_singleton_Some s [[=]|[= <-]]. split; [exact demo_frames_ok|exact demo_hdr_ok].
  - reflexivity.
  - intros e x [<- <-]%lookup_singleton_Some. exists chain_elf. split; [apply lookup_singleton_eq|].
    do 4 (split; [reflexivity|]). exists chain_interface. split; [reflexivity|]. split; reflexivity.
  - reflexivity.
  - reflexivity.
  - simpl. lia.
  - vm_compute. reflexivity.
Defined.
