(* ===== verification/UnwinderFormat.v ===== *)
(** [Unwinder.cpp]: the text of a frame, the setters, and the unwinder of a process.

    [demangle] is a parameter. A frame is printed with its number and its relative pc first, which
    [parse_frame] reads back. *)
From Stdlib Require Import ZArith Lia Bool Strings.Byte Strings.String.
From stdpp Require Import base numbers list gmap.
From S2P Require Import Prelude Memory Regs ElfTypes ElfInterface RegsArch Maps Elf MapInfo Global JitDebug DexFiles Unwinder.
#[local] Open Scope Z_scope.

(** * [printf] *)

(** The digits of a number; 64 are enough for a [uint64_t] in each base. *)
Fixpoint digits_loop (fuel : nat) (base n : Z) (acc : list byte) : list byte :=
  match fuel with
  | O => acc
  | S fuel' =>
      let acc := hex_digit (n mod base) :: acc in
      if n / base =? 0 then acc else digits_loop fuel' base (n / base) acc
  end.

Definition digits (base n : Z) : list byte := digits_loop 64 base n [].

(** [%0<width>], padded with zeros *)
Definition pad (width : nat) (s : list byte) : list byte := replicate (width - length s) x30 ++ s.

(** [PRIx64], and [PRId64] of the signed type *)
Definition print_x (n : Z) : list byte := digits 16 n.
Definition print_d (n : Z) : list byte := if n <? 0 then x2d :: digits 10 (- n) else digits 10 n.

Definition text : string -> list byte := list_byte_of_string.

(** * [FormatFrame] *)

Section Format.
Context (demangle : list byte -> list byte).

(** Everything in front of the build identifier *)
Definition frame_text (is32 : bool) (f : FrameData) : list byte :=
  text "  #" ++ pad 2 (digits 10 (f_num f)) ++ text " pc " ++ pad (if is32 then 8 else 16) (print_x (f_rel_pc f)) ++
  (if f_map_start f =? f_map_end f then text "  <unknown>"
   else if negb (bool_decide (f_map_name f = [])) then text "  " ++ f_map_name f
   else text "  <anonymous:" ++ print_x (f_map_start f) ++ text ">") ++
  (if f_map_elf_start_offset f =? 0 then [] else text " (offset 0x" ++ print_x (f_map_elf_start_offset f) ++ text ")") ++
  (if bool_decide (f_function_name f = []) then []
   else text " (" ++ demangle (c_str (f_function_name f)) ++
        (if f_function_offset f =? 0 then [] else text "+" ++ print_d (sgn 64 (f_function_offset f))) ++ text ")").

Context (os : system) (P : params).

(** [saved] is the result of the exchange in [GetBuildID]. *)
Definition FormatFrame (saved : bool) (f : FrameData) : MU (list byte) :=
  u <- get ;;
  let data := frame_text (Is32Bit (u_arch u)) f in
  info <- find_map (f_map_start f) ;;
  match info with
  | Some k =>
      if display_build_id_ u then
        id <- in_world (GetPrintableBuildID os P k saved) ;;
        ret (if bool_decide (id = []) then data else data ++ text " (BuildId: " ++ id ++ text ")")
      else ret data
  | None => ret data
  end.

(** [FormatFrame(size_t)] *)
Definition FormatFrame_num (saved : bool) (frame_num : Z) : MU (list byte) :=
  u <- get ;;
  match frames_ u !! Z.to_nat frame_num with
  | None => ret []
  | Some f => FormatFrame saved f
  end.

(** * Setters *)

Definition ConsumeFrames : MU (list FrameData) := frames <- gets frames_ ;; modify (put_frames []) ;; ret frames.

Definition run_object {G B} (m : M G B) (g : G) (k : G -> Unwinder -> Unwinder) : MU unit := fun u =>
  match m g with Done (_, g) => Done (tt, k g u) | Fault f => Fault f end.

Definition SetJitDebug (jit_debug : JitDebug) (arch : ArchEnum) : MU unit :=
  run_object (SetArch arch) jit_debug (fun j u => put_jit j (u_world u) u).
Definition SetDexFiles (dex_files : DexFiles) (arch : ArchEnum) : MU unit :=
  run_object (SetArch arch) dex_files (fun d u => put_dex_files d (u_world u) u).

Definition put_options (resolve_names embedded_soname display_build_id : bool) (u : Unwinder) : Unwinder :=
  mkUnwinder (max_frames_ u) (u_arch u) (u_regs u) (frames_ u) (process_memory_ u) (jit_debug_ u) (dex_files_ u)
    resolve_names embedded_soname display_build_id (elf_from_memory_not_file_ u) (last_error_ u) (u_world u).
Definition SetResolveNames (resolve : bool) : MU unit :=
  modify (fun u => put_options resolve (embedded_soname_ u) (display_build_id_ u) u).
Definition SetEmbeddedSoname (embedded_soname : bool) : MU unit :=
  modify (fun u => put_options (resolve_names_ u) embedded_soname (display_build_id_ u) u).
Definition SetDisplayBuildID (display_build_id : bool) : MU unit :=
  modify (fun u => put_options (resolve_names_ u) (embedded_soname_ u) display_build_id u).
Definition SetRegs (arch : ArchEnum) (regs : Regs) : MU unit :=
  modify (fun u => mkUnwinder (max_frames_ u) arch regs (frames_ u) (process_memory_ u) (jit_debug_ u) (dex_files_ u)
    (resolve_names_ u) (embedded_soname_ u) (display_build_id_ u) (elf_from_memory_not_file_ u) (last_error_ u) (u_world u)).

(** [Unwinder::Unwinder] *)
Definition new_Unwinder (max_frames : Z) (arch : ArchEnum) (regs : Regs) (process_memory : Memory) (w : World) : Unwinder :=
  mkUnwinder max_frames arch regs [] process_memory None None true true false false (mkErrorData ERROR_NONE 0) w.

(** * [UnwinderFromPid] *)

Definition put_process_memory (m : Memory) (u : Unwinder) : Unwinder :=
  mkUnwinder (max_frames_ u) (u_arch u) (u_regs u) (frames_ u) m (jit_debug_ u) (dex_files_ u)
    (resolve_names_ u) (embedded_soname_ u) (display_build_id_ u) (elf_from_memory_not_file_ u) (last_error_ u) (u_world u).

(** The entries of the maps file of the process and whether it could be read to its end, and the
    memory that [CreateProcessMemoryCached] returns. *)
Definition FromPid_Init (entries : list map_entry) (readable : bool) (process_memory : Memory) (arch : ArchEnum) : MU bool :=
  ok <- in_world (on_maps (modify (fun _ => new_Maps) ;; Parse entries readable)) ;;
  if negb ok then ret false
  else
    modify (put_process_memory process_memory) ;;
    SetJitDebug (new_JitDebug process_memory []) arch ;;
    SetDexFiles (new_DexFiles process_memory []) arch ;;
    ret true.
End Format.

(** * Reading a frame back *)

Definition digit_value (b : byte) : option Z :=
  let v := byte_val b in
  if (48 <=? v) && (v <=? 57) then Some (v - 48) else if (97 <=? v) && (v <=? 102) then Some (v - 87) else None.

(** The number in front, and the rest. *)
Fixpoint parse_digits (base v : Z) (s : list byte) : Z * list byte :=
  match s with
  | [] => (v, [])
  | b :: s' =>
      match digit_value b with
      | Some d => if d <? base then parse_digits base (v * base + d) s' else (v, s)
      | None => (v, s)
      end
  end.

Definition strip (prefix s : list byte) : option (list byte) :=
  if starts_with prefix s then Some (drop (length prefix) s) else None.

Definition parse_frame (s : list byte) : option (Z * Z) :=
  s ← strip (text "  #") s;
  let '(num, s) := parse_digits 10 0 s in
  s ← strip (text " pc ") s;
  Some (num, fst (parse_digits 16 0 s)).

Lemma digit_value_hex d : 0 <= d < 16 -> digit_value (hex_digit d) = Some d.
Proof.
  intros Hd. assert (forallb (fun n => bool_decide (digit_value (hex_digit (Z.of_nat n)) = Some (Z.of_nat n))) (seq 0 16) = true) as H
    by (vm_compute; reflexivity).
  rewrite forallb_forall in H. specialize (H (Z.to_nat d)). rewrite Z2Nat.id in H by lia. apply (bool_decide_eq_true_1 _), H, in_seq. lia.
Qed.

(** A text that a number can stand in front of *)
Definition ends_number (s : list byte) : Prop := match s with [] => True | b :: _ => digit_value b = None end.

Lemma parse_digits_end base v s : ends_number s -> parse_digits base v s = (v, s).
Proof. destruct s as [|b s]; [done|]. cbn. by intros ->. Qed.

Lemma parse_digits_loop base fuel n acc v :
  2 <= base <= 16 -> 0 <= n < base ^ Z.of_nat fuel -> (0 < fuel)%nat ->
  exists k, 0 <= k /\ parse_digits base v (digits_loop fuel base n acc) = parse_digits base (v * base ^ k + n) acc.
Proof.
  intros Hb. revert n acc v. induction fuel as [|fuel IH]; intros n acc v Hn Hf; [lia|]. cbn [digits_loop].
  pose proof (Z.mod_pos_bound n base ltac:(lia)) as Hm. pose proof (Z.div_mod n base ltac:(lia)) as Hd.
  assert (forall v, parse_digits base v (hex_digit (n mod base) :: acc) = parse_digits base (v * base + n mod base) acc) as Hone.
  { intros v'. cbn [parse_digits]. rewrite digit_value_hex by lia. by destruct (Z.ltb_spec (n mod base) base); [|lia]. }
  destruct (Z.eqb_spec (n / base) 0) as [E|E].
  - exists 1. split; [lia|]. rewrite Hone, Z.pow_1_r. f_equal. lia.
  - assert (0 <= n / base < base ^ Z.of_nat fuel) as Hn'.
    { split; [apply Z.div_pos; lia|]. apply Z.div_lt_upper_bound; [lia|].
      rewrite Nat2Z.inj_succ, Z.pow_succ_r in Hn by lia. lia. }
    destruct fuel as [|fuel]; [cbn in Hn'; lia|].
    destruct (IH (n / base) (hex_digit (n mod base) :: acc) v Hn' ltac:(lia)) as (k & Hk & Hp).
    exists (k + 1). split; [lia|]. rewrite Hp, Hone. f_equal. rewrite Z.pow_add_r by lia. lia.
Qed.

Lemma parse_zeros base n s : 2 <= base -> parse_digits base 0 (replicate n x30 ++ s) = parse_digits base 0 s.
Proof.
  intros Hb. induction n as [|n IH]; [done|]. cbn [replicate app parse_digits].
  change (digit_value x30) with (Some 0). cbv iota beta. destruct (Z.ltb_spec 0 base); [|lia]. exact IH.
Qed.

(** A padded number is read back. *)
Lemma parse_pad base width n s :
  2 <= base <= 16 -> 0 <= n < 2 ^ 64 -> ends_number s ->
  parse_digits base 0 (pad width (digits base n) ++ s) = (n, s).
Proof.
  intros Hb Hn Hs. unfold pad, digits. rewrite <- app_assoc, parse_zeros by lia.
  assert (forall fuel m acc, digits_loop fuel base m acc ++ s = digits_loop fuel base m (acc ++ s)) as Happ.
  { induction fuel as [|fuel IH]; intros m acc; [done|]. cbn [digits_loop]. destruct (m / base =? 0); [done|]. by rewrite IH. }
  rewrite Happ. cbn [app]. assert (2 ^ 64 <= base ^ 64) by (apply Z.pow_le_mono_l; lia).
  destruct (parse_digits_loop base 64 n s 0) as (k & Hk & ->); [lia|change (Z.of_nat 64) with 64; lia|lia|].
  rewrite parse_digits_end by done. by rewrite Z.mul_0_l.
Qed.

Lemma strip_app prefix s : strip prefix (prefix ++ s) = Some s.
Proof. unfold strip, starts_with. rewrite take_app_length, drop_app_length. by rewrite bool_decide_eq_true_2. Qed.

(** The number and the relative pc of every frame are read back from its text, whatever follows
    it. *)
Theorem frame_text_roundtrip demangle is32 f suffix
  (Hnum : 0 <= f_num f < 2 ^ 64) (Hpc : 0 <= f_rel_pc f < 2 ^ 64) :
  parse_frame (frame_text demangle is32 f ++ suffix) = Some (f_num f, f_rel_pc f).
Proof.
  unfold frame_text. rewrite <- !app_assoc. unfold parse_frame. rewrite strip_app. cbn [mbind option_bind].
  rewrite parse_pad by first [lia|done]. rewrite strip_app. cbn [mbind option_bind]. unfold print_x. rewrite parse_pad; [done|lia|lia|].
  destruct (f_map_start f =? f_map_end f); [done|]. by destruct (negb _).
Qed.

Lemma frame_text_roundtrip_witness :
  let f := put_function [x61] 5 (bare_frame 3 0x1234 0x71234 0x1000) in
  frame_text (fun n => n) true f = text "  #03 pc 00001234  <unknown> (a+5)" /\
  parse_frame (frame_text (fun n => n) true f ++ []) = Some (3, 0x1234).
Proof.
  split; [vm_compute; reflexivity|]. apply (frame_text_roundtrip (fun n => n) true (put_function [x61] 5 (bare_frame 3 0x1234 0x71234 0x1000)) []); cbn; lia.
Defined.
