(* ===== verification/Log.v ===== *)
(** [Log.cpp]: the line that [log] makes of a text. *)
From Stdlib Require Import ZArith Lia Bool Strings.Byte Strings.String.
From stdpp Require Import base numbers list.
From S2P Require Import Prelude UnwinderFormat.
#[local] Open Scope Z_scope.

Abbreviation line := (list byte).

(** What [log] prints for an already formatted text: [%*s] of a space in front of it. [indent] is a byte. *)
Definition log_line (indent : Z) (s : line) : line := replicate (Z.to_nat (2 * u8 indent)) x20 ++ s.

(** [" 0x%02x"] *)
Definition hex_byte (v : Z) : line := text " 0x" ++ pad 2 (print_x v).
