(* ===== verification/ArmExidxLog.v ===== *)
(** The object of [ArmExidx.cpp] with its logging members: what the methods print, or note, for each log type
    while they decode, with or without execution, [LogRawData] and [LogByReg].

    [ArmExidx] has the execution of the instructions; a method here puts the log in front of it, as the
    code does. *)
From Stdlib Require Import ZArith Lia Bool Strings.Byte Strings.String.
From stdpp Require Import base numbers list.
From S2P Require Import Prelude StdMap Memory DwarfMemory Regs ArmExidx ArmExidxEval UnwinderFormat Log.
#[local] Open Scope Z_scope.

(** * Data *)

Inductive ArmLogType : Set := ARM_LOG_NONE | ARM_LOG_FULL | ARM_LOG_BY_REG.

#[export] Instance ArmLogType_eq_dec : EqDecision ArmLogType.
Proof. solve_decision. Defined.

Definition LOG_CFA_REG : Z := 64.

(** The object; [printed] are the lines that went to the log. *)
Record LogArm := mkLogArm {
  la_arm : ArmExidx;
  log_type_ : ArmLogType;
  log_indent_ : Z;
  log_skip_execution_ : bool;
  log_cfa_offset_ : Z;
  log_regs_ : list (Z * Z);
  printed : list line
}.

Definition put_la_arm (a : ArmExidx) (s : LogArm) : LogArm :=
  mkLogArm a (log_type_ s) (log_indent_ s) (log_skip_execution_ s) (log_cfa_offset_ s) (log_regs_ s) (printed s).
Definition put_log_cfa_offset (o : Z) (s : LogArm) : LogArm :=
  mkLogArm (la_arm s) (log_type_ s) (log_indent_ s) (log_skip_execution_ s) o (log_regs_ s) (printed s).
Definition put_log_regs (m : list (Z * Z)) (s : LogArm) : LogArm :=
  mkLogArm (la_arm s) (log_type_ s) (log_indent_ s) (log_skip_execution_ s) (log_cfa_offset_ s) m (printed s).
Definition put_printed (l : list line) (s : LogArm) : LogArm :=
  mkLogArm (la_arm s) (log_type_ s) (log_indent_ s) (log_skip_execution_ s) (log_cfa_offset_ s) (log_regs_ s) l.

(** An object on which [set_log], [set_log_indent] and [set_log_skip_execution] were called. *)
Definition set_log (t : ArmLogType) (indent : Z) (skip : bool) (a : ArmExidx) : LogArm := mkLogArm a t indent skip 0 [] [].

Abbreviation AL := (M LogArm).
Definition on_arm {B} (m : AX B) : AL B := zoom la_arm put_la_arm m.
Definition arm_log (s : line) : AL unit := modify (fun st => put_printed (printed st ++ [log_line (log_indent_ st) s]) st).

(** * The notes of [ARM_LOG_BY_REG] *)

(** The sum of two [int32_t] *)
Definition add_int (a b : Z) : outcome Z :=
  if (- 2 ^ 31 <=? a + b) && (a + b <? 2 ^ 31) then Done (a + b) else Fault (Undef UbOverflow).

(** [log_cfa_offset_ += n] for a [uint32_t], and for an [int32_t] *)
Definition add_log_cfa (n : Z) : AL unit := modify (fun s => put_log_cfa_offset (sgn 32 (log_cfa_offset_ s + n)) s).
Definition add_log_cfa_int (n : Z) : AL unit :=
  s <- get ;; o <- lift (add_int (log_cfa_offset_ s) n) ;; modify (put_log_cfa_offset o).

Definition note_reg (reg v : Z) : AL unit := modify (fun s => put_log_regs (map_set reg v (log_regs_ s)) s).

(** The loops that note where registers are popped from. *)
Fixpoint note_pops (regs : list Z) (cfa_offset : Z) : AL unit :=
  match regs with
  | [] => ret tt
  | reg :: rest => note_reg reg (sgn 32 cfa_offset) ;; note_pops rest (u32 (cfa_offset - 4))
  end.

Fixpoint adjust_entries (offset : Z) (m : list (Z * Z)) : outcome (list (Z * Z)) :=
  match m with
  | [] => Done []
  | (reg, v) :: rest =>
      if LOG_CFA_REG <=? reg then Done m
      else
        match add_int v offset with
        | Done v => match adjust_entries offset rest with Done rest => Done ((reg, v) :: rest) | Fault f => Fault f end
        | Fault f => Fault f
        end
  end.

Definition AdjustRegisters (offset : Z) : AL unit :=
  s <- get ;; m <- lift (adjust_entries offset (log_regs_ s)) ;; modify (put_log_regs m).

(** * Texts *)

(** ["r%zu"] *)
Definition reg_name (prefix : string) (r : Z) : line := text prefix ++ digits 10 r.

Fixpoint comma_list (l : list line) : line :=
  match l with
  | [] => []
  | [s] => s
  | s :: l => s ++ text ", " ++ comma_list l
  end.

(** ["pop {"], the names of the registers, and ["}"] *)
Definition pop_text (prefix : string) (regs : list Z) : line := text "pop {" ++ comma_list (map (reg_name prefix) regs) ++ text "}".

(** The first register of a range, and the last one when [has_last] holds. *)
Definition range_text (prefix : string) (first : Z) (has_last : bool) (last : Z) : line :=
  text "pop {" ++ text prefix ++ print_d first ++ (if has_last then text "-" ++ text prefix ++ print_d last else []).

(** * The instructions *)

(** The logging of an instruction in front of its execution. *)
Definition logged (log : ArmLogType -> AL unit) (execute : AX bool) : AL bool :=
  s <- get ;;
  skip <- (if bool_decide (log_type_ s = ARM_LOG_NONE) then ret false
           else log (log_type_ s) ;; s <- get ;; ret (log_skip_execution_ s)) ;;
  if (skip : bool) then ret true else on_arm execute.

(** An instruction that prints one text with [ARM_LOG_FULL], and another otherwise. *)
Definition logged_text (full other : line) : AX bool -> AL bool :=
  logged (fun t => arm_log (if bool_decide (t = ARM_LOG_FULL) then full else other)).

(** An instruction that ends the decoding, with a text unless there is no log. *)
Definition refuse (s : line) (x : ArmStatus) : AL bool :=
  t <- gets log_type_ ;;
  (if bool_decide (t = ARM_LOG_NONE) then ret tt else arm_log s) ;;
  on_arm (arm_fail x).

Definition next_logged (k : Z -> AL bool) : AL bool :=
  o <- on_arm GetByte ;; match o with Some byte => k byte | None => ret false end.

(** [__builtin_popcount] of 16 bits *)
Definition popcount16 (x : Z) : Z := Z.of_nat (length (masked x 0 16)).

(** A pop of registers: their names are printed, or their places noted. *)
Definition log_pop (full : line) (cfa_offset : Z) (regs : list Z) (t : ArmLogType) : AL unit :=
  if bool_decide (t = ARM_LOG_FULL) then arm_log full else add_log_cfa cfa_offset ;; note_pops regs cfa_offset.

(** What [DecodePrefix_10_00] executes. *)
Definition pop_masked (registers : Z) : AX bool :=
  ok <- pop_regs (masked registers 4 12) ;;
  if (ok : bool) then
    (if negb (Z.land registers (Z.shiftl 1 ARM_REG_SP) =? 0) then
       s <- get ;; v <- read_reg ARM_REG_SP (arm_regs s) ;; modify (put_cfa v)
     else ret tt) ;;
    (if negb (Z.land registers (Z.shiftl 1 ARM_REG_PC) =? 0) then modify (put_pc_set true) else ret tt) ;;
    ret true
  else ret false.

Definition logged_mask (registers byte : Z) : AL bool :=
  let registers := Z.lor registers byte in
  if registers =? 0 then refuse (text "Refuse to unwind") ARM_STATUS_NO_UNWIND
  else
    let registers := u16 (Z.shiftl registers 4) in
    logged (log_pop (pop_text "r" (masked registers 4 12)) (popcount16 registers * 4) (masked registers 4 12)) (pop_masked registers).

Definition logged_DecodePrefix_10_00 (byte : Z) : AL bool :=
  if negb (Z.shiftr byte 4 =? 0x8) then fail Aborted
  else next_logged (logged_mask (Z.shiftl (Z.land byte 0xf) 8)).

Definition logged_DecodePrefix_10_01 (byte : Z) : AL bool :=
  if negb (Z.shiftr byte 4 =? 0x9) then fail Aborted
  else
    let bits := Z.land byte 0xf in
    if (bits =? 13) || (bits =? 15) then refuse (text "[Reserved]") ARM_STATUS_RESERVED
    else
      logged (fun t => if bool_decide (t = ARM_LOG_FULL) then arm_log (text "vsp = r" ++ print_d bits) else note_reg LOG_CFA_REG bits)
        (s <- get ;; v <- read_reg bits (arm_regs s) ;; modify (put_cfa v) ;; ret true).

Definition logged_DecodePrefix_10_10 (byte : Z) : AL bool :=
  if negb (Z.shiftr byte 4 =? 0xa) then fail Aborted
  else
    let end_reg := Z.land byte 0x7 in
    let lr := negb (Z.land byte 0x8 =? 0) in
    logged (log_pop (range_text "r" 4 (negb (end_reg =? 0)) (4 + end_reg) ++ (if lr then text ", r14}" else text "}"))
              ((end_reg + 4 - 3) * 4 + (if lr then 4 else 0)) (seqZ 4 (end_reg + 1) ++ (if lr then [ARM_REG_LR] else [])))
      (ok <- pop_regs (seqZ 4 (Z.land byte 0x7 + 1)) ;;
       if (ok : bool) then
         if negb (Z.land byte 0x8 =? 0) then pop_reg ARM_REG_LR else ret true
       else ret false).

Definition logged_DecodePrefix_10_11_0000 : AL bool :=
  t <- gets log_type_ ;;
  (if bool_decide (t = ARM_LOG_FULL) then arm_log (text "finish") else ret tt) ;;
  on_arm (arm_fail ARM_STATUS_FINISH).

Definition logged_low (byte : Z) : AL bool :=
  if byte =? 0 then refuse (text "Spare") ARM_STATUS_SPARE
  else if negb (Z.shiftr byte 4 =? 0) then refuse (text "Spare") ARM_STATUS_SPARE
  else logged (log_pop (pop_text "r" (masked byte 0 4)) (popcount16 (Z.land byte 0xf) * 4) (masked (Z.land byte 0xf) 0 4))
         (pop_regs (masked byte 0 4)).

Definition logged_DecodePrefix_10_11_0001 : AL bool := next_logged logged_low.

(** A change of [vsp]: the offsets of the registers that were popped change with it. *)
Definition log_move (full : line) (note : AL unit) (adjust : Z) (t : ArmLogType) : AL unit :=
  (if bool_decide (t = ARM_LOG_FULL) then arm_log full else note) ;; AdjustRegisters adjust.

Definition logged_DecodePrefix_10_11_0010 : AL bool :=
  s <- get ;;
  uleb_loop next_logged (S (length (data_ (la_arm s)))) 0 0 (fun result =>
    let result := u32 (Z.shiftl result 2) in
    let cfa_offset := sgn 32 (0x204 + result) in
    logged (log_move (text "vsp = vsp + " ++ print_d cfa_offset) (add_log_cfa_int cfa_offset) cfa_offset)
      (add_cfa (u32 (0x204 + result)) ;; ret true)).

Definition no_dx : line := text "Unsupported DX register display".
Definition no_wrx : line := text "Unsupported wRX register display".

Definition logged_fstmfdx (byte : Z) : AL bool :=
  let start_reg := Z.shiftr byte 4 in
  let end_reg := u8 (start_reg + Z.land byte 0xf) in
  logged_text (range_text "d" start_reg (negb (end_reg =? 0)) end_reg ++ text "}") no_dx
    (add_cfa (Z.land byte 0xf * 8 + 12) ;; ret true).

Definition logged_DecodePrefix_10_11_0011 : AL bool := next_logged logged_fstmfdx.

Definition logged_DecodePrefix_10_11_01nn : AL bool := refuse (text "Spare") ARM_STATUS_SPARE.

Definition logged_DecodePrefix_10_11_1nnn (byte : Z) : AL bool :=
  if negb (Z.land byte (Z.lnot 0x07) =? 0xb8) then fail Aborted
  else
    let last_reg := Z.land byte 0x7 in
    logged_text (range_text "d" 8 (negb (last_reg =? 0)) (last_reg + 8) ++ text "}") no_dx
      (add_cfa (Z.land byte 0x7 * 8 + 12) ;; ret true).

Definition logged_DecodePrefix_10 (byte : Z) : AL bool :=
  if negb (Z.shiftr byte 6 =? 0x2) then fail Aborted
  else
    let n := Z.land (Z.shiftr byte 4) 0x3 in
    if n =? 0 then logged_DecodePrefix_10_00 byte
    else if n =? 1 then logged_DecodePrefix_10_01 byte
    else if n =? 2 then logged_DecodePrefix_10_10 byte
    else
      let m := Z.land byte 0xf in
      if m =? 0 then logged_DecodePrefix_10_11_0000
      else if m =? 1 then logged_DecodePrefix_10_11_0001
      else if m =? 2 then logged_DecodePrefix_10_11_0010
      else if m =? 3 then logged_DecodePrefix_10_11_0011
      else if negb (Z.land byte 0x8 =? 0) then logged_DecodePrefix_10_11_1nnn byte
      else logged_DecodePrefix_10_11_01nn.

(** Registers from the high nibble on, as many as the low nibble says and one. *)
Definition logged_counted (prefix : string) (base : Z) (other : line) (byte : Z) : AL bool :=
  let start_reg := Z.shiftr byte 4 in
  let end_reg := Z.land byte 0xf in
  logged_text (range_text prefix (base + start_reg) (negb (end_reg =? 0)) (base + start_reg + end_reg) ++ text "}") other
    (add_cfa (Z.land byte 0xf * 8 + 8) ;; ret true).

Definition logged_wcgr (byte : Z) : AL bool :=
  if byte =? 0 then refuse (text "Spare") ARM_STATUS_SPARE
  else if Z.shiftr byte 4 =? 0 then
    logged_text (pop_text "wCGR" (masked byte 0 4)) (text "Unsupported wCGR register display") (add_cfa (popcount byte * 4) ;; ret true)
  else refuse (text "Spare") ARM_STATUS_SPARE.

Definition logged_DecodePrefix_11_000 (byte : Z) : AL bool :=
  if negb (Z.land byte (Z.lnot 0x07) =? 0xc0) then fail Aborted
  else
    let bits := Z.land byte 0x7 in
    if bits =? 6 then next_logged (logged_counted "wR" 0 no_wrx)
    else if bits =? 7 then
      next_logged logged_wcgr
    else
      let nnn := Z.land byte 0x7 in
      logged_text (range_text "wR" 10 (negb (nnn =? 0)) (10 + nnn) ++ text "}") no_wrx
        (add_cfa (Z.land byte 0x7 * 8 + 8) ;; ret true).

Definition logged_DecodePrefix_11_001 (byte : Z) : AL bool :=
  if negb (Z.land byte (Z.lnot 0x07) =? 0xc8) then fail Aborted
  else
    let bits := Z.land byte 0x7 in
    if bits =? 0 then next_logged (logged_counted "d" 16 no_dx)
    else if bits =? 1 then next_logged (logged_counted "d" 0 no_dx)
    else refuse (text "Spare") ARM_STATUS_SPARE.

Definition logged_DecodePrefix_11_010 (byte : Z) : AL bool :=
  if negb (Z.land byte (Z.lnot 0x07) =? 0xd0) then fail Aborted
  else
    let end_reg := Z.land byte 0x7 in
    logged_text (range_text "d" 8 (negb (end_reg =? 0)) (8 + end_reg) ++ text "}") no_dx
      (add_cfa (Z.land byte 0x7 * 8 + 8) ;; ret true).

Definition logged_DecodePrefix_11 (byte : Z) : AL bool :=
  if negb (Z.shiftr byte 6 =? 0x3) then fail Aborted
  else
    let n := Z.land (Z.shiftr byte 3) 0x7 in
    if n =? 0 then logged_DecodePrefix_11_000 byte
    else if n =? 1 then logged_DecodePrefix_11_001 byte
    else if n =? 2 then logged_DecodePrefix_11_010 byte
    else refuse (text "Spare") ARM_STATUS_SPARE.

(** The [switch] of [Decode] over the first byte. *)
Definition logged_byte (byte : Z) : AL bool :=
  let n := Z.shiftr byte 6 in
  let cfa_offset := Z.shiftl (Z.land byte 0x3f) 2 + 4 in
  if n =? 0 then
    logged (log_move (text "vsp = vsp + " ++ print_d cfa_offset) (add_log_cfa_int cfa_offset) cfa_offset)
      (add_cfa cfa_offset ;; ret true)
  else if n =? 1 then
    logged (log_move (text "vsp = vsp - " ++ print_d cfa_offset) (add_log_cfa (- cfa_offset)) (sgn 32 (- cfa_offset)))
      (add_cfa (- cfa_offset) ;; ret true)
  else if n =? 2 then logged_DecodePrefix_10 byte
  else logged_DecodePrefix_11 byte.

Definition logged_Decode : AL bool :=
  on_arm (modify (put_status ARM_STATUS_NONE)) ;; next_logged logged_byte.

Fixpoint logged_decode_loop (fuel : nat) : AL unit :=
  match fuel with
  | O => fail OutOfFuel
  | S fuel' => ok <- logged_Decode ;; if (ok : bool) then logged_decode_loop fuel' else ret tt
  end.

Definition logged_Eval : AL bool :=
  on_arm (modify (put_pc_set false)) ;;
  s <- get ;;
  logged_decode_loop (S (length (data_ (la_arm s)))) ;;
  gets (fun s => bool_decide (status_ (la_arm s) = ARM_STATUS_FINISH)).

(** * The data of an entry *)

Definition LogRawData : AL unit :=
  s <- get ;; arm_log (text "Raw Data:" ++ concat (map hex_byte (data_ (la_arm s)))).

(** [ExtractEntryData] returns after the message for an entry that cannot be unwound, the only one that sets
    [ARM_STATUS_NO_UNWIND], and prints the data before it returns [true]. *)
Definition logged_ExtractEntryData (entry_offset : Z) : AL bool :=
  ok <- on_arm (ExtractEntryData entry_offset) ;;
  s <- get ;;
  (if (ok : bool) then if bool_decide (log_type_ s = ARM_LOG_FULL) then LogRawData else ret tt
   else if bool_decide (status_ (la_arm s) = ARM_STATUS_NO_UNWIND) && negb (bool_decide (log_type_ s = ARM_LOG_NONE)) then
     (if bool_decide (log_type_ s = ARM_LOG_FULL) then arm_log (text "Raw Data: 0x00 0x00 0x00 0x01") else ret tt) ;;
     arm_log (text "[cantunwind]")
   else ret tt) ;;
  ret ok.

(** * [LogByReg] *)

(** [abs] of an [int32_t] *)
Definition abs_int (v : Z) : outcome Z := if v =? - 2 ^ 31 then Fault (Undef UbOverflow) else Done (Z.abs v).

Fixpoint log_places (m : list (Z * Z)) : AL unit :=
  match m with
  | [] => ret tt
  | (reg, v) :: rest =>
      if LOG_CFA_REG <=? reg then ret tt
      else
        (if v =? 0 then arm_log (reg_name "r" reg ++ text " = [cfa]")
         else n <- lift (abs_int v) ;;
              arm_log (reg_name "r" reg ++ text " = [cfa " ++ text (if 0 <? v then "-" else "+") ++ text " " ++ print_d n ++ text "]")) ;;
        log_places rest
  end.

Definition LogByReg : AL unit :=
  s <- get ;;
  if negb (bool_decide (log_type_ s = ARM_LOG_BY_REG)) then ret tt
  else
    let cfa_reg := match map_find LOG_CFA_REG (log_regs_ s) with None => 13 | Some v => u8 v end in
    let o := log_cfa_offset_ s in
    (if negb (o =? 0) then
       n <- lift (abs_int o) ;;
       arm_log (text "cfa = " ++ reg_name "r" cfa_reg ++ text " " ++ text (if 0 <? o then "+" else "-") ++ text " " ++ print_d n)
     else arm_log (text "cfa = " ++ reg_name "r" cfa_reg)) ;;
    log_places (log_regs_ s).

(** * Logging does not change what is executed *)

(** [m] does to the object what [m0] does, unless the sum of two offsets of the log overflows. *)
Definition erases {B} (m : AL B) (m0 : AX B) : Prop :=
  forall s, log_skip_execution_ s = false ->
    match m s with
    | Done (b, s') => m0 (la_arm s) = Done (b, la_arm s') /\ log_skip_execution_ s' = false /\ log_type_ s' = log_type_ s
    | Fault f => m0 (la_arm s) = Fault f \/ (f = Undef UbOverflow /\ log_type_ s <> ARM_LOG_NONE)
    end.

Lemma erases_ret {B} (b : B) : erases (ret b) (ret b).
Proof. by intros s Hs. Qed.

Lemma erases_fail {B} f : erases (fail f : AL B) (fail f).
Proof. intros s Hs. by left. Qed.

Lemma erases_on_arm {B} (m : AX B) : erases (on_arm m) m.
Proof. intros s Hs. unfold on_arm, zoom. destruct (m (la_arm s)) as [[b a]|f]; [done|by left]. Qed.

Lemma erases_bind {B C} (m : AL B) (m0 : AX B) (k : B -> AL C) (k0 : B -> AX C) :
  erases m m0 -> (forall b, erases (k b) (k0 b)) -> erases (bind m k) (bind m0 k0).
Proof.
  intros Hm Hk s Hs. specialize (Hm s Hs). unfold bind. destruct (m s) as [[b s']|f].
  - destruct Hm as (-> & Hs' & Ht). specialize (Hk b s' Hs'). rewrite Ht in Hk. exact Hk.
  - destruct Hm as [->|[-> ?]]; [by left|by right].
Qed.

(** A part that only logs *)
Lemma erases_quiet {B C} (m : AL B) b (k : B -> AL C) (k0 : AX C) :
  erases m (ret b) -> (forall b, erases (k b) k0) -> erases (bind m k) k0.
Proof. intros Hm Hk. exact (erases_bind m (ret b) k (fun _ => k0) Hm Hk). Qed.

Lemma erases_get {C} (k : LogArm -> AL C) (k0 : AX C) : (forall s, erases (k s) k0) -> erases (bind get k) k0.
Proof. intros Hk s Hs. exact (Hk s s Hs). Qed.

Lemma erases_if {B} (b : bool) (m1 m2 : AL B) (m01 m02 : AX B) :
  erases m1 m01 -> erases m2 m02 -> erases (if b then m1 else m2) (if b then m01 else m02).
Proof. by destruct b. Qed.

Lemma erases_log s : erases (arm_log s) (ret tt).
Proof. done. Qed.

Lemma erases_refuse s x : erases (refuse s x) (arm_fail x).
Proof.
  intros st Hs. unfold refuse, gets, bind at 1. destruct (bool_decide _); exact (erases_on_arm (arm_fail x) _ Hs).
Qed.

(** What the log of an instruction may do: nothing to the object, and a fault only of its own sums. *)
Definition only_logs (m : AL unit) : Prop :=
  forall s, log_type_ s <> ARM_LOG_NONE ->
    match m s with
    | Done (_, s') => la_arm s' = la_arm s /\ log_skip_execution_ s' = log_skip_execution_ s /\ log_type_ s' = log_type_ s
    | Fault f => f = Undef UbOverflow
    end.

Lemma only_logs_bind m k : only_logs m -> only_logs k -> only_logs (m ;; k).
Proof.
  intros Hm Hk s Hs. specialize (Hm s Hs). unfold bind. destruct (m s) as [[[] s']|f]; [|done].
  destruct Hm as (Ha & Hk' & Ht). specialize (Hk s' ltac:(by rewrite Ht)). destruct (k s') as [[[] s'']|f]; [|done].
  destruct Hk as (-> & -> & ->). done.
Qed.

Lemma only_logs_if (b : bool) m k : only_logs m -> only_logs k -> only_logs (if b then m else k).
Proof. by destruct b. Qed.

Lemma only_logs_ret : only_logs (ret tt). Proof. done. Qed.
Lemma only_logs_arm s : only_logs (arm_log s). Proof. done. Qed.
Lemma only_logs_add n : only_logs (add_log_cfa n). Proof. done. Qed.
Lemma only_logs_note r v : only_logs (note_reg r v). Proof. done. Qed.

Lemma only_logs_add_int n : only_logs (add_log_cfa_int n).
Proof. intros s Hs. unfold add_log_cfa_int, bind, get, lift, add_int. by destruct (_ && _). Qed.

Lemma adjust_entries_fault offset m f : adjust_entries offset m = Fault f -> f = Undef UbOverflow.
Proof.
  induction m as [|[r v] m IH]; cbn [adjust_entries]; [done|]. destruct (_ <=? _); [done|].
  unfold add_int. destruct (_ && _); [|by intros [= <-]]. destruct (adjust_entries offset m); [done|]. intros [= <-]. by apply IH.
Qed.

Lemma only_logs_adjust offset : only_logs (AdjustRegisters offset).
Proof.
  intros s Hs. unfold AdjustRegisters, bind, get, lift. destruct (adjust_entries _ _) eqn:E; [done|]. by eapply adjust_entries_fault.
Qed.

Lemma only_logs_pops regs o : only_logs (note_pops regs o).
Proof. revert o. induction regs as [|r regs IH]; intros o; cbn [note_pops]; [done|]. by apply only_logs_bind; [apply only_logs_note|]. Qed.

Lemma erases_logged log execute : (forall t, only_logs (log t)) -> erases (logged log execute) execute.
Proof.
  intros Hl s Hs. unfold logged. rewrite bind_get. destruct (decide (log_type_ s = ARM_LOG_NONE)) as [Ht|Ht].
  - rewrite bool_decide_true by done. exact (erases_on_arm execute s Hs).
  - rewrite bool_decide_false by done. specialize (Hl (log_type_ s) s Ht). unfold bind. destruct (log _ s) as [[[] s']|f]; [|by right].
    destruct Hl as (Ha & Hs' & Ht'). unfold get, ret. rewrite Hs', Hs, <- Ha, <- Ht'. apply (erases_on_arm execute s'). by rewrite Hs'.
Qed.

Create HintDb arm_log.
#[local] Hint Resolve erases_ret erases_fail erases_on_arm erases_log erases_refuse only_logs_ret only_logs_arm only_logs_add
  only_logs_note only_logs_add_int only_logs_adjust only_logs_pops : arm_log.

Lemma erases_pop full o regs execute : erases (logged (log_pop full o regs) execute) execute.
Proof.
  apply erases_logged. intros t. unfold log_pop. apply only_logs_if; [auto with arm_log|]. apply only_logs_bind; auto with arm_log.
Qed.

Lemma erases_move full note adjust execute : only_logs note -> erases (logged (log_move full note adjust) execute) execute.
Proof.
  intros Hn. apply erases_logged. intros t. unfold log_move. apply only_logs_bind; [|auto with arm_log].
  apply only_logs_if; auto with arm_log.
Qed.

Lemma erases_text full other execute : erases (logged_text full other execute) execute.
Proof. apply erases_logged. auto with arm_log. Qed.

Lemma erases_next k k0 : (forall byte, erases (k byte) (k0 byte)) -> erases (next_logged k) (next_byte k0).
Proof. intros Hk. apply erases_bind; [apply erases_on_arm|]. intros [byte|]; auto with arm_log. Qed.

#[local] Hint Resolve erases_pop erases_move erases_text : arm_log.

(** The methods have the same structure. *)
Ltac same_structure :=
  repeat first
    [ solve [auto with arm_log]
    | apply erases_if | apply erases_next; intros ?byte; cbv zeta | progress cbv zeta ].

Lemma erases_10_00 byte : erases (logged_DecodePrefix_10_00 byte) (DecodePrefix_10_00 byte).
Proof. unfold logged_DecodePrefix_10_00, DecodePrefix_10_00, logged_mask. same_structure. Qed.

Lemma erases_10_01 byte : erases (logged_DecodePrefix_10_01 byte) (DecodePrefix_10_01 byte).
Proof.
  unfold logged_DecodePrefix_10_01, DecodePrefix_10_01. same_structure. apply erases_logged. intros t. by apply only_logs_if; auto with arm_log.
Qed.

Lemma erases_10_10 byte : erases (logged_DecodePrefix_10_10 byte) (DecodePrefix_10_10 byte).
Proof. unfold logged_DecodePrefix_10_10, DecodePrefix_10_10. same_structure. Qed.

Lemma erases_finish : erases logged_DecodePrefix_10_11_0000 DecodePrefix_10_11_0000.
Proof.
  intros st Hs. unfold logged_DecodePrefix_10_11_0000, gets, bind at 1. destruct (bool_decide _); exact (erases_on_arm (arm_fail ARM_STATUS_FINISH) _ Hs).
Qed.

Lemma erases_10_11_0001 : erases logged_DecodePrefix_10_11_0001 DecodePrefix_10_11_0001.
Proof. unfold logged_DecodePrefix_10_11_0001, DecodePrefix_10_11_0001, logged_low. same_structure. Qed.

Lemma erases_uleb fuel result shift k k0 :
  (forall r, erases (k r) (k0 r)) -> erases (uleb_loop next_logged fuel result shift k) (uleb_loop next_byte fuel result shift k0).
Proof.
  intros Hk. revert result shift. induction fuel as [|fuel IH]; intros result shift; cbn [uleb_loop]; [auto with arm_log|].
  same_structure; auto.
Qed.

Lemma erases_10_11_0010 : erases logged_DecodePrefix_10_11_0010 DecodePrefix_10_11_0010.
Proof.
  intros s Hs. unfold logged_DecodePrefix_10_11_0010, DecodePrefix_10_11_0010. rewrite !bind_get.
  apply erases_uleb; [|done]. intros r. apply erases_move. auto with arm_log.
Qed.

#[local] Hint Resolve erases_10_00 erases_10_01 erases_10_10 erases_finish erases_10_11_0001 erases_10_11_0010 : arm_log.

Lemma erases_10 byte : erases (logged_DecodePrefix_10 byte) (DecodePrefix_10 byte).
Proof.
  unfold logged_DecodePrefix_10, DecodePrefix_10, logged_DecodePrefix_10_11_1nnn, DecodePrefix_10_11_1nnn, logged_DecodePrefix_10_11_01nn,
    DecodePrefix_10_11_01nn, logged_DecodePrefix_10_11_0011, DecodePrefix_10_11_0011, logged_fstmfdx. same_structure.
Qed.

Lemma erases_11 byte : erases (logged_DecodePrefix_11 byte) (DecodePrefix_11 byte).
Proof.
  unfold logged_DecodePrefix_11, DecodePrefix_11, logged_DecodePrefix_11_000, DecodePrefix_11_000, logged_DecodePrefix_11_001,
    DecodePrefix_11_001, logged_DecodePrefix_11_010, DecodePrefix_11_010. same_structure.
  all: unfold logged_counted, logged_wcgr; same_structure.
Qed.

#[local] Hint Resolve erases_10 erases_11 : arm_log.

Lemma erases_Decode : erases logged_Decode Decode.
Proof.
  apply erases_bind; [apply erases_on_arm|]. intros _. apply erases_next. intros byte. unfold logged_byte.
  same_structure.
Qed.

Lemma erases_loop fuel : erases (logged_decode_loop fuel) (decode_loop fuel).
Proof.
  induction fuel as [|fuel IH]; cbn [logged_decode_loop decode_loop]; [auto with arm_log|].
  apply erases_bind; [apply erases_Decode|]. intros b. apply erases_if; auto with arm_log.
Qed.

(** C35. Logging does not change what [Eval] does. *)
Theorem arm_log_transparent s (Hexec : log_skip_execution_ s = false) :
  match logged_Eval s with
  | Done (ok, s') => Eval (la_arm s) = Done (ok, la_arm s')
  | Fault f => Eval (la_arm s) = Fault f \/ (f = Undef UbOverflow /\ log_type_ s <> ARM_LOG_NONE)
  end.
Proof.
  assert (erases logged_Eval Eval) as H.
  { apply erases_bind; [apply erases_on_arm|]. intros _ st Hs. rewrite !bind_get.
    refine (erases_bind _ _ _ _ (erases_loop _) _ st Hs). by intros [] s1 Hs1. }
  specialize (H s Hexec). destruct (logged_Eval s) as [[ok s']|f]; [by destruct H|done].
Qed.

(** * What is logged for an instruction *)

Definition close (s : line) : line := s ++ text "}".

Definition arm_text (i : arm_instr) : line :=
  match i with
  | VspAdd n => text "vsp = vsp + " ++ print_d (4 * n + 4)
  | VspSub n => text "vsp = vsp - " ++ print_d (4 * n + 4)
  | PopMask m => pop_text "r" (mask_regs m 4 12)
  | SetVsp n => text "vsp = r" ++ print_d n
  | PopRange n lr => range_text "r" 4 (negb (n =? 0)) (4 + n) ++ (if lr then text ", r14}" else text "}")
  | PopLow m => pop_text "r" (mask_regs m 0 4)
  | VspAddBig u => text "vsp = vsp + " ++ print_d (sgn 32 (0x204 + 4 * u))
  | PopFstmfdx first count => close (range_text "d" first (negb (first + count =? 0)) (first + count))
  | PopFstmfdx8 n | PopVfp8 n => close (range_text "d" 8 (negb (n =? 0)) (8 + n))
  | PopWr10 n => close (range_text "wR" 10 (negb (n =? 0)) (10 + n))
  | PopWr first count => close (range_text "wR" first (negb (count =? 0)) (first + count))
  | PopWcgr m => pop_text "wCGR" (mask_regs m 0 4)
  | PopVfp16 first count => close (range_text "d" (16 + first) (negb (count =? 0)) (16 + first + count))
  | PopVfp first count => close (range_text "d" first (negb (count =? 0)) (first + count))
  end.

(** The registers that an instruction pops, and by how much another one moves the virtual stack pointer. *)
Definition arm_pops (i : arm_instr) : option (list Z) :=
  match i with
  | PopMask m => Some (mask_regs m 4 12)
  | PopRange n lr => Some (seqZ 4 (n + 1) ++ (if lr then [14] else []))
  | PopLow m => Some (mask_regs m 0 4)
  | _ => None
  end.
Definition arm_moves (i : arm_instr) : option Z :=
  match i with
  | VspAdd n => Some (4 * n + 4)
  | VspSub n => Some (- (4 * n + 4))
  | VspAddBig u => Some (sgn 32 (0x204 + 4 * u))
  | _ => None
  end.

(** The message of [ARM_LOG_BY_REG] for an instruction on registers that it does not show *)
Definition not_shown (i : arm_instr) : line :=
  match i with
  | PopWr10 _ | PopWr _ _ => no_wrx
  | PopWcgr _ => text "Unsupported wCGR register display"
  | _ => no_dx
  end.

Definition arm_note (i : arm_instr) (t : ArmLogType) : AL unit :=
  match arm_pops i, arm_moves i, i with
  | Some regs, _, _ => log_pop (arm_text i) (4 * Z.of_nat (length regs)) regs t
  | _, Some n, _ => log_move (arm_text i) (match i with VspSub _ => add_log_cfa n | _ => add_log_cfa_int n end) n t
  | _, _, SetVsp n => if bool_decide (t = ARM_LOG_FULL) then arm_log (arm_text i) else note_reg LOG_CFA_REG n
  | _, _, _ => arm_log (if bool_decide (t = ARM_LOG_FULL) then arm_text i else not_shown i)
  end.

(** ** One instruction *)

Definition consume (rest : list Z) (s : LogArm) : LogArm := put_la_arm (put_data rest (la_arm s)) s.

Lemma next_logged_run k byte rest s : data_ (la_arm s) = byte :: rest -> next_logged k s = k byte (consume rest s).
Proof. intros Hd. unfold next_logged, on_arm, zoom, GetByte, bind, get, modify, ret. by rewrite Hd. Qed.

(** Without execution only the log is left. *)
Lemma logged_skips log execute s :
  log_skip_execution_ s = true -> log_type_ s <> ARM_LOG_NONE -> only_logs (log (log_type_ s)) ->
  logged log execute s = (log (log_type_ s) ;; ret true) s.
Proof.
  intros Hs Ht Hl. unfold logged. rewrite bind_get, bool_decide_false by done. specialize (Hl s Ht). unfold bind.
  destruct (log _ s) as [[[] s']|f]; [|done]. destruct Hl as (_ & Hs' & _). unfold get, ret. by rewrite Hs', Hs.
Qed.

Lemma only_logs_instr i t : only_logs (arm_note i t).
Proof.
  unfold arm_note, log_pop, log_move. repeat case_match;
    repeat first [apply only_logs_if | apply only_logs_bind | solve [auto with arm_log]].
Qed.

(** The cases of a number below a bound *)
Ltac each_below n :=
  rewrite <- (Z2Nat.id n) in * by lia;
  generalize dependent (Z.to_nat n); clear; intros n; intros;
  repeat (destruct n as [|n]; [reflexivity|]); lia.

Definition one_byte (i : arm_instr) (byte : Z) : Prop := logged_byte byte = logged (arm_note i) (decode_table byte).

Lemma vsp_add_byte n : 0 <= n < 64 -> one_byte (VspAdd n) n.
Proof. intros Hn. each_below n. Qed.

Lemma vsp_sub_byte n : 0 <= n < 64 -> one_byte (VspSub n) (0x40 + n).
Proof. intros Hn. each_below n. Qed.

Lemma set_vsp_byte n : 0 <= n < 16 -> n <> 13 -> n <> 15 -> one_byte (SetVsp n) (0x90 + n).
Proof.
  intros Hn H13 H15. destruct (decide (n = 14)) as [->|]; [reflexivity|]. assert (0 <= n < 13) as Hl by lia. clear Hn H13 H15.
  each_below n.
Qed.

Lemma pop_range_byte n (lr : bool) : 0 <= n < 8 -> one_byte (PopRange n lr) ((if lr then 0xa8 else 0xa0) + n).
Proof. intros Hn. destruct lr; each_below n. Qed.

Lemma pop_fstmfdx8_byte n : 0 <= n < 8 -> one_byte (PopFstmfdx8 n) (0xb8 + n).
Proof. intros Hn. each_below n. Qed.

Lemma pop_wr10_byte n : 0 <= n < 6 -> one_byte (PopWr10 n) (0xc0 + n).
Proof. intros Hn. each_below n. Qed.

Lemma pop_vfp8_byte n : 0 <= n < 8 -> one_byte (PopVfp8 n) (0xd0 + n).
Proof. intros Hn. each_below n. Qed.

(** The second byte of an instruction *)
Definition second_byte (i : arm_instr) (k : Z -> AL bool) (byte : Z) : Prop := exists execute, k byte = logged (arm_note i) execute.

Lemma pop_low_second m : 0 < m < 16 -> second_byte (PopLow m) logged_low m.
Proof. intros Hm. exists (pop_regs (masked m 0 4)). replace m with (1 + (m - 1)) by lia. assert (0 <= m - 1 < 15) by lia. generalize dependent (m - 1). clear. intros n Hn. each_below n. Qed.

Lemma pop_wcgr_second m : 0 < m < 16 -> second_byte (PopWcgr m) logged_wcgr m.
Proof. intros Hm. exists (add_cfa (popcount m * 4) ;; ret true). replace m with (1 + (m - 1)) by lia. assert (0 <= m - 1 < 15) by lia. generalize dependent (m - 1). clear. intros n Hn. each_below n. Qed.

Lemma nibble_high first count : 0 <= first < 16 -> 0 <= count < 16 -> Z.shiftr (16 * first + count) 4 = first.
Proof. intros. rewrite Z.shiftr_div_pow2 by lia. change (2 ^ 4) with 16. rewrite Z.mul_comm, Z.div_add_l, Z.div_small by lia. lia. Qed.

Lemma counted_second prefix base other i first count :
  0 <= first < 16 -> 0 <= count < 16 ->
  arm_note i = (fun t => arm_log (if bool_decide (t = ARM_LOG_FULL)
                                  then range_text prefix (base + first) (negb (count =? 0)) (base + first + count) ++ text "}" else other)) ->
  second_byte i (logged_counted prefix base other) (16 * first + count).
Proof. intros Hf Hc Hi. eexists. unfold logged_counted, logged_text. cbv zeta. rewrite nibble_high, nibble, Hi by done. done. Qed.

Lemma fstmfdx_second first count :
  0 <= first < 16 -> 0 <= count < 16 -> second_byte (PopFstmfdx first count) logged_fstmfdx (16 * first + count).
Proof.
  intros Hf Hc. eexists. unfold logged_fstmfdx, logged_text. cbv zeta. rewrite nibble_high, nibble, wrap_small by (done || (unfold in_u; simpl; lia)). done.
Qed.

Lemma masked_shift m : 0 <= m -> masked (Z.shiftl m 4) 0 16 = mask_regs m 4 12.
Proof.
  intros Hm. rewrite <- masked_mask by lia. unfold masked. change 16 with (4 + 12). rewrite seqZ_app, filter_app by lia.
  change (seqZ 0 4) with [0; 1; 2; 3].
  rewrite !filter_cons_False; [done|..]; rewrite land_bit, negb_involutive, Z.shiftl_spec, Z.testbit_neg_r by lia; done.
Qed.

Lemma pop_mask_second m : 0 < m < 4096 -> second_byte (PopMask m) (logged_mask (Z.shiftl (m / 256) 8)) (m mod 256).
Proof.
  intros Hm. destruct (mask_registers m Hm) as [E1 E2]. eexists. unfold logged_mask. cbv zeta.
  rewrite E1, (proj2 (Z.eqb_neq m 0)), E2, masked_mask by lia. unfold popcount16. rewrite masked_shift, Z.mul_comm by lia. done.
Qed.

Lemma uleb_logged u rest s :
  in_u 32 u -> data_ (la_arm s) = map byte_val (uleb_encode 5 u) ++ rest ->
  exists execute, logged_DecodePrefix_10_11_0010 s = logged (arm_note (VspAddBig u)) execute (consume rest s).
Proof.
  intros Hu Hd. unfold in_u in Hu. destruct (uleb_encode_ok 4 u) as (Hs & Hval & Hl).
  { change (128 ^ Z.of_nat 5) with (2 ^ 35). change (2 ^ 32) with 4294967296 in Hu. change (2 ^ 35) with 34359738368. lia. }
  exists (add_cfa (u32 (0x204 + u32 (Z.shiftl u 2))) ;; ret true).
  unfold logged_DecodePrefix_10_11_0010. rewrite bind_get.
  rewrite (uleb_loop_run next_logged (fun s => data_ (la_arm s)) consume next_logged_run (fun _ _ => eq_refl) (fun _ _ _ => eq_refl)
    _ (uleb_encode 5 u) 0 0 _ s rest); try done; try lia.
  - rewrite Hval, Z.pow_0_r, Z.mul_1_l, Z.add_0_l. cbv zeta. unfold arm_note. cbn [arm_pops arm_moves arm_text].
    replace (sgn 32 (0x204 + u32 (Z.shiftl u 2))) with (sgn 32 (0x204 + 4 * u)); [done|].
    unfold sgn. rewrite wrap_add_r, Z.shiftl_mul_pow2, (Z.mul_comm u) by lia. done.
  - rewrite Hd, length_app, length_map. lia.
  - unfold len. lia.
Qed.

(** The log of an instruction without its execution *)
Lemma logged_instr i s rest :
  arm_instr_ok i -> log_skip_execution_ s = true -> log_type_ s <> ARM_LOG_NONE -> data_ (la_arm s) = encode_arm i ++ rest ->
  next_logged logged_byte s = (arm_note i (log_type_ s) ;; ret true) (consume rest s).
Proof.
  intros Hok Hsk Ht Hd.
  assert (forall execute, logged (arm_note i) execute (consume rest s) = (arm_note i (log_type_ s) ;; ret true) (consume rest s)) as Hlog.
  { intros execute. by apply (logged_skips _ _ (consume rest s)), only_logs_instr. }
  assert (forall byte, encode_arm i = [byte] -> one_byte i byte ->
    next_logged logged_byte s = (arm_note i (log_type_ s) ;; ret true) (consume rest s)) as H1.
  { intros byte He Hb. rewrite He in Hd. rewrite (next_logged_run _ _ _ _ Hd). unfold one_byte in Hb. rewrite Hb. apply Hlog. }
  assert (forall byte byte' k, encode_arm i = [byte; byte'] -> logged_byte byte = next_logged k -> second_byte i k byte' ->
    next_logged logged_byte s = (arm_note i (log_type_ s) ;; ret true) (consume rest s)) as H2.
  { intros byte byte' k He Hb [execute Hk]. rewrite He in Hd. rewrite (next_logged_run _ _ _ _ Hd), Hb.
    rewrite (next_logged_run _ byte' rest) by done. rewrite Hk. apply (Hlog execute). }
  destruct i as [n|n|m|n|n lr|m|u|first count|n|n|first count|m|first count|first count|n]; cbn [arm_instr_ok] in Hok.
  - apply (H1 n); [done|by apply vsp_add_byte].
  - apply (H1 (0x40 + n)); [done|by apply vsp_sub_byte].
  - apply (H2 (0x80 + m / 256) (m mod 256) (logged_mask (Z.shiftl (m / 256) 8))); [done| |by apply pop_mask_second].
    assert (0 <= m / 256 < 16) as Hq by (split; [apply Z.div_pos; lia|apply Z.div_lt_upper_bound; lia]).
    generalize dependent (m / 256). clear. intros n Hn. each_below n.
  - destruct Hok as (? & ? & ?). apply (H1 (0x90 + n)); [done|by apply set_vsp_byte].
  - apply (H1 ((if lr then 0xa8 else 0xa0) + n)); [done|by apply pop_range_byte].
  - apply (H2 0xb1 m logged_low); [done..|by apply pop_low_second].
  - change (encode_arm _ ++ rest) with (0xb2 :: map byte_val (uleb_encode 5 u) ++ rest) in Hd.
    rewrite (next_logged_run _ _ _ _ Hd). change (logged_byte 0xb2) with logged_DecodePrefix_10_11_0010.
    destruct (uleb_logged u rest (consume (map byte_val (uleb_encode 5 u) ++ rest) s) Hok eq_refl) as [execute ->]. apply (Hlog execute).
  - destruct Hok. apply (H2 0xb3 (16 * first + count) logged_fstmfdx); [done..|by apply fstmfdx_second].
  - apply (H1 (0xb8 + n)); [done|by apply pop_fstmfdx8_byte].
  - apply (H1 (0xc0 + n)); [done|by apply pop_wr10_byte].
  - destruct Hok. apply (H2 0xc6 (16 * first + count) (logged_counted "wR" 0 no_wrx)); [done..|by apply counted_second].
  - apply (H2 0xc7 m logged_wcgr); [done..|by apply pop_wcgr_second].
  - destruct Hok. apply (H2 0xc8 (16 * first + count) (logged_counted "d" 16 no_dx)); [done..|by apply counted_second].
  - destruct Hok. apply (H2 0xc9 (16 * first + count) (logged_counted "d" 0 no_dx)); [done..|by apply counted_second].
  - apply (H1 (0xd0 + n)); [done|by apply pop_vfp8_byte].
Qed.

(** * Listings *)

(** The bytes that are left, and a status; nothing else changes without execution. *)
Definition left_over (rest : list Z) (x : ArmStatus) (s : LogArm) : LogArm := put_la_arm (put_status x (put_data rest (la_arm s))) s.

Lemma logged_Decode_run i s rest :
  arm_instr_ok i -> log_skip_execution_ s = true -> log_type_ s <> ARM_LOG_NONE -> data_ (la_arm s) = encode_arm i ++ rest ->
  logged_Decode s = (arm_note i (log_type_ s) ;; ret true) (left_over rest ARM_STATUS_NONE s).
Proof.
  intros Hok Hsk Ht Hd. unfold logged_Decode. unfold bind at 1, on_arm, zoom at 1, modify.
  by rewrite (logged_instr i _ rest).
Qed.

Lemma logged_Decode_finish s rest :
  log_skip_execution_ s = true -> data_ (la_arm s) = 0xb0 :: rest ->
  logged_Decode s = ((if bool_decide (log_type_ s = ARM_LOG_FULL) then arm_log (text "finish") else ret tt) ;; ret false)
                      (left_over rest ARM_STATUS_FINISH s).
Proof.
  intros Hsk Hd. unfold logged_Decode. unfold bind at 1, on_arm at 1, zoom at 1, modify at 1. rewrite (next_logged_run _ 0xb0 rest) by done.
  change (logged_byte 0xb0) with logged_DecodePrefix_10_11_0000. unfold logged_DecodePrefix_10_11_0000, gets, bind.
  cbn [log_type_ consume put_la_arm]. by destruct (bool_decide _).
Qed.

(** With [ARM_LOG_FULL] an instruction prints its text. *)
Lemma arm_note_full i s : log_regs_ s = [] -> arm_note i ARM_LOG_FULL s = arm_log (arm_text i) s.
Proof.
  intros Hr. destruct s. cbn in Hr. subst. unfold arm_note. repeat case_match; try done.
Qed.

Lemma put_lines_twice s l l' : put_printed l (put_printed l' s) = put_printed l s.
Proof. done. Qed.

Lemma full_loop l rest fuel s :
  Forall arm_instr_ok l -> log_skip_execution_ s = true -> log_type_ s = ARM_LOG_FULL -> log_regs_ s = [] ->
  data_ (la_arm s) = concat (map encode_arm l) ++ 0xb0 :: rest -> (length l < fuel)%nat ->
  logged_decode_loop fuel s
  = Done (tt, put_printed (printed s ++ map (log_line (log_indent_ s)) (map arm_text l ++ [text "finish"])) (left_over rest ARM_STATUS_FINISH s)).
Proof.
  revert fuel s. induction l as [|i l IH]; intros fuel s Hl Hsk Ht Hr Hd Hf; (destruct fuel as [|fuel]; [simpl in Hf; lia|]); cbn [logged_decode_loop].
  - unfold bind at 1. rewrite (logged_Decode_finish s rest Hsk Hd), Ht. rewrite bool_decide_true by done. done.
  - apply Forall_cons in Hl as [Hi Hl]. cbn [map concat] in Hd. rewrite <- app_assoc in Hd.
    unfold bind at 1. rewrite (logged_Decode_run i s _ Hi Hsk ltac:(by rewrite Ht) Hd), Ht.
    unfold bind at 1. rewrite arm_note_full by done. unfold arm_log at 1, modify. cbn [ret].
    rewrite IH by (done || simpl in Hf; lia). cbn [map app]. 
    f_equal. f_equal. cbn. rewrite <- app_assoc. done.
Qed.

Lemma length_encodings l rest : (length l <= length (concat (map encode_arm l) ++ rest))%nat.
Proof.
  induction l as [|i l IH]; cbn [map concat length]; [lia|]. rewrite <- app_assoc, length_app.
  assert (1 <= length (encode_arm i))%nat by (destruct i; simpl; lia). lia.
Qed.

(** C36. The listing of an entry: with [ARM_LOG_FULL] and without execution [Eval] prints each instruction as the
    ABI writes it, in order, and then that it ends; it returns true, and touches neither the registers nor
    the memory. *)
Theorem arm_log_listing l rest s
  (Hok : Forall arm_instr_ok l) (Hfull : log_type_ s = ARM_LOG_FULL) (Hskip : log_skip_execution_ s = true)
  (Hfresh : log_regs_ s = []) (Hdata : data_ (la_arm s) = concat (map encode_arm l) ++ 0xb0 :: rest) :
  logged_Eval s
  = Done (true, put_printed (printed s ++ map (log_line (log_indent_ s)) (map arm_text l ++ [text "finish"]))
                  (put_la_arm (put_status ARM_STATUS_FINISH (put_data rest (put_pc_set false (la_arm s)))) s)).
Proof.
  unfold logged_Eval. unfold bind at 1, on_arm at 1, zoom, modify at 1. rewrite bind_get.
  set (s1 := put_la_arm _ s). unfold bind at 1.
  rewrite (full_loop l rest _ s1); try done. 
  change (data_ (la_arm s1)) with (data_ (la_arm s)). rewrite Hdata. pose proof (length_encodings l (0xb0 :: rest)). lia.
Qed.

(** * Places *)

(** The entries of the map that [LogByReg] shows: those of registers. *)
Fixpoint shown (m : list (Z * Z)) : list (Z * Z) :=
  match m with
  | [] => []
  | (r, v) :: m => if LOG_CFA_REG <=? r then [] else (r, v) :: shown m
  end.

Fixpoint shift_places (n : Z) (m : list (Z * Z)) : list (Z * Z) :=
  match m with
  | [] => []
  | (r, v) :: rest => if LOG_CFA_REG <=? r then m else (r, v + n) :: shift_places n rest
  end.

Fixpoint place_pops (regs : list Z) (offset : Z) (m : list (Z * Z)) : list (Z * Z) :=
  match regs with
  | [] => m
  | r :: regs => place_pops regs (offset - 4) (map_set r offset m)
  end.

(** What the notes of an instruction become: how far [vsp] is from where it was, and the places of the registers. *)
Definition note_places (i : arm_instr) (n : Z * list (Z * Z)) : Z * list (Z * Z) :=
  match arm_pops i, arm_moves i with
  | Some regs, _ => (n.1 + 4 * Z.of_nat (length regs), place_pops regs (4 * Z.of_nat (length regs)) n.2)
  | _, Some d => (n.1 + d, shift_places d n.2)
  | _, _ => n
  end.
Definition note_all (l : list arm_instr) (n : Z * list (Z * Z)) : Z * list (Z * Z) := fold_left (fun n i => note_places i n) l n.

Lemma shown_shift d m : shown (shift_places d m) = map (fun x => (x.1, x.2 + d)) (shown m).
Proof. induction m as [|[r v] m IH]; cbn [shift_places shown]; [done|]. destruct (_ <=? _) eqn:E; cbn [shown]; rewrite E; [done|]. by rewrite IH. Qed.

Lemma shown_set k x m r v : (r, v) ∈ shown (map_set k x m) -> (r, v) = (k, x) \/ (r, v) ∈ shown m.
Proof.
  induction m as [|[k' v'] m IH]; cbn [map_set shown].
  - destruct (_ <=? _); [by intros ?%not_elem_of_nil|]. intros ?%list_elem_of_singleton. by left.
  - destruct (k <? k') eqn:E; cbn [shown].
    { destruct (_ <=? k); [by intros ?%not_elem_of_nil|]. intros [?|?]%elem_of_cons; [by left|by right]. }
    destruct (Z.eqb_spec k k') as [->|]; cbn [shown].
    { destruct (_ <=? k'); [by intros ?%not_elem_of_nil|]. intros [?|?]%elem_of_cons; [by left|right; by apply elem_of_cons; right]. }
    destruct (_ <=? k'); [by intros ?%not_elem_of_nil|]. intros [?|H]%elem_of_cons; [right; by apply elem_of_cons; left|].
    destruct (IH H); [by left|right; by apply elem_of_cons; right].
Qed.

Lemma shown_set_key k x m r : k < LOG_CFA_REG -> r = k \/ r ∈ (shown m).*1 -> r ∈ (shown (map_set k x m)).*1.
Proof.
  intros Hk. unfold LOG_CFA_REG in *. induction m as [|[k' v'] m IH]; cbn [map_set shown].
  - rewrite (proj2 (Z.leb_gt _ _)) by (unfold LOG_CFA_REG; lia). intros [->|?]; [by apply elem_of_cons; left|by apply not_elem_of_nil in H].
  - destruct (Z.ltb_spec k k'); cbn [shown].
    { rewrite (proj2 (Z.leb_gt _ k)) by (unfold LOG_CFA_REG; lia). intros [->|?]; apply elem_of_cons; [by left|by right]. }
    destruct (Z.eqb_spec k k') as [<-|]; cbn [shown]; rewrite (proj2 (Z.leb_gt _ _)) by (unfold LOG_CFA_REG; lia); cbn [fmap list_fmap];
      rewrite !elem_of_cons; cbn [fst]; tauto.
Qed.

(** A pop into a map that shows nothing *)
Lemma place_pops_shown regs o m r v :
  (r, v) ∈ shown (place_pops regs o m) -> (r, v) ∈ shown m \/ exists i, regs !! i = Some r /\ v = o - 4 * Z.of_nat i.
Proof.
  revert o m. induction regs as [|k regs IH]; intros o m; cbn [place_pops]; [by left|].
  intros [H|(i & Hi & ->)]%IH; [apply shown_set in H as [[= -> ->]|?]|].
  - right. exists 0%nat. split; [done|lia].
  - by left.
  - right. exists (S i). split; [done|lia].
Qed.

Lemma place_pops_keys regs o m r :
  Forall (fun r => 0 <= r < 16) regs -> r ∈ regs \/ r ∈ (shown m).*1 -> r ∈ (shown (place_pops regs o m)).*1.
Proof.
  revert o m. induction regs as [|k regs IH]; intros o m Hr; cbn [place_pops].
  - intros [H%not_elem_of_nil|?]; done.
  - apply Forall_cons in Hr as [Hk Hr]. intros H. apply IH; [done|]. rewrite elem_of_cons in H.
    destruct (decide (r ∈ regs)); [by left|]. right. apply shown_set_key; [unfold LOG_CFA_REG; lia|]. tauto.
Qed.

(** ** What the places mean *)

(** The instructions whose notes are exact: one pop at most, not of [sp], and moves by a bounded distance. *)
Fixpoint tracked (popped : bool) (l : list arm_instr) : Prop :=
  match l with
  | [] => True
  | i :: l =>
      match arm_pops i, arm_moves i with
      | Some regs, _ => popped = false /\ ~ 13 ∈ regs /\ tracked true l
      | _, Some n => Z.abs n <= 2 ^ 26 /\ tracked popped l
      | _, _ => False
      end
  end.

Lemma arm_pops_ok i regs :
  arm_instr_ok i -> arm_pops i = Some regs -> (length regs <= 16)%nat /\ Forall (fun r => 0 <= r < 16) regs.
Proof.
  assert (forall m first n, 0 <= first -> 0 <= n <= 16 - first ->
    (length (mask_regs m first n) <= 16)%nat /\ Forall (fun r => 0 <= r < 16) (mask_regs m first n)) as Hm.
  { intros m first n Hf Hn. split; [|apply mask_regs_below; lia]. unfold mask_regs.
    pose proof (length_filter (fun r => Z.testbit m (r - first) = true) (seqZ first n)) as H. rewrite length_seqZ in H. lia. }
  destruct i; cbn [arm_pops arm_instr_ok]; intros Hok [= <-]; [apply Hm; lia| |apply Hm; lia]. split.
  - rewrite length_app, length_seqZ. destruct lr; simpl length; lia.
  - apply Forall_app. split; [apply Forall_forall; intros r Hr%elem_of_seqZ; lia|]. destruct lr; repeat constructor; lia.
Qed.

Lemma mask_has_13 m : Z.testbit m 9 = true -> 13 ∈ mask_regs m 4 12.
Proof. intros H. apply list_elem_of_filter. split; [done|]. apply elem_of_seqZ. lia. Qed.

Lemma pop_sem mem i f f' regs :
  arm_pops i = Some regs -> ~ 13 ∈ regs -> arm_sem mem i f f' ->
  popped mem (vsp f) regs (vregs f) (vregs f') /\ vsp f' = u32 (vsp f + 4 * Z.of_nat (length regs)).
Proof.
  destruct i; cbn [arm_pops arm_sem]; intros [= <-] H13; intros (regs' & Hp & ->); cbn [vsp vregs]; try done.
  destruct (Z.testbit m 9) eqn:E; [|done]. by apply mask_has_13 in E.
Qed.

Lemma move_sem mem i f f' n :
  arm_moves i = Some n -> arm_sem mem i f f' -> vregs f' = vregs f /\ vsp f' = u32 (vsp f + n).
Proof.
  destruct i; cbn [arm_moves arm_sem]; intros [= <-] ->; try done. split; [done|]. cbn [vsp at_vsp].
  by rewrite <- (wrap_add_r 32 _ (sgn _ _)), wrap_sgn, wrap_add_r by lia.
Qed.

(** The notes describe a frame: its [vsp] from [base] on, the places of the registers that it popped, and
    that it has not changed the others. *)
Record notes_describe (mem : Memory) (base : Z) (regs : list Z) (f : vframe) (n : Z * list (Z * Z)) : Prop := {
  nd_vsp : vsp f = u32 (base + n.1);
  nd_places : forall r v, (r, v) ∈ shown n.2 -> exists w, Read32 mem (u32 (vsp f - v)) = Some w /\ vregs f !! Z.to_nat r = Some w;
  nd_others : forall k, ~ Z.of_nat k ∈ (shown n.2).*1 -> vregs f !! k = regs !! k
}.

Lemma notes_pop mem base regs f f' i l n :
  arm_instr_ok i -> arm_pops i = Some l -> ~ 13 ∈ l -> shown n.2 = [] -> notes_describe mem base regs f n -> arm_sem mem i f f' ->
  notes_describe mem base regs f' (note_places i n).
Proof.
  intros Hok Hl H13 Hn [Hv _ Ho] Hsem. destruct (pop_sem _ _ _ _ _ Hl H13 Hsem) as ((_ & Hin & Hout) & Hvsp).
  destruct (arm_pops_ok i l Hok Hl) as [_ Hr]. unfold note_places. rewrite Hl. split; cbn [fst snd].
  - by rewrite Hvsp, Hv, wrap_add_l, Z.add_assoc by lia.
  - intros r v [H|(k & Hk & ->)]%place_pops_shown; [by rewrite Hn in H; apply not_elem_of_nil in H|].
    destruct (Hin k r Hk) as (w & Hw & Hr'). exists w. split; [|done]. rewrite <- Hw. f_equal.
    rewrite Hvsp. unfold Z.sub. rewrite wrap_add_l by lia. f_equal. lia.
  - intros k Hk. rewrite Hout, Ho; [done| |].
    + rewrite Hn. apply not_elem_of_nil.
    + intros H. apply Hk, place_pops_keys; [done|by left].
Qed.

Lemma notes_move mem base regs f f' i d n :
  arm_pops i = None -> arm_moves i = Some d -> notes_describe mem base regs f n -> arm_sem mem i f f' ->
  notes_describe mem base regs f' (note_places i n).
Proof.
  intros Hp Hd [Hv Hpl Ho] Hsem. destruct (move_sem _ _ _ _ _ Hd Hsem) as [Hr Hvsp]. unfold note_places. rewrite Hp, Hd.
  split; cbn [fst snd].
  - by rewrite Hvsp, Hv, wrap_add_l, Z.add_assoc by lia.
  - intros r v H. rewrite shown_shift in H. apply list_elem_of_fmap in H as ([r0 v0] & [= -> ->] & H). cbn [fst snd].
    destruct (Hpl r0 v0 H) as (w & Hw & Hr'). exists w. rewrite Hr. split; [|done]. rewrite <- Hw. f_equal.
    rewrite Hvsp. unfold Z.sub. rewrite wrap_add_l by lia. f_equal. lia.
  - intros k Hk. rewrite Hr. apply Ho. intros H. apply Hk. rewrite shown_shift.
    apply list_elem_of_fmap in H as ([r v] & Hkr & H). apply list_elem_of_fmap. exists (r, v + d). split; [done|].
    apply list_elem_of_fmap. by exists (r, v).
Qed.

Lemma notes_run mem base regs l :
  forall popped f f' n,
    Forall arm_instr_ok l -> tracked popped l -> (popped = false -> shown n.2 = []) -> notes_describe mem base regs f n ->
    arm_run mem l f f' -> notes_describe mem base regs f' (note_all l n).
Proof.
  induction l as [|i l IH]; intros popped f f' n Hok Ht Hn Hnd Hrun; inversion Hrun as [|? ? ? f1 ? Hi Hl]; subst; [done|].
  apply Forall_cons in Hok as [Hoki Hok]. cbn [tracked] in Ht. unfold note_all. cbn [fold_left].
  destruct (arm_pops i) as [pops|] eqn:Hp.
  - destruct Ht as (-> & H13 & Ht). apply (IH true f1); try done. by eapply notes_pop; eauto.
  - destruct (arm_moves i) as [d|] eqn:Hd; [|done]. destruct Ht as [_ Ht]. apply (IH popped f1); try done; [|by eapply notes_move].
    intros E. unfold note_places. rewrite Hp, Hd. cbn [snd]. by rewrite shown_shift, (Hn E).
Qed.

(** ** The log computes the notes *)

(** The offsets stay below [b], and the keys are sorted. *)
Record notes_bounded (b : Z) (n : Z * list (Z * Z)) : Prop := {
  nb_vsp : Z.abs n.1 <= b;
  nb_places : forall r v, (r, v) ∈ shown n.2 -> Z.abs v <= b;
  nb_sorted : sorted_from (-1) n.2
}.

Definition put_notes (n : Z * list (Z * Z)) (s : LogArm) : LogArm := put_log_cfa_offset n.1 (put_log_regs n.2 s).
Definition notes (s : LogArm) : Z * list (Z * Z) := (log_cfa_offset_ s, log_regs_ s).

Lemma notes_put n s : notes (put_notes n s) = n.
Proof. by destruct n. Qed.

Lemma sgn_int32 v : - 2 ^ 31 <= v < 2 ^ 31 -> sgn 32 v = v.
Proof.
  intros Hv. unfold sgn, wrap. destruct (Z.neg_nonneg_cases v).
  - rewrite <- (Z_mod_plus_full v 1), Z.mod_small by lia. rewrite (proj2 (Z.ltb_ge _ _)) by lia. lia.
  - rewrite Z.mod_small by lia. rewrite (proj2 (Z.ltb_lt _ _)) by lia. done.
Qed.

Lemma add_int_ok a b : - 2 ^ 31 <= a + b < 2 ^ 31 -> add_int a b = Done (a + b).
Proof. intros H. unfold add_int. rewrite (proj2 (Z.leb_le _ _)), (proj2 (Z.ltb_lt _ _)) by lia. done. Qed.

Lemma adjust_entries_ok d m b :
  (forall r v, (r, v) ∈ shown m -> Z.abs v <= b) -> b + Z.abs d < 2 ^ 31 -> adjust_entries d m = Done (shift_places d m).
Proof.
  intros Hm Hb. induction m as [|[r v] m IH]; cbn [adjust_entries shift_places shown] in *; [done|].
  destruct (_ <=? r); [done|]. pose proof (Hm r v ltac:(by apply elem_of_cons; left)). rewrite add_int_ok by lia.
  rewrite IH; [done|]. intros r' v' H'. apply (Hm r'). apply elem_of_cons. by right.
Qed.

Lemma note_pops_run regs s :
  (length regs <= 16)%nat ->
  note_pops regs (4 * Z.of_nat (length regs)) s
  = Done (tt, put_log_regs (place_pops regs (4 * Z.of_nat (length regs)) (log_regs_ s)) s).
Proof.
  revert s. induction regs as [|r regs IH]; intros s Hl; cbn [note_pops place_pops]; [by destruct s|].
  cbn [length] in *. unfold bind, note_reg, modify. rewrite sgn_int32 by lia.
  replace (4 * Z.of_nat (S (length regs)) - 4) with (4 * Z.of_nat (length regs)) by lia.
  rewrite wrap_small by (unfold in_u; lia). rewrite IH by lia. done.
Qed.

Lemma sorted_shift lo d m : sorted_from lo m -> sorted_from lo (shift_places d m).
Proof.
  revert lo. induction m as [|[r v] m IH]; intros lo; cbn [shift_places sorted_from]; [done|]. intros [? ?].
  destruct (_ <=? _); cbn [sorted_from]; auto.
Qed.

Lemma sorted_pops regs o m : Forall (fun r => 0 <= r < 16) regs -> sorted_from (-1) m -> sorted_from (-1) (place_pops regs o m).
Proof.
  intros Hr. revert o m. induction Hr as [|r regs Hr _ IH]; intros o m Hm; cbn [place_pops]; [done|].
  apply IH, sorted_from_set; [lia|done].
Qed.

Lemma notes_bounded_step i b n :
  arm_instr_ok i -> (exists popped, tracked popped [i]) -> notes_bounded b n -> 0 <= b -> notes_bounded (b + 2 ^ 26) (note_places i n).
Proof.
  intros Hok [popped Ht] [Hv Hp Hs] Hb. cbn [tracked] in Ht. unfold note_places. destruct (arm_pops i) as [regs|] eqn:E.
  - destruct (arm_pops_ok i regs Hok E) as [Hl Hr]. split; cbn [fst snd]; [lia| |by apply sorted_pops].
    intros r v [H|(k & Hk & ->)]%place_pops_shown; [apply Hp in H; lia|]. apply lookup_lt_Some in Hk. lia.
  - destruct (arm_moves i) as [d|]; [|done]. destruct Ht as [Hd _]. split; cbn [fst snd]; [lia| |by apply sorted_shift].
    intros r v H. rewrite shown_shift in H. apply list_elem_of_fmap in H as ([r0 v0] & [= -> ->] & H). apply Hp in H. cbn [snd]. lia.
Qed.

(** One instruction *)
Lemma arm_note_places i b s :
  arm_instr_ok i -> (exists popped, tracked popped [i]) -> notes_bounded b (notes s) -> b + 2 ^ 26 < 2 ^ 31 ->
  arm_note i ARM_LOG_BY_REG s = Done (tt, put_notes (note_places i (notes s)) s).
Proof.
  intros Hok [popped Ht] [Hv Hp _] Hb. cbn [notes fst snd tracked] in *. unfold arm_note, note_places.
  destruct (arm_pops i) as [regs|] eqn:E.
  - destruct (arm_pops_ok i regs Hok E) as [Hl _]. unfold log_pop, add_log_cfa. rewrite bool_decide_false by done.
    rewrite bind_modify, sgn_int32 by lia. by rewrite note_pops_run.
  - destruct (arm_moves i) as [d|] eqn:Ed; [|done]. destruct Ht as [Hd _]. unfold log_move. rewrite bool_decide_false by done.
    assert ((match i with VspSub _ => add_log_cfa d | _ => add_log_cfa_int d end) s = Done (tt, put_log_cfa_offset (log_cfa_offset_ s + d) s)) as Hadd.
    { unfold add_log_cfa, add_log_cfa_int, bind, get, lift, modify. destruct i; rewrite ?sgn_int32, ?add_int_ok by lia; done. }
    rewrite (bind_run _ _ _ _ _ Hadd). unfold AdjustRegisters. rewrite bind_get. cbn [log_regs_ put_log_cfa_offset].
    rewrite (adjust_entries_ok d _ b) by (done || lia). done.
Qed.

Lemma tracked_head popped i l : tracked popped (i :: l) -> (exists p, tracked p [i]) /\ exists p, tracked p l.
Proof.
  cbn [tracked]. destruct (arm_pops i), (arm_moves i); try done.
  - intros (-> & ? & ?). split; [by exists false|by exists true].
  - intros (-> & ? & ?). split; [by exists false|by exists true].
  - intros [? ?]. split; by exists popped.
Qed.

Lemma by_reg_loop l rest : forall popped fuel b s,
  Forall arm_instr_ok l -> tracked popped l -> log_skip_execution_ s = true -> log_type_ s = ARM_LOG_BY_REG ->
  notes_bounded b (notes s) -> 0 <= b -> b + 2 ^ 26 * Z.of_nat (length l) < 2 ^ 31 ->
  data_ (la_arm s) = concat (map encode_arm l) ++ 0xb0 :: rest -> (length l < fuel)%nat ->
  logged_decode_loop fuel s = Done (tt, put_notes (note_all l (notes s)) (left_over rest ARM_STATUS_FINISH s)).
Proof.
  induction l as [|i l IH]; intros popped fuel b s Hl Htr Hsk Ht Hn Hb Hs Hd Hf; (destruct fuel as [|fuel]; [simpl in Hf; lia|]);
    cbn [logged_decode_loop].
  - unfold bind at 1. rewrite (logged_Decode_finish s rest Hsk Hd), Ht. rewrite bool_decide_false by done. by destruct s.
  - apply Forall_cons in Hl as [Hi Hl]. cbn [map concat] in Hd. rewrite <- app_assoc in Hd.
    destruct (tracked_head _ _ _ Htr) as [Hhead [popped' Htail]]. cbn [length] in Hs.
    unfold bind at 1. rewrite (logged_Decode_run i s _ Hi Hsk ltac:(by rewrite Ht) Hd), Ht.
    set (s1 := left_over _ _ s). unfold bind at 1.
    rewrite (arm_note_places i b s1) by (done || lia). unfold ret at 1. cbv iota.
    rewrite (IH popped' fuel (b + 2 ^ 26)); rewrite ?notes_put; try done; try lia; [by apply notes_bounded_step|simpl in Hf; lia].
Qed.

(** ** The texts of [LogByReg] *)

Definition signed_text (plus minus : string) (v : Z) : line := text " " ++ text (if 0 <? v then plus else minus) ++ text " " ++ print_d (Z.abs v).
Definition cfa_text (r o : Z) : line := text "cfa = " ++ reg_name "r" r ++ (if o =? 0 then [] else signed_text "+" "-" o).
Definition place_text (x : Z * Z) : line :=
  reg_name "r" x.1 ++ text " = [cfa" ++ (if x.2 =? 0 then [] else signed_text "-" "+" x.2) ++ text "]".

Lemma abs_int_ok v : Z.abs v < 2 ^ 31 -> abs_int v = Done (Z.abs v).
Proof. intros H. unfold abs_int. by rewrite (proj2 (Z.eqb_neq _ _)) by lia. Qed.

Lemma log_places_run m s :
  (forall r v, (r, v) ∈ shown m -> Z.abs v < 2 ^ 31) ->
  log_places m s = Done (tt, put_printed (printed s ++ map (log_line (log_indent_ s)) (map place_text (shown m))) s).
Proof.
  revert s. induction m as [|[r v] m IH]; intros s Hm; cbn [log_places shown] in *.
  - rewrite app_nil_r. by destruct s.
  - destruct (_ <=? r); [cbn [map]; rewrite app_nil_r; by destruct s|].
    assert (Z.abs v < 2 ^ 31) as Hv by (apply (Hm r), elem_of_cons; by left).
    assert ((if v =? 0 then arm_log (reg_name "r" r ++ text " = [cfa]")
             else n <- lift (abs_int v) ;;
                  arm_log (reg_name "r" r ++ text " = [cfa " ++ text (if 0 <? v then "-" else "+") ++ text " " ++ print_d n ++ text "]")) s
            = arm_log (place_text (r, v)) s) as Hone.
    { unfold place_text, signed_text. cbn [fst snd]. destruct (v =? 0); [done|]. unfold lift. rewrite abs_int_ok by done. unfold bind.
      f_equal. f_equal. change (text " = [cfa ") with (text " = [cfa" ++ text " "). by rewrite <- !app_assoc. }
    unfold bind at 1. rewrite Hone. unfold arm_log, modify. rewrite IH.
    + cbn [printed put_printed log_indent_ map]. by rewrite <- app_assoc.
    + intros r' v' H. apply (Hm r'), elem_of_cons. by right.
Qed.

Lemma LogByReg_run b s :
  log_type_ s = ARM_LOG_BY_REG -> notes_bounded b (notes s) -> b < 2 ^ 31 ->
  LogByReg s = Done (tt, put_printed (printed s ++ map (log_line (log_indent_ s))
    (cfa_text (match map_find LOG_CFA_REG (log_regs_ s) with None => 13 | Some v => u8 v end) (log_cfa_offset_ s)
     :: map place_text (shown (log_regs_ s)))) s).
Proof.
  intros Ht [Hv Hp _] Hb. cbn [notes fst snd] in *. unfold LogByReg. rewrite bind_get, bool_decide_true by done. cbn [negb]. cbv zeta.
  set (r := match map_find _ _ with None => _ | Some _ => _ end). set (o := log_cfa_offset_ s) in *.
  assert ((if negb (o =? 0) then
       n <- lift (abs_int o) ;;
       arm_log (text "cfa = " ++ reg_name "r" r ++ text " " ++ text (if 0 <? o then "+" else "-") ++ text " " ++ print_d n)
     else arm_log (text "cfa = " ++ reg_name "r" r)) s = arm_log (cfa_text r o) s) as Hone.
  { unfold cfa_text, signed_text. destruct (o =? 0); cbn [negb]; [by rewrite app_nil_r|]. unfold lift. rewrite abs_int_ok by lia. done. }
  unfold bind at 1. rewrite Hone. unfold arm_log, modify. rewrite log_places_run.
  - cbn [printed put_printed log_indent_ map]. by rewrite <- app_assoc.
  - intros r' v' H. apply Hp in H. lia.
Qed.

(** * Property *)

(** The instructions may start with one that sets [vsp] to a register. *)
Definition from_reg (start : option Z) (l : list arm_instr) : list arm_instr :=
  match start with Some n => SetVsp n :: l | None => l end.
Definition start_value (start : option Z) (f : vframe) : Z :=
  match start with Some n => nth (Z.to_nat n) (vregs f) 0 | None => vsp f end.
Definition start_notes (start : option Z) : Z * list (Z * Z) :=
  (0, match start with Some n => [(LOG_CFA_REG, n)] | None => [] end).

Lemma cfa_reg_notes l n :
  Forall arm_instr_ok l -> sorted_from (-1) n.2 -> map_find LOG_CFA_REG (note_all l n).2 = map_find LOG_CFA_REG n.2.
Proof.
  intros Hl. revert n. induction Hl as [|i l Hi _ IH]; intros n Hs; [done|]. unfold note_all. cbn [fold_left].
  assert (sorted_from (-1) (note_places i n).2 /\ map_find LOG_CFA_REG (note_places i n).2 = map_find LOG_CFA_REG n.2) as [Hs' He].
  { unfold note_places. destruct (arm_pops i) as [regs|] eqn:E; [|destruct (arm_moves i) as [d|]; [|done]]; cbn [snd].
    - destruct (arm_pops_ok i regs Hi E) as [_ Hr]. split; [by apply sorted_pops|]. clear E. generalize (4 * Z.of_nat (length regs)).
      destruct n as [o m]. cbn [snd] in *. revert m Hs. induction Hr as [|r regs Hr _ IHr]; intros m Hs z; cbn [place_pops]; [done|].
      rewrite IHr by (apply sorted_from_set; [lia|done]). rewrite (map_find_set (-1)) by done.
      by rewrite (proj2 (Z.eqb_neq _ _)) by (unfold LOG_CFA_REG; lia).
    - split; [by apply sorted_shift|]. destruct n as [o m]. cbn [snd]. clear. induction m as [|[r v] m IH]; cbn [shift_places map_find]; [done|].
      destruct (Z.leb_spec LOG_CFA_REG r); cbn [map_find]; [done|].
      by rewrite (proj2 (Z.eqb_neq _ r)), IH by lia. }
  by rewrite <- He; apply IH.
Qed.

Lemma notes_bounded_all l popped b n :
  Forall arm_instr_ok l -> tracked popped l -> notes_bounded b n -> 0 <= b -> notes_bounded (b + 2 ^ 26 * Z.of_nat (length l)) (note_all l n).
Proof.
  intros Hl. revert popped b n. induction Hl as [|i l Hi _ IH]; intros popped b n Ht Hn Hb; [by rewrite Z.add_0_r|].
  destruct (tracked_head _ _ _ Ht) as [Hhead [popped' Htail]]. unfold note_all. cbn [fold_left].
  replace (b + 2 ^ 26 * Z.of_nat (length (i :: l))) with (b + 2 ^ 26 + 2 ^ 26 * Z.of_nat (length l)) by (simpl length; lia).
  eapply IH; [done|by apply notes_bounded_step|lia].
Qed.

Lemma start_bounded start : notes_bounded 0 (start_notes start).
Proof.
  split; cbn [start_notes fst snd]; [lia| |].
  - intros r v. destruct start; cbn [shown]; by intros ?%not_elem_of_nil.
  - destruct start; cbn [sorted_from]; [|done]. unfold LOG_CFA_REG. lia.
Qed.

(** [ARM_LOG_BY_REG] with the instructions that it keeps track of: their first may set [vsp] to a register. *)
Lemma by_reg_Eval start l rest s :
  Forall arm_instr_ok (from_reg start l) -> tracked false l -> (length l <= 30)%nat ->
  log_type_ s = ARM_LOG_BY_REG -> log_skip_execution_ s = true -> notes s = (0, []) ->
  data_ (la_arm s) = concat (map encode_arm (from_reg start l)) ++ 0xb0 :: rest ->
  exists s', logged_Eval s = Done (true, s') /\ notes s' = note_all l (start_notes start) /\
    printed s' = printed s /\ log_indent_ s' = log_indent_ s /\ log_type_ s' = ARM_LOG_BY_REG.
Proof.
  intros Hok Htr Hlen Ht Hsk Hn Hd. set (s1 := put_la_arm (put_pc_set false (la_arm s)) s).
  assert (exists a, logged_decode_loop (S (length (data_ (la_arm s1)))) s1
    = Done (tt, put_notes (note_all l (start_notes start)) (left_over rest ARM_STATUS_FINISH (put_la_arm a s1)))) as (a & Hloop).
  { change (data_ (la_arm s1)) with (data_ (la_arm s)). rewrite Hd. destruct start as [n|]; cbn [from_reg] in *.
    - apply Forall_cons in Hok as [Hi Hl]. cbn [map concat logged_decode_loop]. rewrite <- app_assoc.
      unfold bind at 1. rewrite (logged_Decode_run (SetVsp n) s1 (concat (map encode_arm l) ++ 0xb0 :: rest)) by
        (done || (change (log_type_ s <> ARM_LOG_NONE); rewrite Ht; done) ||
         (etransitivity; [exact Hd|]; cbn [map concat]; by rewrite <- app_assoc)).
      unfold bind at 1, arm_note, note_reg, modify. cbn [arm_pops arm_moves]. change (log_type_ s1) with (log_type_ s).
      rewrite bool_decide_false by (rewrite Ht; done). unfold ret at 1. cbv iota.
      set (s2 := put_log_regs _ _). exists (la_arm s2).
      assert (notes s2 = start_notes (Some n)) as Hn2 by (unfold notes in *; injection Hn as Ho Hr; cbn; by rewrite Ho, Hr).
      erewrite (by_reg_loop l rest false _ 0 s2); try done; try (rewrite Hn2; apply start_bounded); try lia.
      + by rewrite Hn2.
      + pose proof (length_encodings l (0xb0 :: rest)). rewrite length_app. simpl. lia.
    - exists (la_arm s1). erewrite (by_reg_loop l rest false _ 0 s1); try done; try lia.
      + by replace (notes s1) with (notes s) by done; rewrite Hn.
      + replace (notes s1) with (notes s) by done. rewrite Hn. apply (start_bounded None).
      + pose proof (length_encodings l (0xb0 :: rest)). lia. }
  eexists. split.
  - unfold logged_Eval. unfold bind at 1, on_arm at 1, zoom, modify at 1. rewrite bind_get. fold s1. unfold bind at 1. rewrite Hloop. reflexivity.
  - by rewrite notes_put.
Qed.

(** C12. The listing by registers: with [ARM_LOG_BY_REG] and without execution, [Eval] and [LogByReg] print where
    the instructions put [vsp], relative to the register from which it starts, and where they pop
    registers from, relative to the new [vsp]. For every memory and frame, a run of the instructions as the
    ABI defines them reaches that [vsp], finds the registers in the places of the listing, and leaves the
    others as they were. The instructions may set [vsp] to a register first, move it, and pop registers
    once. *)
Theorem arm_log_by_reg start l rest s
  (Hok : Forall arm_instr_ok (from_reg start l)) (Htracked : tracked false l) (Hlength : (length l <= 30)%nat)
  (Hlog : log_type_ s = ARM_LOG_BY_REG) (Hskip : log_skip_execution_ s = true) (Hfresh : notes s = (0, []))
  (Hdata : data_ (la_arm s) = concat (map encode_arm (from_reg start l)) ++ 0xb0 :: rest) :
  exists o places s',
    (ok <- logged_Eval ;; LogByReg ;; ret ok) s = Done (true, s') /\
    printed s' = printed s ++ map (log_line (log_indent_ s)) (cfa_text (default 13 start) o :: map place_text places) /\
    forall mem f f', Forall (in_u 32) (vsp f :: vregs f) -> arm_run mem (from_reg start l) f f' ->
      vsp f' = u32 (start_value start f + o) /\
      (forall r v, (r, v) ∈ places -> exists w, Read32 mem (u32 (vsp f' - v)) = Some w /\ vregs f' !! Z.to_nat r = Some w) /\
      (forall k, ~ Z.of_nat k ∈ places.*1 -> vregs f' !! k = vregs f !! k).
Proof.
  destruct (by_reg_Eval start l rest s) as (s1 & Hrun & Hn & Hp & Hi & Ht); try done.
  assert (Forall arm_instr_ok l) as Hl by (destruct start; [by apply Forall_cons in Hok as [_ ?]|done]).
  pose proof (start_bounded start) as Hb. set (n := note_all l (start_notes start)) in *.
  exists n.1, (shown n.2). eexists. split_and!.
  - rewrite (bind_run _ _ _ _ _ Hrun). unfold bind at 1. erewrite LogByReg_run; [reflexivity|done| |].
    + rewrite Hn. by eapply notes_bounded_all.
    + lia.
  - cbn [printed put_printed]. rewrite Hp, Hi. unfold notes in Hn. destruct n as [o m] eqn:En. injection Hn as -> ->. cbn [fst snd].
    do 4 f_equal. replace m with (note_all l (start_notes start)).2 by (subst n; by rewrite En). rewrite cfa_reg_notes; [|done|apply Hb].
    destruct start as [r|]; [|done]. cbn [from_reg] in Hok. apply Forall_cons in Hok as [[Hr _] _]. cbn [start_notes snd map_find default].
    rewrite Z.eqb_refl. apply wrap_small. unfold in_u. simpl; lia.
  - intros mem f f' Hf Hfr. assert (exists f1, arm_run mem l f1 f' /\ vregs f1 = vregs f /\ vsp f1 = start_value start f) as (f1 & Hl1 & Hr1 & Hv1).
    { destruct start as [r|]; cbn [from_reg start_value] in *; [|by exists f].
      inversion Hfr as [|? ? ? f1 ? Hs Hl1]; subst. exists f1. cbn [arm_sem] in Hs. by subst f1. }
    destruct (notes_run mem (start_value start f) (vregs f) l false f1 f' (start_notes start)) as [H1 H2 H3]; try done.
    + intros _. by destruct start.
    + split; cbn [start_notes fst snd].
      * rewrite Hv1, Z.add_0_r, wrap_small; [done|]. apply Forall_cons in Hf as [Hf Hr]. destruct start as [r|]; cbn [start_value]; [|done].
        destruct (decide (Z.to_nat r < length (vregs f))%nat) as [Hlt|]; [|rewrite nth_overflow by lia; unfold in_u; simpl; lia].
        apply lookup_lt_is_Some_2 in Hlt as [w Hw]. rewrite (nth_lookup_Some _ _ _ _ Hw). by eapply Forall_lookup_1.
      * intros q v. destruct start; cbn [shown]; by intros ?%not_elem_of_nil.
      * intros k _. by rewrite Hr1.
Qed.

(** * Witnesses *)

Definition log_memory : Memory := mkMemory (fun _ _ => []).
Definition log_object (bytes : list Z) (t : ArmLogType) (skip : bool) : LogArm :=
  set_log t 1 skip (put_data bytes (new_ArmExidx new_regs_arm log_memory log_memory)).

(** What an object without execution prints *)
Definition log_lines (t : ArmLogType) (bytes : list Z) : list string :=
  match (logged_Eval ;; LogByReg) (log_object bytes t true) with
  | Done (_, s) => map string_of_list_byte (printed s)
  | Fault _ => []
  end.

Example arm_log_full :
  log_lines ARM_LOG_FULL [0x84; 0x80; 0x02; 0xa9; 0xb1; 0x05; 0xb2; 0x81; 0x01; 0xb3; 0x34; 0xc7; 0x03; 0x43; 0xb0]
  = ["  pop {r11, r14}"; "  vsp = vsp + 12"; "  pop {r4-r5, r14}"; "  pop {r0, r2}"; "  vsp = vsp + 1032"; "  pop {d3-d7}";
     "  pop {wCGR0, wCGR1}"; "  vsp = vsp - 16"; "  finish"]%string.
Proof. vm_compute. reflexivity. Qed.

(** A single register of [FSTMFDX] is printed as a range. *)
Example arm_log_fstmfdx : log_lines ARM_LOG_FULL [0xb3; 0x30; 0xb0] = ["  pop {d3-d3}"; "  finish"]%string.
Proof. vm_compute. reflexivity. Qed.

(** A pop does not adjust the places of the registers that were popped before it: both of these are shown in
    the same place, but [r4] is 8 below the new [vsp]. *)
Example arm_log_two_pops :
  log_lines ARM_LOG_BY_REG [0x80; 0x01; 0x80; 0x02; 0xb0] = ["  cfa = r13 + 8"; "  r4 = [cfa - 4]"; "  r5 = [cfa - 4]"]%string.
Proof. vm_compute. reflexivity. Qed.

Lemma arm_log_transparent_witness :
  match logged_Eval (log_object [0x9b; 0x02; 0xb0] ARM_LOG_FULL false) with
  | Done (ok, s') => Eval (put_data [0x9b; 0x02; 0xb0] (new_ArmExidx new_regs_arm log_memory log_memory)) = Done (ok, la_arm s')
  | Fault f => Eval (put_data [0x9b; 0x02; 0xb0] (new_ArmExidx new_regs_arm log_memory log_memory)) = Fault f \/
               (f = Undef UbOverflow /\ ARM_LOG_FULL <> ARM_LOG_NONE)
  end.
Proof. exact (arm_log_transparent (log_object [0x9b; 0x02; 0xb0] ARM_LOG_FULL false) eq_refl). Defined.

(** [vsp = r11], [vsp += 12], [pop {r4, r14}], [vsp -= 16] *)
Definition log_instrs : list arm_instr := [VspAdd 2; PopRange 0 true; VspSub 3].

Lemma arm_log_listing_witness :
  logged_Eval (log_object [0x02; 0xa8; 0x43; 0xb0] ARM_LOG_FULL true)
  = Done (true, put_printed ([] ++ map (log_line 1) (map arm_text log_instrs ++ [text "finish"]))
                  (put_la_arm (put_status ARM_STATUS_FINISH (put_data [] (put_pc_set false
                     (la_arm (log_object [0x02; 0xa8; 0x43; 0xb0] ARM_LOG_FULL true)))))
                     (log_object [0x02; 0xa8; 0x43; 0xb0] ARM_LOG_FULL true))).
Proof.
  apply (arm_log_listing log_instrs []); try reflexivity.
  repeat (apply Forall_cons; split); try apply Forall_nil_2; cbn [arm_instr_ok]; lia.
Defined.

Lemma arm_log_by_reg_witness :
  exists o places s',
    (ok <- logged_Eval ;; LogByReg ;; ret ok) (log_object [0x9b; 0x02; 0xa8; 0x43; 0xb0] ARM_LOG_BY_REG true) = Done (true, s') /\
    printed s' = [] ++ map (log_line 1) (cfa_text 11 o :: map place_text places) /\
    forall mem f f', Forall (in_u 32) (vsp f :: vregs f) -> arm_run mem (SetVsp 11 :: log_instrs) f f' ->
      vsp f' = u32 (nth 11 (vregs f) 0 + o) /\
      (forall r v, (r, v) ∈ places -> exists w, Read32 mem (u32 (vsp f' - v)) = Some w /\ vregs f' !! Z.to_nat r = Some w) /\
      (forall k, ~ Z.of_nat k ∈ places.*1 -> vregs f' !! k = vregs f !! k).
Proof.
  apply (arm_log_by_reg (Some 11) log_instrs [] (log_object [0x9b; 0x02; 0xa8; 0x43; 0xb0] ARM_LOG_BY_REG true)); try reflexivity.
  - repeat (apply Forall_cons; split); try apply Forall_nil_2; cbn [arm_instr_ok]; lia.
  - cbn [tracked log_instrs arm_pops arm_moves]. split; [lia|]. split; [done|]. split; [|split; [lia|done]].
    change (~ 13 ∈ [4; 14]). rewrite !elem_of_cons, elem_of_nil. lia.
  - simpl; lia.
Defined.

Example arm_log_places :
  log_lines ARM_LOG_BY_REG [0x9b; 0x02; 0xa8; 0x43; 0xb0] = ["  cfa = r11 + 4"; "  r4 = [cfa + 8]"; "  r14 = [cfa + 12]"]%string.
Proof. vm_compute. reflexivity. Qed.
