(* ===== verification/DwarfLog.v ===== *)
(** The listings of call frame instructions and of DWARF expressions: [GetLogInfo] of [DwarfOp.cpp], [Log] of
    [DwarfCfa.cpp] and of [DwarfSection.cpp]. What went to the log is a list of lines.

    [Log] walks over the instructions like [GetLocationInfo]. It prints each of them with its bytes, and the
    address of each new row. *)
From Stdlib Require Import ZArith Lia Bool Strings.Byte Strings.String.
From stdpp Require Import base numbers list gmap.
From S2P Require Import Prelude Memory DwarfMemory DwarfEncode DwarfStructs Regs DwarfOpTable DwarfOp DwarfOpExpr DwarfCfaTable DwarfCfa DwarfCfaRows.
From S2P Require Import DwarfSection UnwinderFormat Log.
#[local] Open Scope Z_scope.

(** * Lines *)

Record LogState := mkLog { lg_memory : DwarfMemory; lg_lines : list line }.
Definition put_lg_memory (d : DwarfMemory) (s : LogState) : LogState := mkLog d (lg_lines s).
Definition put_lg_lines (l : list line) (s : LogState) : LogState := mkLog (lg_memory s) l.

Abbreviation LG := (M LogState).
Definition on_lg_memory {B} (m : DM B) : LG B := zoom lg_memory put_lg_memory m.
Definition log (indent : Z) (s : line) : LG unit := modify (fun st => put_lg_lines (lg_lines st ++ [log_line indent s]) st).

Section Log.
Context (A : addr_type).

(** * Expressions *)

(** The operands of an operation, [n] of them left from index [i] on. *)
Fixpoint log_operands (op : OpCallback) (n i : nat) (log_string : line) : DM (option line) :=
  match n with
  | O => ret (Some log_string)
  | S n' =>
      value <-? ReadEncodedValue A (operand_encoding op i) ;;
      log_operands op n' (S i) (log_string ++ x20 :: digits 10 value)
  end.

(** [n] bytes, which are read again to be printed. *)
Fixpoint log_raw (n : nat) (raw : line) : DM (option line) :=
  match n with
  | O => ret (Some raw)
  | S n' => value <-? ReadUnsigned 1 ;; log_raw n' (raw ++ hex_byte value)
  end.

(** The body of the loop of [GetLogInfo]; [None] for the [return] after a read that fails. *)
Definition log_op : DM (option (list line)) :=
  cur_op <-? ReadUnsigned 1 ;;
  let raw_string := text "Raw Data:" ++ hex_byte cur_op in
  let op := op_callback cur_op in
  if bool_decide (handle_func op = OP_ILLEGAL) then ret (Some [text "Illegal"; raw_string])
  else
    start_offset <- cur_offset ;;
    log_string <-? log_operands op (Z.to_nat (num_operands op)) 0 (text (op_name op)) ;;
    end_offset <- cur_offset ;;
    set_cur_offset start_offset ;;
    raw_string <-? log_raw (Z.to_nat (end_offset - start_offset)) raw_string ;;
    set_cur_offset end_offset ;;
    ret (Some [log_string; raw_string]).

Fixpoint log_ops (fuel : nat) (fin : Z) (lines : list line) : DM (list line) :=
  match fuel with
  | O => fail OutOfFuel
  | S fuel' =>
      cur <- cur_offset ;;
      if cur <? fin then
        r <- log_op ;;
        match r with
        | None => ret lines
        | Some l => log_ops fuel' fin (lines ++ l)
        end
      else ret lines
  end.

Definition GetLogInfo (fuel : nat) (start fin : Z) (lines : list line) : DM (list line) :=
  set_cur_offset start ;; log_ops fuel fin lines.

(** * Call frame instructions *)

Definition print_address (value : Z) : line := text " 0x" ++ print_x (addr A value).

(** The text of an operand, and the new [cur_pc]. *)
Definition GetOperandString (operand : DisplayType) (value cur_pc : Z) : line * Z :=
  match operand with
  | DWARF_DISPLAY_REGISTER => (text " register(" ++ digits 10 value ++ text ")", cur_pc)
  | DWARF_DISPLAY_SIGNED_NUMBER => (x20 :: print_d (saddr A value), cur_pc)
  | DWARF_DISPLAY_ADVANCE_LOC => (x20 :: digits 10 value, u64 (cur_pc + value))
  | DWARF_DISPLAY_NUMBER => (x20 :: digits 10 value, cur_pc)
  | DWARF_DISPLAY_SET_LOC => (print_address value, value)
  | DWARF_DISPLAY_ADDRESS => (print_address value, cur_pc)
  | DWARF_DISPLAY_NONE | DWARF_DISPLAY_EVAL_BLOCK => (text " unknown", cur_pc)
  end.

Definition LogOffsetRegisterString (indent cfa_offset reg : Z) : LG bool :=
  offset <- on_lg_memory ReadULEB128 ;;
  match offset with
  | None => ret false
  | Some offset =>
      end_offset <- on_lg_memory cur_offset ;;
      on_lg_memory (set_cur_offset cfa_offset) ;;
      raw_data <- on_lg_memory (log_raw (Z.to_nat (end_offset - cfa_offset)) (text "Raw Data:")) ;;
      match raw_data with
      | None => ret false
      | Some raw_data =>
          log indent (text "DW_CFA_offset register(" ++ print_d reg ++ text ") " ++ print_d (sgn 64 offset)) ;;
          log indent raw_data ;;
          ret true
      end
  end.

(** The operands of an instruction: its text so far, the lines of its expressions, and [cur_pc]. *)
Fixpoint log_cfa_operands (fuel : nat) (cfa : Info) (n i : nat) (log_string : line) (lines : list line) (cur_pc : Z)
    : DM (option (line * list line * Z)) :=
  match n with
  | O => ret (Some (log_string, lines, cur_pc))
  | S n' =>
      if info_operand cfa i =? DW_EH_PE_block then
        end_offset <-? ReadULEB128 ;;
        cur <- cur_offset ;;
        let log_string := log_string ++ x20 :: digits 10 end_offset in
        let end_offset := u64 (end_offset + cur) in
        lines <- GetLogInfo fuel cur end_offset lines ;;
        set_cur_offset end_offset ;;
        log_cfa_operands fuel cfa n' (S i) log_string lines cur_pc
      else
        value <-? ReadEncodedValue A (info_operand cfa i) ;;
        let '(s, cur_pc) := GetOperandString (nth i (display_operands cfa) DWARF_DISPLAY_NONE) value cur_pc in
        log_cfa_operands fuel cfa n' (S i) (log_string ++ s) lines cur_pc
  end.

(** The bytes of an instruction, ten in a line: [n] of them are left from the [i]-th on. *)
Fixpoint log_raw_lines (indent : Z) (n : nat) (i : Z) (raw_data : line) : LG bool :=
  match n with
  | O =>
      (if bool_decide (raw_data = []) then ret tt else log indent raw_data) ;;
      ret true
  | S n' =>
      value <- on_lg_memory (ReadUnsigned 1) ;;
      match value with
      | None => ret false
      | Some value =>
          raw_data <- (if (i mod 10 =? 0) && negb (i =? 0) then log indent raw_data ;; ret [] else ret raw_data) ;;
          let raw_data := if bool_decide (raw_data = []) then text "Raw Data:" else raw_data in
          log_raw_lines indent n' (i + 1) (raw_data ++ hex_byte value)
      end
  end.

Fixpoint log_all (indent : Z) (l : list line) : LG unit :=
  match l with
  | [] => ret tt
  | s :: l' => log indent s ;; log_all indent l'
  end.

(** The new [cur_pc], or [None] for [false]. *)
Definition LogInstruction (fuel : nat) (indent cfa_offset op cur_pc : Z) : LG (option Z) :=
  let cfa := cfa_info op in
  if bool_decide (info_name cfa = EmptyString) then
    log indent (text "Illegal") ;;
    log indent (text "Raw Data:" ++ hex_byte op) ;;
    ret (Some cur_pc)
  else
    r <- on_lg_memory (log_cfa_operands fuel cfa (Z.to_nat (info_num_operands cfa)) 0 (text (info_name cfa)) [] cur_pc) ;;
    match r with
    | None => ret None
    | Some (log_string, expression_lines, cur_pc) =>
        log indent log_string ;;
        end_offset <- on_lg_memory cur_offset ;;
        on_lg_memory (set_cur_offset cfa_offset) ;;
        ok <- log_raw_lines indent (Z.to_nat (u64 (end_offset - cfa_offset))) 0 (text "Raw Data:") ;;
        if (ok : bool) then log_all (indent + 1) expression_lines ;; ret (Some cur_pc) else ret None
    end.

(** The [switch] of the loop over an instruction byte. *)
Definition log_switch (fuel : nat) (cie : DwarfCie) (indent cfa_offset cfa_value cur_pc : Z) : LG (option Z) :=
  let cfa_low := Z.land cfa_value 0x3f in
  let high := Z.shiftr cfa_value 6 in
  if high =? 0 then LogInstruction fuel indent cfa_offset cfa_low cur_pc
  else if high =? 1 then
    log indent (text "DW_CFA_advance_loc " ++ print_d cfa_low) ;;
    log indent (text "Raw Data:" ++ hex_byte cfa_value) ;;
    ret (Some (u64 (cur_pc + u64 (cfa_low * code_alignment_factor cie))))
  else if high =? 2 then
    ok <- LogOffsetRegisterString indent cfa_offset cfa_low ;;
    ret (if (ok : bool) then Some cur_pc else None)
  else
    log indent (text "DW_CFA_restore register(" ++ print_d cfa_low ++ text ")") ;;
    log indent (text "Raw Data:" ++ hex_byte cfa_value) ;;
    ret (Some cur_pc).

(** [old_pc] is the [cur_pc] before the instruction. *)
Fixpoint log_loop (fuel op_fuel : nat) (cie : DwarfCie) (indent pc end_offset cur_pc : Z) : LG bool :=
  match fuel with
  | O => fail OutOfFuel
  | S fuel' =>
      cfa_offset <- on_lg_memory cur_offset ;;
      if (cfa_offset <? end_offset) && (cur_pc <=? pc) then
        cfa_value <- on_lg_memory (ReadUnsigned 1) ;;
        match cfa_value with
        | None => ret false
        | Some cfa_value =>
            r <- log_switch op_fuel cie indent cfa_offset cfa_value cur_pc ;;
            match r with
            | None => ret false
            | Some new_pc =>
                (if negb (new_pc =? cur_pc) then log 0 [] ;; log indent (text "PC 0x" ++ print_x new_pc) else ret tt) ;;
                log_loop fuel' op_fuel cie indent pc end_offset new_pc
            end
        end
      else ret true
  end.

Definition Log (fuel : nat) (fde : DwarfFde) (cie : DwarfCie) (indent pc start_offset end_offset : Z) : LG bool :=
  on_lg_memory (set_cur_offset start_offset) ;;
  log_loop fuel fuel cie indent pc end_offset (pc_start fde).

(** * The listing of an FDE *)

(** The section and the lines that were printed. [Log] of [DwarfCfa] records no error, and the object does not
    initialize its own: [garbage] is what it holds. *)
Definition on_section_memory {B} (m : LG B) : M (DwarfSection * list line) B :=
  zoom (fun p => mkLog (sec_memory p.1) p.2) (fun s p => (put_sec_memory (lg_memory s) p.1, lg_lines s)) m.

Definition section_Log (garbage : DwarfErrorData) (fuel : nat) (indent pc : Z) (fde : DwarfFde) : M (DwarfSection * list line) bool :=
  let fails := modify (fun p => (put_sec_error garbage p.1, p.2)) ;; ret false in
  c <- some_or (Undef UbNull) (fde_cie fde) ;;
  cie <- zoom fst (fun s p => (s, p.2)) (deref_cie c) ;;
  ok <- on_section_memory (Log fuel fde cie indent pc (cie_cfa_instructions_offset cie) (cie_cfa_instructions_end cie)) ;;
  if negb ok then fails
  else
    ok <- on_section_memory (Log fuel fde cie indent pc (cfa_instructions_offset fde) (cfa_instructions_end fde)) ;;
    if negb ok then fails else ret true.
End Log.

(** * The text of an instruction *)

Definition num (v : Z) : line := x20 :: digits 10 v.
Definition reg (r : Z) : line := text " register(" ++ digits 10 r ++ text ")".

Section Text.
Context (A : addr_type).

Definition snum (v : Z) : line := x20 :: print_d (saddr A v).

Definition instr_text (i : cfa_instr) : line :=
  match i with
  | Nop => text "DW_CFA_nop"
  | GnuArgsSize n => text "DW_CFA_GNU_args_size" ++ num n
  | SetLoc pc => text "DW_CFA_set_loc 0x" ++ print_x pc
  | Advance d => text "DW_CFA_advance_loc " ++ print_d d
  | AdvanceLoc1 d => text "DW_CFA_advance_loc1" ++ num d
  | AdvanceLoc2 d => text "DW_CFA_advance_loc2" ++ num d
  | AdvanceLoc4 d => text "DW_CFA_advance_loc4" ++ num d
  | Offset r o => text "DW_CFA_offset register(" ++ print_d r ++ text ") " ++ print_d (sgn 64 o)
  | OffsetExtended r o => text "DW_CFA_offset_extended" ++ reg r ++ num o
  | Restore r => text "DW_CFA_restore register(" ++ print_d r ++ text ")"
  | RestoreExtended r => text "DW_CFA_restore_extended" ++ reg r
  | Undefined r => text "DW_CFA_undefined" ++ reg r
  | SameValue r => text "DW_CFA_same_value" ++ reg r
  | Register r r' => text "DW_CFA_register" ++ reg r ++ reg r'
  | RememberState => text "DW_CFA_remember_state"
  | RestoreState => text "DW_CFA_restore_state"
  | DefCfa r o => text "DW_CFA_def_cfa" ++ reg r ++ num o
  | DefCfaRegister r => text "DW_CFA_def_cfa_register" ++ reg r
  | DefCfaOffset o => text "DW_CFA_def_cfa_offset" ++ num o
  | DefCfaExpression blk => text "DW_CFA_def_cfa_expression" ++ num (len blk)
  | Expression r blk => text "DW_CFA_expression" ++ reg r ++ num (len blk)
  | ValExpression r blk => text "DW_CFA_val_expression" ++ reg r ++ num (len blk)
  | OffsetExtendedSf r o => text "DW_CFA_offset_extended_sf" ++ reg r ++ snum o
  | DefCfaSf r o => text "DW_CFA_def_cfa_sf" ++ reg r ++ snum o
  | DefCfaOffsetSf o => text "DW_CFA_def_cfa_offset_sf" ++ snum o
  | ValOffset r o => text "DW_CFA_val_offset" ++ reg r ++ num o
  | ValOffsetSf r o => text "DW_CFA_val_offset_sf" ++ reg r ++ snum o
  | GnuNegativeOffsetExtended r o => text "DW_CFA_GNU_negative_offset_extended" ++ reg r ++ num o
  end.

(** The address after an instruction, as the listing counts it: only the short form of an advance is scaled. *)
Definition log_pc (cie : DwarfCie) (i : cfa_instr) (pc : Z) : Z :=
  match i with
  | SetLoc pc' => pc'
  | Advance d => u64 (pc + u64 (d * code_alignment_factor cie))
  | AdvanceLoc1 d | AdvanceLoc2 d | AdvanceLoc4 d => u64 (pc + d)
  | _ => pc
  end.

(** Groups of ten bytes *)
Fixpoint group (g bs : list byte) : list (list byte) :=
  match bs with
  | [] => [g]
  | b :: bs => if (length g =? 10)%nat then g :: group [b] bs else group (g ++ [b]) bs
  end.

Definition hex_bytes (bs : list byte) : line := concat (map (fun b => hex_byte (byte_val b)) bs).
Definition raw_line (bs : list byte) : line := text "Raw Data:" ++ hex_bytes bs.

(** Every byte is shown, in its place. *)
Lemma concat_group g bs : concat (group g bs) = g ++ bs.
Proof.
  revert g. induction bs as [|b bs IH]; intros g; cbn [group]; [by cbn; rewrite app_nil_r|].
  destruct (_ =? _)%nat; cbn [concat]; rewrite IH; [done|by rewrite <- app_assoc].
Qed.

(** The short forms are printed in one line. *)
Definition raw_lines (i : cfa_instr) : list line :=
  match extended i with
  | Some _ => map raw_line (group [] (encode_cfa A i))
  | None => [raw_line (encode_cfa A i)]
  end.

(** An operation of an expression, with its bytes. *)
Definition op_lines (i : instr) : list line :=
  [ (if bool_decide (handle_func (op_callback i.1) = OP_ILLEGAL) then text "Illegal"
     else text (op_name (op_callback i.1)) ++ concat (map (fun v => num (u64 v)) i.2));
    raw_line (encode A i) ].
Definition expression_lines (l : list instr) : list line := concat (map op_lines l).

(** The listing of instructions from [pc] on, each with the operations of its expression, up to the first
    row behind [limit]. *)
Fixpoint listing (cie : DwarfCie) (indent limit pc : Z) (l : list (cfa_instr * list instr)) : list line :=
  match l with
  | [] => []
  | (i, ops) :: l =>
      if limit <? pc then []
      else
        let pc' := log_pc cie i pc in
        map (log_line indent) (instr_text i :: raw_lines i) ++ map (log_line (indent + 1)) (expression_lines ops) ++
        (if negb (pc' =? pc) then [log_line 0 []; log_line indent (text "PC 0x" ++ print_x pc')] else []) ++
        listing cie indent limit pc' l
  end.

(** The expression of an instruction consists of these operations. *)
Definition block_of (i : cfa_instr) : option (list byte) :=
  match i with DefCfaExpression blk | Expression _ blk | ValExpression _ blk => Some blk | _ => None end.
Definition disassembled (x : cfa_instr * list instr) : Prop :=
  cfa_instr_ok A x.1 /\
  match block_of x.1 with
  | Some blk => blk = encode_all A x.2 /\ Forall (instr_ok A) x.2
  | None => x.2 = []
  end.
End Text.

(** * Running the listing *)

Section Run.
Context (A : addr_type) (bm : Z -> option byte).
Implicit Types (d : DwarfMemory) (s : LogState).

Local Abbreviation at_bytes := (at_bytes bm).

Lemma bind_lg_memory {B C} (m : DM B) (k : B -> LG C) s b d :
  m (lg_memory s) = Done (b, d) -> bind (on_lg_memory m) k s = k b (mkLog d (lg_lines s)).
Proof. intros Hm. unfold bind, on_lg_memory, zoom. by rewrite Hm. Qed.

Lemma bind_log {C} indent t (k : unit -> LG C) s :
  bind (log indent t) k s = k tt (mkLog (lg_memory s) (lg_lines s ++ [log_line indent t])).
Proof. by destruct s. Qed.

Lemma at_cons d b bs : at_bytes d (b :: bs) ->
  ReadUnsigned 1 d = Done (Some (byte_val b), skip 1 d) /\ at_bytes (skip 1 d) bs.
Proof.
  intros H. change (b :: bs) with ([b] ++ bs) in H. apply (at_bytes_split bm) in H as [H1 H2].
  by split; [apply (ReadUnsigned_1_run bm)|].
Qed.

Lemma at_put_back d bs : at_bytes d bs -> forall d' x, memory_ d' = memory_ d -> x = cur_offset_ d -> at_bytes (put_cur x d') bs.
Proof. intros (Hm & Hc & Hh) d' x E ->. split; [cbn; by rewrite E|by split]. Qed.

Lemma skip_cur n d : 0 <= n -> in_u 64 (cur_offset_ d + n) -> skip n d = put_cur (cur_offset_ d + n) d.
Proof. intros Hn Hr. unfold skip. by rewrite wrap_small. Qed.

Lemma log_raw_run bs d raw :
  at_bytes d bs -> log_raw (length bs) raw d = Done (Some (raw ++ hex_bytes bs), skip (len bs) d).
Proof.
  revert d raw. induction bs as [|b bs IH]; intros d raw Ha.
  - destruct Ha as (_ & Hc & _). change (len []) with 0. rewrite skip_0 by done. by rewrite app_nil_r.
  - destruct (at_cons _ _ _ Ha) as [Hr Ha']. cbn [log_raw length]. rewrite (obind_run _ _ _ _ _ Hr), IH by done.
    unfold hex_bytes. cbn [map concat]. by rewrite skip_skip, len_cons, <- app_assoc.
Qed.

(** ** Expressions *)

Lemma log_operands_run op vals i t d :
  operands_ok A op vals i -> at_bytes d (encode_operands A op vals i) ->
  log_operands A op (length vals) i t d
  = Done (Some (t ++ concat (map (fun v => num (u64 v)) vals)), skip (len (encode_operands A op vals i)) d).
Proof.
  revert i t d. induction vals as [|v vals IH]; intros i t d Hok Ha.
  - destruct Ha as (_ & Hc & _). change (len (encode_operands A op [] i)) with 0. rewrite skip_0 by done. by rewrite app_nil_r.
  - destruct Hok as [Hv Hok]. cbn [encode_operands] in *. apply (at_bytes_split bm) in Ha as [Hb Ha].
    cbn [log_operands length]. rewrite (obind_run _ _ _ _ _ (ReadEncodedValue_run A bm _ _ _ Hv Hb)), IH by done.
    by rewrite skip_skip, len_app, <- app_assoc.
Qed.

(** [n] bytes from one position to another are read and the cursor is put back. *)
Lemma count_bytes bs x y : y = x + len bs -> Z.to_nat (y - x) = length bs.
Proof. intros ->. unfold len. lia. Qed.

Lemma log_op_run i d :
  instr_ok A i -> at_bytes d (encode A i) -> cur_offset_ d + len (encode A i) < 2 ^ 64 ->
  log_op A d = Done (Some (op_lines A i), skip (len (encode A i)) d).
Proof.
  intros (Hop & Hn & Hok) Ha He. unfold encode in *. set (bs := encode_operands _ _ _ _) in *. rewrite len_cons in He.
  destruct (at_cons _ _ _ Ha) as [Hr Ha']. unfold log_op, op_lines. rewrite (obind_run _ _ _ _ _ Hr), byte_val_of, Z.mod_small by lia.
  pose proof Ha as (_ & [Hc0 _] & _). pose proof (len_nonneg bs).
  assert (raw_line (encode A i) = text "Raw Data:" ++ hex_byte i.1 ++ hex_bytes bs) as Er.
  { unfold raw_line, encode, hex_bytes. cbn [map concat]. by rewrite byte_val_of, Z.mod_small by lia. }
  rewrite Er. cbv zeta. destruct (bool_decide_reflect (handle_func (op_callback i.1) = OP_ILLEGAL)) as [Eh|Eh].
  { assert (num_operands (op_callback i.1) = 0) as E0.
    { assert (forallb (fun n => bool_decide (handle_func (op_callback (Z.of_nat n)) = OP_ILLEGAL -> num_operands (op_callback (Z.of_nat n)) = 0)) (seq 0 256) = true) as Hall
        by (vm_compute; reflexivity).
      rewrite forallb_forall in Hall. specialize (Hall (Z.to_nat i.1)). rewrite in_seq, Z2Nat.id in Hall by lia.
      specialize (Hall ltac:(lia)). by apply bool_decide_eq_true in Hall; auto. }
    rewrite E0 in Hn. destruct i as [op vals]. cbn [fst snd] in *. assert (vals = []) as -> by (destruct vals; [done|cbn [length] in Hn; lia]).
    change bs with (@nil byte). unfold hex_bytes. cbn [map concat]. by rewrite app_nil_r. }
  unfold bind at 1, cur_offset at 1, gets.
  assert (Z.to_nat (num_operands (op_callback i.1)) = length i.2) as -> by (rewrite <- Hn; apply Nat2Z.id).
  rewrite (obind_run _ _ _ _ _ (log_operands_run _ _ _ _ _ Hok Ha')). fold bs.
  unfold bind at 1, cur_offset at 1, gets. unfold bind at 1, set_cur_offset at 1, modify.
  assert (cur_offset_ (skip (len bs) (skip 1 d)) = cur_offset_ (skip 1 d) + len bs) as Ec.
  { rewrite skip_skip, !skip_cur by (unfold in_u; lia). cbn. lia. }
  rewrite (count_bytes bs _ _ Ec).
  assert (at_bytes (put_cur (cur_offset_ (skip 1 d)) (skip (len bs) (skip 1 d))) bs) as Ha2 by (by apply (at_put_back (skip 1 d))).
  rewrite (obind_run _ _ _ _ _ (log_raw_run _ _ _ Ha2)). unfold bind, ret, set_cur_offset, modify. rewrite <- app_assoc.
  do 2 f_equal. rewrite !skip_skip, len_cons. unfold skip. by rewrite !put_cur_cur.
Qed.

Lemma log_ops_run n fin l lines d :
  Forall (instr_ok A) l -> at_bytes d (encode_all A l) -> fin = cur_offset_ d + len (encode_all A l) -> fin < 2 ^ 64 ->
  (length l < n)%nat ->
  log_ops A n fin lines d = Done (lines ++ expression_lines A l, put_cur fin d).
Proof.
  revert n lines d. induction l as [|i l IH]; intros n lines d Hok Ha -> Hf Hn; (destruct n as [|n]; [cbn in Hn; lia|]); cbn [log_ops];
    unfold bind at 1, cur_offset at 1, gets.
  - change (len (encode_all A [])) with 0. rewrite Z.add_0_r, Z.ltb_irrefl, put_cur_id. by rewrite app_nil_r.
  - apply Forall_cons in Hok as [Hi Hok]. unfold encode_all in *. cbn [map concat] in *. fold (encode_all A l) in *.
    apply (at_bytes_split bm) in Ha as [Hb Ha]. pose proof (len_encode A i). pose proof (len_nonneg (encode_all A l)).
    rewrite len_app in *. rewrite (proj2 (Z.ltb_lt _ _)) by lia. pose proof Hb as (_ & [? _] & _).
    unfold bind at 1. rewrite (log_op_run i d Hi Hb) by lia. rewrite skip_cur in * by (unfold in_u; lia).
    rewrite (IH n); [|done|done|cbn; lia|lia|cbn in Hn; lia]. rewrite put_cur_cur, <- app_assoc. done.
Qed.

(** ** The operands of an instruction *)

Fixpoint operands_text (cfa : Info) (l : list coperand) (i : nat) (pc : Z) : line * Z :=
  match l with
  | [] => ([], pc)
  | V v :: l =>
      let '(t, pc) := GetOperandString A (nth i (display_operands cfa) DWARF_DISPLAY_NONE) (u64 v) pc in
      let '(ts, pc) := operands_text cfa l (S i) pc in (t ++ ts, pc)
  | B blk :: l => let '(ts, pc) := operands_text cfa l (S i) pc in (num (len blk) ++ ts, pc)
  end.

Definition block_lines (l : list coperand) (ops : list instr) : list line :=
  concat (map (fun o => match o with V _ => [] | B _ => expression_lines A ops end) l).

Lemma log_cfa_operands_run fuel ops cfa l i t lines pc d :
  coperands_ok A cfa l i -> at_bytes d (encode_coperands A cfa l i) -> cur_offset_ d + len (encode_coperands A cfa l i) < 2 ^ 64 ->
  Forall (fun o => match o with V _ => True | B blk => blk = encode_all A ops /\ Forall (instr_ok A) ops end) l -> (length ops < fuel)%nat ->
  log_cfa_operands A fuel cfa (length l) i t lines pc d
  = Done (Some (t ++ (operands_text cfa l i pc).1, lines ++ block_lines l ops, (operands_text cfa l i pc).2),
          skip (len (encode_coperands A cfa l i)) d).
Proof.
  intros Hok Ha He Hl Hf. revert i t lines pc d Hok Ha He. induction Hl as [|o l Ho Hl IH]; intros i t lines pc d Hok Ha He.
  - destruct Ha as (_ & Hc & _). change (len (encode_coperands A cfa [] i)) with 0. rewrite skip_0 by done. cbn. by rewrite !app_nil_r.
  - destruct Hok as [Hv Hok]. cbn [encode_coperands] in *. rewrite len_app in He. pose proof Ha as (_ & [? _] & _).
    pose proof (len_nonneg (encode_coperands A cfa l (S i))).
    apply (at_bytes_split bm) in Ha as [Hb Ha]. cbn [log_cfa_operands length operands_text]. destruct o as [v|blk].
    + destruct Hv as [Hne Hv]. rewrite (proj2 (Z.eqb_neq _ _) Hne). cbn [encode_coperand] in *.
      rewrite (obind_run _ _ _ _ _ (ReadEncodedValue_run A bm _ _ _ Hv Hb)).
      destruct (GetOperandString A _ (u64 v) pc) as [tv pc1]. pose proof (len_nonneg (encode_operand A (info_operand cfa i) v)).
      rewrite IH; [|done|done|rewrite skip_cur by (unfold in_u; lia); cbn; lia].
      rewrite skip_skip, len_app. destruct (operands_text cfa l (S i) pc1) as [ts pc2]. cbn [fst snd]. by rewrite <- app_assoc.
    + destruct Hv as [Ee Hb64]. rewrite Ee, Z.eqb_refl. cbn [encode_coperand] in *. destruct Ho as [-> Hops]. set (blk := encode_all A ops) in *.
      rewrite len_app in He. pose proof (len_nonneg blk). pose proof (len_nonneg (uleb (len blk))).
      apply (at_bytes_split bm) in Hb as [Hu Hb].
      rewrite (obind_run _ _ _ _ _ (ReadULEB128_u bm _ _ Hb64 Hu)), (wrap_small 64 (len blk)) by done.
      rewrite len_app, <- (skip_skip (len blk)) in Ha. rewrite (skip_cur (len (uleb (len blk)))) in Hb, Ha |- * by (unfold in_u; lia).
      set (d1 := put_cur _ d) in *. assert (cur_offset_ d1 = cur_offset_ d + len (uleb (len blk))) as E1 by done.
      unfold bind at 1, cur_offset at 1, gets. cbv zeta.
      assert (u64 (len blk + cur_offset_ d1) = cur_offset_ d1 + len blk) as Ef.
      { rewrite wrap_small by (unfold in_u; lia). lia. }
      rewrite Ef. unfold bind at 1, GetLogInfo at 1. unfold bind at 1, set_cur_offset at 1, modify. rewrite put_cur_id.
      rewrite (log_ops_run fuel _ ops lines d1) by (done || lia). unfold bind at 1, set_cur_offset at 1, modify. rewrite put_cur_cur.
      rewrite skip_cur in Ha by (unfold in_u; lia).
      rewrite IH; [|done|done|cbn [cur_offset_ put_cur]; lia]. destruct (operands_text cfa l (S i) pc) as [ts pc2]. cbn [fst snd].
      unfold block_lines. cbn [map concat]. rewrite <- !app_assoc. do 2 f_equal.
      unfold skip. cbn [cur_offset_ put_cur d1]. subst d1. rewrite !put_cur_cur, !len_app, !Z.add_assoc. done.
Qed.

(** ** Lines *)

Lemma raw_line_ne g : bool_decide (raw_line g = []) = false.
Proof. done. Qed.

Lemma log_raw_lines_run indent bs g i s :
  at_bytes (lg_memory s) bs -> 0 <= i -> (length g <= 10)%nat -> i mod 10 = Z.of_nat (length g) mod 10 -> (i = 0 <-> g = []) ->
  log_raw_lines indent (length bs) i (raw_line g) s
  = Done (true, mkLog (skip (len bs) (lg_memory s)) (lg_lines s ++ map (log_line indent) (map raw_line (group g bs)))).
Proof.
  revert g i s. induction bs as [|b bs IH]; intros g i s Ha Hi0 Hg Hi H0; cbn [log_raw_lines length group].
  - rewrite raw_line_ne. unfold bind at 1. destruct Ha as (_ & Hc & _). change (len []) with 0. rewrite skip_0 by done. by destruct s.
  - destruct (at_cons _ _ _ Ha) as [Hr Ha']. rewrite (bind_lg_memory _ _ _ _ _ Hr). rewrite len_cons, <- skip_skip.
    assert ((i mod 10 =? 0) && negb (i =? 0) = (length g =? 10)%nat) as Et.
    { destruct (Nat.eqb_spec (length g) 10) as [E|E].
      - rewrite Hi, E. destruct (Z.eqb_spec i 0) as [->|]; [|done]. by rewrite (proj1 H0) in E.
      - destruct (Z.eqb_spec i 0) as [|Hne]; [apply andb_false_r|]. rewrite Hi, Z.mod_small by lia.
        destruct g; [by destruct Hne; apply H0|done]. }
    rewrite Et. destruct (Nat.eqb_spec (length g) 10) as [E|E].
    + unfold bind at 1. unfold bind at 1, log at 1, modify, ret. rewrite bool_decide_true by done. cbv iota.
      change (text "Raw Data:" ++ hex_byte (byte_val b)) with (raw_line [] ++ hex_byte (byte_val b)).
      replace (raw_line [] ++ hex_byte (byte_val b)) with (raw_line [b]) by (unfold raw_line, hex_bytes; cbn [map concat]; by rewrite !app_nil_r).
      rewrite IH; [|done|lia|cbn; lia| |split; [lia|done]].
      * cbn [lg_memory lg_lines put_lg_lines map]. by rewrite <- app_assoc.
      * rewrite Z.add_mod, Hi, E by lia. done.
    + unfold bind at 1, ret. rewrite raw_line_ne.
      replace (raw_line g ++ hex_byte (byte_val b)) with (raw_line (g ++ [b]))
        by (unfold raw_line, hex_bytes; rewrite map_app, concat_app; cbn [map concat]; by rewrite app_nil_r, app_assoc).
      rewrite IH; [done|done|lia|rewrite length_app; cbn; lia| |].
      * rewrite length_app, Nat2Z.inj_add, (Z.add_mod i), (Z.add_mod (Z.of_nat _)), Hi by lia. done.
      * split; [lia|by destruct g].
Qed.

Lemma log_all_run indent l s :
  log_all indent l s = Done (tt, mkLog (lg_memory s) (lg_lines s ++ map (log_line indent) l)).
Proof.
  revert s. induction l as [|t l IH]; intros s; cbn [log_all map]; [rewrite app_nil_r; by destruct s|].
  rewrite bind_log, IH. cbn [lg_memory lg_lines]. by rewrite <- app_assoc.
Qed.

(** ** One instruction *)

Lemma saddr_u64 v : saddr A (u64 v) = saddr A v.
Proof.
  unfold saddr, sgn. f_equal. change (wrap (bits A)) with (addr A). f_equal. rewrite addr_u64. done.
Qed.

Lemma extended_text cie i op l pc :
  extended i = Some (op, l) -> cfa_instr_ok A i ->
  info_name (cfa_info op) <> EmptyString /\
  text (info_name (cfa_info op)) ++ (operands_text (cfa_info op) l 0 pc).1 = instr_text A i /\
  (operands_text (cfa_info op) l 0 pc).2 = log_pc cie i pc.
Proof.
  intros He Hok. revert He. destruct i; intros [= <- <-]; cbn [cfa_instr_ok] in Hok.
  all: match goal with |- context [cfa_info ?op] => let x := eval vm_compute in (cfa_info op) in change (cfa_info op) with x end.
  all: cbn [operands_text info_name display_operands nth GetOperandString fst snd coperand_val].
  all: repeat match goal with H : _ /\ _ |- _ => destruct H end.
  all: rewrite ?saddr_u64, ?app_nil_r.
  all: repeat match goal with H : in_u ?w ?v |- context [u64 ?v] => rewrite (wrap_small 64 v) by (apply (in_u_mono w); [destruct A; cbn; lia|exact H]) end.
  all: try (split; [discriminate|split; reflexivity]).
  split; [discriminate|]. unfold print_address. by rewrite addr_small.
Qed.

Lemma block_ops ops i op l :
  disassembled A (i, ops) -> extended i = Some (op, l) ->
  Forall (fun o => match o with V _ => True | B blk => blk = encode_all A ops /\ Forall (instr_ok A) ops end) l /\
  block_lines l ops = expression_lines A ops.
Proof.
  intros [_ Hb]. cbn [fst snd] in Hb. unfold block_lines.
  destruct i; intros [= <- <-]; cbn [block_of] in Hb; cbn; rewrite ?app_nil_r;
    (split; [repeat (apply Forall_cons; split); try apply Forall_nil_2; done|]); try done; by rewrite Hb.
Qed.

Lemma LogInstruction_run fuel cie indent i ops op l pc d d0 lines :
  disassembled A (i, ops) -> extended i = Some (op, l) -> (length ops < fuel)%nat ->
  at_bytes d (encode_cfa A i) -> cur_offset_ d + len (encode_cfa A i) < 2 ^ 64 -> d0 = skip 1 d ->
  LogInstruction A fuel indent (cur_offset_ d) op pc (mkLog d0 lines)
  = Done (Some (log_pc cie i pc), mkLog (skip (len (encode_cfa A i)) d)
      (lines ++ map (log_line indent) (instr_text A i :: raw_lines A i) ++ map (log_line (indent + 1)) (expression_lines A ops))).
Proof.
  intros Hd He Hf Ha Hlt ->. pose proof (proj1 Hd) as Hi. cbn [fst] in Hi. destruct (extended_ok A i op l He Hi) as (Hop & Hn & Hok).
  destruct (extended_text cie i op l pc He Hi) as (Hname & Ht & Hpc). destruct (block_ops ops i op l Hd He) as [Hblk Hl].
  assert (encode_cfa A i = byte_of op :: encode_coperands A (cfa_info op) l 0) as Eb
    by (clear - He; revert He; by destruct i; intros [= <- <-]).
  assert (raw_lines A i = map raw_line (group [] (encode_cfa A i))) as -> by (unfold raw_lines; by rewrite He).
  rewrite Eb in Ha, Hlt |- *. set (bs := encode_coperands _ _ _ _) in *. rewrite len_cons in *.
  destruct (at_cons _ _ _ Ha) as [Hr Ha']. pose proof (len_nonneg bs). pose proof Ha as (_ & [? _] & _).
  unfold LogInstruction. rewrite bool_decide_false by done. rewrite <- Hn, Nat2Z.id.
  assert (cur_offset_ (skip 1 d) = cur_offset_ d + 1) as E1 by (rewrite skip_cur by (unfold in_u; lia); done).
  erewrite bind_lg_memory; [|apply (log_cfa_operands_run fuel ops); try done; fold bs; cbn [lg_memory]; rewrite E1; lia]. fold bs.
  rewrite Ht, Hpc, Hl, bind_log. cbn [lg_memory lg_lines app]. rewrite skip_skip.
  assert (skip (1 + len bs) d = put_cur (cur_offset_ d + (1 + len bs)) d) as Es by (by rewrite skip_cur by (unfold in_u; lia)).
  rewrite Es. erewrite bind_lg_memory; [|reflexivity]. erewrite bind_lg_memory; [|reflexivity]. cbn [lg_memory lg_lines cur_offset_ put_cur].
  rewrite (wrap_small 64 (cur_offset_ d + (1 + len bs) - cur_offset_ d)) by (unfold in_u; lia).
  assert (Z.to_nat (cur_offset_ d + (1 + len bs) - cur_offset_ d) = length (byte_of op :: bs)) as -> by (unfold len; cbn [length]; lia).
  change (text "Raw Data:") with (raw_line []).
  unfold bind at 1. rewrite (log_raw_lines_run indent (byte_of op :: bs) [] 0); [|by apply (at_put_back d)|lia|cbn; lia|done|done].
  unfold bind at 1. rewrite log_all_run. cbn [lg_memory lg_lines map]. unfold ret. rewrite len_cons, <- !app_assoc.
  do 2 f_equal. f_equal. unfold skip. cbn [cur_offset_ put_cur]. rewrite !put_cur_cur. by rewrite wrap_small by (unfold in_u; lia).
Qed.

(** The short forms *)
Lemma log_switch_byte h l fuel cie indent off pc s :
  0 <= l < 64 -> 0 <= h < 4 ->
  log_switch A fuel cie indent off (64 * h + l) pc s
  = (if h =? 0 then LogInstruction A fuel indent off l pc
     else if h =? 1 then
       log indent (text "DW_CFA_advance_loc " ++ print_d l) ;; log indent (raw_line [byte_of (64 * h + l)]) ;;
       ret (Some (u64 (pc + u64 (l * code_alignment_factor cie))))
     else if h =? 2 then
       ok <- LogOffsetRegisterString indent off l ;; ret (if (ok : bool) then Some pc else None)
     else
       log indent (text "DW_CFA_restore register(" ++ print_d l ++ text ")") ;; log indent (raw_line [byte_of (64 * h + l)]) ;;
       ret (Some pc)) s.
Proof.
  intros Hl Hh. unfold log_switch. destruct (byte_high_low h l Hl Hh) as [-> ->].
  assert (raw_line [byte_of (64 * h + l)] = text "Raw Data:" ++ hex_byte (64 * h + l)) as ->; [|done].
  unfold raw_line, hex_bytes. cbn [map concat]. by rewrite app_nil_r, byte_val_of, Z.mod_small by lia.
Qed.

Lemma LogOffset_run indent r o d lines :
  0 <= r < 64 -> in_u 64 o -> at_bytes d (encode_cfa A (Offset r o)) -> cur_offset_ d + len (encode_cfa A (Offset r o)) < 2 ^ 64 ->
  LogOffsetRegisterString indent (cur_offset_ d) r (mkLog (skip 1 d) lines)
  = Done (true, mkLog (skip (len (encode_cfa A (Offset r o))) d)
      (lines ++ map (log_line indent) (instr_text A (Offset r o) :: raw_lines A (Offset r o)))).
Proof.
  intros Hr Ho Ha Hlt. unfold raw_lines. cbn [encode_cfa extended] in *. rewrite len_cons in *. pose proof Ha as (_ & [? _] & _).
  destruct (at_cons _ _ _ Ha) as [Hb Ha']. unfold LogOffsetRegisterString. pose proof (len_nonneg (uleb o)).
  erewrite bind_lg_memory; [|exact (ReadULEB128_u bm _ _ Ho Ha')]. rewrite (wrap_small 64 o) by done. rewrite skip_skip.
  assert (skip (1 + len (uleb o)) d = put_cur (cur_offset_ d + (1 + len (uleb o))) d) as Es by (by rewrite skip_cur by (unfold in_u; lia)).
  rewrite Es. erewrite bind_lg_memory; [|reflexivity]. erewrite bind_lg_memory; [|reflexivity]. cbn [lg_memory lg_lines cur_offset_ put_cur].
  assert (Z.to_nat (cur_offset_ d + (1 + len (uleb o)) - cur_offset_ d) = length (byte_of (128 + r) :: uleb o)) as -> by (unfold len; cbn [length]; lia).
  erewrite bind_lg_memory; [|apply (log_raw_run (byte_of (128 + r) :: uleb o)); cbn [lg_memory]; by apply (at_put_back d)].
  cbv iota. rewrite !bind_log. cbn [lg_memory lg_lines map instr_text]. unfold ret. rewrite <- app_assoc, len_cons.
  do 2 f_equal. f_equal. unfold skip. cbn [cur_offset_ put_cur]. rewrite !put_cur_cur. by rewrite wrap_small by (unfold in_u; lia).
Qed.

Lemma log_switch_run fuel cie indent x pc d lines :
  disassembled A x -> (length x.2 < fuel)%nat -> at_bytes d (encode_cfa A x.1) -> cur_offset_ d + len (encode_cfa A x.1) < 2 ^ 64 ->
  exists v, ReadUnsigned 1 d = Done (Some v, skip 1 d) /\
    log_switch A fuel cie indent (cur_offset_ d) v pc (mkLog (skip 1 d) lines)
    = Done (Some (log_pc cie x.1 pc), mkLog (skip (len (encode_cfa A x.1)) d)
        (lines ++ map (log_line indent) (instr_text A x.1 :: raw_lines A x.1) ++ map (log_line (indent + 1)) (expression_lines A x.2))).
Proof.
  destruct x as [i ops]. cbn [fst snd]. intros Hd Hf Ha Hlt. pose proof (proj1 Hd) as Hi. cbn [fst] in Hi.
  assert (forall h l, 0 <= l < 64 -> 0 <= h < 4 -> byte_val (byte_of (64 * h + l)) = 64 * h + l) as Hbv
    by (intros h l ? ?; by rewrite byte_val_of, Z.mod_small by lia).
  destruct (extended i) as [[op l]|] eqn:He.
  - destruct (extended_ok A i op l He Hi) as (Hop & _).
    assert (encode_cfa A i = byte_of op :: encode_coperands A (cfa_info op) l 0) as Eb
      by (clear - He; revert He; by destruct i; intros [= <- <-]).
    pose proof Ha as Ha1. rewrite Eb in Ha1. destruct (at_cons _ _ _ Ha1) as [Hr _]. exists op.
    split; [by rewrite Hr, byte_val_of, Z.mod_small by lia|].
    change op with (64 * 0 + op) at 1. rewrite log_switch_byte by lia. change (0 =? 0) with true. cbv iota.
    by apply (LogInstruction_run fuel cie indent i ops op l).
  - assert (ops = []) as -> by (destruct Hd as [_ Hb]; by destruct i).
    assert (expression_lines A [] = []) as -> by done. cbn [map]. rewrite app_nil_r.
    destruct i; try discriminate He; cbn [cfa_instr_ok] in Hi.
    + cbn [encode_cfa] in Ha. change (64 + d0) with (64 * 1 + d0) in *. destruct (at_cons _ _ _ Ha) as [Hr _]. rewrite Hbv in Hr by lia.
      eexists. split; [exact Hr|]. rewrite log_switch_byte by lia. change (1 =? 0) with false. change (1 =? 1) with true. cbv iota.
      rewrite !bind_log. cbn [lg_memory lg_lines map]. unfold ret. by rewrite <- app_assoc.
    + destruct Hi as [Hr Ho]. pose proof Ha as Ha1. cbn [encode_cfa] in Ha1. change (128 + r) with (64 * 2 + r) in Ha1.
      destruct (at_cons _ _ _ Ha1) as [Hb _]. rewrite Hbv in Hb by lia.
      eexists. split; [exact Hb|]. rewrite log_switch_byte by lia. change (2 =? 0) with false. change (2 =? 1) with false. change (2 =? 2) with true. cbv iota.
      unfold bind. by rewrite (LogOffset_run indent r o d lines Hr Ho Ha Hlt).
    + cbn [encode_cfa] in Ha. change (192 + r) with (64 * 3 + r) in *. destruct (at_cons _ _ _ Ha) as [Hr _]. rewrite Hbv in Hr by lia.
      eexists. split; [exact Hr|]. rewrite log_switch_byte by lia.
      change (3 =? 0) with false. change (3 =? 1) with false. change (3 =? 2) with false. cbv iota.
      rewrite !bind_log. cbn [lg_memory lg_lines map]. unfold ret. by rewrite <- app_assoc.
Qed.

(** ** The loop *)

Lemma len_encode_cfa_pos i : 0 < len (encode_cfa A i).
Proof. destruct i; cbn [encode_cfa extended]; rewrite len_cons; match goal with |- 0 < 1 + len ?x => pose proof (len_nonneg x) end; lia. Qed.

Lemma log_loop_run n fuel cie indent limit fin l pc d lines :
  Forall (fun x => disassembled A x /\ (length x.2 < fuel)%nat) l -> at_bytes d (encode_cfas A l.*1) ->
  fin = cur_offset_ d + len (encode_cfas A l.*1) -> fin < 2 ^ 64 -> (length l < n)%nat ->
  exists x, log_loop A n fuel cie indent limit fin pc (mkLog d lines)
    = Done (true, mkLog (put_cur x d) (lines ++ listing A cie indent limit pc l)).
Proof.
  revert n pc d lines. induction l as [|[i ops] l IH]; intros n pc d lines Hl Ha -> Hf Hn; (destruct n as [|n]; [cbn in Hn; lia|]);
    cbn [log_loop listing]; (erewrite bind_lg_memory; [|reflexivity]).
  - change (encode_cfas A ([] : list (cfa_instr * list instr)).*1) with (@nil byte). change (len []) with 0.
    rewrite Z.add_0_r, Z.ltb_irrefl. exists (cur_offset_ d). rewrite put_cur_id, app_nil_r. done.
  - apply Forall_cons in Hl as [[Hd Hops] Hl]. unfold encode_cfas in *. cbn [fmap list_fmap map concat fst] in *. fold (encode_cfas A l.*1) in *.
    apply (at_bytes_split bm) in Ha as [Hb Ha]. pose proof (len_encode_cfa_pos i). pose proof (len_nonneg (encode_cfas A l.*1)).
    rewrite len_app in *. pose proof Hb as (_ & [? _] & _). cbn [lg_memory]. rewrite (proj2 (Z.ltb_lt _ _)) by lia. cbn [andb].
    rewrite Z.leb_antisym. destruct (Z.ltb_spec limit pc) as [|Hle]; cbn [negb].
    { exists (cur_offset_ d). rewrite put_cur_id, app_nil_r. done. }
    destruct (log_switch_run fuel cie indent (i, ops) pc d lines Hd Hops Hb ltac:(cbn [fst]; lia)) as (v & Hr & Hs).
    erewrite bind_lg_memory; [|exact Hr]. cbv iota. unfold bind at 1. cbn [lg_lines]. rewrite Hs. cbn [fst snd].
    rewrite skip_cur in * by (unfold in_u; lia). set (pc' := log_pc cie i pc). set (ls := lines ++ _).
    match goal with |- exists x, bind ?m ?k ?st = _ =>
      assert (m st = Done (tt, mkLog (lg_memory st) (lg_lines st ++
        (if negb (pc' =? pc) then [log_line 0 []; log_line indent (text "PC 0x" ++ print_x pc')] else [])))) as Hm end.
    { destruct (negb _); [rewrite bind_log; unfold log, modify; cbn [lg_memory lg_lines put_lg_lines]; by rewrite <- app_assoc|].
      unfold ret. cbn [lg_memory lg_lines]. by rewrite app_nil_r. }
    unfold bind at 1. rewrite Hm. cbn [lg_memory lg_lines].
    destruct (IH n pc' (put_cur (cur_offset_ d + len (encode_cfa A i)) d)
      (ls ++ (if negb (pc' =? pc) then [log_line 0 []; log_line indent (text "PC 0x" ++ print_x pc')] else [])))
      as (x & Hx); [done|done|cbn; lia|lia|cbn in Hn; lia|].
    exists x. rewrite Hx, put_cur_cur. subst ls. by rewrite <- !app_assoc.
Qed.

Lemma Log_run fuel fde cie indent limit start fin l d lines :
  Forall (fun x => disassembled A x /\ (length x.2 < fuel)%nat) l -> at_bytes (put_cur start d) (encode_cfas A l.*1) ->
  fin = start + len (encode_cfas A l.*1) -> fin < 2 ^ 64 -> (length l < fuel)%nat ->
  exists x, Log A fuel fde cie indent limit start fin (mkLog d lines)
    = Done (true, mkLog (put_cur x d) (lines ++ listing A cie indent limit (pc_start fde) l)).
Proof.
  intros Hl Ha -> Hf Hn. unfold Log. erewrite bind_lg_memory; [|reflexivity]. cbn [lg_memory lg_lines].
  destruct (log_loop_run fuel fuel cie indent limit (start + len (encode_cfas A l.*1)) l (pc_start fde) (put_cur start d) lines)
    as (x & Hx); try done.
  exists x. by rewrite Hx, put_cur_cur.
Qed.

Lemma on_section_memory_run {B} (m : LG B) (p : DwarfSection * list line) b d ls :
  m (mkLog (sec_memory p.1) p.2) = Done (b, mkLog d ls) -> on_section_memory m p = Done (b, (put_sec_memory d p.1, ls)).
Proof. intros Hm. unfold on_section_memory, zoom. by rewrite Hm. Qed.
End Run.

(** ** The addresses *)

(** With a code alignment factor of 1 the listing counts the addresses of the rows of the unwind table. *)
Lemma log_pc_astep cie cie_row off i st st' :
  code_alignment_factor cie = 1 -> cfa_instr_ok U64 i -> astep U64 cie cie_row off i st = Some st' ->
  log_pc cie i (c_pc st) = c_pc st'.
Proof.
  intros Hf Hok Hs. unfold cfa_rule, restore_rule, factored in Hs.
  destruct i; cbn [astep log_pc cfa_instr_ok] in *; unfold restore_rule, cfa_rule, factored in Hs;
    repeat case_match; simplify_option_eq; try done; cbn [advance c_pc rule no_rule]; rewrite ?Hf, ?Z.mul_1_r, ?wrap_add_r by lia;
    try done; repeat case_match; done.
Qed.

(** * Property *)

(** C9. The listing of an FDE says what its code says: over a section that holds the encoded instructions of
    the FDE and of its CIE, [Log] returns true, and its lines are the listings of the two: for each
    instruction its name and its operands, then its bytes, and the operations of its expression with
    theirs, indented; after an instruction that moves the address an empty line and the new address; and
    a listing ends behind the row of the pc that it was asked for. *)
Theorem fde_log_listing A bm garbage fuel indent pc fde c cie lc lf s lines
  (Hptr : fde_cie fde = Some c) (Hcie : cie_entries_ s !! c = Some cie)
  (Hcode_c : at_bytes bm (put_cur (cie_cfa_instructions_offset cie) (sec_memory s)) (encode_cfas A lc.*1))
  (Hend_c : cie_cfa_instructions_end cie = cie_cfa_instructions_offset cie + len (encode_cfas A lc.*1) /\ cie_cfa_instructions_end cie < 2 ^ 64)
  (Hcode_f : at_bytes bm (put_cur (cfa_instructions_offset fde) (sec_memory s)) (encode_cfas A lf.*1))
  (Hend_f : cfa_instructions_end fde = cfa_instructions_offset fde + len (encode_cfas A lf.*1) /\ cfa_instructions_end fde < 2 ^ 64)
  (Hl : Forall (fun x => disassembled A x /\ (length x.2 < fuel)%nat) (lc ++ lf))
  (Hfuel : (length lc < fuel /\ length lf < fuel)%nat) :
  exists x, section_Log A garbage fuel indent pc fde (s, lines)
    = Done (true, (put_sec_memory (put_cur x (sec_memory s)) s,
        lines ++ listing A cie indent pc (pc_start fde) lc ++ listing A cie indent pc (pc_start fde) lf)).
Proof.
  apply Forall_app in Hl as [Hlc Hlf]. destruct Hend_c as [Ec Hec], Hend_f as [Ef Hef], Hfuel as [Hfc Hff].
  unfold section_Log. cbv zeta. rewrite Hptr. unfold bind at 1, some_or at 1, ret at 1. unfold bind at 1.
  assert (zoom fst (fun s p => (s, p.2)) (deref_cie c) (s, lines) = Done (cie, (s, lines))) as ->.
  { unfold zoom, deref_cie, bind, get. cbn [fst snd]. by rewrite Hcie. }
  destruct (Log_run A bm fuel fde cie indent pc _ (cie_cfa_instructions_end cie) lc (sec_memory s) lines Hlc Hcode_c Ec Hec Hfc) as (x & Hx).
  unfold bind at 1. rewrite (on_section_memory_run _ (s, lines) _ _ _ Hx). cbn [negb fst snd].
  destruct (Log_run A bm fuel fde cie indent pc _ (cfa_instructions_end fde) lf (put_cur x (sec_memory s))
    (lines ++ listing A cie indent pc (pc_start fde) lc) Hlf Hcode_f Ef Hef Hff) as (y & Hy).
  unfold bind at 1. rewrite (on_section_memory_run _ (put_sec_memory (put_cur x (sec_memory s)) s, _) _ _ _ Hy). cbn [negb fst snd].
  exists y. unfold ret. by rewrite put_cur_cur, <- app_assoc.
Qed.

(** * Witness *)

(** A function with a code alignment factor of 4, of which the CFA is an expression. *)
Definition log_ops_demo : list instr := [(0x77, [8]); (0x06, [])].
Definition log_cie_code : list (cfa_instr * list instr) := [(DefCfa 7 8, []); (Offset 16 1, [])].
Definition log_fde_code : list (cfa_instr * list instr) :=
  [(Advance 1, []); (DefCfaExpression (encode_all U64 log_ops_demo), log_ops_demo); (AdvanceLoc1 3, []); (RememberState, [])].
Definition log_bytes : list byte := encode_cfas U64 log_cie_code.*1 ++ encode_cfas U64 log_fde_code.*1.
Definition log_split : Z := len (encode_cfas U64 log_cie_code.*1).
Definition log_cie : DwarfCie := put_factors 4 (-8) 16 (put_instructions_offset 0 (with_header 0 log_split new_cie)).
Definition log_fde : DwarfFde := mkFde 0 log_split (len log_bytes) 0x1000 0x1100 0 (Some 0).
Definition log_section : DwarfSection :=
  put_cie_entries {[0 := log_cie]} (new_section (MemoryBuffer.memory (MemoryBuffer.mk log_bytes))).

Example log_demo :
  match section_Log U64 no_error 9 1 0x10ff log_fde (log_section, []) with
  | Done (true, (_, l)) => map string_of_list_byte l =
      [ "  DW_CFA_def_cfa register(7) 8"; "  Raw Data: 0x0c 0x07 0x08"; "  DW_CFA_offset register(16) 1"; "  Raw Data: 0x90 0x01";
        "  DW_CFA_advance_loc 1"; "  Raw Data: 0x41"; ""; "  PC 0x1004";
        "  DW_CFA_def_cfa_expression 3"; "  Raw Data: 0x0f 0x03 0x77 0x08 0x06";
        "    DW_OP_breg7 8"; "    Raw Data: 0x77 0x08"; "    DW_OP_deref"; "    Raw Data: 0x06";
        "  DW_CFA_advance_loc1 3"; "  Raw Data: 0x02 0x03"; ""; "  PC 0x1007"; "  DW_CFA_remember_state"; "  Raw Data: 0x0a" ]%string
  | _ => False
  end.
Proof. vm_compute. reflexivity. Qed.

(** The last row of this function starts at 0x1010: the listing does not scale the longer forms of an advance. *)
Example log_pc_unscaled :
  fst <$> last (default [] (rows U64 log_cie (Some ∅) log_split (mkC 0x1000 ∅ []) log_fde_code.*1)) = Some 0x1010 /\
  log_pc log_cie (AdvanceLoc1 3) 0x1004 = 0x1007.
Proof. vm_compute. by split. Qed.

Lemma fde_log_listing_witness :
  exists x, section_Log U64 no_error 9 1 0x10ff log_fde (log_section, [])
    = Done (true, (put_sec_memory (put_cur x (sec_memory log_section)) log_section,
        [] ++ listing U64 log_cie 1 0x10ff 0x1000 log_cie_code ++ listing U64 log_cie 1 0x10ff 0x1000 log_fde_code)).
Proof.
  assert (ByteMemory (memory_ (sec_memory log_section)) (buffer_bytes log_bytes)) as Hm.
  { apply (MemoryBuffer_bytes (MemoryBuffer.mk log_bytes)). vm_compute. discriminate. }
  apply (fde_log_listing U64 (buffer_bytes log_bytes) no_error 9 1 0x10ff log_fde 0 log_cie log_cie_code log_fde_code log_section []).
  - reflexivity.
  - reflexivity.
  - split; [exact Hm|]. split; [by vm_compute|]. vm_compute. reflexivity.
  - split; vm_compute; reflexivity.
  - split; [exact Hm|]. split; [by vm_compute|]. vm_compute. reflexivity.
  - split; vm_compute; reflexivity.
  - assert (Forall (instr_ok U64) log_ops_demo) as Hops.
    { repeat (apply Forall_cons; split); [..|apply Forall_nil_2]; vm_compute; repeat split; discriminate || reflexivity. }
    repeat (apply Forall_cons; split); [..|apply Forall_nil_2]; (split; [|simpl; lia]); (split; [|try reflexivity; by split]);
      vm_compute; repeat split; discriminate || reflexivity.
  - split; simpl; lia.
Defined.
