(* ===== verification/LocalUnwinder.v ===== *)
(** [LocalUnwinder.cpp]: the quick unwinder of the own process.

    The maps file of the process is read again whenever no map contains a pc; [maps_file] gives its
    entries, and whether it could be read to its end, for each time that it is read. *)
From Stdlib Require Import ZArith Lia Bool Strings.Byte Strings.String.
From stdpp Require Import base numbers list gmap.
From S2P Require Import Prelude Memory Regs ElfTypes ElfInterface RegsArch Maps Elf MapInfo Unwinder UnwinderLoop.
#[local] Open Scope Z_scope.

(** * State *)

(** [lf_map_info] is a pointer, the key of the map. *)
Record LocalFrameData := mkLocalFrame {
  lf_map_info : Z;
  lf_pc : Z;
  lf_rel_pc : Z;
  lf_function_name : list byte;
  lf_function_offset : Z
}.

(** [maps_set] tells whether [maps_] is not null; [times_read] counts the reads of the maps file.
    [l_regs] and [frame_info] are the registers and the frames of a call of [Unwind]. *)
Record LocalUnwinder := mkLocal {
  maps_set : bool;
  l_world : World;
  l_memory : option Memory;
  skip_libraries_ : list (list byte);
  times_read : nat;
  l_regs : Regs;
  frame_info : list LocalFrameData
}.

Definition put_l_world (w : World) (u : LocalUnwinder) : LocalUnwinder :=
  mkLocal (maps_set u) w (l_memory u) (skip_libraries_ u) (times_read u) (l_regs u) (frame_info u).
Definition put_maps_set (b : bool) (u : LocalUnwinder) : LocalUnwinder :=
  mkLocal b (l_world u) (l_memory u) (skip_libraries_ u) (times_read u) (l_regs u) (frame_info u).
Definition put_l_memory (m : Memory) (u : LocalUnwinder) : LocalUnwinder :=
  mkLocal (maps_set u) (l_world u) (Some m) (skip_libraries_ u) (times_read u) (l_regs u) (frame_info u).
Definition put_times_read (n : nat) (u : LocalUnwinder) : LocalUnwinder :=
  mkLocal (maps_set u) (l_world u) (l_memory u) (skip_libraries_ u) n (l_regs u) (frame_info u).
Definition put_l_regs (r : Regs) (u : LocalUnwinder) : LocalUnwinder :=
  mkLocal (maps_set u) (l_world u) (l_memory u) (skip_libraries_ u) (times_read u) r (frame_info u).
Definition put_frame_info (l : list LocalFrameData) (u : LocalUnwinder) : LocalUnwinder :=
  mkLocal (maps_set u) (l_world u) (l_memory u) (skip_libraries_ u) (times_read u) (l_regs u) l.

Abbreviation ML := (M LocalUnwinder).

Definition in_l_world {A} (m : MW A) : ML A := zoom l_world put_l_world m.

Section Local.
Context (os : system) (P : params) (sort : gmap Z MapInfo -> list (option Z) -> list (option Z)).
Context (maps_file : nat -> list map_entry * bool) (arch : ArchEnum).

(** The entries that the next read of the maps file gives *)
Definition read_maps_file : ML (list map_entry * bool) :=
  u <- get ;; modify (put_times_read (S (times_read u))) ;; ret (maps_file (times_read u)).

(** [process_memory] is what [CreateProcessMemory] returns. *)
Definition Init (process_memory : Memory) : ML bool :=
  file <- read_maps_file ;;
  modify (put_maps_set true) ;;
  ok <- in_l_world (on_maps (modify (fun _ => new_Maps) ;; Parse (fst file) (snd file))) ;;
  if negb ok then modify (put_maps_set false) ;; ret false
  else modify (put_l_memory process_memory) ;; ret true.

Definition ShouldSkipLibrary (map_name : list byte) (u : LocalUnwinder) : bool := existsb (fun skip => bool_decide (skip = map_name)) (skip_libraries_ u).

(** A method of [maps_], which may be null *)
Definition on_l_maps {A} (m : MS A) : ML A :=
  u <- get ;; if maps_set u then in_l_world (on_maps m) else fail (Undef UbNull).

Definition GetMapInfo (pc : Z) : ML (option Z) :=
  found <- on_l_maps (Find pc) ;;
  match found with
  | Some k => ret (Some k)
  | None =>
      file <- read_maps_file ;;
      ok <- on_l_maps (Reparse sort (fst file) (snd file)) ;;
      if (ok : bool) then on_l_maps (Find pc) else ret None
  end.

Definition local_pc : ML Z := u <- get ;; read_reg (pc_reg (l_regs u)) (l_regs u).
Definition local_sp : ML Z := u <- get ;; read_reg (sp_reg (l_regs u)) (l_regs u).

(** The step out of a frame: whether it is the last one. *)
Definition local_step (e rel_pc step_pc : Z) : ML bool :=
  u <- get ;;
  let memory := memory_or_empty (l_memory u) in
  r <- in_l_world (on_elf e (elf_StepIfSignalHandler arch rel_pc (l_regs u) memory)) ;;
  let '(signal, regs) := r in
  modify (put_l_regs regs) ;;
  if (signal : bool) then ret false
  else
    r <- in_l_world (on_elf e (Elf.Step P step_pc regs memory false)) ;;
    let '(ok, regs, finished) := r in
    modify (put_l_regs regs) ;;
    ret (if (ok : bool) then finished else true).

(** The frame is added unless it is in a library to skip and no frame was added before it. *)
Definition add_local_frame (k e pc rel_pc pc_adjustment num_frames : Z) : ML Z :=
  u <- get ;;
  info <- in_l_world (map_info k) ;;
  if negb (num_frames =? 0) || negb (ShouldSkipLibrary (map_name info) u) then
    r <- in_l_world (on_elf e (Elf.GetFunctionName P rel_pc)) ;;
    let '(name, offset) := match r with Some r => r | None => ([], 0) end in
    modify (fun u => put_frame_info (frame_info u ++ [mkLocalFrame k (u64 (pc - pc_adjustment)) (u64 (rel_pc - pc_adjustment)) name offset]) u) ;;
    ret (num_frames + 1)
  else ret num_frames.

(** The body of the loop: [num_frames], and whether the loop goes on. *)
Definition local_iteration (max_frames num_frames : Z) (adjust_pc : bool) : ML (Z * bool) :=
  cur_pc <- local_pc ;;
  cur_sp <- local_sp ;;
  found <- GetMapInfo cur_pc ;;
  match found with
  | None => ret (num_frames, false)
  | Some k =>
      u <- get ;;
      e <- in_l_world (GetElf os P k (l_memory u) arch) ;;
      info <- in_l_world (map_info k) ;;
      obj <- in_l_world (on_elf e get) ;;
      let rel_pc := GetRelPc cur_pc (map_start info) (elf_offset info) obj in
      let pc_adjustment := if adjust_pc then RegsArch.GetPcAdjustment arch (valid_ obj) (load_bias_ obj) (memory_or_empty (elf_memory obj)) rel_pc else 0 in
      finished <- local_step e rel_pc (u64 (rel_pc - pc_adjustment)) ;;
      num_frames <- add_local_frame k e cur_pc rel_pc pc_adjustment num_frames ;;
      u <- get ;;
      if finished || (Z.of_nat (length (frame_info u)) =? max_frames) then ret (num_frames, false)
      else
        pc <- local_pc ;;
        sp <- local_sp ;;
        ret (num_frames, negb ((cur_pc =? pc) && (cur_sp =? sp)))
  end.

Fixpoint local_loop (fuel : nat) (max_frames num_frames : Z) (adjust_pc : bool) : ML Z :=
  match fuel with
  | O => fail OutOfFuel
  | S fuel' =>
      r <- local_iteration max_frames num_frames adjust_pc ;;
      let '(num_frames, continue) := r in
      if (continue : bool) then local_loop fuel' max_frames num_frames true else ret num_frames
  end.

(** [regs] are those that [RegsGetLocal] finds. *)
Definition local_Unwind (fuel : nat) (regs : Regs) (max_frames : Z) : ML bool :=
  modify (put_l_regs regs) ;;
  num_frames <- local_loop fuel max_frames 0 false ;;
  ret (negb (num_frames =? 0)).
End Local.

(** * The loop ends *)

Section Ends.
Context (os : system) (P : params) (sort : gmap Z MapInfo -> list (option Z) -> list (option Z)).
Context (maps_file : nat -> list map_entry * bool) (arch : ArchEnum).

(** Nothing but the registers, the world and the count of reads changes. *)
Definition same_frames (u u' : LocalUnwinder) : Prop := frame_info u' = frame_info u /\ skip_libraries_ u' = skip_libraries_ u.

Lemma wp_in_l_world {A} (m : MW A) (Q : A -> LocalUnwinder -> Prop) u :
  (forall r w, Q r (put_l_world w u)) -> wp any_fault (in_l_world m) Q u.
Proof. intros HQ. unfold in_l_world, wp, zoom. destruct (m (l_world u)) as [[r w]|e]; [apply HQ|done]. Qed.

Lemma wp_on_l_maps {A} (m : MS A) (Q : A -> LocalUnwinder -> Prop) u :
  (forall r w, Q r (put_l_world w u)) -> wp any_fault (on_l_maps m) Q u.
Proof. intros HQ. unfold on_l_maps. wp_simpl. destruct (maps_set u); [by apply wp_in_l_world|done]. Qed.

Lemma wp_local_pc (Q : Z -> LocalUnwinder -> Prop) u :
  (forall v, reg_at (pc_reg (l_regs u)) (l_regs u) = Some v -> Q v u) -> wp any_fault local_pc Q u.
Proof. intros HQ. unfold local_pc, read_reg. wp_simpl. destruct (reg_at _ _) eqn:E; [by apply HQ|done]. Qed.

Lemma wp_local_sp (Q : Z -> LocalUnwinder -> Prop) u :
  (forall v, Q v u) -> wp any_fault local_sp Q u.
Proof. intros HQ. unfold local_sp, read_reg. wp_simpl. destruct (reg_at _ _) eqn:E; [by apply HQ|done]. Qed.

Lemma GetMapInfo_spec pc u : wp any_fault (GetMapInfo sort maps_file pc) (fun _ u' => same_frames u u' /\ l_regs u' = l_regs u) u.
Proof.
  unfold GetMapInfo, read_maps_file. wp_simpl. apply wp_on_l_maps. intros [k|] w; wp_simpl; [done|].
  apply wp_on_l_maps. intros [|] w'; wp_simpl; [|done]. by apply wp_on_l_maps.
Qed.

Lemma local_step_spec e rel_pc step_pc u : wp any_fault (local_step P arch e rel_pc step_pc) (fun _ u' => same_frames u u') u.
Proof.
  unfold local_step. wp_simpl. apply wp_in_l_world. intros [signal regs] w. wp_simpl. destruct signal; wp_simpl; [done|].
  apply wp_in_l_world. intros [[ok regs'] fin] w'. by wp_simpl.
Qed.

Lemma add_local_frame_spec k e pc rel_pc adj n u :
  skip_libraries_ u = [] ->
  wp any_fault (add_local_frame P k e pc rel_pc adj n)
    (fun n' u' => n' = n + 1 /\ skip_libraries_ u' = [] /\ exists f, frame_info u' = frame_info u ++ [f] /\ lf_pc f = u64 (pc - adj)) u.
Proof.
  intros Hs. unfold add_local_frame, ShouldSkipLibrary. wp_simpl. apply wp_in_l_world. intros info w. rewrite Hs. cbn [existsb negb].
  rewrite orb_true_r. wp_simpl. apply wp_in_l_world. intros r w'. destruct (match r with Some r => r | None => ([], 0) end) as [name offset].
  wp_simpl. split; [done|]. split; [done|]. by eexists.
Qed.

Definition local_post (max n : Z) (adjust : bool) u (r : Z * bool) u' : Prop :=
  skip_libraries_ u' = [] /\
  ((r = (n, false) /\ frame_info u' = frame_info u) \/
   (fst r = n + 1 /\ (exists f pc, frame_info u' = frame_info u ++ [f] /\ reg_at (pc_reg (l_regs u)) (l_regs u) = Some pc /\
      (adjust = false -> lf_pc f = u64 pc)) /\
    (snd r = true -> Z.of_nat (length (frame_info u')) <> max))).

Lemma local_iteration_spec max n adjust u :
  skip_libraries_ u = [] ->
  wp any_fault (local_iteration os P sort maps_file arch max n adjust) (local_post max n adjust u) u.
Proof.
  intros Hs. unfold local_iteration. wp_simpl. apply wp_local_pc. intros pc Hpc. wp_simpl. apply wp_local_sp. intros sp. wp_simpl.
  eapply wp_mono; [apply GetMapInfo_spec|done|]. cbn beta. intros [k|] u1 [[Hf1 Hs1] Hr1]; wp_simpl.
  2:{ split; [by rewrite Hs1|]. by left. }
  apply wp_in_l_world. intros e w. wp_simpl. apply wp_in_l_world. intros info w2. wp_simpl. apply wp_in_l_world. intros obj w3. cbv zeta. wp_simpl.
  eapply wp_mono; [apply local_step_spec|done|]. cbn beta. intros fin u2 [Hf2 Hs2]. wp_simpl.
  eapply wp_mono; [apply add_local_frame_spec|done|]; [by rewrite Hs2; cbn; rewrite Hs1|].
  cbn beta. intros n' u3 (-> & Hs3 & f & Hf3 & Hlf). wp_simpl. cbn in Hf2. rewrite Hf2, Hf1 in Hf3.
  assert (forall b, (b = true -> Z.of_nat (length (frame_info u3)) <> max) -> local_post max n adjust u (n + 1, b) u3) as Hend.
  { intros b Hb. split; [done|]. right. split; [done|]. split; [|done]. exists f, pc. split_and!; [done|done|]. intros ->. by rewrite Hlf, Z.sub_0_r. }
  destruct fin; cbn [orb]; wp_simpl; [by apply Hend|].
  destruct (Z.eqb_spec (Z.of_nat (length (frame_info u3))) max); wp_simpl; [by apply Hend|].
  apply wp_local_pc. intros pc' _. wp_simpl. apply wp_local_sp. intros sp'. wp_simpl. by apply Hend.
Qed.

(** [m] iterations, from the variables of the loop to its result *)
Inductive local_runs (max : Z) : nat -> Z -> bool -> LocalUnwinder -> outcome (Z * LocalUnwinder) -> Prop :=
| local_fault n adjust u e :
    local_iteration os P sort maps_file arch max n adjust u = Fault e -> local_runs max 1 n adjust u (Fault e)
| local_break n adjust u n' u' :
    local_iteration os P sort maps_file arch max n adjust u = Done ((n', false), u') -> local_runs max 1 n adjust u (Done (n', u'))
| local_next n adjust u n' u' m r :
    local_iteration os P sort maps_file arch max n adjust u = Done ((n', true), u') -> local_runs max m n' true u' r ->
    local_runs max (S m) n adjust u r.

Lemma local_runs_loop max m n adjust u r fuel :
  local_runs max m n adjust u r -> (m <= fuel)%nat -> local_loop os P sort maps_file arch fuel max n adjust u = r.
Proof.
  intros Hr. revert fuel. induction Hr as [n a u e Hi|n a u n' u' Hi|n a u n' u' m r Hi _ IH]; intros [|fuel] Hf; try lia; cbn [local_loop].
  - unfold bind. by rewrite Hi.
  - by rewrite (bind_run _ _ _ _ _ Hi).
  - rewrite (bind_run _ _ _ _ _ Hi). apply IH. lia.
Qed.

(** [m] iterations, from the variables of the loop to those of a later iteration *)
Inductive local_reaches (max : Z) : nat -> Z -> bool -> LocalUnwinder -> Z -> bool -> LocalUnwinder -> Prop :=
| local_here n adjust u : local_reaches max 0 n adjust u n adjust u
| local_later n adjust u n1 u1 m n' adjust' u' :
    local_iteration os P sort maps_file arch max n adjust u = Done ((n1, true), u1) ->
    local_reaches max m n1 true u1 n' adjust' u' -> local_reaches max (S m) n adjust u n' adjust' u'.

Lemma local_runs_Fault max m n adjust u e :
  local_runs max m n adjust u (Fault e) ->
  exists k n' adjust' u', (k < m)%nat /\ local_reaches max k n adjust u n' adjust' u' /\
    local_iteration os P sort maps_file arch max n' adjust' u' = Fault e.
Proof.
  intros Hr. remember (Fault e) as r eqn:Er. induction Hr as [n a u e' Hi| |n a u n1 u1 m r Hi _ IH]; try discriminate Er.
  - injection Er as ->. exists 0%nat, n, a, u. split; [lia|]. split; [constructor|done].
  - destruct (IH Er) as (k & n' & a' & u' & Hk & Hre & Hf). exists (S k), n', a', u'. split; [lia|]. split; [|done]. by eapply local_later.
Qed.

(** The first of the new frames has the pc of the registers. *)
Definition first_is u (l : list LocalFrameData) : Prop :=
  match l with [] => True | f :: _ => exists pc, reg_at (pc_reg (l_regs u)) (l_regs u) = Some pc /\ lf_pc f = u64 pc end.

(** The loop, with room for [k] more frames *)
Lemma local_loop_runs k max n adjust u :
  skip_libraries_ u = [] -> Z.of_nat (length (frame_info u)) + Z.of_nat k = max -> (0 < k)%nat ->
  exists m r, (m <= k)%nat /\ local_runs max m n adjust u r /\
    match r with
    | Done (n', u') => exists l, frame_info u' = frame_info u ++ l /\ n' = n + Z.of_nat (length l) /\ (length l <= k)%nat /\
        (adjust = false -> first_is u l)
    | Fault _ => True
    end.
Proof.
  revert n adjust u. induction k as [|k IH]; intros n adjust u Hs Hk Hpos; [lia|].
  pose proof (local_iteration_spec max n adjust u Hs) as Hit. unfold wp in Hit.
  destruct (local_iteration os P sort maps_file arch max n adjust u) as [[[n1 go] u1]|e] eqn:E.
  2:{ exists 1%nat, (Fault e). split; [lia|]. split; [by constructor|done]. }
  destruct Hit as [Hs1 [[[= -> ->] Hf1]|(Hn1 & (f & pc & Hf1 & Hpc & Hlf) & Hgo)]]; cbn [fst snd] in *.
  { exists 1%nat, (Done (n, u1)). split; [lia|]. split; [by constructor|]. exists []. rewrite app_nil_r. cbn. split_and!; [done|lia|lia|done]. }
  assert (adjust = false -> forall l, first_is u (f :: l)) as Hfirst by (intros Ha l; exists pc; auto). subst n1.
  destruct go.
  - assert (k <> 0%nat) as Hk0.
    { intros ->. specialize (Hgo eq_refl). rewrite Hf1, length_app in Hgo. simpl in Hgo. lia. }
    destruct (IH (n + 1) true u1 Hs1) as (m & r & Hm & Hr & Hpost); [rewrite Hf1, length_app; simpl; lia|lia|].
    exists (S m), r. split; [lia|]. split; [by eapply local_next|]. destruct r as [[n' u']|]; [|done].
    destruct Hpost as (l & Hl & -> & Hle & _). exists (f :: l). rewrite Hl, Hf1, <- app_assoc. cbn [length].
    split_and!; [done|lia|lia|]. intros Ha. by apply Hfirst.
  - exists 1%nat, (Done (n + 1, u1)). split; [lia|]. split; [by constructor|]. exists [f]. cbn [length].
    split_and!; [done|lia|lia|]. intros Ha. by apply Hfirst.
Qed.
End Ends.

(** C24. The quick unwinder without libraries to skip, called with fewer frames in the vector than it
    may have: its loop has at most as many iterations as there is room for frames, whatever the process
    contains. When these end, the vector is not larger than [max_frames], its old frames stay, the first
    new frame is that of the registers, and the result is true exactly when there is one. Otherwise the
    fault is that of an iteration that was reached, which may be a step whose own loops do not end. *)
Theorem local_unwind_bounded os P sort maps_file arch regs max u
  (Hskip : skip_libraries_ u = []) (Hroom : Z.of_nat (length (frame_info u)) < max) :
  exists m r, Z.of_nat m <= max - Z.of_nat (length (frame_info u)) /\
    local_runs os P sort maps_file arch max m 0 false (put_l_regs regs u) r /\
    match r with
    | Done (n, u') =>
        (forall fuel, (m <= fuel)%nat -> local_Unwind os P sort maps_file arch fuel regs max u = Done (negb (n =? 0), u')) /\
        exists l, frame_info u' = frame_info u ++ l /\ n = Z.of_nat (length l) /\ Z.of_nat (length (frame_info u')) <= max /\
          (forall f, l !! 0%nat = Some f -> exists pc, reg_at (pc_reg regs) regs = Some pc /\ lf_pc f = u64 pc)
    | Fault e =>
        (forall fuel, (m <= fuel)%nat -> local_Unwind os P sort maps_file arch fuel regs max u = Fault e) /\
        exists k n' adjust' u', (k < m)%nat /\
          local_reaches os P sort maps_file arch max k 0 false (put_l_regs regs u) n' adjust' u' /\
          local_iteration os P sort maps_file arch max n' adjust' u' = Fault e
    end.
Proof.
  destruct (local_loop_runs os P sort maps_file arch (Z.to_nat (max - Z.of_nat (length (frame_info u)))) max 0 false (put_l_regs regs u) Hskip)
    as (m & r & Hm & Hr & Hpost); [cbn; lia|lia|].
  exists m, r. split; [lia|]. split; [done|].
  assert (forall fuel, (m <= fuel)%nat -> local_loop os P sort maps_file arch fuel max 0 false (put_l_regs regs u) = r) as Hl
    by (intros; by eapply local_runs_loop).
  destruct r as [[n u']|e].
  - split. { intros fuel Hf. unfold local_Unwind. rewrite bind_modify. by rewrite (bind_run _ _ _ _ _ (Hl fuel Hf)). }
    destruct Hpost as (l & Hf & -> & Hle & Hfirst). exists l. cbn in Hf. split_and!; [done|lia|rewrite Hf, length_app; lia|].
    intros f Hlf. destruct l as [|f' l]; [done|]. injection Hlf as ->. by apply Hfirst.
  - split; [|by apply local_runs_Fault]. intros fuel Hf. unfold local_Unwind. rewrite bind_modify. unfold bind. by rewrite (Hl fuel Hf).
Qed.

(** * Where it does not end *)

(** The own process has the two signal frames that return to each other. *)
Definition local_trampolines (sp : Z) (frames : list LocalFrameData) : LocalUnwinder :=
  mkLocal true (trampoline_world trampoline_code [x61]) (Some trampoline_stacks) [] 0 (trampoline_regs sp) frames.

Definition other_stack (sp : Z) : Z := if sp =? 0x2000 then 0x2200 else 0x2000.

Definition trampoline_frame (adjust : bool) : LocalFrameData :=
  if adjust then mkLocalFrame 0 0x103f 0x3f [] 0 else mkLocalFrame 0 0x1040 0x40 [] 0.

Section NoLimit.
Context (os : system) (P : params) (sort : gmap Z MapInfo -> list (option Z) -> list (option Z)).
Context (maps_file : nat -> list map_entry * bool).

Lemma local_trampoline_step (adjust : bool) sp frames :
  sp = 0x2000 \/ sp = 0x2200 ->
  local_step P ARCH_X86_64 0 0x40 (if adjust then 0x3f else 0x40) (local_trampolines sp frames) = Done (false, local_trampolines (other_stack sp) frames).
Proof. intros [->| ->]; destruct adjust; reflexivity. Qed.

Lemma local_trampoline_iteration max n (adjust : bool) sp frames :
  sp = 0x2000 \/ sp = 0x2200 -> Z.of_nat (length frames) + 1 <> max ->
  local_iteration os P sort maps_file ARCH_X86_64 max n adjust (local_trampolines sp frames) =
    Done ((n + 1, true), local_trampolines (other_stack sp) (frames ++ [trampoline_frame adjust])).
Proof.
  intros Hsp Hmax. unfold local_iteration. set (u := local_trampolines sp frames).
  rewrite (bind_run _ _ 0x1040 u u) by reflexivity. rewrite (bind_run _ _ sp u u) by reflexivity.
  rewrite (bind_run _ _ (Some 0) u u) by reflexivity. rewrite bind_get.
  rewrite (bind_run _ _ 0 u u) by reflexivity. rewrite (bind_run _ _ (put_map_elf 0 (new_MapInfo None 0x1000 0x2000 0 5 [x61])) u u) by reflexivity.
  rewrite (bind_run _ _ (trampoline_elf trampoline_code) u u) by reflexivity. cbv zeta.
  rewrite (bind_run _ _ false u (local_trampolines (other_stack sp) frames)).
  2:{ rewrite <- (local_trampoline_step adjust sp frames Hsp). by destruct adjust. }
  rewrite (bind_run _ _ (n + 1) _ (local_trampolines (other_stack sp) (frames ++ [trampoline_frame adjust]))).
  2:{ destruct adjust; unfold add_local_frame; rewrite bind_get;
      rewrite (bind_run _ _ (put_map_elf 0 (new_MapInfo None 0x1000 0x2000 0 5 [x61])) _ (local_trampolines (other_stack sp) frames)) by reflexivity;
      cbn [skip_libraries_ local_trampolines ShouldSkipLibrary existsb negb]; rewrite orb_true_r;
      rewrite (bind_run _ _ None _ (local_trampolines (other_stack sp) frames)) by reflexivity; reflexivity. }
  rewrite bind_get. cbn [orb frame_info local_trampolines]. rewrite length_app. cbn [length].
  destruct (Z.eqb_spec (Z.of_nat (length frames + 1)) max); [lia|]. unfold local_trampolines.
  rewrite (bind_run _ _ 0x1040 _ (local_trampolines (other_stack sp) (frames ++ [trampoline_frame adjust]))) by (destruct Hsp as [->| ->]; reflexivity).
  rewrite (bind_run _ _ (other_stack sp) _ (local_trampolines (other_stack sp) (frames ++ [trampoline_frame adjust]))) by (destruct Hsp as [->| ->]; reflexivity).
  by destruct Hsp as [->| ->].
Qed.

Lemma other_stack_ok sp : sp = 0x2000 \/ sp = 0x2200 -> other_stack sp = 0x2000 \/ other_stack sp = 0x2200.
Proof. intros [->| ->]; cbn; auto. Qed.
End NoLimit.

(** The size is compared with the limit only after a frame was added, and only for equality: called
    with as many frames in the vector as it may have, or more, a limit of zero among them, the loop has
    no bound. Two signal frames that return to each other keep it running for ever. *)
Theorem local_unwind_no_limit os P sort maps_file max frames
  (Hfull : max <= Z.of_nat (length frames)) :
  let u := local_trampolines 0x2000 frames in
  (forall fuel, local_Unwind os P sort maps_file ARCH_X86_64 fuel (trampoline_regs 0x2000) max u = Fault OutOfFuel) /\
  (forall m r, ~ local_runs os P sort maps_file ARCH_X86_64 max m 0 false u r).
Proof.
  intros u. split.
  - intros fuel. unfold local_Unwind. rewrite bind_modify. change (put_l_regs _ u) with u. unfold bind, u.
    assert (forall fuel n adjust sp frames, (sp = 0x2000 \/ sp = 0x2200) -> max <= Z.of_nat (length frames) ->
      local_loop os P sort maps_file ARCH_X86_64 fuel max n adjust (local_trampolines sp frames) = Fault OutOfFuel) as Hloop; [|by rewrite Hloop; auto].
    clear. induction fuel as [|fuel IH]; intros n adjust sp frames Hsp Hfull; [done|]. cbn [local_loop].
    rewrite (bind_run _ _ _ _ _ (local_trampoline_iteration os P sort maps_file max n adjust sp frames Hsp ltac:(lia))).
    apply IH; [by apply other_stack_ok|]. rewrite length_app. simpl. lia.
  - assert (forall m n adjust sp frames r, (sp = 0x2000 \/ sp = 0x2200) -> max <= Z.of_nat (length frames) ->
      ~ local_runs os P sort maps_file ARCH_X86_64 max m n adjust (local_trampolines sp frames) r) as Hno; [|intros m r; apply Hno; auto].
    clear. induction m as [|m IH]; intros n adjust sp frames r Hsp Hfull Hr; [by inversion Hr|].
    pose proof (local_trampoline_iteration os P sort maps_file max n adjust sp frames Hsp ltac:(lia)) as Hit.
    inversion Hr; subst; try congruence.
    match goal with H : local_iteration _ _ _ _ _ _ _ _ _ = Done (_, true, _) |- _ => rewrite Hit in H; injection H as <- <- end.
    eapply (IH _ true (other_stack sp) (frames ++ [trampoline_frame adjust])); [by apply other_stack_ok|rewrite length_app; simpl; lia|eassumption].
Qed.

(** ** A call with room, and one without *)

Definition some_params : params := mkParams 1 (fun _ => []) (fun l => l) 0 (mkUnpacker unit tt (fun _ _ _ => (tt, [], 0, false, false)) (fun _ => false)).

Lemma local_unwind_bounded_witness :
  let os := mkSystem 4096 (fun _ => None) (fun _ _ _ => false) in
  exists u', (forall fuel, (3 <= fuel)%nat ->
    local_Unwind os some_params (fun _ l => l) (fun _ => ([], true)) ARCH_X86_64 fuel (trampoline_regs 0x2000) 3 (local_trampolines 0x2000 []) = Done (true, u')) /\
    (length (frame_info u') <= 3)%nat.
Proof.
  intros os. destruct (local_unwind_bounded os some_params (fun _ l => l) (fun _ => ([], true)) ARCH_X86_64 (trampoline_regs 0x2000) 3 (local_trampolines 0x2000 []))
    as (m & r & Hm & _ & Hpost); [reflexivity|cbn; lia|]. cbn in Hm.
  assert (match local_Unwind os some_params (fun _ l => l) (fun _ => ([], true)) ARCH_X86_64 3 (trampoline_regs 0x2000) 3 (local_trampolines 0x2000 []) with
          | Done (b, _) => b | Fault _ => false end = true) as Hd by (vm_compute; reflexivity).
  destruct r as [[n u']|e]; [|destruct Hpost as [Hpost _]; rewrite Hpost in Hd by lia; done]. destruct Hpost as [Hrun (l & _ & _ & Hle & _)].
  rewrite Hrun in Hd by lia. exists u'. split; [intros fuel Hf; rewrite Hrun, Hd by lia; done|lia].
Defined.

Lemma local_unwind_no_limit_witness : forall fuel,
  local_Unwind (mkSystem 4096 (fun _ => None) (fun _ _ _ => false)) some_params (fun _ l => l) (fun _ => ([], true)) ARCH_X86_64 fuel
    (trampoline_regs 0x2000) 0 (local_trampolines 0x2000 []) = Fault OutOfFuel.
Proof.
  apply (local_unwind_no_limit (mkSystem 4096 (fun _ => None) (fun _ _ _ => false)) some_params (fun _ l => l) (fun _ => ([], true)) 0 []). cbn. lia.
Defined.
