(* ===== verification/MapInfoElf.v ===== *)
(** The memory and the ELF object of a map: the bytes at a relative pc, the invariant of the objects,
    and what the cache confuses. *)
From Stdlib Require Import ZArith Lia Bool Strings.Byte Strings.String.
From stdpp Require Import base numbers list gmap.
From S2P Require Import Prelude StdMap Memory DwarfMemory Regs ElfTypes ElfInterface RegsArch Maps Elf MapInfo.
#[local] Open Scope Z_scope.

(** * Maps of the state *)

Definition lookup_info (w : World) (k : Z) : option MapInfo := infos (w_maps w) !! k.
Definition set_info (k : Z) (i : MapInfo) (w : World) : World :=
  put_w_maps (put_infos (<[k := i]> (infos (w_maps w))) (w_maps w)) w.

Lemma lookup_set_info k i w : lookup_info (set_info k i w) k = Some i.
Proof. unfold lookup_info, set_info. cbn. by rewrite lookup_insert_eq. Qed.

Lemma lookup_set_info_ne k k' i w : k <> k' -> lookup_info (set_info k i w) k' = lookup_info w k'.
Proof. intros. unfold lookup_info, set_info. cbn. by rewrite lookup_insert_ne. Qed.

Section Rules.
Context (F : fault -> Prop).
Implicit Types (w : World) (i : MapInfo).

Lemma wp_map_info k i (Q : MapInfo -> World -> Prop) w :
  lookup_info w k = Some i -> Q i w -> wp F (map_info k) Q w.
Proof.
  intros Hi HQ. unfold wp, map_info, on_maps, zoom, deref_map. rewrite bind_get. cbn. unfold lookup_info in Hi. rewrite Hi. cbn.
  by destruct w.
Qed.

Lemma wp_update_info k f i (Q : unit -> World -> Prop) w :
  lookup_info w k = Some i -> Q tt (set_info k (f i) w) -> wp F (update_info k f) Q w.
Proof. intros Hi HQ. unfold update_info. wp_simpl. by eapply wp_map_info. Qed.

Lemma wp_prev_info i (Q : option MapInfo -> World -> Prop) w :
  (forall p, prev_map i = Some p -> is_Some (lookup_info w p)) ->
  Q (prev_map i ≫= lookup_info w) w -> wp F (prev_info i) Q w.
Proof.
  intros Hp HQ. unfold prev_info. destruct (prev_map i) as [p|]; [|done]. destruct (Hp p eq_refl) as [prev E]. cbn in HQ.
  wp_simpl. eapply wp_map_info; [exact E|]. wp_simpl. by rewrite E in HQ.
Qed.
End Rules.

(** * Memories of files *)

(** The page size is a power of two, and files have a size. *)
Record system_ok (os : system) : Prop := {
  so_pages : exists j, 0 <= j < 31 /\ pagesize os = 2 ^ j;
  so_sizes : forall name file, file_contents os name = Some file -> len file < 2 ^ 63
}.

(** The memory reads [size] bytes of the file from [base] on. *)
Definition file_view (file : list byte) (base size : Z) (m : Memory) : Prop :=
  forall a n, 0 <= a -> 0 <= n -> Read m a n = if size <=? a then [] else slice (base + a) (Z.min n (size - a)) file.

Lemma slice_slice a n b size (bs : list byte) :
  0 <= a -> 0 <= b -> 0 <= n <= size - a -> slice a n (slice b size bs) = slice (b + a) n bs.
Proof.
  intros. unfold slice. rewrite skipn_firstn_comm, drop_drop, firstn_firstn. f_equal; [lia|]. f_equal. lia.
Qed.

Lemma slice_nonpos a n (bs : list byte) : n <= 0 -> slice a n bs = [].
Proof. intros. unfold slice. by rewrite (Z2Nat.nonpos n) by lia. Qed.

Section Files.
Context (os : system) (Hos : system_ok os).

Lemma file_Init_view name offset size f f' :
  in_u 64 offset -> in_u 64 size -> file_Init os name offset size f = (true, f') ->
  exists file, file_contents os name = Some file /\ offset < len file /\
    file_view file offset (Z.min size (len file - offset)) (MemoryFileAtOffset.memory f').
Proof.
  destruct (so_pages os Hos) as (j & Hj & Hp). intros Ho Hs. unfold file_Init. rewrite Hp.
  destruct (file_contents os name) as [file|] eqn:E; [|done]. pose proof (so_sizes os Hos name file E) as Hlen.
  destruct (decide (len file <= offset)) as [Hle|Hle].
  { unfold MemoryFileAtOffset.Init. rewrite (proj2 (Z.leb_le _ _)) by done. done. }
  destruct (mmap_ok os name offset size).
  2:{ unfold MemoryFileAtOffset.Init. rewrite (proj2 (Z.leb_gt _ _)) by lia. destruct (_ || _); intros [=]. }
  unfold in_u in Ho. destruct (Init_ok j file ltac:(lia) f offset size) as [o ->]; [lia|lia|done|]. intros [= <-].
  exists file. split; [done|]. split; [lia|]. intros a n Ha Hn.
  unfold MemoryFileAtOffset.memory, MemoryFileAtOffset.read. cbn [Read MemoryFileAtOffset.size_ MemoryFileAtOffset.data_].
  destruct (Z.leb_spec (Z.min size (len file - offset)) a); [done|]. rewrite Z.min_comm. apply slice_slice; lia.
Qed.

(** The only fault is the overflow in the size of the section headers. *)
Definition size_overflow (f : fault) : Prop := f = Undef UbOverflow.

Lemma GetInfo_spec m :
  match GetInfo m with Done (Some size) => in_u 64 size | Done None => True | Fault f => size_overflow f end.
Proof.
  assert (forall A mem, match GetMaxSize A mem with Done size => in_u 64 (default 0 size) | Fault f => size_overflow f end) as Hmax.
  { intros A mem. unfold GetMaxSize, mul16. destruct (read_ehdr A mem 0) as [e|]; [|done]. destruct (e_shnum e =? 0); [done|].
    destruct (_ <=? _); [done|]. cbn. unfold addr, in_u. pose proof (wrap_range (bits A) (e_shoff e + e_shentsize e * e_shnum e)).
    unfold in_u in *. destruct A; cbn [bits] in *; lia. }
  unfold GetInfo. destruct m as [mem|]; [|done]. destruct (negb _); [done|]. destruct (read_class mem) as [c|]; [|done].
  pose proof (Hmax U32 mem). pose proof (Hmax U64 mem). destruct (c =? ELFCLASS32); [|destruct (c =? ELFCLASS64); [|done]].
  - by destruct (GetMaxSize U32 mem).
  - by destruct (GetMaxSize U64 mem).
Qed.

(** ** The state after the members of one map have changed *)

Definition same_core (i i' : MapInfo) : Prop :=
  map_start i' = map_start i /\ map_end i' = map_end i /\ map_offset i' = map_offset i /\ map_flags i' = map_flags i /\
  map_name i' = map_name i /\ map_elf i' = map_elf i /\ prev_map i' = prev_map i.

Lemma set_info_id k i w : lookup_info w k = Some i -> set_info k i w = w.
Proof. intros Hi. unfold set_info, put_w_maps, put_infos. rewrite insert_id by exact Hi. by destruct w as [[] ? ? ? ?]. Qed.

Lemma set_info_set k i i' w : set_info k i' (set_info k i w) = set_info k i' w.
Proof. unfold set_info, put_w_maps, put_infos. cbn. by rewrite insert_insert_eq. Qed.

Lemma is_Some_set_info k i w p : is_Some (lookup_info w p) -> is_Some (lookup_info (set_info k i w) p).
Proof. intros Hp. destruct (decide (k = p)) as [->|]; [rewrite lookup_set_info; eauto|by rewrite lookup_set_info_ne]. Qed.

Lemma wp_GetInfo m (Q : option Z -> World -> Prop) w :
  (forall size, GetInfo m = Done size -> match size with Some n => in_u 64 n | None => True end -> Q size w) -> wp size_overflow (lift (GetInfo m)) Q w.
Proof. intros HQ. rewrite wp_lift. pose proof (GetInfo_spec m) as H. destruct (GetInfo m) as [[n|]|f]; auto. Qed.

(** A map with a prev_map that exists, and values of its width. *)
Record info_ok (w : World) (i : MapInfo) : Prop := {
  io_start : in_u 64 (map_start i);
  io_end : in_u 64 (map_end i);
  io_offset : in_u 64 (map_offset i);
  io_prev : forall p, prev_map i = Some p -> exists prev, lookup_info w p = Some prev /\ in_u 64 (map_offset prev)
}.

(** The object of the file at [base], the offset of the read-only map before [i]. Its [size] is the one its headers give,
    which is at least the distance between the ends of the two maps, or what the file has of it. *)
Definition object_before (w : World) (i : MapInfo) (file : list byte) (base size : Z) : Prop :=
  exists p prev m0 max_size, prev_map i = Some p /\ lookup_info w p = Some prev /\ map_flags prev = PROT_READ /\
    base = map_offset prev /\
    file_view file base (Z.min (u64 (map_end i - map_end prev)) (len file - base)) m0 /\ GetInfo (Some m0) = Done (Some max_size) /\
    u64 (map_end i - map_end prev) <= max_size /\ size = Z.min max_size (len file - base).

(** The memory of the file of the map [i]: it starts [elf_offset] bytes before the offset of the map. *)
Definition file_backed (w : World) (i i' : MapInfo) (m : Memory) : Prop :=
  exists file base size, file_contents os (map_name i) = Some file /\ file_view file base size m /\
    0 <= base < len file /\ size <= len file - base /\ u64 (base + elf_offset i') = map_offset i /\
    (Z.min (map_offset i + (map_end i - map_start i)) (len file) <= base + size /\ base <= map_offset i \/ object_before w i file base size).

Definition only_info (k : Z) (i : MapInfo) (w : World) (R : MapInfo -> Prop) (w' : World) : Prop :=
  exists i', w' = set_info k i' w /\ same_core i i' /\ memory_backed_elf i' = memory_backed_elf i /\ R i'.

Lemma InitFileMemory_spec k i w f :
  lookup_info w k = Some i -> info_ok w i ->
  wp size_overflow (InitFileMemoryFromPreviousReadOnlyMap os k f)
    (fun r w' => only_info k i w (fun i' => if fst r : bool then file_backed w i i' (MemoryFileAtOffset.memory (snd r))
                                            else elf_offset i' = elf_offset i) w') w.
Proof.
  intros Hi Hok. assert (only_info k i w (fun i' => elf_offset i' = elf_offset i) w) as Hsame.
  { exists i. by rewrite set_info_id. }
  unfold InitFileMemoryFromPreviousReadOnlyMap. wp_simpl. eapply wp_map_info; [done|]. wp_simpl.
  apply wp_prev_info. { intros p Hp. destruct (io_prev _ _ Hok p Hp) as (prev & -> & _). eauto. }
  destruct (prev_map i) as [p|] eqn:Ep; cbn [mbind option_bind]; [|done].
  destruct (io_prev _ _ Hok p Ep) as (prev & Hprev & Hpo). rewrite Hprev. destruct (negb (_ =? _)) eqn:Hflags; [done|].
  apply negb_false_iff, Z.eqb_eq in Hflags.
  set (map_size := u64 (map_end i - map_end prev)). destruct (file_Init os (map_name i) (map_offset prev) map_size f) as [ok f1] eqn:E1.
  destruct ok; cbn [negb]; [|done]. rewrite wp_bind. apply wp_GetInfo. intros [max_size|] Hinfo Hms; [|done].
  destruct (Z.ltb_spec max_size map_size) as [|Hge]; [done|].
  destruct (file_Init os (map_name i) (map_offset prev) max_size f1) as [ok f2] eqn:E2. destruct ok; cbn [negb]; [|done].
  wp_simpl. eapply wp_update_info; [done|]. wp_simpl. eexists. split; [done|]. split; [done|]. split; [done|]. cbn [fst snd].
  apply file_Init_view in E1 as (file' & Hfile' & _ & Hview'); [|done|by apply wrap_range].
  apply file_Init_view in E2 as (file & Hfile & Hlt & Hview); [|done..]. rewrite Hfile in Hfile'. injection Hfile' as <-. exists file, (map_offset prev), (Z.min max_size (len file - map_offset prev)).
  unfold in_u in *. split_and!; [done|done|lia|lia|lia| |].
  - cbn. rewrite wrap_add_r by lia. replace (map_offset prev + (map_offset i - map_offset prev)) with (map_offset i) by lia.
    apply wrap_small, (io_offset _ _ Hok).
  - right. by exists p, prev, (MemoryFileAtOffset.memory f1), max_size.
Qed.

Lemma file_backed_at k i i' w w' f f' base size :
  info_ok w i -> in_u 64 base -> in_u 64 size -> file_Init os (map_name i) base size f = (true, f') ->
  w' = set_info k i' w -> same_core i i' -> memory_backed_elf i' = memory_backed_elf i -> base + elf_offset i' = map_offset i ->
  map_offset i + (map_end i - map_start i) <= base + size \/ size = UINT64_MAX -> base <= map_offset i ->
  only_info k i w (fun i' => file_backed w i i' (MemoryFileAtOffset.memory f')) w'.
Proof.
  intros Hok Hb Hs Hf -> Hcore Hmb He Hcov Hle. exists i'. split_and!; try done.
  destruct (file_Init_view _ _ _ _ _ Hb Hs Hf) as (file & Hfile & Hlt & Hview).
  pose proof (so_sizes os Hos _ _ Hfile). exists file, base, (Z.min size (len file - base)). unfold in_u in *.
  split_and!; [done|done|lia|lia|lia|rewrite He; apply wrap_small, (io_offset _ _ Hok)|left; lia].
Qed.

Definition memory_post k i w (r : option Memory) (w' : World) : Prop :=
  only_info k i w (fun i' => match r with Some m => file_backed w i i' m | None => elf_offset i' = 0 end) w'.

Lemma whole_file_memory_spec k i w map_size f :
  lookup_info w k = Some i -> info_ok w i -> elf_offset i = 0 -> in_u 64 map_size -> map_end i - map_start i <= map_size ->
  wp size_overflow (whole_file_memory os k map_size f) (memory_post k i w) w.
Proof.
  intros Hi Hok He Hms Hcov. pose proof (proj1 (io_offset _ _ Hok)) as Ho0. unfold whole_file_memory, memory_post. wp_simpl. eapply wp_map_info; [done|]. wp_simpl.
  destruct (file_Init os (map_name i) 0 UINT64_MAX f) as [ok f1] eqn:E1. destruct (ok && _) eqn:Ev.
  { apply andb_prop in Ev as [-> _]. wp_simpl. eapply wp_update_info; [done|]. wp_simpl.
    apply wp_prev_info. { intros p Hp. apply is_Some_set_info. destruct (io_prev _ _ Hok p Hp) as (prev & -> & _). eauto. }
    assert (forall i', same_core i i' -> memory_backed_elf i' = memory_backed_elf i -> elf_offset i' = map_offset i ->
      only_info k i w (fun i' => file_backed w i i' (MemoryFileAtOffset.memory f1)) (set_info k i' (set_info k (put_elf_offset (map_offset i) i) w))) as Hend.
    { intros i' Hc Hmb Ho. rewrite set_info_set. eapply (file_backed_at k i i' w _ f f1 0 UINT64_MAX); try done; by right. }
    wp_simpl. destruct (prev_map i ≫= _) as [prev|].
    - wp_simpl. destruct (_ || _ || _).
      + eapply wp_update_info; [apply lookup_set_info|]. wp_simpl. by apply Hend.
      + rewrite <- (set_info_set k (put_elf_offset (map_offset i) i)). by apply Hend.
    - wp_simpl. eapply wp_update_info; [apply lookup_set_info|]. wp_simpl. by apply Hend. }
  clear Ev. wp_simpl. eapply wp_mono; [apply InitFileMemory_spec; done|done|]. cbn beta. intros [ok2 f2] w2 Hw2. cbn [fst snd] in Hw2.
  destruct ok2; [exact Hw2|]. destruct Hw2 as (i2 & -> & Hc & Hmb & Ho).
  destruct (file_Init os (map_name i) (map_offset i) map_size f2) as [ok3 f3] eqn:E3. wp_simpl. destruct ok3; [|exists i2; by rewrite Ho].
  apply (file_backed_at k i i2 w _ f2 f3 (map_offset i) map_size); try done; [apply (io_offset _ _ Hok)|lia|left; lia].
Qed.

Lemma GetFileMemory_spec k i w :
  lookup_info w k = Some i -> info_ok w i -> elf_offset i = 0 ->
  wp size_overflow (GetFileMemory os k) (memory_post k i w) w.
Proof.
  intros Hi Hok He. assert (only_info k i w (fun i' => elf_offset i' = 0) w) as Hsame by (exists i; by rewrite set_info_id).
  pose proof (io_offset _ _ Hok) as Ho. unfold GetFileMemory, memory_post. wp_simpl. eapply wp_map_info; [done|]. wp_simpl.
  destruct (Z.eqb_spec (map_offset i) 0) as [E0|E0].
  { destruct (file_Init _ _ _ _ _) as [ok f1] eqn:E1. wp_simpl. destruct ok; [|done].
    eapply (file_backed_at k i i w _ _ f1 0 UINT64_MAX); try done; [by rewrite set_info_id|lia|by right|lia]. }
  cbv zeta. set (map_size := u64 (map_end i - map_start i)). assert (in_u 64 map_size) as Hms by (apply wrap_range; lia).
  pose proof (proj1 Ho) as Ho0. assert (map_end i - map_start i <= map_size) as Hcov.
  { pose proof (io_start _ _ Hok). pose proof (io_end _ _ Hok). unfold in_u in *.
    destruct (decide (map_start i <= map_end i)); [unfold map_size; rewrite wrap_small by (unfold in_u; lia); lia|lia]. }
  destruct (file_Init os (map_name i) (map_offset i) map_size MemoryFileAtOffset.init_state) as [ok f1] eqn:E1. destruct ok; cbn [negb]; [|done].
  rewrite wp_bind. apply wp_GetInfo. intros [max_size|] _ Hmax; [|by apply whole_file_memory_spec].
  wp_simpl. eapply wp_update_info; [done|]. wp_simpl. destruct (Z.ltb_spec map_size max_size).
  2:{ wp_simpl. eapply (file_backed_at k i _ w _ _ f1 (map_offset i) map_size); try done; [cbn; lia|left; lia]. }
  destruct (file_Init os (map_name i) (map_offset i) max_size f1) as [ok f2] eqn:E2. destruct ok.
  { wp_simpl. eapply (file_backed_at k i _ w _ _ f2 (map_offset i) max_size); try done; [cbn; lia|left; lia]. }
  destruct (file_Init os (map_name i) (map_offset i) map_size f2) as [ok f3] eqn:E3. destruct ok.
  { wp_simpl. eapply (file_backed_at k i _ w _ _ f3 (map_offset i) map_size); try done; [cbn; lia|left; lia]. }
  wp_simpl. eapply wp_update_info; [apply lookup_set_info|]. wp_simpl. eexists. rewrite set_info_set. split_and!; done.
Qed.

(** ** The memory of the process *)

(** The memory has, at the address of a pc in the object, the bytes that the process has at the pc. *)
Definition process_backed (i i' : MapInfo) (process_memory m : Memory) : Prop :=
  0 <= elf_offset i' <= map_offset i /\
  forall pc n, map_start i <= pc < map_end i -> 0 <= n ->
    Read m (pc - map_start i + elf_offset i') n = Read process_memory pc (Z.min n (map_end i - pc)).

(** The read-only map before this one ends before it in the object. *)
Definition prev_below (w : World) (i : MapInfo) : Prop :=
  forall p prev, prev_map i = Some p -> lookup_info w p = Some prev -> map_name prev = map_name i -> map_offset prev < map_offset i ->
    0 < map_end prev - map_start prev <= map_offset i - map_offset prev /\ map_end prev < 2 ^ 64.

Lemma range_read pm start size off pc n :
  0 <= n -> start <= pc < start + size -> pc < 2 ^ 64 -> 0 <= off ->
  MemoryRange.read (MemoryRange.mk pm start size off) (pc - start + off) n = Read pm pc (Z.min n (start + size - pc)).
Proof.
  intros Hn Hpc Hlt Hoff. unfold MemoryRange.read. cbn [MemoryRange.offset_ MemoryRange.length_ MemoryRange.begin_ MemoryRange.memory_].
  rewrite (proj2 (Z.ltb_ge _ _)), (proj2 (Z.leb_gt _ _)), (proj2 (Z.leb_gt _ _)) by lia. f_equal; lia.
Qed.

Definition create_post k i w (process_memory : option Memory) (r : option Memory) (w' : World) : Prop :=
  exists i', w' = set_info k i' w /\ same_core i i' /\
    match r with
    | None => True
    | Some m => file_backed w i i' m \/ memory_backed_elf i' = true /\ exists pm, process_memory = Some pm /\ process_backed i i' pm m
    end.

Lemma process_ranges_backed i prev pm :
  0 <= map_start i < map_end i -> map_end i < 2 ^ 64 -> map_offset i + (map_end i - map_start i) < 2 ^ 64 -> 0 <= map_offset prev ->
  0 < map_end prev - map_start prev <= map_offset i - map_offset prev ->
  process_backed i (put_elf_offset (map_offset i - map_offset prev) i) pm
    (MemoryRanges.memory (MemoryRanges.Insert
       (MemoryRanges.Insert MemoryRanges.empty (MemoryRange.mk pm (map_start prev) (u64 (map_end prev - map_start prev)) 0))
       (MemoryRange.mk pm (map_start i) (map_end i - map_start i) (map_offset i - map_offset prev)))).
Proof.
  intros Hi Hend Hext Hpo Hprev. split; [cbn; lia|]. intros pc n Hpc Hn. cbn [elf_offset put_elf_offset]. rewrite (wrap_small 64) by (unfold in_u; lia).
  set (r1 := MemoryRange.mk pm (map_start prev) (map_end prev - map_start prev) 0).
  set (r2 := MemoryRange.mk pm (map_start i) (map_end i - map_start i) (map_offset i - map_offset prev)).
  unfold MemoryRanges.memory. cbn [Read]. change (MemoryRanges.Insert (MemoryRanges.Insert MemoryRanges.empty r1) r2) with (insert_all [r2; r1]).
  assert (Forall range_wf [r2; r1]) as Hwf.
  { repeat constructor; unfold range_end, r1, r2; cbn; lia. }
  assert (disjoint_ranges [r2; r1]) as Hd.
  { intros a b Ha Hb. destruct (disjoint_pair r1 r2) with a b as [?|?]; auto; [unfold range_end, r1, r2; cbn; lia|..];
      rewrite !elem_of_cons in *; tauto. }
  rewrite (ranges_read [r2; r1] _ r2) by (first [done|by apply insert_all_ok|by left|unfold range_end, r2; cbn; lia]).
  unfold r2. rewrite range_read by lia. f_equal. lia.
Qed.

Lemma same_core_prev k i i1 w p :
  lookup_info w k = Some i -> same_core i i1 -> is_Some (lookup_info w p) ->
  exists prev prev1, lookup_info w p = Some prev /\ lookup_info (set_info k i1 w) p = Some prev1 /\ same_core prev prev1.
Proof.
  intros Hi Hc [prev Hp]. exists prev. destruct (decide (k = p)) as [<-|Hne].
  - exists i1. rewrite lookup_set_info. rewrite Hi in Hp. by injection Hp as <-.
  - exists prev. rewrite lookup_set_info_ne by done. done.
Qed.

Lemma info_ok_set k i i1 w : lookup_info w k = Some i -> same_core i i1 -> info_ok w i -> info_ok (set_info k i1 w) i1.
Proof.
  intros Hi Hc [Hs He Ho Hp]. pose proof Hc as (Es & Ee & Eo & _ & _ & _ & Ep). constructor; [by rewrite Es|by rewrite Ee|by rewrite Eo|].
  rewrite Ep. intros p Hpp. destruct (Hp p Hpp) as (prev & Hprev & Hoff).
  destruct (same_core_prev k i i1 w p Hi Hc) as (prev' & prev1 & E & E1 & _ & _ & Hc1 & _); [eauto|]. rewrite Hprev in E. injection E as <-.
  exists prev1. by rewrite Hc1.
Qed.

(** Setting members of the map that its extent does not depend on leaves its object. *)
Lemma file_backed_set k i i0 w i1 m :
  lookup_info w k = Some i -> info_ok w i -> same_core i i0 -> file_backed (set_info k i0 w) i0 i1 m -> file_backed w i i1 m.
Proof.
  intros Hi Hok Hc (file & base & size & Hfile & Hview & Hb & Hs & He & Hcov). pose proof Hc as (Es & Ee & Eo & _ & En & _ & Ep).
  exists file, base, size. rewrite En in Hfile. rewrite Eo in He. rewrite Eo, Ee, Es in Hcov. split; [done|]. split; [done|]. split; [done|]. split; [done|]. split; [done|]. destruct Hcov as [|(p & prev1 & m0 & max_size & Hp & Hp1 & H)]; [by left|right].
  rewrite Ep in Hp. destruct (io_prev _ _ Hok p Hp) as (prev & Hprev & _).
  destruct (same_core_prev k i i0 w p Hi Hc ltac:(eauto)) as (prev' & prev1' & E & E1 & Hc1). rewrite Hprev in E. rewrite Hp1 in E1.
  injection E as <-. injection E1 as <-. destruct Hc1 as (_ & Pe & Po & Pf & _). exists p, prev, m0, max_size. rewrite Pe, Po, Pf, Ee in H. tauto.
Qed.

Lemma process_backed_memory_spec k i i1 w pm :
  lookup_info w k = Some i -> info_ok w i -> prev_below w i -> map_offset i + (map_end i - map_start i) < 2 ^ 64 ->
  map_start i < map_end i -> same_core i i1 -> elf_offset i1 = 0 ->
  wp size_overflow (process_backed_memory k pm) (create_post k i w (Some pm)) (set_info k i1 w).
Proof.
  intros Hi Hok Hbelow Hext Hlt Hc Ho. pose proof (io_start _ _ Hok) as Hs. pose proof (io_end _ _ Hok) as He. unfold in_u in Hs, He.
  pose proof Hc as (Es & Ee & Eo & Ef & En & Ev & Ep).
  unfold process_backed_memory. wp_simpl. eapply wp_map_info; [apply lookup_set_info|]. wp_simpl. cbv zeta.
  destruct (IsValidElf _).
  { wp_simpl. eapply wp_update_info; [apply lookup_set_info|]. rewrite set_info_set. exists (put_memory_backed true i1).
    split_and!; [done|done|]. right. split; [done|]. exists pm. split; [done|].
    split; [cbn; rewrite Ho; pose proof (io_offset _ _ Hok); unfold in_u in *; lia|]. intros pc n Hpc Hn.
    rewrite Es, Ee in *. cbn [elf_offset put_memory_backed]. unfold MemoryRange.memory. cbn [Read]. rewrite Ho, range_read by lia. f_equal. lia. }
  wp_simpl. assert (forall p, prev_map i1 = Some p -> is_Some (lookup_info w p)) as Hprev.
  { rewrite Ep. intros p Hp. destruct (io_prev _ _ Hok p Hp) as (prev & -> & _). eauto. }
  apply wp_prev_info. { intros p Hp. by apply is_Some_set_info, Hprev. }
  destruct (prev_map i1) as [p|] eqn:Ep1; cbn [mbind option_bind]; [|by exists i1].
  destruct (same_core_prev k i i1 w p Hi Hc (Hprev p eq_refl)) as (prev & prev1 & Hp & Hp1 & (Ps & Pe & Po & _ & Pn & _)). rewrite Hp1.
  destruct (_ || _ || _ || _) eqn:Econd; [by exists i1|].
  rewrite !orb_false_iff, negb_false_iff, bool_decide_eq_true, Z.leb_gt in Econd. destruct Econd as [[[_ _] Hname] Hoff].
  rewrite Pn, En in Hname. rewrite Po, Eo in *. destruct (Hbelow p prev (eq_sym Ep) Hp Hname Hoff) as [Hlen Hpe].
  destruct (io_prev _ _ Hok p (eq_sym Ep)) as (prev' & Hp' & Hpo). rewrite Hp in Hp'. injection Hp' as <-. unfold in_u in Hpo.
  wp_simpl. eapply wp_update_info; [apply lookup_set_info|]. wp_simpl. eapply wp_update_info; [apply lookup_set_info|].
  rewrite !set_info_set. eexists. split; [done|]. split; [done|]. right. split; [done|]. exists pm. split; [done|].
  rewrite Ps, Pe, Es, Ee. apply (process_ranges_backed i prev pm); lia.
Qed.

Lemma CreateMemory_spec k i w process_memory :
  lookup_info w k = Some i -> info_ok w i -> prev_below w i -> map_offset i + (map_end i - map_start i) < 2 ^ 64 ->
  wp size_overflow (CreateMemory os k process_memory) (create_post k i w process_memory) w.
Proof.
  intros Hi Hok Hbelow Hext. unfold CreateMemory. wp_simpl. eapply wp_map_info; [done|].
  destruct (Z.leb_spec (map_end i) (map_start i)) as [Hle|Hlt]. { exists i. by rewrite set_info_id. }
  rewrite wp_bind. eapply wp_update_info; [done|]. set (i0 := put_elf_offset 0 i).
  destruct (negb _); [by exists i0|]. rewrite wp_bind.
  eapply (wp_mono size_overflow _ _ (memory_post k i0 (set_info k i0 w))); [|done|].
  { destruct (bool_decide _).
    - exists i0. by rewrite set_info_set.
    - apply GetFileMemory_spec; [apply lookup_set_info|by apply (info_ok_set k i)|done]. }
  intros m w' (i1 & -> & Hc & Hmb & Hm). rewrite set_info_set. destruct m as [m|].
  - exists i1. split; [done|]. split; [done|]. left. by apply (file_backed_set k i i0).
  - destruct process_memory as [pm|]; [by apply process_backed_memory_spec|by exists i1].
Qed.
End Files.

(** A read at the distance of a place of the file from the start of its memory, which wraps around before it. *)
Lemma file_view_at file base size m off n :
  file_view file base size m -> 0 <= base < 2 ^ 63 -> size < 2 ^ 63 -> 0 <= off < 2 ^ 63 -> 0 <= n ->
  Read m (u64 (off - base)) n = slice off (Z.min n (if base <=? off then Z.max 0 (base + size - off) else 0)) file.
Proof.
  intros Hview Hb Hs Ho Hn. destruct (Z.leb_spec base off).
  - rewrite (wrap_small 64) by (unfold in_u; lia). rewrite Hview by lia. destruct (Z.leb_spec size (off - base)).
    + rewrite Z.max_l, Z.min_r by lia. by rewrite slice_nonpos by lia.
    + f_equal; lia.
  - assert (u64 (off - base) = 2 ^ 64 + (off - base)) as ->.
    { unfold wrap. rewrite <- (Z.mod_unique _ _ (-1) (2 ^ 64 + (off - base))); lia. }
    rewrite Hview, (proj2 (Z.leb_le _ _)), Z.min_r by lia. by rewrite slice_nonpos by lia.
Qed.

(** * Theorems *)

(** C14. The bytes at a relative pc. A read of [n] bytes from the memory that [CreateMemory] makes for a map, at the address that
    [GetRelPc] gives for a pc in the map (less the load bias), gives bytes that the map has at the pc. With the memory of the
    process, they are those that the process has up to the end of the map. With the file of the map, they are the
    [Z.min n k] bytes of the file at the place of the pc: [k] reaches the end of the map or of the file when the object is found at the offset of the
    map or is the whole file. When it is found through the read-only map before this one, [k] instead reaches the end of the object that starts there,
    whose size comes from its own headers: the code compares that size with the distance between the ends of the maps only, so the
    object can end within the map, and a pc behind its end (or before its start) reads nothing. *)
Theorem map_memory_at_rel_pc os k i w process_memory
  (Hos : system_ok os) (Hi : lookup_info w k = Some i) (Hok : info_ok w i) (Hbelow : prev_below w i)
  (Hext : map_offset i + (map_end i - map_start i) < 2 ^ 63) :
  match CreateMemory os k process_memory w with
  | Fault f => f = Undef UbOverflow
  | Done (None, _) => True
  | Done (Some m, w') =>
      exists i', lookup_info w' k = Some i' /\
        forall obj pc n, map_start i <= pc < map_end i -> 0 <= n ->
          let a := u64 (GetRelPc pc (map_start i') (elf_offset i') obj - load_bias_ obj) in
          let off := map_offset i + (pc - map_start i) in
          (exists file k, file_contents os (map_name i) = Some file /\ Read m a n = slice off (Z.min n k) file /\
             (Z.min (map_end i - pc) (len file - off) <= k \/
              exists base size, object_before w i file base size /\ k = if base <=? off then Z.max 0 (base + size - off) else 0)) \/
          (exists pm, process_memory = Some pm /\ Read m a n = Read pm pc (Z.min n (map_end i - pc)))
  end.
Proof.
  pose proof (CreateMemory_spec os Hos k i w process_memory Hi Hok Hbelow ltac:(lia)) as H. unfold wp in H.
  destruct (CreateMemory os k process_memory w) as [[[m|] w']|f]; [|done|done].
  destruct H as (i' & -> & Hc & Hm). exists i'. split; [apply lookup_set_info|]. intros obj pc n Hpc Hn a off.
  destruct Hc as (Es & _). pose proof (io_start _ _ Hok) as Hs. pose proof (io_offset _ _ Hok) as Ho. unfold in_u in *.
  assert (a = u64 (pc - map_start i + elf_offset i')) as ->.
  { unfold a, GetRelPc. rewrite wrap_sub_l, Es by lia. f_equal. lia. }
  destruct Hm as [(file & base & size & Hfile & Hview & Hbase & Hsize & Heo & Hcov)|(_ & pm & Hpm & Hrange & Hread)].
  - left. exists file, (if base <=? off then Z.max 0 (base + size - off) else 0). split; [done|]. pose proof (so_sizes os Hos _ _ Hfile).
    split; [|destruct Hcov as [[Hcov Hle]|]; [left|right; by exists base, size]; rewrite (proj2 (Z.leb_le _ _)); unfold off; lia].
    replace (u64 (pc - map_start i + elf_offset i')) with (u64 (off - base)).
    2:{ unfold off. rewrite (Z.add_comm (map_offset i)), <- Heo, <- wrap_sub_l, wrap_add_r, wrap_sub_l by lia. f_equal. lia. }
    apply (file_view_at file base size); [done|lia|lia|unfold off; lia|done].
  - right. exists pm. split; [done|]. rewrite (wrap_small 64) by (unfold in_u; lia). by apply Hread.
Qed.

(** ** A process without files *)

Definition no_files : system := mkSystem 4096 (fun _ => None) (fun _ _ _ => false).

Lemma no_files_ok : system_ok no_files.
Proof. split; [exists 12; split; [lia|done]|done]. Qed.

(** A read-only map with the header of an object, and the executable map behind it. *)
Definition split_world : World :=
  mkWorld (mkMaps (<[0 := new_MapInfo None 0x1000 0x2000 0 1 [x61]]> (<[1 := new_MapInfo (Some 0) 0x2000 0x3000 0x1000 5 [x61]]> ∅))
             2 [Some 0; Some 1] []) ∅ 0 false ∅.
Definition split_process : Memory := MemoryOfflineBuffer.memory (MemoryOfflineBuffer.mk (ELFMAG ++ replicate 0x1ffc x00) 0x1000 0x3000).

Lemma map_memory_at_rel_pc_witness :
  exists m w', CreateMemory no_files 1 (Some split_process) split_world = Done (Some m, w') /\
    forall n, 0 <= n -> Read m 0x1004 n = Read split_process 0x2004 (Z.min n 0xffc).
Proof.
  pose proof (map_memory_at_rel_pc no_files 1 (new_MapInfo (Some 0) 0x2000 0x3000 0x1000 5 [x61]) split_world (Some split_process)) as H.
  destruct (CreateMemory no_files 1 (Some split_process) split_world) as [[[m|] w']|f] eqn:E.
  - exists m, w'. split; [done|]. destruct H as (i' & Hi' & H).
    + apply no_files_ok.
    + reflexivity.
    + split; [done..|]. intros p [= <-]. by eexists.
    + intros p prev [= <-] Hp _ _. vm_compute in Hp. injection Hp as <-. cbn. lia.
    + cbn. lia.
    + assert (elf_offset i' = 0x1000 /\ map_start i' = 0x2000) as [Ho Hs].
      { apply (f_equal (fun r => match r with Done (_, w) => lookup_info w 1 | Fault _ => None end)) in E. rewrite Hi' in E. vm_compute in E. by injection E as <-. }
      intros n Hn. destruct (H (new_Elf (mkParams 0 (fun _ => []) (fun l => l) 0 (mkUnpacker unit tt (fun _ _ _ => (tt, [], 0, false, false)) (fun _ => false))) None) 0x2004 n) as [(file & k & Hf & _)|(pm & [= <-] & Hr)];
        [cbn; lia|done|discriminate Hf|]. rewrite Ho, Hs in Hr. exact Hr.
  - exfalso. vm_compute in E. discriminate E.
  - exfalso. vm_compute in E. discriminate E.
Defined.
