(* ===== verification/DexMethods.v ===== *)
(** [DexFiles.cpp]: the answers of [GetMethodInformation] are those of the list of dex files in the
    memory of the process, however much of it was read and whatever files were made before. *)
From Stdlib Require Import ZArith Lia Bool Strings.Byte Strings.String.
From stdpp Require Import base numbers list gmap.
From S2P Require Import Prelude Memory ElfTypes ElfInterface RegsArch Maps Elf MapInfo MapInfoElf Global DexFiles.
#[local] Open Scope Z_scope.

Section Methods.
Context (L : dexlib) (os : system) (P : params) (A : addr_type) (memory : Memory).

(** * The list and its answers *)

(** The dex files of the entries from an address on. *)
Inductive dex_chain : Z -> list Z -> Prop :=
| chain_null : dex_chain 0 []
| chain_unreadable a : a <> 0 -> read_struct (dex_entry_widths A) memory a = None -> dex_chain a []
| chain_no_file a e : a <> 0 -> read_struct (dex_entry_widths A) memory a = Some e -> fld 2 e = 0 -> dex_chain a []
| chain_entry a e l :
    a <> 0 -> read_struct (dex_entry_widths A) memory a = Some e -> fld 2 e <> 0 -> dex_chain (fld 0 e) l ->
    dex_chain a (fld 2 e :: l).

Definition dex_file (a : Z) (info : MapInfo) : option Z :=
  match DexFile_Create L os P a memory info with Done file => file | Fault _ => None end.

(** The method of a dex pc in a map: the first dex file in the map that knows one. *)
Fixpoint find_method (l : list Z) (info : MapInfo) (dex_pc : Z) : option (list byte * Z) :=
  match l with
  | [] => None
  | a :: l' =>
      if (a <? map_start info) || (map_end info <=? a) then find_method l' info dex_pc
      else match dex_file a info ≫= fun dex => dex_method L dex (u64 (dex_pc - a)) with
           | Some r => Some r
           | None => find_method l' info dex_pc
           end
  end.

(** * The state *)

(** [owner] gives the map that contains an address. *)
Context (owner : Z -> MapInfo).

(** libdexfile answers, also when it is asked for more bytes again and again. *)
Hypothesis opens : forall a, exists file, DexFile_Create L os P a memory (owner a) = Done file.

(** The part of the list that was read, and the rest; the dex files that were made. *)
Record dex_ok (l : list Z) (d : DexFiles) : Prop := {
  do_memory : dex_memory d = memory;
  do_init : dex_initialized_ d = true;
  do_func : dex_read_entry_func_ d = Some A;
  do_rest : exists rest, l = addrs_ d ++ rest /\ dex_chain (dex_entry_addr_ d) rest;
  do_files : forall a file, files_ d !! a = Some file -> DexFile_Create L os P a memory (owner a) = Done file
}.

Lemma GetAddr_spec l d index :
  dex_ok l d -> (index <= length (addrs_ d))%nat ->
  wp no_fault (GetAddr index) (fun r d' => r = l !! index /\ dex_ok l d' /\ (is_Some r -> (S index <= length (addrs_ d'))%nat)) d.
Proof.
  intros Hok Hidx. destruct (Hok) as [Hm Hi Hf (rest & Hl & Hc) Hfiles]. unfold GetAddr, dex_ReadEntry. wp_simpl.
  destruct (addrs_ d !! index) as [a|] eqn:Ea.
  { wp_simpl. split_and!; [by rewrite Hl, (lookup_app_l_Some _ _ _ _ Ea)|done|]. intros _.
    apply lookup_lt_Some in Ea. lia. }
  apply lookup_ge_None in Ea. assert (index = length (addrs_ d)) as -> by lia.
  assert (l !! length (addrs_ d) = head rest) as Hhd by (rewrite Hl, lookup_app_r, Nat.sub_diag by lia; by destruct rest).
  rewrite Hhd. destruct (Z.eqb_spec (dex_entry_addr_ d) 0) as [E|E].
  { rewrite E in Hc. assert (rest = []) as -> by by inversion Hc. wp_simpl. split_and!; [done|done|by intros []]. }
  rewrite Hf. wp_simpl. rewrite Hm. inversion Hc as [Ez|a Ha Hr|a e Ha Hr H2|a e l' Ha Hr H2 Hc']; subst; try congruence; rewrite Hr.
  - wp_simpl. split_and!; [done| |by intros []]. split; try done. eexists. split; [done|]. apply chain_null.
  - rewrite H2. wp_simpl. split_and!; [done| |by intros []]. split; try done. eexists. split; [done|]. apply chain_null.
  - destruct (Z.eqb_spec (fld 2 e) 0); [done|]. wp_simpl. cbn [addrs_ put_dex_entry push_addr]. rewrite last_snoc.
    split_and!; [done| |rewrite length_app; simpl; lia]. split; try done. exists l'. split; [|done]. cbn. by rewrite <- app_assoc.
Qed.

Lemma GetDexFile_spec l d a :
  dex_ok l d ->
  wp no_fault (GetDexFile L os P a (owner a)) (fun r d' => r = dex_file a (owner a) /\ dex_ok l d' /\ addrs_ d' = addrs_ d) d.
Proof.
  intros Hok. unfold GetDexFile, dex_file. wp_simpl. destruct (files_ d !! a) as [file|] eqn:E.
  { wp_simpl. by rewrite (do_files _ _ Hok _ _ E). }
  wp_simpl. rewrite (do_memory _ _ Hok). destruct (opens a) as [file Hfile]. rewrite Hfile. wp_simpl.
  split_and!; [done| |done]. destruct Hok as [Hm Hi Hf Hrest Hfiles]. split; try done. cbn [files_ put_file]. intros b f.
  destruct (decide (b = a)) as [->|]; [rewrite lookup_insert_eq; congruence|]. rewrite lookup_insert_ne by done. apply Hfiles.
Qed.

(** The map of a query: the addresses in it belong to it. *)
Definition owns (info : MapInfo) : Prop := forall a, map_start info <= a < map_end info -> owner a = info.

Lemma method_loop_spec fuel l info dex_pc index d :
  owns info -> dex_ok l d -> (index <= length (addrs_ d))%nat -> (length l - index < fuel)%nat ->
  wp no_fault (method_loop L os P fuel info dex_pc index)
    (fun r d' => r = find_method (drop index l) info dex_pc /\ dex_ok l d') d.
Proof.
  intros Hown. revert index d. induction fuel as [|fuel IH]; intros index d Hok Hidx Hf; [lia|]. cbn [method_loop]. wp_simpl.
  eapply wp_mono; [by apply GetAddr_spec|done|]. cbn beta. intros r d1 (-> & Hok1 & Hlen).
  destruct (l !! index) as [a|] eqn:Ea.
  2:{ wp_simpl. apply lookup_ge_None in Ea. by rewrite drop_ge by lia. }
  rewrite (drop_S _ _ _ Ea). cbn [find_method]. specialize (Hlen ltac:(eauto)).
  pose proof (lookup_lt_Some _ _ _ Ea). destruct ((a <? map_start info) || (map_end info <=? a)) eqn:Ein.
  { apply IH; (done || lia). }
  wp_simpl. apply orb_false_iff in Ein as [?%Z.ltb_ge ?%Z.leb_gt]. rewrite <- (Hown a) at 1 by lia.
  eapply wp_mono; [by apply GetDexFile_spec|done|]. cbn beta. intros file d2 (-> & Hok2 & Haddrs). rewrite (Hown a) by lia.
  destruct (dex_file a info ≫= _) as [r|]; [by wp_simpl|]. apply IH; [done|rewrite Haddrs; lia|lia].
Qed.

(** * Queries *)

(** A query: the map and the dex pc. *)
Fixpoint method_queries (reqs : list (Z * Z)) : M (DexFiles * World) (list (option (list byte * Z))) :=
  match reqs with
  | [] => ret []
  | (k, dex_pc) :: reqs' =>
      r <- GetMethodInformation L os P k dex_pc ;; rest <- method_queries reqs' ;; ret (r :: rest)
  end.

Lemma GetMethodInformation_spec l k dex_pc info d w :
  lookup_info w k = Some info -> owns info -> dex_ok l d -> (length l < p_fuel P)%nat ->
  wp no_fault (GetMethodInformation L os P k dex_pc)
    (fun r p => r = find_method l info dex_pc /\ dex_ok l (fst p) /\ snd p = w) (d, w).
Proof.
  intros Hk Hown Hok Hf. unfold GetMethodInformation, dex_Init, on_world, on_object. wp_simpl. rewrite (do_init _ _ Hok). wp_simpl.
  eapply wp_map_info; [done|]. wp_simpl. eapply wp_mono; [eapply method_loop_spec; try done; lia|done|]. cbn beta. intros r d' [-> Hok'].
  by rewrite drop_0.
Qed.
End Methods.

Lemma method_queries_spec L os P A memory owner l w infos reqs d :
  (forall a, exists file, DexFile_Create L os P a memory (owner a) = Done file) ->
  (forall k dex_pc, (k, dex_pc) ∈ reqs -> lookup_info w k = Some (infos k) /\ owns owner (infos k)) ->
  dex_ok L os P A memory owner l d -> (length l < p_fuel P)%nat ->
  wp no_fault (method_queries L os P reqs)
    (fun rs p => rs = map (fun req => find_method L os P memory l (infos (fst req)) (snd req)) reqs /\
       dex_ok L os P A memory owner l (fst p) /\ snd p = w) (d, w).
Proof.
  intros Hopens Hreqs Hok Hf. revert d Hok. induction reqs as [|[k dex_pc] reqs IH]; intros d Hok; cbn [method_queries]; wp_simpl; [done|].
  destruct (Hreqs k dex_pc ltac:(left)) as [Hk Hown].
  eapply wp_mono; [by eapply GetMethodInformation_spec|done|]. cbn beta. intros r [d1 w1] (-> & Hok1 & Hw). cbn in Hok1, Hw. subst w1. wp_simpl.
  eapply wp_mono; [apply IH; [|exact Hok1]|done|]. { intros k' pc' Hin. apply (Hreqs k' pc'). by right. }
  cbn beta. intros rs p (-> & Hok2 & Hw). by wp_simpl.
Qed.

(** C28. Any sequence of [GetMethodInformation] calls, once [Init] has found the list of dex files, is
    answered by that list alone: each call gets the first dex file inside of the map that knows a
    method for the pc, whatever part of the list was read and whatever dex files were made by the
    calls before. Each call ends, and the maps are not changed. *)
Theorem dex_methods L os P A memory owner l w infos reqs d
  (Hopens : forall a, exists file, DexFile_Create L os P a memory (owner a) = Done file)
  (Hmaps : forall k dex_pc, (k, dex_pc) ∈ reqs -> lookup_info w k = Some (infos k) /\ owns owner (infos k))
  (Hmemory : dex_memory d = memory) (Hinit : dex_initialized_ d = true) (Hfunc : dex_read_entry_func_ d = Some A)
  (Hnew : addrs_ d = []) (Hfiles : files_ d = ∅) (Hlist : dex_chain A memory (dex_entry_addr_ d) l)
  (Hfuel : (length l < p_fuel P)%nat) :
  exists d', method_queries L os P reqs (d, w) =
    Done (map (fun req => find_method L os P memory l (infos (fst req)) (snd req)) reqs, (d', w)).
Proof.
  assert (dex_ok L os P A memory owner l d) as Hok.
  { split; try done; [exists l; by rewrite Hnew|]. intros a f. by rewrite Hfiles, lookup_empty. }
  destruct (wp_elim _ _ _ (method_queries_spec L os P A memory owner l w infos reqs d Hopens Hmaps Hok Hfuel))
    as (rs & [d' w'] & Hrun & -> & _ & Hw). cbn in Hw. subst w'. by exists d'.
Qed.

(** * A process with two dex files *)

(** The entries at 4 and 16, for the dex files at 8 and 12. *)
Definition two_entries : Memory :=
  MemoryBuffer.memory (MemoryBuffer.mk (le_bytes 4 0 ++ le_bytes 4 16 ++ le_bytes 4 0 ++ le_bytes 4 8 ++
    le_bytes 4 0 ++ le_bytes 4 4 ++ le_bytes 4 12)).
(** A dex file has 4 bytes, which are its handle; the one with the value 8 knows a method. *)
Definition four_bytes_lib : dexlib :=
  mkDexLib (fun _ _ _ => None)
    (fun bytes size _ => if size =? 0 then (None, 4, []) else (Some (le_val bytes), 4, []))
    (fun dex offset => if dex =? 8 then (4, [x61]) else (0, [])).
Definition dex_params : params :=
  mkParams 8 (fun _ => []) (fun l => l) 0 (mkUnpacker unit tt (fun _ _ _ => (tt, [], 0, false, false)) (fun _ => false)).
Definition dex_map : MapInfo := new_MapInfo None 0 64 0 5 [].
Definition dex_world : World := mkWorld (mkMaps {[0 := dex_map]} 1 [Some 0] []) ∅ 0 false ∅.
Definition two_dex_files : DexFiles := mkDexFiles (mkGlobal ARCH_ARM two_entries []) true ∅ 4 (Some U32) (Some U32) [].

Lemma dex_methods_witness :
  exists d', method_queries four_bytes_lib (mkSystem 4096 (fun _ => None) (fun _ _ _ => false)) dex_params [(0, 20); (0, 21)] (two_dex_files, dex_world)
    = Done ([Some ([x61], 4); Some ([x61], 5)], (d', dex_world)).
Proof.
  apply (dex_methods four_bytes_lib (mkSystem 4096 (fun _ => None) (fun _ _ _ => false)) dex_params U32 two_entries (fun _ => dex_map) [8; 12] dex_world
    (fun _ => dex_map) [(0, 20); (0, 21)] two_dex_files).
  - intros a. unfold DexFile_Create. cbn [dex_map new_MapInfo map_name bool_decide decide]. unfold DexFileFromMemory_Create, dex_params. cbn [p_fuel from_memory_loop].
    change (OpenFromMemory four_bytes_lib [] 0 (map_name dex_map)) with (@None Z, 4, @nil byte). cbn.
    destruct (ReadFully two_entries a 4); eexists; reflexivity.
  - intros k pc Hin. split; [|done]. assert (k = 0) as ->; [|vm_compute; reflexivity].
    apply list_elem_of_In in Hin. destruct Hin as [[= <- _]|[[= <- _]|[]]]; reflexivity.
  - done.
  - done.
  - done.
  - done.
  - done.
  - change 8 with (fld 2 [16; 0; 8]) at 1. apply chain_entry; [done|vm_compute; reflexivity|done|].
    change 12 with (fld 2 [0; 4; 12]) at 1. apply chain_entry; [done|vm_compute; reflexivity|done|]. apply chain_null.
  - simpl. lia.
Defined.
