(* ===== verification/MapInfoCache.v ===== *)
(** The ELF objects of maps: the invariant of the state, and what the cache confuses. *)
From Stdlib Require Import ZArith Lia Bool Strings.Byte Strings.String.
From stdpp Require Import base numbers list gmap.
From S2P Require Import Prelude Memory DwarfMemory Regs ElfTypes ElfInterface RegsArch Maps Elf MapInfo MapInfoElf.
#[local] Open Scope Z_scope.

(** * The invariant *)

(** Every object that a map or the cache points to exists. *)
Record objects_ok (w : World) : Prop := {
  oo_maps : forall k i e, lookup_info w k = Some i -> map_elf i = Some e -> is_Some (elfs w !! e);
  oo_cache : forall name e b, cache_ w !! name = Some (e, b) -> is_Some (elfs w !! e);
  oo_next : forall e, is_Some (elfs w !! e) -> e < next_elf w
}.

(** What [GetElf] keeps of a map: all but the object and where it was found. *)
Definition same_data (i i' : MapInfo) : Prop :=
  map_start i' = map_start i /\ map_end i' = map_end i /\ map_offset i' = map_offset i /\ map_flags i' = map_flags i /\
  map_name i' = map_name i /\ prev_map i' = prev_map i.

Lemma same_core_data i i' : same_core i i' -> same_data i i'.
Proof. unfold same_core, same_data. tauto. Qed.

Lemma same_data_trans i1 i2 i3 : same_data i1 i2 -> same_data i2 i3 -> same_data i1 i3.
Proof. intros (? & ? & ? & ? & ? & ?) (? & ? & ? & ? & ? & ?). unfold same_data. split_and!; congruence. Qed.

Section Objects.
Context (os : system) (P : params).
Implicit Types (w : World) (i : MapInfo).

(** The faults of [GetElf] are those of reading an ELF header. *)
Definition parse_fault (f : fault) : Prop := size_overflow f \/ exists m, Elf.Init P (new_Elf P m) = Fault f.

Lemma objects_ok_set k i' w :
  objects_ok w -> (forall e, map_elf i' = Some e -> is_Some (elfs w !! e)) -> objects_ok (set_info k i' w).
Proof.
  intros [Hm Hc Hn] He. constructor; [|exact Hc|exact Hn]. intros k' j e Hj Hje. cbn [elfs set_info put_w_maps].
  destruct (decide (k = k')) as [<-|Hne]; [rewrite lookup_set_info in Hj; injection Hj as <-; auto|].
  rewrite lookup_set_info_ne in Hj by done. by eapply Hm.
Qed.

(** ** The memory of the object *)

(** Only members of the map [k] have changed since [w0], and not its object. *)
Definition touched k i w0 w : Prop := exists i', w = set_info k i' w0 /\ same_core i i'.

Section Touched.
Context (k : Z) (i : MapInfo) (w0 : World) (Hi : lookup_info w0 k = Some i) (Hok : info_ok w0 i).
Implicit Types (F : fault -> Prop).

Lemma touched_refl : touched k i w0 w0.
Proof. exists i. by rewrite set_info_id. Qed.

Lemma wp_update_touched F g (Q : unit -> World -> Prop) w :
  touched k i w0 w -> (forall j, same_core j (g j)) -> (forall w', touched k i w0 w' -> Q tt w') -> wp F (update_info k g) Q w.
Proof.
  intros (i1 & -> & Hc) Hg HQ. eapply wp_update_info; [apply lookup_set_info|]. rewrite set_info_set. apply HQ.
  exists (g i1). split; [done|]. pose proof (Hg i1). unfold same_core in *. intuition congruence.
Qed.

Lemma wp_map_touched F (Q : MapInfo -> World -> Prop) w :
  touched k i w0 w -> (forall i1, same_core i i1 -> Q i1 w) -> wp F (map_info k) Q w.
Proof. intros (i1 & -> & Hc) HQ. eapply wp_map_info; [apply lookup_set_info|]. by apply HQ. Qed.

Lemma wp_prev_touched F i1 (Q : option MapInfo -> World -> Prop) w :
  touched k i w0 w -> same_core i i1 -> (forall o, Q o w) -> wp F (prev_info i1) Q w.
Proof.
  intros (i2 & -> & _) (_ & _ & _ & _ & _ & _ & Hp) HQ. apply wp_prev_info; [|apply HQ]. intros p Hpp. rewrite Hp in Hpp.
  destruct (io_prev _ _ Hok p Hpp) as (prev & E & _). apply is_Some_set_info. eauto.
Qed.

Ltac touch := repeat first
  [ progress (wp_simpl; cbv zeta) | eassumption
  | eapply wp_map_touched; [eassumption|]; intros ?i ?Hc
  | eapply wp_update_touched; [eassumption|done|]; intros ?w ?Hw
  | eapply wp_prev_touched; [eassumption|eassumption|]; intros ?o
  | match goal with |- context [GetInfo ?m] => pose proof (GetInfo_spec m); destruct (GetInfo m) end
  | case_goal ].

Lemma InitFileMemory_touched f w :
  touched k i w0 w -> wp size_overflow (InitFileMemoryFromPreviousReadOnlyMap os k f) (fun _ w' => touched k i w0 w') w.
Proof. intros Ht. unfold InitFileMemoryFromPreviousReadOnlyMap. touch. Qed.

Lemma whole_file_touched map_size f w :
  touched k i w0 w -> wp size_overflow (whole_file_memory os k map_size f) (fun _ w' => touched k i w0 w') w.
Proof.
  intros Ht. unfold whole_file_memory. wp_simpl. eapply wp_map_touched; [eassumption|]. intros i1 Hc.
  destruct (file_Init _ _ _ _ _) as [ok f1]. destruct (ok && _); [touch|].
  wp_simpl. eapply wp_mono; [by apply InitFileMemory_touched|done|]. intros [ok2 f2] w2 Hw2. touch.
Qed.

Lemma GetFileMemory_touched w :
  touched k i w0 w -> wp size_overflow (GetFileMemory os k) (fun _ w' => touched k i w0 w') w.
Proof.
  intros Ht. unfold GetFileMemory. wp_simpl. eapply wp_map_touched; [eassumption|]. intros i1 Hc. cbv zeta.
  destruct (_ =? _); [touch|]. destruct (file_Init _ _ _ _ _) as [ok f1]. destruct (negb ok); [touch|].
  wp_simpl. match goal with |- context [GetInfo ?m] => pose proof (GetInfo_spec m); destruct (GetInfo m) as [[size|]|] end;
    [touch|by apply whole_file_touched|done].
Qed.

Lemma process_backed_touched pm w :
  touched k i w0 w -> wp size_overflow (process_backed_memory k pm) (fun _ w' => touched k i w0 w') w.
Proof. intros Ht. unfold process_backed_memory. touch. Qed.

Lemma CreateMemory_touched pm : wp size_overflow (CreateMemory os k pm) (fun _ w' => touched k i w0 w') w0.
Proof.
  pose proof touched_refl as Ht. unfold CreateMemory. wp_simpl. eapply wp_map_touched; [eassumption|]. intros i1 Hc. cbv beta.
  destruct (_ <=? _); [done|]. rewrite wp_bind. eapply wp_update_touched; [eassumption|done|]. intros w1 Hw1.
  destruct (negb _); [done|]. rewrite wp_bind. eapply (wp_mono size_overflow _ _ (fun _ w' => touched k i w0 w')); [|done|].
  { destruct (bool_decide _); [done|by apply GetFileMemory_touched]. }
  intros [m|] w2 Hw2; [done|]. destruct pm as [pm|]; [by apply process_backed_touched|done].
Qed.
End Touched.

(** ** The object *)

(** The map [k], which was [i], has the object [e], which exists; a new one is of the architecture. *)
Record has_elf (k : Z) i w0 (arch : ArchEnum) (e : Z) w : Prop := {
  he_ok : objects_ok w;
  he_info : exists i', lookup_info w k = Some i' /\ map_elf i' = Some e /\ same_data i i';
  he_obj : exists obj, elfs w !! e = Some obj /\ (elfs w0 !! e = None -> valid_ obj = true -> arch_ obj = arch);
  he_dom : forall p, is_Some (lookup_info w0 p) -> is_Some (lookup_info w p)
}.

Lemma touched_ok k i w0 w : objects_ok w0 -> lookup_info w0 k = Some i -> touched k i w0 w -> objects_ok w.
Proof.
  intros Hobj Hi (i' & -> & (_ & _ & _ & _ & _ & He & _)). apply objects_ok_set; [done|]. rewrite He. intros e. by apply (oo_maps _ Hobj k i).
Qed.

Lemma wp_map_exists F k i (Q : MapInfo -> World -> Prop) w : lookup_info w k = Some i -> Q i w -> wp F (map_info k) Q w.
Proof. apply wp_map_info. Qed.

(** A map gets an object that the cache has. *)
Lemma set_elf_has k i w0 w arch e g i1 :
  objects_ok w -> same_data i i1 -> elfs w = elfs w0 -> (forall p, is_Some (lookup_info w0 p) -> is_Some (lookup_info w p)) -> is_Some (elfs w !! e) -> (forall j, map_elf (g j) = Some e /\ same_data j (g j)) ->
  has_elf k i w0 arch e (set_info k (g i1) w).
Proof.
  intros Hobj Hd Hel Hdom [obj He] Hg. destruct (Hg i1) as [Hge Hgd]. constructor.
  - apply objects_ok_set; [done|]. rewrite Hge. intros x [= <-]. eauto.
  - exists (g i1). rewrite lookup_set_info. split_and!; [done|done|by eapply same_data_trans].
  - exists obj. split; [done|]. rewrite <- Hel, He. done.
  - intros p Hp. by apply is_Some_set_info, Hdom.
Qed.

Lemma has_elf_cache k i w0 arch e w name b : has_elf k i w0 arch e w -> has_elf k i w0 arch e (put_cache (<[name := (e, b)]> (cache_ w)) w).
Proof.
  intros [[Hm Hc Hn] Hi (obj & He & Ho) Hdom]. constructor; [constructor|done|by exists obj|exact Hdom]; [exact Hm| |exact Hn].
  cbn [cache_ elfs put_cache]. intros n x b'. destruct (decide (name = n)) as [->|Hne]; [rewrite lookup_insert_eq; intros [= <- <-]; eauto|].
  rewrite lookup_insert_ne by done. apply Hc.
Qed.

Lemma CacheGet_spec k i w0 arch :
  objects_ok w0 -> lookup_info w0 k = Some i ->
  wp size_overflow (CacheGet k) (fun hit w' => if hit : bool then exists e, has_elf k i w0 arch e w' else w' = w0) w0.
Proof.
  intros Hobj Hi. unfold CacheGet. wp_simpl. eapply wp_map_info; [done|]. wp_simpl.
  destruct (cache_ w0 !! _) as [[e b]|] eqn:E; [|done]. wp_simpl. eapply wp_update_info; [done|]. wp_simpl. exists e.
  apply (set_elf_has k i w0 w0 arch e (fun j => let j := put_map_elf e j in if b then put_elf_offset (map_offset j) j else j) i); try done.
  - by apply (oo_cache _ Hobj _ e b E).
  - intros j. by destruct b.
Qed.

Lemma CacheAfter_spec k i w0 arch w :
  objects_ok w0 -> lookup_info w0 k = Some i -> touched k i w0 w ->
  wp size_overflow (CacheAfterCreateMemory k) (fun hit w' => if hit : bool then exists e, has_elf k i w0 arch e w' else w' = w) w.
Proof.
  intros Hobj Hi Ht. pose proof (touched_ok _ _ _ _ Hobj Hi Ht) as Hobj'. destruct Ht as (i1 & -> & Hc).
  unfold CacheAfterCreateMemory. wp_simpl. eapply wp_map_info; [apply lookup_set_info|]. destruct (_ || _ || _); [done|].
  rewrite wp_bind, wp_get. destruct (cache_ _ !! map_name i1) as [[e b]|] eqn:E; [|done].
  rewrite wp_bind. eapply wp_update_info; [apply lookup_set_info|]. wp_simpl. exists e. apply has_elf_cache.
  apply (set_elf_has k i w0 (set_info k i1 w0) arch e (put_map_elf e) i1); try done; [by apply same_core_data|intros p; apply is_Some_set_info|].
  by apply (oo_cache _ Hobj _ e b E).
Qed.

Lemma create_elf_spec k i w0 w m arch :
  objects_ok w0 -> lookup_info w0 k = Some i -> touched k i w0 w ->
  wp parse_fault (create_elf P k m arch) (fun e w' => has_elf k i w0 arch e w') w.
Proof.
  intros Hobj Hi Ht. pose proof (touched_ok _ _ _ _ Hobj Hi Ht) as [Hm Hc Hn]. destruct Ht as (i1 & -> & Hcore).
  unfold create_elf. rewrite wp_bind. unfold wp at 1, alloc_elf. set (e := next_elf (set_info k i1 w0)).
  assert (elfs w0 !! e = None) as Hfresh.
  { destruct (elfs w0 !! e) as [o|] eqn:E; [|done]. specialize (Hn e ltac:(eauto)). unfold e in Hn. lia. }
  rewrite wp_bind. eapply wp_update_info; [apply lookup_set_info|]. rewrite wp_bind. unfold wp at 1, on_elf.
  cbn [elfs set_info put_w_maps]. rewrite lookup_insert_eq. unfold bind at 1.
  destruct (Elf.Init P (new_Elf P m)) as [[ok obj]|f] eqn:Einit; [|right; by exists m]. rewrite bind_get.
  set (obj' := if valid_ obj && negb (bool_decide (arch = arch_ obj)) then Invalidate obj else obj).
  replace ((if valid_ obj && negb (bool_decide (arch = arch_ obj)) then modify Invalidate else ret tt) obj) with (Done (tt, obj')).
  2:{ unfold obj'. by destruct (_ && _). }
  assert (valid_ obj' = true -> arch_ obj' = arch) as Harch.
  { unfold obj'. destruct (valid_ obj) eqn:Ev; cbn; [|by rewrite Ev]. destruct (decide (arch = arch_ obj)) as [->|Hne].
    - by rewrite bool_decide_eq_true_2 by done.
    - by rewrite bool_decide_eq_false_2 by done. }
  clearbody obj'. clear Einit ok. cbv beta iota. rewrite wp_ret. constructor; [constructor|..].
  - intros k' j x. cbn [elfs put_elfs]. rewrite insert_insert_eq. destruct (decide (e = x)) as [<-|Hne]; [rewrite lookup_insert_eq; eauto|].
    rewrite lookup_insert_ne by done. intros Hj Hx. unfold lookup_info in Hj. cbn in Hj.
    destruct (decide (k = k')) as [<-|Hk]; [rewrite lookup_insert_eq in Hj; injection Hj as <-; by injection Hx|].
    rewrite !lookup_insert_ne in Hj by done. apply (oo_maps _ Hobj k' j x); done.
  - intros n x b. cbn [elfs put_elfs cache_ set_info put_w_maps]. intros Hx. specialize (Hc n x b Hx). rewrite insert_insert_eq.
    destruct (decide (e = x)) as [<-|Hne]; [rewrite lookup_insert_eq; eauto|]. by rewrite lookup_insert_ne.
  - intros x. cbn [elfs put_elfs next_elf set_info put_w_maps]. rewrite insert_insert_eq. destruct (decide (e = x)) as [<-|Hne]; [intros _; unfold e; cbn; lia|].
    rewrite lookup_insert_ne by done. intros Hx. specialize (Hn x Hx). unfold e. cbn in Hn |- *. lia.
  - exists (put_map_elf e i1). unfold lookup_info. cbn. rewrite lookup_insert_eq. split_and!; [done|done|]. by apply same_core_data in Hcore.
  - exists obj'. cbn. rewrite lookup_insert_eq. done.
  - intros p Hp. unfold lookup_info. cbn. rewrite insert_insert_eq. destruct (decide (k = p)) as [->|]; [rewrite lookup_insert_eq; eauto|].
    by rewrite lookup_insert_ne.
Qed.

Lemma CacheAdd_spec k i w0 arch e w :
  has_elf k i w0 arch e w -> wp size_overflow (CacheAdd k) (fun _ w' => has_elf k i w0 arch e w') w.
Proof.
  intros H. pose proof H as [_ (i' & Hi & He & _) _ _]. unfold CacheAdd. wp_simpl. eapply wp_map_info; [done|]. wp_simpl. rewrite He.
  destruct (_ || _), (negb _); wp_simpl; repeat apply has_elf_cache; done.
Qed.

Lemma share_spec k i w0 arch e w :
  info_ok w0 i -> has_elf k i w0 arch e w -> wp size_overflow (share_with_prev k e) (fun _ w' => has_elf k i w0 arch e w') w.
Proof.
  intros Hok H. pose proof H as [Hobj (i' & Hi & He & Hd) (obj & Ho & Ha) Hdom]. unfold share_with_prev. wp_simpl. eapply wp_map_info; [done|].
  pose proof Hd as (_ & _ & _ & _ & _ & Hp). rewrite Hp. destruct (prev_map i) as [p|] eqn:Ep; [|done].
  destruct (io_prev _ _ Hok p Ep) as (prev0 & Hp0 & _). destruct (Hdom p ltac:(eauto)) as [prev Hpi]. rewrite wp_bind. eapply wp_map_info; [done|]. destruct (_ && _) eqn:Ec; [|done].
  apply andb_prop in Ec as [_ Hnone%bool_decide_eq_true_1]. assert (k <> p) as Hne by (intros ->; congruence).
  eapply wp_update_info; [done|]. constructor.
  - apply objects_ok_set; [done|]. intros x [= <-]. eauto.
  - exists i'. by rewrite lookup_set_info_ne.
  - by exists obj.
  - intros q Hq. by apply is_Some_set_info, Hdom.
Qed.

Lemma has_elf_deref k i w0 arch e0 w :
  has_elf k i w0 arch e0 w ->
  wp parse_fault (info <- map_info k ;; some_or (Undef UbNull) (map_elf info)) (fun e w' => has_elf k i w0 arch e w') w.
Proof.
  intros H. pose proof H as [_ (i' & Hi & He & _) _ _]. wp_simpl. eapply wp_map_info; [done|]. wp_simpl. by rewrite He.
Qed.

Lemma GetElf_spec k i w0 pm arch :
  objects_ok w0 -> lookup_info w0 k = Some i -> info_ok w0 i ->
  wp parse_fault (GetElf os P k pm arch) (fun e w' => has_elf k i w0 arch e w') w0.
Proof.
  intros Hobj Hi Hok. unfold GetElf. rewrite wp_bind. eapply wp_map_info; [done|]. destruct (map_elf i) as [e|] eqn:Ei.
  { pose proof (oo_maps _ Hobj k i e Hi Ei) as [obj Ho]. constructor; [done|by exists i|exists obj; by rewrite Ho|done]. }
  rewrite wp_bind, wp_get. cbv zeta. set (locked := cache_enabled_ w0 && _). clearbody locked. rewrite wp_bind.
  eapply (wp_mono size_overflow _ _ (fun hit w' => if hit : bool then exists e, has_elf k i w0 arch e w' else w' = w0));
    [destruct locked; [by apply CacheGet_spec|done]|by left|].
  intros hit w1 H1. destruct hit; [destruct H1 as [e H1]; by eapply has_elf_deref|]. subst w1.
  rewrite wp_bind. eapply wp_mono; [by apply (CreateMemory_touched k i w0)|by left|]. intros m w1 H1. cbv beta. rewrite wp_bind.
  eapply (wp_mono size_overflow _ _ (fun hit w' => if hit : bool then exists e, has_elf k i w0 arch e w' else w' = w1));
    [destruct locked; [by apply CacheAfter_spec|done]|by left|].
  intros hit w2 H2. destruct hit; [destruct H2 as [e H2]; by eapply has_elf_deref|]. subst w2.
  rewrite wp_bind. eapply wp_mono; [by apply create_elf_spec|done|]. intros e w2 H2. cbv beta. rewrite wp_bind.
  eapply (wp_mono size_overflow _ _ (fun _ w' => has_elf k i w0 arch e w')); [destruct locked; [by apply CacheAdd_spec|done]|by left|].
  intros _ w3 H3. rewrite wp_bind. eapply wp_mono; [by apply share_spec|by left|]. done.
Qed.
End Objects.

(** * Theorems *)

(** C15. [GetElf] never returns null: unless an ELF header makes the reader of the header fail, the
    map has the returned object afterwards, which exists; a new object is invalid or of the expected
    architecture, the other members of the map are as before, and a second call returns the same object and changes
    nothing. The invariant of the state is preserved. *)
Theorem map_get_elf os P k i w process_memory arch
  (Hobj : objects_ok w) (Hi : lookup_info w k = Some i) (Hok : info_ok w i) :
  match GetElf os P k process_memory arch w with
  | Fault f => parse_fault P f
  | Done (e, w') =>
      objects_ok w' /\ (forall pm' arch', GetElf os P k pm' arch' w' = Done (e, w')) /\
      exists i' obj, lookup_info w' k = Some i' /\ same_data i i' /\ map_elf i' = Some e /\ elfs w' !! e = Some obj /\
        (elfs w !! e = None -> valid_ obj = true -> arch_ obj = arch)
  end.
Proof.
  pose proof (GetElf_spec os P k i w process_memory arch Hobj Hi Hok) as H. unfold wp in H.
  destruct (GetElf os P k process_memory arch w) as [[e w']|f]; [|done]. destruct H as [Hobj' (i' & Hi' & He & Hd) (obj & Ho & Ha) _].
  split; [done|]. split; [|by exists i', obj]. intros pm' arch'. unfold GetElf.
  assert (map_info k w' = Done (i', w')) as Hrun.
  { pose proof (wp_map_info (fun _ => False) k i' (fun j v => j = i' /\ v = w') w' Hi' ltac:(done)) as Hw. unfold wp in Hw.
    destruct (map_info k w') as [[j v]|]; [by destruct Hw as [-> ->]|done]. }
  rewrite (bind_run _ _ _ _ _ Hrun), He. done.
Qed.

Lemma map_get_elf_witness :
  match GetElf no_files (mkParams 64 (fun _ => []) (fun l => l) 0 (mkUnpacker unit tt (fun _ _ _ => (tt, [], 0, false, false)) (fun _ => false)))
    1 (Some split_process) ARCH_X86_64 split_world with
  | Fault _ => False
  | Done (e, w') => exists i', lookup_info w' 1 = Some i' /\ map_elf i' = Some e
  end.
Proof.
  set (P := mkParams _ _ _ _ _).
  assert (objects_ok split_world) as Hobj.
  { split; [intros k i x Hk Hx|intros n x b Hn; discriminate Hn|intros x [? Hx]; discriminate Hx].
    unfold lookup_info in Hk. cbn in Hk. destruct (decide (k = 0)) as [->|]; [injection Hk as <-; discriminate Hx|].
    rewrite lookup_insert_ne in Hk by done. destruct (decide (k = 1)) as [->|]; [injection Hk as <-; discriminate Hx|].
    rewrite lookup_insert_ne in Hk by done. discriminate Hk. }
  assert (info_ok split_world (new_MapInfo (Some 0) 0x2000 0x3000 0x1000 5 [x61])) as Hok.
  { split; [done..|]. intros p [= <-]. by eexists. }
  pose proof (map_get_elf no_files P 1 (new_MapInfo (Some 0) 0x2000 0x3000 0x1000 5 [x61]) split_world (Some split_process) ARCH_X86_64
    Hobj eq_refl Hok) as H.
  destruct (GetElf no_files P 1 (Some split_process) ARCH_X86_64 split_world) as [[e w']|f] eqn:E.
  - clear E. destruct H as (_ & _ & i' & obj & Hi & _ & He & _). exists i'. exact (conj Hi He).
  - apply (f_equal (fun r => match r with Done _ => true | Fault _ => false end)) in E. vm_compute in E. discriminate E.
Defined.

(** When the object of a map starts before the map's offset, or is the whole file, the cache is asked for the
    name of the file alone: if it has any object of this file, the map gets that one, whatever
    memory was found for it. *)
Theorem map_cache_confuses_objects os P k i w process_memory arch e b m w1 i1
  (Hi : lookup_info w k = Some i) (Hok : info_ok w i) (Hnone : map_elf i = None)
  (Hcaching : cache_enabled_ w = true) (Hname : map_name i <> []) (Hoff : map_offset i <> 0)
  (Hmiss : cache_ w !! offset_name i = None) (Hhit : cache_ w !! map_name i = Some (e, b))
  (Hmem : CreateMemory os k process_memory w = Done (m, w1)) (Hi1 : lookup_info w1 k = Some i1) (Hstart : elf_offset i1 <> 0) :
  exists w', GetElf os P k process_memory arch w = Done (e, w') /\ lookup_info w' k = Some (put_map_elf e i1) /\
    elfs w' = elfs w /\ cache_ w' = <[offset_name i := (e, true)]> (cache_ w).
Proof.
  pose proof (CreateMemory_touched os k i w Hi Hok process_memory) as Ht. unfold wp in Ht. rewrite Hmem in Ht.
  destruct Ht as (i1' & -> & Hc). rewrite lookup_set_info in Hi1. injection Hi1 as ->. pose proof Hc as (_ & _ & Ho & _ & Hn & _).
  assert (forall j v, lookup_info v k = Some j -> map_info k v = Done (j, v)) as Hrun.
  { intros j v Hj. pose proof (wp_map_info (fun _ => False) k j (fun j' v' => j' = j /\ v' = v) v Hj ltac:(done)) as Hw. unfold wp in Hw.
    destruct (map_info k v) as [[j' v']|]; [by destruct Hw as [-> ->]|done]. }
  assert (offset_name i1 = offset_name i) as Hon by (unfold offset_name; by rewrite Ho, Hn).
  unfold GetElf. rewrite (bind_run _ _ _ _ _ (Hrun i w Hi)), Hnone, bind_get, Hcaching, bool_decide_eq_false_2 by done. cbn [negb andb].
  assert (CacheGet k w = Done (false, w)) as Hget.
  { unfold CacheGet. rewrite (bind_run _ _ _ _ _ (Hrun i w Hi)), bind_get, (proj2 (Z.eqb_neq _ _)) by done. cbn [negb]. by rewrite Hmiss. }
  rewrite (bind_run _ _ _ _ _ Hget). cbv iota. rewrite (bind_run _ _ _ _ _ Hmem).
  set (w2 := put_cache (<[offset_name i := (e, true)]> (cache_ w)) (set_info k (put_map_elf e i1) w)).
  assert (CacheAfterCreateMemory k (set_info k i1 w) = Done (true, w2)) as Hafter.
  { unfold CacheAfterCreateMemory. rewrite (bind_run _ _ _ _ _ (Hrun i1 _ (lookup_set_info k i1 w))).
    rewrite Hn, Ho, bool_decide_eq_false_2, (proj2 (Z.eqb_neq (map_offset i) 0) Hoff), (proj2 (Z.eqb_neq _ _) Hstart) by done.
    cbn [orb]. rewrite bind_get.
    change (cache_ (set_info k i1 w)) with (cache_ w). rewrite Hhit, Hon. unfold update_info.
    rewrite (bind_run _ _ tt _ (set_info k (put_map_elf e i1) w)); [done|].
    rewrite (bind_run _ _ _ _ _ (Hrun i1 _ (lookup_set_info k i1 w))). exact (f_equal (fun v => Done (tt, v)) (set_info_set k i1 (put_map_elf e i1) w)). }
  rewrite (bind_run _ _ _ _ _ Hafter). cbv iota.
  assert (lookup_info w2 k = Some (put_map_elf e i1)) as Hi2 by apply (lookup_set_info k (put_map_elf e i1) w).
  rewrite (bind_run _ _ _ _ _ (Hrun _ _ Hi2)). exists w2. done.
Qed.

(** Two objects in one file: each has a read-only map with its header and an executable map behind it. The first is for
    x86-64, the second for arm64. *)
Definition two_objects : list byte :=
  let header machine := ELFMAG ++ [x02] ++ replicate 13 x00 ++ le_bytes 2 machine ++ replicate 20 x00 ++
    le_bytes 8 0x2000 ++ replicate 10 x00 ++ le_bytes 2 0 ++ le_bytes 2 1 ++ replicate 2 x00 in
  replicate 0x1000 x00 ++ header EM_X86_64 ++ replicate (0x2000 - 64) x00 ++ header EM_AARCH64 ++ replicate (0x2000 - 64) x00.
Definition two_objects_system : system := mkSystem 4096 (fun name => if decide (name = [x61]) then Some two_objects else None) (fun _ _ _ => true).
Definition two_objects_world : World :=
  mkWorld (mkMaps (<[0 := new_MapInfo None 0x11000 0x12000 0x1000 1 [x61]]> (<[1 := new_MapInfo (Some 0) 0x12000 0x13000 0x2000 5 [x61]]>
                     (<[2 := new_MapInfo (Some 1) 0x13000 0x14000 0x3000 1 [x61]]> (<[3 := new_MapInfo (Some 2) 0x14000 0x15000 0x4000 5 [x61]]> ∅))))
             4 [Some 0; Some 1; Some 2; Some 3] []) ∅ 0 true ∅.
Definition small_params : params :=
  mkParams 64 (fun _ => []) (fun l => l) 0 (mkUnpacker unit tt (fun _ _ _ => (tt, [], 0, false, false)) (fun _ => false)).

(** The machines of the objects of the two executable maps. *)
Definition object_machines (w : World) : option (option Z * option Z) :=
  match (e1 <- GetElf two_objects_system small_params 1 None ARCH_X86_64 ;;
         e3 <- GetElf two_objects_system small_params 3 None ARCH_ARM64 ;; ret (e1, e3)) w with
  | Done ((e1, e3), w) => Some (machine_type_ <$> elfs w !! e1, machine_type_ <$> elfs w !! e3)
  | Fault _ => None
  end.

Example cached_machines : object_machines two_objects_world = Some (Some EM_X86_64, Some EM_X86_64).
Proof. vm_compute. reflexivity. Qed.
Example uncached_machines : object_machines (SetCachingEnabled false two_objects_world) = Some (Some EM_X86_64, Some EM_AARCH64).
Proof. vm_compute. reflexivity. Qed.

Lemma map_cache_confuses_objects_witness :
  let w := put_cache (<[[x61] := (7, true)]> ∅) two_objects_world in
  exists w', GetElf two_objects_system small_params 3 None ARCH_ARM64 w = Done (7, w').
Proof.
  intros w. assert (info_ok w (new_MapInfo (Some 2) 0x14000 0x15000 0x4000 5 [x61])) as Hok.
  { split; [done..|]. intros p [= <-]. by eexists. }
  destruct (CreateMemory two_objects_system 3 None w) as [[m w1]|f] eqn:E.
  - destruct (lookup_info w1 3) as [i1|] eqn:Ei.
    + destruct (map_cache_confuses_objects two_objects_system small_params 3 (new_MapInfo (Some 2) 0x14000 0x15000 0x4000 5 [x61]) w None
        ARCH_ARM64 7 true m w1 i1) as (w' & Hw' & _); [..|by exists w'].
      * vm_compute. reflexivity.
      * exact Hok.
      * reflexivity.
      * reflexivity.
      * discriminate.
      * discriminate.
      * vm_compute. reflexivity.
      * vm_compute. reflexivity.
      * exact E.
      * exact Ei.
      * apply (f_equal (fun r => match r with Done (_, w) => elf_offset <$> lookup_info w 3 | Fault _ => None end)) in E.
        assert ((elf_offset <$> lookup_info w1 3) = Some 0x1000) as Hv by (etransitivity; [symmetry; exact E|vm_compute; reflexivity]).
        rewrite Ei in Hv. cbn in Hv. clear E. intros H0. rewrite H0 in Hv. discriminate Hv.
    + apply (f_equal (fun r => match r with Done (_, w) => elf_offset <$> lookup_info w 3 | Fault _ => None end)) in E. rewrite Ei in E.
      vm_compute in E. discriminate E.
  - apply (f_equal (fun r => match r with Done _ => true | Fault _ => false end)) in E. vm_compute in E. discriminate E.
Defined.
