(* ===== verification/ElfObject.v ===== *)
(** The states of an ELF object: what holds after any sequence of requests. *)
From Stdlib Require Import ZArith Lia Bool Strings.Byte.
From stdpp Require Import base numbers list gmap.
From S2P Require Import Prelude Memory DwarfMemory DwarfStructs Regs ElfTypes Symbols ElfInterface ElfInterfaceArm RegsArch Elf.
#[local] Open Scope Z_scope.

(** * The invariant *)

(** A valid object has an interface and an architecture; an interface that was told of debug data
    finds them. *)
Record elf_wf (e : Elf) : Prop := {
  ew_interface : valid_ e = true -> is_Some (interface_ e) /\ arch_ e <> ARCH_UNKNOWN;
  ew_gnu : gnu_set_ e = true -> is_Some (gnu_debugdata_interface_ e)
}.

Section Object.
Context (P : params).
Implicit Types (e : Elf).

Definition any_outcome (_ : fault) : Prop := True.

Lemma wp_on_iface {B} (m : AI B) (Q : B -> Elf -> Prop) e :
  (forall r i, Q r (put_interface (Some i) e)) -> wp any_outcome (on_iface m) Q e.
Proof.
  intros HQ. unfold wp, on_iface, on_pointee. destruct (interface_ e) as [i|]; [|done]. destruct (m i) as [[r i']|f]; [apply HQ|done].
Qed.

Lemma wp_on_gnu_iface {B} (m : AI B) (Q : B -> Elf -> Prop) e :
  (forall r i, Q r (put_gnu (gnu_debugdata_memory_ e) (Some i) e)) -> wp any_outcome (on_gnu_iface m) Q e.
Proof.
  intros HQ. unfold wp, on_gnu_iface, on_pointee. destruct (gnu_debugdata_interface_ e) as [i|]; [|done].
  destruct (m i) as [[r i']|f]; [apply HQ|done].
Qed.

Lemma wf_put_interface i e : elf_wf e -> elf_wf (put_interface (Some i) e).
Proof. intros [Hi Hg]. split; cbn; [|done]. intros Hv. split; [eauto|]. by apply Hi. Qed.

Lemma wf_put_gnu m i e : elf_wf e -> elf_wf (put_gnu m (Some i) e).
Proof. intros [Hi Hg]. split; cbn; [done|eauto]. Qed.

(** [CreateInterfaceFromMemory] changes the types and the architecture; it knows the architecture of
    what it returns. *)
Definition same_but_machine e e' : Prop :=
  valid_ e' = valid_ e /\ load_bias_ e' = load_bias_ e /\ interface_ e' = interface_ e /\ elf_memory e' = elf_memory e /\
  gnu_debugdata_interface_ e' = gnu_debugdata_interface_ e /\ gnu_debugdata_memory_ e' = gnu_debugdata_memory_ e /\ gnu_set_ e' = gnu_set_ e.

Lemma CreateInterface_spec m e :
  wp any_outcome (CreateInterfaceFromMemory m)
    (fun r e' => same_but_machine e e' /\ (is_Some r \/ arch_ e <> ARCH_UNKNOWN -> arch_ e' <> ARCH_UNKNOWN)) e.
Proof.
  unfold CreateInterfaceFromMemory.
  destruct m as [mem|]; [|split; [done|intros [[? ?]|?]; done]].
  repeat first [progress (wp_simpl; cbv zeta) | case_goal]; (split; [done|]); intros [[? ?]|?]; done.
Qed.

Lemma InitGnuDebugdata_spec e :
  elf_wf e -> gnu_set_ e = false ->
  wp any_outcome (InitGnuDebugdata P)
    (fun _ e' => elf_wf e' /\ valid_ e' = valid_ e /\ load_bias_ e' = load_bias_ e /\ elf_memory e' = elf_memory e) e.
Proof.
  intros Hwf Hset. unfold InitGnuDebugdata. wp_simpl. destruct (valid_ e) eqn:Ev; cbn [negb]; [|done].
  destruct (interface_ e) as [i|] eqn:Ei; [|done]. destruct (_ =? 0); [done|].
  rewrite wp_bind. apply wp_on_iface. intros buffer i1. wp_simpl.
  eapply wp_mono; [apply CreateInterface_spec|done|]. intros gnu e1 [(Hv & Hb & Hi & Hm & _ & _ & Hs) Ha]. cbn in Hv, Hb, Hi, Hm, Hs, Ha.
  destruct Hwf as [Hw _]. destruct (Hw Ev) as [_ Harch]. specialize (Ha (or_intror Harch)).
  assert (forall e', valid_ e' = valid_ e1 -> interface_ e' = interface_ e1 -> arch_ e' = arch_ e1 ->
    (gnu_set_ e' = true -> is_Some (gnu_debugdata_interface_ e')) -> elf_wf e') as Hend.
  { intros e' Hv' Hi' Ha' Hg'. split; [|done]. intros _. rewrite Hi', Ha', Hi. eauto. }
  assert (forall g, elf_wf (put_gnu buffer g e1)) as Hnone by (intros g; apply Hend; [done..|cbn; by rewrite Hs, Hset]).
  wp_simpl. rewrite Ev in Hv. destruct gnu as [g|]; [|split; [apply Hnone|by cbn; rewrite Hv]].
  rewrite wp_bind. apply wp_on_gnu_iface. intros ok g1. destruct ok as [bias|].
  - rewrite wp_bind. apply wp_on_gnu_iface. intros _ g2. wp_simpl. split; [apply Hend; cbn; eauto|]. by cbn; rewrite Hv.
  - wp_simpl. split; [apply Hend; [done..|cbn; by rewrite Hs, Hset]|]. by cbn; rewrite Hv.
Qed.

Lemma Init_spec m : wp any_outcome (Elf.Init P) (fun ok e => elf_wf e /\ valid_ e = ok /\ elf_memory e = m) (new_Elf P m).
Proof.
  unfold Elf.Init. wp_simpl. cbn. destruct m as [mem|]; [|done]. rewrite wp_bind.
  eapply wp_mono; [apply CreateInterface_spec|done|]. intros i e [(Hv & Hb & Hi & Hm & _ & _ & Hs) Ha]. cbn in Hv, Hb, Hi, Hm, Hs, Ha.
  wp_simpl. destruct i as [i|]; [|split; [split; cbn; [by rewrite Hv|done]|by cbn]].
  rewrite wp_bind. apply wp_on_iface. intros ok i1. destruct ok as [bias|]; [|wp_simpl; split; [split; cbn; done|done]].
  wp_simpl. apply wp_on_iface. intros _ i2. wp_simpl. eapply wp_mono; [apply InitGnuDebugdata_spec|done|]; [|done|].
  - split; cbn; [|done]. intros _. split; eauto.
  - intros _ e' (Hwf & Hv' & _ & Hm'). wp_simpl. split; [done|]. by rewrite Hv', Hm'.
Qed.

(** * Requests *)

Inductive request : Type :=
| GetsSoname
| GetsFunctionName (addr : Z)
| GetsGlobalVariable (name : list byte)
| GetsBuildID
| GetsLastError (data : ErrorData)
| ChecksPc (pc : Z)
| Steps (rel_pc : Z) (regs : Regs) (process_memory : Memory)
| StepsSignal (arch : ArchEnum) (rel_pc : Z) (regs : Regs) (process_memory : Memory)
| Invalidates.

Definition run_request (q : request) : ME unit :=
  match q with
  | GetsSoname => GetSoname P ;; ret tt
  | GetsFunctionName a => GetFunctionName P a ;; ret tt
  | GetsGlobalVariable name => elf_GetGlobalVariable P name ;; ret tt
  | GetsBuildID => elf_GetBuildID P ;; ret tt
  | GetsLastError data => GetLastError data ;; ret tt
  | ChecksPc pc => elf_IsValidPc P pc ;; ret tt
  | Steps rel_pc regs m => Step P rel_pc regs m false ;; ret tt
  | StepsSignal arch rel_pc regs m => elf_StepIfSignalHandler arch rel_pc regs m ;; ret tt
  | Invalidates => modify Invalidate
  end.

Inductive requests e : list request -> Elf -> Prop :=
| requests_nil : requests e [] e
| requests_snoc qs q e1 e2 : requests e qs e1 -> run_request q e1 = Done (tt, e2) -> requests e (qs ++ [q]) e2.

(** A request keeps the invariant, the memory and the load bias. *)
Definition kept e e' : Prop :=
  elf_wf e' /\ elf_memory e' = elf_memory e /\ load_bias_ e' = load_bias_ e /\ arch_ e' = arch_ e /\ (valid_ e' = true -> valid_ e = true).

Ltac request := repeat first
  [ progress (wp_simpl; cbv zeta) | done
  | apply wp_on_iface; intros ?r ?i | apply wp_on_gnu_iface; intros ?r ?i | case_goal ];
  try (split; [eauto using wf_put_interface, wf_put_gnu|done]).

Lemma request_kept q e : elf_wf e -> wp any_outcome (run_request q) (fun _ e' => kept e e') e.
Proof.
  intros Hwf. assert (kept e e) as Hsame by (split; [done|done]).
  destruct q; unfold run_request, GetSoname, GetFunctionName, elf_GetGlobalVariable, elf_GetBuildID, GetLastError, elf_IsValidPc,
    elf_StepIfSignalHandler; [request..| | |].
  - unfold wp, bind, Step, ret. destruct (negb _); [done|]. destruct (interface_ e) as [i|]; [|done]. destruct (gnu_set_ e).
    + destruct (gnu_debugdata_interface_ e) as [g|]; [|done]. destruct (interface_Step _ _ _ _ _ _ _) as [[r [i' g']]|f]; [|done].
      split; [by apply wf_put_gnu, wf_put_interface|done].
    + destruct (interface_Step _ _ _ _ _ _ _) as [[r [i' g']]|f]; [|done]. split; [by apply wf_put_interface|done].
  - wp_simpl. destruct (negb _); [done|]. by destruct (RegsArch.StepIfSignalHandler _ _ _ _ _).
  - wp_simpl. split; [split; cbn; done|]. done.
Qed.

Lemma request_invalid q e : valid_ e = false -> exists e', run_request q e = Done (tt, e').
Proof.
  intros Hv. destruct q; unfold run_request, GetSoname, GetFunctionName, elf_GetGlobalVariable, elf_GetBuildID, GetLastError, elf_IsValidPc,
    elf_StepIfSignalHandler, Step, bind, get, ret, modify; rewrite ?Hv; cbn; eauto.
Qed.
End Object.

(** * Theorems *)

(** C34. After any sequence of requests an ELF object is well formed: if it is valid it has an
    interface and an architecture, and debug data that its interface knows of exist. Its memory,
    load bias and architecture are those that [Init] found, it is only valid if [Init] succeeded, and an invalid object
    answers every request. *)
Theorem elf_requests_wf P m ok e0 qs e
  (Hinit : Elf.Init P (new_Elf P m) = Done (ok, e0)) (Hreq : requests P e0 qs e) :
  elf_wf e /\ elf_memory e = m /\ load_bias_ e = load_bias_ e0 /\ arch_ e = arch_ e0 /\ (valid_ e = true -> ok = true) /\
  (valid_ e = false -> forall q, exists e', run_request P q e = Done (tt, e')).
Proof.
  pose proof (Init_spec P m) as H0. unfold wp in H0. rewrite Hinit in H0. destruct H0 as (Hwf & Hok & Hm).
  induction Hreq as [|qs q e1 e2 _ IH Hq].
  - split_and!; try done; [by rewrite Hok|]. intros Hv q. by apply request_invalid.
  - destruct IH as (Hwf1 & Hm1 & Hb1 & Ha1 & Hv1 & _). pose proof (request_kept P q e1 Hwf1) as H. unfold wp in H. rewrite Hq in H.
    destruct H as (Hwf2 & Hm2 & Hb2 & Ha2 & Hv2). split_and!; [done|congruence|congruence|congruence|auto|].
    intros Hv q'. by apply request_invalid.
Qed.

(** An object with a header only. *)
Definition header_only : Memory :=
  MemoryBuffer.memory (MemoryBuffer.mk (ELFMAG ++ [x02] ++ replicate 13 x00 ++ le_bytes 2 EM_X86_64 ++ replicate 44 x00)).

Lemma elf_requests_wf_witness :
  let P := mkParams 64 (fun _ => []) (fun l => l) 0 (mkUnpacker unit tt (fun _ _ _ => (tt, [], 0, false, false)) (fun _ => false)) in
  exists ok e0 e, Elf.Init P (new_Elf P (Some header_only)) = Done (ok, e0) /\ requests P e0 [Invalidates] e /\ elf_wf e /\ valid_ e = false.
Proof.
  intros P. destruct (Elf.Init P (new_Elf P (Some header_only))) as [[ok e0]|f] eqn:E.
  - assert (requests P e0 [Invalidates] (Invalidate e0)) as Hreq by apply (requests_snoc P e0 [] Invalidates e0 _ (requests_nil P e0) eq_refl).
    exists ok, e0, (Invalidate e0). destruct (elf_requests_wf P (Some header_only) ok e0 [Invalidates] (Invalidate e0) E Hreq) as [Hwf _].
    clear E. exact (conj eq_refl (conj Hreq (conj Hwf eq_refl))).
  - exfalso. apply (f_equal (fun r => match r with Done _ => true | Fault _ => false end)) in E. vm_compute in E. discriminate E.
Defined.
