(* ===== verification/ElfFresh.v ===== *)
(** What [Elf::Init] leaves: the sections of the object have read nothing yet, over its memory and with its load
    bias. This is the state from which [UnwinderChain] unwinds, so that only the bytes of the sections are left
    to be described. *)
From Stdlib Require Import ZArith Lia Bool Strings.Byte.
From stdpp Require Import base numbers list gmap.
From S2P Require Import Prelude Memory DwarfMemory DwarfEncode DwarfStructs Regs DwarfCfaTable DwarfCfa DwarfCfaRows DwarfSection DwarfSectionEntries DwarfSectionEval DwarfSectionStep DwarfFrames DwarfSectionScan.
From S2P Require Import DwarfEhFrameWithHdr DwarfEhFrameSearch DwarfEhFrameStep ElfTypes ElfInterface ElfInterfaceArm RegsArch Elf ElfSteps UnwinderChain ElfObject.
#[local] Open Scope Z_scope.

(** A section of an object with this memory and load bias, before its first step. *)
Definition fresh_any (m : Memory) (bias : Z) (s : any_section) : Prop :=
  memory_ (sec_memory (any_base s)) = m /\ DwarfSection.load_bias_ (any_base s) = bias /\
  match s with PlainSection _ b => fresh_section b | HdrSection h => fresh_caches h /\ fde_info_ h = ∅ end.

(** * Sections *)

Lemma init_plain_fresh kind m offset size bias s :
  init_plain_section kind m offset size bias = Done (Some s) -> (exists b, s = PlainSection kind b) /\ fresh_any m bias s.
Proof. unfold init_plain_section. cbn. intros [= <-]. split; [by eexists|]. by repeat split. Qed.

Section Hdr.
Context (A : addr_type) (m : Memory) (offset bias : Z).

(** The state of the header section while [Init] reads. *)
Definition reading (h : DwarfEhFrameWithHdr) : Prop :=
  let b := hdr_base h in
  memory_ (sec_memory b) = m /\ DwarfSection.load_bias_ b = bias /\ data_offset_ (sec_memory b) = offset /\
  fde_entries_ b = ∅ /\ cie_entries_ b = ∅ /\ sec_cie_loc_regs b = ∅ /\ loc_regs_ b = [] /\ fde_info_ h = ∅.

Lemma wp_hdr_read {B} (r : DM (option B)) (Q : option B -> DwarfEhFrameWithHdr -> Prop) h :
  reading h -> (forall d, wp any_outcome r (fun _ d' => same_bases d d') d) ->
  (forall h', Q None h') -> (forall b h', reading h' -> Q (Some b) h') ->
  wp any_outcome (on_hdr_base (sec_read r)) Q h.
Proof.
  intros Hh Hr Hnone Hk. unfold on_hdr_base, sec_read, on_sec_memory. wp_simpl. specialize (Hr (sec_memory (hdr_base h))).
  unfold wp at 1 in Hr. unfold wp at 1. destruct (r (sec_memory (hdr_base h))) as [[o d]|f]; [|done]. destruct Hr as (E1 & _ & E2 & _).
  destruct o as [b|]; [|unfold sec_memory_invalid, on_sec_memory; wp_simpl; by apply Hnone].
  wp_simpl. apply Hk. destruct Hh as (?&?&?&?&?&?&?&?). unfold reading. cbn. split_and!; congruence.
Qed.

Lemma wp_hdr_cur (Q : Z -> DwarfEhFrameWithHdr -> Prop) h :
  Q (cur_offset_ (sec_memory (hdr_base h))) h -> wp any_outcome (on_hdr_memory cur_offset) Q h.
Proof. unfold on_hdr_memory, on_hdr_base, on_sec_memory, cur_offset. wp_simpl. by destruct h as [[]]. Qed.

Lemma wp_hdr_set_pc x (Q : unit -> DwarfEhFrameWithHdr -> Prop) h :
  reading h -> (forall h', reading h' -> Q tt h') -> wp any_outcome (on_hdr_memory (set_pc_offset x)) Q h.
Proof. intros Hh HQ. unfold on_hdr_memory, on_hdr_base, on_sec_memory, set_pc_offset. wp_simpl. apply HQ. exact Hh. Qed.

Lemma wp_read_any {B} (r : DM (option B)) (F : fault -> Prop) (P : option B -> DwarfMemory -> Prop) d :
  wp F r P d -> (forall o d', P o d' -> same_bases d d') -> wp any_outcome r (fun _ d' => same_bases d d') d.
Proof. intros Hr HP. by eapply wp_mono; [exact Hr|done|]. Qed.

Lemma hdr_Init_fresh size h :
  memory_ (sec_memory (hdr_base h)) = m -> fde_entries_ (hdr_base h) = ∅ -> cie_entries_ (hdr_base h) = ∅ ->
  sec_cie_loc_regs (hdr_base h) = ∅ -> loc_regs_ (hdr_base h) = [] -> fde_info_ h = ∅ ->
  wp any_outcome (DwarfEhFrameWithHdr.Init A offset size bias)
    (fun r h' => r = Some tt -> fresh_any m bias (HdrSection h')) h.
Proof.
  intros E1 E2 E3 E4 E5 E6. unfold DwarfEhFrameWithHdr.Init. unfold on_hdr_base at 1. wp_simpl.
  set (h1 := put_hdr_base _ h). assert (reading h1) as H1 by by split_and!. clearbody h1. clear h E1 E2 E3 E4 E5 E6.
  assert (forall e d, wp any_outcome (ReadEncodedValue A e) (fun _ d' => same_bases d d') d) as Hread
    by (intros e d; eapply wp_read_any; [apply ReadEncodedValue_post|by intros o d' [? _]]).
  apply wp_hdr_read; [done| |done|].
  { intros d. unfold ReadBytes. wp_simpl. destruct (ReadFully _ _ _); wp_simpl; [apply same_bases_cur|done]. }
  intros data h2 H2. cbv zeta. wp_simpl.
  destruct (negb _); [unfold on_hdr_base, sec_code; by wp_simpl|]. wp_simpl.
  destruct (_ =? 0); [unfold on_hdr_base, sec_code; by wp_simpl|].
  wp_simpl. apply wp_hdr_cur. wp_simpl. apply wp_hdr_set_pc; [exact H2|]. intros h3 H3. wp_simpl.
  apply wp_hdr_read; [done|done|done|]. intros ptr h4 H4. wp_simpl.
  apply wp_hdr_cur. wp_simpl. apply wp_hdr_set_pc; [exact H4|]. intros h5 H5. wp_simpl.
  apply wp_hdr_read; [done|done|done|]. intros count h6 H6. wp_simpl.
  destruct (count =? 0); [unfold on_hdr_base, sec_code; by wp_simpl|].
  wp_simpl. apply wp_hdr_cur. unfold on_hdr_base. wp_simpl. intros _.
  destruct H6 as (?&?&?&?&?&?&?&?). split; [done|]. split; [done|]. split; [|done]. by split_and!.
Qed.
End Hdr.

Lemma init_hdr_fresh A u m offset size bias s :
  init_hdr_section A u m offset size bias = Done (Some s) -> fresh_any m bias s.
Proof.
  unfold init_hdr_section. pose proof (hdr_Init_fresh A m offset bias size (new_hdr m u u u u u u u) eq_refl eq_refl eq_refl eq_refl eq_refl eq_refl) as H.
  unfold wp in H. destruct (DwarfEhFrameWithHdr.Init A offset size bias _) as [[[[]|] h]|f]; intros [= <-]. by apply H.
Qed.

(** * The interface *)

(** The headers change neither the memory nor the sections. *)
Definition keeps_sections (e e' : ElfInterface) : Prop :=
  ei_memory e' = ei_memory e /\ debug_frame_ e' = debug_frame_ e /\ eh_frame_ e' = eh_frame_ e.

#[local] Instance keeps_sections_preorder : PreOrder keeps_sections.
Proof. split; [by intros e|]. intros e1 e2 e3 (E1 & E2 & E3) (F1 & F2 & F3). split_and!; congruence. Qed.

Lemma wp_keeps_trans {B} (m : EI B) e0 e :
  wp any_outcome m (fun _ e' => keeps_sections e e') e -> keeps_sections e0 e -> wp any_outcome m (fun _ e' => keeps_sections e0 e') e.
Proof. intros Hm Hk. eapply wp_mono; [exact Hm|done|]. intros r e' He'. by etransitivity. Qed.

Section Headers.
Context (A : addr_type).

Lemma read_section_header_sections ehdr off size shdr e :
  wp any_outcome (read_section_header A ehdr off size shdr) (fun _ e' => keeps_sections e e') e.
Proof. unfold read_section_header. wp_simpl. repeat (case_goal; wp_simpl; try done). Qed.

Lemma section_headers_loop_sections n ehdr o off size e :
  wp any_outcome (section_headers_loop A n ehdr o off size) (fun _ e' => keeps_sections e e') e.
Proof.
  revert o e. induction n as [|n IH]; intros o e; [done|]. cbn [section_headers_loop]. wp_simpl.
  destruct (read_shdr A (ei_memory e) o) as [shdr|]; [|done]. wp_simpl.
  eapply wp_mono; [apply read_section_header_sections|done|]. intros r e1 H1. by apply wp_keeps_trans; [apply IH|].
Qed.

Lemma ReadSectionHeaders_sections ehdr e :
  wp any_outcome (ReadSectionHeaders A ehdr) (fun _ e' => keeps_sections e e') e.
Proof.
  unfold ReadSectionHeaders, section_names. wp_simpl.
  destruct (e_shstrndx ehdr <? e_shnum ehdr); wp_simpl; [|apply section_headers_loop_sections].
  unfold mul16. destruct (_ <=? _); wp_simpl; [done|]. destruct (read_shdr _ _ _); wp_simpl; apply section_headers_loop_sections.
Qed.

Lemma program_headers_loop_sections n o entsize bias e :
  wp any_outcome (program_headers_loop A (fun e => e) (fun b _ => b) (fun _ _ _ => ret tt) n o entsize bias)
    (fun _ e' => keeps_sections e e') e.
Proof.
  revert o bias e. induction n as [|n IH]; intros o bias e; [done|]. cbn [program_headers_loop]. wp_simpl.
  destruct (read_phdr A (ei_memory e) o) as [p|]; [|done]. unfold read_program_header, on_interface. wp_simpl.
  repeat (case_goal; wp_simpl); (apply wp_keeps_trans; [apply IH|done]).
Qed.

Lemma ReadAllHeaders_sections bias e :
  wp any_outcome (ReadAllHeaders A (fun e => e) (fun b _ => b) (fun _ _ _ => ret tt) bias) (fun _ e' => keeps_sections e e') e.
Proof.
  unfold ReadAllHeaders, on_interface. wp_simpl. destruct (read_ehdr A (ei_memory e) 0) as [ehdr|]; wp_simpl; [|done].
  unfold ReadProgramHeaders. eapply wp_mono; [apply program_headers_loop_sections|done|]. intros b e1 H1. wp_simpl.
  eapply wp_mono; [apply ReadSectionHeaders_sections|done|]. intros r e2 H2. wp_simpl. by transitivity e1.
Qed.

(** The sections that [InitHeaders] makes are fresh. *)
Definition fresh_sections (m : Memory) (bias : Z) (e : ElfInterface) : Prop :=
  ei_memory e = m /\
  (forall s, debug_frame_ e = Some s -> (exists b, s = PlainSection DebugFrame b) /\ fresh_any m bias s) /\
  (forall s, eh_frame_ e = Some s -> (forall k b, s = PlainSection k b -> k = EhFrame) /\ fresh_any m bias s).

Lemma InitHeaders_fresh u m bias e :
  ei_memory e = m -> debug_frame_ e = None -> eh_frame_ e = None ->
  wp any_outcome (InitHeaders A u bias) (fun _ e' => fresh_sections m bias e') e.
Proof.
  intros Hm Hd He. unfold InitHeaders. rewrite wp_bind, wp_get, Hm.
  set (J := fun e' : ElfInterface => ei_memory e' = m /\ debug_frame_ e' = None /\
    (forall s, eh_frame_ e' = Some s -> (forall k b, s = PlainSection k b -> k = EhFrame) /\ fresh_any m bias s)).
  assert (J e) as H0 by (unfold J; rewrite He; done).
  rewrite wp_bind. eapply (wp_mono any_outcome _ _ (fun _ e' => J e')); [|done|].
  { wp_simpl. destruct (negb _); wp_simpl; [|done].
    destruct (init_hdr_section A u m _ _ bias) as [s|f] eqn:Es; wp_simpl; [|done].
    split; [apply H0|]. split; [apply H0|]. intros s' Hs'. cbn in Hs'. subst s. pose proof (init_hdr_fresh _ _ _ _ _ _ _ Es) as Hf. split; [|done].
    unfold init_hdr_section in Es. destruct (DwarfEhFrameWithHdr.Init A _ _ bias _) as [[[[]|] h]|]; by simplify_eq. }
  intros _ e1 H1. rewrite wp_bind, wp_gets, wp_bind. eapply (wp_mono any_outcome _ _ (fun _ e' => J e')); [|done|].
  { wp_simpl. destruct (_ && _); wp_simpl; [|done].
    destruct (init_plain_section EhFrame m _ _ bias) as [s|f] eqn:Es; wp_simpl; [|done].
    split; [apply H1|]. split; [apply H1|]. intros s' Hs'. cbn in Hs'. subst s. destruct (init_plain_fresh _ _ _ _ _ _ Es) as [[b ->] Hf].
    split; [|done]. by intros k b' [= <- <-]. }
  intros _ e2 H2. rewrite wp_bind, wp_gets, wp_bind. eapply (wp_mono any_outcome _ _ (fun _ e' => J e')); [|done|].
  { destruct (negb _); wp_simpl; exact H2. }
  intros _ e3 (E1 & E2 & E3). wp_simpl. destruct (negb _); wp_simpl; [|split; [done|split; [by rewrite E2|done]]].
  destruct (init_plain_section DebugFrame m _ _ bias) as [s|f] eqn:Es; wp_simpl; [|done].
  assert (fresh_sections m bias (put_debug_frame s e3)) as Hend.
  { split; [done|]. split; [|done]. intros s' Hs'. cbn in Hs'. subst s. by apply (init_plain_fresh _ _ _ _ _ _ Es). }
  destruct (negb _); wp_simpl; exact Hend.
Qed.
End Headers.

(** * The object *)

Section Object.
Context (P : params) (m : Memory).
Implicit Types (e : Elf) (i : any_interface) (b : ElfInterface).

(** What holds of the interface of the object, when it is not one for ARM. *)
Definition interface_is (Q : addr_type -> ElfInterface -> Prop) (i : any_interface) : Prop :=
  match i with Interface A b => Q A b | InterfaceArm _ => True end.

Lemma CreateInterface_new e :
  wp any_outcome (CreateInterfaceFromMemory (Some m))
    (fun r e' => same_but_machine e e' /\ forall i, r = Some i -> interface_is (fun _ b => b = new_ElfInterface m) i) e.
Proof.
  unfold CreateInterfaceFromMemory.
  repeat first [progress (wp_simpl; cbv zeta) | case_goal]; (split; [done|]); intros i [= <-]; done.
Qed.

Lemma wp_iface_at {B} (f : AI B) (Q : B -> Elf -> Prop) (R : B -> any_interface -> Prop) e i :
  interface_ e = Some i -> wp any_outcome f R i -> (forall r i', R r i' -> Q r (put_interface (Some i') e)) ->
  wp any_outcome (on_iface f) Q e.
Proof.
  intros Hi Hf HQ. unfold wp, on_iface, on_pointee in *. rewrite Hi. destruct (f i) as [[r i']|]; [by apply HQ|done].
Qed.

(** A method of [ElfInterface] *)
Lemma wp_on_ei {B} (f : addr_type -> EI B) (Q : addr_type -> ElfInterface -> Prop) i :
  (forall A b, i = Interface A b -> wp any_outcome (f A) (fun _ b' => Q A b') b) ->
  wp any_outcome (on_ei f) (fun _ i' => interface_is Q i') i.
Proof.
  intros Hf. unfold wp, on_ei, zoom. destruct i as [A b|b]; cbn.
  - specialize (Hf A b eq_refl). unfold wp in Hf. by destruct (f A b) as [[? ?]|].
  - by destruct (f U32 _) as [[? ?]|].
Qed.

Lemma interface_Init_keeps i :
  interface_is (fun _ b => b = new_ElfInterface m) i ->
  wp any_outcome (interface_Init 0) (fun _ i' => interface_is (fun _ b => keeps_sections (new_ElfInterface m) b) i') i.
Proof.
  unfold wp, interface_Init. destruct i as [A b|b]; cbn [interface_is]; [intros ->|intros _; by destruct (ElfInterfaceArm.Init 0 b) as [[? ?]|]].
  pose proof (ReadAllHeaders_sections A 0 (new_ElfInterface m)) as H. unfold wp in H. by destruct (ReadAllHeaders _ _ _ _ _ _) as [[? ?]|].
Qed.

Lemma CreateGnuDebugdata_sections {X} (xz_new : X) xz_code xz_finished fuel (e : ElfInterface) :
  wp any_outcome (CreateGnuDebugdataMemory xz_new xz_code xz_finished fuel) (fun _ (b : ElfInterface) => keeps_sections e b) e.
Proof.
  unfold CreateGnuDebugdataMemory. wp_simpl. repeat (case_goal; wp_simpl; try done).
Qed.

(** The interface of the object is ready. *)
Definition ready (bias : Z) e : Prop :=
  load_bias_ e = bias /\ valid_ e = true /\ elf_memory e = Some m /\
  exists i, interface_ e = Some i /\ interface_is (fun _ b => fresh_sections m bias b) i.

Lemma wp_on_gnu_ready {B} (f : AI B) (Q : B -> Elf -> Prop) bias e :
  ready bias e -> (forall r e', ready bias e' -> Q r e') -> wp any_outcome (on_gnu_iface f) Q e.
Proof. intros He HQ. apply wp_on_gnu_iface. intros r i. apply HQ. exact He. Qed.

Lemma InitGnuDebugdata_ready bias e :
  ready bias e -> wp any_outcome (InitGnuDebugdata P) (fun _ e' => ready bias e') e.
Proof.
  intros He. pose proof He as (Hb & Hv & Hm & i & Hi & Hf). unfold InitGnuDebugdata. wp_simpl. rewrite Hv, Hi. cbn [negb].
  wp_simpl. destruct (_ =? 0); [done|].
  eapply (wp_iface_at _ _ (fun _ i' => interface_is (fun _ b => fresh_sections m bias b) i')); [exact Hi| |].
  { apply wp_on_ei. intros A b ->. eapply wp_mono; [apply CreateGnuDebugdata_sections|done|]. intros r b' (E1 & E2 & E3).
    destruct Hf as (F1 & F2 & F3). split; [congruence|]. by rewrite E2, E3. }
  intros buffer i' Hi'. wp_simpl. set (e1 := put_gnu _ _ _). assert (ready bias e1) as H1 by (split_and!; [done..|by exists i']).
  clearbody e1. clear e He Hb Hv Hm Hi i Hf i' Hi'. eapply wp_mono; [apply CreateInterface_spec|done|].
  intros gnu e2 [(Ev & Eb & Ei & Em & _) _]. wp_simpl.
  assert (ready bias (put_gnu buffer gnu e2)) as H2.
  { destruct H1 as (B & V & M & i & I & F). split_and!; cbn; [congruence..|]. exists i. by rewrite Ei. }
  destruct gnu as [g|]; [|exact H2]. rewrite wp_bind. eapply wp_on_gnu_ready; [exact H2|]. intros ok e3 H3.
  destruct ok as [b|]; [|wp_simpl; exact H3]. rewrite wp_bind. eapply wp_on_gnu_ready; [exact H3|]. intros u e4 H4. wp_simpl. exact H4.
Qed.

Lemma elf_Init_ready :
  wp any_outcome (Elf.Init P) (fun ok e => ok = true -> ready (load_bias_ e) e) (new_Elf P (Some m)).
Proof.
  unfold Elf.Init. wp_simpl. cbn [elf_memory new_Elf put_elf_load_bias]. rewrite wp_bind.
  eapply wp_mono; [apply CreateInterface_new|done|]. intros i e [(Hv & Hb & Hi & Hm & _) Hnew]. wp_simpl.
  destruct i as [i|]; [|done]. specialize (Hnew i eq_refl). rewrite wp_bind.
  eapply (wp_iface_at _ _ (fun _ i' => interface_is (fun _ b => keeps_sections (new_ElfInterface m) b) i')); [reflexivity|by apply interface_Init_keeps|].
  intros ok i1 H1. destruct ok as [bias|]; [|by wp_simpl]. wp_simpl.
  eapply (wp_iface_at _ _ (fun _ i' => interface_is (fun _ b => fresh_sections m bias b) i')); [reflexivity| |].
  { apply wp_on_ei. intros A b ->. destruct H1 as (E1 & E2 & E3). by apply InitHeaders_fresh. }
  intros _ i2 H2. wp_simpl. eapply wp_mono; [apply (InitGnuDebugdata_ready bias)|done|].
  - split_and!; [done..|cbn; by rewrite Hm|by exists i2].
  - intros u e' H'. wp_simpl. intros _. pose proof H' as (Eb & _). by rewrite Eb.
Qed.
End Object.

Lemma elf_init_eh_frame P m e A b s :
  Elf.Init P (new_Elf P (Some m)) = Done (true, e) -> interface_ e = Some (Interface A b) -> eh_frame_ b = Some s ->
  fresh_any m (load_bias_ e) s.
Proof.
  intros Hinit Hi Hs. pose proof (elf_Init_ready P m) as H. unfold wp in H. rewrite Hinit in H.
  destruct (H eq_refl) as (_ & _ & _ & i & Hi' & Hf). rewrite Hi in Hi'. injection Hi' as <-. destruct Hf as (_ & _ & Hf). by apply Hf.
Qed.

(** * Property *)

(** The bytes of the sections of an object are those of these contents. *)
Definition contents_bytes (A : addr_type) (fuel : nat) (x : section_contents) : Prop :=
  match x with
  | WithHeader bm h entries fdes => frames_ok A bm fuel h entries fdes /\ table_ok A bm h entries /\ table_sorted A h entries
  | WithoutHeader kind bm s fdes items => plain_ok A kind bm fuel s fdes items
  end.

Lemma contents_ok_fresh A fuel x m bias :
  contents_bytes A fuel x -> fresh_any m bias (section_of x) -> contents_ok A fuel x.
Proof.
  destruct x; cbn [contents_bytes section_of contents_ok fresh_any any_base].
  - intros (? & ? & ?) (_ & _ & ? & _). done.
  - intros ? (_ & _ & ?). done.
Qed.

(** C8. [Elf::Init] leaves an object from which the unwind of [unwind_computes_callers] starts: when it succeeds
    on a memory, whatever that holds, the object has this memory, and the sections that it found have read
    nothing, over this memory and with the load bias of the object. So the hypotheses of that theorem on an
    object, unless it has an interface for ARM or debug data, come down to the bytes of its sections. *)
Theorem elf_init_dwarf_object P m obj x i
  (Hinit : Elf.Init P (new_Elf P (Some m)) = Done (true, obj))
  (Hi : interface_ obj = Some (Interface (dw_addr x) i)) (Hgnu : gnu_set_ obj = false)
  (Hbias : dw_bias x = load_bias_ obj) (Hm : dw_memory x = m)
  (Hdebug : debug_frame_ i = section_of <$> dw_debug x) (Heh : eh_frame_ i = section_of <$> dw_eh x)
  (Hbytes : forall s, dw_debug x = Some s \/ dw_eh x = Some s -> contents_bytes (dw_addr x) (p_fuel P) s) :
  dwarf_ok P x /\ fresh_object x obj.
Proof.
  pose proof (elf_Init_ready P m) as H. unfold wp in H. rewrite Hinit in H.
  destruct (H eq_refl) as (_ & Hv & Hmem & i' & Hi' & Hf). rewrite Hi in Hi'. injection Hi' as <-. destruct Hf as (_ & Hd & He).
  split.
  - intros s Hs. apply (contents_ok_fresh _ _ _ m (load_bias_ obj)); [by apply Hbytes|].
    destruct Hs as [Hs|Hs]; [apply Hd; rewrite Hdebug, Hs; done|apply He; rewrite Heh, Hs; done].
  - split_and!; [done|done|by rewrite Hmem, Hm|done|]. by exists i.
Qed.

(** * Witness *)

(** An ELF file for x86-64 with the segment [PT_GNU_EH_FRAME] at 120: the header table, a CIE and an FDE for the
    function of [DwarfEhFrameStep]. *)
Definition file_hdr_at : Z := 120.
Definition file_cie_at : Z := file_hdr_at + 20.
Definition file_fde_at : Z := file_cie_at + len (encode_cie U64 EhFrame demo_cie).
Definition file_ff : fde_fields := mkFdeFields false [] (0x1000 - (file_fde_at + 8)) 0x64 0 [] (encode_cfas U64 demo_code).
Definition file_c : DwarfCie := cie_of U64 0 (new_DwarfMemory (mkMemory (fun _ _ => []))) file_cie_at demo_cie.
Definition file_entries : list (Z * Z) := [(0x1000 - file_hdr_at, file_fde_at - file_hdr_at)].
Definition file_bytes : list byte :=
  ELFMAG ++ [x02] ++ replicate 11 x00 ++
  encode_fields (drop 1 (ehdr_widths U64)) [3; EM_X86_64; 1; 0; 64; 0; 0; 64; 56; 1; 0; 0; 0] ++
  encode_fields (phdr_widths U64) [PT_GNU_EH_FRAME; 4; file_hdr_at; file_hdr_at; file_hdr_at; 20; 20; 4] ++
  encode_header U64 x1b x03 x3b 16 file_entries ++
  encode_cie U64 EhFrame demo_cie ++ encode_fde U64 EhFrame 136 file_fde_at file_cie_at file_c file_ff.
Definition file_memory : Memory := MemoryBuffer.memory (MemoryBuffer.mk file_bytes).
Definition file_params : params :=
  mkParams 9 map_to_list (fun l => l) 0 (mkUnpacker unit tt (fun _ _ _ => (tt, [], 0, false, false)) (fun _ => false)).

Definition file_elf : Elf :=
  match Elf.Init file_params (new_Elf file_params (Some file_memory)) with Done (_, e) => e | Fault _ => new_Elf file_params None end.
Definition file_interface : ElfInterface :=
  match interface_ file_elf with Some (Interface _ b) => b | _ => new_ElfInterface file_memory end.
Definition file_hdr : DwarfEhFrameWithHdr :=
  match eh_frame_ file_interface with Some (HdrSection h) => h | _ => demo_hdr end.
Definition file_entry : frame_entry :=
  mkEntry file_cie_at demo_cie file_ff [DefCfa 7 8; Offset 16 1] demo_code demo_cie_row
    (default [] (rows U64 file_c (Some demo_cie_row) 0 (mkC 0x1000 demo_cie_row []) demo_code)).
Definition file_fdes : gmap Z frame_entry := {[file_fde_at := file_entry]}.
Definition file_object : dwarf_object :=
  mkDwarf U64 None (Some (WithHeader (buffer_bytes file_bytes) file_hdr file_entries file_fdes)) 0 file_memory.

(** What [Init] found in the file. *)
Definition file_found (r : outcome (bool * Elf)) : bool :=
  match r with
  | Done (true, e) =>
      negb (gnu_set_ e) && (load_bias_ e =? 0) &&
      match interface_ e with
      | Some (Interface U64 b) =>
          match debug_frame_ b, eh_frame_ b with None, Some (HdrSection _) => true | _, _ => false end
      | _ => false
      end
  | _ => false
  end.

Lemma file_init : file_found (Elf.Init file_params (new_Elf file_params (Some file_memory))) = true.
Proof. vm_compute. reflexivity. Qed.

(** The object, without computing its parts. *)
Lemma file_elf_parts :
  Elf.Init file_params (new_Elf file_params (Some file_memory)) = Done (true, file_elf) /\ gnu_set_ file_elf = false /\
  load_bias_ file_elf = 0 /\ interface_ file_elf = Some (Interface U64 file_interface) /\
  debug_frame_ file_interface = None /\ eh_frame_ file_interface = Some (HdrSection file_hdr).
Proof.
  pose proof file_init as H. unfold file_hdr, file_interface, file_elf in *. destruct (Elf.Init _ _) as [[[] e]|]; [|done..]. cbn [file_found] in H.
  destruct (gnu_set_ e); [done|]. destruct (Z.eqb_spec (load_bias_ e) 0); [|done]. cbn [negb andb] in H.
  destruct (interface_ e) as [[[] b|b]|]; try done. destruct (debug_frame_ b); [done|]. by destruct (eh_frame_ b) as [[|h]|].
Qed.

(** They are compared, not computed. *)
#[local] Strategy 100 [file_elf file_interface file_hdr].

Lemma file_hdr_fresh : fresh_any file_memory 0 (HdrSection file_hdr).
Proof.
  destruct file_elf_parts as (Hinit & _ & Hb & Hi & _ & He). rewrite <- Hb.
  exact (elf_init_eh_frame file_params file_memory file_elf U64 file_interface (HdrSection file_hdr) Hinit Hi He).
Qed.

Lemma file_byte_memory : ByteMemory (memory_ (sec_memory (hdr_base file_hdr))) (buffer_bytes file_bytes).
Proof.
  destruct file_hdr_fresh as (Hm & _). cbn [any_base] in Hm. rewrite Hm. apply (MemoryBuffer_bytes (MemoryBuffer.mk file_bytes)).
  vm_compute. discriminate.
Qed.

Lemma file_entry_ok :
  entry_ok U64 EhFrame (buffer_bytes file_bytes) 9 (sec_memory (hdr_base file_hdr)) (DwarfSection.load_bias_ (hdr_base file_hdr))
    (sec_pc_offset (hdr_base file_hdr)) (entries_offset_ (hdr_base file_hdr)) file_fde_at file_entry.
Proof.
  split.
  - split.
    + split; [|exact file_byte_memory|vm_compute; discriminate|vm_compute; reflexivity|vm_compute; reflexivity|vm_compute; lia].
      split.
      * vm_compute. repeat split; discriminate || reflexivity.
      * vm_compute. left.
      * apply Forall_cons. split; [vm_compute; exact I|apply Forall_nil_2].
      * unfold in_u. vm_compute. repeat split; discriminate || reflexivity.
      * unfold in_s. vm_compute. repeat split; discriminate || reflexivity.
      * unfold in_u. vm_compute. repeat split; discriminate || reflexivity.
    + split; try (vm_compute; repeat split; discriminate || reflexivity). left. vm_compute. reflexivity.
    + vm_compute. discriminate.
    + vm_compute. reflexivity.
    + vm_compute. reflexivity.
  - reflexivity.
  - reflexivity.
  - change (runnable U64 9 [DefCfa 7 8; Offset 16 1]). exact (eo_cie_runs _ _ _ _ _ _ _ _ _ _ demo_entry_ok).
  - change (runnable U64 9 demo_code). exact (eo_runs _ _ _ _ _ _ _ _ _ _ demo_entry_ok).
  - change (RememberState ∉ [DefCfa 7 8; Offset 16 1]). exact (eo_remember _ _ _ _ _ _ _ _ _ _ demo_entry_ok).
  - vm_compute. repeat split; discriminate || reflexivity.
  - vm_compute. reflexivity.
  - vm_compute. reflexivity.
  - vm_compute. reflexivity.
  - vm_compute. repeat split.
  - vm_compute. repeat constructor; discriminate.
Qed.

Lemma file_bytes_ok : contents_bytes U64 9 (WithHeader (buffer_bytes file_bytes) file_hdr file_entries file_fdes).
Proof.
  assert (forall off e, file_fdes !! off = Some e -> off = file_fde_at /\ e = file_entry) as Hone
    by (unfold file_fdes; by intros off e [<- <-]%lookup_singleton_Some).
  split; [|split].
  - split.
    + split.
      * intros off e [-> ->]%Hone. apply file_entry_ok.
      * intros off off' e e' [-> _]%Hone [-> _]%Hone Hne. done.
      * by intros off off' e e' [-> ->]%Hone [-> ->]%Hone _.
    + intros x ->%list_elem_of_singleton. exists file_entry.
      assert (info_offset (entry_info U64 file_hdr (0x1000 - file_hdr_at, file_fde_at - file_hdr_at)) = file_fde_at) as -> by (vm_compute; reflexivity).
      split; [apply lookup_singleton_eq|]. vm_compute. reflexivity.
    + intros off e [-> _]%Hone. exists (0x1000 - file_hdr_at, file_fde_at - file_hdr_at). split; [by left|]. vm_compute. reflexivity.
  - split.
    + exact file_byte_memory.
    + vm_compute. by split; [discriminate|].
    + vm_compute. reflexivity.
    + constructor; [|constructor]. vm_compute. repeat split; discriminate.
    + vm_compute. reflexivity.
    + vm_compute. discriminate.
    + vm_compute. reflexivity.
    + vm_compute. discriminate.
    + vm_compute. reflexivity.
    + intros i info Hi. destruct file_hdr_fresh as (_ & _ & _ & Hf). rewrite Hf, lookup_empty in Hi. discriminate Hi.
  - intros i j x y. unfold pc_at. destruct i as [|i]; [|done]. destruct j as [|j]; [|done].
    intros _ Hx Hy. assert (x = y) as -> by congruence. done.
Qed.

Lemma elf_init_dwarf_object_witness : dwarf_ok file_params file_object /\ fresh_object file_object file_elf.
Proof.
  destruct file_elf_parts as (Hinit & Hg & Hb & Hi & Hd & He).
  apply (elf_init_dwarf_object file_params file_memory file_elf file_object file_interface).
  - exact Hinit.
  - exact Hi.
  - exact Hg.
  - exact (eq_sym Hb).
  - reflexivity.
  - exact Hd.
  - exact He.
  - intros s [[=]|[= <-]]. exact file_bytes_ok.
Defined.
