(* ===== verification/ThreadEntry.v ===== *)
(** [ThreadEntry.cpp] of libbacktrace: the entries of the threads that are being unwound, a doubly
    linked list with reference counts.

    The heap of entries shows when a pointer dangles. [entries_refine] proves that the list behaves as
    an association list of threads with their counts, which is kept in order and never dereferences a
    deleted entry. The two threads that meet in an entry are the subject of [ThreadUnwind]. *)
From Stdlib Require Import ZArith Lia Bool Strings.Byte.
From stdpp Require Import base numbers list gmap.
From S2P Require Import Prelude.
#[local] Open Scope Z_scope.

(** * State *)

(** [wait_value_] and [ucontext_] are those of [ThreadUnwind]. *)
Record ThreadEntry := mkThreadEntry { te_pid : Z; te_tid : Z; ref_count_ : Z; te_next : option Z; te_prev : option Z }.

Definition put_ref_count (n : Z) (e : ThreadEntry) : ThreadEntry := mkThreadEntry (te_pid e) (te_tid e) n (te_next e) (te_prev e).
Definition put_next (p : option Z) (e : ThreadEntry) : ThreadEntry := mkThreadEntry (te_pid e) (te_tid e) (ref_count_ e) p (te_prev e).
Definition put_prev (p : option Z) (e : ThreadEntry) : ThreadEntry := mkThreadEntry (te_pid e) (te_tid e) (ref_count_ e) (te_next e) p.

(** The heap, the next pointer that [new] returns, and the static member [list_]. *)
Record Entries := mkEntries { heap : gmap Z ThreadEntry; fresh_entry : Z; list_ : option Z }.

Definition put_heap (h : gmap Z ThreadEntry) (s : Entries) : Entries := mkEntries h (fresh_entry s) (list_ s).
Definition put_list (p : option Z) (s : Entries) : Entries := mkEntries (heap s) (fresh_entry s) p.
Definition no_entries : Entries := mkEntries ∅ 0 None.

Abbreviation MT := (M Entries).

Definition entry_at (p : Z) : MT ThreadEntry := s <- get ;; some_or (Undef UbNull) (heap s !! p).
Definition update_entry (p : Z) (f : ThreadEntry -> ThreadEntry) : MT unit :=
  e <- entry_at p ;; modify (fun s => put_heap (<[p := f e]> (heap s)) s).

(** * Operations *)

Definition Match (pid tid : Z) (e : ThreadEntry) : bool := (pid =? te_pid e) && (tid =? te_tid e).

(** [new ThreadEntry(pid, tid)] *)
Definition new_ThreadEntry (pid tid : Z) : MT Z :=
  s <- get ;;
  let p := fresh_entry s in
  modify (fun s => mkEntries (<[p := mkThreadEntry pid tid 1 (list_ s) None]> (heap s)) (fresh_entry s + 1) (list_ s)) ;;
  (match list_ s with Some q => update_entry q (put_prev (Some p)) | None => ret tt end) ;;
  modify (put_list (Some p)) ;;
  ret p.

Fixpoint find_entry (fuel : nat) (pid tid : Z) (p : option Z) : MT (option Z) :=
  match fuel with
  | O => fail OutOfFuel
  | S fuel' =>
      match p with
      | None => ret None
      | Some q => e <- entry_at q ;; if Match pid tid e then ret p else find_entry fuel' pid tid (te_next e)
      end
  end.

(** As many iterations as there are entries *)
Definition Get (pid tid : Z) (create : bool) : MT (option Z) :=
  s <- get ;;
  entry <- find_entry (S (size (heap s))) pid tid (list_ s) ;;
  match entry with
  | None => if create then p <- new_ThreadEntry pid tid ;; ret (Some p) else ret None
  | Some p => update_entry p (fun e => put_ref_count (ref_count_ e + 1) e) ;; ret (Some p)
  end.

(** [~ThreadEntry] and the release of the memory *)
Definition delete_entry (p : Z) : MT unit :=
  e <- entry_at p ;;
  s <- get ;;
  (if decide (list_ s = Some p) then modify (put_list (te_next e))
   else
     (match te_next e with Some q => update_entry q (put_prev (te_prev e)) | None => ret tt end) ;;
     q <- some_or (Undef UbNull) (te_prev e) ;;
     update_entry q (put_next (te_next e))) ;;
  modify (fun s => put_heap (delete p (heap s)) s).

(** The mutex of the entry is left to [ThreadUnwind]. *)
Definition Remove (p : Z) : MT unit :=
  update_entry p (fun e => put_ref_count (ref_count_ e - 1) e) ;;
  e <- entry_at p ;;
  if ref_count_ e =? 0 then delete_entry p else ret tt.

(** * The association list *)

(** A pointer, the thread and the number of references *)
Record item := mkItem { it_ptr : Z; it_pid : Z; it_tid : Z; it_refs : Z }.

Definition put_refs (n : Z) (x : item) : item := mkItem (it_ptr x) (it_pid x) (it_tid x) n.

Definition ptr_at (l : list item) (i : nat) : option Z := it_ptr <$> l !! i.

(** The entry at an index of the list; the first one may have a dangling [prev_]. *)
Record item_ok (l : list item) (i : nat) (x : item) (e : ThreadEntry) : Prop := {
  io_pid : te_pid e = it_pid x;
  io_tid : te_tid e = it_tid x;
  io_refs : ref_count_ e = it_refs x;
  io_next : te_next e = ptr_at l (S i);
  io_prev : forall j, i = S j -> te_prev e = ptr_at l j
}.

Record represents (l : list item) (s : Entries) : Prop := {
  rp_list : list_ s = ptr_at l 0;
  rp_nodup : NoDup (map it_ptr l);
  rp_fresh : Forall (fun x => it_ptr x < fresh_entry s) l;
  rp_items : forall i x, l !! i = Some x -> exists e, heap s !! it_ptr x = Some e /\ item_ok l i x e;
  rp_dom : forall p, is_Some (heap s !! p) -> p ∈ map it_ptr l
}.

Definition is_thread (pid tid : Z) (x : item) : Prop := pid = it_pid x /\ tid = it_tid x.
#[export] Instance is_thread_dec pid tid x : Decision (is_thread pid tid x).
Proof. unfold is_thread. apply _. Defined.

(** What [Get] and [Remove] do to the list; [fresh] is the pointer of a new entry. *)
Definition spec_Get (pid tid : Z) (create : bool) (fresh : Z) (l : list item) : option Z * Z * list item :=
  match list_find (is_thread pid tid) l with
  | Some (i, x) => (Some (it_ptr x), fresh, <[i := put_refs (it_refs x + 1) x]> l)
  | None => if create then (Some fresh, fresh + 1, mkItem fresh pid tid 1 :: l) else (None, fresh, l)
  end.

Definition spec_Remove (p : Z) (l : list item) : list item :=
  match list_find (fun x => it_ptr x = p) l with
  | Some (i, x) => if it_refs x - 1 =? 0 then delete i l else <[i := put_refs (it_refs x - 1) x]> l
  | None => l
  end.

(** * Refinement *)

Section Refinement.
Implicit Types (l : list item) (s : Entries) (x y : item).

Lemma wp_entry_at p e (Q : ThreadEntry -> Entries -> Prop) s :
  heap s !! p = Some e -> Q e s -> wp no_fault (entry_at p) Q s.
Proof. intros He HQ. unfold entry_at. wp_simpl. by rewrite He. Qed.

Lemma wp_update_entry p f e (Q : unit -> Entries -> Prop) s :
  heap s !! p = Some e -> Q tt (put_heap (<[p := f e]> (heap s)) s) -> wp no_fault (update_entry p f) Q s.
Proof. intros He HQ. unfold update_entry. wp_simpl. eapply wp_entry_at; [done|]. by wp_simpl. Qed.

Lemma represents_ptr_inj l s i j x y :
  represents l s -> l !! i = Some x -> l !! j = Some y -> it_ptr x = it_ptr y -> i = j.
Proof.
  intros Hr Hi Hj E. eapply (NoDup_lookup (map it_ptr l)); [apply (rp_nodup _ _ Hr)|rewrite list_lookup_fmap, Hi; done|].
  by rewrite list_lookup_fmap, Hj, E.
Qed.

Lemma represents_size l s : represents l s -> (length l <= size (heap s))%nat.
Proof.
  intros Hr. rewrite <- (length_map it_ptr l), <- (size_list_to_set (C := gset Z) (map it_ptr l)) by apply (rp_nodup _ _ Hr).
  rewrite <- (size_dom (D := gset Z)). apply subseteq_size. intros p Hp%elem_of_list_to_set. apply elem_of_dom.
  apply list_elem_of_fmap in Hp as (x & -> & Hx). apply list_elem_of_lookup in Hx as [i Hi].
  destruct (rp_items _ _ Hr i x Hi) as (e & He & _). eauto.
Qed.

(** The loop of [Get] from an index on. *)
Lemma find_entry_spec fuel l s pid tid i :
  represents l s -> (length l - i < fuel)%nat ->
  wp no_fault (find_entry fuel pid tid (ptr_at l i))
    (fun r s' => s' = s /\ r = (it_ptr ∘ snd) <$> list_find (is_thread pid tid) (drop i l)) s.
Proof.
  intros Hr. revert i. induction fuel as [|fuel IH]; intros i Hf; [lia|]. cbn [find_entry]. unfold ptr_at at 1.
  destruct (l !! i) as [x|] eqn:Hi; cbn [fmap option_fmap option_map].
  2:{ apply lookup_ge_None in Hi. rewrite drop_ge by lia. by wp_simpl. }
  destruct (rp_items _ _ Hr i x Hi) as (e & He & Hok). pose proof (lookup_lt_Some _ _ _ Hi). wp_simpl. eapply wp_entry_at; [done|].
  rewrite (drop_S _ _ _ Hi). cbn [list_find]. unfold Match. rewrite (io_pid _ _ _ _ Hok), (io_tid _ _ _ _ Hok).
  destruct (decide (is_thread pid tid x)) as [[-> ->]|Hno].
  - rewrite !Z.eqb_refl. cbn [andb]. wp_simpl. split; [done|]. unfold ptr_at. by rewrite Hi.
  - destruct ((pid =? it_pid x) && (tid =? it_tid x)) eqn:E.
    { apply andb_true_iff in E as [?%Z.eqb_eq ?%Z.eqb_eq]. by destruct Hno. }
    wp_simpl. rewrite (io_next _ _ _ _ Hok). eapply wp_mono; [apply IH; lia|done|]. cbn beta. intros r s' [-> ->]. split; [done|].
    by destruct (list_find _ (drop (S i) l)) as [[? ?]|].
Qed.

(** A change of the count of one entry *)
Lemma represents_refs l s i x n e :
  represents l s -> l !! i = Some x -> heap s !! it_ptr x = Some e ->
  represents (<[i := put_refs n x]> l) (put_heap (<[it_ptr x := put_ref_count n e]> (heap s)) s).
Proof.
  intros Hr Hi He. pose proof (lookup_lt_Some _ _ _ Hi) as Hlt.
  assert (forall j, ptr_at (<[i := put_refs n x]> l) j = ptr_at l j) as Hptr.
  { intros j. unfold ptr_at. destruct (decide (i = j)) as [<-|]; [by rewrite list_lookup_insert_eq, Hi by done|by rewrite list_lookup_insert_ne]. }
  assert (map it_ptr (<[i := put_refs n x]> l) = map it_ptr l) as Hmap.
  { apply list_eq. intros j. rewrite !list_lookup_fmap. apply Hptr. }
  split.
  - rewrite Hptr. apply (rp_list _ _ Hr).
  - rewrite Hmap. apply (rp_nodup _ _ Hr).
  - apply Forall_insert; [apply (rp_fresh _ _ Hr)|]. by apply (Forall_lookup_1 _ _ _ _ (rp_fresh _ _ Hr) Hi).
  - intros j y Hj. cbn [heap put_heap]. destruct (decide (i = j)) as [<-|Hne].
    + rewrite list_lookup_insert_eq in Hj by done. injection Hj as <-. cbn [it_ptr put_refs]. rewrite lookup_insert_eq. eexists. split; [done|].
      destruct (rp_items _ _ Hr i x Hi) as (e' & He' & Hok). assert (e' = e) as -> by congruence. destruct Hok. split; cbn; try done; by rewrite Hptr || (intros; rewrite Hptr; auto).
    + rewrite list_lookup_insert_ne in Hj by done. destruct (rp_items _ _ Hr j y Hj) as (e' & He' & Hok). exists e'. split.
      * rewrite lookup_insert_ne; [done|]. intros E. apply Hne. eapply represents_ptr_inj; done.
      * destruct Hok. split; try done; [by rewrite Hptr|]. intros; rewrite Hptr; auto.
  - intros p Hp. rewrite Hmap. apply (rp_dom _ _ Hr). cbn [heap put_heap] in Hp. destruct (decide (p = it_ptr x)) as [->|]; [by rewrite He|].
    by rewrite lookup_insert_ne in Hp.
Qed.

Lemma represents_new l s pid tid :
  represents l s ->
  wp no_fault (new_ThreadEntry pid tid)
    (fun p s' => p = fresh_entry s /\ fresh_entry s' = fresh_entry s + 1 /\ represents (mkItem p pid tid 1 :: l) s') s.
Proof.
  intros Hr. unfold new_ThreadEntry. wp_simpl. set (p := fresh_entry s).
  assert (forall i x, l !! i = Some x -> it_ptr x <> p) as Hne.
  { intros i x Hi. pose proof (Forall_lookup_1 _ _ _ _ (rp_fresh _ _ Hr) Hi) as Hlt. cbn in Hlt. unfold p. lia. }
  assert (forall h,
    h !! p = Some (mkThreadEntry pid tid 1 (list_ s) None) ->
    (forall i x, l !! i = Some x -> exists e, h !! it_ptr x = Some e /\ item_ok l i x e /\ (i = 0%nat -> te_prev e = Some p)) ->
    (forall q, is_Some (h !! q) -> q = p \/ is_Some (heap s !! q)) ->
    represents (mkItem p pid tid 1 :: l) (mkEntries h (p + 1) (Some p))) as Hnew.
  { intros h Hp Hh Hdom. split.
    - done.
    - cbn [map]. constructor; [|apply (rp_nodup _ _ Hr)]. intros Hin. apply list_elem_of_fmap in Hin as (x & Hx & Hin).
      apply list_elem_of_lookup in Hin as [i Hi]. by apply (Hne i x).
    - constructor; [cbn; lia|]. eapply Forall_impl; [apply (rp_fresh _ _ Hr)|]. intros x. cbn. fold p. lia.
    - intros [|i] x Hi.
      + injection Hi as <-. eexists. split; [exact Hp|]. split; try done. cbn [te_next ptr_at]. by rewrite (rp_list _ _ Hr).
      + cbn in Hi. destruct (Hh i x Hi) as (e & He & Hok & Hprev). exists e. split; [done|]. destruct Hok as [? ? ? ? Hpr]. split; try done.
        intros [|j] [= ->]; [by apply Hprev|]. by apply Hpr.
    - intros q Hq. cbn [map]. apply elem_of_cons. destruct (Hdom q Hq) as [->|Hs]; [by left|right]. by apply (rp_dom _ _ Hr). }
  rewrite (rp_list _ _ Hr) in *. unfold ptr_at. destruct (l !! 0%nat) as [x0|] eqn:E0; cbn [fmap option_fmap option_map].
  - destruct (rp_items _ _ Hr 0%nat x0 E0) as (e0 & He0 & Hok0). eapply (wp_update_entry _ _ e0).
    { cbn [heap put_heap put_list]. rewrite lookup_insert_ne; [done|]. by apply not_eq_sym, (Hne 0%nat). }
    wp_simpl. split; [done|]. split; [done|]. apply Hnew.
    + cbn [heap put_heap put_list]. rewrite lookup_insert_ne by by apply (Hne 0%nat). rewrite lookup_insert_eq. unfold ptr_at. by rewrite E0.
    + intros i x Hi. cbn [heap put_heap put_list]. destruct (rp_items _ _ Hr i x Hi) as (e & He & Hok). destruct (decide (i = 0%nat)) as [->|Hi0].
      * assert (x = x0) as -> by congruence. assert (e = e0) as -> by congruence. exists (put_prev (Some p) e0). rewrite lookup_insert_eq.
        split_and!; [done| |done]. destruct Hok. by split.
      * exists e. rewrite lookup_insert_ne, lookup_insert_ne; [by split_and!| |].
        -- by apply not_eq_sym, (Hne i).
        -- intros Eq. apply Hi0. symmetry. eapply represents_ptr_inj; done.
    + intros q Hq. cbn [heap put_heap put_list] in Hq. destruct (decide (q = it_ptr x0)) as [->|]; [right; by rewrite He0|]. rewrite lookup_insert_ne in Hq by done.
      destruct (decide (q = p)) as [->|]; [by left|]. rewrite lookup_insert_ne in Hq by done. by right.
  - wp_simpl. split; [done|]. split; [done|]. assert (l = []) as -> by by destruct l. apply Hnew.
    + cbn [heap put_heap put_list]. by rewrite lookup_insert_eq.
    + intros i x Hi. by rewrite lookup_nil in Hi.
    + intros q Hq. cbn [heap put_heap put_list] in Hq. destruct (decide (q = p)) as [->|]; [by left|]. rewrite lookup_insert_ne in Hq by done. by right.
Qed.

Lemma Get_spec l s pid tid create :
  represents l s ->
  wp no_fault (Get pid tid create)
    (fun r s' => let '(r0, fresh, l') := spec_Get pid tid create (fresh_entry s) l in
       r = r0 /\ fresh_entry s' = fresh /\ represents l' s') s.
Proof.
  intros Hr. unfold Get, spec_Get. wp_simpl. rewrite (rp_list _ _ Hr). pose proof (represents_size l s Hr).
  eapply wp_mono; [apply (find_entry_spec _ l); [done|lia]|done|]. cbn beta. intros r s' [-> ->]. rewrite drop_0.
  destruct (list_find (is_thread pid tid) l) as [[i x]|] eqn:E; cbn [fmap option_fmap option_map compose fst snd].
  - apply list_find_Some in E as (Hi & _ & _). destruct (rp_items _ _ Hr i x Hi) as (e & He & Hok). wp_simpl.
    eapply wp_update_entry; [done|]. wp_simpl. split_and!; [done|done|]. rewrite (io_refs _ _ _ _ Hok). by apply represents_refs.
  - destruct create; [|by wp_simpl]. wp_simpl. eapply wp_mono; [by apply represents_new|done|]. cbn beta. intros p s1 (-> & Hf & Hw). by wp_simpl.
Qed.

Lemma ptr_at_delete l i j : ptr_at (delete i l) j = if decide (j < i)%nat then ptr_at l j else ptr_at l (S j).
Proof. unfold ptr_at. destruct (decide (j < i)%nat); [by rewrite list_lookup_delete_lt|by rewrite list_lookup_delete_ge by lia]. Qed.

(** A heap in which the neighbours of an entry point past it. *)
Lemma represents_delete l s i x h head :
  represents l s -> l !! i = Some x -> head = ptr_at (delete i l) 0 ->
  (forall p, is_Some (h !! p) -> p <> it_ptr x /\ is_Some (heap s !! p)) ->
  (forall j y e, l !! j = Some y -> j <> i -> heap s !! it_ptr y = Some e ->
     exists e', h !! it_ptr y = Some e' /\ te_pid e' = te_pid e /\ te_tid e' = te_tid e /\ ref_count_ e' = ref_count_ e /\
       te_next e' = (if decide (S j = i) then ptr_at l (S i) else te_next e) /\
       te_prev e' = (if decide (j = S i /\ i <> 0%nat) then ptr_at l (pred i) else te_prev e)) ->
  represents (delete i l) (mkEntries h (fresh_entry s) head).
Proof.
  intros Hr Hi Hhead Hdom Hh. split.
  - done.
  - eapply sublist_NoDup; [apply (rp_nodup _ _ Hr)|]. apply (fmap_sublist it_ptr), sublist_delete.
  - apply Forall_delete, (rp_fresh _ _ Hr).
  - intros j y Hj. assert (exists k, l !! k = Some y /\ k <> i /\ (k = if decide (j < i)%nat then j else S j)) as (k & Hk & Hki & Ek).
    { destruct (decide (j < i)%nat); [rewrite list_lookup_delete_lt in Hj by done; exists j; repeat split; (done || lia)|
                                      rewrite list_lookup_delete_ge in Hj by lia; exists (S j); repeat split; (done || lia)]. }
    destruct (rp_items _ _ Hr k y Hk) as (e & He & Hok). destruct (Hh k y e Hk Hki He) as (e' & He' & Hpid & Htid & Href & Hnext & Hprev).
    exists e'. split; [done|]. destruct Hok as [Ho1 Ho2 Ho3 Ho4 Ho5]. split; [congruence|congruence|congruence| |].
    + rewrite Hnext, ptr_at_delete, Ho4. repeat case_decide; try lia; do 2 f_equal; lia || (subst k; case_decide; f_equal; lia).
    + intros j' ->. rewrite Hprev, ptr_at_delete. repeat case_decide; subst; try lia;
        first [rewrite (Ho5 j') by lia; f_equal; lia|f_equal; lia|rewrite (Ho5 (S j')) by lia; f_equal; lia].
  - intros p Hp. destruct (Hdom p Hp) as [Hne Hs]. apply (rp_dom _ _ Hr) in Hs. apply list_elem_of_fmap in Hs as (y & -> & Hy).
    apply list_elem_of_lookup in Hy as [j Hj]. apply list_elem_of_fmap. exists y. split; [done|]. apply list_elem_of_lookup.
    assert (j <> i) by congruence. destruct (decide (j < i)%nat); [exists j; by rewrite list_lookup_delete_lt|].
    exists (pred j). rewrite list_lookup_delete_ge by lia. by replace (S (pred j)) with j by lia.
Qed.

Lemma delete_entry_spec l s i x :
  represents l s -> l !! i = Some x -> wp no_fault (delete_entry (it_ptr x)) (fun _ s' => represents (delete i l) s' /\ fresh_entry s' = fresh_entry s) s.
Proof.
  intros Hr Hi. destruct (rp_items _ _ Hr i x Hi) as (e & He & Hok). unfold delete_entry. wp_simpl. eapply wp_entry_at; [done|]. wp_simpl.
  assert (forall j y, l !! j = Some y -> j <> i -> it_ptr y <> it_ptr x) as Hne.
  { intros j y Hj Hji E. apply Hji. by eapply represents_ptr_inj. }
  rewrite (rp_list _ _ Hr). destruct (decide (ptr_at l 0 = Some (it_ptr x))) as [E0|E0].
  - wp_simpl. split; [|done]. unfold ptr_at in E0. destruct (l !! 0%nat) as [x0|] eqn:Ex0; [|done]. injection E0 as E0.
    assert (i = 0%nat) as -> by exact (represents_ptr_inj l s i 0 x x0 Hr Hi Ex0 (eq_sym E0)). apply (represents_delete l s 0 x); [done|exact Hi| | |].
    + by rewrite (io_next _ _ _ _ Hok), ptr_at_delete.
    + intros q [eq Hq]. cbn in Hq. apply lookup_delete_Some in Hq as [? Hq]. by split; eauto.
    + intros j y e' Hj Hj0 He'. exists e'. cbn. rewrite lookup_delete_ne by by apply not_eq_sym, (Hne j). split_and!; try done; case_decide; (done || lia || naive_solver).
  - destruct i as [|k]; [unfold ptr_at in E0; by rewrite Hi in E0|].
    assert (exists z, l !! k = Some z) as [z Hz] by (apply lookup_lt_is_Some; apply lookup_lt_Some in Hi; lia).
    destruct (rp_items _ _ Hr k z Hz) as (ez & Hez & Hokz). pose proof (io_prev _ _ _ _ Hok k eq_refl) as Hprev.
    unfold ptr_at in Hprev. rewrite Hz in Hprev. cbn in Hprev. pose proof (io_next _ _ _ _ Hok) as Hnext.
    rewrite wp_bind. eapply (wp_mono no_fault no_fault _ (fun _ s1 =>
      exists h, s1 = put_heap h s /\ h !! it_ptr z = Some ez /\ h !! it_ptr x = Some e /\ (forall q, is_Some (h !! q) -> is_Some (heap s !! q)) /\
      (forall j y ey, l !! j = Some y -> j <> S k -> heap s !! it_ptr y = Some ey ->
         h !! it_ptr y = Some (if decide (j = S (S k)) then put_prev (Some (it_ptr z)) ey else ey)))); [|done|].
    + rewrite Hnext, Hprev. unfold ptr_at. destruct (l !! S (S k)) as [w|] eqn:Hw; cbn [fmap option_fmap option_map].
      * destruct (rp_items _ _ Hr _ w Hw) as (ew & Hew & Hokw). eapply wp_update_entry; [done|]. eexists. split; [done|].
        assert (forall j y, l !! j = Some y -> j <> S (S k) -> it_ptr w <> it_ptr y) as Hnw.
        { intros j y Hj Hjw E. apply Hjw. symmetry. by eapply represents_ptr_inj. }
        rewrite !lookup_insert_ne by first [by apply (Hnw k); [|lia]|by apply (Hnw (S k)); [|lia]]. split_and!; [done|done| |].
        -- intros q Hq. destruct (decide (q = it_ptr w)) as [->|]; [by rewrite Hew|]. by rewrite lookup_insert_ne in Hq.
        -- intros j y ey Hj Hjk Hey. case_decide as Ej.
           ++ subst j. assert (y = w) as -> by congruence. rewrite lookup_insert_eq. congruence.
           ++ by rewrite lookup_insert_ne by by apply (Hnw j).
      * wp_simpl. exists (heap s). split_and!; [by destruct s|done|done|done|]. intros j y ey Hj Hjk Hey. case_decide; [congruence|done].
    + cbn beta. intros _ s1 (h & -> & Hhz & Hhx & Hdom & Hh). rewrite Hprev. wp_simpl. eapply wp_update_entry; [exact Hhz|]. wp_simpl. split; [|done].
      apply (represents_delete l s (S k) x); [done|exact Hi| | |].
      * cbn. rewrite ptr_at_delete. apply (rp_list _ _ Hr).
      * intros q [eq Hq]. cbn in Hq. apply lookup_delete_Some in Hq as [? Hq]. split; [done|]. destruct (decide (q = it_ptr z)) as [->|]; [by rewrite Hez|].
        rewrite lookup_insert_ne in Hq by done. eauto.
      * intros j y ey Hj Hjk Hey. specialize (Hh j y ey Hj Hjk Hey). cbn. rewrite lookup_delete_ne by by apply not_eq_sym, (Hne j).
        destruct (decide (j = k)) as [->|Hj'].
        -- assert (y = z) as -> by congruence. assert (ey = ez) as -> by congruence. rewrite lookup_insert_eq. eexists. split; [done|]. cbn.
           split_and!; [done|done|done|by rewrite decide_True|by rewrite decide_False by lia].
        -- rewrite lookup_insert_ne by (intros E; apply Hj'; symmetry; by eapply represents_ptr_inj). rewrite Hh. eexists. split; [done|].
           case_decide as Ej; cbn; split_and!; try done; repeat case_decide; try lia; try done.
           unfold ptr_at. cbn. by rewrite Hz.
Qed.

Lemma Remove_spec l s p :
  represents l s -> p ∈ map it_ptr l ->
  wp no_fault (Remove p) (fun _ s' => represents (spec_Remove p l) s' /\ fresh_entry s' = fresh_entry s) s.
Proof.
  intros Hr Hp. unfold spec_Remove.
  destruct (list_find (fun x => it_ptr x = p) l) as [[i x]|] eqn:E.
  2:{ apply list_find_None in E. apply list_elem_of_fmap in Hp as (x & -> & Hx). rewrite Forall_forall in E. by apply (E x) in Hx. }
  apply list_find_Some in E as (Hi & <- & _). destruct (rp_items _ _ Hr i x Hi) as (e & He & Hok).
  unfold Remove. wp_simpl. eapply wp_update_entry; [done|]. wp_simpl. rewrite (io_refs _ _ _ _ Hok).
  pose proof (represents_refs l s i x (it_refs x - 1) e Hr Hi He) as Hr1. eapply wp_entry_at; [cbn; by rewrite lookup_insert_eq|].
  cbn [ref_count_ put_ref_count]. destruct (it_refs x - 1 =? 0); [|by wp_simpl]. pose proof (lookup_lt_Some _ _ _ Hi) as Hlt.
  eapply wp_mono; [eapply (delete_entry_spec _ _ i (put_refs (it_refs x - 1) x)); [exact Hr1|by rewrite list_lookup_insert_eq]|done|].
  cbn beta. intros _ s' [Hd Hf]. split; [|done].
  replace (delete i l) with (delete i (<[i := put_refs (it_refs x - 1) x]> l)); [done|].
  rewrite !delete_take_drop, take_insert_ge, drop_insert_lt by lia. done.
Qed.
End Refinement.

(** * Any sequence of calls *)

Inductive entry_call := CallGet (pid tid : Z) (create : bool) | CallRemove (p : Z).

Fixpoint entry_calls (calls : list entry_call) : MT (list (option Z)) :=
  match calls with
  | [] => ret []
  | CallGet pid tid create :: calls' => r <- Get pid tid create ;; rest <- entry_calls calls' ;; ret (r :: rest)
  | CallRemove p :: calls' => Remove p ;; entry_calls calls'
  end.

(** The results of the calls on the association list, and the list at the end *)
Fixpoint spec_results (fresh : Z) (l : list item) (calls : list entry_call) : list (option Z) * list item :=
  match calls with
  | [] => ([], l)
  | CallGet pid tid create :: calls' =>
      let '(r, fresh, l) := spec_Get pid tid create fresh l in
      let '(rs, l) := spec_results fresh l calls' in (r :: rs, l)
  | CallRemove p :: calls' => spec_results fresh (spec_Remove p l) calls'
  end.

(** A caller removes only an entry that it holds. *)
Fixpoint calls_ok (fresh : Z) (l : list item) (calls : list entry_call) : Prop :=
  match calls with
  | [] => True
  | CallGet pid tid create :: calls' => let '(_, fresh, l) := spec_Get pid tid create fresh l in calls_ok fresh l calls'
  | CallRemove p :: calls' => p ∈ map it_ptr l /\ calls_ok fresh (spec_Remove p l) calls'
  end.

Lemma entry_calls_spec calls l s :
  represents l s -> calls_ok (fresh_entry s) l calls ->
  wp no_fault (entry_calls calls)
    (fun rs s' => rs = fst (spec_results (fresh_entry s) l calls) /\ represents (snd (spec_results (fresh_entry s) l calls)) s') s.
Proof.
  revert l s. induction calls as [|[pid tid create|p] calls IH]; intros l s Hr Hok; cbn [entry_calls spec_results calls_ok] in *.
  - by wp_simpl.
  - wp_simpl. eapply wp_mono; [by apply Get_spec|done|]. cbn beta. destruct (spec_Get pid tid create (fresh_entry s) l) as [[r fresh] l1].
    intros ? s1 (-> & <- & Hr1). wp_simpl. eapply wp_mono; [by apply IH|done|]. cbn beta.
    destruct (spec_results (fresh_entry s1) l1 calls) as [rs l2]. intros ? s2 [-> Hr2]. by wp_simpl.
  - destruct Hok as [Hp Hok]. wp_simpl. eapply wp_mono; [by apply Remove_spec|done|]. cbn beta. intros _ s1 [Hr1 Hf].
    rewrite <- Hf in *. by apply IH.
Qed.

(** C23. The list of entries refines an association list of threads with reference counts: any sequence
    of [Get] and [Remove] gives the results of the association list and dereferences no null pointer
    and no deleted entry. An entry is deleted exactly when its count reaches zero, and what is left
    is linked in both directions. *)
Theorem entries_refine calls (Hok : calls_ok 0 [] calls) :
  exists s, entry_calls calls no_entries = Done (fst (spec_results 0 [] calls), s) /\ represents (snd (spec_results 0 [] calls)) s.
Proof.
  assert (represents [] no_entries) as Hr.
  { split; try done; [constructor|]. intros p [e He]. cbn in He; by rewrite lookup_empty in He. }
  destruct (wp_elim _ _ _ (entry_calls_spec calls [] no_entries Hr Hok)) as (rs & s & Hrun & -> & Hs). by exists s.
Qed.

Lemma entries_refine_witness :
  exists s, entry_calls [CallGet 1 2 true; CallGet 1 3 true; CallGet 1 4 true; CallGet 1 3 false; CallRemove 1; CallRemove 1; CallGet 1 3 false; CallRemove 2] no_entries
    = Done ([Some 0; Some 1; Some 2; Some 1; None], s) /\ represents [mkItem 0 1 2 1] s.
Proof.
  apply (entries_refine [CallGet 1 2 true; CallGet 1 3 true; CallGet 1 4 true; CallGet 1 3 false; CallRemove 1; CallRemove 1; CallGet 1 3 false; CallRemove 2]).
  vm_compute. repeat split; repeat constructor.
Defined.
