(* ===== verification/ThreadUnwind.v ===== *)
(** [BacktraceCurrent::UnwindThread] and [SignalHandler] of [BacktraceCurrent.cpp]: the unwind of
    another thread of the process.

    The requesting thread sends a signal; the handler of the target thread copies its context into the
    [ThreadEntry], and three timed waits order the two threads. The state is the entry, the signal and
    the program counters of both; an event is one step of one of them between two accesses of what
    they share, and any sequence of events is an interleaving. The mutex of the entry admits one
    request for a thread at a time, so that requests follow each other. The mutex of the signal action keeps the requests
    for other threads apart from the part of a request between the two calls of [sigaction]; what they do to the action
    in between is not in the model. *)
From Stdlib Require Import ZArith Lia Bool.
From stdpp Require Import base numbers list.
From S2P Require Import Prelude.
#[local] Open Scope Z_scope.

(** * State *)

(** What [UnwindThread] reports: the unwind was done, the thread does not exist, a timeout, an
    internal error. *)
Inductive thread_result : Set := Unwound | NoThread | Timeout | Internal.

(** The places of [UnwindThread] *)
Inductive requester_pc : Set :=
| RIdle                       (* before [ThreadEntry::Get] *)
| RGot                        (* before [entry->Lock()] *)
| RLocked                     (* before [sigaction] *)
| RInstalled                  (* before [tgkill] *)
| RWait1                      (* in [entry->Wait(1)] *)
| RWaited (completed : bool)  (* before the action is restored *)
| RUnwind                     (* in [UnwindFromContext] *)
| RWake                       (* before [entry->Wake()] *)
| RWait3                      (* in [entry->Wait(3)] *)
| RRemove (r : thread_result) (* before [ThreadEntry::Remove] *)
| RDone (r : thread_result).

(** The places of [SignalHandler]; the thread runs its own code at [HIdle]. *)
Inductive handler_pc : Set :=
| HIdle
| HGet      (* before [ThreadEntry::Get] *)
| HCopy     (* before [CopyUcontextFromSigcontext] *)
| HWake1    (* before the first [Wake()] *)
| HWait2    (* in [entry->Wait(2)] *)
| HWake3.   (* before the second [Wake()] *)

Inductive action : Set := OldAction (null : bool) | Handler | LogOnly.

(** [wait_value], [ucontext] and [refs] are members of the entry; it does not exist when [refs] is 0.
    [now] numbers the contexts of the target thread: it changes when the thread runs, and the
    context that a handler copies is the one that its signal interrupted. [pending] counts the
    signals sent. [act] is the action of the signal, [old] the one that the last [sigaction] of a request found. *)
Record state := mkState {
  wait_value : Z;
  ucontext : option nat;
  refs : Z;
  now : nat;
  pending : nat;
  act : action;
  old : action;
  req : requester_pc;
  hdl : handler_pc
}.

Definition put_wait (v : Z) (s : state) : state :=
  mkState v (ucontext s) (refs s) (now s) (pending s) (act s) (old s) (req s) (hdl s).
Definition put_ucontext (c : option nat) (s : state) : state :=
  mkState (wait_value s) c (refs s) (now s) (pending s) (act s) (old s) (req s) (hdl s).
Definition put_refs (n : Z) (s : state) : state :=
  mkState (wait_value s) (ucontext s) n (now s) (pending s) (act s) (old s) (req s) (hdl s).
Definition put_now (n : nat) (s : state) : state :=
  mkState (wait_value s) (ucontext s) (refs s) n (pending s) (act s) (old s) (req s) (hdl s).
Definition put_pending (n : nat) (s : state) : state :=
  mkState (wait_value s) (ucontext s) (refs s) (now s) n (act s) (old s) (req s) (hdl s).
Definition put_act (a : action) (s : state) : state :=
  mkState (wait_value s) (ucontext s) (refs s) (now s) (pending s) a (old s) (req s) (hdl s).
Definition put_old (a : action) (s : state) : state :=
  mkState (wait_value s) (ucontext s) (refs s) (now s) (pending s) (act s) a (req s) (hdl s).
Definition put_req (r : requester_pc) (s : state) : state :=
  mkState (wait_value s) (ucontext s) (refs s) (now s) (pending s) (act s) (old s) r (hdl s).
Definition put_hdl (h : handler_pc) (s : state) : state :=
  mkState (wait_value s) (ucontext s) (refs s) (now s) (pending s) (act s) (old s) (req s) h.

(** * Events *)

Inductive event : Set :=
| ThreadRuns                  (* the target thread runs its own code *)
| RStep                       (* the next step of the requester *)
| RFail (r : thread_result)   (* a system call of the requester fails *)
| RTimeout                    (* a wait of the requester times out *)
| HStep                       (* the next step of the target thread in the handler, or a signal *)
| HTimeout                    (* the wait of the handler times out *)
| Again.                      (* the next request *)

#[export] Instance thread_result_eq_dec : EqDecision thread_result.
Proof. solve_decision. Defined.
#[export] Instance event_eq_dec : EqDecision event.
Proof. solve_decision. Defined.

Definition Wake (s : state) : state := put_wait (wait_value s + 1) s.

(** [ThreadEntry::Get] with [create]: a new entry has an uninitialized context. *)
Definition get_entry (s : state) : state :=
  if refs s =? 0 then put_refs 1 (put_wait 0 (put_ucontext None s)) else put_refs (refs s + 1) s.

(** [oldact.sa_sigaction == nullptr] *)
Definition null_action (a : action) : bool := match a with OldAction null => null | Handler | LogOnly => false end.

(** After the wait: the old action, or, without one, a handler that only logs when the signal may still come. *)
Definition restore_action (completed : bool) (s : state) : state :=
  put_act (if negb completed && null_action (old s) then LogOnly else old s) s.

Definition requester_step (s : state) : option state :=
  match req s with
  | RIdle => Some (put_req RGot (get_entry s))
  | RGot => Some (put_req RLocked (put_wait 0 s))
  | RLocked => Some (put_req RInstalled (put_act Handler (put_old (act s) s)))
  | RInstalled => Some (put_req RWait1 (put_pending (S (pending s)) s))
  | RWait1 => if wait_value s =? 1 then Some (put_req (RWaited true) s) else None
  | RWaited true => Some (put_req RUnwind (restore_action true s))
  | RWaited false => Some (put_req (RRemove Timeout) (restore_action false s))
  | RUnwind => Some (put_req RWake s)
  | RWake => Some (put_req RWait3 (Wake s))
  | RWait3 => if wait_value s =? 3 then Some (put_req (RRemove Unwound) s) else None
  | RRemove r => Some (put_req (RDone r) (put_refs (refs s - 1) s))
  | RDone _ => None
  end.

(** [sigaction] or [tgkill] fails; the test after a timeout says that the thread is gone. *)
Definition requester_fail (r : thread_result) (s : state) : option state :=
  match req s, r with
  | RLocked, Internal => Some (put_req (RRemove Internal) s)
  | RInstalled, (NoThread | Internal) => Some (put_req (RRemove r) (put_act (old s) s))
  | RWaited false, NoThread => Some (put_req (RRemove NoThread) (restore_action false s))
  | _, _ => None
  end.

Definition requester_timeout (s : state) : option state :=
  match req s with
  | RWait1 => if wait_value s =? 1 then None else Some (put_req (RWaited false) s)
  | RWait3 => if wait_value s =? 3 then None else Some (put_req (RRemove Unwound) s)
  | _ => None
  end.

Definition handler_step (s : state) : option state :=
  match hdl s with
  | HIdle =>
      match pending s with
      | O => None
      | S n => Some (put_pending n (match act s with Handler => put_hdl HGet s | _ => s end))
      end
  | HGet => Some (if refs s =? 0 then put_hdl HIdle s else put_hdl HCopy (put_refs (refs s + 1) s))
  | HCopy => Some (put_hdl HWake1 (put_ucontext (Some (now s)) s))
  | HWake1 => Some (put_hdl HWait2 (Wake s))
  | HWait2 => if wait_value s =? 2 then Some (put_hdl HWake3 s) else None
  | HWake3 => Some (put_hdl HIdle (Wake s))
  end.

Definition next (e : event) (s : state) : option state :=
  match e with
  | ThreadRuns => match hdl s with HIdle => Some (put_now (S (now s)) s) | _ => None end
  | RStep => requester_step s
  | RFail r => requester_fail r s
  | RTimeout => requester_timeout s
  | HStep => handler_step s
  | HTimeout => match hdl s with HWait2 => if wait_value s =? 2 then None else Some (put_hdl HIdle s) | _ => None end
  | Again => match req s with RDone _ => Some (put_req RIdle s) | _ => None end
  end.

(** Before a request: [n] references are left from earlier ones, whose context counts as none; [o]
    says whether the handler that [sigaction] finds is null. *)
Definition start (n : Z) (o : bool) : state := mkState 0 None n 0 0 (OldAction o) (OldAction o) RIdle HIdle.

(** The states after a sequence of events, the last event first *)
Inductive reach (s0 : state) : list event -> state -> Prop :=
| reach_start : reach s0 [] s0
| reach_next tr s e s' : reach s0 tr s -> next e s = Some s' -> reach s0 (e :: tr) s'.

Fixpoint replay (events : list event) (s : state) : option state :=
  match events with
  | [] => Some s
  | e :: events' => match next e s with Some s' => replay events' s' | None => None end
  end.

Lemma replay_reach s0 tr s events s' : reach s0 tr s -> replay events s = Some s' -> reach s0 (rev events ++ tr) s'.
Proof.
  revert tr s. induction events as [|e events IH]; intros tr s Hr H; cbn in *; [injection H as <-; exact Hr|].
  destruct (next e s) as [s1|] eqn:E; [|done]. rewrite <- app_assoc. eapply IH; [|exact H]. by eapply reach_next.
Qed.

(** * The entry is not used after it was deleted *)

(** Who holds a reference *)
Definition requester_holds (s : state) : Z := match req s with RIdle | RDone _ => 0 | _ => 1 end.
Definition handler_holds (s : state) : Z := match hdl s with HIdle | HGet => 0 | _ => 1 end.

Ltac step_cases H :=
  unfold next, requester_step, requester_fail, requester_timeout, handler_step, get_entry, restore_action, null_action in H;
  repeat (match type of H with
          | context [match ?x with _ => _ end] => let E := fresh "E" in destruct x eqn:E
          end; try discriminate H);
  try injection H as <-.

Lemma holds_invariant s0 tr s :
  reach s0 tr s -> hdl s0 = HIdle -> req s0 = RIdle -> 0 <= refs s0 -> requester_holds s + handler_holds s <= refs s /\ 0 <= refs s.
Proof.
  intros Hr Hh Hq H0. induction Hr as [|tr s e s' _ [IH IH0] Hn]; [unfold requester_holds, handler_holds; rewrite Hh, Hq; lia|].
  unfold requester_holds, handler_holds in *. step_cases Hn; cbn in *;
    repeat match goal with E : req s = _ |- _ => rewrite E in *; clear E | E : hdl s = _ |- _ => rewrite E in *; clear E end;
    try (destruct (req s)); try (destruct (hdl s)); lia.
Qed.

(** * One request *)

(** The two threads during a request; [late]: the wait of the handler has timed out. *)
Definition request_inv (late : Prop) (s : state) : Prop :=
  match req s with
  | RIdle | RGot => hdl s = HIdle /\ pending s = 0%nat
  | RLocked => hdl s = HIdle /\ pending s = 0%nat /\ wait_value s = 0
  | RInstalled => hdl s = HIdle /\ pending s = 0%nat /\ wait_value s = 0 /\ act s = Handler
  | RWait1 =>
      act s = Handler /\
      match hdl s with
      | HIdle => pending s = 1%nat /\ wait_value s = 0 \/ late /\ pending s = 0%nat /\ wait_value s = 1 /\ is_Some (ucontext s)
      | HGet | HCopy => pending s = 0%nat /\ wait_value s = 0
      | HWake1 => pending s = 0%nat /\ wait_value s = 0 /\ ucontext s = Some (now s)
      | HWait2 => pending s = 0%nat /\ wait_value s = 1 /\ ucontext s = Some (now s)
      | HWake3 => False
      end
  | RWaited true | RUnwind | RWake =>
      pending s = 0%nat /\ wait_value s = 1 /\ (hdl s = HWait2 /\ ucontext s = Some (now s) \/ late /\ hdl s = HIdle /\ is_Some (ucontext s))
  | RWait3 =>
      pending s = 0%nat /\
      (wait_value s = 2 /\ (hdl s = HWait2 \/ hdl s = HWake3) \/ wait_value s = 3 /\ hdl s = HIdle \/ late /\ wait_value s = 2 /\ hdl s = HIdle)
  | RWaited false | RRemove _ | RDone _ => True
  end.

Lemma request_inv_mono (P Q : Prop) s : (P -> Q) -> request_inv P s -> request_inv Q s.
Proof. unfold request_inv. destruct (req s) as [| | | | |[]| | | | |]; try destruct (hdl s); intuition. Qed.

Lemma request_inv_next late s e s' :
  request_inv late s -> (req s = RWait1 -> 0 < refs s) -> next e s = Some s' -> e <> Again ->
  request_inv (late \/ e = HTimeout) s'.
Proof.
  intros Hi Hrefs Hn He. unfold request_inv in *. step_cases Hn; cbn in *; try done;
    repeat match goal with E : req s = _ |- _ => rewrite E in *; clear E | E : hdl s = _ |- _ => rewrite E in *; clear E end;
    repeat match goal with E : (_ =? _) = true |- _ => apply Z.eqb_eq in E | E : (_ =? _) = false |- _ => apply Z.eqb_neq in E end;
    try (destruct (req s) as [| | | | |[]| | | | |]); try (destruct (hdl s)); try done;
    intuition (try congruence; try lia; eauto).
Qed.

Lemma request_invariant n o tr s :
  0 <= n -> reach (start n o) tr s -> Again ∉ tr -> request_inv (HTimeout ∈ tr) s.
Proof.
  intros Hn Hr. induction Hr as [|tr s e s' Hr IH Hs]; intros Ha; [by cbn|].
  apply not_elem_of_cons in Ha as [Ha1 Ha2]. eapply request_inv_mono; [|eapply request_inv_next; [by apply IH| |exact Hs|congruence]].
  - intros [H| ->]; [by right|by left].
  - destruct (holds_invariant _ _ _ Hr) as [Hh _]; [done|done|done|]. unfold requester_holds, handler_holds in Hh.
    intros E. rewrite E in Hh. destruct (hdl s); lia.
Qed.

(** * The action of the signal *)

(** Some request gave up its wait for the handler. *)
Definition gave_up (s0 : state) (tr : list event) : Prop :=
  exists tr1 tr2 s1, tr = tr1 ++ RTimeout :: tr2 /\ reach s0 tr2 s1 /\ req s1 = RWait1.

(** The action outside of the requests: the one before them or, where there was none, one that only logs. *)
Definition restored (s0 : state) (tr : list event) (a : action) : Prop :=
  a = act s0 \/ act s0 = OldAction true /\ gave_up s0 tr /\ a = LogOnly.

Lemma gave_up_cons s0 e tr : gave_up s0 tr -> gave_up s0 (e :: tr).
Proof. intros (tr1 & tr2 & s1 & -> & H). by exists (e :: tr1), tr2, s1. Qed.

Lemma restored_cons s0 e tr a : restored s0 tr a -> restored s0 (e :: tr) a.
Proof. intros [H|(H1 & H2 & H3)]; [by left|right; split_and!; [done|by apply gave_up_cons|done]]. Qed.

Definition action_inv (s0 : state) (tr : list event) (s : state) : Prop :=
  match req s with
  | RInstalled | RWait1 | RWaited true => act s = Handler /\ restored s0 tr (old s)
  | RWaited false => act s = Handler /\ restored s0 tr (old s) /\ gave_up s0 tr
  | _ => restored s0 tr (act s)
  end.

Lemma restored_after s0 tr a :
  is_Some (match act s0 with OldAction null => Some null | _ => None end) -> gave_up s0 tr -> restored s0 tr a ->
  restored s0 tr (if null_action a then LogOnly else a).
Proof.
  intros [b Hb] Hg [-> | (H1 & H2 & ->)]; [|by right]. destruct (act s0) as [[]| |] eqn:E; try done; [|by left].
  right. by rewrite E.
Qed.

Lemma action_invariant n o tr s : reach (start n o) tr s -> action_inv (start n o) tr s.
Proof.
  intros Hr. induction Hr as [|tr s e s' Hr IH Hn]; [by left|].
  assert (e = RTimeout -> req s = RWait1 -> gave_up (start n o) (e :: tr)) as Hgive.
  { intros -> Hq. by exists [], tr, s. }
  assert (forall a, restored (start n o) tr a -> restored (start n o) (e :: tr) a) as Hcons by (intros; by apply restored_cons).
  unfold action_inv in *. unfold next, requester_step, requester_fail, requester_timeout, handler_step, get_entry in Hn.
  destruct e; repeat (match type of Hn with context [match ?x with _ => _ end] => let E := fresh "E" in destruct x eqn:E end; try discriminate Hn);
    injection Hn as <-; cbn in *;
    repeat match goal with E : req s = _ |- _ => rewrite E in *; clear E | E : act s = _ |- _ => rewrite E in *; clear E end; cbn in *;
    try (destruct (req s) as [| | | | |[]| | | | |]); intuition (eauto using gave_up_cons, restored_after).
Qed.

(** * Progress without timeouts *)

(** The steps that the two threads still have to make *)
Definition requester_weight (r : requester_pc) : nat :=
  match r with
  | RIdle => 20 | RGot => 19 | RLocked => 18 | RInstalled => 17 | RWait1 => 10 | RWaited _ => 9 | RUnwind => 8 | RWake => 7
  | RWait3 => 6 | RRemove _ => 5 | RDone _ => 0
  end.
Definition handler_weight (h : handler_pc) : nat :=
  match h with HIdle => 0 | HGet => 5 | HCopy => 4 | HWake1 => 3 | HWait2 => 2 | HWake3 => 1 end.
Definition weight (s : state) : nat := requester_weight (req s) + handler_weight (hdl s) + 6 * pending s.

Definition is_step (e : event) : bool := match e with RStep | RFail _ | HStep => true | _ => false end.
Definition steps (tr : list event) : nat := length (List.filter is_step tr).

Lemma weight_next e s s' :
  next e s = Some s' -> e <> Again -> (weight s' + (if is_step e then 1 else 0) <= weight s)%nat.
Proof.
  intros Hn He. unfold weight. step_cases Hn; cbn in *; try done;
    repeat match goal with E : req s = _ |- _ => rewrite E in *; clear E | E : hdl s = _ |- _ => rewrite E in *; clear E
      | E : pending s = _ |- _ => rewrite E in *; clear E end; cbn [requester_weight handler_weight is_step]; lia.
Qed.

Lemma steps_bound n o tr s : reach (start n o) tr s -> Again ∉ tr -> (weight s + steps tr <= 20)%nat.
Proof.
  intros Hr. induction Hr as [|tr s e s' Hr IH Hn]; intros Ha; [done|].
  apply not_elem_of_cons in Ha as [Ha1 Ha2]. pose proof (weight_next e s s' Hn ltac:(congruence)). specialize (IH Ha2).
  unfold steps in *. cbn [List.filter]. destruct (is_step e); cbn [length]; lia.
Qed.

(** What a request reports when nothing fails. *)
Lemma unwound_invariant n o tr s :
  reach (start n o) tr s -> Again ∉ tr -> RTimeout ∉ tr -> (forall r, RFail r ∉ tr) ->
  match req s with RWaited b => b = true | RRemove r | RDone r => r = Unwound | _ => True end.
Proof.
  intros Hr. induction Hr as [|tr s e s' Hr IH Hn]; intros Ha Ht Hf; [done|].
  apply not_elem_of_cons in Ha as [Ha Ha']. apply not_elem_of_cons in Ht as [Ht Ht'].
  assert (forall r, e <> RFail r) as He by (intros r ->; apply (Hf r); left).
  specialize (IH Ha' Ht' ltac:(intros r Hin; apply (Hf r); by right)).
  destruct e as [| |r| | | |]; try done; try (by destruct (He r)); step_cases Hn; cbn in *;
    repeat match goal with E : req s = _ |- _ => rewrite E in *; clear E end; (done || congruence).
Qed.

(** * Theorems *)

(** C16. In every interleaving, with any timeout and any failing call, and for any number of requests,
    the entry exists as long as one of the threads uses it, and the action of the signal is that of the handler from the first
    [sigaction] of a request to its second one and the action from before the requests at all other times: each request puts back
    what it found. The one exception is an action without a handler when a request gave up its wait: the code leaves
    one that only logs. During one request the unwind runs only
    after the handler of this request has copied its context, and unless the wait of the handler
    times out, the target thread stays in the handler for all of the unwind: the context is the one
    that the thread is in. *)
Theorem unwind_thread_safe n o tr s
  (Hn : 0 <= n) (Hr : reach (start n o) tr s) :
  requester_holds s + handler_holds s <= refs s /\
  match req s with
  | RInstalled | RWait1 | RWaited _ => act s = Handler
  | _ => act s = OldAction o \/ o = true /\ gave_up (start n o) tr /\ act s = LogOnly
  end /\
  (Again ∉ tr -> req s = RUnwind ->
     exists c, ucontext s = Some c /\ (HTimeout ∉ tr -> hdl s = HWait2 /\ c = now s)).
Proof.
  split; [by eapply holds_invariant|]. split.
  - apply action_invariant in Hr. unfold action_inv, restored in Hr. cbn [act start] in Hr.
    destruct (req s) as [| | | | |[]| | | | |]; intuition congruence.
  - intros Ha Hq. pose proof (request_invariant _ _ _ _ Hn Hr Ha) as Hi.
    unfold request_inv in Hi. rewrite Hq in Hi. destruct Hi as (_ & _ & [[Hh Hc]|(Hl & _ & c & Hc)]); eexists; split; try done.
Qed.

(** C39. Without timeouts a request ends: the two threads never wait for each other, they make at most
    20 steps in total, and when no system call fails either the unwind was done. *)
Theorem unwind_thread_ends n o tr s
  (Hn : 0 <= n) (Hr : reach (start n o) tr s)
  (Hone : Again ∉ tr) (Hrt : RTimeout ∉ tr) (Hht : HTimeout ∉ tr) :
  (steps tr <= 20)%nat /\
  ((exists r, req s = RDone r /\ ((forall f, RFail f ∉ tr) -> r = Unwound)) \/
   (exists e s', e ∈ [RStep; HStep] /\ next e s = Some s')).
Proof.
  split; [pose proof (steps_bound _ _ _ _ Hr Hone); lia|].
  pose proof (unwound_invariant _ _ _ _ Hr Hone Hrt) as Hu. pose proof (request_invariant _ _ _ _ Hn Hr Hone) as Hi.
  assert (forall e, e = RStep \/ e = HStep -> is_Some (next e s) -> exists e s', e ∈ [RStep; HStep] /\ next e s = Some s') as Hstep.
  { intros e He [s' Hs]. exists e, s'. split; [|done]. destruct He as [-> | ->]; [by left|by right; left]. }
  unfold request_inv in Hi. destruct (req s) as [| | | | |b| | | |r|r] eqn:E;
    try (right; apply (Hstep RStep); [by left|]; cbn [next]; unfold requester_step; rewrite E; try (destruct b); by eexists).
  - right. destruct Hi as (Hact & Hi). destruct (Z.eqb_spec (wait_value s) 1) as [Hw|Hw].
    + apply (Hstep RStep); [by left|]. cbn [next]. unfold requester_step. rewrite E, Hw. by eexists.
    + apply (Hstep HStep); [by right|]. cbn [next]. unfold handler_step. destruct (hdl s); try (by eexists); [|intuition congruence].
      destruct Hi as [[-> _]|(? & _)]; [by eexists|done].
  - right. destruct Hi as (_ & [[Hw [Hh|Hh]]|[[Hw Hh]|(? & _)]]); [| |..|done].
    + apply (Hstep HStep); [by right|]. cbn [next]. unfold handler_step. rewrite Hh, Hw. by eexists.
    + apply (Hstep HStep); [by right|]. cbn [next]. unfold handler_step. rewrite Hh. by eexists.
    + apply (Hstep RStep); [by left|]. cbn [next]. unfold requester_step. rewrite E, Hw. by eexists.
  - left. exists r. split; [done|]. intros Hf. by apply Hu.
Qed.

(** A request that times out in its last wait, and a second one: the handler of the first request is
    only then scheduled again, and its last [Wake] is taken for the first one of the second request. *)
Definition late_wake : list event :=
  [RStep; RStep; RStep; RStep; HStep; HStep; HStep; HStep; RStep; RStep; RStep; RStep; HStep; RTimeout; RStep;
   Again; RStep; RStep; HStep; ThreadRuns; RStep; RStep; RStep; RStep].

(** A request up to its unwind, and to its end *)
Definition until_unwind : list event := [RStep; RStep; RStep; RStep; ThreadRuns; HStep; HStep; HStep; HStep; RStep; RStep].
Definition unwound_state : state := mkState 1 (Some 1%nat) 2 1 0 (OldAction false) (OldAction false) RUnwind HWait2.
Definition whole_request : list event := until_unwind ++ [RStep; RStep; HStep; HStep; RStep; RStep].

(** The waits do not protect a request that follows one whose last wait timed out: the second
    unwind runs with the context of the first one, while the target thread runs and the signal of the
    second request is still to come. The reference of the handler is never given back, so that the
    entry with the old context is found again. *)
Theorem unwind_thread_stale_context o :
  exists tr s, reach (start 0 o) tr s /\ (HTimeout ∉ tr) /\ (forall r, RFail r ∉ tr) /\
    req s = RUnwind /\ hdl s = HIdle /\ pending s = 1%nat /\ ucontext s = Some 0%nat /\ now s = 1%nat.
Proof.
  eexists (rev late_wake ++ []), _. split_and!.
  - eapply replay_reach; [apply reach_start|]. vm_compute. reflexivity.
  - vm_compute. intros H. repeat (apply elem_of_cons in H as [H|H]; [discriminate|]). by apply not_elem_of_nil in H.
  - intros r. vm_compute. intros H. repeat (apply elem_of_cons in H as [H|H]; [discriminate|]). by apply not_elem_of_nil in H.
  - done.
  - done.
  - done.
  - done.
  - done.
Qed.

Lemma until_unwind_reach : reach (start 0 false) (rev until_unwind ++ []) unwound_state.
Proof. eapply replay_reach; [apply reach_start|]. vm_compute. reflexivity. Qed.

Lemma unwind_thread_safe_witness :
  requester_holds unwound_state + handler_holds unwound_state <= refs unwound_state /\ act unwound_state = OldAction false /\
  exists c, ucontext unwound_state = Some c /\ hdl unwound_state = HWait2 /\ c = now unwound_state.
Proof.
  destruct (unwind_thread_safe 0 false (rev until_unwind ++ []) unwound_state) as (H1 & Hact & H2).
  - lia.
  - apply until_unwind_reach.
  - split; [exact H1|]. split; [destruct Hact as [Hact|(Ho & _)]; [exact Hact|discriminate Ho]|]. destruct H2 as (c & Hc & H3).
    + apply (bool_decide_unpack _). vm_compute. exact I.
    + reflexivity.
    + exists c. split; [exact Hc|]. apply H3. apply (bool_decide_unpack _). vm_compute. exact I.
Defined.

Definition ended_state : state := mkState 3 (Some 1%nat) 1 1 0 (OldAction false) (OldAction false) (RDone Unwound) HIdle.

Lemma whole_request_reach : reach (start 0 false) (rev whole_request ++ []) ended_state.
Proof. eapply replay_reach; [apply reach_start|]. vm_compute. reflexivity. Qed.

Lemma unwind_thread_ends_witness :
  (steps (rev whole_request ++ []) <= 20)%nat /\
  ((exists r, req ended_state = RDone r /\ ((forall f, RFail f ∉ (rev whole_request ++ [])) -> r = Unwound)) \/
   (exists e s', e ∈ [RStep; HStep] /\ next e ended_state = Some s')).
Proof.
  apply (unwind_thread_ends 0 false (rev whole_request ++ []) ended_state).
  - lia.
  - apply whole_request_reach.
  - apply (bool_decide_unpack _). vm_compute. exact I.
  - apply (bool_decide_unpack _). vm_compute. exact I.
  - apply (bool_decide_unpack _). vm_compute. exact I.
Defined.
