(* ===== verification/BacktraceMap.v ===== *)
(** [BacktraceMap.cpp] and [UnwindStackMap.cpp] of libbacktrace: the maps of a process in the types of
    libbacktrace.

    [BacktraceMapClass] states what the base class asks of a derived class: its maps and the virtual
    [GetLoadBias]. The maps of [UnwindStackMap] are those of the [Maps] object that it owns. *)
From Stdlib Require Import ZArith Lia Bool Strings.Byte Strings.String.
From stdpp Require Import base numbers list gmap sorting.
From S2P Require Import Prelude Memory Regs ElfTypes ElfInterface RegsArch Maps Elf MapInfo Global JitDebug DexFiles Unwinder UnwinderFormat MapsFind.
#[local] Open Scope Z_scope.

(** * Maps *)

Record backtrace_map_t := mkBacktraceMap {
  bm_start : Z;
  bm_end : Z;
  bm_offset : Z;
  bm_load_bias : Z;
  bm_flags : Z;
  bm_name : list byte
}.

(** [backtrace_map_t()] *)
Definition empty_map : backtrace_map_t := mkBacktraceMap 0 0 0 0 0 [].

Definition put_load_bias (b : Z) (m : backtrace_map_t) : backtrace_map_t :=
  mkBacktraceMap (bm_start m) (bm_end m) (bm_offset m) b (bm_flags m) (bm_name m).

(** [PRIPTR] on a 64-bit host *)
Definition print_ptr (p : Z) : list byte := pad 16 (print_x p).

Definition Name (m : backtrace_map_t) : list byte :=
  if negb (bool_decide (bm_name m = [])) then bm_name m
  else if (bm_start m =? 0) && (bm_end m =? 0) then []
  else text "<anonymous:" ++ print_ptr (bm_start m) ++ text ">".

Definition IsValid (m : backtrace_map_t) : bool := 0 <? bm_end m.

(** * The base class *)

Class BacktraceMapClass (B : Type) := {
  bt_maps : B -> list backtrace_map_t;
  put_bt_maps : list backtrace_map_t -> B -> B;
  GetLoadBias : Z -> M B Z
}.

Section Base.
Context {B : Type} `{BacktraceMapClass B}.

(** [*it]: the load bias is found when the map is first looked at. *)
Definition iterator_map (index : nat) : M B (option backtrace_map_t) :=
  b <- get ;;
  match bt_maps b !! index with
  | None => ret None
  | Some map =>
      if bm_load_bias map =? UINT64_MAX then
        bias <- GetLoadBias (Z.of_nat index) ;;
        modify (fun b => put_bt_maps (<[index := put_load_bias bias map]> (bt_maps b)) b) ;;
        ret (Some (put_load_bias bias map))
      else ret (Some map)
  end.

(** The loop of [FillIn]: [n] maps are left, from [index] on. *)
Fixpoint fill_in_loop (n index : nat) (addr : Z) : M B backtrace_map_t :=
  match n with
  | O => ret empty_map
  | S n' =>
      entry <- iterator_map index ;;
      map <- some_or (Undef UbNull) entry ;;
      if (bm_start map <=? addr) && (addr <? bm_end map) then ret map else fill_in_loop n' (S index) addr
  end.

Definition base_FillIn (addr : Z) : M B backtrace_map_t :=
  b <- get ;; fill_in_loop (length (bt_maps b)) 0 addr.
End Base.

(** The class [BacktraceMap] itself, whose [GetLoadBias] is 0 *)
Record BacktraceMap := mkBaseMap { base_maps : list backtrace_map_t }.

#[export] Instance BacktraceMap_class : BacktraceMapClass BacktraceMap := {
  bt_maps := base_maps;
  put_bt_maps := fun l _ => mkBaseMap l;
  GetLoadBias := fun _ => ret 0
}.

(** [BacktraceMap::Build]: the entries that libprocinfo reads; it does not set the offset. *)
Definition base_Build (entries : list map_entry) (readable : bool) : M BacktraceMap bool :=
  modify (fun b => mkBaseMap (base_maps b ++ map (fun e => mkBacktraceMap (me_start e) (me_end e) 0 0 (me_flags e) (me_name e)) entries)) ;;
  ret readable.

(** * [UnwindStackMap] *)

(** [um_world] holds [stack_maps_] and the ELF objects. *)
Record UnwindStackMap := mkStackMap {
  um_maps : list backtrace_map_t;
  um_world : World;
  um_memory : Memory;
  um_jit : option JitDebug;
  um_dex : option DexFiles;
  um_arch : ArchEnum;
  um_suffixes : list (list byte);
  um_resolve_names : bool
}.

Definition put_um_maps (l : list backtrace_map_t) (m : UnwindStackMap) : UnwindStackMap :=
  mkStackMap l (um_world m) (um_memory m) (um_jit m) (um_dex m) (um_arch m) (um_suffixes m) (um_resolve_names m).
Definition put_um_world (w : World) (m : UnwindStackMap) : UnwindStackMap :=
  mkStackMap (um_maps m) w (um_memory m) (um_jit m) (um_dex m) (um_arch m) (um_suffixes m) (um_resolve_names m).
Definition put_um_memory (mem : Memory) (m : UnwindStackMap) : UnwindStackMap :=
  mkStackMap (um_maps m) (um_world m) mem (um_jit m) (um_dex m) (um_arch m) (um_suffixes m) (um_resolve_names m).
Definition put_um_finders (j : option JitDebug) (d : option DexFiles) (m : UnwindStackMap) : UnwindStackMap :=
  mkStackMap (um_maps m) (um_world m) (um_memory m) j d (um_arch m) (um_suffixes m) (um_resolve_names m).
Definition put_um_arch (a : ArchEnum) (m : UnwindStackMap) : UnwindStackMap :=
  mkStackMap (um_maps m) (um_world m) (um_memory m) (um_jit m) (um_dex m) a (um_suffixes m) (um_resolve_names m).
Definition SetSuffixesToIgnore (suffixes : list (list byte)) (m : UnwindStackMap) : UnwindStackMap :=
  mkStackMap (um_maps m) (um_world m) (um_memory m) (um_jit m) (um_dex m) (um_arch m) (um_suffixes m ++ suffixes) (um_resolve_names m).
Definition bt_SetResolveNames (resolve : bool) (m : UnwindStackMap) : UnwindStackMap :=
  mkStackMap (um_maps m) (um_world m) (um_memory m) (um_jit m) (um_dex m) (um_arch m) (um_suffixes m) resolve.

Abbreviation MB := (M UnwindStackMap).
Definition in_um_world {A} (m : MW A) : MB A := zoom um_world put_um_world m.

Section StackMap.
Context (os : system) (P : params).

Definition stack_GetLoadBias (index : Z) : MB Z :=
  m <- get ;;
  if total_maps (w_maps (um_world m)) <=? index then ret 0
  else match Maps.Get index (w_maps (um_world m)) with
       | None => ret 0
       | Some k => in_um_world (map_GetLoadBias os k (Some (um_memory m)))
       end.

#[export] Instance UnwindStackMap_class : BacktraceMapClass UnwindStackMap := {
  bt_maps := um_maps;
  put_bt_maps := put_um_maps;
  GetLoadBias := stack_GetLoadBias
}.

Definition search_libs : list (list byte) := [text "libart.so"; text "libartd.so"].

(** The maps of libbacktrace for those of [stack_maps_] *)
Fixpoint copy_maps (l : list (option Z)) : MB unit :=
  match l with
  | [] => ret tt
  | p :: l' =>
      k <- some_or (Undef UbNull) p ;;
      info <- in_um_world (map_info k) ;;
      let map := mkBacktraceMap (map_start info) (map_end info) (map_offset info) UINT64_MAX (map_flags info) (map_name info) in
      modify (fun m => put_um_maps (um_maps m ++ [map]) m) ;;
      copy_maps l'
  end.

(** [process_memory] is what [CreateProcessMemory] returns for the process, [entries] are those of its
    maps file. *)
Definition stack_Build (process_memory : Memory) (entries : list map_entry) (readable : bool) : MB bool :=
  modify (put_um_memory process_memory) ;;
  modify (put_um_finders (Some (new_JitDebug process_memory search_libs)) (Some (new_DexFiles process_memory search_libs))) ;;
  ok <- in_um_world (on_maps (modify (fun _ => new_Maps) ;; Parse entries readable)) ;;
  if negb ok then ret false
  else m <- get ;; copy_maps (maps_ (w_maps (um_world m))) ;; ret true.

Definition stack_FillIn (addr : Z) : MB backtrace_map_t :=
  map <- base_FillIn addr ;;
  if negb (bm_load_bias map =? UINT64_MAX) then ret map
  else
    m <- get ;;
    found <- in_um_world (on_maps (Find addr)) ;;
    match found with
    | None => ret map
    | Some k => bias <- in_um_world (map_GetLoadBias os k (Some (um_memory m))) ;; ret (put_load_bias bias map)
    end.

(** [process_arch]: [CurrentArch], or the architecture of the registers of the process. *)
Definition stack_GetFunctionName (process_arch : ArchEnum) (pc : Z) : MB (list byte * Z) :=
  found <- in_um_world (on_maps (Find pc)) ;;
  match found with
  | None => ret ([], 0)
  | Some k =>
      info <- in_um_world (map_info k) ;;
      if negb (Z.land (map_flags info) MAPS_FLAGS_DEVICE_MAP =? 0) then ret ([], 0)
      else
        modify (fun m => put_um_arch (if decide (um_arch m = ARCH_UNKNOWN) then process_arch else um_arch m) m) ;;
        m <- get ;;
        e <- in_um_world (GetElf os P k (Some (um_memory m)) (um_arch m)) ;;
        info <- in_um_world (map_info k) ;;
        obj <- in_um_world (on_elf e get) ;;
        r <- in_um_world (on_elf e (Elf.GetFunctionName P (GetRelPc pc (map_start info) (elf_offset info) obj))) ;;
        ret (match r with Some (name, offset) => (name, offset) | None => ([], 0) end)
  end.

(** * [UnwindStackOfflineMap] *)

(** [std::sort] of the maps by their start *)
Context (sort : list backtrace_map_t -> list backtrace_map_t).

Fixpoint add_maps (l : list backtrace_map_t) : MS unit :=
  match l with
  | [] => ret tt
  | m :: l' => Add (bm_start m) (bm_end m) (bm_offset m) (bm_flags m) (bm_name m) (bm_load_bias m) ;; add_maps l'
  end.

Definition offline_Build (backtrace_maps : list backtrace_map_t) : MB bool :=
  modify (fun m => put_um_maps (sort (um_maps m ++ backtrace_maps)) m) ;;
  m <- get ;;
  in_um_world (on_maps (modify (fun _ => new_Maps) ;; add_maps (um_maps m))) ;;
  ret true.

(** [backtrace_stackinfo_t]: start, end and data. The objects that were made from the memory of an
    earlier stack are not followed: the model is that of one stack for each map. *)
Definition CreateProcessMemory (start fin : Z) (data : list byte) : MB bool :=
  if fin <=? start then ret false
  else modify (put_um_memory (MemoryOfflineBuffer.memory (MemoryOfflineBuffer.mk data start fin))) ;; ret true.
End StackMap.

(** [GetFlags], for the [FillIn] of the class *)
Definition GetFlags {B} (fill_in : Z -> M B backtrace_map_t) (pc : Z) : M B Z :=
  map <- fill_in pc ;; ret (if IsValid map then bm_flags map else 0).

(** * Lemmas *)

Definition map_contains (addr : Z) (m : backtrace_map_t) : Prop := bm_start m <= addr < bm_end m.

#[export] Instance map_contains_dec addr m : Decision (map_contains addr m).
Proof. unfold map_contains. apply _. Defined.

Section Fill.
Context {B : Type} `{BacktraceMapClass B}.

Lemma fill_in_loop_spec n index addr b :
  wp any_fault (fill_in_loop n index addr) (fun map _ => map = empty_map \/ map_contains addr map) b.
Proof.
  revert index b. induction n as [|n IH]; intros index b; cbn [fill_in_loop]; [by left|]. wp_simpl.
  unfold wp at 1. destruct (iterator_map index b) as [[[map|] b']|]; [|done|done]. wp_simpl.
  destruct (Z.leb_spec (bm_start map) addr); cbn [andb]; [|apply IH].
  destruct (Z.ltb_spec addr (bm_end map)); [wp_simpl; by right|apply IH].
Qed.

(** When every load bias is known, the first map that contains the address is found, and nothing
    changes. *)
Lemma fill_in_known addr b :
  (forall m, m ∈ bt_maps b -> bm_load_bias m <> UINT64_MAX) ->
  base_FillIn addr b = Done (default empty_map (snd <$> list_find (map_contains addr) (bt_maps b)), b).
Proof.
  intros Hb. unfold base_FillIn. rewrite bind_get.
  assert (forall l pre, bt_maps b = pre ++ l ->
    fill_in_loop (length l) (length pre) addr b = Done (default empty_map (snd <$> list_find (map_contains addr) l), b)) as Hl.
  { induction l as [|m l IH]; intros pre Hpre; [done|]. cbn [length fill_in_loop list_find].
    assert (bt_maps b !! length pre = Some m) as Hm by (by rewrite Hpre, list_lookup_middle).
    assert (iterator_map (length pre) b = Done (Some m, b)) as Hit.
    { unfold iterator_map. rewrite bind_get, Hm. destruct (Z.eqb_spec (bm_load_bias m) UINT64_MAX) as [E|]; [|done].
      destruct (Hb m); [by eapply list_elem_of_lookup_2|done]. }
    rewrite (bind_run _ _ _ _ _ Hit), (bind_run _ _ m b b) by done. unfold decide.
    specialize (IH (pre ++ [m])). rewrite <- app_assoc, length_app, Nat.add_comm in IH. cbn [length plus app] in IH.
    specialize (IH Hpre). destruct (map_contains_dec addr m) as [Hc|Hc]; unfold map_contains in Hc.
    - destruct (Z.leb_spec (bm_start m) addr), (Z.ltb_spec addr (bm_end m)); (lia || done).
    - destruct (Z.leb_spec (bm_start m) addr), (Z.ltb_spec addr (bm_end m)); try lia; cbn [andb]; rewrite IH; by destruct (list_find _ l) as [[]|]. }
  by apply (Hl (bt_maps b) []).
Qed.
End Fill.

(** * The maps of an offline process *)

Definition start_le (a b : backtrace_map_t) : Prop := bm_start a <= bm_start b.

(** What [std::sort] promises for the comparison of [UnwindStackOfflineMap::Build] *)
Definition sorts_starts (sort : list backtrace_map_t -> list backtrace_map_t) : Prop :=
  forall l, sort l ≡ₚ l /\ StronglySorted start_le (sort l).

Definition to_added (m : backtrace_map_t) : added :=
  mkAdded (bm_start m) (bm_end m) (bm_offset m) (bm_flags m) (bm_name m) (bm_load_bias m).

Lemma add_maps_all l : add_maps l = add_all (to_added <$> l).
Proof. induction l as [|m l IH]; [done|]. cbn [add_maps fmap list_fmap add_all to_added ad_start ad_end ad_offset ad_flags ad_name ad_bias]. by rewrite IH. Qed.

Definition maps_disjoint (l : list backtrace_map_t) : Prop :=
  forall i j a b, i <> j -> l !! i = Some a -> l !! j = Some b -> bm_end a <= bm_start b \/ bm_end b <= bm_start a.

Lemma maps_disjoint_perm l l' : l ≡ₚ l' -> maps_disjoint l -> maps_disjoint l'.
Proof.
  intros Hp Hd i j a b Hij Ha Hb. apply Permutation_sym, Permutation_inj in Hp as [_ (f & Hf & Hl)]. rewrite Hl in Ha, Hb.
  apply (Hd (f i) (f j) a b); [|done|done]. intros E. apply Hij. by apply Hf.
Qed.

Lemma maps_disjoint_unique pc l a b :
  maps_disjoint l -> a ∈ l -> b ∈ l -> map_contains pc a -> map_contains pc b -> a = b.
Proof.
  intros Hd [i Ha]%list_elem_of_lookup [j Hb]%list_elem_of_lookup Hca Hcb. unfold map_contains in *.
  destruct (decide (i = j)) as [->|Hij]; [congruence|]. destruct (Hd i j a b Hij Ha Hb); lia.
Qed.

(** The [MapInfo] has the values of the map. *)
Definition same_map (m : backtrace_map_t) (i : MapInfo) : Prop := is_added (to_added m) i.

Section Offline.
Context (sort : list backtrace_map_t -> list backtrace_map_t) (Hsort : sorts_starts sort) (l : list backtrace_map_t).
Context (Hne : forall m, m ∈ l -> bm_start m < bm_end m) (Hdis : maps_disjoint l) (Hsz : Z.of_nat (length l) < 2 ^ 62).

Lemma added_sorted_ok s :
  holds_added (to_added <$> sort l) s ->
  exists infos_, maps_ok s infos_ /\ (forall i, i ∈ infos_ -> exists m, m ∈ sort l /\ same_map m i) /\
    (forall m, m ∈ sort l -> exists i, i ∈ infos_ /\ same_map m i).
Proof.
  intros (Hf & Hm & Hi). destruct (Hsort l) as [Hp Hs]. set (v := sort l) in *.
  destruct (added_maps_ok (to_added <$> v)) with (s := s) (ks := Z.of_nat <$> seq 0 (length v))
    as (infos_ & Hok & H1 & H2).
  - intros e He. apply list_elem_of_fmap in He as (m & -> & Hv). apply Hne. by rewrite <- Hp.
  - intros i j d e Hij Hd He. rewrite list_lookup_fmap in Hd, He.
    destruct (v !! i) as [a|] eqn:Ea, (v !! j) as [b|] eqn:Eb; simplify_eq/=.
    by apply (maps_disjoint_perm l v (symmetry Hp) Hdis i j).
  - rewrite length_fmap. by rewrite (Permutation_length Hp).
  - rewrite Hm, length_fmap. by rewrite <- list_fmap_compose.
  - by rewrite length_fmap.
  - rewrite Hm, length_fmap. assert (forall i m, v !! i = Some m -> start_of (infos s) (Z.of_nat i) = bm_start m) as Hst.
    { intros i m E. destruct (Hi i (to_added m)) as (x & Hx & Ha); [by rewrite list_lookup_fmap, E|].
      unfold start_of. rewrite Hx. cbn. by destruct Ha as [-> _]. }
    clear -Hs Hst. assert (forall pre w, v = pre ++ w -> StronglySorted start_le w ->
      StronglySorted (map_le (infos s)) ((fun i => Some (Z.of_nat i)) <$> seq (length pre) (length w))) as Hgen; [|by apply (Hgen [] v)].
    intros pre w. revert pre. induction w as [|m w IH]; intros pre Hv Hw; [constructor|]. apply StronglySorted_inv in Hw as [Hw Hm].
    cbn [length seq fmap list_fmap]. constructor.
    + specialize (IH (pre ++ [m])). rewrite length_app, Nat.add_comm in IH. apply IH; [by rewrite <- app_assoc|done].
    + apply Forall_fmap, Forall_forall. intros i [Hle Hlt]%elem_of_seq. cbn.
      destruct (lookup_lt_is_Some_2 w (i - S (length pre))) as [m' Hm']; [lia|].
      rewrite (Hst (length pre) m), (Hst i m').
      * rewrite Forall_forall in Hm. apply Hm. by eapply list_elem_of_lookup_2.
      * rewrite Hv, lookup_app_r by lia. replace (i - length pre)%nat with (S (i - S (length pre))) by lia. done.
      * by rewrite Hv, list_lookup_middle.
  - done.
  - exists infos_. split; [done|]. split.
    + intros i Hin. destruct (H1 i Hin) as (e & He & Ha). apply list_elem_of_fmap in He as (m & -> & Hv). by exists m.
    + intros m Hv. destruct (H2 (to_added m)) as (i & Hin & Ha); [by apply list_elem_of_fmap_2|]. by exists i.
Qed.
End Offline.

(** C27. An offline process: whatever the order of its maps, after [Build] an address is found by the
    client's [FillIn], a linear search of the copied maps, and by the unwinder's [Find], a binary
    search of its own, in the same map, the one of the client that contains it, or by neither. *)
Theorem offline_maps_agree os sort l m
  (Hsort : sorts_starts sort) (Hne : forall x, x ∈ l -> bm_start x < bm_end x) (Hdis : maps_disjoint l)
  (Hsz : Z.of_nat (length l) < 2 ^ 62) (Hbias : forall x, x ∈ l -> bm_load_bias x <> UINT64_MAX) (Hm : um_maps m = []) :
  exists m', offline_Build sort l m = Done (true, m') /\
    forall pc, exists map r,
      stack_FillIn os pc m' = Done (map, m') /\ in_um_world (on_maps (Find pc)) m' = Done (r, m') /\
      match r with
      | Some k => map ∈ l /\ map_contains pc map /\ exists i, infos (w_maps (um_world m')) !! k = Some i /\ same_map map i
      | None => map = empty_map /\ forall x, x ∈ l -> ~ map_contains pc x
      end.
Proof.
  destruct (Hsort l) as [Hp _]. destruct (add_all_run [] (to_added <$> sort l) new_Maps) as (s & Hrun & Hs); [by split_and!|].
  cbn [app] in Hs. exists (put_um_world (put_w_maps s (um_world m)) (put_um_maps (sort l) m)). split.
  { unfold offline_Build. rewrite bind_modify, bind_get, Hm. cbn [app um_maps put_um_maps].
    unfold in_um_world, on_maps. unfold bind at 1. unfold zoom. cbn [um_world put_um_maps]. rewrite bind_modify, add_maps_all. unfold MS in Hrun. by rewrite Hrun. }
  intros pc. destruct (added_sorted_ok sort Hsort l Hne Hdis Hsz s Hs) as (infos_ & Hok & Hin & Hall).
  destruct (Find_run s infos_ Hok pc) as (r & Hr & Hspec).
  set (m' := put_um_world (put_w_maps s (um_world m)) (put_um_maps (sort l) m)).
  assert (in_um_world (on_maps (Find pc)) m' = Done (r, m')) as Hfind.
  { unfold in_um_world, on_maps, zoom. cbn [um_world m' put_um_world w_maps put_w_maps]. by rewrite Hr. }
  assert (base_FillIn (H := UnwindStackMap_class os) pc m' = Done (default empty_map (snd <$> list_find (map_contains pc) (sort l)), m')) as Hbase.
  { apply (fill_in_known (H := UnwindStackMap_class os) pc m'). intros x Hx. apply Hbias. by rewrite <- Hp. }
  exists (default empty_map (snd <$> list_find (map_contains pc) (sort l))), r.
  split; [|split; [done|]].
  - unfold stack_FillIn. rewrite (bind_run _ _ _ _ _ Hbase).
    destruct (Z.eqb_spec (bm_load_bias (default empty_map (snd <$> list_find (map_contains pc) (sort l)))) UINT64_MAX) as [E|]; [|done].
    exfalso. destruct (list_find _ (sort l)) as [[i x]|] eqn:El; [|done]. cbn in E. apply list_find_Some in El as (Hi & _ & _).
    apply (Hbias x); [|done]. rewrite <- Hp. by eapply list_elem_of_lookup_2.
  - destruct r as [k|].
    + destruct Hspec as (i & Hi & Hk & Hc). destruct (Hin i Hi) as (x & Hx & Hsame).
      assert (map_contains pc x) as Hcx by (destruct Hsame as (E1 & E2 & _); unfold contains in Hc; by rewrite E1, E2 in Hc).
      destruct (list_find_elem_of (map_contains pc) (sort l) x Hx Hcx) as [[j y] El]. rewrite El. cbn.
      apply list_find_Some in El as (Hj & Hcy & _). assert (y = x) as ->.
      { apply (maps_disjoint_unique pc (sort l)); [by eapply maps_disjoint_perm|by eapply list_elem_of_lookup_2|done..]. }
      split; [by rewrite <- Hp|]. split; [done|]. by exists i.
    + assert (forall x, x ∈ l -> ~ map_contains pc x) as Hno.
      { intros x Hx Hcx. destruct (Hall x) as (i & Hi & Hsame); [by rewrite Hp|]. apply (Hspec i Hi).
        destruct Hsame as (E1 & E2 & _). unfold contains. by rewrite E1, E2. }
      split; [|done]. destruct (list_find _ (sort l)) as [[j y]|] eqn:El; [|done]. apply list_find_Some in El as (Hj & Hcy & _).
      destruct (Hno y); [|done]. rewrite <- Hp. by eapply list_elem_of_lookup_2.
Qed.

(** ** An instance of the sort *)

#[export] Instance start_le_dec : RelDecision start_le.
Proof. intros a b. unfold start_le. apply _. Defined.
#[export] Instance start_le_total : @base.Total backtrace_map_t start_le.
Proof. intros a b. unfold start_le. lia. Qed.
#[export] Instance start_le_trans : Transitive start_le.
Proof. intros a b c. unfold start_le. lia. Qed.

Lemma merge_sort_sorts : sorts_starts (merge_sort start_le).
Proof. intros l. split; [apply merge_sort_Permutation|apply (StronglySorted_merge_sort _)]. Qed.

Definition two_maps : list backtrace_map_t :=
  [mkBacktraceMap 0x3000 0x4000 0 0 5 [x62]; mkBacktraceMap 0x1000 0x2000 0 0x100 5 [x61]].

Definition empty_stack_map : UnwindStackMap :=
  mkStackMap [] (mkWorld new_Maps ∅ 0 false ∅) (MemoryBuffer.memory (MemoryBuffer.mk [])) None None ARCH_UNKNOWN [] true.

Lemma offline_maps_agree_witness :
  exists m', offline_Build (merge_sort start_le) two_maps empty_stack_map = Done (true, m') /\
    stack_FillIn (mkSystem 4096 (fun _ => None) (fun _ _ _ => false)) 0x1fff m' = Done (mkBacktraceMap 0x1000 0x2000 0 0x100 5 [x61], m') /\
    in_um_world (on_maps (Find 0x1fff)) m' = Done (Some 0, m').
Proof.
  destruct (offline_maps_agree (mkSystem 4096 (fun _ => None) (fun _ _ _ => false)) (merge_sort start_le) two_maps empty_stack_map)
    as (m' & Hb & _).
  - apply merge_sort_sorts.
  - intros x Hx. repeat (apply elem_of_cons in Hx as [->|Hx]; [cbn; lia|]). by apply not_elem_of_nil in Hx.
  - intros [|[|i]] [|[|j]] a b Hij Ha Hb; cbn in Ha, Hb; simplify_eq; cbn; lia.
  - cbn. lia.
  - intros x Hx. repeat (apply elem_of_cons in Hx as [->|Hx]; [done|]). by apply not_elem_of_nil in Hx.
  - done.
  - exists m'. split; [exact Hb|]. vm_compute in Hb. injection Hb as <-. split; reflexivity.
Defined.
