(* ===== verification/Backtrace.v ===== *)
(** [Backtrace.h], [Backtrace.cpp], and the reads of [BacktraceCurrent.cpp] and [BacktracePtrace.cpp]:
    the object that a client of libbacktrace holds for a thread.

    The [Read] and [ReadWord] of [BacktraceCurrent] and [BacktracePtrace] are related to one function, [map_bytes];
    which of them the objects of [Create] have is in [UnwindStack]. *)
From Stdlib Require Import ZArith Lia Bool Strings.Byte Strings.String.
From stdpp Require Import base numbers list gmap.
From S2P Require Import Prelude Memory RemoteMemory Regs ElfTypes ElfInterface RegsArch Maps Elf MapInfo Global JitDebug DexFiles Unwinder UnwinderFormat BacktraceMap.
#[local] Open Scope Z_scope.

(** * Data *)

Inductive BacktraceUnwindErrorCode : Set :=
| BACKTRACE_UNWIND_NO_ERROR
| BACKTRACE_UNWIND_ERROR_SETUP_FAILED
| BACKTRACE_UNWIND_ERROR_MAP_MISSING
| BACKTRACE_UNWIND_ERROR_INTERNAL
| BACKTRACE_UNWIND_ERROR_THREAD_DOESNT_EXIST
| BACKTRACE_UNWIND_ERROR_THREAD_TIMEOUT
| BACKTRACE_UNWIND_ERROR_UNSUPPORTED_OPERATION
| BACKTRACE_UNWIND_ERROR_NO_CONTEXT
| BACKTRACE_UNWIND_ERROR_EXCEED_MAX_FRAMES_LIMIT
| BACKTRACE_UNWIND_ERROR_ACCESS_MEM_FAILED
| BACKTRACE_UNWIND_ERROR_ACCESS_REG_FAILED
| BACKTRACE_UNWIND_ERROR_FIND_PROC_INFO_FAILED
| BACKTRACE_UNWIND_ERROR_EXECUTE_DWARF_INSTRUCTION_FAILED
| BACKTRACE_UNWIND_ERROR_UNWIND_INFO
| BACKTRACE_UNWIND_ERROR_REPEATED_FRAME
| BACKTRACE_UNWIND_ERROR_INVALID_ELF.

#[export] Instance BacktraceUnwindErrorCode_eq_dec : EqDecision BacktraceUnwindErrorCode.
Proof. solve_decision. Defined.

(** [error_info] is the union of [addr] and [regno]: [None] until it is set. *)
Record BacktraceUnwindError := mkUnwindError { error_code : BacktraceUnwindErrorCode; error_info : option Z }.

(** A default-constructed error *)
Definition no_error : BacktraceUnwindError := mkUnwindError BACKTRACE_UNWIND_NO_ERROR None.

Definition put_error_code (c : BacktraceUnwindErrorCode) (e : BacktraceUnwindError) : BacktraceUnwindError :=
  mkUnwindError c (error_info e).

Record backtrace_frame_data_t := mkFrameData {
  fd_num : Z;
  fd_pc : Z;
  fd_rel_pc : Z;
  fd_sp : Z;
  fd_stack_size : Z;
  fd_map : backtrace_map_t;
  fd_func_name : list byte;
  fd_func_offset : Z
}.

(** [map_] is [None] when it is null: the maps could not be read. *)
Record Backtrace := mkBacktrace {
  pid_ : Z;
  tid_ : Z;
  map_ : option UnwindStackMap;
  bt_frames : list backtrace_frame_data_t;
  skip_frames_ : bool;
  error_ : BacktraceUnwindError
}.

Definition put_bt_map (m : option UnwindStackMap) (b : Backtrace) : Backtrace :=
  mkBacktrace (pid_ b) (tid_ b) m (bt_frames b) (skip_frames_ b) (error_ b).
Definition put_bt_frames (l : list backtrace_frame_data_t) (b : Backtrace) : Backtrace :=
  mkBacktrace (pid_ b) (tid_ b) (map_ b) l (skip_frames_ b) (error_ b).
Definition put_bt_error (e : BacktraceUnwindError) (b : Backtrace) : Backtrace :=
  mkBacktrace (pid_ b) (tid_ b) (map_ b) (bt_frames b) (skip_frames_ b) e.
Definition SetSkipFrames (skip_frames : bool) (b : Backtrace) : Backtrace :=
  mkBacktrace (pid_ b) (tid_ b) (map_ b) (bt_frames b) skip_frames (error_ b).

(** [Backtrace::Backtrace]; [created] is what [BacktraceMap::Create] returns. *)
Definition new_Backtrace (pid tid : Z) (map created : option UnwindStackMap) : Backtrace :=
  mkBacktrace pid tid (match map with Some _ => map | None => created end) [] true no_error.

Abbreviation MBT := (M Backtrace).

(** [map_->...] *)
Definition in_bt_map {A} (m : MB A) : MBT A := fun b =>
  match map_ b with
  | None => Fault (Undef UbNull)
  | Some map =>
      match m map with
      | Done (r, map) => Done (r, put_bt_map (Some map) b)
      | Fault f => Fault f
      end
  end.

(** * [Create] *)

Inductive created : Set := UnwindStackCurrent (pid tid : Z) | UnwindStackPtrace (pid tid : Z).

(** [own] and [own_tid] are the process and the thread of the caller. *)
Definition Create (own own_tid pid tid : Z) : created :=
  let '(pid, tid) :=
    if pid =? -1 then (own, if tid =? -1 then own_tid else tid)
    else (pid, if tid =? -1 then pid else tid) in
  if pid =? own then UnwindStackCurrent pid tid else UnwindStackPtrace pid tid.

(** * Texts *)

(** [error_info] of an error whose code sets none is not initialized. *)
Definition info_value (error : BacktraceUnwindError) : outcome Z :=
  match error_info error with Some v => Done v | None => Fault (Undef UbUninit) end.

Definition error_text (error_code : BacktraceUnwindErrorCode) : list byte :=
  match error_code with
  | BACKTRACE_UNWIND_NO_ERROR => text "No error"
  | BACKTRACE_UNWIND_ERROR_SETUP_FAILED => text "Setup failed"
  | BACKTRACE_UNWIND_ERROR_MAP_MISSING => text "No map found"
  | BACKTRACE_UNWIND_ERROR_INTERNAL => text "Internal libbacktrace error, please submit a bugreport"
  | BACKTRACE_UNWIND_ERROR_THREAD_DOESNT_EXIST => text "Thread doesn't exist"
  | BACKTRACE_UNWIND_ERROR_THREAD_TIMEOUT => text "Thread has not responded to signal in time"
  | BACKTRACE_UNWIND_ERROR_UNSUPPORTED_OPERATION => text "Attempt to use an unsupported feature"
  | BACKTRACE_UNWIND_ERROR_NO_CONTEXT => text "Attempt to do an offline unwind without a context"
  | BACKTRACE_UNWIND_ERROR_EXCEED_MAX_FRAMES_LIMIT => text "Exceed MAX_BACKTRACE_FRAMES limit"
  | BACKTRACE_UNWIND_ERROR_ACCESS_MEM_FAILED => text "Failed to read memory at addr 0x"
  | BACKTRACE_UNWIND_ERROR_ACCESS_REG_FAILED => text "Failed to read register "
  | BACKTRACE_UNWIND_ERROR_FIND_PROC_INFO_FAILED => text "Failed to find a function in debug sections"
  | BACKTRACE_UNWIND_ERROR_EXECUTE_DWARF_INSTRUCTION_FAILED => text "Failed to execute dwarf instructions in debug sections"
  | BACKTRACE_UNWIND_ERROR_UNWIND_INFO => text "Failed to unwind due to invalid unwind information"
  | BACKTRACE_UNWIND_ERROR_REPEATED_FRAME => text "Failed to unwind due to same sp/pc repeating"
  | BACKTRACE_UNWIND_ERROR_INVALID_ELF => text "Failed to unwind due to invalid elf"
  end.

Definition GetErrorString (error : BacktraceUnwindError) : outcome (list byte) :=
  match error_code error, info_value error with
  | BACKTRACE_UNWIND_ERROR_ACCESS_MEM_FAILED, Done addr => Done (error_text (error_code error) ++ print_x addr)
  | BACKTRACE_UNWIND_ERROR_ACCESS_REG_FAILED, Done regno => Done (error_text (error_code error) ++ digits 10 regno)
  | (BACKTRACE_UNWIND_ERROR_ACCESS_MEM_FAILED | BACKTRACE_UNWIND_ERROR_ACCESS_REG_FAILED), Fault f => Fault f
  | code, _ => Done (error_text code)
  end.

(** The name of the map; one in brackets gets the start of the map. *)
Definition frame_map_name (m : backtrace_map_t) : list byte :=
  if IsValid m then
    let map_name := Name m in
    if negb (bool_decide (bm_name m = [])) && bool_decide (head map_name = Some x5b) && bool_decide (last map_name = Some x5d) then
      removelast map_name ++ text ":" ++ print_ptr (bm_start m) ++ text "]"
    else map_name
  else text "<unknown>".

Definition FormatFrameData (frame : backtrace_frame_data_t) : list byte :=
  text "#" ++ pad 2 (digits 10 (fd_num frame)) ++ text " pc " ++ print_ptr (fd_rel_pc frame) ++ text "  " ++
  frame_map_name (fd_map frame) ++
  (if bm_offset (fd_map frame) =? 0 then [] else text " (offset 0x" ++ print_x (bm_offset (fd_map frame)) ++ text ")") ++
  (if bool_decide (fd_func_name frame = []) then []
   else text " (" ++ fd_func_name frame ++
        (if fd_func_offset frame =? 0 then [] else text "+" ++ digits 10 (fd_func_offset frame)) ++ text ")").

(** [GetFrame], and [FormatFrameData(size_t)] *)
Definition GetFrame (frame_num : Z) (b : Backtrace) : option backtrace_frame_data_t :=
  if Z.of_nat (length (bt_frames b)) <=? frame_num then None else bt_frames b !! Z.to_nat frame_num.

Definition FormatFrameData_num (frame_num : Z) (b : Backtrace) : list byte :=
  match GetFrame frame_num b with None => [] | Some frame => FormatFrameData frame end.

(** * Maps *)

Section Client.
Context (os : system) (P : params) (demangle : list byte -> list byte).

(** [map] is left as it is when there are no maps. *)
Definition FillInMap (map : backtrace_map_t) (pc : Z) : MBT backtrace_map_t :=
  b <- get ;;
  match map_ b with
  | None => ret map
  | Some _ => in_bt_map (stack_FillIn os pc)
  end.

(** [GetFunctionNameRaw] of the classes for a process that runs *)
Definition GetFunctionNameRaw (process_arch : ArchEnum) (pc : Z) : MBT (list byte * Z) :=
  in_bt_map (stack_GetFunctionName os P process_arch pc).

(** [offset] is only assigned by [raw]. *)
Definition GetFunctionName (raw : Z -> MBT (list byte * Z)) (pc offset : Z) (map : option backtrace_map_t) : MBT (list byte * Z) :=
  map <- match map with Some map => ret map | None => FillInMap empty_map pc end ;;
  if (bm_start map =? 0) || negb (Z.land (bm_flags map) MAPS_FLAGS_DEVICE_MAP =? 0) then ret ([], offset)
  else r <- raw pc ;; let '(name, offset) := r in ret (demangle (c_str name), offset).

(** * Reads *)

(** A [word_t] has 8 bytes. *)
Definition VerifyReadWordArgs (ptr : Z) : bool := Z.land ptr 7 =? 0.

Definition is_readable (map : backtrace_map_t) : bool := IsValid map && negb (Z.land (bm_flags map) PROT_READ =? 0).

(** The bytes of the own process: an access to one that is not mapped is a fault. *)
Definition local_bytes (local : Z -> option byte) (addr bytes : Z) : outcome (list byte) :=
  let bs := read_bytes local addr (Z.to_nat bytes) in
  if len bs =? bytes then Done bs else Fault (Undef UbNull).

(** [BacktraceCurrent]. A read of a word returns the result and [*out_value]. *)
Definition Current_ReadWord (local : Z -> option byte) (ptr : Z) : MBT (bool * Z) :=
  if negb (VerifyReadWordArgs ptr) then ret (false, UINT64_MAX)
  else
    map <- FillInMap empty_map ptr ;;
    if is_readable map then bs <- lift (local_bytes local ptr 8) ;; ret (true, le_val bs)
    else ret (false, UINT64_MAX).

Definition Current_Read (local : Z -> option byte) (addr bytes : Z) : MBT (list byte) :=
  map <- FillInMap empty_map addr ;;
  if negb (is_readable map) then ret []
  else lift (local_bytes local addr (Z.min (u64 (bm_end map - addr)) bytes)).

(** [PtraceRead] of [BacktracePtrace.cpp]: the value of the call is left in [*out_value]. *)
Definition word_PtraceRead (sys : syscalls) (addr : Z) : bool * Z :=
  match PtraceReadLong sys addr with Some v => (true, u64 v) | None => (false, UINT64_MAX) end.

(** [BacktracePtrace]; [out] is the old value of [*out_value]. *)
Definition Ptrace_ReadWord (sys : syscalls) (ptr out : Z) : MBT (bool * Z) :=
  if negb (VerifyReadWordArgs ptr) then ret (false, UINT64_MAX)
  else
    map <- FillInMap empty_map ptr ;;
    if negb (is_readable map) then ret (false, out) else ret (word_PtraceRead sys ptr).

(** The copy is, statement by statement, the one of [PtraceRead] in [Memory.cpp]. *)
Definition Ptrace_Read (sys : syscalls) (addr bytes : Z) : MBT (list byte) :=
  map <- FillInMap empty_map addr ;;
  if negb (is_readable map) then ret []
  else ret (ptrace_copy sys addr (Z.min (u64 (bm_end map - addr)) bytes)).
End Client.

(** * Theorems *)

Lemma stack_FillIn_spec os addr m :
  wp any_fault (stack_FillIn os addr) (fun map _ => IsValid map = true -> map_contains addr map) m.
Proof.
  unfold stack_FillIn. wp_simpl. eapply wp_mono; [apply fill_in_loop_spec|done|]. cbn beta. intros map m' Hc.
  assert (IsValid map = true -> map_contains addr map) as Hmap by (intros Hv; by destruct Hc as [->|]). clear Hc.
  wp_simpl. destruct (bm_load_bias map =? UINT64_MAX); cbn [negb]; [|by wp_simpl]. wp_simpl.
  unfold wp at 1. destruct (in_um_world _ _) as [[[k|] m2]|]; [|by wp_simpl|done]. wp_simpl.
  unfold wp. destruct (in_um_world _ _) as [[bias m3]|]; [|done].
  exact Hmap.
Qed.

Lemma FillInMap_contains os addr b map b' :
  FillInMap os empty_map addr b = Done (map, b') -> IsValid map = true -> map_contains addr map.
Proof.
  unfold FillInMap. rewrite bind_get. destruct (map_ b) as [m|] eqn:E; [|by intros [= <- <-]].
  unfold in_bt_map. rewrite E. pose proof (stack_FillIn_spec os addr m) as Hw. unfold wp in Hw.
  destruct (stack_FillIn os addr m) as [[map' m']|]; [|done]. by intros [= <- <-].
Qed.

Lemma readable_contains os addr b map b' :
  FillInMap os empty_map addr b = Done (map, b') -> is_readable map = true -> 0 <= addr -> bm_end map < 2 ^ 64 ->
  map_contains addr map /\ u64 (bm_end map - addr) = bm_end map - addr.
Proof.
  intros Hf Hr Ha He. apply andb_true_iff in Hr as [Hv _]. pose proof (FillInMap_contains _ _ _ _ _ Hf Hv) as Hc. split; [done|].
  unfold map_contains in Hc. by rewrite wrap_small by (unfold in_u; lia).
Qed.

(** The bytes of a process from [addr] on, up to the end of the map. *)
Definition map_bytes (bm : Z -> option byte) (map : backtrace_map_t) (addr n : Z) : list byte :=
  if is_readable map then read_bytes bm addr (Z.to_nat (Z.min (bm_end map - addr) n)) else [].

Lemma read_bytes_full bm a n :
  (forall i, (i < n)%nat -> bm (a + Z.of_nat i) <> None) -> length (read_bytes bm a n) = n.
Proof.
  revert a. induction n as [|n IH]; intros a Ha; [done|]. simpl. specialize (Ha O ltac:(lia)) as H0. rewrite Z.add_0_r in H0.
  destruct (bm a); [|done]. simpl. f_equal. apply IH. intros i Hi. specialize (Ha (S i) ltac:(lia)).
  by replace (a + 1 + Z.of_nat i) with (a + Z.of_nat (S i)) by lia.
Qed.

(** The own process has the bytes of a map that is readable. *)
Definition map_backed (local : Z -> option byte) (map : backtrace_map_t) : Prop :=
  forall a, map_contains a map -> local a <> None.

Lemma local_bytes_map local map addr n :
  map_contains addr map -> map_backed local map -> 0 <= n ->
  local_bytes local addr (Z.min (bm_end map - addr) n) = Done (read_bytes local addr (Z.to_nat (Z.min (bm_end map - addr) n))).
Proof.
  intros Hc Hb Hn. unfold local_bytes, len, map_contains in *. rewrite read_bytes_full.
  - destruct (Z.eqb_spec (Z.of_nat (Z.to_nat (Z.min (bm_end map - addr) n))) (Z.min (bm_end map - addr) n)); [done|lia].
  - intros i Hi. apply Hb. unfold map_contains. lia.
Qed.

(** Two unsigned words are the values of the same bytes *)
Lemma peek_value sys bm `{!Ptrace sys bm} a :
  0 <= a -> a mod 8 = 0 ->
  word_PtraceRead sys a = if len (read_bytes bm a 8) =? 8 then (true, le_val (read_bytes bm a 8)) else (false, UINT64_MAX).
Proof.
  intros Ha Hal. unfold word_PtraceRead, PtraceReadLong. destruct (Z.eqb_spec (len (read_bytes bm a 8)) 8) as [E|E]; unfold len in E.
  - assert (length (read_bytes bm a 8) = 8%nat) as Hl by lia. rewrite (peek_word a Ha Hal Hl). rewrite andb_false_r. f_equal.
    pose proof (le_val_range (read_bytes bm a 8)) as Hr. rewrite Hl in Hr. unfold sgn, wrap in *. change (8 * Z.of_nat 8) with 64 in Hr.
    rewrite (Z.mod_small (le_val _)) by lia. destruct (_ <? _); [by rewrite Z.mod_small by lia|].
    rewrite <- (Z.mod_add (_ - _) 1) by lia. rewrite Z.mod_small by lia. lia.
  - destruct (peek_fails a Ha Hal) as (e & -> & He); [lia|]. cbn. by destruct (Z.eqb_spec e 0).
Qed.

(** The reads of [BacktraceCurrent] and [BacktracePtrace] as functions of the bytes of the process. The [Read] of the latter is
    overridden by the objects that are made for a traced process. *)
Section MapReads.
Context (os : system) (k : Z) (bm local : Z -> option byte) (sys : syscalls) (addr : Z) (b : Backtrace) (map : backtrace_map_t) (b' : Backtrace).
Context `{Hsys : !Ptrace sys bm} (Hk : 3 <= k) (Hpages : page_mapped k bm) (Haddr : 0 <= addr).
Context (Hfill : FillInMap os empty_map addr b = Done (map, b')) (Hend : bm_end map < 2 ^ 64).

Lemma Current_Read_map n : 0 <= n -> (is_readable map = true -> map_backed local map) ->
  Current_Read os local addr n b = Done (map_bytes local map addr n, b').
Proof using Haddr Hfill Hend.
  intros Hn Hlocal. unfold Current_Read, map_bytes. rewrite (bind_run _ _ _ _ _ Hfill). destruct (is_readable map) eqn:Hr; cbn [negb]; [|done].
  destruct (readable_contains _ _ _ _ _ Hfill Hr Haddr Hend) as [Hc ->]. unfold lift. by rewrite (local_bytes_map local map addr n Hc (Hlocal eq_refl) Hn).
Qed.

Lemma Ptrace_Read_map n : 0 <= n -> Ptrace_Read os sys addr n b = Done (map_bytes bm map addr n, b').
Proof using Hsys Hk Hpages Haddr Hfill Hend.
  intros Hn. unfold Ptrace_Read, map_bytes. rewrite (bind_run _ _ _ _ _ Hfill). destruct (is_readable map) eqn:Hr; cbn [negb]; [|done].
  destruct (readable_contains _ _ _ _ _ Hfill Hr Haddr Hend) as [Hc ->]. unfold map_contains in Hc.
  by rewrite (ptrace_copy_exact k bm Hk Hpages sys) by lia.
Qed.

Lemma VerifyReadWordArgs_aligned : VerifyReadWordArgs addr = (addr mod 8 =? 0).
Proof using Haddr. unfold VerifyReadWordArgs. change 7 with (2 ^ 3 - 1). by rewrite (land_low addr 3) by lia. Qed.

Lemma Current_ReadWord_map : bm_end map mod 8 = 0 -> (is_readable map = true -> map_backed local map) ->
  Current_ReadWord os local addr b =
    Done (if negb (addr mod 8 =? 0) then (false, UINT64_MAX, b)
          else if is_readable map then (true, le_val (read_bytes local addr 8), b') else (false, UINT64_MAX, b')).
Proof using Haddr Hfill Hend.
  intros He8 Hlocal. unfold Current_ReadWord. rewrite VerifyReadWordArgs_aligned. destruct (Z.eqb_spec (addr mod 8) 0) as [Hal|]; cbn [negb]; [|done].
  rewrite (bind_run _ _ _ _ _ Hfill). destruct (is_readable map) eqn:Hr; [|done].
  destruct (readable_contains _ _ _ _ _ Hfill Hr Haddr Hend) as [Hc _]. pose proof Hc as Hc'. unfold map_contains in Hc'.
  assert (8 <= bm_end map - addr) as H8 by (pose proof (Z.div_mod addr 8); pose proof (Z.div_mod (bm_end map) 8); lia).
  pose proof (local_bytes_map local map addr 8 Hc (Hlocal eq_refl) ltac:(lia)) as Hl. rewrite Z.min_r in Hl by done.
  change (Z.to_nat 8) with 8%nat in Hl. rewrite (bind_run _ _ (read_bytes local addr 8) b' b'); [done|]. unfold lift. by rewrite Hl.
Qed.

Lemma Ptrace_ReadWord_map out :
  Ptrace_ReadWord os sys addr out b =
    Done (if negb (addr mod 8 =? 0) then (false, UINT64_MAX, b)
          else if negb (is_readable map) then (false, out, b')
          else if len (read_bytes bm addr 8) =? 8 then (true, le_val (read_bytes bm addr 8), b') else (false, UINT64_MAX, b')).
Proof using Hsys Haddr Hfill.
  unfold Ptrace_ReadWord. rewrite VerifyReadWordArgs_aligned. destruct (Z.eqb_spec (addr mod 8) 0) as [Hal|]; cbn [negb]; [|done].
  rewrite (bind_run _ _ _ _ _ Hfill). destruct (is_readable map); cbn [negb]; [|done].
  rewrite (peek_value sys bm) by done. by destruct (_ =? 8).
Qed.
End MapReads.

(** A process with one map, whose last page of 8 bytes is not there for another process. *)
Definition small_map : backtrace_map_t := mkBacktraceMap 64 80 0 0 PROT_READ [].
Definition small_backtrace : Backtrace :=
  new_Backtrace 1 1 None (Some (mkStackMap [small_map] (mkWorld new_Maps ∅ 0 false ∅) (MemoryBuffer.memory (MemoryBuffer.mk []))
    None None ARCH_UNKNOWN [] true)).
