(* ===== verification/UnwindStack.v ===== *)
(** [UnwindStack.cpp] of libbacktrace, and the dispatch of [BacktraceCurrent::Unwind]: the unwind of a
    thread with the unwinder of libunwindstack, and its frames for the client.

    The unwinder works on the maps, the ELF objects and the finders of the [UnwindStackMap], which
    keeps what the unwind changed in them. The reads are those of the objects that [Backtrace::Create] makes, with what
    [UnwindStackPtrace] overrides. *)
From Stdlib Require Import ZArith Lia Bool Strings.Byte Strings.String.
From stdpp Require Import base numbers list gmap.
From S2P Require Import Prelude Memory RemoteMemory Regs ElfTypes ElfInterface RegsArch Maps Elf MapInfo Global JitDebug DexFiles Unwinder UnwinderLoop UnwinderFormat BacktraceMap Backtrace ThreadUnwind.
#[local] Open Scope Z_scope.

Definition MAX_BACKTRACE_FRAMES : Z := 256.

(** The error code of the unwinder for that of libbacktrace; the address is set with one of them. *)
Definition report_error (last : ErrorData) (error : BacktraceUnwindError) : BacktraceUnwindError :=
  match err_code last with
  | ERROR_NONE => put_error_code BACKTRACE_UNWIND_NO_ERROR error
  | ERROR_MEMORY_INVALID => mkUnwindError BACKTRACE_UNWIND_ERROR_ACCESS_MEM_FAILED (Some (err_address last))
  | ERROR_UNWIND_INFO => put_error_code BACKTRACE_UNWIND_ERROR_UNWIND_INFO error
  | ERROR_UNSUPPORTED => put_error_code BACKTRACE_UNWIND_ERROR_UNSUPPORTED_OPERATION error
  | ERROR_INVALID_MAP => put_error_code BACKTRACE_UNWIND_ERROR_MAP_MISSING error
  | ERROR_MAX_FRAMES_EXCEEDED => put_error_code BACKTRACE_UNWIND_ERROR_EXCEED_MAX_FRAMES_LIMIT error
  | ERROR_REPEATED_FRAME => put_error_code BACKTRACE_UNWIND_ERROR_REPEATED_FRAME error
  | ERROR_INVALID_ELF => put_error_code BACKTRACE_UNWIND_ERROR_INVALID_ELF error
  end.

Section UnwindStack.
Context (demangle : list byte -> list byte).

Definition back_frame (num : nat) (frame : FrameData) : backtrace_frame_data_t :=
  mkFrameData (Z.of_nat num) (f_pc frame) (f_rel_pc frame) (f_sp frame) 0
    (mkBacktraceMap (f_map_start frame) (f_map_end frame) (f_map_elf_start_offset frame) (f_map_load_bias frame)
       (f_map_flags frame) (f_map_name frame))
    (demangle (c_str (f_function_name frame))) (f_function_offset frame).

(** The frames behind the first [num_ignore_frames], numbered from 0. *)
Definition back_frames (num_ignore_frames : Z) (frames : list FrameData) : list backtrace_frame_data_t :=
  if Z.of_nat (length frames) <=? num_ignore_frames then []
  else imap back_frame (drop (Z.to_nat num_ignore_frames) frames).

Context (L : dexlib) (os : system) (P : params).

(** The unwinder that [Backtrace::Unwind] makes *)
Definition make_unwinder (arch : ArchEnum) (regs : Regs) (num_ignore_frames : Z) (map : UnwindStackMap) : Unwinder :=
  let u := new_Unwinder (u64 (MAX_BACKTRACE_FRAMES + num_ignore_frames)) arch regs (um_memory map) (um_world map) in
  put_options (um_resolve_names map) (embedded_soname_ u) (display_build_id_ u) u.

Definition set_finders (arch : ArchEnum) (map : UnwindStackMap) : MU unit :=
  match um_jit map with Some j => SetJitDebug j arch | None => ret tt end ;;
  match um_dex map with Some d => SetDexFiles d arch | None => ret tt end.

(** The objects that the unwinder shares with the map *)
Definition share_back (u : Unwinder) (map : UnwindStackMap) : UnwindStackMap :=
  put_um_finders (jit_debug_ u) (dex_files_ u) (put_um_world (u_world u) map).

(** [Backtrace::Unwind]: [regs] is [None] for a null pointer. The result is always true; the frames
    and the error are returned. *)
Definition static_Unwind (fuel : nat) (regs : option (ArchEnum * Regs)) (num_ignore_frames : Z)
    (skip_names : option (list (list byte))) (error : BacktraceUnwindError) : MB (list backtrace_frame_data_t * BacktraceUnwindError) :=
  map <- get ;;
  regs <- some_or (Undef UbNull) regs ;;
  let '(arch, regs) := regs in
  modify (put_um_arch arch) ;;
  map <- get ;;
  let u := make_unwinder arch regs num_ignore_frames map in
  u <- lift (match (set_finders arch map ;; Unwind L os P fuel skip_names (Some (um_suffixes map))) u with
             | Done (_, u) => Done u
             | Fault f => Fault f
             end) ;;
  modify (share_back u) ;;
  ret (back_frames num_ignore_frames (frames_ u), report_error (last_error_ u) error).

(** * The classes *)

(** The call of [Backtrace::Unwind] with the members of the object *)
Definition object_Unwind (fuel : nat) (regs : option (ArchEnum * Regs)) (num_ignore_frames : Z)
    (skip_names : option (list (list byte))) : MBT bool :=
  b <- get ;;
  r <- in_bt_map (static_Unwind fuel regs num_ignore_frames skip_names (error_ b)) ;;
  modify (fun b => put_bt_error (snd r) (put_bt_frames (fst r) b)) ;;
  ret true.

(** [CreateFromUcontext] with the architecture *)
Definition ucontext_regs (arch : ArchEnum) (ucontext : list byte) : option (ArchEnum * Regs) :=
  pair arch <$> RegsArch.CreateFromUcontext arch ucontext.

Definition skip_names : list (list byte) := [text "libunwindstack.so"; text "libbacktrace.so"].

(** [UnwindStackCurrent]: [local_regs] are those that [RegsGetLocal] finds. *)
Definition UnwindFromContext (fuel : nat) (current : ArchEnum) (local_regs : Regs) (num_ignore_frames : Z)
    (ucontext : option (list byte)) : MBT bool :=
  b <- get ;;
  let regs := match ucontext with None => Some (current, local_regs) | Some uc => ucontext_regs current uc end in
  object_Unwind fuel regs num_ignore_frames (Some (if skip_frames_ b then skip_names else [])).

(** [UnwindStackPtrace]: [remote_regs] are those of [Regs::RemoteGet], which may fail. *)
Definition Ptrace_Unwind (fuel : nat) (current : ArchEnum) (remote_regs : option (ArchEnum * Regs)) (num_ignore_frames : Z)
    (context : option (list byte)) : MBT bool :=
  object_Unwind fuel (match context with None => remote_regs | Some uc => ucontext_regs current uc end) num_ignore_frames None.

(** [UnwindStackPtrace::Read] does not look at the maps; its memory is part of the object. *)
Definition UnwindStackPtrace_Read (sys : syscalls) (addr bytes : Z) : M (Backtrace * MemoryRemote) (list byte) :=
  zoom snd (fun r p => (fst p, r)) (remote_Read sys addr bytes).

(** The virtual [Read] and [ReadWord] of the object that [Backtrace::Create] makes: of the own process those of
    [BacktraceCurrent], of a traced one the [Read] of [UnwindStackPtrace] and the [ReadWord] of [BacktracePtrace]. *)
Definition object_Read (object : created) (local : Z -> option byte) (sys : syscalls) (addr bytes : Z) : M (Backtrace * MemoryRemote) (list byte) :=
  match object with
  | UnwindStackCurrent _ _ => zoom fst (fun b p => (b, snd p)) (Current_Read os local addr bytes)
  | UnwindStackPtrace _ _ => UnwindStackPtrace_Read sys addr bytes
  end.

Definition object_ReadWord (object : created) (local : Z -> option byte) (sys : syscalls) (ptr out : Z) : M (Backtrace * MemoryRemote) (bool * Z) :=
  zoom fst (fun b p => (b, snd p))
    match object with
    | UnwindStackCurrent _ _ => Current_ReadWord os local ptr
    | UnwindStackPtrace _ _ => Ptrace_ReadWord os sys ptr out
    end.

(** [Backtrace::ArchEnum] *)
Inductive BacktraceArch : Set := BT_ARCH_ARM | BT_ARCH_ARM64 | BT_ARCH_X86 | BT_ARCH_X86_64.

Definition offline_arch (arch : BacktraceArch) : ArchEnum :=
  match arch with
  | BT_ARCH_ARM => ARCH_ARM
  | BT_ARCH_ARM64 => ARCH_ARM64
  | BT_ARCH_X86 => ARCH_X86
  | BT_ARCH_X86_64 => ARCH_X86_64
  end.

Definition Offline_Unwind (fuel : nat) (arch : BacktraceArch) (num_ignore_frames : Z) (ucontext : option (list byte)) : MBT bool :=
  match ucontext with
  | None => ret false
  | Some uc => object_Unwind fuel (ucontext_regs (offline_arch arch) uc) num_ignore_frames None
  end.

Definition Offline_Read (addr bytes : Z) : MBT (list byte) := ret [].
Definition Offline_ReadWord (ptr out : Z) : MBT (bool * Z) := ret (false, out).
Definition Offline_GetFunctionNameRaw (pc offset : Z) : MBT (list byte * Z) := ret ([], offset).

(** [UnwindOffline], on an offline map *)
Definition UnwindOffline (fuel : nat) (regs : option (ArchEnum * Regs)) (start fin : Z) (data : list byte)
    (error : BacktraceUnwindError) : MB (option (list backtrace_frame_data_t) * BacktraceUnwindError) :=
  ok <- BacktraceMap.CreateProcessMemory start fin data ;;
  if negb ok then ret (None, put_error_code BACKTRACE_UNWIND_ERROR_SETUP_FAILED error)
  else r <- static_Unwind fuel regs 0 None error ;; ret (Some (fst r), snd r).

(** [CreateOffline], from maps and a stack: the maps are those of a new object, whose memory is null
    until [CreateProcessMemory] sets it. *)
Definition CreateOffline (sort : list backtrace_map_t -> list backtrace_map_t) (pid tid : Z) (maps : list backtrace_map_t)
    (start fin : Z) (data : list byte) (new_map : UnwindStackMap) : outcome (option Backtrace) :=
  match offline_Build sort maps new_map with
  | Fault f => Fault f
  | Done (false, _) => Done None
  | Done (true, map) =>
      match BacktraceMap.CreateProcessMemory start fin data map with
      | Fault f => Fault f
      | Done (false, _) => Done None
      | Done (true, map) => Done (Some (new_Backtrace pid tid (Some map) None))
      end
  end.

(** * [BacktraceCurrent] *)

(** [tid_ == GetThreadId()] is [own_tid]; [thread] is the unwind of another thread. *)
Definition Current_Unwind (from_context : Z -> option (list byte) -> MBT bool) (thread : Z -> MBT bool) (own_tid : Z)
    (num_ignore_frames : Z) (ucontext : option (list byte)) : MBT bool :=
  b <- get ;;
  match map_ b with
  | None => modify (fun b => put_bt_error (put_error_code BACKTRACE_UNWIND_ERROR_MAP_MISSING (error_ b)) b) ;; ret false
  | Some _ =>
      modify (fun b => put_bt_error (put_error_code BACKTRACE_UNWIND_NO_ERROR (error_ b)) b) ;;
      match ucontext with
      | Some uc => from_context num_ignore_frames (Some uc)
      | None => if negb (tid_ b =? own_tid) then thread num_ignore_frames else from_context num_ignore_frames None
      end
  end.

(** What [UnwindThread] does with the object, for the result of its exchange with the thread and the
    context that the entry then holds *)
Definition UnwindThread (from_context : Z -> option (list byte) -> MBT bool) (result : thread_result) (context : list byte)
    (num_ignore_frames : Z) : MBT bool :=
  let failed code := modify (fun b => put_bt_error (put_error_code code (error_ b)) b) ;; ret false in
  match result with
  | Unwound => from_context num_ignore_frames (Some context)
  | NoThread => failed BACKTRACE_UNWIND_ERROR_THREAD_DOESNT_EXIST
  | Timeout => failed BACKTRACE_UNWIND_ERROR_THREAD_TIMEOUT
  | Internal => failed BACKTRACE_UNWIND_ERROR_INTERNAL
  end.

Definition DiscardFrame (frame : backtrace_frame_data_t) : bool :=
  IsValid (fd_map frame) &&
    (let library := basename (c_str (bm_name (fd_map frame))) in
     bool_decide (library = text "libunwind.so") || bool_decide (library = text "libbacktrace.so")).
End UnwindStack.

(** * Theorems *)

(** The unwinder with the finders of the map, before its loop. *)
Definition with_finders (arch : ArchEnum) (regs : Regs) (num_ignore_frames : Z) (map : UnwindStackMap) : outcome Unwinder :=
  match set_finders arch map (make_unwinder arch regs num_ignore_frames map) with
  | Done (_, u) => Done u
  | Fault f => Fault f
  end.

Lemma wp_run_object {G B} (m : M G B) g (k : G -> Unwinder -> Unwinder) (Q : unit -> Unwinder -> Prop) u :
  (forall g, Q tt (k g u)) -> wp any_fault (run_object m g k) Q u.
Proof. intros HQ. unfold wp, run_object. destruct (m g) as [[? g']|]; [apply HQ|done]. Qed.

Lemma set_finders_spec arch map u :
  wp any_fault (set_finders arch map) (fun _ u' => max_frames_ u' = max_frames_ u /\ u_regs u' = u_regs u) u.
Proof.
  unfold set_finders, SetJitDebug, SetDexFiles. wp_simpl.
  destruct (um_jit map), (um_dex map); repeat first [apply wp_run_object; intros ?| progress wp_simpl]; done.
Qed.

Lemma with_finders_spec arch regs num map u :
  with_finders arch regs num map = Done u -> max_frames_ u = u64 (MAX_BACKTRACE_FRAMES + num) /\ u_regs u = regs.
Proof.
  unfold with_finders. pose proof (set_finders_spec arch map (make_unwinder arch regs num map)) as Hw. unfold wp in Hw.
  destruct (set_finders _ _ _) as [[[] u']|]; [|done]. by intros [= <-].
Qed.

Section Frames.
Context (demangle : list byte -> list byte).

Lemma back_frames_length num frames : 0 <= num ->
  Z.of_nat (length (back_frames demangle num frames)) = Z.max 0 (Z.of_nat (length frames) - num).
Proof.
  intros Hn. unfold back_frames. destruct (Z.leb_spec (Z.of_nat (length frames)) num); [simpl; lia|].
  rewrite length_imap, length_drop. lia.
Qed.

Lemma back_frames_lookup num frames i f : 0 <= num ->
  back_frames demangle num frames !! i = Some f ->
  exists g, frames !! (Z.to_nat num + i)%nat = Some g /\ f = back_frame demangle i g.
Proof.
  intros Hn. unfold back_frames. destruct (Z.leb_spec (Z.of_nat (length frames)) num); [by rewrite lookup_nil|].
  rewrite list_lookup_imap, lookup_drop. destruct (frames !! _) as [g|]; [|done]. intros [= <-]. by exists g.
Qed.
End Frames.

(** C22. The unwind for a client of libbacktrace, without maps to skip: its loop over the frames is bounded
    by 256 and the number of frames to ignore, whatever the process and its files contain, and there are at
    most 256 frames. They are those of the unwinder behind the ignored ones, in their order and with their
    pcs, numbered from 0; without frames to ignore the first one is that of the registers. A fault is that
    of [SetJitDebug] or [SetDexFiles], or of an iteration that was reached, which may be a step
    whose own loops do not end. *)
Theorem static_unwind_bounded demangle L os P arch regs num skip error map
  (Hnum : 0 <= num < 2 ^ 64) (Hskip : default [] skip = []) :
  exists n r, Z.of_nat n <= MAX_BACKTRACE_FRAMES + num /\
    (forall fuel, (n < fuel)%nat -> static_Unwind demangle L os P fuel (Some (arch, regs)) num skip error map = r) /\
    match r with
    | Done (frames, e, map') =>
        Z.of_nat (length frames) <= MAX_BACKTRACE_FRAMES /\
        exists u u', with_finders arch regs num (put_um_arch arch map) = Done u /\
          (forall fuel, (n < fuel)%nat -> Unwind L os P fuel skip (Some (um_suffixes map)) u = Done (tt, u')) /\
          e = report_error (last_error_ u') error /\ map' = share_back u' (put_um_arch arch map) /\
          Z.of_nat (length frames) = Z.max 0 (num_frames u' - num) /\
          (forall i f, frames !! i = Some f -> fd_num f = Z.of_nat i /\
             exists g, frames_ u' !! (Z.to_nat num + i)%nat = Some g /\ f_num g = num + Z.of_nat i /\
               fd_pc f = f_pc g /\ fd_rel_pc f = f_rel_pc g /\ fd_sp f = f_sp g) /\
          (num = 0 -> dex_pc_ regs = 0 -> um_suffixes map = [] ->
             exists f pc, frames !! 0%nat = Some f /\ reg_at (sp_reg regs) regs = Some (fd_sp f) /\
               reg_at (pc_reg regs) regs = Some pc /\ fd_pc f = u64 pc)
    | Fault e =>
        with_finders arch regs num (put_um_arch arch map) = Fault e \/
        exists u, with_finders arch regs num (put_um_arch arch map) = Done u /\
          iteration_faults L os P (Some (um_suffixes map)) n skip (reset u) e
    end.
Proof.
  assert (MAX_BACKTRACE_FRAMES = 256) as H256 by done.
  assert (forall fuel, static_Unwind demangle L os P fuel (Some (arch, regs)) num skip error map =
    match with_finders arch regs num (put_um_arch arch map) with
    | Fault f => Fault f
    | Done u => match Unwind L os P fuel skip (Some (um_suffixes map)) u with
                | Fault f => Fault f
                | Done (_, u') => Done (back_frames demangle num (frames_ u'), report_error (last_error_ u') error, share_back u' (put_um_arch arch map))
                end
    end) as Heq.
  { intros fuel. unfold static_Unwind, with_finders. rewrite !bind_get. cbn [some_or]. rewrite (bind_run _ _ (arch, regs) map map) by done.
    rewrite bind_modify, bind_get. unfold bind at 1, lift. unfold bind at 1.
    destruct (set_finders _ _ _) as [[[] u]|]; [|done]. change (um_suffixes (put_um_arch arch map)) with (um_suffixes map).
    by destruct (Unwind _ _ _ _ _ _ _) as [[[] u']|]. }
  destruct (with_finders arch regs num (put_um_arch arch map)) as [u|e] eqn:Hu.
  2:{ exists 0%nat, (Fault e). unfold MAX_BACKTRACE_FRAMES. split; [lia|]. split; [|by left]. intros fuel _. apply Heq. }
  destruct (with_finders_spec _ _ _ _ _ Hu) as [Hmax Hregs].
  destruct (unwind_run L os P skip (Some (um_suffixes map)) u Hskip) as (n & r & Hn & Hr & Hpost).
  assert (0 <= max_frames_ u <= MAX_BACKTRACE_FRAMES + num) as Hle.
  { rewrite Hmax. unfold MAX_BACKTRACE_FRAMES. split; [apply wrap_range; lia|]. unfold wrap. apply Z.mod_le; [lia|done]. }
  assert (Z.max 0 (max_frames_ u - num) <= MAX_BACKTRACE_FRAMES) as Hle2 by lia.
  assert (forall fuel, (n < fuel)%nat -> Unwind L os P fuel skip (Some (um_suffixes map)) u = r) as Hun
    by (intros; by apply (unwind_runs _ _ _ _ _ n)).
  destruct r as [[[] u']|f].
  2:{ exists n, (Fault f). split; [lia|]. split; [|right; by exists u]. intros fuel Hf. by rewrite Heq, Hun. }
  destruct Hpost as (Hlen & Hnumd & Hfirst).
  exists n, (Done (back_frames demangle num (frames_ u'), report_error (last_error_ u') error, share_back u' (put_um_arch arch map))).
  split; [lia|]. split; [intros fuel Hf; by rewrite Heq, Hun|]. rewrite back_frames_length by lia. unfold num_frames in *.
  split; [lia|]. exists u, u'. split_and!; [done|done|done|done|done| |].
  - intros i f Hi. destruct (back_frames_lookup demangle num _ _ _ (proj1 Hnum) Hi) as (g & Hg & ->). split; [done|]. exists g.
    split_and!; [done|rewrite (Hnumd _ _ Hg); lia|done..].
  - intros -> Hd Hs. rewrite Hregs in Hfirst. destruct Hfirst as (f & rest & pc & Hf & _ & Hsp & Hpc & Hfpc); [rewrite Hmax; done|done|by rewrite Hs|].
    exists (back_frame demangle 0 f), pc. rewrite Hf. unfold back_frames. cbn [length]. rewrite (proj2 (Z.leb_gt _ _)) by lia.
    rewrite Hregs in Hsp, Hpc. done.
Qed.

(** Signal frames that return to each other for ever: the limit ends the unwind. *)
Definition trampoline_map : UnwindStackMap :=
  mkStackMap [] (trampoline_world trampoline_code [x61]) trampoline_stacks None None ARCH_UNKNOWN [] true.

Lemma static_unwind_bounded_witness :
  let L := mkDexLib (fun _ _ _ => None) (fun _ _ _ => (None, 0, [])) (fun _ _ => (0, [])) in
  let os := mkSystem 4096 (fun _ => None) (fun _ _ _ => false) in
  let P := mkParams 1 (fun _ => []) (fun l => l) 0 (mkUnpacker unit tt (fun _ _ _ => (tt, [], 0, false, false)) (fun _ => false)) in
  exists frames e map', (forall fuel, (259 < fuel)%nat ->
    static_Unwind id L os P fuel (Some (ARCH_X86_64, trampoline_regs 0x2000)) 3 (Some []) no_error trampoline_map = Done (frames, e, map')) /\
    length frames = 256%nat /\ GetErrorString e = Done (text "Exceed MAX_BACKTRACE_FRAMES limit").
Proof.
  intros L os P.
  destruct (static_unwind_bounded id L os P ARCH_X86_64 (trampoline_regs 0x2000) 3 (Some []) no_error trampoline_map) as (n & r & Hn & Hfuel & _);
    [lia|reflexivity|]. change (MAX_BACKTRACE_FRAMES + 3) with 259 in Hn.
  assert (match static_Unwind id L os P 260 (Some (ARCH_X86_64, trampoline_regs 0x2000)) 3 (Some []) no_error trampoline_map with
          | Done (frames, e, _) => (Nat.eqb (length frames) 256) && bool_decide (error_code e = BACKTRACE_UNWIND_ERROR_EXCEED_MAX_FRAMES_LIMIT)
          | Fault _ => false end = true) as Hd by (vm_compute; reflexivity).
  rewrite (Hfuel 260%nat) in Hd by lia. destruct r as [[[frames e] map']|]; [|done]. apply andb_true_iff in Hd as [Hl He].
  exists frames, e, map'. split; [intros fuel Hf; apply Hfuel; lia|]. split; [by apply Nat.eqb_eq|]. unfold GetErrorString.
  by rewrite (bool_decide_eq_true_1 _ He).
Defined.

(** C26. The reads of the objects that [Backtrace::Create] makes, as functions of the bytes of the process. An object for
    the own process reads those up to the end of the map of the address, and none of a map that is not readable.
    That for a traced process does not look at the maps: it reads all the bytes of the request up to the first one that the
    process does not have, so that behind those up to the end of the map come those that follow the map, which the comment of
    [Backtrace.h] excludes. Both read a word only at an aligned address in a readable map, and the word is that of the
    eight bytes there. *)
Theorem backtrace_reads os k bm local sys own own_tid pid tid addr n out b map b' r `{!RemoteCalls k sys bm}
  (Hk : 3 <= k) (Hpages : page_mapped k bm) (Hreq : request_ok k (addr, n)) (Hr : remote_ok bm sys r)
  (Hfill : FillInMap os empty_map addr b = Done (map, b')) (Hend : bm_end map < 2 ^ 64) (Hend8 : bm_end map mod 8 = 0)
  (Hlocal : is_readable map = true -> map_backed local map) :
  let object := Create own own_tid pid tid in
  let read := object_Read os object local sys addr n (b, r) in
  let word := object_ReadWord os object local sys addr out (b, r) in
  match object with
  | UnwindStackCurrent _ _ =>
      read = Done (map_bytes local map addr n, (b', r)) /\
      word = Done (if negb (addr mod 8 =? 0) then (false, UINT64_MAX, (b, r))
                   else if is_readable map then (true, le_val (read_bytes local addr 8), (b', r)) else (false, UINT64_MAX, (b', r)))
  | UnwindStackPtrace _ _ =>
      (exists r', read = Done (read_bytes bm addr (Z.to_nat n), (b, r')) /\ remote_ok bm sys r') /\
      (forall over, is_readable map = true -> 0 <= over -> addr + n = bm_end map + over ->
         (forall a, map_contains a map -> bm a <> None) ->
         read_bytes bm addr (Z.to_nat n) = map_bytes bm map addr n ++ read_bytes bm (bm_end map) (Z.to_nat over)) /\
      word = Done (if negb (addr mod 8 =? 0) then (false, UINT64_MAX, (b, r))
                   else if negb (is_readable map) then (false, out, (b', r))
                   else if len (read_bytes bm addr 8) =? 8 then (true, le_val (read_bytes bm addr 8), (b', r))
                   else (false, UINT64_MAX, (b', r)))
  end.
Proof.
  intros object read word. pose proof Hreq as (Ha & Hn & _ & _). subst read word. unfold object_Read, object_ReadWord, zoom. cbn [fst snd].
  destruct object.
  - rewrite (Current_Read_map os local addr b map b') by done. split; [done|]. rewrite (Current_ReadWord_map os local addr b map b') by done.
    by destruct (addr mod 8 =? 0), (is_readable map).
  - split_and!.
    + destruct (wp_elim _ _ _ (remote_Read_exact k bm Hk Hpages sys addr n r Hreq Hr)) as (bs & r' & Hrun & -> & Hr').
      exists r'. unfold UnwindStackPtrace_Read, zoom. cbn [fst snd]. by rewrite Hrun.
    + intros over Hread Hover Hn' Hbm. destruct (readable_contains _ _ _ _ _ Hfill Hread Ha Hend) as [Hc _].
      unfold map_contains in Hc. unfold map_bytes. rewrite Hread, Z.min_l by lia.
      replace n with ((bm_end map - addr) + over) by lia. rewrite read_bytes_app_Z; [do 2 f_equal; lia|lia|lia|].
      unfold len. rewrite read_bytes_full; [lia|]. intros i Hi. apply Hbm. unfold map_contains. lia.
    + rewrite (Ptrace_ReadWord_map os bm sys addr b map b') by done. by destruct (addr mod 8 =? 0), (is_readable map), (len (read_bytes bm addr 8) =? 8).
Qed.

(** A request that goes on behind the map: the own process reads 10 bytes, a traced one all 20. *)
Lemma backtrace_reads_witness :
  let os := mkSystem 4096 (fun _ => None) (fun _ _ _ => false) in
  let bm := fun a => Some (byte_of a) in
  let s := (small_backtrace, new_MemoryRemote) in
  object_Read os (Create 1 1 (-1) (-1)) bm (calls_of 8 bm) 70 20 s = Done (read_bytes bm 70 10, s) /\
  exists r', object_Read os (Create 1 1 2 2) bm (calls_of 8 bm) 70 20 s = Done (read_bytes bm 70 10 ++ read_bytes bm 80 10, (small_backtrace, r')).
Proof.
  intros os bm s.
  assert (request_ok 3 (70, 20) /\ remote_ok bm (calls_of 8 bm) new_MemoryRemote) as [Hreq Hr] by (split; [by split_and!; vm_compute|done]).
  split.
  - destruct (backtrace_reads os 3 bm bm (calls_of 8 bm) 1 1 (-1) (-1) 70 20 0 small_backtrace small_map small_backtrace new_MemoryRemote)
      as [H _]; [lia|done|exact Hreq|exact Hr|reflexivity|reflexivity|reflexivity|done|exact H].
  - destruct (backtrace_reads os 3 bm bm (calls_of 8 bm) 1 1 2 2 70 20 0 small_backtrace small_map small_backtrace new_MemoryRemote)
      as ((r' & H & _) & Hover & _); [lia|done|exact Hreq|exact Hr|reflexivity|reflexivity|reflexivity|done|].
    exists r'. specialize (Hover 10 eq_refl). rewrite Hover in H; [exact H|lia|reflexivity|done].
Defined.
